(* ===== verification/_CoqProject ===== *)
-Q . S2P
Prelude.v
Text.v
Net.v
Events.v
Registry.v
QrField.v
QrBits.v
QrGrid.v
QrSymbol.v
QrDecode.v
QrCorrect.v
QrSvg.v
Wire.v
SipMsg.v
Registrar.v
Routing.v
Base64.v
Licence.v
SipAuth.v
Directory.v
Enroll.v
EnrollSeats.v
EnrollProps.v
Interfaces.v
Gateway.v
GatewayStep.v
GatewayProps.v
PbxLine.v
PbxLineProps.v
PbxRegister.v
Pump.v
Trunk.v
AppLeg.v
AppLegProps.v
Call.v
CallProps.v
Admin.v
LineBook.v
Limiter.v
Server.v
ServerSeats.v
ServerProps.v
ServerRestart.v
ServerExample.v
Transfer.v
TransferProps.v
TransferEnd.v
TransferOver.v
Moh.v
Relay.v
Qualify.v
Console.v
Csv.v
DirApi.v
LogLevel.v
Diag.v
FrontDoor.v
Status.v
ConsoleApi.v
ConsoleBooks.v
DirDisk.v
Secrets.v
LicenceApi.v
AdminApi.v
EnrolApi.v
PortRelay.v
CertFile.v
Startup.v
VendorTool.v
