(* ===== verification/Prelude.v ===== *)
(** Dialpark server: a verification development.

    * The program

    Dialpark lets phones on a building's Wi-Fi act as extensions of a telephone
    exchange (PBX).  The server (src/server) stands between the two.  Phones hold a
    signal connection to its gateway and are woken over it; they register and call
    over SIP on the app leg; calls are bridged by a back-to-back user agent, to
    another phone or over the trunk to the PBX, with the media relayed in between.
    An operator enrols phones, gives them settings, address books and PBX lines,
    installs the licence and watches the system through an admin API and a console
    that is a process of its own.

    What holds it together, and what the development is built around:

    - the enrolment store says who exists and holds a licence seat;
    - every change of a seat or a record is carried by hooks to the location table,
      the authenticator, the gateway and the PBX lines (Server);
    - a call finds its callee through the location table, wakes it through the
      gateway, and becomes a bridged call that ends for everybody in it.

    * The files, in the order they are checked

    Prelude, Text, Net, Base64: machine integers, options, lists and maps; Go's byte
    strings and the parts of strings, strconv, net, base64 and hex that are used.

    Events (internal/events): the event ring and its cursor read.
    Registry (internal/registry): the location table and those who wait on it.
    QrField, QrBits, QrGrid, QrSymbol, QrDecode, QrCorrect, QrSvg (internal/qr): the
    QR encoder, from the field to the picture, against a scanner of the standard.
    Wire (internal/wire): the client protocol's envelope and framing.
    SipMsg, Registrar (internal/sip): SIP messages and the reference registrar.
    Routing (internal/routing): where a dialled destination goes.
    Licence (internal/licence): the token and the manager of the installed licence.
    SipAuth (internal/sipauth): SIP Digest and its nonces.
    Directory (internal/directory): the address books.
    Enroll, EnrollSeats, EnrollProps (internal/enroll): the store, the seats as a
    queue, and what holds of every operation.
    Interfaces: what one component promises another, as classes.
    Gateway, GatewayStep, GatewayProps (internal/gateway): the signal gateway as a
    system of goroutines.
    PbxLine, PbxLineProps, PbxRegister (internal/pbxline): the lines on the exchange.
    Pump, Trunk, AppLeg, AppLegProps, Call, CallProps (internal/b2bua, internal/pbx):
    the numbers of a relayed stream, the trunk, the app leg's admission, an incoming
    call up to the bridge.
    Admin, LineBook, Limiter, Server, ServerSeats, ServerProps, ServerRestart,
    ServerExample (internal/admin, cmd/dialpark-server, enroll/handler.go,
    enroll/admin_handler.go): strict requests, and the server wired together.
    Transfer, TransferProps, TransferEnd, TransferOver, Moh, Relay, Qualify
    (internal/b2bua, internal/moh): the bridged call with hold and transfers, the
    clips, the goroutines that carry its media, and the watch over its parties.
    Console, Csv (internal/adminui): the console's sessions and front door, its files.
    DirApi, LogLevel, Diag, FrontDoor, Status (directory/handler.go,
    internal/loglevel, internal/diag, admin/limit.go and chain.go, internal/status):
    the resources of the admin API, the bounds in front of it, the views.
    ConsoleApi, ConsoleBooks (internal/adminui): the console's pages as programs of
    requests to the admin API, and composed with the address books behind it through
    the class BookServer.
    DirDisk, Secrets (internal/directory, internal/secrets, licence/installid.go): the
    files, what a crash leaves of them and what the next start finds.
    LicenceApi, AdminApi, EnrolApi (licence/handler.go, main.go's muxes,
    enroll/handler.go): the licence over HTTP, both listeners' routes, the enrolment
    link from the server through the QR code to the app.
    PortRelay (internal/relay): the stand-alone relay's ports and latches.
    CertFile, Startup (internal/tlsutil, main.go and pbxlines.go, b2bua.New,
    internal/qos): the kept certificate, and the server from its flags to its
    listeners.
    VendorTool (cmd/dialpark-licence, licence/vendorkey.go): keys and licences as the
    vendor makes them, up to the seats of a server.

    * How it is modelled

    A definition has the name of the Go function it translates where Rocq allows it;
    the manifest beside the development gives the lines.  State under a mutex is a
    record; a section under the lock is a function of it, so that an operation which
    drops the lock in the middle is as many functions as it has sections, and the
    theorems quantify over what other goroutines do in between.  Goroutines are step
    relations or lists of actions that interleave (Gateway, PbxLine, Transfer,
    Relay, LogLevel); a call up to the bridge is a program in a state monad with a trace
    (Call).  Go maps are gmaps; where the code ranges over one and the order shows,
    the order is an argument.  An index out of range, a nil dereference and a channel
    closed twice are failures of the model (None, or a flag), so a theorem that an
    operation succeeds says that the code does not panic there.

    Tokens of the rate limiter are exact, where the source has doubles.

    Integers keep their width wherever the source can leave it (Prelude's wraps:
    Events, QrField, Pump, Registrar).  Times are nanoseconds in Z with 0 for Go's
    zero time; counters of 64 bits that only grow by one a call are Z.

    Arguments of the definitions stand for code that is not under src/ and for the
    world: the SIP stack's and the network's answers, clocks, random draws, the order
    of map ranges, failures of the file system, and cryptography (MD5, SHA-256,
    AES-GCM, Ed25519, X.509) and JSON texts.  What is assumed of one is a named hypothesis of the
    section or theorem that needs it, and each such theorem has an instance at
    concrete functions.

    * Fuel

    Recursion that is not structural takes fuel: the SIP reader and the CSV reader
    one unit per byte of the input, [trim_left_n] and its fellow one per byte, the QR
    zigzag one per module.  Every call supplies the length of its input and one more,
    and the theorems about these functions are about what such calls return, so
    that running out would refute them.

    * What is shown

    - Data: QR symbols scan back to their payload and carry the best mask; SIP
      messages, CSV and clip files, base64 and sealed secrets read back; framing,
      trunk addresses and enrolment links round-trip.
    - Stores: the event ring is the last n events; deltas of an address book bring a
      phone to the server's list whatever came in between; a preview of a replacement
      is what the replacement does; writes of enrolment, directory and licence happen
      whole or not at all; the licensed devices are the front of the seat queue.
    - Files: whatever a start, a write or a crash left, no address book is lost, what
      was sealed opens, and the certificate the phones pinned is presented again.
    - Admission: who passes Digest, who may act as whom, who passes the licence and the
      console's front door, how many attempts an address has, how many requests the
      admin API takes, and which route answers on which listener.
    - Live behaviour: a woken phone is told every wake and every cancel; a caller hears
      one final answer; nobody is left behind when a bridged call ends; the party that
      has gone is noticed and the one that answers is kept; a PBX credential is sent
      once and a refused line stays silent; a relayed stream stays continuous while its
      packets can be written, and the current source alone writes it.
    - The operator: a page shows what there is, what is told as done was answered as
      done, and the upload that was confirmed is the one that was shown.
    - The whole: only a seated device is reachable, every event is answered, a server
      that has lived is as one that has just started over the same store; what a start
      tells phones and the PBX is where it listens, and a licence from the vendor's tool
      is in force until the end of its last day and no longer.

    The conditions a theorem needs are in its statement and its comment; where the code
    does not hold without one, an example beside it shows that.  Where modelling showed that the code does not do what it means to, the fact is a
    lemma or example beside the component and a finding of the manifest.

    * Not modelled

    Texts of logs and of error messages; JSON and HTML as texts (handlers take the
    decoded body, pages are their data, without the templates); TLS, sockets, HTTP's own
    machinery, the flag package and the SIP and media stack (diago, sipgo), whose answers
    are arguments; the byte-copy path of the relay and the floating-point jitter estimate;
    the audio of the clips; a diagnostics upload that is cut half way, and HTTP ranges; the
    order of shutdown; the case of letters beyond ASCII in addresses; the fake app of the harness; the iOS app but for the enrolment
    link; the test harness, the tools, the documents and the website.  The manifest lists
    each part with the reason. *)

From Stdlib Require Export Ascii ZArith Lia.
From stdpp Require Export base option list list_numbers gmap strings sorting fin_maps.

#[export] Set Default Goal Selector "1".

Declare Scope go_scope.
Delimit Scope go_scope with go.

(** ** Machine integers

    A Go integer of a fixed width is a [Z] kept in range by an explicit wrap
    wherever the source can leave the range. *)

Definition wrapu (w z : Z) : Z := (z mod 2 ^ w)%Z.
Definition wraps (w z : Z) : Z := ((z + 2 ^ (w - 1)) mod 2 ^ w - 2 ^ (w - 1))%Z.

Abbreviation u8 := (wrapu 8).
Abbreviation u16 := (wrapu 16).
Abbreviation u32 := (wrapu 32).
Abbreviation u64 := (wrapu 64).
Abbreviation i16 := (wraps 16).
Abbreviation i32 := (wraps 32).
Abbreviation i64 := (wraps 64).

Lemma wrapu_range w z : (0 <= w)%Z -> (0 <= wrapu w z < 2 ^ w)%Z.
Proof. intros. apply Z.mod_pos_bound. lia. Qed.

Lemma wrapu_small w z : (0 <= z < 2 ^ w)%Z -> wrapu w z = z.
Proof. intros. by apply Z.mod_small. Qed.

Lemma wraps_range w z : (0 < w)%Z -> (- 2 ^ (w - 1) <= wraps w z < 2 ^ (w - 1))%Z.
Proof.
  intros Hw. unfold wraps.
  pose proof (Z.mod_pos_bound (z + 2 ^ (w - 1)) (2 ^ w) ltac:(lia)) as Hb.
  assert (2 ^ w = 2 * 2 ^ (w - 1))%Z as E by (rewrite <- Z.pow_succ_r by lia; f_equal; lia).
  lia.
Qed.

Lemma wraps_small w z : (0 < w)%Z -> (- 2 ^ (w - 1) <= z < 2 ^ (w - 1))%Z -> wraps w z = z.
Proof.
  intros Hw Hz. unfold wraps.
  assert (2 ^ w = 2 * 2 ^ (w - 1))%Z as E by (rewrite <- Z.pow_succ_r by lia; f_equal; lia).
  rewrite Z.mod_small; lia.
Qed.

(** ** Slices

    Indexing and slicing a Go slice outside its length panics: these return
    [None] there, so an operation that may panic is an [option]. *)

Section slices.
Context {A : Type}.

Definition zlen (l : list A) : Z := Z.of_nat (length l).

Definition go_index (l : list A) (i : Z) : option A :=
  if decide (0 <= i)%Z then l !! Z.to_nat i else None.

Definition go_store (l : list A) (i : Z) (x : A) : option (list A) :=
  if decide (0 <= i < zlen l)%Z then Some (<[Z.to_nat i := x]> l) else None.

Definition go_slice (l : list A) (a b : Z) : option (list A) :=
  if decide (0 <= a <= b /\ b <= zlen l)%Z
  then Some (take (Z.to_nat (b - a)) (drop (Z.to_nat a) l)) else None.

(** The last [n] elements of a list. *)
Definition lastn (n : nat) (l : list A) : list A := drop (length l - n) l.

Lemma go_index_middle (pre : list A) x post : go_index (pre ++ x :: post) (zlen pre) = Some x.
Proof.
  unfold go_index, zlen. rewrite decide_True by lia. by rewrite Nat2Z.id, list_lookup_middle.
Qed.

Lemma go_store_middle (pre : list A) x y post :
  go_store (pre ++ x :: post) (zlen pre) y = Some (pre ++ y :: post).
Proof.
  unfold go_store, zlen. rewrite decide_True by (rewrite length_app; simpl; lia).
  by rewrite Nat2Z.id, insert_app_r_alt, Nat.sub_diag by lia.
Qed.

Lemma lastn_snoc_full n (l : list A) x :
  n <= length l -> 0 < n -> lastn n (l ++ [x]) = drop 1 (lastn n l) ++ [x].
Proof.
  intros Hn H0. unfold lastn. rewrite length_app; simpl.
  rewrite drop_drop. replace (length l + 1 - n) with (length l - n + 1) by lia.
  rewrite drop_app_le by lia. done.
Qed.

Lemma lastn_all n (l : list A) : length l <= n -> lastn n l = l.
Proof. intros. unfold lastn. by replace (length l - n) with 0 by lia. Qed.

Lemma length_lastn n (l : list A) : length (lastn n l) = Nat.min n (length l).
Proof. unfold lastn. rewrite length_drop. lia. Qed.
End slices.

(** ** Maps *)

Lemma map_to_list_filter `{Countable K} {A} (P : K * A -> Prop) `{!forall x, Decision (P x)} (m : gmap K A) :
  map_to_list (filter P m) ≡ₚ filter P (map_to_list m).
Proof.
  apply NoDup_Permutation; [apply NoDup_map_to_list|apply NoDup_filter, NoDup_map_to_list|].
  intros [k x]. rewrite list_elem_of_filter, !elem_of_map_to_list, map_lookup_filter_Some. naive_solver.
Qed.

(** ** Time

    A [time.Time] is the number of nanoseconds since the zero [time.Time],
    so that [IsZero] is [= 0]; a [time.Duration] is a signed 64-bit number
    of nanoseconds and [Sub] saturates at its bounds. *)

Definition ns_second : Z := 1000000000.
Definition ns_minute : Z := 60 * ns_second.
Definition ns_hour : Z := 60 * ns_minute.

Definition is_zero (t : Z) : bool := (t =? 0)%Z.
Definition after (a b : Z) : bool := (b <? a)%Z.
Definition before (a b : Z) : bool := (a <? b)%Z.
Definition time_sub (a b : Z) : Z := Z.max (- 2 ^ 63) (Z.min (2 ^ 63 - 1) (a - b)).

(** ** Strings

    A Go string is a [string] of bytes. Case folding and white space are the
    ASCII ones; a byte of 128 or more is left alone. *)

Definition ascii_code (c : Ascii.ascii) : N := Ascii.N_of_ascii c.

Definition lower_ascii (c : Ascii.ascii) : Ascii.ascii :=
  if decide (65 <= ascii_code c <= 90)%N then Ascii.ascii_of_N (ascii_code c + 32) else c.

Fixpoint to_lower (s : string) : string :=
  match s with
  | EmptyString => EmptyString
  | String c s' => String (lower_ascii c) (to_lower s')
  end.

(** [strings.EqualFold] *)
Definition equal_fold (a b : string) : bool := bool_decide (to_lower a = to_lower b).

Fixpoint has_prefix (p s : string) : bool :=
  match p, s with
  | EmptyString, _ => true
  | String a p', String b s' => bool_decide (a = b) && has_prefix p' s'
  | _, _ => false
  end.

Definition is_digit (c : Ascii.ascii) : bool := bool_decide (48 <= ascii_code c <= 57)%N.

Fixpoint digits_val (acc : Z) (s : string) : option Z :=
  match s with
  | EmptyString => Some acc
  | String c s' =>
      if is_digit c then digits_val (10 * acc + (Z.of_N (ascii_code c) - 48)) s' else None
  end.

(** [strconv.ParseUint(s, 10, 64)]; [None] is an error (syntax or range). *)
Definition parse_uint64 (s : string) : option Z :=
  match s with
  | EmptyString => None
  | _ => v ← digits_val 0 s; if decide (v < 2 ^ 64)%Z then Some v else None
  end.

(** [strconv.Atoi] on a 64-bit platform. *)
Definition atoi (s : string) : option Z :=
  let '(neg, digits) :=
    match s with
    | String "-"%char s' => (true, s')
    | String "+"%char s' => (false, s')
    | _ => (false, s)
    end in
  match digits with
  | EmptyString => None
  | _ =>
      v ← digits_val 0 digits;
      let z := if neg then (- v)%Z else v in
      if decide (- 2 ^ 63 <= z < 2 ^ 63)%Z then Some z else None
  end.

(** ** Automation *)


(** Destruct every [match]/[if]/[decide] left in the goal or a hypothesis. *)
Ltac crush_matches :=
  repeat (case_match || case_decide || case_bool_decide); simplify_eq/=.

(** The [k] cases of a variable [n] from [lo] on, smallest first; the goal with
    none left must contradict the context. *)
Ltac z_cases n lo k :=
  lazymatch k with
  | O => exfalso; lia
  | S ?k' => destruct (Z.eq_dec n lo) as [->|?];
      [|let lo' := eval compute in (lo + 1)%Z in z_cases n lo' k']
  end.

Create HintDb go discriminated.
Create Rewrite HintDb go.
#[export] Hint Rewrite @length_app @length_drop @length_take @length_insert @length_replicate : go.
