(* ===== verification/Text.v ===== *)
(** Byte strings as lists of characters, with the parts of Go's [strings] and
    [strconv] the SIP code uses. White space and case are the ASCII ones; a
    byte of 128 or more is neither a space nor a letter. *)

From S2P Require Import Prelude.
Open Scope Z_scope.

Abbreviation text := (list Ascii.ascii).

(** A literal. *)
Definition T (s : string) : text := String.list_ascii_of_string s.

Definition to_string (t : text) : string := String.string_of_list_ascii t.

Lemma to_string_T s : to_string (T s) = s.
Proof. apply String.string_of_list_ascii_of_string. Qed.

Lemma T_to_string t : T (to_string t) = t.
Proof. apply String.list_ascii_of_string_of_list_ascii. Qed.

(** ** Searching and cutting *)

Fixpoint IndexByte (s : text) (c : Ascii.ascii) : option nat :=
  match s with
  | [] => None
  | a :: s' => if decide (a = c) then Some O else S <$> IndexByte s' c
  end.

(** [strings.Cut] at a single byte; [None] when it does not occur. *)
Fixpoint Cut (s : text) (c : Ascii.ascii) : option (text * text) :=
  match s with
  | [] => None
  | a :: s' =>
      if decide (a = c) then Some ([], s')
      else '(before, rest) ← Cut s' c; Some (a :: before, rest)
  end.

Fixpoint has_prefix_t (p s : text) : bool :=
  match p, s with
  | [], _ => true
  | a :: p', b :: s' => bool_decide (a = b) && has_prefix_t p' s'
  | _ :: _, [] => false
  end.

Definition TrimPrefix (s p : text) : text := if has_prefix_t p s then drop (length p) s else s.

(** [strings.SplitN(s, c, 3)]. *)
Definition SplitN3 (s : text) (c : Ascii.ascii) : list text :=
  match Cut s c with
  | None => [s]
  | Some (a, r) => match Cut r c with None => [a; r] | Some (b, r') => [a; b; r'] end
  end.

(** [strings.Split(s, c)]. *)
Fixpoint Split (s : text) (c : Ascii.ascii) : list text :=
  match s with
  | [] => [[]]
  | a :: s' =>
      if decide (a = c) then [] :: Split s' c
      else match Split s' c with [] => [[a]] | p :: ps => (a :: p) :: ps end
  end.

(** ** White space and case *)

Definition is_space (c : Ascii.ascii) : bool :=
  let n := ascii_code c in bool_decide (n = 32 \/ 9 <= n <= 13)%N.

Fixpoint trim_left (s : text) : text :=
  match s with
  | c :: s' => if is_space c then trim_left s' else s
  | [] => []
  end.

Definition TrimSpace (s : text) : text := rev (trim_left (rev (trim_left s))).

Definition ToLower (s : text) : text := map lower_ascii s.

Definition EqualFold (a b : text) : bool := bool_decide (ToLower a = ToLower b).

(** ** Decimal numbers *)

Definition digit (n : Z) : Ascii.ascii := Ascii.ascii_of_N (Z.to_N (48 + n)).

(** Enough fuel for an [int] is its 20 digits. *)
Fixpoint itoa_fuel (fuel : nat) (n : Z) : text :=
  match fuel with
  | O => []
  | S fuel' => if decide (n < 10) then [digit n] else itoa_fuel fuel' (n `div` 10) ++ [digit (n mod 10)]
  end.

(** [strconv.Itoa] *)
Definition Itoa (n : Z) : text :=
  if decide (n < 0) then ascii_of_N 45 :: itoa_fuel 20 (- n) else itoa_fuel 20 n.

(** [strconv.Atoi]; [None] is an error. *)
Definition Atoi (s : text) : option Z := atoi (to_string s).

(** ** Lemmas *)

Lemma Cut_app (a : text) c b : c ∉ a -> Cut (a ++ c :: b) c = Some (a, b).
Proof.
  induction a as [|x a IH]; intros Hc; simpl.
  - by rewrite decide_True.
  - rewrite not_elem_of_cons in Hc. destruct Hc as [Hx Ha].
    rewrite decide_False by congruence. by rewrite IH.
Qed.

Lemma Cut_None (s : text) c : c ∉ s -> Cut s c = None.
Proof.
  induction s as [|x s IH]; intros Hc; simpl; [done|].
  rewrite not_elem_of_cons in Hc. destruct Hc as [Hx Hs].
  rewrite decide_False by congruence. by rewrite IH.
Qed.

Lemma Cut_Some s c a b : Cut s c = Some (a, b) -> s = a ++ c :: b /\ c ∉ a.
Proof.
  revert a b. induction s as [|x s IH]; intros a b H; simpl in H; [done|].
  case_decide as Hx.
  - injection H as <- <-. subst. split; [done|apply not_elem_of_nil].
  - destruct (Cut s c) as [[a' b']|]; [|done]. simpl in H. injection H as <- <-.
    destruct (IH a' b' eq_refl) as [-> Hc]. split; [done|]. rewrite not_elem_of_cons. split; congruence.
Qed.

Lemma Cut_None_inv (s : text) c : Cut s c = None -> c ∉ s.
Proof.
  intros H Hi. apply list_elem_of_split in Hi as (a&b&->).
  assert (forall a : text, Cut (a ++ c :: b) c <> None) as Hs; [|by apply (Hs a)].
  clear. induction a as [|x a IH]; simpl; [by rewrite decide_True|].
  case_decide; [done|]. by destruct (Cut (a ++ c :: b) c) as [[]|].
Qed.

(** [Split] cuts off one piece at a time. *)
Lemma Split_Cut (s : text) c :
  Split s c = match Cut s c with None => [s] | Some (a, b) => a :: Split b c end.
Proof.
  induction s as [|x s IH]; [done|]. simpl. case_decide; [done|].
  rewrite IH. by destruct (Cut s c) as [[a b]|].
Qed.

Lemma Split_two (s p q : text) c : Split s c = [p; q] <-> s = p ++ (c :: q) /\ (c ∉ p) /\ (c ∉ q).
Proof.
  rewrite Split_Cut. split.
  - destruct (Cut s c) as [[a b]|] eqn:E; [|done]. apply Cut_Some in E as [-> Ha].
    rewrite Split_Cut. destruct (Cut b c) as [[a' b']|] eqn:E'.
    + rewrite Split_Cut. by destruct (Cut b' c) as [[]|].
    + intros [= <- <-]. apply Cut_None_inv in E'. done.
  - intros (->&Hp&Hq). by rewrite Cut_app, Split_Cut, (Cut_None q c).
Qed.

Lemma IndexByte_app (a : text) c b : c ∉ a -> IndexByte (a ++ c :: b) c = Some (length a).
Proof.
  induction a as [|x a IH]; intros Hc; simpl.
  - by rewrite decide_True.
  - rewrite not_elem_of_cons in Hc. destruct Hc as [Hx Ha].
    rewrite decide_False by congruence. by rewrite IH.
Qed.

Lemma IndexByte_None (s : text) c : c ∉ s -> IndexByte s c = None.
Proof.
  induction s as [|x s IH]; intros Hc; simpl; [done|].
  rewrite not_elem_of_cons in Hc. destruct Hc as [Hx Hs].
  rewrite decide_False by congruence. by rewrite IH.
Qed.

Lemma has_prefix_t_true p s : has_prefix_t p s = true <-> exists r, s = p ++ r.
Proof.
  revert s. induction p as [|a p IH]; intros s; simpl; [split; [by exists s|done]|].
  destruct s as [|b s]; [split; [done|by intros [r E]]|].
  rewrite andb_true_iff, bool_decide_eq_true, IH. split.
  - intros [-> [r ->]]. by exists r.
  - intros [r [= -> ->]]. split; [done|by exists r].
Qed.

(** A string that [TrimSpace] leaves alone. *)
Definition trimmed (s : text) : Prop :=
  (forall c, head s = Some c -> is_space c = false) /\ (forall c, last s = Some c -> is_space c = false).

Lemma trim_left_fix s : (forall c, head s = Some c -> is_space c = false) -> trim_left s = s.
Proof. destruct s as [|c s]; intros H; [done|]. simpl. by rewrite (H c). Qed.

Lemma head_rev {A} (s : list A) : head (rev s) = last s.
Proof.
  induction s as [|x s IH] using rev_ind; [done|]. by rewrite rev_app_distr, last_snoc.
Qed.

Lemma TrimSpace_fix s : trimmed s -> TrimSpace s = s.
Proof.
  intros [Hh Hl]. unfold TrimSpace. rewrite (trim_left_fix s Hh), trim_left_fix; [apply rev_involutive|].
  intros c Hc. apply Hl. by rewrite <- head_rev.
Qed.

Lemma TrimSpace_space c s : is_space c = true -> TrimSpace (c :: s) = TrimSpace s.
Proof. intros H. unfold TrimSpace. simpl. by rewrite H. Qed.

Lemma trim_left_app s t : (forall c, c ∈ s -> is_space c = true) -> trim_left (s ++ t) = trim_left t.
Proof.
  induction s as [|c s IH]; intros H; [done|]. simpl. rewrite (H c) by left. apply IH. set_solver.
Qed.

Lemma trim_left_split s : exists w, s = w ++ trim_left s /\ (forall c, c ∈ w -> is_space c = true)
  /\ (forall c, head (trim_left s) = Some c -> is_space c = false).
Proof.
  induction s as [|c s (w&E&Hw&Hh)]; [exists []; split; [done|split; [set_solver|done]]|].
  simpl. destruct (is_space c) eqn:Ec.
  - exists (c :: w). split; [simpl; by f_equal|]. split; [set_solver|done].
  - exists []. split; [done|]. split; [set_solver|]. by intros ? [= <-].
Qed.

Lemma last_rev {A} (s : list A) : last (rev s) = head s.
Proof. by rewrite <- head_rev, rev_involutive. Qed.

Lemma TrimSpace_trimmed s : trimmed (TrimSpace s).
Proof.
  unfold TrimSpace. set (a := trim_left s). destruct (trim_left_split s) as (w&_&_&Ha). fold a in Ha.
  destruct (trim_left_split (rev a)) as (w'&E&_&Hb). set (b := trim_left (rev a)) in *. split; intros c Hc.
  - rewrite head_rev in Hc. apply Ha. rewrite <- last_rev, E. by rewrite last_app, Hc.
  - rewrite last_rev in Hc. by apply Hb.
Qed.

Lemma TrimSpace_idemp s : TrimSpace (TrimSpace s) = TrimSpace s.
Proof. apply TrimSpace_fix, TrimSpace_trimmed. Qed.

(** A trailing line end does not survive the trimming. *)
Lemma TrimSpace_snoc s c : trimmed s -> is_space c = true -> TrimSpace (s ++ [c]) = s.
Proof.
  intros [Hh Hl] Hc. unfold TrimSpace. destruct s as [|a s]; [simpl; by rewrite Hc|].
  rewrite (trim_left_fix ((a :: s) ++ [c])) by (intros b [= <-]; by apply (Hh a)).
  rewrite rev_app_distr. change (rev [c] ++ rev (a :: s)) with (c :: rev (a :: s)).
  cbn [trim_left]. rewrite Hc, trim_left_fix; [apply rev_involutive|].
  intros b Hb. apply Hl. by rewrite <- head_rev.
Qed.

Lemma EqualFold_refl s : EqualFold s s = true.
Proof. by apply bool_decide_eq_true. Qed.

Lemma EqualFold_sym a b : EqualFold a b = EqualFold b a.
Proof. unfold EqualFold. by apply bool_decide_ext. Qed.

Lemma EqualFold_trans a b c : EqualFold a b = true -> EqualFold a c = EqualFold b c.
Proof. unfold EqualFold. rewrite bool_decide_eq_true. by intros ->. Qed.

Lemma digit_code n : 0 <= n < 10 -> Z.of_N (ascii_code (digit n)) - 48 = n /\ is_digit (digit n) = true.
Proof.
  intros Hn. by z_cases n 0%Z 10%nat.
Qed.

Lemma digits_val_snoc s d acc : 0 <= d < 10 ->
  digits_val acc (to_string (s ++ [digit d])) =
  v ← digits_val acc (to_string s); Some (10 * v + d).
Proof.
  intros Hd. destruct (digit_code d Hd) as [Hv Hi]. revert acc.
  induction s as [|c s IH]; intros acc; simpl.
  - rewrite Hi. f_equal. lia.
  - destruct (is_digit c); [apply IH|done].
Qed.

Lemma itoa_fuel_val fuel : forall n, 0 <= n < 10 ^ Z.of_nat fuel ->
  digits_val 0 (to_string (itoa_fuel fuel n)) = Some n.
Proof.
  induction fuel as [|fuel IH]; intros n Hn; [simpl in *; f_equal; lia|]. cbn [itoa_fuel].
  case_decide as H10.
  - destruct (digit_code n ltac:(lia)) as [Hv Hi]. simpl. rewrite Hi. f_equal. lia.
  - rewrite digits_val_snoc by (apply Z.mod_pos_bound; lia).
    rewrite Nat2Z.inj_succ, Z.pow_succ_r in Hn by lia.
    rewrite IH by (split; [apply Z.div_pos; lia|apply Z.div_lt_upper_bound; lia]).
    simpl. f_equal. pose proof (Z.div_mod n 10). lia.
Qed.

(** The digits of a number: not empty, all digits. *)
Lemma itoa_fuel_digits fuel n c : 0 <= n -> c ∈ itoa_fuel fuel n -> is_digit c = true.
Proof.
  revert n. induction fuel as [|fuel IH]; intros n Hn Hc; simpl in Hc; [by apply elem_of_nil in Hc|].
  case_decide.
  - apply list_elem_of_singleton in Hc as ->. apply digit_code. lia.
  - apply elem_of_app in Hc as [Hc|Hc].
    + apply IH in Hc; [done|]. apply Z.div_pos; lia.
    + apply list_elem_of_singleton in Hc as ->. apply digit_code, Z.mod_pos_bound. lia.
Qed.

Lemma itoa_fuel_nonempty fuel n : itoa_fuel (S fuel) n <> [].
Proof. simpl. case_decide; [done|]. by destruct (itoa_fuel fuel (n `div` 10)). Qed.

Lemma Itoa_digits n c : 0 <= n -> c ∈ Itoa n -> is_digit c = true.
Proof. unfold Itoa. intros Hn. rewrite decide_False by lia. by apply itoa_fuel_digits. Qed.

Lemma Itoa_nonempty n : 0 <= n -> Itoa n <> [].
Proof. unfold Itoa. intros Hn. rewrite decide_False by lia. apply itoa_fuel_nonempty. Qed.

Lemma digit_not c (s : text) : is_digit c = false -> (forall d, d ∈ s -> is_digit d = true) -> c ∉ s.
Proof. intros Hc Hs Hi. apply Hs in Hi. congruence. Qed.

Lemma Atoi_digits (s : text) v : s <> [] -> (forall d, d ∈ s -> is_digit d = true) ->
  digits_val 0 (to_string s) = Some v -> - 2 ^ 63 <= v < 2 ^ 63 -> Atoi s = Some v.
Proof.
  intros Hne Hd Hv Hr. unfold Atoi, atoi. destruct s as [|c s]; [done|].
  pose proof (Hd c ltac:(by left)) as Hc.
  change (to_string (c :: s)) with (String c (to_string s)) in *.
  assert ((c = "-"%char \/ c = "+"%char) -> False) as Hns by (by intros [-> | ->]).
  destruct c as [[] [] [] [] [] [] [] []]; try (exfalso; by auto); try done;
    rewrite Hv; simpl; by rewrite decide_True.
Qed.

Lemma Atoi_Itoa n : 0 <= n < 2 ^ 63 -> Atoi (Itoa n) = Some n.
Proof.
  intros Hn. apply Atoi_digits; [apply Itoa_nonempty; lia|intros d; apply Itoa_digits; lia| |lia].
  unfold Itoa. rewrite decide_False by lia. apply itoa_fuel_val.
  split; [lia|]. apply Z.lt_le_trans with (2 ^ 63); [lia|]. by vm_compute.
Qed.

Lemma digit_not_space c : is_digit c = true -> is_space c = false.
Proof. unfold is_digit, is_space. rewrite bool_decide_eq_true, bool_decide_eq_false. lia. Qed.

Lemma trimmed_digits (s : text) : (forall d, d ∈ s -> is_digit d = true) -> trimmed s.
Proof.
  intros H. split; intros c Hc; apply digit_not_space, H.
  - destruct s; simplify_eq/=. by left.
  - apply last_Some in Hc as [l ->]. set_solver.
Qed.

#[export] Hint Rewrite to_string_T T_to_string : go.
