(* ===== verification/Net.v ===== *)
(** Host and port texts: the parts of Go's [net] and [strings] the trunk and the
    registrars use. *)

From S2P Require Import Prelude Text.
Open Scope Z_scope.

(** The last position of [c]. *)
Definition LastIndexByte (s : text) (c : Ascii.ascii) : option nat :=
  (fun i => (length s - 1 - i)%nat) <$> IndexByte (rev s) c.

(** [net.SplitHostPort]; [None] is an error. *)
Definition SplitHostPort (hp : text) : option (text * text) :=
  i ← LastIndexByte hp ":"%char;
  let clean (h : text) (j k : nat) :=
    match IndexByte (drop j hp) "["%char, IndexByte (drop k hp) "]"%char with
    | None, None => Some (h, drop (S i) hp)
    | _, _ => None
    end in
  if decide (head hp = Some "["%char) then
    e ← IndexByte hp "]"%char;
    if decide (S e = i) then clean (take (e - 1) (drop 1 hp)) 1%nat (S e) else None
  else
    let host := take i hp in
    if decide (":"%char ∈ host) then None else clean host 0%nat 0%nat.

(** [net.JoinHostPort] *)
Definition JoinHostPort (host port : text) : text :=
  if decide (":"%char ∈ host \/ "%"%char ∈ host) then T "[" ++ host ++ T "]:" ++ port else host ++ T ":" ++ port.

(** [strings.Trim(s, "[]")] *)
Definition is_bracket (c : Ascii.ascii) : bool := bool_decide (c = "["%char \/ c = "]"%char).

Fixpoint trim_brackets_left (s : text) : text :=
  match s with c :: s' => if is_bracket c then trim_brackets_left s' else s | [] => [] end.

Definition TrimBrackets (s : text) : text := rev (trim_brackets_left (rev (trim_brackets_left s))).

(** ** Lemmas *)

(** A host or a port without brackets; a port without a colon. *)
Definition plain_host (s : text) : Prop := ("["%char ∉ s) /\ ("]"%char ∉ s).

Lemma elem_of_rev (c : Ascii.ascii) (s : text) : c ∈ rev s <-> c ∈ s.
Proof. rewrite !list_elem_of_In. symmetry. apply in_rev. Qed.

Lemma LastIndexByte_app (a b : text) c : c ∉ b -> LastIndexByte (a ++ c :: b) c = Some (length a).
Proof.
  intros Hb. unfold LastIndexByte. rewrite rev_app_distr. cbn [rev]. rewrite <- app_assoc. cbn [app].
  rewrite IndexByte_app by (by rewrite elem_of_rev).
  cbn. f_equal. rewrite !length_app, length_rev. cbn. lia.
Qed.

Lemma LastIndexByte_None (s : text) c : c ∉ s -> LastIndexByte s c = None.
Proof. intros Hs. unfold LastIndexByte. rewrite IndexByte_None; [done|]. by rewrite elem_of_rev. Qed.

Lemma trim_brackets_fix s : plain_host s -> TrimBrackets s = s.
Proof.
  assert (forall s, plain_host s -> trim_brackets_left s = s) as Hl.
  { intros [|c t] [H1 H2]; [done|]. cbn. unfold is_bracket. rewrite bool_decide_eq_false_2; [done|].
    intros [-> | ->]; [apply H1|apply H2]; apply list_elem_of_here. }
  intros Hs. unfold TrimBrackets. rewrite (Hl s Hs), Hl; [apply rev_involutive|].
  destruct Hs. split; by rewrite elem_of_rev.
Qed.

Lemma drop_past (a b : text) c : drop (S (length a)) (a ++ c :: b) = b.
Proof. induction a; [done|]. exact IHa. Qed.

(** What JoinHostPort writes, SplitHostPort reads. *)
Lemma Split_JoinHostPort host port : plain_host host -> plain_host port -> ":"%char ∉ port ->
  SplitHostPort (JoinHostPort host port) = Some (host, port).
Proof.
  intros [Hh1 Hh2] [Hp1 Hp2] Hc. unfold JoinHostPort. destruct (decide _) as [Hb|Hb].
  - set (pre := T "[" ++ host ++ T "]"). replace (T "[" ++ host ++ T "]:" ++ port) with (pre ++ ":"%char :: port)
      by (unfold pre; cbn; by rewrite <- app_assoc).
    unfold SplitHostPort. rewrite LastIndexByte_app by done. cbn [mbind option_bind].
    assert (length pre = S (S (length host))) as El by (unfold pre; rewrite !length_app; cbn; lia).
    assert (IndexByte (pre ++ ":"%char :: port) "]"%char = Some (S (length host))) as Ee.
    { replace (pre ++ ":"%char :: port) with (("["%char :: host) ++ "]"%char :: ":"%char :: port) by (unfold pre; cbn; by rewrite <- app_assoc).
      rewrite IndexByte_app; [done|]. rewrite elem_of_cons. intros [[=]|]; done. }
    rewrite decide_True by done. rewrite Ee. cbn [mbind option_bind].
    rewrite decide_True by lia.
    assert (drop (S (S (length host))) (pre ++ ":"%char :: port) = ":"%char :: port) as Ed.
    { rewrite <- El. apply drop_app_length. }
    assert (drop 1 (pre ++ ":"%char :: port) = host ++ "]"%char :: ":"%char :: port) as E1 by (unfold pre; cbn; by rewrite <- app_assoc).
    rewrite Ed, E1, El. rewrite IndexByte_None.
    2: { rewrite elem_of_app, !elem_of_cons. intros [|[[=]|[[=]|]]]; done. }
    rewrite IndexByte_None by (rewrite elem_of_cons; intros [[=]|]; done).
    rewrite <- El, drop_past. assert (S (length host) - 1 = length host)%nat as -> by lia. cbn. by rewrite take_app_length.
  - replace (host ++ T ":" ++ port) with (host ++ ":"%char :: port) by done.
    unfold SplitHostPort. rewrite LastIndexByte_app by done. cbn [mbind option_bind].
    rewrite decide_False by (destruct host as [|x host]; [done|intros [= ->]; apply Hh1, list_elem_of_here]).
    rewrite take_app_length. rewrite decide_False by (intros ?; apply Hb; by left).
    rewrite !drop_0. rewrite !IndexByte_None by (rewrite elem_of_app, elem_of_cons; intros [|[[=]|]]; done).
    by rewrite drop_past.
Qed.

(** Neither invents a character. *)
Lemma TrimBrackets_sub c s : c ∈ TrimBrackets s -> c ∈ s.
Proof.
  assert (forall s, c ∈ trim_brackets_left s -> c ∈ s) as Hl.
  { induction s0 as [|x t IH]; [done|]. cbn. destruct (is_bracket x); [|done]. rewrite elem_of_cons. auto. }
  unfold TrimBrackets. rewrite elem_of_rev. intros H. apply Hl in H. rewrite elem_of_rev in H. by apply Hl.
Qed.

Lemma SplitHostPort_sub hp h p c : SplitHostPort hp = Some (h, p) -> c ∈ h -> c ∈ hp.
Proof.
  unfold SplitHostPort. destruct (LastIndexByte hp ":"%char) as [i|]; [|done]. cbn [mbind option_bind].
  intros H Hc. assert (exists j k, h = take j (drop k hp)) as (j&k&->).
  { revert H. destruct (decide (head hp = _)).
    - destruct (IndexByte hp "]"%char) as [e'|]; [|done]. cbn [mbind option_bind]. destruct (decide _); [|done].
      destruct (IndexByte _ _); [done|]. destruct (IndexByte _ _); [done|]. intros [= <- _]. by eexists _, 1%nat.
    - destruct (decide _); [done|]. destruct (IndexByte _ _); [done|]. destruct (IndexByte _ _); [done|]. intros [= <- _]. by eexists _, 0%nat. }
  rewrite <- (take_drop k hp), elem_of_app. right. rewrite <- (take_drop j (drop k hp)), elem_of_app. by left.
Qed.
