(* ===== verification/Events.v ===== *)
(** The operational event ring (src/server/internal/events/events.go): a
    bounded buffer of the last events, its lock-free-for-the-caller [Emit], the
    cursor read [Since] and the HTTP handler's parameter parsing. The ring is
    refined to "the last [n] elements of everything emitted". *)

From S2P Require Import Prelude.

(** ** Data *)

Section ring.
(** The event detail, a [map[string]any] the ring never looks into. *)
Context {D : Type}.

Record Event := mkEvent {
  ev_seq : Z; (* uint64 *)
  ev_at : Z;
  ev_kind : string;
  ev_device : string;
  ev_user : string;
  ev_detail : option D
}.

Definition zero_event : Event := mkEvent 0 0 "" "" "" None.

Definition Default : Z := 4096.
Definition DefaultLimit : Z := 200.
Definition MaxLimit : Z := 1000.

(** [locked] is whether [mu] is held when an emitter tries it. *)
Record Ring := mkRing {
  buf : list Event;
  start : Z;
  count : Z;
  seq : Z; (* uint64 *)
  dropped : Z
}.

Definition New (n : Z) : Ring :=
  let n := if decide (n <= 0)%Z then Default else n in
  mkRing (replicate (Z.to_nat n) zero_event) 0 0 0 0.

(** ** Emit

    [free] is the outcome of [mu.TryLock]; [None] is an index out of range. *)
Definition Emit (free : bool) (now : Z) (kind device user : string) (detail : option D)
    (r : Ring) : option Ring :=
  if negb free then Some (mkRing (buf r) (start r) (count r) (seq r) (dropped r + 1)) else
  let seq' := u64 (seq r + 1) in
  let e := mkEvent seq' now kind device user detail in
  let n := zlen (buf r) in
  if decide (count r < n)%Z then
    b ← go_store (buf r) (Z.rem (start r + count r) n) e;
    Some (mkRing b (start r) (count r + 1) seq' (dropped r))
  else
    b ← go_store (buf r) (start r) e;
    Some (mkRing b (Z.rem (start r + 1) n) (count r) seq' (dropped r)).

(** ** Since *)

(** [copy(dst, src)]. *)
Definition go_copy (dst src : list Event) : list Event :=
  take (length dst) src ++ drop (length src) dst.

Definition Since (since limit : Z) (r : Ring) : option (list Event * Z * bool) :=
  let limit := if decide (limit <= 0)%Z then DefaultLimit else limit in
  let limit := if decide (MaxLimit < limit)%Z then MaxLimit else limit in
  let next := seq r in
  if decide (count r = 0)%Z then Some ([], next, false) else
  let n := zlen (buf r) in
  first ← go_index (buf r) (start r);
  let oldest := ev_seq first in
  let truncated := bool_decide (since <> 0 /\ u64 (since + 1) < oldest)%Z in
  let skip := if decide (oldest <= since)%Z then i64 (u64 (since - oldest + 1)) else 0%Z in
  let avail := i64 (count r - skip) in
  if decide (avail <= 0)%Z then Some ([], next, truncated) else
  let avail := if decide (limit < avail)%Z then limit else avail in
  let events := replicate (Z.to_nat avail) zero_event in
  let from := Z.rem (i64 (start r + skip)) n in
  events ←
    (if decide (from + avail <= n)%Z then
       s ← go_slice (buf r) from (from + avail);
       Some (go_copy events s)
     else
       s ← go_slice (buf r) from n;
       let k := Nat.min (length events) (length s) in
       s2 ← go_slice (buf r) 0 (avail - Z.of_nat k);
       Some (go_copy (take k events) s ++ go_copy (drop k events) s2));
  last ← go_index events (avail - 1);
  Some (events, ev_seq last, truncated).

(** ** The HTTP handler

    A request is its method and the two query parameters ([""] when absent). *)

Inductive Response :=
  | MethodNotAllowed
  | InvalidField (field : string)
  | Page (next : Z) (events : list Event) (truncated : bool).

Definition Handler (method q_since q_limit : string) (r : Ring) : option Response :=
  if decide (method <> "GET") then Some MethodNotAllowed else
  match (if decide (q_since = "") then Some 0%Z else parse_uint64 q_since) with
  | None => Some (InvalidField "since")
  | Some since =>
      match (if decide (q_limit = "") then Some 0%Z
             else v ← atoi q_limit; if decide (v < 0)%Z then None else Some v) with
      | None => Some (InvalidField "limit")
      | Some limit =>
          '(events, next, truncated) ← Since since limit r;
          Some (Page next events truncated)
      end
  end.

(** ** Specification: the last [n] of everything emitted *)

(** One attempt to emit: whether the lock was free, and the event's fields. *)
Record Attempt := mkAttempt {
  at_free : bool;
  at_now : Z;
  at_kind : string;
  at_device : string;
  at_user : string;
  at_detail : option D
}.

Definition emit1 (r : Ring) (a : Attempt) : option Ring :=
  Emit (at_free a) (at_now a) (at_kind a) (at_device a) (at_user a) (at_detail a) r.

Fixpoint emit_all (r : Ring) (l : list Attempt) : option Ring :=
  match l with
  | [] => Some r
  | a :: l' => r' ← emit1 r a; emit_all r' l'
  end.

(** The history of the kept attempts, numbered from [from + 1]. *)
Fixpoint history (from : Z) (l : list Attempt) : list Event :=
  match l with
  | [] => []
  | a :: l' =>
      if at_free a
      then mkEvent (from + 1) (at_now a) (at_kind a) (at_device a) (at_user a) (at_detail a)
             :: history (from + 1) l'
      else history from l'
  end.

(** The events held, oldest first. *)
Definition contents (r : Ring) : list Event :=
  take (Z.to_nat (count r))
    (drop (Z.to_nat (start r)) (buf r) ++ take (Z.to_nat (start r)) (buf r)).

Record ring_rep (n : nat) (r : Ring) (h : list Event) : Prop := {
  rep_n : (0 < n)%nat /\ (Z.of_nat n <= 2 ^ 62)%Z;
  rep_buf : length (buf r) = n;
  rep_start : (0 <= start r < Z.of_nat n)%Z;
  rep_start0 : (count r < Z.of_nat n -> start r = 0)%Z;
  rep_count : count r = Z.of_nat (Nat.min n (length h));
  rep_seq : seq r = zlen h;
  rep_contents : contents r = lastn n h;
  rep_seqs : forall i e, h !! i = Some e -> ev_seq e = (Z.of_nat i + 1)%Z
}.

Lemma rep_New n : (0 < n <= 2 ^ 62)%Z -> ring_rep (Z.to_nat n) (New n) [].
Proof.
  intros Hn. unfold New. rewrite decide_False by lia. split; simpl; rewrite ?length_replicate, ?Nat.min_0_r; try done; lia.
Qed.

Lemma history_app from l1 l2 :
  history from (l1 ++ l2) = history from l1 ++ history (from + zlen (history from l1)) l2.
Proof.
  revert from. induction l1 as [|a l1 IH]; intros from; simpl.
  - f_equal. unfold zlen; simpl. lia.
  - destruct (at_free a); rewrite IH; [|done]. simpl.
    assert (forall (e : Event) t, zlen (e :: t) = 1 + zlen t)%Z as Hz
      by (intros; unfold zlen; simpl; lia).
    by rewrite Hz, Z.add_assoc.
Qed.

Lemma rep_emit_free n r h now kind device user detail :
  ring_rep n r h -> (zlen h < 2 ^ 63)%Z ->
  exists r', Emit true now kind device user detail r = Some r' /\ dropped r' = dropped r /\
    ring_rep n r' (h ++ [mkEvent (zlen h + 1) now kind device user detail]).
Proof.
  intros [[Hn Hn'] Hb Hs Hs0 Hc Hq Hk Hi] Hlen. unfold Emit; simpl.
  rewrite Hq, (wrapu_small 64) by (unfold zlen in *; lia).
  set (e := mkEvent _ _ _ _ _ _).
  assert (zlen (buf r) = Z.of_nat n) as Ez by (unfold zlen; lia). rewrite Ez.
  assert (forall i e', (h ++ [e]) !! i = Some e' -> ev_seq e' = (Z.of_nat i + 1)%Z) as Hi'.
  { intros i e' [He|[Hge He]]%lookup_app_Some; [by apply Hi|].
    apply list_lookup_singleton_Some in He as [He <-]. subst e. simpl. unfold zlen. lia. }
  assert (zlen (h ++ [e]) = zlen h + 1)%Z as Hz by (unfold zlen; rewrite length_app; simpl; lia).
  unfold contents in Hk.
  case_decide as Hfull.
  - (* the buffer is not full: the oldest is at 0 *)
    assert (length h < n)%nat as Hlt by lia.
    assert (start r = 0)%Z as E0 by (apply Hs0; lia).
    rewrite E0 in *. simpl in Hk. rewrite drop_0, app_nil_r in Hk.
    rewrite Z.rem_small by lia. unfold go_store.
    rewrite decide_True by (unfold zlen; lia). eexists; split; [reflexivity|].
    split; [done|]. split; simpl; try done; try lia.
    + rewrite length_insert. done.
    + rewrite length_app; simpl. lia.
    + unfold contents; simpl. rewrite drop_0, app_nil_r.
      replace (Z.to_nat (count r + 1)) with (S (Z.to_nat (count r))) by lia.
      replace (Z.to_nat (0 + count r)) with (Z.to_nat (count r)) by lia.
      erewrite take_S_r by (apply list_lookup_insert_eq; lia).
      rewrite take_insert_ge by lia. rewrite Hk, !lastn_all by
        (rewrite ?length_app; simpl; lia). done.
  - (* full: the oldest is overwritten *)
    assert (n <= length h)%nat as Hge by lia.
    assert (Hcn : count r = Z.of_nat n) by lia.
    rewrite Hcn, Nat2Z.id in Hk. unfold go_store.
    rewrite decide_True by (unfold zlen; lia). eexists; split; [reflexivity|].
    split; [done|]. split; simpl; try done; try lia.
    + rewrite length_insert. done.
    + apply Z.rem_bound_pos; lia.
    + rewrite length_app; simpl. lia.
    + unfold contents; simpl. rewrite Hcn, Nat2Z.id.
      rewrite lastn_snoc_full, <- Hk by lia.
      set (s := Z.to_nat (start r)).
      assert (s < n)%nat by lia.
      rewrite take_ge by (rewrite length_app, length_drop, length_take, length_insert; lia).
      rewrite (take_ge _ n) by (rewrite length_app, length_drop, length_take; lia).
      destruct (decide (s + 1 = n)%nat) as [Hw|Hw].
      * replace (Z.rem (start r + 1) (Z.of_nat n)) with 0%Z.
        2: { replace (start r + 1)%Z with (Z.of_nat n) by lia. by rewrite Z.rem_same by lia. }
        simpl. rewrite drop_0, app_nil_r. rewrite drop_app_ge by (rewrite length_drop; lia).
        rewrite length_drop. replace (1 - (length (buf r) - s))%nat with 0%nat by lia.
        rewrite drop_0. rewrite insert_take_drop by lia.
        rewrite (drop_ge _ (S s)) by lia. done.
      * rewrite Z.rem_small by lia.
        replace (Z.to_nat (start r + 1)) with (S s) by lia.
        rewrite drop_insert_lt by lia.
        erewrite take_S_r by (apply list_lookup_insert_eq; lia).
        rewrite take_insert_ge by lia.
        rewrite drop_app_le by (rewrite length_drop; lia).
        rewrite drop_drop, app_assoc. do 3 f_equal. lia.
Qed.

Lemma rep_emit_all n l : forall r h,
  ring_rep n r h -> (zlen h + Z.of_nat (length l) <= 2 ^ 63)%Z ->
  exists r', emit_all r l = Some r' /\
    dropped r' = (dropped r + zlen (filter (fun a => at_free a = false) l))%Z /\
    ring_rep n r' (h ++ history (zlen h) l).
Proof.
  induction l as [|a l IH]; intros r h Hr Hlen; simpl in *.
  - exists r. rewrite app_nil_r. split; [done|]. split; [unfold zlen; simpl; lia|done].
  - unfold emit1. rewrite filter_cons. destruct (at_free a) eqn:Ef.
    + edestruct (rep_emit_free n r h) as (r1 & -> & Hd & Hr1); [done|lia|]. simpl.
      edestruct (IH r1) as (r2 & -> & Hd2 & Hr2); [exact Hr1|
        unfold zlen in *; rewrite length_app; simpl; lia|].
      exists r2. split; [done|]. split; [simpl in *; lia|].
      rewrite <- app_assoc in Hr2. simpl in Hr2.
      assert (forall x, zlen (h ++ [x]) = zlen h + 1)%Z as Hz
        by (intros; unfold zlen; rewrite length_app; simpl; lia).
      by rewrite Hz in Hr2.
    + simpl.
      edestruct (IH (mkRing (buf r) (start r) (count r) (seq r) (dropped r + 1)) h)
        as (r2 & -> & Hd2 & Hr2); [|lia|].
      { destruct Hr; split; done. }
      exists r2. split; [done|]. split; [|done]. rewrite Hd2. unfold zlen; simpl. lia.
Qed.
(** ** The cursor read *)

Lemma go_copy_same (dst src : list Event) : length dst = length src -> go_copy dst src = src.
Proof.
  intros E. unfold go_copy. rewrite E, take_ge, drop_ge by lia. by rewrite app_nil_r.
Qed.

(** The copy out of the circular buffer, in one or two pieces, is a segment
    of the contents. *)
Lemma since_copy n r h skip k :
  ring_rep n r h -> (0 < k)%nat -> (skip + k <= Nat.min n (length h))%nat ->
  let from := Z.rem (i64 (start r + Z.of_nat skip)) (zlen (buf r)) in
  (if decide (from + Z.of_nat k <= zlen (buf r))%Z then
     s ← go_slice (buf r) from (from + Z.of_nat k);
     Some (go_copy (replicate k zero_event) s)
   else
     s ← go_slice (buf r) from (zlen (buf r));
     let j := Nat.min (length (replicate k zero_event)) (length s) in
     s2 ← go_slice (buf r) 0 (Z.of_nat k - Z.of_nat j);
     Some (go_copy (take j (replicate k zero_event)) s ++
           go_copy (drop j (replicate k zero_event)) s2))
  = Some (take k (drop skip (contents r))).
Proof.
  intros [[Hn Hn'] Hb Hs Hs0 Hc Hq Hk Hi] Hk0 Hle. simpl.
  assert (zlen (buf r) = Z.of_nat n) as Ez by (unfold zlen; lia). rewrite Ez.
  rewrite wraps_small by lia.
  assert (contents r = take (Z.to_nat (count r)) (drop (Z.to_nat (start r)) (buf r) ++
    take (Z.to_nat (start r)) (buf r))) as -> by done.
  set (s := Z.to_nat (start r)). rewrite Hc, Nat2Z.id.
  rewrite skipn_firstn_comm, take_take.
  rewrite Nat.min_l by lia.
  unfold go_slice. rewrite Ez.
  destruct (decide (s + skip < n)%nat) as [Hlt|Hge].
  - rewrite (Z.rem_small (start r + _)) by lia.
    rewrite drop_app_le, drop_drop by (rewrite length_drop; lia).
    case_decide as Hf.
    + rewrite decide_True by lia. simpl. f_equal.
      rewrite take_app_le by (rewrite length_drop; lia).
      replace (Z.to_nat (_ - _)) with k by lia.
      replace (Z.to_nat (start r + Z.of_nat skip)) with (s + skip)%nat by lia.
      rewrite go_copy_same; [done|]. rewrite length_replicate, length_take, length_drop. lia.
    + rewrite decide_True by lia. simpl.
      replace (Z.to_nat (start r + Z.of_nat skip)) with (s + skip)%nat by lia.
      rewrite (take_ge (drop (s + skip) (buf r))) by (rewrite length_drop; lia).
      rewrite length_replicate, length_drop, Hb.
      rewrite Nat.min_r by lia. rewrite decide_True by lia. simpl. f_equal.
      rewrite take_replicate, drop_replicate, Nat.min_l by lia.
      rewrite drop_0, !go_copy_same.
      * rewrite take_app_ge by (rewrite length_drop; lia).
        rewrite length_drop, Hb, take_take. do 2 f_equal. lia.
      * rewrite length_replicate, length_take. lia.
      * rewrite length_replicate, length_drop. lia.
  - assert (Z.rem (start r + Z.of_nat skip) (Z.of_nat n) = start r + Z.of_nat skip - Z.of_nat n)%Z
      as -> by (symmetry; apply (Z.rem_unique _ _ 1); lia).
    rewrite decide_True by lia. rewrite decide_True by lia. simpl. f_equal.
    rewrite go_copy_same by (rewrite length_replicate, length_take, length_drop; lia).
    rewrite drop_app_ge, length_drop, Hb by (rewrite length_drop; lia).
    rewrite skipn_firstn_comm, take_take. f_equal; [lia|]. f_equal. lia.
Qed.

(** Events numbered contiguously from [a]: those after [since] are a suffix. *)
Lemma filter_after (l : list Event) a since :
  (forall i e, l !! i = Some e -> ev_seq e = a + Z.of_nat i)%Z ->
  filter (fun e => (since < ev_seq e)%Z) l = drop (Z.to_nat (since - a + 1)) l.
Proof.
  revert a. induction l as [|e l IH]; intros a Hl; [by rewrite drop_nil|].
  pose proof (Hl 0%nat e eq_refl) as He.
  assert (forall i e', l !! i = Some e' -> ev_seq e' = (a + 1) + Z.of_nat i)%Z as Hl'.
  { intros i e' H. rewrite (Hl (S i) e' H). lia. }
  rewrite filter_cons. case_decide as Hd.
  - rewrite (IH _ Hl'). replace (Z.to_nat (since - (a + 1) + 1)) with 0%nat by lia.
    by replace (Z.to_nat (since - a + 1)) with 0%nat by lia.
  - rewrite (IH _ Hl').
    by replace (Z.to_nat (since - a + 1)) with (S (Z.to_nat (since - (a + 1) + 1))) by lia.
Qed.

(** What [Since] promises of a ring that holds the last [n] of [h]. *)
Definition since_spec (n : nat) (h : list Event) (since limit : Z) : list Event * Z * bool :=
  let limit := Z.to_nat (if decide (limit <= 0)%Z then DefaultLimit
                         else Z.min limit MaxLimit) in
  let kept := lastn n h in
  let events := take limit (filter (fun e => (since < ev_seq e)%Z) kept) in
  (events,
   match last events with Some e => ev_seq e | None => zlen h end,
   match kept with
   | e :: _ => bool_decide (since <> 0 /\ since + 1 < ev_seq e)%Z
   | [] => false
   end).

Lemma kept_seqs n r h : ring_rep n r h ->
  forall i e, lastn n h !! i = Some e ->
    ev_seq e = (Z.of_nat (length h - n) + 1 + Z.of_nat i)%Z.
Proof.
  intros Hr i e. unfold lastn. rewrite lookup_drop. intros H.
  rewrite (rep_seqs n r h Hr _ _ H). lia.
Qed.

Lemma rep_oldest n r h : ring_rep n r h -> (0 < length h)%nat ->
  exists e t, lastn n h = e :: t /\ go_index (buf r) (start r) = Some e.
Proof.
  intros [[Hn Hn'] Hb Hs Hs0 Hc Hq Hk Hi] Hh.
  assert (exists e, buf r !! Z.to_nat (start r) = Some e) as [e He]
    by (apply lookup_lt_is_Some; lia).
  unfold contents in Hk. rewrite Hc, Nat2Z.id, (drop_S _ e) in Hk by done.
  destruct (Nat.min n (length h)) as [|m] eqn:E; [lia|]. simpl in Hk.
  eexists _, _. split; [symmetry; exact Hk|]. unfold go_index. by rewrite decide_True by lia.
Qed.

Lemma since_ok n r h since limit :
  ring_rep n r h -> (0 <= since < 2 ^ 63)%Z -> (zlen h < 2 ^ 63)%Z ->
  Since since limit r = Some (since_spec n h since limit).
Proof.
  intros Hr Hsince Hh. unfold Since, since_spec.
  rewrite (rep_count _ _ _ Hr), (rep_seq _ _ _ Hr).
  destruct (decide (length h = 0)%nat) as [E0|E0].
  { apply length_zero_iff_nil in E0 as ->. simpl. rewrite Nat.min_0_r. simpl.
    unfold lastn. rewrite drop_nil. simpl. by rewrite filter_nil, take_nil. }
  destruct (rep_oldest _ _ _ Hr) as (e & t & Ek & Ho); [lia|].
  rewrite Ek, Ho. simpl.
  pose proof (rep_n _ _ _ Hr) as [Hn Hn'].
  rewrite decide_False by lia.
  pose proof (kept_seqs _ _ _ Hr) as Hseq.
  pose proof (Hseq 0%nat e) as He. rewrite Ek in He. specialize (He eq_refl).
  set (a := (Z.of_nat (length h - n) + 1)%Z) in *.
  assert (ev_seq e = a) as -> by lia.
  assert (length h - n < length h)%nat as Hlt by lia.
  unfold zlen in Hh.
  rewrite (wrapu_small 64 (since + 1)) by lia.
  set (lim := if decide (MaxLimit < _)%Z then MaxLimit else _).
  assert (lim = if decide (limit <= 0)%Z then DefaultLimit else Z.min limit MaxLimit) as El.
  { subst lim. unfold DefaultLimit, MaxLimit. repeat case_decide; lia. }
  rewrite <- El.
  assert (0 < lim <= 1000)%Z as Hlim
    by (rewrite El; unfold DefaultLimit, MaxLimit; case_decide; lia).
  clearbody lim. clear El.
  assert (filter (fun e => (since < ev_seq e)%Z) (e :: t) =
    drop (Z.to_nat (since - a + 1)) (lastn n h)) as ->
    by (rewrite <- Ek; apply filter_after; exact Hseq).
  set (skip := if decide (a <= since)%Z then _ else _).
  assert (skip = Z.max 0 (since - a + 1)) as Esk.
  { subst skip. case_decide; [|lia].
    rewrite wrapu_small by lia. rewrite wraps_small by lia. lia. }
  rewrite Esk. set (sk := Z.to_nat (since - a + 1)).
  replace (Z.max 0 (since - a + 1)) with (Z.of_nat sk) by lia.
  set (m := Nat.min n (length h)).
  rewrite (wraps_small 64 (_ - _)) by lia.
  assert (length (lastn n h) = m) as Elen by (rewrite length_lastn; lia).
  case_decide as Hav.
  { rewrite (drop_ge (lastn n h)) by lia. by rewrite take_nil. }
  set (av := if decide (lim < _)%Z then lim else _).
  set (k := Z.to_nat av).
  assert (av = Z.of_nat k /\ 0 < k /\ sk + k <= m)%nat as (Ek' & Hk0 & Hkm).
  { subst k av. case_decide; lia. }
  pose proof (since_copy _ _ _ sk k Hr Hk0 Hkm) as Hcopy. simpl in Hcopy.
  rewrite <- Ek' in Hcopy. rewrite Hcopy, (rep_contents _ _ _ Hr). simpl.
  assert (take k (drop sk (lastn n h)) = take (Z.to_nat lim) (drop sk (lastn n h))) as ->.
  { clear Hcopy. subst k av.
    destruct (decide (lim < Z.of_nat m - Z.of_nat sk)%Z) as [|Hge]; [done|].
    rewrite !take_ge; [done| |]; rewrite length_drop; lia. }
  set (evs := take _ _).
  assert (length evs = k) as Elk.
  { subst evs k av. rewrite length_take, length_drop.
    destruct (decide (lim < Z.of_nat m - Z.of_nat sk)%Z); lia. }
  unfold go_index. rewrite decide_True by lia.
  replace (Z.to_nat (av - 1)) with (pred (length evs)) by lia.
  rewrite last_lookup.
  destruct (evs !! pred (length evs)) as [e'|] eqn:El'; [done|].
  apply lookup_ge_None in El'. lia.
Qed.

(** ** Properties *)

(** C30: after any sequence of emits, some refused because the lock was held,
    no index is ever out of range and the ring holds exactly the last [n]
    events of the kept ones, numbered without gaps from 1; every refused
    emit, and nothing else, is counted as dropped. *)
Theorem ring_keeps_last_n (n : Z) (l : list Attempt) :
  (0 < n <= 2 ^ 62)%Z -> (zlen l <= 2 ^ 63)%Z ->
  exists r, emit_all (New n) l = Some r /\
    contents r = lastn (Z.to_nat n) (history 0 l) /\
    seq r = zlen (history 0 l) /\
    dropped r = zlen (filter (fun a => at_free a = false) l).
Proof.
  intros Hn Hl.
  destruct (rep_emit_all (Z.to_nat n) l (New n) []) as (r & E & Hd & Hr);
    [by apply rep_New|unfold zlen in *; simpl; lia|].
  change (zlen []) with 0%Z in Hr. simpl in Hr.
  exists r. split; [done|]. split; [exact (rep_contents _ _ _ Hr)|].
  split; [exact (rep_seq _ _ _ Hr)|]. rewrite Hd. by destruct (decide (n <= 0)%Z).
Qed.

(** for a cursor below 2^63, [Since] on any reachable ring returns
    without a fault the oldest kept events after the cursor, at most the
    clamped limit of them, in order; the next cursor is the last returned
    event's number (the newest number when nothing is returned), and
    truncation is reported exactly when an event after the cursor is gone. *)
Theorem since_reads_after_cursor (n : Z) (l : list Attempt) (r : Ring) (since limit : Z) :
  (0 < n <= 2 ^ 62)%Z -> (zlen l < 2 ^ 63)%Z -> emit_all (New n) l = Some r ->
  (0 <= since < 2 ^ 63)%Z ->
  Since since limit r = Some (since_spec (Z.to_nat n) (history 0 l) since limit).
Proof.
  intros Hn Hl E Hs.
  destruct (rep_emit_all (Z.to_nat n) l (New n) []) as (r' & E' & _ & Hr);
    [by apply rep_New|unfold zlen in *; simpl; lia|].
  rewrite E in E'. simplify_eq/=. apply since_ok; [exact Hr|done|].
  assert (forall from, zlen (history from l) <= zlen l)%Z as Hle; [|].
  { clear. induction l as [|a l IH]; intros; unfold zlen in *; simpl; [lia|].
    destruct (at_free a); simpl; [specialize (IH (from + 1)%Z)|specialize (IH from)]; lia. }
  simpl. specialize (Hle 0%Z). unfold zlen in *. simpl. lia.
Qed.

(** The cursor 2^64 - 1, which the handler accepts as a well-formed
    [since], makes [GET /v1/admin/events] index the buffer at -1 and fault on
    every ring that holds an event and has not filled yet: the difference
    [since - oldest + 1] is converted from uint64 to int and becomes
    negative. *)
Theorem since_max_cursor_faults (n : Z) (l : list Attempt) (r : Ring) :
  (1 < n <= 2 ^ 62)%Z -> emit_all (New n) l = Some r ->
  (0 < zlen (history 0 l) < n)%Z -> (zlen l <= 2 ^ 63)%Z ->
  Handler "GET" "18446744073709551615" "" r = None.
Proof.
  intros Hn E Hh Hl.
  destruct (rep_emit_all (Z.to_nat n) l (New n) []) as (r' & E' & _ & Hr);
    [apply rep_New; lia|unfold zlen in *; simpl; lia|].
  rewrite E in E'. simplify_eq/=. change (zlen []) with 0%Z in Hr. simpl in Hr.
  destruct (rep_oldest _ _ _ Hr) as (e & t & Ek & Ho); [unfold zlen in *; simpl in *; lia|].
  pose proof (kept_seqs _ _ _ Hr 0%nat e) as He. rewrite Ek in He. specialize (He eq_refl).
  destruct Hr as [_ Hb Hst Hs0 Hc _ _ _]. unfold zlen in *. simpl in *.
  rewrite Z2Nat.id in * by lia. rewrite Hs0 in * by lia.
  assert (ev_seq e = 1)%Z as Hone by lia.
  unfold Handler. rewrite decide_False by (intros []; reflexivity).
  rewrite decide_False, decide_True by done.
  assert (parse_uint64 "18446744073709551615" = Some 18446744073709551615%Z) as ->
    by (vm_compute; reflexivity).
  cbn [mbind option_bind]. unfold Since. rewrite Hc, Hs0, Ho by lia. simpl. rewrite Hone.
  rewrite decide_False by lia. rewrite (decide_True (P := (1 <= _)%Z)) by lia.
  assert (i64 (u64 (18446744073709551615 - 1 + 1)) = -1)%Z as -> by (vm_compute; reflexivity).
  set (c := Z.of_nat (Z.to_nat n `min` length (history 0 l))) in *.
  assert (i64 (c - -1) = c + 1)%Z as -> by (apply wraps_small; lia).
  rewrite decide_False by lia.
  assert (i64 (0 + -1) = -1)%Z as -> by (vm_compute; reflexivity).
  assert (zlen (buf r') = n) as -> by (unfold zlen; lia).
  assert (Z.rem (-1) n = -1)%Z as ->
    by (change (-1)%Z with (- (1))%Z; rewrite Z.rem_opp_l', Z.rem_small; lia).
  unfold go_slice. rewrite !(decide_False (P := (0 <= -1 <= _ /\ _)%Z)) by lia. simpl.
  by destruct (decide (-1 + _ <= n)%Z).
Qed.
End ring.
Arguments Event : clear implicits.
Arguments Ring : clear implicits.
Arguments Attempt : clear implicits.

(** ** Witnesses *)

Definition demo_attempt (free : bool) (t : Z) : Attempt unit :=
  mkAttempt free t "presence" "dev-a" "201" None.

Definition demo_attempts : list (Attempt unit) :=
  [demo_attempt true 10; demo_attempt false 11; demo_attempt true 12; demo_attempt true 13].

Definition demo_ring (n : Z) : Ring unit :=
  match emit_all (New n) demo_attempts with Some r => r | None => New n end.

Lemma ring_keeps_last_n_witness :
  exists r, emit_all (New 2) demo_attempts = Some r /\
    contents r = lastn 2 (history 0 demo_attempts) /\ seq r = 3%Z /\ dropped r = 1%Z.
Proof. apply (ring_keeps_last_n 2 demo_attempts); unfold zlen; simpl; lia. Defined.

Lemma since_reads_after_cursor_witness :
  Since 1 0 (demo_ring 2) = Some (since_spec 2 (history 0 demo_attempts) 1 0).
Proof.
  apply (since_reads_after_cursor 2 demo_attempts (demo_ring 2) 1 0);
    first [reflexivity | unfold zlen; simpl; lia].
Defined.

Lemma since_max_cursor_faults_witness :
  Handler "GET" "18446744073709551615" "" (demo_ring 8) = None.
Proof.
  apply (since_max_cursor_faults 8 demo_attempts (demo_ring 8));
    first [reflexivity | unfold zlen; simpl; lia].
Defined.
