(* ===== verification/Registry.v ===== *)
(** The location table (src/server/internal/registry/registry.go): which SIP
    users exist, which device wakes each, the live contact of each, and the
    callers blocked until a user registers. A blocked call is split at its
    [select]: the part before it ([WaitRegistered], [WaitRouteChange]), and the
    two ways it resumes (its channel was closed, or its context ended). *)

From S2P Require Import Prelude.

(** ** State *)

Record Endpoint := mkEndpoint {
  User : string;
  DeviceID : string;
  Contact : string;
  Expires : Z
}.

(** A channel is a number; [closed] is the set of channels already closed, so
    closing one twice, a Go panic, is visible. [calls] are the [onChange]
    callbacks made, oldest first. *)
Record Registry := mkRegistry {
  byUser : gmap string Endpoint;
  byDevice : gmap string string;
  waiters : gmap string (list nat);
  next_chan : nat;
  closed : gset nat;
  hasOnChange : bool;
  calls : list (Endpoint * bool)
}.

Definition New : Registry := mkRegistry ∅ ∅ ∅ 0 ∅ false [].

Definition with_users (r : Registry) (m : gmap string Endpoint) : Registry :=
  mkRegistry m (byDevice r) (waiters r) (next_chan r) (closed r) (hasOnChange r) (calls r).
Definition with_devices (r : Registry) (m : gmap string string) : Registry :=
  mkRegistry (byUser r) m (waiters r) (next_chan r) (closed r) (hasOnChange r) (calls r).
Definition with_waiters (r : Registry) (w : gmap string (list nat)) : Registry :=
  mkRegistry (byUser r) (byDevice r) w (next_chan r) (closed r) (hasOnChange r) (calls r).
Definition with_closed (r : Registry) (c : gset nat) : Registry :=
  mkRegistry (byUser r) (byDevice r) (waiters r) (next_chan r) c (hasOnChange r) (calls r).

(** ** Reads *)

Definition viewLocked (now : Z) (ep : Endpoint) : Endpoint :=
  if decide (Contact ep <> "") then
    if negb (after (Expires ep) now)
    then mkEndpoint (User ep) (DeviceID ep) "" 0 else ep
  else ep.

Definition Lookup (now : Z) (user : string) (r : Registry) : option Endpoint :=
  viewLocked now <$> byUser r !! user.

(** [None] is a nil dereference, [Some None] is "not found". *)
Definition LookupDevice (now : Z) (deviceID : string) (r : Registry) : option (option Endpoint) :=
  match byDevice r !! deviceID with
  | None => Some None
  | Some user => ep ← byUser r !! user; Some (Some (viewLocked now ep))
  end.

Definition Registered (now : Z) (user : string) (r : Registry) : bool :=
  match Lookup now user r with
  | Some ep => bool_decide (Contact ep <> "")
  | None => false
  end.

Definition user_le (a b : Endpoint) : Prop := String.le (User a) (User b).

#[export] Instance user_le_dec a b : Decision (user_le a b).
Proof. unfold user_le. apply _. Defined.

Definition Endpoints (now : Z) (r : Registry) : list Endpoint :=
  merge_sort user_le (viewLocked now <$> (map_to_list (byUser r)).*2).

Definition Users (r : Registry) : list string :=
  merge_sort String.le (map_to_list (byUser r)).*1.

(** ** Waiters *)

(** Close every channel of [l]; [None] is a close of a closed channel. *)
Fixpoint close_all (l : list nat) (c : gset nat) : option (gset nat) :=
  match l with
  | [] => Some c
  | ch :: l' => if decide (ch ∈ c) then None else close_all l' ({[ch]} ∪ c)
  end.

Definition notifyLocked (user : string) (r : Registry) : option Registry :=
  c ← close_all (default [] (waiters r !! user)) (closed r);
  Some (with_waiters (with_closed r c) (delete user (waiters r))).

(** Remove the first occurrence of [ch]. *)
Fixpoint drop_first (ch : nat) (l : list nat) : list nat :=
  match l with
  | [] => []
  | w :: l' => if decide (w = ch) then l' else w :: drop_first ch l'
  end.

Definition dropWaiterLocked (user : string) (ch : nat) (r : Registry) : Registry :=
  let ws := drop_first ch (default [] (waiters r !! user)) in
  with_waiters r (match ws with
                  | [] => delete user (waiters r)
                  | _ => <[user := ws]> (waiters r)
                  end).

Definition add_waiter (user : string) (r : Registry) : Registry * nat :=
  let ch := next_chan r in
  (mkRegistry (byUser r) (byDevice r)
     (<[user := default [] (waiters r !! user) ++ [ch]]> (waiters r))
     (S ch) (closed r) (hasOnChange r) (calls r), ch).

(** Up to the [select]: the answer, or the channel the caller blocks on. *)
Definition WaitRegistered (now : Z) (user : string) (r : Registry) : Registry * (Endpoint + nat) :=
  match byUser r !! user with
  | Some ep =>
      let v := viewLocked now ep in
      if decide (Contact v <> "") then (r, inl v)
      else let '(r', ch) := add_waiter user r in (r', inr ch)
  | None => let '(r', ch) := add_waiter user r in (r', inr ch)
  end.

(** [case <-ch]: enabled once [ch] is closed. [None] is [ErrUnknownUser]. *)
Definition WaitRegistered_woken (now : Z) (user : string) (r : Registry) : option Endpoint :=
  ep ← Lookup now user r; if decide (Contact ep = "") then None else Some ep.

(** One turn of [WaitRouteChange]'s loop, up to its [select]. *)
Definition WaitRouteChange (now : Z) (user route : string) (r : Registry)
    : Registry * (Endpoint + nat) :=
  match byUser r !! user with
  | Some ep =>
      let v := viewLocked now ep in
      if decide (Contact v <> "" /\ Contact v <> route) then (r, inl v)
      else let '(r', ch) := add_waiter user r in (r', inr ch)
  | None => let '(r', ch) := add_waiter user r in (r', inr ch)
  end.

(** ** Writes *)

Definition Provision (user deviceID : string) (r : Registry) : Registry :=
  let ep := default (mkEndpoint user "" "" 0) (byUser r !! user) in
  let devs := if decide (DeviceID ep <> "") then delete (DeviceID ep) (byDevice r) else byDevice r in
  let ep' := mkEndpoint (User ep) deviceID (Contact ep) (Expires ep) in
  let devs := if decide (deviceID <> "") then <[deviceID := user]> devs else devs in
  with_devices (with_users r (<[user := ep']> (byUser r))) devs.

Definition Deprovision (user : string) (r : Registry) : Registry :=
  let devs :=
    match byUser r !! user with
    | Some ep => if decide (DeviceID ep <> "") then delete (DeviceID ep) (byDevice r) else byDevice r
    | None => byDevice r
    end in
  with_users (with_devices r devs) (delete user (byUser r)).

Definition add_call (ep : Endpoint) (registered : bool) (r : Registry) : Registry :=
  if hasOnChange r
  then mkRegistry (byUser r) (byDevice r) (waiters r) (next_chan r) (closed r)
         (hasOnChange r) (calls r ++ [(ep, registered)])
  else r.

(** The outer [None] is a panic; the inner one is [ErrUnknownUser]. *)
Definition Register (now : Z) (user contact : string) (ttl : Z) (r : Registry)
    : option (Registry * option Endpoint) :=
  match byUser r !! user with
  | None => Some (r, None)
  | Some ep =>
      let ep' := mkEndpoint (User ep) (DeviceID ep) contact (now + ttl) in
      r1 ← notifyLocked user (with_users r (<[user := ep']> (byUser r)));
      Some (add_call ep' true r1, Some ep')
  end.

Definition Unregister (user : string) (r : Registry) : Registry :=
  match byUser r !! user with
  | None => r
  | Some ep =>
      let v := mkEndpoint (User ep) (DeviceID ep) "" 0 in
      let r1 := with_users r (<[user := v]> (byUser r)) in
      if decide (Contact ep <> "") then add_call v false r1 else r1
  end.

Definition OnChange (r : Registry) : Registry :=
  mkRegistry (byUser r) (byDevice r) (waiters r) (next_chan r) (closed r) true (calls r).

(** ** Steps of the whole table *)

Inductive Op :=
  | OpProvision (user deviceID : string)
  | OpDeprovision (user : string)
  | OpRegister (now : Z) (user contact : string) (ttl : Z)
  | OpUnregister (user : string)
  | OpOnChange
  | OpWait (now : Z) (user : string)
  | OpWaitRoute (now : Z) (user route : string)
  | OpCancelWait (user : string) (ch : nat).

#[export] Instance Op_eq_dec : EqDecision Op.
Proof. solve_decision. Defined.

Definition apply_op (o : Op) (r : Registry) : option Registry :=
  match o with
  | OpProvision u d => Some (Provision u d r)
  | OpDeprovision u => Some (Deprovision u r)
  | OpRegister now u c ttl => fst <$> Register now u c ttl r
  | OpUnregister u => Some (Unregister u r)
  | OpOnChange => Some (OnChange r)
  | OpWait now u => Some (fst (WaitRegistered now u r))
  | OpWaitRoute now u route => Some (fst (WaitRouteChange now u route r))
  | OpCancelWait u ch => Some (dropWaiterLocked u ch r)
  end.

Fixpoint apply_ops (l : list Op) (r : Registry) : option Registry :=
  match l with
  | [] => Some r
  | o :: l' => r' ← apply_op o r; apply_ops l' r'
  end.

(** ** Invariant *)

Definition devices_ok (users : gmap string Endpoint) (devs : gmap string string) : Prop :=
  forall d u, devs !! d = Some u -> exists ep, users !! u = Some ep /\ DeviceID ep = d /\ d <> "".

Definition waiters_ok (w : gmap string (list nat)) (next : nat) (c : gset nat) : Prop :=
  (forall u l, w !! u = Some l -> NoDup l /\ forall ch, ch ∈ l -> ch < next /\ ch ∉ c) /\
  (forall u1 u2 l1 l2 ch, w !! u1 = Some l1 -> w !! u2 = Some l2 -> ch ∈ l1 -> ch ∈ l2 -> u1 = u2).

Record wf (r : Registry) : Prop := {
  wf_user : forall u ep, byUser r !! u = Some ep -> User ep = u;
  wf_devices : devices_ok (byUser r) (byDevice r);
  wf_waiters : waiters_ok (waiters r) (next_chan r) (closed r);
  wf_closed : forall ch, ch ∈ closed r -> ch < next_chan r
}.

Lemma wf_New : wf New.
Proof.
  split; simpl.
  - intros u ep H. simplify_map_eq.
  - intros d u H. simplify_map_eq.
  - split; intros *; intros H; simplify_map_eq.
  - set_solver.
Qed.

Lemma close_all_spec l : forall c,
  NoDup l -> (forall ch, ch ∈ l -> ch ∉ c) ->
  exists c', close_all l c = Some c' /\ forall ch, ch ∈ c' <-> ch ∈ l \/ ch ∈ c.
Proof.
  induction l as [|x l IH]; intros c Hnd Hc; simpl; [exists c; set_solver|].
  apply NoDup_cons in Hnd as [Hx Hnd].
  rewrite decide_False by (apply Hc; set_solver).
  destruct (IH ({[x]} ∪ c)) as (c' & -> & Hc'); [done|set_solver|].
  exists c'. split; [done|]. intros ch. rewrite Hc'. set_solver.
Qed.

Lemma drop_first_sublist ch l : sublist (drop_first ch l) l.
Proof.
  induction l as [|w l IH]; simpl; [constructor|]. case_decide; repeat constructor; done.
Qed.

Lemma waiters_ok_delete w next c u : waiters_ok w next c -> waiters_ok (delete u w) next c.
Proof.
  intros [H1 H2]. split.
  - intros u' l [? ?]%lookup_delete_Some. eauto.
  - intros u1 u2 l1 l2 ch [? ?]%lookup_delete_Some [? ?]%lookup_delete_Some. eauto.
Qed.

Lemma waiters_ok_shrink w next c u l l' :
  waiters_ok w next c -> w !! u = Some l -> sublist l' l -> waiters_ok (<[u := l']> w) next c.
Proof.
  intros [H1 H2] Hu Hs.
  assert (forall ch, ch ∈ l' -> ch ∈ l) as Hin.
  { intros ch Hch. by eapply elem_of_submseteq, sublist_submseteq. }
  destruct (H1 _ _ Hu) as [Hnd Hl].
  split.
  - intros u' k [[<- <-]|[? ?]]%lookup_insert_Some; [|eauto].
    split; [by eapply sublist_NoDup|]. auto.
  - intros u1 u2 l1 l2 ch [[<- <-]|[? ?]]%lookup_insert_Some
      [[<- <-]|[? ?]]%lookup_insert_Some; eauto.
Qed.

Lemma waiters_ok_add w next c u :
  waiters_ok w next c -> (forall ch, ch ∈ c -> ch < next) ->
  waiters_ok (<[u := default [] (w !! u) ++ [next]]> w) (S next) c.
Proof.
  intros [H1 H2] Hc.
  assert (forall v l ch, w !! v = Some l -> ch ∈ l -> ch < next) as Hlt
    by (intros v l ch Hv Hch; destruct (H1 v l Hv) as [_ H]; by apply H).
  assert (forall ch, ch ∈ default [] (w !! u) -> exists l, w !! u = Some l /\ ch ∈ l) as Hd
    by (intros ch; destruct (w !! u) eqn:E; simpl; [eauto|set_solver]).
  split.
  - intros v l [[<- <-]|[Hne Hv]]%lookup_insert_Some.
    + split.
      * apply NoDup_app. split; [|split].
        -- destruct (w !! u) eqn:E; simpl; [by apply (H1 u)|constructor].
        -- intros ch (l & Hl & Hch)%Hd ->%list_elem_of_singleton.
           specialize (Hlt _ _ _ Hl Hch). lia.
        -- apply NoDup_singleton.
      * intros ch [(l & Hl & Hch)%Hd| ->%list_elem_of_singleton]%elem_of_app.
        -- destruct (H1 _ _ Hl) as [_ H]. destruct (H _ Hch). split; [lia|done].
        -- split; [lia|]. intros ?%Hc. lia.
    + destruct (H1 _ _ Hv) as [? H]. split; [done|]. intros ch Hch.
      destruct (H _ Hch). split; [lia|done].
  - intros u1 u2 l1 l2 ch [[<- <-]|[Hn1 Hv1]]%lookup_insert_Some
      [[<- <-]|[Hn2 Hv2]]%lookup_insert_Some Hc1 Hc2; [done| | |eauto].
    + apply elem_of_app in Hc1 as [(l & Hl & Hch)%Hd| ->%list_elem_of_singleton]; [eauto|].
      specialize (Hlt _ _ _ Hv2 Hc2). lia.
    + apply elem_of_app in Hc2 as [(l & Hl & Hch)%Hd| ->%list_elem_of_singleton]; [eauto|].
      specialize (Hlt _ _ _ Hv1 Hc1). lia.
Qed.

(** Changing a user's contact keeps the device index right. *)
Lemma devices_ok_contact users devs u ep ep' :
  devices_ok users devs -> users !! u = Some ep -> DeviceID ep' = DeviceID ep ->
  devices_ok (<[u := ep']> users) devs.
Proof.
  intros H Hu He d v Hd. destruct (H d v Hd) as (e & Hv & Hde & Hne).
  destruct (decide (u = v)) as [->|?]; simplify_map_eq; eauto.
Qed.

Lemma notifyLocked_spec user r :
  waiters_ok (waiters r) (next_chan r) (closed r) ->
  (forall ch, ch ∈ closed r -> ch < next_chan r) ->
  exists c, notifyLocked user r = Some (with_waiters (with_closed r c) (delete user (waiters r))) /\
    (forall ch, ch ∈ c <-> ch ∈ default [] (waiters r !! user) \/ ch ∈ closed r) /\
    waiters_ok (delete user (waiters r)) (next_chan r) c /\ (forall ch, ch ∈ c -> ch < next_chan r).
Proof.
  intros [H1 H2] Hc. unfold notifyLocked.
  destruct (close_all_spec (default [] (waiters r !! user)) (closed r)) as (c & E & Hin).
  { destruct (waiters r !! user) eqn:E; simpl; [by eapply H1|constructor]. }
  { destruct (waiters r !! user) eqn:E; simpl; [|set_solver]. intros. by eapply H1. }
  exists c. rewrite E. simpl. split; [done|]. split; [done|]. split.
  - split.
    + intros u l [Hne Hu]%lookup_delete_Some. destruct (H1 _ _ Hu) as [Hnd Hl].
      split; [done|]. intros ch Hch. destruct (Hl _ Hch) as [Hlt Hncl]. split; [done|].
      rewrite Hin. intros [Hd|?]; [|done].
      destruct (waiters r !! user) eqn:Eu; simpl in Hd; [|set_solver].
      apply Hne. by eapply (H2 user u).
    + intros u1 u2 l1 l2 ch [? ?]%lookup_delete_Some [? ?]%lookup_delete_Some. eauto.
  - intros ch. rewrite Hin. intros [Hd|?]; [|by apply Hc].
    destruct (waiters r !! user) eqn:Eu; simpl in Hd; [|set_solver]. by eapply H1.
Qed.

(** Deleting the entry of [u]'s own device keeps the index right. *)
Lemma devices_ok_forget users devs u ep :
  devices_ok users devs -> users !! u = Some ep ->
  let devs' := if decide (DeviceID ep <> "") then delete (DeviceID ep) devs else devs in
  forall d v, devs' !! d = Some v ->
    v <> u /\ exists e, users !! v = Some e /\ DeviceID e = d /\ d <> "".
Proof.
  intros H Hu devs' d v Hd. subst devs'.
  case_decide as Hne.
  - apply lookup_delete_Some in Hd as [Hdd Hd]. destruct (H d v Hd) as (e & He & ? & ?).
    split; [|eauto]. intros ->. simplify_eq.
  - destruct (H d v Hd) as (e & He & ? & ?). split; [|eauto]. intros ->. simplify_eq.
Qed.

Lemma wf_Provision u d r : wf r -> wf (Provision u d r).
Proof.
  intros [Hu Hd Hw Hc]. unfold Provision.
  set (ep := default _ _).
  assert (User ep = u) as HU by (subst ep; destruct (byUser r !! u) eqn:E; simpl; eauto).
  set (devs := if decide (DeviceID ep <> "") then _ else _).
  assert (forall d' v, devs !! d' = Some v ->
    v <> u /\ exists e, byUser r !! v = Some e /\ DeviceID e = d' /\ d' <> "") as Hdevs.
  { subst devs ep. destruct (byUser r !! u) as [ep|] eqn:E; simpl.
    - by apply devices_ok_forget.
    - intros d' v Hv. destruct (Hd _ _ Hv) as (e & He & ? & ?). split; [|eauto]. naive_solver. }
  split; simpl; [| |done|done].
  - intros v e [[<- <-]|[? ?]]%lookup_insert_Some; simpl; eauto.
  - intros d' v Hv. case_decide as Hne.
    + apply lookup_insert_Some in Hv as [[<- <-]|[Hne' Hv]].
      * eexists. rewrite lookup_insert_eq. split; [done|]. split; [done|].
        by intros ->; apply Hne.
      * destruct (Hdevs _ _ Hv) as (Hvu & e & He & ? & ?). exists e.
        rewrite lookup_insert_ne by done. done.
    + destruct (Hdevs _ _ Hv) as (Hvu & e & He & ? & ?). exists e.
      rewrite lookup_insert_ne by done. done.
Qed.

Lemma wf_Deprovision u r : wf r -> wf (Deprovision u r).
Proof.
  intros [Hu Hd Hw Hc]. unfold Deprovision. split; simpl; [| |done|done].
  - intros v e [? ?]%lookup_delete_Some. eauto.
  - intros d v Hv. destruct (byUser r !! u) as [ep|] eqn:E.
    + destruct (devices_ok_forget _ _ _ _ Hd E d v Hv) as (Hne & e & He & ? & ?).
      exists e. rewrite lookup_delete_ne by done. done.
    + destruct (Hd _ _ Hv) as (e & He & ? & ?). exists e.
      rewrite lookup_delete_ne by naive_solver. done.
Qed.

Lemma wf_add_call ep b r : wf r -> wf (add_call ep b r).
Proof. intros [? ? ? ?]. unfold add_call. destruct (hasOnChange r); by split. Qed.

Lemma wf_set_contact u ep ep' r :
  wf r -> byUser r !! u = Some ep -> User ep' = User ep -> DeviceID ep' = DeviceID ep ->
  wf (with_users r (<[u := ep']> (byUser r))).
Proof.
  intros [Hu Hd Hw Hc] E EU ED. split; simpl; [|by eapply devices_ok_contact|done|done].
  intros v e [[<- <-]|[? ?]]%lookup_insert_Some; [rewrite EU|]; eauto.
Qed.

Lemma wf_Unregister u r : wf r -> wf (Unregister u r).
Proof.
  intros H. unfold Unregister. destruct (byUser r !! u) as [ep|] eqn:E; [|done].
  case_decide; [apply wf_add_call|]; by eapply wf_set_contact.
Qed.

(** [Register] of a provisioned user never closes a channel twice. *)
Lemma Unregister_lookup u v reg :
  byUser (Unregister u reg) !! v =
  if decide (v = u) then (fun ep => mkEndpoint (User ep) (DeviceID ep) "" 0) <$> byUser reg !! u
  else byUser reg !! v.
Proof.
  unfold Unregister. destruct (byUser reg !! u) as [ep|] eqn:E.
  - assert (byUser (if decide (Contact ep <> "") then add_call (mkEndpoint (User ep) (DeviceID ep) "" 0) false
        (with_users reg (<[u:=mkEndpoint (User ep) (DeviceID ep) "" 0]> (byUser reg)))
      else with_users reg (<[u:=mkEndpoint (User ep) (DeviceID ep) "" 0]> (byUser reg)))
      = <[u:=mkEndpoint (User ep) (DeviceID ep) "" 0]> (byUser reg)) as E'.
    { case_decide; [|done]. unfold add_call. simpl. by destruct (hasOnChange reg). }
    rewrite E'. clear E'. destruct (decide (v = u)) as [->|Hv]; [by rewrite lookup_insert_eq|by rewrite lookup_insert_ne].
  - case_decide as Hv; [subst; by rewrite E|done].
Qed.

Lemma Register_spec now u contact ttl ep r :
  wf r -> byUser r !! u = Some ep ->
  let ep' := mkEndpoint (User ep) (DeviceID ep) contact (now + ttl) in
  exists r', Register now u contact ttl r = Some (r', Some ep') /\ wf r' /\
    byUser r' = <[u := ep']> (byUser r) /\ waiters r' = delete u (waiters r) /\
    (forall ch, ch ∈ closed r' <-> ch ∈ default [] (waiters r !! u) \/ ch ∈ closed r).
Proof.
  intros H E ep'. unfold Register. rewrite E. fold ep'.
  pose proof (wf_set_contact u ep ep' r H E eq_refl eq_refl) as [Hu Hd Hw Hc].
  destruct (notifyLocked_spec u _ Hw Hc) as (c & -> & Hin & Hw' & Hc'). simpl.
  eexists. split; [reflexivity|]. split.
  - apply wf_add_call. by split.
  - unfold add_call. simpl. destruct (hasOnChange r); simpl; done.
Qed.

(** Contacts come and go without touching the device index. *)
Lemma add_call_devices ep b r : byDevice (add_call ep b r) = byDevice r.
Proof. unfold add_call. by destruct (hasOnChange r). Qed.

Lemma Unregister_devices u r : byDevice (Unregister u r) = byDevice r.
Proof. unfold Unregister. destruct (byUser r !! u); [|done]. case_decide; [by rewrite add_call_devices|done]. Qed.

Lemma Register_devices now u contact ttl r r' x : Register now u contact ttl r = Some (r', x) -> byDevice r' = byDevice r.
Proof.
  unfold Register. destruct (byUser r !! u) as [ep|]; [|by intros [= <- _]]. unfold notifyLocked.
  destruct (close_all _ _); [|done]. cbn. intros [= <- _]. by rewrite add_call_devices.
Qed.

Lemma wf_add_waiter u r : wf r -> wf (fst (add_waiter u r)).
Proof.
  intros [Hu Hd Hw Hc]. unfold add_waiter. split; simpl; [done|done| |].
  - by apply waiters_ok_add.
  - intros ch Hch%Hc. lia.
Qed.

Lemma wf_dropWaiter u ch r : wf r -> wf (dropWaiterLocked u ch r).
Proof.
  intros [Hu Hd Hw Hc]. unfold dropWaiterLocked. split; simpl; [done|done| |done].
  destruct (waiters r !! u) as [l|] eqn:E; simpl.
  - destruct (drop_first ch l) eqn:Ed; [by apply waiters_ok_delete|].
    eapply waiters_ok_shrink; [done|done|]. rewrite <- Ed. apply drop_first_sublist.
  - by apply waiters_ok_delete.
Qed.

Lemma wf_apply_op o r : wf r -> exists r', apply_op o r = Some r' /\ wf r'.
Proof.
  intros H. destruct o as [u d|u|now u c ttl|u| |now u|now u route|u ch]; simpl;
    try (eexists; split; [reflexivity|]).
  - by apply wf_Provision.
  - by apply wf_Deprovision.
  - destruct (byUser r !! u) as [ep|] eqn:E.
    + destruct (Register_spec now u c ttl ep r H E) as (r' & -> & Hr' & _). simpl. eauto.
    + unfold Register. rewrite E. simpl. eauto.
  - by apply wf_Unregister.
  - by destruct H; split.
  - unfold WaitRegistered. destruct (byUser r !! u); [case_decide|]; simpl; [done| |];
      by apply wf_add_waiter.
  - unfold WaitRouteChange. destruct (byUser r !! u); [case_decide|]; simpl; [done| |];
      by apply wf_add_waiter.
  - by apply wf_dropWaiter.
Qed.

Lemma wf_apply_ops l : forall r, wf r -> exists r', apply_ops l r = Some r' /\ wf r'.
Proof.
  induction l as [|o l IH]; intros r H; simpl; [eauto|].
  destruct (wf_apply_op o r H) as (r1 & -> & H1). simpl. by apply IH.
Qed.

Lemma wf_reachable l r : apply_ops l New = Some r -> wf r.
Proof. intros E. destruct (wf_apply_ops l New wf_New) as (r' & E' & ?). by simplify_eq. Qed.

(** ** Properties *)

(** whatever sequence of operations runs, in any interleaving of the
    callers, no operation faults: no channel is closed twice, and every
    device the index knows leads to a provisioned user whose device it is, so
    [LookupDevice] never dereferences nil. *)
Theorem registry_never_faults (l : list Op) :
  exists r, apply_ops l New = Some r /\
    (forall d u, byDevice r !! d = Some u ->
       exists ep, byUser r !! u = Some ep /\ DeviceID ep = d /\ User ep = u) /\
    forall now d, exists o, LookupDevice now d r = Some o.
Proof.
  destruct (wf_apply_ops l New wf_New) as (r & E & [Hu Hd Hw Hc]).
  exists r. split; [done|]. split.
  - intros d u Hdu. destruct (Hd _ _ Hdu) as (ep & He & ? & ?). eauto 6.
  - intros now d. unfold LookupDevice. destruct (byDevice r !! d) as [u|] eqn:E'; [|eauto].
    destruct (Hd _ _ E') as (ep & -> & _). simpl. eauto.
Qed.

(** *** A blocked call among the others

    Its channel waits for the user, or is closed. *)
Definition holds (u : string) (ch : nat) (r : Registry) : Prop :=
  ch ∈ closed r \/ exists l, waiters r !! u = Some l /\ ch ∈ l.

Lemma add_call_frame ep b r : waiters (add_call ep b r) = waiters r /\ closed (add_call ep b r) = closed r /\ byUser (add_call ep b r) = byUser r.
Proof. unfold add_call. by destruct (hasOnChange r). Qed.

Lemma Unregister_frame u r : waiters (Unregister u r) = waiters r /\ closed (Unregister u r) = closed r.
Proof.
  unfold Unregister. destruct (byUser r !! u); [|done]. case_decide; [|done].
  destruct (add_call_frame (mkEndpoint (User e) (DeviceID e) "" 0) false (with_users r (<[u:=mkEndpoint (User e) (DeviceID e) "" 0]> (byUser r)))) as (->&->&_). done.
Qed.

Lemma drop_first_keeps ch ch' l : ch <> ch' -> ch ∈ l -> ch ∈ drop_first ch' l.
Proof.
  intros Hne. induction l as [|w l IH]; simpl; [done|]. intros [->|H]%elem_of_cons; case_decide; subst; try done; set_solver.
Qed.

Lemma holds_add_waiter u ch v r : holds u ch r -> holds u ch (fst (add_waiter v r)).
Proof.
  intros [H|(l&Hl&H)]; [by left|right]. simpl. destruct (decide (v = u)) as [->|Hne].
  - rewrite lookup_insert_eq, Hl. simpl. eexists. split; [done|]. set_solver.
  - rewrite lookup_insert_ne by done. eauto.
Qed.

(** Only the caller's own end takes its channel away. *)
Lemma holds_op u ch o r r' : wf r -> holds u ch r -> o <> OpCancelWait u ch -> apply_op o r = Some r' -> holds u ch r'.
Proof.
  intros Hr Hh Ho. destruct o as [v d|v|now v c ttl|v| |now v|now v route|v ch']; simpl.
  - by intros [= <-].
  - by intros [= <-].
  - destruct (byUser r !! v) as [ep|] eqn:E; [|unfold Register; rewrite E; simpl; by intros [= <-]].
    destruct (Register_spec now v c ttl ep r Hr E) as (r2&->&_&_&Hw&Hc). simpl. intros [= <-].
    destruct Hh as [H|(l&Hl&H)]; [left; apply Hc; by right|]. destruct (decide (v = u)) as [->|Hne].
    + left. apply Hc. left. by rewrite Hl.
    + right. rewrite Hw, lookup_delete_ne by done. eauto.
  - intros [= <-]. unfold holds. by destruct (Unregister_frame v r) as [-> ->].
  - by intros [= <-].
  - intros [= <-]. unfold WaitRegistered. destruct (byUser r !! v); [case_decide|]; try done; by apply holds_add_waiter.
  - intros [= <-]. unfold WaitRouteChange. destruct (byUser r !! v); [case_decide|]; try done; by apply holds_add_waiter.
  - intros [= <-]. destruct Hh as [H|(l&Hl&H)]; [by left|right]. unfold dropWaiterLocked. simpl. destruct (decide (v = u)) as [->|Hne].
    + rewrite Hl. simpl. assert (ch ∈ drop_first ch' l) as Hd by (apply drop_first_keeps; [congruence|done]).
      destruct (drop_first ch' l) eqn:E; [by apply elem_of_nil in Hd|]. rewrite lookup_insert_eq. eauto.
    + exists l. split; [|done]. destruct (drop_first _ _); [by rewrite lookup_delete_ne|by rewrite lookup_insert_ne].
Qed.

Lemma holds_ops u ch l : forall r r', wf r -> holds u ch r -> OpCancelWait u ch ∉ l -> apply_ops l r = Some r' -> wf r' /\ holds u ch r'.
Proof.
  induction l as [|o l IH]; intros r r' Hr Hh Hn; simpl; [by intros [= <-]|]. apply not_elem_of_cons in Hn as [Ho Hn].
  destruct (wf_apply_op o r Hr) as (r1&E&H1). rewrite E. simpl. apply IH; [done| |done]. eapply holds_op; [exact Hr|done| |done]. congruence.
Qed.

(** A closed channel stays closed. *)
Lemma closed_step ch o r r' : wf r -> ch ∈ closed r -> apply_op o r = Some r' -> ch ∈ closed r'.
Proof.
  intros Hr Hh. destruct o as [v d|v|now v c ttl|v| |now v|now v route|v ch']; simpl.
  - by intros [= <-].
  - by intros [= <-].
  - destruct (byUser r !! v) as [ep|] eqn:E; [|unfold Register; rewrite E; simpl; by intros [= <-]].
    destruct (Register_spec now v c ttl ep r Hr E) as (r2&->&_&_&_&Hc). simpl. intros [= <-]. apply Hc. by right.
  - intros [= <-]. by destruct (Unregister_frame v r) as [_ ->].
  - by intros [= <-].
  - intros [= <-]. unfold WaitRegistered. destruct (byUser r !! v); [case_decide|]; done.
  - intros [= <-]. unfold WaitRouteChange. destruct (byUser r !! v); [case_decide|]; done.
  - by intros [= <-].
Qed.

(** The operations that leave the registration of [u] as it is. *)
Definition leaves (u : string) (o : Op) : Prop :=
  match o with OpRegister _ v _ _ | OpUnregister v | OpDeprovision v => v <> u | _ => True end.

Definition registered_as (u contact : string) (until : Z) (r : Registry) : Prop :=
  exists ep, byUser r !! u = Some ep /\ Contact ep = contact /\ Expires ep = until.

Lemma leaves_step u contact until o r r' : wf r -> leaves u o -> registered_as u contact until r -> apply_op o r = Some r' -> registered_as u contact until r'.
Proof.
  intros Hr Hl (ep&E&Hep). destruct o as [v d|v|now v c ttl|v| |now v|now v route|v ch']; simpl in *.
  - intros [= <-]. unfold registered_as, Provision. simpl. destruct (decide (v = u)) as [->|Hne].
    + rewrite lookup_insert_eq, E. simpl. eauto.
    + rewrite lookup_insert_ne by done. eauto.
  - intros [= <-]. unfold registered_as, Deprovision. simpl. rewrite lookup_delete_ne by done. eauto.
  - destruct (byUser r !! v) as [e2|] eqn:E2; [|unfold Register; rewrite E2; simpl; intros [= <-]; by exists ep].
    destruct (Register_spec now v c ttl e2 r Hr E2) as (r2&->&_&Hu&_). simpl. intros [= <-].
    unfold registered_as. rewrite Hu, lookup_insert_ne by done. eauto.
  - intros [= <-]. unfold registered_as. rewrite Unregister_lookup, decide_False by done. eauto.
  - intros [= <-]. by exists ep.
  - intros [= <-]. unfold WaitRegistered. destruct (byUser r !! v); [case_decide|]; by exists ep.
  - intros [= <-]. unfold WaitRouteChange. destruct (byUser r !! v); [case_decide|]; by exists ep.
  - intros [= <-]. by exists ep.
Qed.

Lemma after_ops ch l : forall r r', wf r -> ch ∈ closed r -> apply_ops l r = Some r' ->
  ch ∈ closed r' /\ forall u contact until, Forall (leaves u) l -> registered_as u contact until r -> registered_as u contact until r'.
Proof.
  induction l as [|o l IH]; intros r r' Hr Hc; simpl; [by intros [= <-]|].
  destruct (wf_apply_op o r Hr) as (r1&E&H1). rewrite E. simpl. intros Hl. destruct (IH r1 r' H1 (closed_step ch o r r1 Hr Hc E) Hl) as [IHc IHr].
  split; [done|]. intros u contact until [Ho Hls]%Forall_cons Hreg. apply IHr; [done|]. by apply (leaves_step u contact until o r r1).
Qed.

(** C24: no registration is missed by a blocked call, whatever the others do: on any
    reachable table a call that blocks on a user holds a channel; whatever operations
    run after it, but for the end of its own wait, the next registration of that user
    succeeds and finds the channel closed or closes it; it stays closed whatever runs
    next; and when the call runs again while that registration stands (nothing has
    registered, unregistered or removed the user since, and it has not lapsed) it
    returns its contact. *)
Theorem register_wakes_every_waiter (l1 l2 : list Op) (r r1 r2 : Registry) (now : Z) (u : string)
    (ch : nat) (t : Z) (contact : string) (ttl : Z) :
  apply_ops l1 New = Some r -> WaitRegistered now u r = (r1, inr ch) ->
  OpCancelWait u ch ∉ l2 -> apply_ops l2 r1 = Some r2 -> is_Some (byUser r2 !! u) -> contact <> "" ->
  exists r3 ep, Register t u contact ttl r2 = Some (r3, Some ep) /\ Contact ep = contact /\ ch ∈ closed r3 /\ waiters r3 !! u = None
  /\ forall l3 r4, apply_ops l3 r3 = Some r4 -> ch ∈ closed r4
     /\ forall t', Forall (leaves u) l3 -> (t' < t + ttl)%Z -> Contact <$> WaitRegistered_woken t' u r4 = Some contact.
Proof.
  intros El Hw Hn E2 [ep E] Hne. pose proof (wf_reachable _ _ El) as Hr.
  assert (r1 = fst (add_waiter u r) /\ ch = next_chan r) as [-> ->].
  { unfold WaitRegistered in Hw. destruct (byUser r !! u); [case_decide|]; by simplify_eq/=. }
  assert (holds u (next_chan r) (fst (add_waiter u r))) as H1.
  { right. simpl. rewrite lookup_insert_eq. eexists. split; [done|]. set_solver. }
  destruct (holds_ops _ _ l2 _ r2 (wf_add_waiter u r Hr) H1 Hn E2) as [Hr2 H2].
  destruct (Register_spec t u contact ttl ep r2 Hr2 E) as (r3&HR&Hr3&Hu3&Hw3&Hc3).
  eexists r3, _. split; [exact HR|]. split; [done|]. assert (next_chan r ∈ closed r3) as Hc.
  { apply Hc3. destruct H2 as [H2|(l&Hl&H2)]; [by right|left]. by rewrite Hl. }
  split; [done|]. split; [rewrite Hw3; apply lookup_delete_eq|]. intros l3 r4 E4.
  destruct (after_ops _ l3 r3 r4 Hr3 Hc E4) as [Hc4 Hl4]. split; [done|]. intros t' Hl Ht.
  destruct (Hl4 u contact (t + ttl)%Z Hl) as (e4&E5&Ec&Ee).
  { eexists. rewrite Hu3, lookup_insert_eq. done. }
  unfold WaitRegistered_woken, Lookup. rewrite E5. simpl. unfold viewLocked, after.
  rewrite Ee, (proj2 (Z.ltb_lt t' (t + ttl))), Ec by done. simpl. rewrite (decide_True (P := contact <> "")) by done. simpl.
  rewrite Ec, decide_False by done. simpl. by rewrite Ec.
Qed.

Lemma viewLocked_live now ep :
  Contact (viewLocked now ep) <> "" -> viewLocked now ep = ep /\ (now < Expires ep)%Z.
Proof.
  unfold viewLocked, after. destruct (Z.ltb_spec now (Expires ep)); simpl;
    repeat case_decide; simpl; done.
Qed.

(** a lapsed registration is never reported: every contact shown by
    [Lookup], [LookupDevice] or [Endpoints] belongs to a registration that is
    stored and has not expired at the time of the read. *)
Theorem reads_never_show_a_stale_contact (l : list Op) (r : Registry) (now : Z) (v : Endpoint) :
  apply_ops l New = Some r ->
  (exists u, Lookup now u r = Some v) \/ (exists d, LookupDevice now d r = Some (Some v)) \/
    v ∈ Endpoints now r ->
  Contact v <> "" ->
  byUser r !! User v = Some v /\ (now < Expires v)%Z.
Proof.
  intros El Hv Hc. pose proof (wf_reachable _ _ El) as Hr.
  assert (exists u ep, byUser r !! u = Some ep /\ v = viewLocked now ep) as (u & ep & E & ->).
  { destruct Hv as [[u Hv]|[[d Hv]|Hv]].
    - unfold Lookup in Hv. apply fmap_Some in Hv as (ep & ? & ->). eauto.
    - unfold LookupDevice in Hv. destruct (byDevice r !! d) as [u|]; [|done].
      destruct (byUser r !! u) as [ep|] eqn:E; simplify_eq/=. eauto.
    - unfold Endpoints in Hv. rewrite merge_sort_Permutation in Hv.
      apply list_elem_of_fmap in Hv as (ep & -> & ([u e] & -> & Hin)%list_elem_of_fmap).
      apply elem_of_map_to_list in Hin. eauto. }
  destruct (viewLocked_live _ _ Hc) as [-> Hlt]. split; [|done].
  by rewrite (wf_user _ Hr _ _ E).
Qed.

(** The device index is not kept in step when a device moves between
    users: provisioning device [d] for a second user leaves the first user's
    record pointing at [d], so removing or rebinding the first user erases
    the second one from the index although it is still bound to [d]. *)
Theorem rebinding_loses_the_device (u1 u2 d : string) (r r' : Registry) :
  wf r -> u1 <> u2 -> d <> "" ->
  r' = Deprovision u1 (Provision u2 d (Provision u1 d r)) ->
  (exists ep, byUser r' !! u2 = Some ep /\ DeviceID ep = d) /\
  forall now, LookupDevice now d r' = Some None.
Proof.
  intros _ Hne Hd ->. unfold Provision, Deprovision. simpl.
  rewrite (lookup_insert_ne _ u2 u1) by done. rewrite lookup_insert_eq. simpl.
  rewrite (decide_True (P := d <> "")) by done.
  split.
  - eexists. rewrite lookup_delete_ne, lookup_insert_eq by done. done.
  - intros now. unfold LookupDevice. simpl. rewrite !(decide_True (P := d <> "")) by done.
    by rewrite lookup_delete_eq.
Qed.

(** ** Witnesses *)

Definition demo_ops : list Op :=
  [OpProvision "201" "dev-a"; OpProvision "202" "dev-b"; OpOnChange;
   OpRegister 100 "202" "sip:202@10.0.0.2" 60].

Definition demo : Registry := default New (apply_ops demo_ops New).

(** Others register, wait and give up in between. *)
Definition demo_between : list Op :=
  [OpRegister 112 "202" "sip:202@10.0.0.3" 60; OpWait 113 "201"; OpCancelWait "201" 1; OpProvision "201" "dev-c"].
Definition demo_after : list Op := [OpUnregister "202"; OpWaitRoute 201 "201" "sip:201@10.0.0.1"; OpProvision "201" "dev-a"].
Definition demo_blocked : Registry := fst (WaitRegistered 110 "201" demo).
Definition demo_later : Registry := default New (apply_ops demo_between demo_blocked).
Definition demo_registered : Registry := default New (fst <$> Register 200 "201" "sip:201@10.0.0.1" 60 demo_later).

Lemma register_wakes_every_waiter_witness :
  0 ∈ closed demo_registered /\ Contact <$> WaitRegistered_woken 210 "201" (default New (apply_ops demo_after demo_registered)) = Some "sip:201@10.0.0.1".
Proof.
  destruct (register_wakes_every_waiter demo_ops demo_between demo demo_blocked demo_later 110 "201" 0 200 "sip:201@10.0.0.1" 60
    ltac:(vm_compute; reflexivity) ltac:(vm_compute; reflexivity) ltac:(apply (bool_decide_unpack _); vm_compute; exact I)
    ltac:(vm_compute; reflexivity) ltac:(vm_compute; eauto) ltac:(done)) as (r3&ep&E&_&Hc&_&H).
  assert (r3 = demo_registered) as -> by (unfold demo_registered; rewrite E; reflexivity).
  split; [exact Hc|]. destruct (apply_ops demo_after demo_registered) as [r4|] eqn:E4; [|vm_compute in E4; discriminate E4].
  apply (H demo_after r4 E4); [repeat constructor; discriminate|lia].
Defined.

Lemma reads_never_show_a_stale_contact_witness :
  byUser demo !! "202" = Some (mkEndpoint "202" "dev-b" "sip:202@10.0.0.2" 160) /\ (120 < 160)%Z.
Proof.
  apply (reads_never_show_a_stale_contact demo_ops demo 120
           (mkEndpoint "202" "dev-b" "sip:202@10.0.0.2" 160));
    [vm_compute; reflexivity | left; exists "202"; vm_compute; reflexivity | done].
Defined.

Lemma rebinding_loses_the_device_witness :
  let r' := Deprovision "201" (Provision "202" "dev-a" (Provision "201" "dev-a" New)) in
  (exists ep, byUser r' !! "202" = Some ep /\ DeviceID ep = "dev-a") /\
  forall now, LookupDevice now "dev-a" r' = Some None.
Proof. apply (rebinding_loses_the_device "201" "202" "dev-a" New); [apply wf_New|done|done|done]. Defined.
