(* ===== verification/QrField.v ===== *)
(** GF(256) and Reed-Solomon for the QR encoder (src/server/internal/qr/qr.go):
    the exponent and logarithm tables, the product through them, the generator
    polynomial and the remainder register, and the proof that a block followed
    by its error correction codewords vanishes at every root of the generator. *)

From S2P Require Import Prelude.
Open Scope Z_scope.

(** ** The tables *)

Definition zget (l : list Z) (i : Z) : Z := nth (Z.to_nat i) l 0.

(** The loop of the table initialiser: [n] turns left, at index [i]. *)
Fixpoint gf_loop (n : nat) (i x : Z) (exp log : list Z) : list Z * list Z :=
  match n with
  | O => (exp, log)
  | S n' =>
      let exp := <[Z.to_nat i := u8 x]> exp in
      let log := <[Z.to_nat x := u8 i]> log in
      let x := Z.shiftl x 1 in
      let x := if decide (Z.land x 256 <> 0) then Z.lxor x 285 else x in
      gf_loop n' (i + 1) x exp log
  end.

(** [exp[i] = exp[i-255]] for [i] from 255 to 511. *)
Fixpoint gf_copy (n : nat) (i : Z) (exp : list Z) : list Z :=
  match n with
  | O => exp
  | S n' => gf_copy n' (i + 1) (<[Z.to_nat i := zget exp (i - 255)]> exp)
  end.

Definition gf_init : list Z * list Z :=
  let '(exp, log) := gf_loop 255 0 1 (replicate 512 0) (replicate 256 0) in
  (gf_copy 257 255 exp, log).

Definition gf_tables : list Z * list Z := Eval vm_compute in gf_init.
Definition gfExp : list Z := Eval vm_compute in fst gf_tables.
Definition gfLog : list Z := Eval vm_compute in snd gf_tables.

Lemma gf_tables_ok : gf_init = (gfExp, gfLog).
Proof. vm_compute. reflexivity. Qed.

Definition gfMul (a b : Z) : Z :=
  if decide (a = 0 \/ b = 0) then 0 else zget gfExp (zget gfLog a + zget gfLog b).

(** ** Reed-Solomon *)

(** One pass of the inner loop: each coefficient times [root], plus its old
    right neighbour. *)
Fixpoint gen_pass (root : Z) (g : list Z) : list Z :=
  match g with
  | [] => []
  | [a] => [gfMul a root]
  | a :: ((b :: _) as t) => Z.lxor (gfMul a root) b :: gen_pass root t
  end.

Fixpoint gen_loop (n : nat) (root : Z) (g : list Z) : list Z :=
  match n with
  | O => g
  | S n' => gen_loop n' (gfMul root 2) (gen_pass root g)
  end.

(** [degree] is positive at every call. *)
Definition rsGenerator (degree : nat) : list Z :=
  gen_loop degree 1 (<[(degree - 1)%nat := 1]> (replicate degree 0)).

Definition rs_step (gen r : list Z) (b : Z) : list Z :=
  let factor := Z.lxor b (zget r 0) in
  zip_with (fun ri c => Z.lxor ri (gfMul c factor)) (drop 1 r ++ [0]) gen.

Definition rsRemainder (data gen : list Z) : list Z :=
  foldl (rs_step gen) (replicate (length gen) 0) data.

(** ** GF(256) is a ring under [Z.lxor] and [gfMul] *)

Definition is_byte (z : Z) : Prop := 0 <= z < 256.

#[export] Instance is_byte_dec z : Decision (is_byte z).
Proof. unfold is_byte. apply _. Defined.

(** Multiplication by the generator, as the table initialiser does it. *)
Definition xtime (x : Z) : Z :=
  let x := Z.shiftl x 1 in if decide (Z.land x 256 <> 0) then Z.lxor x 285 else x.

Definition xtimes (n : nat) (x : Z) : Z := Nat.iter n xtime x.

(** The facts of the tables used below, by evaluation. *)
Definition exp_check : bool :=
  forallb (fun i => let e := zget gfExp i in
    bool_decide (is_byte e) && negb (e =? 0) && (e =? zget gfExp (i mod 255))
    && (zget gfLog e =? i mod 255) && ((i =? 511) || (zget gfExp (i + 1) =? xtime e))) (seqZ 0 512).

Definition log_check : bool :=
  forallb (fun x => let l := zget gfLog x in
    (0 <=? l) && (l <? 255) && ((x =? 0) || (zget gfExp l =? x))) (seqZ 0 256).

Lemma exp_check_ok : exp_check = true.
Proof. vm_compute. reflexivity. Qed.
Lemma log_check_ok : log_check = true.
Proof. vm_compute. reflexivity. Qed.

Lemma forallb_in {A} (f : A -> bool) l x : forallb f l = true -> x ∈ l -> f x = true.
Proof. rewrite forallb_forall. intros H Hx. apply H. by apply list_elem_of_In. Qed.

Lemma exp_facts i : 0 <= i < 512 -> let e := zget gfExp i in
  is_byte e /\ e <> 0 /\ e = zget gfExp (i mod 255) /\ zget gfLog e = i mod 255
  /\ (i < 511 -> zget gfExp (i + 1) = xtime e).
Proof.
  intros Hi e.
  pose proof (forallb_in _ _ i exp_check_ok ltac:(apply elem_of_seqZ; lia)) as H.
  cbv beta zeta in H. fold e in H.
  rewrite !andb_true_iff, orb_true_iff, negb_true_iff, bool_decide_eq_true in H.
  destruct H as [[[[H1 H2] H3] H4] H5]. repeat split; try apply H1; lia.
Qed.

Lemma log_facts x : is_byte x -> 0 <= zget gfLog x < 255 /\ (x <> 0 -> zget gfExp (zget gfLog x) = x).
Proof.
  intros Hx.
  pose proof (forallb_in _ _ x log_check_ok ltac:(apply elem_of_seqZ; unfold is_byte in Hx; lia)) as H.
  cbv beta zeta in H. rewrite !andb_true_iff, orb_true_iff in H. lia.
Qed.

Lemma gfMul_0_l b : gfMul 0 b = 0.
Proof. unfold gfMul. by rewrite decide_True by auto. Qed.

Lemma gfMul_0_r a : gfMul a 0 = 0.
Proof. unfold gfMul. by rewrite decide_True by auto. Qed.

Lemma gfMul_nz a b : a <> 0 -> b <> 0 -> gfMul a b = zget gfExp (zget gfLog a + zget gfLog b).
Proof. intros. unfold gfMul. by rewrite decide_False by naive_solver. Qed.

Lemma gfMul_comm a b : gfMul a b = gfMul b a.
Proof.
  destruct (decide (a = 0)) as [->|]; [by rewrite gfMul_0_l, gfMul_0_r|].
  destruct (decide (b = 0)) as [->|]; [by rewrite gfMul_0_l, gfMul_0_r|].
  rewrite !gfMul_nz by done. by rewrite Z.add_comm.
Qed.

Lemma gfMul_byte a b : is_byte a -> is_byte b -> is_byte (gfMul a b).
Proof.
  intros Ha Hb. unfold gfMul. case_decide; [unfold is_byte; lia|].
  pose proof (log_facts a Ha). pose proof (log_facts b Hb). apply exp_facts. lia.
Qed.

Lemma gfMul_log a b : is_byte a -> is_byte b -> a <> 0 -> b <> 0 ->
  gfMul a b <> 0 /\ zget gfLog (gfMul a b) = (zget gfLog a + zget gfLog b) mod 255.
Proof.
  intros Ha Hb ??. rewrite gfMul_nz by done.
  pose proof (log_facts a Ha). pose proof (log_facts b Hb).
  destruct (exp_facts (zget gfLog a + zget gfLog b) ltac:(lia)) as (_&?&_&?&_). done.
Qed.

Lemma exp_mod k l : 0 <= k < 512 -> 0 <= l < 512 -> k mod 255 = l mod 255 ->
  zget gfExp k = zget gfExp l.
Proof.
  intros Hk Hl E. destruct (exp_facts k Hk) as (_&_&->&_). destruct (exp_facts l Hl) as (_&_&->&_).
  by rewrite E.
Qed.

Lemma gfMul_assoc a b c : is_byte a -> is_byte b -> is_byte c ->
  gfMul (gfMul a b) c = gfMul a (gfMul b c).
Proof.
  intros Ha Hb Hc.
  destruct (decide (a = 0)) as [->|]; [by rewrite !gfMul_0_l|].
  destruct (decide (b = 0)) as [->|]; [by rewrite gfMul_0_r, gfMul_0_l, gfMul_0_r|].
  destruct (decide (c = 0)) as [->|]; [by rewrite !gfMul_0_r|].
  destruct (gfMul_log a b) as [H1 E1]; [done..|]. destruct (gfMul_log b c) as [H2 E2]; [done..|].
  rewrite (gfMul_nz (gfMul a b)), (gfMul_nz a (gfMul b c)), E1, E2 by done.
  pose proof (log_facts a Ha). pose proof (log_facts b Hb). pose proof (log_facts c Hc).
  pose proof (Z.mod_pos_bound (zget gfLog a + zget gfLog b) 255).
  pose proof (Z.mod_pos_bound (zget gfLog b + zget gfLog c) 255).
  apply exp_mod; [lia|lia|]. rewrite Zplus_mod_idemp_l, Zplus_mod_idemp_r. f_equal. lia.
Qed.

Lemma land_256 x : Z.land x 256 <> 0 <-> Z.testbit x 8 = true.
Proof.
  assert (Z.land x 256 = if Z.testbit x 8 then 256 else 0) as ->; [|by destruct (Z.testbit x 8)].
  apply Z.bits_inj'. intros i Hi. rewrite Z.land_spec.
  replace 256 with (2 ^ 8) by done. rewrite Z.pow2_bits_eqb by lia.
  destruct (decide (i = 8)) as [->|Hn].
  - rewrite Z.eqb_refl, andb_true_r. by destruct (Z.testbit x 8).
  - rewrite (proj2 (Z.eqb_neq 8 i)), andb_false_r by lia.
    destruct (Z.testbit x 8); [|by rewrite Z.bits_0].
    rewrite Z.pow2_bits_false by lia. done.
Qed.

Lemma lxor_swap a b c d : Z.lxor (Z.lxor a b) (Z.lxor c d) = Z.lxor (Z.lxor a c) (Z.lxor b d).
Proof.
  apply Z.bits_inj'. intros i Hi. rewrite !Z.lxor_spec.
  by destruct (Z.testbit a i), (Z.testbit b i), (Z.testbit c i), (Z.testbit d i).
Qed.

Lemma xtime_lxor x y : xtime (Z.lxor x y) = Z.lxor (xtime x) (xtime y).
Proof.
  unfold xtime. rewrite Z.shiftl_lxor. set (a := Z.shiftl x 1). set (b := Z.shiftl y 1).
  assert (forall z, (if decide (Z.land z 256 <> 0) then Z.lxor z 285 else z)
    = Z.lxor z (if Z.testbit z 8 then 285 else 0)) as E.
  { intros z. case_decide as H; [by rewrite (proj1 (land_256 z) H)|].
    destruct (Z.testbit z 8) eqn:Ez; [by apply land_256 in Ez|]. by rewrite Z.lxor_0_r. }
  rewrite !E, Z.lxor_spec, lxor_swap. f_equal.
  by destruct (Z.testbit a 8), (Z.testbit b 8).
Qed.

Lemma xtimes_lxor n x y : xtimes n (Z.lxor x y) = Z.lxor (xtimes n x) (xtimes n y).
Proof. unfold xtimes. induction n as [|n IH]; simpl; [done|]. by rewrite IH, xtime_lxor. Qed.

Lemma xtimes_0 n : xtimes n 0 = 0.
Proof. unfold xtimes. induction n as [|n IH]; simpl; [done|]. by rewrite IH. Qed.

Lemma exp_xtimes n k : 0 <= k -> k + Z.of_nat n < 512 ->
  zget gfExp (k + Z.of_nat n) = xtimes n (zget gfExp k).
Proof.
  intros Hk. induction n as [|n IH]; intros Hn; [by rewrite Z.add_0_r|].
  unfold xtimes in *. simpl. rewrite <- IH by lia.
  destruct (exp_facts (k + Z.of_nat n) ltac:(lia)) as (_&_&_&_&<-); [|lia]. f_equal. lia.
Qed.

(** The product by [a] is [gfLog a] multiplications by the generator. *)
Lemma gfMul_xtimes a b : is_byte a -> is_byte b -> a <> 0 ->
  gfMul a b = xtimes (Z.to_nat (zget gfLog a)) b.
Proof.
  intros Ha Hb Ha0. destruct (decide (b = 0)) as [->|]; [by rewrite gfMul_0_r, xtimes_0|].
  destruct (log_facts a Ha) as [? _]. destruct (log_facts b Hb) as [? Eb].
  rewrite gfMul_nz by done. replace (zget gfLog a + zget gfLog b)
    with (zget gfLog b + Z.of_nat (Z.to_nat (zget gfLog a))) by lia.
  rewrite exp_xtimes, Eb by (done || lia). done.
Qed.

Lemma byte_bits z : is_byte z <-> 0 <= z /\ forall i, 8 <= i -> Z.testbit z i = false.
Proof.
  unfold is_byte. split.
  - intros [H0 H1]. split; [done|]. intros i Hi.
    destruct (decide (z = 0)) as [->|]; [apply Z.testbit_0_l|].
    apply Z.bits_above_log2; [done|].
    apply Z.lt_le_trans with 8; [|done]. apply Z.log2_lt_pow2; lia.
  - intros [H0 H]. split; [done|]. destruct (decide (z = 0)) as [->|]; [done|].
    destruct (decide (z < 256)) as [|Hge]; [done|].
    assert (8 <= Z.log2 z) as Hl by (apply Z.log2_le_pow2; lia).
    specialize (H _ Hl). rewrite Z.bit_log2 in H by lia. done.
Qed.

Lemma lxor_byte a b : is_byte a -> is_byte b -> is_byte (Z.lxor a b).
Proof.
  rewrite !byte_bits. intros [Ha Ha'] [Hb Hb']. split; [apply Z.lxor_nonneg; lia|].
  intros i Hi. by rewrite Z.lxor_spec, Ha', Hb'.
Qed.

#[export] Hint Resolve gfMul_byte lxor_byte : go.

(** Distributivity. *)
Lemma gfMul_lxor_r x y b : is_byte x -> is_byte y -> is_byte b ->
  gfMul b (Z.lxor x y) = Z.lxor (gfMul b x) (gfMul b y).
Proof.
  intros. destruct (decide (b = 0)) as [->|]; [by rewrite !gfMul_0_l|].
  rewrite !gfMul_xtimes by auto with go. apply xtimes_lxor.
Qed.

Lemma gfMul_lxor_l x y b : is_byte x -> is_byte y -> is_byte b ->
  gfMul (Z.lxor x y) b = Z.lxor (gfMul x b) (gfMul y b).
Proof. intros. rewrite !(gfMul_comm _ b). by apply gfMul_lxor_r. Qed.

Lemma gfMul_1_l a : is_byte a -> gfMul 1 a = a.
Proof.
  intros Ha. destruct (decide (a = 0)) as [->|]; [done|].
  rewrite gfMul_nz by done. by apply log_facts.
Qed.

Lemma byte_0 : is_byte 0.
Proof. done. Qed.
Lemma byte_1 : is_byte 1.
Proof. done. Qed.
#[export] Hint Resolve byte_0 byte_1 : go.

(** ** Polynomials over GF(256), highest coefficient first *)

Definition peval_from (x acc : Z) (p : list Z) : Z :=
  foldl (fun acc c => Z.lxor (gfMul acc x) c) acc p.

Definition peval (x : Z) (p : list Z) : Z := peval_from x 0 p.

Definition gfpow (x : Z) (n : nat) : Z := Nat.iter n (fun y => gfMul y x) 1.

Section polynomials.
Context (x : Z) (Hx : is_byte x).

Lemma gfpow_byte n : is_byte (gfpow x n).
Proof. unfold gfpow. induction n; simpl; auto with go. Qed.
Hint Resolve gfpow_byte : go.

Lemma peval_from_byte p acc : is_byte acc -> Forall is_byte p -> is_byte (peval_from x acc p).
Proof.
  intros Ha Hp. revert acc Ha. induction Hp as [|c p Hc Hp IH]; intros acc Ha; [done|].
  apply IH. auto with go.
Qed.

Lemma peval_byte p : Forall is_byte p -> is_byte (peval x p).
Proof. intros. apply peval_from_byte; auto with go. Qed.
Hint Resolve peval_from_byte peval_byte : go.

Lemma peval_from_split p acc : is_byte acc -> Forall is_byte p ->
  peval_from x acc p = Z.lxor (gfMul acc (gfpow x (length p))) (peval x p).
Proof.
  intros Ha Hp. revert acc Ha. induction Hp as [|c p Hc Hp IH]; intros acc Ha.
  - unfold peval, peval_from, gfpow. simpl. by rewrite gfMul_comm, gfMul_1_l, Z.lxor_0_r.
  - unfold peval. simpl. unfold peval_from in *. simpl. rewrite IH by auto with go.
    rewrite (IH (Z.lxor (gfMul 0 x) c)) by auto with go.
    rewrite gfMul_0_l, Z.lxor_0_l, gfMul_lxor_l by auto with go.
    rewrite !Z.lxor_assoc. f_equal. unfold gfpow. simpl. fold (gfpow x (length p)).
    rewrite gfMul_assoc by auto with go. f_equal. apply gfMul_comm.
Qed.

Lemma peval_app p q : Forall is_byte p -> Forall is_byte q ->
  peval x (p ++ q) = Z.lxor (gfMul (peval x p) (gfpow x (length q))) (peval x q).
Proof.
  intros Hp Hq. unfold peval at 1, peval_from. rewrite foldl_app.
  by apply peval_from_split; auto with go.
Qed.

Lemma peval_cons a p : is_byte a -> Forall is_byte p ->
  peval x (a :: p) = Z.lxor (gfMul a (gfpow x (length p))) (peval x p).
Proof. intros Ha Hp. rewrite <- peval_from_split by done. done. Qed.

Lemma peval_snoc p a : peval x (p ++ [a]) = Z.lxor (gfMul (peval x p) x) a.
Proof. unfold peval, peval_from. by rewrite foldl_app. Qed.

(** Adding a multiple of [q] to [p] adds that multiple of its value. *)
Lemma peval_axpy f p q : is_byte f -> Forall is_byte p -> Forall is_byte q -> length p = length q ->
  peval x (zip_with (fun a c => Z.lxor a (gfMul c f)) p q) = Z.lxor (peval x p) (gfMul (peval x q) f).
Proof.
  intros Hf Hp. revert q. induction Hp as [|a p Ha Hp IH]; intros q Hq Hl;
    destruct Hq as [|c q Hc Hq]; simplify_eq/=; [done|].
  assert (Forall is_byte (zip_with (fun a c => Z.lxor a (gfMul c f)) p q)) as Hz.
  { clear IH Hl. revert q Hq. induction Hp; intros ? []; simpl; constructor; auto with go. }
  rewrite !peval_cons, IH by auto with go.
  rewrite length_zip_with, Nat.min_l, Hl by lia.
  rewrite !gfMul_lxor_l by auto with go. rewrite lxor_swap. f_equal. f_equal.
  rewrite !gfMul_assoc by auto with go. f_equal. apply gfMul_comm.
Qed.

End polynomials.

(** ** The error correction codewords

    A block and its remainder form a polynomial that vanishes wherever the
    generator (with its implicit leading 1) does. *)

Section remainder.
Context (gen : list Z) (x : Z) (Hx : is_byte x) (Hgen : Forall is_byte gen)
  (Hpos : gen <> []) (Hroot : peval x (1 :: gen) = 0).

Hint Resolve gfpow_byte peval_byte : go.

Lemma peval_gen : peval x gen = gfpow x (length gen).
Proof.
  rewrite peval_cons, gfMul_1_l in Hroot by auto with go.
  symmetry. by apply Z.lxor_eq.
Qed.

Lemma rs_step_shape r b : length r = length gen -> Forall is_byte r -> is_byte b ->
  length (rs_step gen r b) = length gen /\ Forall is_byte (rs_step gen r b).
Proof using Hgen Hpos. clear x Hx Hroot.
  intros Hl Hr Hb. destruct r as [|r0 r]; [by destruct gen|]. inversion Hr as [|?? H0 Hr']; subst.
  unfold rs_step. simpl in *. rewrite drop_0. split.
  - rewrite length_zip_with, length_app. simpl. lia.
  - assert (Forall is_byte (r ++ [0])) as Hz by (apply Forall_app; auto with go).
    change (zget (r0 :: r) 0) with r0.
    clear - Hz Hgen H0 Hb. revert gen Hgen. induction Hz as [|c l Hc Hl IH]; intros g Hg; [done|].
    destruct Hg; simpl; constructor; auto with go.
Qed.

Lemma rs_step_eval r b : length r = length gen -> Forall is_byte r -> is_byte b ->
  peval x (rs_step gen r b) =
  Z.lxor (gfMul (peval x r) x) (gfMul b (gfpow x (length gen))).
Proof.
  intros Hl Hr Hb. destruct r as [|r0 r]; [by destruct gen|]. inversion Hr as [|?? H0 Hr']; subst.
  unfold rs_step. simpl drop. rewrite drop_0. change (zget (r0 :: r) 0) with r0.
  rewrite peval_axpy; [|auto with go|auto with go|by apply Forall_app; auto with go|done
    |rewrite length_app; simpl in *; lia].
  rewrite peval_gen, peval_snoc, Z.lxor_0_r, (peval_cons x Hx r0 r) by auto with go.
  simpl in Hl. rewrite <- Hl. simpl gfpow. unfold gfpow at 2 3; simpl; fold (gfpow x (length r)).
  rewrite (gfMul_comm _ (Z.lxor b r0)), !gfMul_lxor_l, gfMul_assoc by auto with go.
  set (u := gfMul (peval x r) x). set (v := gfMul r0 _). set (w := gfMul b _).
  rewrite (Z.lxor_comm v u), Z.lxor_assoc. f_equal.
  apply Z.lxor_comm.
Qed.

Lemma rsRemainder_shape data : Forall is_byte data ->
  length (rsRemainder data gen) = length gen /\ Forall is_byte (rsRemainder data gen).
Proof using Hgen Hpos. clear x Hx Hroot.
  unfold rsRemainder. intros Hd.
  assert (forall r, length r = length gen -> Forall is_byte r ->
    length (foldl (rs_step gen) r data) = length gen /\ Forall is_byte (foldl (rs_step gen) r data)) as H.
  { induction Hd as [|b data Hb Hd IH]; intros r Hl Hr; [done|].
    simpl. destruct (rs_step_shape r b); [done..|]. by apply IH. }
  apply H; [apply length_replicate|by apply Forall_replicate].
Qed.

Lemma rsRemainder_eval data : Forall is_byte data ->
  peval x (rsRemainder data gen) = gfMul (peval x data) (gfpow x (length gen)).
Proof.
  induction data as [|b data IH] using rev_ind; intros Hd.
  - rewrite gfMul_0_l. unfold rsRemainder. simpl. induction (length gen); [done|].
    simpl. rewrite peval_cons, gfMul_0_l, Z.lxor_0_l by (auto with go || by apply Forall_replicate). done.
  - apply Forall_app in Hd as [Hd Hb]. rewrite Forall_singleton in Hb.
    destruct (rsRemainder_shape data Hd) as [Hl Hr].
    unfold rsRemainder. rewrite foldl_app. simpl. fold (rsRemainder data gen).
    rewrite rs_step_eval, IH, peval_snoc, gfMul_lxor_l by auto with go. f_equal.
    rewrite !gfMul_assoc by auto with go. f_equal. apply gfMul_comm.
Qed.

Lemma block_vanishes data : Forall is_byte data -> peval x (data ++ rsRemainder data gen) = 0.
Proof.
  intros Hd. destruct (rsRemainder_shape data Hd) as [Hl Hr].
  rewrite peval_app, rsRemainder_eval, Hl by auto with go. apply Z.lxor_nilpotent.
Qed.

End remainder.

(** ** The generators in use *)

(** The [ecPerBlock] values of [ecBlocks]. *)
Definition ec_lengths : list nat := [10; 16; 18; 22; 24; 26]%nat.

Definition generator_ok (n : nat) : bool :=
  let g := rsGenerator n in
  (length g =? n)%nat && forallb (fun c => bool_decide (is_byte c)) g
  && forallb (fun i => peval (gfpow 2 i) (1 :: g) =? 0) (seq 0 n).

Lemma generators_ok : forallb generator_ok ec_lengths = true.
Proof. vm_compute. reflexivity. Qed.

Lemma generator_facts n : n ∈ ec_lengths ->
  length (rsGenerator n) = n /\ Forall is_byte (rsGenerator n)
  /\ forall i, (i < n)%nat -> peval (gfpow 2 i) (1 :: rsGenerator n) = 0.
Proof.
  intros Hn. pose proof (forallb_in _ _ _ generators_ok Hn) as H.
  unfold generator_ok in H. rewrite !andb_true_iff in H. destruct H as [[H1 H2] H3].
  repeat split.
  - by apply Nat.eqb_eq.
  - apply Forall_forall. intros c Hc. pose proof (forallb_in _ _ _ H2 Hc) as H.
    by apply bool_decide_eq_true in H.
  - intros i Hi. pose proof (forallb_in _ _ i H3 ltac:(apply elem_of_seq; lia)) as H.
    by apply Z.eqb_eq.
Qed.

Lemma rsRemainder_facts n data : n ∈ ec_lengths -> Forall is_byte data ->
  length (rsRemainder data (rsGenerator n)) = n /\ Forall is_byte (rsRemainder data (rsGenerator n)).
Proof.
  intros Hn Hd. destruct (generator_facts n Hn) as (Hl&Hb&_).
  assert (rsGenerator n <> []) as Hne.
  { intros E. rewrite E in Hl. subst n. revert Hn. unfold ec_lengths. set_solver. }
  destruct (rsRemainder_shape (rsGenerator n) Hb Hne data Hd) as [H1 H2]. by rewrite H1.
Qed.

Lemma rs_vanishes n i data : n ∈ ec_lengths -> Forall is_byte data -> (i < n)%nat ->
  peval (gfpow 2 i) (data ++ rsRemainder data (rsGenerator n)) = 0.
Proof.
  intros Hn Hd Hi. destruct (generator_facts n Hn) as (Hgl&Hgb&Hroot).
  apply block_vanishes; auto; [apply gfpow_byte; done|].
  intros E. rewrite E in Hgl. simpl in Hgl. lia.
Qed.

(** The Reed-Solomon codewords are right: for every error correction
    length a symbol uses, a block of data bytes followed by its remainder has
    that many codewords, all bytes, and is a polynomial over GF(256) that
    vanishes at each of the consecutive powers of the primitive element up to
    that length, which is what makes it a codeword of the Reed-Solomon code. *)
Theorem rs_block_is_codeword (n i : nat) (data : list Z) :
  n ∈ ec_lengths -> Forall is_byte data -> (i < n)%nat ->
  let ec := rsRemainder data (rsGenerator n) in
  length ec = n /\ Forall is_byte ec /\ peval (gfpow 2 i) (data ++ ec) = 0.
Proof.
  intros Hn Hd Hi ec. destruct (rsRemainder_facts n data Hn Hd) as [Hl Hb].
  split; [done|]. split; [done|]. by apply rs_vanishes.
Qed.

Lemma rs_block_is_codeword_witness :
  let data := [32; 91; 11; 120; 209; 114; 220; 77; 67; 64; 236; 17; 236; 17; 236; 17] in
  let ec := rsRemainder data (rsGenerator 10) in
  ec = [196; 35; 39; 119; 235; 215; 231; 226; 93; 23]
  /\ length ec = 10%nat /\ Forall is_byte ec /\ peval (gfpow 2 9) (data ++ ec) = 0.
Proof.
  split; [vm_compute; reflexivity|]. apply (rs_block_is_codeword 10 9).
  - vm_compute. left.
  - repeat constructor; done.
  - lia.
Defined.
