(* ===== verification/QrBits.v ===== *)
(** The bit stream and the codeword layout of the QR encoder
    (src/server/internal/qr/qr.go: the level-M tables, [bitBuf], [encodeBytes],
    [interleave]), with the readings a scanner makes of them: the bits of a run
    of codewords, the blocks of an interleaved run, the payload of a segment. *)

From S2P Require Import Prelude QrField.
Open Scope Z_scope.

(** ** The tables for level M, versions 1-10; index 0 is unused *)

Definition MaxBytes : nat := 213.

(** (ecPerBlock, blocks) *)
Definition ecBlocks : list (nat * nat) :=
  [(0, 0); (10, 1); (16, 1); (26, 1); (18, 2); (24, 2); (16, 4); (18, 4); (22, 4); (22, 5); (26, 5)]%nat.

Definition byteCapacity : list nat := [0; 14; 26; 42; 62; 84; 106; 122; 152; 180; 213]%nat.

Definition ecPerBlock (version : nat) : nat := fst (nth version ecBlocks (0, 0)%nat).
Definition numBlocks (version : nat) : nat := snd (nth version ecBlocks (0, 0)%nat).

(** ** The bit stream *)

(** The bits of [val], [n] of them, most significant first. *)
Definition bits_of (n : nat) (val : Z) : list bool :=
  map (fun i => Z.testbit val (Z.of_nat (n - 1 - i))) (seq 0 n).

Definition append (b : list bool) (val : Z) (n : nat) : list bool := b ++ bits_of n val.

(** The pad codewords, while the stream is short of the capacity; [None] is
    fuel that ran out. *)
Fixpoint pad_loop (fuel capBits : nat) (pad : Z) (b : list bool) : option (list bool) :=
  match fuel with
  | O => None
  | S fuel' =>
      if decide (length b < capBits)%nat
      then pad_loop fuel' capBits (Z.lxor pad (Z.lxor 236 17)) (append b pad 8)
      else Some b
  end.

(** [out[i/8] |= 0x80 >> (i%8)] for every set bit, from bit [i] on. *)
Fixpoint pack_loop (bits : list bool) (i : Z) (out : list Z) : option (list Z) :=
  match bits with
  | [] => Some out
  | bit :: bits' =>
      out' ← (if bit : bool
              then o ← go_index out (i `div` 8);
                   go_store out (i `div` 8) (Z.lor o (Z.shiftr 128 (i mod 8)))
              else Some out);
      pack_loop bits' (i + 1) out'
  end.

(** [None] is the panic on a segment over capacity. *)
Definition encodeBytes (version : nat) (data : list Z) (dataCodewords : nat) : option (list Z) :=
  let b := append [] 4 4 in
  let b := append b (zlen data) (if decide (version <= 9)%nat then 8%nat else 16%nat) in
  let b := foldl (fun b c => append b c 8) b data in
  let capBits := (dataCodewords * 8)%nat in
  if decide (capBits < length b)%nat then None else
  let term := if decide (capBits - length b < 4)%nat then (capBits - length b)%nat else 4%nat in
  let b := append b 0 term in
  let pad := ((8 - length b mod 8) mod 8)%nat in
  let b := if decide (0 < pad)%nat then append b 0 pad else b in
  b ← pad_loop (S dataCodewords) capBits 236 b;
  pack_loop b 0 (replicate dataCodewords 0).

(** ** Blocks and interleaving *)

Section weaving.
Context {A : Type}.

(** [data[k : k+n]] for each of the blocks from [i] on. *)
Fixpoint split_blocks (todo i numShort shortData : nat) (k : Z) (data : list A)
    : option (list (list A) * Z) :=
  match todo with
  | O => Some ([], k)
  | S todo' =>
      let n := if decide (numShort <= i)%nat then S shortData else shortData in
      blk ← go_slice data k (k + Z.of_nat n);
      r ← split_blocks todo' (S i) numShort shortData (k + Z.of_nat n) data;
      Some (blk :: fst r, snd r)
  end.

(** Column by column: a block that is too short is skipped among the data
    codewords; among the error correction codewords it would be a fault. *)
Definition weave (shortData ecLen : nat) (blocks ecs : list (list A)) : option (list A) :=
  e ← mapM (fun col => mapM (fun ec => ec !! col) ecs) (seq 0 ecLen);
  Some (concat (map (fun col => omap (fun blk => blk !! col) blocks) (seq 0 (S shortData)))
        ++ concat e).
End weaving.

Definition interleave (version total : nat) (data : list Z) : option (list Z) :=
  let ecLen := ecPerBlock version in
  let shortLen := (total / numBlocks version)%nat in
  let numShort := (numBlocks version - total mod numBlocks version)%nat in
  let shortData := (shortLen - ecLen)%nat in
  let gen := rsGenerator ecLen in
  r ← split_blocks (numBlocks version) 0 numShort shortData 0 data;
  if decide (snd r <> zlen data) then None
  else weave shortData ecLen (fst r) (map (fun blk => rsRemainder blk gen) (fst r)).

(** ** Reading bits back *)

Definition val_from (acc : Z) (bits : list bool) : Z :=
  foldl (fun a (b : bool) => 2 * a + (if b then 1 else 0)) acc bits.

Definition val_of (bits : list bool) : Z := val_from 0 bits.

Definition bits8 : list Z -> list bool := fun l => concat (map (bits_of 8) l).

(** The groups of eight bits of a stream whose length is a multiple of 8. *)
Fixpoint bytes_of (n : nat) (bits : list bool) : list Z :=
  match n with
  | O => []
  | S n' => val_of (take 8 bits) :: bytes_of n' (drop 8 bits)
  end.

Lemma length_bits_of n z : length (bits_of n z) = n.
Proof. unfold bits_of. by rewrite length_map, length_seq. Qed.

Lemma bits_of_S n z : bits_of (S n) z = Z.testbit z (Z.of_nat n) :: bits_of n z.
Proof.
  unfold bits_of. simpl. f_equal; [f_equal; lia|].
  rewrite <- seq_shift, map_map. apply map_ext_in. intros i Hi. f_equal. lia.
Qed.

Lemma val_from_bits_of n z acc : val_from acc (bits_of n z) = acc * 2 ^ Z.of_nat n + z mod 2 ^ Z.of_nat n.
Proof.
  revert acc. induction n as [|n IH]; intros acc.
  - simpl. rewrite Z.mod_1_r. lia.
  - rewrite bits_of_S. unfold val_from in *. cbn [foldl]. rewrite IH.
    pose proof (Z.pow_pos_nonneg 2 (Z.of_nat n) ltac:(lia) ltac:(lia)).
    rewrite Nat2Z.inj_succ, Z.pow_succ_r by lia.
    rewrite (Z.mul_comm 2 (2 ^ _)), Z.rem_mul_r by lia.
    rewrite <- Z.testbit_spec' by lia. destruct (Z.testbit z _); simpl Z.b2z; lia.
Qed.

Lemma val_of_bits_of n z : 0 <= z < 2 ^ Z.of_nat n -> val_of (bits_of n z) = z.
Proof. intros. unfold val_of. rewrite val_from_bits_of, Z.mod_small by done. lia. Qed.

Lemma val_of_bits8 z : is_byte z -> val_of (bits_of 8 z) = z.
Proof. intros. by apply val_of_bits_of. Qed.

Lemma length_bits8 l : length (bits8 l) = (8 * length l)%nat.
Proof.
  unfold bits8. induction l as [|z l IH]; [done|].
  cbn [map concat]. rewrite length_app, length_bits_of, IH. simpl. lia.
Qed.

Lemma bytes_of_bits8 l tail : Forall is_byte l -> bytes_of (length l) (bits8 l ++ tail) = l.
Proof.
  unfold bits8. induction 1 as [|z l Hz Hl IH]; [done|].
  cbn [map concat length bytes_of]. rewrite <- app_assoc.
  rewrite take_app_length', drop_app_length', val_of_bits8, IH by (done || apply length_bits_of). done.
Qed.

Lemma foldl_append b l : foldl (fun b c => append b c 8) b l = b ++ bits8 l.
Proof.
  revert b. induction l as [|c l IH]; intros b; simpl; [by rewrite app_nil_r|].
  rewrite IH. unfold append, bits8. simpl. by rewrite <- app_assoc.
Qed.

(** ** Packing *)

Lemma pack_one (bit : bool) bits (pre : list Z) x post k j : k = zlen pre -> 0 <= j < 8 ->
  pack_loop (bit :: bits) (8 * k + j) (pre ++ x :: post) =
  pack_loop bits (8 * k + (j + 1)) (pre ++ (if bit then Z.lor x (Z.shiftr 128 j) else x) :: post).
Proof.
  intros -> Hj. cbn [pack_loop].
  assert ((8 * zlen pre + j) `div` 8 = zlen pre) as -> by (rewrite Z.mul_comm, Z.div_add_l, Z.div_small by lia; lia).
  assert ((8 * zlen pre + j) mod 8 = j) as -> by (rewrite Z.add_comm, Z.mul_comm, Z_mod_plus_full, Z.mod_small by lia; lia).
  destruct bit; simpl; [|f_equal; lia].
  rewrite go_index_middle. simpl. rewrite go_store_middle. simpl. f_equal. lia.
Qed.

Lemma pack_chunk (b0 b1 b2 b3 b4 b5 b6 b7 : bool) bits (pre : list Z) post :
  pack_loop (b0 :: b1 :: b2 :: b3 :: b4 :: b5 :: b6 :: b7 :: bits) (8 * zlen pre) (pre ++ 0 :: post) =
  pack_loop bits (8 * (zlen pre + 1)) (pre ++ val_of [b0; b1; b2; b3; b4; b5; b6; b7] :: post).
Proof.
  rewrite <- (Z.add_0_r (8 * zlen pre)). do 8 (rewrite pack_one by (done || lia); simpl Z.add).
  f_equal; [lia|]. f_equal. f_equal.
  by destruct b0, b1, b2, b3, b4, b5, b6, b7.
Qed.

Lemma bits_of_val (b0 b1 b2 b3 b4 b5 b6 b7 : bool) :
  let l := [b0; b1; b2; b3; b4; b5; b6; b7] in is_byte (val_of l) /\ bits_of 8 (val_of l) = l.
Proof. by destruct b0, b1, b2, b3, b4, b5, b6, b7. Qed.

Lemma pack_loop_spec n : forall (pre : list Z) bits, length bits = (8 * n)%nat ->
  exists out, pack_loop bits (8 * zlen pre) (pre ++ replicate n 0) = Some (pre ++ out)
    /\ length out = n /\ Forall is_byte out /\ bits8 out = bits.
Proof.
  induction n as [|n IH]; intros pre bits Hl.
  - exists []. destruct bits; [|done]. simpl. auto.
  - do 8 (destruct bits as [|? bits]; [simpl in Hl; lia|]).
    match goal with |- context [?b0 :: ?b1 :: ?b2 :: ?b3 :: ?b4 :: ?b5 :: ?b6 :: ?b7 :: bits] =>
      destruct (bits_of_val b0 b1 b2 b3 b4 b5 b6 b7) as [Hv Hb];
      set (v := val_of [b0; b1; b2; b3; b4; b5; b6; b7]) in * end.
    destruct (IH (pre ++ [v]) bits) as (out&E&Hlen&Hby&Hbits); [simpl in Hl; lia|].
    exists (v :: out). cbn [replicate]. rewrite pack_chunk. fold v.
    assert (zlen (pre ++ [v]) = zlen pre + 1) as E1 by (unfold zlen; rewrite length_app; simpl; lia).
    rewrite E1, <- !app_assoc in E. simpl in E. rewrite E.
    repeat split; [simpl; lia|by constructor|].
    unfold bits8 in *. cbn [map concat]. by rewrite Hb, Hbits.
Qed.

Lemma pad_loop_spec fuel cap : forall pad b j, (length b + 8 * j)%nat = cap -> (j < fuel)%nat ->
  exists tail, pad_loop fuel cap pad b = Some (b ++ tail) /\ length (b ++ tail) = cap.
Proof.
  induction fuel as [|fuel IH]; intros pad b j Hb Hj; [lia|]. simpl.
  destruct (decide (length b < cap)%nat) as [Hlt|Hge].
  - destruct (IH (Z.lxor pad 253) (append b pad 8) (j - 1)%nat) as (tail&E&Hl); [|lia|].
    + unfold append. rewrite length_app, length_bits_of. lia.
    + exists (bits_of 8 pad ++ tail). unfold append in *. rewrite <- app_assoc in *. auto.
  - exists []. rewrite app_nil_r. split; [done|lia].
Qed.

(** The width of the character count. *)
Definition count_bits (version : nat) : nat := if decide (version <= 9)%nat then 8%nat else 16%nat.

(** The payload of a byte-mode segment. *)
Definition read_segment (version : nat) (bits : list bool) : option (list Z) :=
  if decide (take 4 bits = [false; true; false; false]) then
    let n := Z.to_nat (val_of (take (count_bits version) (drop 4 bits))) in
    let body := drop (4 + count_bits version) bits in
    if decide (8 * n <= length body)%nat then Some (bytes_of n body) else None
  else None.

Lemma read_segment_ok version data tail : zlen data < 2 ^ Z.of_nat (count_bits version) ->
  Forall is_byte data ->
  read_segment version
    (bits_of 4 4 ++ bits_of (count_bits version) (zlen data) ++ bits8 data ++ tail) = Some data.
Proof.
  intros Hn Hd. unfold read_segment.
  rewrite <- drop_drop, take_app_length', drop_app_length' by done.
  rewrite decide_True by done.
  rewrite take_app_length', drop_app_length' by (by rewrite length_bits_of).
  rewrite val_of_bits_of by (unfold zlen in *; lia). unfold zlen. rewrite Nat2Z.id.
  rewrite decide_True by (rewrite length_app, length_bits8; lia).
  by rewrite bytes_of_bits8.
Qed.

Lemma encodeBytes_spec version data D : Forall is_byte data ->
  (4 + count_bits version + 8 * length data <= 8 * D)%nat ->
  exists out tail, encodeBytes version data D = Some out /\ length out = D /\ Forall is_byte out
    /\ bits8 out = bits_of 4 4 ++ bits_of (count_bits version) (zlen data) ++ bits8 data ++ tail.
Proof.
  intros Hd Hcap. unfold encodeBytes. fold (count_bits version). cbv zeta.
  rewrite foldl_append.
  change (append (append [] 4 4) (zlen data) (count_bits version))
    with (bits_of 4 4 ++ bits_of (count_bits version) (zlen data)).
  set (seg := (bits_of 4 4 ++ bits_of (count_bits version) (zlen data)) ++ bits8 data).
  assert (length seg = 4 + count_bits version + 8 * length data)%nat as Hseg.
  { unfold seg. by rewrite !length_app, !length_bits_of, length_bits8. }
  rewrite decide_False by lia.
  set (term := if decide (D * 8 - length seg < 4)%nat then (D * 8 - length seg)%nat else 4%nat).
  assert (term <= 4 /\ (length seg + term <= 8 * D))%nat as [_ Ht]
    by (unfold term; case_decide; lia).
  set (b := append seg 0 term).
  assert (length b = length seg + term)%nat as Hb
    by (unfold b, append; by rewrite length_app, length_bits_of).
  set (b' := if decide (0 < (8 - length b mod 8) mod 8)%nat then _ else b).
  assert (exists t, b' = seg ++ t) as [t Et].
  { unfold b', b, append. case_decide; eexists; [by rewrite <- app_assoc|done]. }
  assert (exists j, (length b' + 8 * j = D * 8)%nat) as [j Hj].
  { exists (D - length b' / 8)%nat.
    assert (length b' mod 8 = 0 /\ length b' <= 8 * D)%nat as [Hm Hle].
    { unfold b'. pose proof (Nat.div_mod_eq (length b) 8) as E8.
      pose proof (Nat.mod_upper_bound (length b) 8 ltac:(lia)) as Hu.
      set (q := (length b / 8)%nat) in *. set (r := (length b mod 8)%nat) in *.
      destruct (decide (r = 0)%nat) as [E0|Hr].
      - rewrite E0. change ((8 - 0) mod 8)%nat with 0%nat. rewrite decide_False by lia.
        split; [done|lia].
      - rewrite (Nat.mod_small (8 - r)) by lia. rewrite decide_True by lia.
        unfold append. rewrite length_app, length_bits_of.
        replace (length b + (8 - r))%nat with (0 + (q + 1) * 8)%nat by lia.
        rewrite Nat.Div0.mod_add. split; [done|lia]. }
    pose proof (Nat.div_mod_eq (length b') 8). lia. }
  destruct (pad_loop_spec (S D) (D * 8) 236 b' j) as (tail&Ep&Hlp); [lia|lia|].
  rewrite Ep. simpl.
  destruct (pack_loop_spec D [] (b' ++ tail)) as (out&Eo&Hlo&Hbo&Ebo); [lia|].
  exists out, (t ++ tail). rewrite Ebo, Et. unfold zlen in Eo. simpl in Eo. rewrite Et in Eo.
  repeat split; [done..|]. unfold seg. by rewrite !app_assoc.
Qed.

(** ** What a scanner reads from an interleaved run

    The block structure and the position of each codeword as the standard
    gives them: codeword [c] of block [b] is in column [c]; only the long
    blocks, which are the last ones, have the last column. *)

(** ISO/IEC 18004 Table 9, level M: the data codewords of each block. *)
Definition block_lens (version : nat) : list nat :=
  nth version ([[]; [16]; [28]; [44]; [32; 32]; [43; 43]; [27; 27; 27; 27]; [31; 31; 31; 31];
    [38; 38; 39; 39]; [36; 36; 36; 37; 37]; [43; 43; 43; 43; 44]])%nat [].

(** ISO/IEC 18004 Table 1: the codewords of a symbol. *)
Definition total_codewords (version : nat) : nat :=
  nth version [0; 26; 44; 70; 100; 134; 172; 196; 242; 292; 346]%nat 0%nat.

Definition data_codewords (version : nat) : nat := sum_list (block_lens version).

Definition data_pos (version b c : nat) : nat :=
  let nb := length (block_lens version) in
  let short := hd 0%nat (block_lens version) in
  if decide (c < short)%nat then (c * nb + b)%nat
  else (short * nb + (b - length (filter (fun l => l = short) (block_lens version))))%nat.

Definition ec_pos (version b c : nat) : nat :=
  (data_codewords version + c * length (block_lens version) + b)%nat.

Definition scan_data {A} (d : A) (version : nat) (cws : list A) (b : nat) : list A :=
  map (fun c => nth (data_pos version b c) cws d) (seq 0 (nth b (block_lens version) 0%nat)).

Definition scan_ec {A} (d : A) (version : nat) (cws : list A) (b : nat) : list A :=
  map (fun c => nth (ec_pos version b c) cws d) (seq 0 (ecPerBlock version)).

(** Every syndrome of the block is zero. *)
Definition block_clean (n : nat) (block : list Z) : bool :=
  forallb (fun i => peval (gfpow 2 i) block =? 0) (seq 0 n).

(** The data codewords of a run, unless a block has an error. *)
Definition scan_codewords (version : nat) (cws : list Z) : option (list Z) :=
  let bs := seq 0 (length (block_lens version)) in
  if forallb (fun b => block_clean (ecPerBlock version)
       (scan_data 0 version cws b ++ scan_ec 0 version cws b)) bs
  then Some (concat (map (scan_data 0 version cws) bs)) else None.

(** *** The layout moves codewords without looking at them *)

Section naturality.
Context {A B : Type} (f : A -> B).

Lemma go_slice_map l a b : go_slice (map f l) a b = option_map (map f) (go_slice l a b).
Proof.
  unfold go_slice, zlen. rewrite length_map. case_decide; [|done].
  simpl. by rewrite skipn_map, firstn_map.
Qed.

Lemma split_blocks_map todo i ns sd k l :
  split_blocks todo i ns sd k (map f l) =
  option_map (fun r => (map (map f) (fst r), snd r)) (split_blocks todo i ns sd k l).
Proof.
  revert i k. induction todo as [|todo IH]; intros i k; [done|]. cbn [split_blocks].
  rewrite go_slice_map. destruct (go_slice l _ _); simpl; [|done].
  rewrite IH. by destruct (split_blocks _ _ _ _ _ _) as [[]|].
Qed.

Lemma lookup_map l col : map f l !! col = option_map f (l !! col).
Proof. revert col. induction l as [|a l IH]; intros [|col]; simpl; auto. Qed.

Lemma mapM_natural {C} (g : C -> option A) (h : C -> option B) l :
  (forall c, h c = option_map f (g c)) -> mapM h l = option_map (map f) (mapM g l).
Proof.
  intros H. induction l as [|c l IH]; [done|]. simpl. rewrite H, IH.
  destruct (g c); simpl; [|done]. by destruct (mapM g l).
Qed.

Lemma mapM_lookup_map (ecs : list (list A)) col :
  mapM (fun ec => ec !! col) (map (map f) ecs) = option_map (map f) (mapM (fun ec => ec !! col) ecs).
Proof.
  induction ecs as [|ec ecs IH]; [done|]. simpl. rewrite lookup_map, IH.
  destruct (ec !! col); simpl; [|done]. by destruct (mapM _ ecs).
Qed.

Lemma omap_lookup_map (blks : list (list A)) col :
  omap (fun blk => blk !! col) (map (map f) blks) = map f (omap (fun blk => blk !! col) blks).
Proof.
  induction blks as [|blk blks IH]; [done|]. cbn. rewrite lookup_map, IH.
  by destruct (blk !! col).
Qed.

Lemma scan_data_map d v cws b : scan_data (f d) v (map f cws) b = map f (scan_data d v cws b).
Proof. unfold scan_data. rewrite map_map. apply map_ext. intros. apply map_nth. Qed.

Lemma scan_ec_map d v cws b : scan_ec (f d) v (map f cws) b = map f (scan_ec d v cws b).
Proof. unfold scan_ec. rewrite map_map. apply map_ext. intros. apply map_nth. Qed.
End naturality.

Lemma weave_map {A B} (f : A -> B) sd ecLen (blocks ecs : list (list A)) :
  weave sd ecLen (map (map f) blocks) (map (map f) ecs) = option_map (map f) (weave sd ecLen blocks ecs).
Proof.
  unfold weave. rewrite (mapM_natural (map f) (fun col => mapM (fun ec => ec !! col) ecs))
    by (intros; apply mapM_lookup_map).
  destruct (mapM _ (seq 0 ecLen)); cbn [option_map mbind option_bind]; [|done]. f_equal.
  rewrite map_app, !concat_map, map_map. apply (f_equal (fun x => concat x ++ _)).
  apply map_ext. intros. apply omap_lookup_map.
Qed.

Lemma nth_map_seq {A} (g : nat -> A) s n i d : (i < n)%nat -> nth i (map g (seq s n)) d = g (s + i)%nat.
Proof.
  intros Hi. rewrite (nth_indep _ d (g 0%nat)) by (by rewrite length_map, length_seq).
  by rewrite map_nth, seq_nth.
Qed.

(** A list read by position, whole and in equal-length chunks. *)
Lemma list_by_index {A} (d : A) (l pre post : list A) :
  l = map (fun i => nth i (pre ++ l ++ post) d) (seq (length pre) (length l)).
Proof.
  apply (nth_ext _ _ d d); [by rewrite length_map, length_seq|].
  intros i Hi. by rewrite nth_map_seq, app_nth2_plus, app_nth1.
Qed.

Lemma chunks_by_index {A} (d : A) n (ls : list (list A)) : forall pre,
  Forall (fun l => length l = n) ls ->
  ls = map (fun j => map (fun i => nth i (pre ++ concat ls) d) (seq (length pre + j * n) n))
           (seq 0 (length ls)).
Proof.
  induction ls as [|l ls IH]; intros pre Hl; [done|].
  inversion Hl as [|?? Hn Hl']; subst. cbn [length seq map concat]. f_equal.
  - rewrite Nat.add_0_r. apply list_by_index.
  - rewrite <- seq_shift, map_map. rewrite (IH (pre ++ l) Hl') at 1.
    apply map_ext. intros j. rewrite length_app, <- app_assoc. f_equal. f_equal. simpl. lia.
Qed.

(** The layout on indices, and the two readings of it. *)
Definition index_layout (version : nat) : option (list (list nat) * list (list nat) * list nat) :=
  let ecLen := ecPerBlock version in
  let total := total_codewords version in
  let D := data_codewords version in
  let shortLen := (total / numBlocks version)%nat in
  let numShort := (numBlocks version - total mod numBlocks version)%nat in
  let ie := map (fun j => seq (D + j * ecLen) ecLen) (seq 0 (numBlocks version)) in
  r ← split_blocks (numBlocks version) 0 numShort (shortLen - ecLen) 0 (seq 0 D);
  if decide (snd r <> Z.of_nat D) then None else
  idx ← weave (shortLen - ecLen) ecLen (fst r) ie;
  Some (fst r, ie, idx).

Definition layout_ok (version : nat) : bool :=
  let bs := seq 0 (length (block_lens version)) in
  let total := total_codewords version in
  match index_layout version with
  | Some (ib, ie, idx) =>
      bool_decide (map (scan_data total version idx) bs = ib)
      && bool_decide (map (scan_ec total version idx) bs = ie)
      && bool_decide (concat ib = seq 0 (data_codewords version))
      && bool_decide (length idx = total) && bool_decide (length ib = length ie)
      && bool_decide (ecPerBlock version ∈ ec_lengths)
      && bool_decide (numBlocks version = length (block_lens version))
      && bool_decide (data_codewords version + ecPerBlock version * numBlocks version = total)%nat
  | None => false
  end.

Definition versions : list nat := seq 1 10.

Lemma layouts_ok : forallb layout_ok versions = true.
Proof. vm_compute. reflexivity. Qed.

Lemma in_versions v : v ∈ versions <-> (1 <= v <= 10)%nat.
Proof. unfold versions. rewrite elem_of_seq. lia. Qed.

(** *** The interleaved run reads back *)

Lemma layout_facts v : v ∈ versions ->
  exists ib ie idx,
    let bs := seq 0 (length (block_lens v)) in
    index_layout v = Some (ib, ie, idx)
    /\ map (scan_data (total_codewords v) v idx) bs = ib
    /\ map (scan_ec (total_codewords v) v idx) bs = ie
    /\ concat ib = seq 0 (data_codewords v) /\ length idx = total_codewords v
    /\ length ib = length ie /\ ecPerBlock v ∈ ec_lengths /\ numBlocks v = length (block_lens v)
    /\ (data_codewords v + ecPerBlock v * numBlocks v)%nat = total_codewords v.
Proof.
  intros Hv. pose proof (forallb_in _ _ _ layouts_ok Hv) as H. unfold layout_ok in H.
  destruct (index_layout v) as [[[ib ie] idx]|]; [|done].
  rewrite !andb_true_iff, !bool_decide_eq_true in H. exists ib, ie, idx. naive_solver.
Qed.

Lemma index_layout_facts v ib ie idx : index_layout v = Some (ib, ie, idx) ->
  let sd := (total_codewords v / numBlocks v - ecPerBlock v)%nat in
  let ns := (numBlocks v - total_codewords v mod numBlocks v)%nat in
  split_blocks (numBlocks v) 0 ns sd 0 (seq 0 (data_codewords v)) = Some (ib, Z.of_nat (data_codewords v))
  /\ ie = map (fun j => seq (data_codewords v + j * ecPerBlock v) (ecPerBlock v)) (seq 0 (numBlocks v))
  /\ weave sd (ecPerBlock v) ib ie = Some idx.
Proof.
  unfold index_layout. intros H. cbv zeta in *.
  destruct (split_blocks (numBlocks v) _ _ _ _ _) as [[ib' k]|]; cbn [mbind option_bind fst snd] in H; [|done].
  destruct (decide (k <> _)) as [|Hk]; [done|]. apply dec_stable in Hk.
  destruct (weave _ _ _ _) eqn:Ew; [|done]. cbn [mbind option_bind] in H. by simplify_eq.
Qed.

Lemma Forall_nth_byte l i : Forall is_byte l -> is_byte (nth i l 0).
Proof.
  intros Hl. revert i. induction Hl as [|x l Hx Hl IH]; intros [|i]; simpl; auto with go.
Qed.

Lemma block_clean_ok n blk : n ∈ ec_lengths -> Forall is_byte blk ->
  block_clean n (blk ++ rsRemainder blk (rsGenerator n)) = true.
Proof.
  intros Hn Hb. apply forallb_forall. intros i Hi%in_seq. apply Z.eqb_eq.
  apply rs_vanishes; [done|done|lia].
Qed.

Lemma Forall_concat_elem {A} (P : A -> Prop) (ls : list (list A)) :
  Forall P (concat ls) <-> Forall (Forall P) ls.
Proof.
  induction ls as [|l ls IH]; simpl; [split; constructor|].
  rewrite Forall_app, Forall_cons, IH. done.
Qed.

Lemma length_concat_uniform {A} n (ls : list (list A)) :
  Forall (fun l => length l = n) ls -> length (concat ls) = (n * length ls)%nat.
Proof. induction 1 as [|l ls Hl Hls IH]; simpl; [lia|]. rewrite length_app. lia. Qed.

(** Where a run's data blocks are byte blocks and its error correction blocks
    their remainders, the scanner reads their concatenation. *)
Lemma scan_codewords_ok v out blocks : ecPerBlock v ∈ ec_lengths ->
  Forall (Forall is_byte) blocks ->
  map (scan_data 0 v out) (seq 0 (length (block_lens v))) = blocks ->
  map (scan_ec 0 v out) (seq 0 (length (block_lens v))) =
    map (fun blk => rsRemainder blk (rsGenerator (ecPerBlock v))) blocks ->
  scan_codewords v out = Some (concat blocks).
Proof.
  intros Hec Hb Hd He. unfold scan_codewords. rewrite Hd.
  match goal with |- context [forallb ?f ?l] => assert (forallb f l = true) as -> end; [|done].
  rewrite <- Hd, map_map in He. rewrite <- Hd, Forall_map in Hb.
  apply forallb_forall. intros b Hin.
  assert (scan_ec 0 v out b = rsRemainder (scan_data 0 v out b) (rsGenerator (ecPerBlock v))) as ->.
  { revert b Hin. by apply map_ext_in_iff. }
  apply block_clean_ok; [done|].
  rewrite Forall_forall in Hb. apply (Hb b). by apply list_elem_of_In.
Qed.

Section interleaving.
Context (v : nat) (Hv : v ∈ versions) (data : list Z) (Hd : Forall is_byte data)
  (Hlen : length data = data_codewords v).

Let pick (all : list Z) (i : nat) : Z := nth i all 0.
Let sd := (total_codewords v / numBlocks v - ecPerBlock v)%nat.
Let ns := (numBlocks v - total_codewords v mod numBlocks v)%nat.
Let rem (blk : list Z) : list Z := rsRemainder blk (rsGenerator (ecPerBlock v)).

Lemma split_data ib post :
  split_blocks (numBlocks v) 0 ns sd 0 (seq 0 (data_codewords v)) = Some (ib, Z.of_nat (data_codewords v)) ->
  split_blocks (numBlocks v) 0 ns sd 0 data = Some (map (map (pick (data ++ post))) ib, zlen data).
Proof using Hlen.
  intros Hs.
  assert (data = map (pick (data ++ post)) (seq 0 (data_codewords v))) as E.
  { rewrite <- Hlen. apply (list_by_index 0 data [] post). }
  rewrite E at 1. rewrite split_blocks_map, Hs. simpl. unfold zlen. by rewrite Hlen.
Qed.

(** The blocks, their remainders, and all of it read by index. *)
Lemma data_layout ib ie idx : index_layout v = Some (ib, ie, idx) -> length ib = length ie ->
  concat ib = seq 0 (data_codewords v) -> ecPerBlock v ∈ ec_lengths ->
  exists all,
    let blocks := map (map (pick all)) ib in
    split_blocks (numBlocks v) 0 ns sd 0 data = Some (blocks, zlen data)
    /\ map rem blocks = map (map (pick all)) ie /\ concat blocks = data
    /\ Forall (Forall is_byte) blocks /\ Forall is_byte all
    /\ length all = (data_codewords v + ecPerBlock v * numBlocks v)%nat.
Proof using Hd Hlen.
  intros Hix Hleq Hcat Hec. destruct (index_layout_facts _ _ _ _ Hix) as (Hsplit&Eie&_).
  set (blocks := map (map (pick (data ++ []))) ib). set (ecs := map rem blocks).
  assert (forall post, blocks = map (map (pick (data ++ post))) ib) as Eblocks.
  { intros post. pose proof (split_data ib [] Hsplit) as H1.
    rewrite (split_data ib post Hsplit) in H1. unfold blocks. by simplify_eq. }
  assert (concat blocks = data) as Hcb.
  { unfold blocks. rewrite <- concat_map, Hcat, <- Hlen. symmetry. apply (list_by_index 0 data [] []). }
  assert (Forall (Forall is_byte) blocks) as Hbb by (rewrite <- Forall_concat_elem; by rewrite Hcb).
  assert (Forall (fun l => length l = ecPerBlock v) ecs /\ Forall (Forall is_byte) ecs) as [Hel Heb].
  { unfold ecs. rewrite !Forall_map. split; (eapply Forall_impl; [exact Hbb|]);
      intros blk Hblk; by apply rsRemainder_facts. }
  assert (length ecs = numBlocks v) as Hnecs.
  { unfold ecs, blocks. by rewrite !length_map, Hleq, Eie, length_map, length_seq. }
  exists (data ++ concat ecs). cbv zeta. rewrite <- Eblocks. fold ecs. repeat split.
  - rewrite (split_data ib [] Hsplit). done.
  - rewrite Eie, map_map. rewrite (chunks_by_index 0 _ ecs data Hel) at 1. by rewrite Hlen, Hnecs.
  - done.
  - done.
  - by rewrite Forall_app, Forall_concat_elem.
  - by rewrite length_app, Hlen, (length_concat_uniform _ _ Hel), Hnecs.
Qed.

Lemma interleave_spec : exists out, interleave v (total_codewords v) data = Some out
  /\ length out = total_codewords v /\ Forall is_byte out /\ scan_codewords v out = Some data.
Proof.
  destruct (layout_facts v Hv) as (ib&ie&idx&Hix&Hsd&Hse&Hcat&Hli&Hleq&Hec&Hnb&Htot).
  destruct (index_layout_facts _ _ _ _ Hix) as (_&_&Hweave).
  destruct (data_layout ib ie idx) as (all&Hsplit&Erem&Hcb&Hbb&Hab&Hla); [done..|].
  set (blocks := map (map (pick all)) ib) in *. rewrite Htot in Hla.
  assert (pick all (total_codewords v) = 0) as E0 by (apply nth_overflow; lia).
  exists (map (pick all) idx). split; [|split; [by rewrite length_map|split]].
  - unfold interleave. fold sd ns. rewrite Hsplit. cbn [mbind option_bind fst snd].
    rewrite decide_False by auto. change (weave sd (ecPerBlock v) blocks (map rem blocks) = Some (map (pick all) idx)). rewrite Erem.
    unfold blocks. rewrite weave_map. fold sd in Hweave. by rewrite Hweave.
  - rewrite Forall_map. apply Forall_true. intros i. by apply Forall_nth_byte.
  - rewrite <- Hcb. apply scan_codewords_ok; [done|done| |].
    + unfold blocks. rewrite <- Hsd, map_map. apply map_ext. intros b.
      by rewrite <- scan_data_map, E0.
    + unfold rem in Erem. rewrite Erem, <- Hse, map_map. apply map_ext. intros b.
      by rewrite <- scan_ec_map, E0.
Qed.
End interleaving.
