(* ===== verification/QrGrid.v ===== *)
(** The symbol of the QR encoder (src/server/internal/qr/qr.go: the grid, its
    function patterns, format and version information, codeword placement,
    masks, penalty and [Encode] itself).

    A grid is [size] rows of [size] modules; [modules] and [function] are
    written through [setFunction], [placeCodewords] and [applyMask] only, at
    coordinates whose range the writes check ([None] is the index panic). *)

From S2P Require Import Prelude QrField QrBits.
Open Scope Z_scope.

Record Code := mkCode {
  Version : nat;
  Size : Z;
  Mask : Z;
  code_modules : list (list bool);
}.

Definition alignPositions : list (list Z) :=
  [[]; []; [6; 18]; [6; 22]; [6; 26]; [6; 30]; [6; 34]; [6; 22; 38]; [6; 24; 42]; [6; 26; 46]; [6; 28; 50]].

(** ** Format and version words *)

Fixpoint bch (n : nat) (top gen rem : Z) : Z :=
  match n with
  | O => rem
  | S n' => bch n' top gen (Z.lxor (Z.shiftl rem 1) (Z.shiftr rem top * gen))
  end.

Definition formatBits (mask : Z) : Z :=
  Z.lxor (Z.lor (Z.shiftl mask 10) (bch 10 9 1335 mask)) 21522.

Definition versionBits (version : nat) : Z :=
  Z.lor (Z.shiftl (Z.of_nat version) 12) (bch 12 11 7973 (Z.of_nat version)).

(** ** The grid *)

Record grid := mkGrid {
  version : nat;
  size : Z;
  modules : list (list bool);
  function : list (list bool);
}.

Definition newGrid (v : nat) : grid :=
  let size := 17 + 4 * Z.of_nat v in
  let blank := replicate (Z.to_nat size) (replicate (Z.to_nat size) false) in
  mkGrid v size blank blank.

Definition store2 (m : list (list bool)) (x y : Z) (b : bool) : option (list (list bool)) :=
  row ← go_index m y; row' ← go_store row x b; go_store m y row'.

Definition setFunction (g : grid) (x y : Z) (dark : bool) : option grid :=
  m ← store2 (modules g) x y dark;
  f ← store2 (function g) x y true;
  Some (mkGrid (version g) (size g) m f).

(** A loop over [l] that may panic. *)
Fixpoint for_each {A S} (l : list A) (body : S -> A -> option S) (s : S) : option S :=
  match l with
  | [] => Some s
  | a :: l' => s' ← body s a; for_each l' body s'
  end.

(** [for i := a; i < b; i++] *)
Definition range (a b : Z) : list Z := seqZ a (b - a).

Definition drawFinder (cx cy : Z) (g : grid) : option grid :=
  for_each (range (-4) 5) (fun g dy =>
    for_each (range (-4) 5) (fun g dx =>
      let x := cx + dx in let y := cy + dy in
      if decide (x < 0 \/ y < 0 \/ size g <= x \/ size g <= y) then Some g
      else let d := Z.max (Z.abs dx) (Z.abs dy) in
           setFunction g x y (bool_decide (d <> 2) && bool_decide (d <> 4))) g) g.

Definition drawAlignment (cx cy : Z) (g : grid) : option grid :=
  for_each (range (-2) 3) (fun g dy =>
    for_each (range (-2) 3) (fun g dx =>
      setFunction g (cx + dx) (cy + dy) (negb (Z.max (Z.abs dx) (Z.abs dy) =? 1))) g) g.

Definition drawFormatBits (mask : Z) (g : grid) : option grid :=
  let bits := formatBits mask in
  let bit i := Z.testbit bits i in
  g ← for_each (range 0 6) (fun g i => setFunction g 8 i (bit i)) g;
  g ← setFunction g 8 7 (bit 6);
  g ← setFunction g 8 8 (bit 7);
  g ← setFunction g 7 8 (bit 8);
  g ← for_each (range 9 15) (fun g i => setFunction g (14 - i) 8 (bit i)) g;
  g ← for_each (range 0 8) (fun g i => setFunction g (size g - 1 - i) 8 (bit i)) g;
  g ← for_each (range 8 15) (fun g i => setFunction g 8 (size g - 15 + i) (bit i)) g;
  setFunction g 8 (size g - 8) true.

Definition drawVersionBits (g : grid) : option grid :=
  if decide (version g < 7)%nat then Some g else
  let bits := versionBits (version g) in
  for_each (range 0 18) (fun g i =>
    let bit := Z.testbit bits i in
    let a := size g - 11 + i mod 3 in
    let b := i `div` 3 in
    g ← setFunction g a b bit;
    setFunction g b a bit) g.

Definition drawFunctionPatterns (g : grid) : option grid :=
  g ← for_each (range 0 (size g)) (fun g i =>
        g ← setFunction g 6 i (i mod 2 =? 0); setFunction g i 6 (i mod 2 =? 0)) g;
  g ← drawFinder 3 3 g;
  g ← drawFinder (size g - 4) 3 g;
  g ← drawFinder 3 (size g - 4) g;
  let pos := nth (version g) alignPositions [] in
  let last := (length pos - 1)%nat in
  g ← for_each (imap pair pos) (fun g '(i, cy) =>
        for_each (imap pair pos) (fun g '(j, cx) =>
          let corner := (bool_decide (i = 0%nat) && bool_decide (j = 0%nat))
            || (bool_decide (i = 0%nat) && bool_decide (j = last))
            || (bool_decide (i = last) && bool_decide (j = 0%nat)) in
          if corner then Some g else drawAlignment cx cy g) g) g;
  g ← drawFormatBits 0 g;
  drawVersionBits g.

(** The modules not taken by a function pattern. *)
Definition rawDataModules (g : grid) : nat :=
  sum_list (map (fun row => length (filter (fun b => b = false) row)) (function g)).

(** ** Codeword placement *)

(** The values [right] takes: by twos from [right], column 6 skipped. *)
Fixpoint rights (fuel : nat) (right : Z) : list Z :=
  match fuel with
  | O => []
  | S fuel' =>
      if decide (1 <= right) then
        let right := if decide (right = 6) then 5 else right in
        right :: rights fuel' (right - 2)
      else []
  end.

(** The cells in the order the three nested loops visit them. *)
Definition zigzag (size : Z) : list (Z * Z) :=
  right ← rights (Z.to_nat size) (size - 1);
  vert ← range 0 size;
  j ← [0; 1];
  let y := if decide (Z.land (right + 1) 2 = 0) then size - 1 - vert else vert in
  [(right - j, y)].

Definition cell (m : list (list bool)) (x y : Z) : option bool :=
  row ← go_index m y; go_index row x.

Definition placeCodewords (cw : list Z) (g : grid) : option grid :=
  r ← for_each (zigzag (size g)) (fun mi xy =>
        let '(m, i) := mi in let '(x, y) := xy in
        f ← cell (function g) x y;
        if decide (f = true \/ zlen cw * 8 <= i) then Some (m, i) else
        c ← go_index cw (Z.shiftr i 3);
        m' ← store2 m x y (Z.testbit c (7 - Z.land i 7));
        Some (m', i + 1)) (modules g, 0);
  if decide (snd r <> zlen cw * 8) then None
  else Some (mkGrid (version g) (size g) (fst r) (function g)).

(** ** Masks *)

Definition maskBit (m x y : Z) : option bool :=
  match m with
  | 0 => Some ((x + y) mod 2 =? 0)
  | 1 => Some (y mod 2 =? 0)
  | 2 => Some (x mod 3 =? 0)
  | 3 => Some ((x + y) mod 3 =? 0)
  | 4 => Some ((x `div` 3 + y `div` 2) mod 2 =? 0)
  | 5 => Some ((x * y) mod 2 + (x * y) mod 3 =? 0)
  | 6 => Some (((x * y) mod 2 + (x * y) mod 3) mod 2 =? 0)
  | 7 => Some (((x + y) mod 2 + (x * y) mod 3) mod 2 =? 0)
  | _ => None
  end.

Definition applyMask (m : Z) (g : grid) : option grid :=
  let n := size g in
  for_each (range 0 n) (fun g y =>
    for_each (range 0 n) (fun g x =>
      f ← cell (function g) x y;
      if f : bool then Some g else
      b ← maskBit m x y;
      if b : bool then
        c ← cell (modules g) x y;
        m' ← store2 (modules g) x y (negb c);
        Some (mkGrid (version g) (size g) m' (function g))
      else Some g) g) g.

(** ** Penalty *)

Definition penaltyN1 : Z := 3.
Definition penaltyN2 : Z := 3.
Definition penaltyN3 : Z := 40.
Definition penaltyN4 : Z := 10.

(** The length of the run of [b] a line starts with. *)
Fixpoint run_length (b : bool) (line : list bool) : nat :=
  match line with
  | c :: line' => if decide (c = b) then S (run_length b line') else O
  | [] => O
  end.

Fixpoint penaltyRuns_from (fuel : nat) (line : list bool) : Z :=
  match fuel, line with
  | S fuel', b :: line' =>
      let run := S (run_length b line') in
      (if decide (5 <= run)%nat then penaltyN1 + Z.of_nat run - 5 else 0)
      + penaltyRuns_from fuel' (drop run line)
  | _, _ => 0
  end.

Definition penaltyRuns (line : list bool) : Z := penaltyRuns_from (length line) line.

(** [line[i]] *)
Definition at_ (line : list bool) (i : nat) : bool := nth i line false.

Definition finder_here (line : list bool) (i : nat) : bool :=
  bool_decide (take 7 (drop i line) = [true; false; true; true; true; false; true]).

Definition light_run (line : list bool) (is_ : list nat) : bool :=
  forallb (fun i => negb (at_ line i)) is_.

Definition penaltyFinderLike (line : list bool) : Z :=
  foldl (fun score i =>
    if finder_here line i then
      let score := if decide (4 <= i)%nat then
          if light_run line [i - 1; i - 2; i - 3; i - 4]%nat then score + penaltyN3 else score
        else score in
      if decide (i + 11 <= length line)%nat then
        if light_run line [i + 7; i + 8; i + 9; i + 10]%nat then score + penaltyN3 else score
      else score
    else score) 0 (seq 0 (length line - 6)).

Definition mat (m : list (list bool)) (x y : nat) : bool := at_ (nth y m []) x.

Definition block2 (n : nat) (m : list (list bool)) (x y : nat) : bool :=
  bool_decide (x + 1 < n)%nat && bool_decide (y + 1 < n)%nat
  && eqb (mat m (x + 1) y) (mat m x y) && eqb (mat m x (y + 1)) (mat m x y)
  && eqb (mat m (x + 1) (y + 1)) (mat m x y).

Definition count_dark (n : nat) (m : list (list bool)) : Z :=
  foldl (fun d y => foldl (fun d x => if mat m x y then d + 1 else d) d (seq 0 n)) 0 (seq 0 n).

Definition penalty (g : grid) : Z :=
  let n := Z.to_nat (size g) in
  let score := foldl (fun score k =>
      let row := map (fun i => mat (modules g) i k) (seq 0 n) in
      let col := map (fun i => mat (modules g) k i) (seq 0 n) in
      score + (penaltyRuns row + penaltyFinderLike row)
            + (penaltyRuns col + penaltyFinderLike col)) 0 (seq 0 n) in
  let dark := count_dark n (modules g) in
  let score := foldl (fun score y => foldl (fun score x =>
      if block2 n (modules g) x y then score + penaltyN2 else score) score (seq 0 n)) score (seq 0 n) in
  let total := size g * size g in
  let dev := Z.abs (20 * dark - 10 * total) in
  let k := (dev + total - 1) `div` total - 1 in
  score + k * penaltyN4.

(** ** Encode *)

Inductive qr_error := ErrTooLong.

Definition pick_version (n : nat) : option nat :=
  List.find (fun v => bool_decide (n <= nth v byteCapacity 0)%nat) (seq 1 10).

(** One turn of the mask loop: grid, best, bestScore. *)
Definition try_mask (s : grid * Z * Z) (m : Z) : option (grid * Z * Z) :=
  let '(g, best, bestScore) := s in
  g ← applyMask m g;
  g ← drawFormatBits m g;
  let p := penalty g in
  let '(best, bestScore) :=
    if decide (bestScore < 0 \/ p < bestScore) then (m, p) else (best, bestScore) in
  g ← applyMask m g;
  Some (g, best, bestScore).

(** [None] is a panic; [Some (inl _)] the error. *)
Definition Encode (data : list Z) : option (qr_error + Code) :=
  match pick_version (length data) with
  | None => Some (inl ErrTooLong)
  | Some version =>
      g ← drawFunctionPatterns (newGrid version);
      let total := (rawDataModules g / 8)%nat in
      let dataCodewords := (total - ecPerBlock version * numBlocks version)%nat in
      bytes ← encodeBytes version data dataCodewords;
      codewords ← interleave version total bytes;
      g ← placeCodewords codewords g;
      r ← for_each (range 0 8) try_mask (g, 0, -1);
      let '(g, best, _) := r in
      g ← applyMask best g;
      g ← drawFormatBits best g;
      Some (inr (mkCode version (size g) best (modules g)))
  end.
