(* ===== verification/QrSymbol.v ===== *)
(** What the drawing operations of QrGrid.v do to a square grid: each write is
    in range and changes one module; masking flips exactly the modules the
    mask selects outside the function patterns; placement writes the codeword
    bits along the zigzag; the format drawing overwrites the same modules
    whatever the mask. *)

From S2P Require Import Prelude QrField QrBits QrGrid.
Open Scope Z_scope.

(** ** Square matrices of modules *)

Definition square (n : nat) (m : list (list bool)) : Prop :=
  length m = n /\ Forall (fun row => length row = n) m.

Definition inside (n : nat) (x y : Z) : Prop := 0 <= x < Z.of_nat n /\ 0 <= y < Z.of_nat n.

#[export] Instance inside_dec n x y : Decision (inside n x y).
Proof. unfold inside. apply _. Defined.

Lemma square_row n m y row : square n m -> m !! y = Some row -> length row = n.
Proof. intros [_ H] Hy. rewrite Forall_lookup in H. by apply (H y). Qed.

Lemma cell_is_Some n m x y : square n m -> is_Some (cell m x y) <-> inside n x y.
Proof.
  intros Hsq. destruct Hsq as [Hl Hr]. unfold cell, go_index, inside. split.
  - intros [b Hb]. destruct (decide (0 <= y)); [|done]. simpl in Hb.
    destruct (m !! Z.to_nat y) as [row|] eqn:E; [|done]. simpl in Hb.
    destruct (decide (0 <= x)); [|done].
    pose proof (lookup_lt_Some _ _ _ E). pose proof (lookup_lt_Some _ _ _ Hb).
    pose proof (square_row n m _ _ (conj Hl Hr) E). lia.
  - intros [Hx Hy]. rewrite decide_True by lia.
    destruct (lookup_lt_is_Some_2 m (Z.to_nat y) ltac:(lia)) as [row E]. rewrite E. simpl.
    rewrite decide_True by lia. apply lookup_lt_is_Some_2.
    pose proof (square_row n m _ _ (conj Hl Hr) E). lia.
Qed.

Lemma store2_ok n m x y b : square n m -> inside n x y ->
  exists m', store2 m x y b = Some m' /\ square n m'
    /\ forall x' y', cell m' x' y' = if decide (x' = x /\ y' = y) then Some b else cell m x' y'.
Proof.
  intros Hsq Hin. pose proof Hsq as [Hl Hr]. destruct Hin as [Hx Hy].
  destruct (lookup_lt_is_Some_2 m (Z.to_nat y) ltac:(lia)) as [row E].
  pose proof (square_row n m _ _ Hsq E) as Hrow.
  exists (<[Z.to_nat y := <[Z.to_nat x := b]> row]> m).
  split; [|split; [split|]].
  - unfold store2, go_index, go_store, zlen. rewrite (decide_True (P := 0 <= y)) by lia.
    rewrite E. simpl. rewrite (decide_True (P := 0 <= x < _)) by lia. simpl.
    by rewrite decide_True by lia.
  - by rewrite length_insert.
  - apply Forall_insert; [done|by rewrite length_insert].
  - intros x' y'. unfold cell, go_index.
    destruct (decide (0 <= y')) as [Hy'|Hy']; [|rewrite decide_False by lia; done].
    destruct (decide (y' = y)) as [->|Hne].
    + rewrite list_lookup_insert_eq, E by lia. simpl.
      destruct (decide (0 <= x')) as [Hx'|Hx']; [|by rewrite decide_False by lia].
      destruct (decide (x' = x)) as [->|Hnx].
      * by rewrite decide_True, list_lookup_insert_eq by (done || lia).
      * rewrite decide_False by naive_solver. by rewrite list_lookup_insert_ne by lia.
    + rewrite (decide_False (P := x' = x /\ y' = y)) by naive_solver.
      by rewrite list_lookup_insert_ne by lia.
Qed.

Lemma cell_nat (m : list (list bool)) (j i : nat) :
  cell m (Z.of_nat j) (Z.of_nat i) = row ← m !! i; row !! j.
Proof.
  unfold cell, go_index. rewrite decide_True by lia. rewrite !Nat2Z.id.
  destruct (m !! i) as [row|]; simpl; [|done]. by rewrite decide_True by lia.
Qed.

Lemma square_ext n m m' : square n m -> square n m' ->
  (forall x y, inside n x y -> cell m x y = cell m' x y) -> m = m'.
Proof.
  intros Hs Hs' H. pose proof Hs as [Hl Hr]. pose proof Hs' as [Hl' Hr'].
  apply list_eq_same_length with n; [lia|lia|]. intros i row row' Hi E E'.
  apply list_eq_same_length with n.
  - by apply (square_row n m' i).
  - rewrite (square_row n m i row Hs E). done.
  - intros j b b' Hj Eb Eb'.
    specialize (H (Z.of_nat j) (Z.of_nat i) ltac:(unfold inside; lia)).
    rewrite !cell_nat, E, E' in H. simpl in H. congruence.
Qed.

(** ** Well-formed grids *)

Definition wf (n : nat) (g : grid) : Prop :=
  size g = Z.of_nat n /\ square n (modules g) /\ square n (function g).

(** A module is taken by a function pattern. *)
Definition is_fun (g : grid) (x y : Z) : Prop := cell (function g) x y = Some true.

#[export] Instance is_fun_dec g x y : Decision (is_fun g x y).
Proof. unfold is_fun. apply _. Defined.

(** ** Sequences of writes *)

Abbreviation write := (Z * Z * bool)%type.

Definition draws (ws : list write) (g : grid) : option grid :=
  for_each ws (fun g '(x, y, b) => setFunction g x y b) g.

Fixpoint last_write (ws : list write) (x y : Z) : option bool :=
  match ws with
  | [] => None
  | (x', y', b) :: ws' =>
      match last_write ws' x y with
      | Some b' => Some b'
      | None => if decide (x' = x /\ y' = y) then Some b else None
      end
  end.

Lemma for_each_app {A S} (l1 l2 : list A) (f : S -> A -> option S) s :
  for_each (l1 ++ l2) f s = s' ← for_each l1 f s; for_each l2 f s'.
Proof.
  revert s. induction l1 as [|a l1 IH]; intros s; [done|]. simpl.
  destruct (f s a); simpl; [apply IH|done].
Qed.

Lemma for_each_snoc {A S} (l : list A) a (f : S -> A -> option S) s :
  for_each (l ++ [a]) f s = s' ← for_each l f s; f s' a.
Proof.
  rewrite for_each_app. destruct (for_each l f s) as [s'|]; simpl; [|done]. by destruct (f s' a).
Qed.

Lemma for_each_product {A B S} (l1 : list A) (l2 : list B) (f : S -> A -> B -> option S) s :
  for_each l1 (fun s a => for_each l2 (fun s b => f s a b) s) s =
  for_each (list_prod l1 l2) (fun s ab => f s (fst ab) (snd ab)) s.
Proof.
  revert s. induction l1 as [|a l1 IH]; intros s; [done|]. simpl. rewrite for_each_app.
  assert (forall s, for_each (map (pair a) l2) (fun s ab => f s (fst ab) (snd ab)) s =
    for_each l2 (fun s b => f s a b) s) as ->.
  { clear. induction l2 as [|b l2 IH]; intros s; [done|]. simpl. destruct (f s a b); simpl; auto. }
  destruct (for_each l2 _ s); simpl; auto.
Qed.

Lemma setFunction_size g x y b g' : setFunction g x y b = Some g' ->
  size g' = size g /\ version g' = version g.
Proof.
  unfold setFunction. destruct (store2 _ _ _ b); cbn; [|done].
  destruct (store2 _ _ _ true); cbn; by intros [= <-].
Qed.

(** A loop of writes whose coordinates depend on the size only. *)
Lemma for_each_draws {A} (fx fy : Z -> A -> Z) (fb : A -> bool) l g :
  for_each l (fun g i => setFunction g (fx (size g) i) (fy (size g) i) (fb i)) g =
  draws (map (fun i => (fx (size g) i, fy (size g) i, fb i)) l) g.
Proof.
  revert g. induction l as [|a l IH]; intros g; [done|]. cbn [for_each map draws].
  destruct (setFunction _ _ _ _) as [g'|] eqn:E; simpl; [|done].
  rewrite IH. by destruct (setFunction_size _ _ _ _ _ E) as [-> _].
Qed.

Lemma draws_size ws g g' : draws ws g = Some g' -> size g' = size g /\ version g' = version g.
Proof.
  revert g. induction ws as [|[[x y] b] ws IH]; intros g E; cbn in E; [by simplify_eq|].
  destruct (setFunction g x y b) as [g1|] eqn:E1; cbn in E; [|done]. apply IH in E as [-> ->].
  by apply (setFunction_size _ _ _ _ _ E1).
Qed.

Lemma draws_ok n ws g : wf n g -> Forall (fun w => inside n (fst (fst w)) (snd (fst w))) ws ->
  exists g', draws ws g = Some g' /\ wf n g' /\ version g' = version g
    /\ (forall x y, cell (modules g') x y =
          match last_write ws x y with Some b => Some b | None => cell (modules g) x y end)
    /\ (forall x y, cell (function g') x y =
          match last_write ws x y with Some _ => Some true | None => cell (function g) x y end).
Proof.
  intros Hwf Hws. revert g Hwf. induction Hws as [|[[x y] b] ws Hin Hws IH]; intros g Hwf.
  { exists g. auto. }
  simpl in Hin. destruct Hwf as (Hs&Hm&Hf).
  destruct (store2_ok n _ x y b Hm Hin) as (m'&Em&Hm'&Cm).
  destruct (store2_ok n _ x y true Hf Hin) as (f'&Ef&Hf'&Cf).
  destruct (IH (mkGrid (version g) (size g) m' f')) as (g'&Eg&Hwf'&Hv&Hcm&Hcf); [done|].
  assert (setFunction g x y b = Some (mkGrid (version g) (size g) m' f')) as E1
    by (unfold setFunction; rewrite Em; simpl; by rewrite Ef).
  exists g'. split; [by unfold draws; simpl; rewrite E1|].
  repeat split; try done; try apply Hwf'; intros x' y'; rewrite ?Hcm, ?Hcf; simpl;
    destruct (last_write ws x' y'); try done; rewrite ?Cm, ?Cf;
    (destruct (decide (x = x' /\ y = y')); [rewrite decide_True by naive_solver; done
      |rewrite decide_False by naive_solver; done]).
Qed.

(** ** The format drawing as a sequence of writes *)

Definition format_writes (s m : Z) : list write :=
  let bit i := Z.testbit (formatBits m) i in
  map (fun i => (8, i, bit i)) (range 0 6)
  ++ [(8, 7, bit 6); (8, 8, bit 7); (7, 8, bit 8)]
  ++ map (fun i => (14 - i, 8, bit i)) (range 9 15)
  ++ map (fun i => (s - 1 - i, 8, bit i)) (range 0 8)
  ++ map (fun i => (8, s - 15 + i, bit i)) (range 8 15)
  ++ [(8, s - 8, true)].

Lemma draws_app ws1 ws2 g : draws (ws1 ++ ws2) g = g' ← draws ws1 g; draws ws2 g'.
Proof. apply for_each_app. Qed.

Lemma draws1 x y b g : setFunction g x y b = draws [(x, y, b)] g.
Proof. unfold draws. simpl. by destruct (setFunction g x y b). Qed.

Lemma draws_bind ws ws' g k :
  (forall g', size g' = size g -> k g' = draws ws' g') ->
  (g' ← draws ws g; k g') = draws (ws ++ ws') g.
Proof.
  intros H. rewrite draws_app. destruct (draws ws g) as [g'|] eqn:E; [|done].
  apply H. by apply (draws_size _ _ _ E).
Qed.

Lemma drawFormatBits_draws m g : drawFormatBits m g = draws (format_writes (size g) m) g.
Proof.
  unfold drawFormatBits, format_writes. set (bit := Z.testbit (formatBits m)).
  rewrite (for_each_draws (fun _ _ => 8) (fun _ i => i) bit).
  apply draws_bind. intros g1 S1. rewrite draws1.
  apply (draws_bind [_] ([_; _] ++ _)). intros g2 S2. rewrite draws1.
  apply (draws_bind [_] ([_] ++ _)). intros g3 S3. rewrite draws1.
  apply (draws_bind [_]). intros g4 S4.
  rewrite (for_each_draws (fun _ i => 14 - i) (fun _ _ => 8) bit).
  apply draws_bind. intros g5 S5.
  rewrite (for_each_draws (fun s i => s - 1 - i) (fun _ _ => 8) bit).
  rewrite S5, S4, S3, S2, S1. apply draws_bind. intros g6 S6.
  rewrite (for_each_draws (fun _ _ => 8) (fun s i => s - 15 + i) bit).
  rewrite S6, S5, S4, S3, S2, S1. apply draws_bind. intros g7 S7.
  by rewrite draws1, S7, S6, S5, S4, S3, S2, S1.
Qed.

(** ** Masking *)

Definition mask_sel (m x y : Z) : bool := default false (maskBit m x y).

Lemma maskBit_sel m x y : 0 <= m < 8 -> maskBit m x y = Some (mask_sel m x y).
Proof.
  intros Hm. by z_cases m 0%Z 8%nat.
Qed.

Definition mask_step (m : Z) (g : grid) (yx : Z * Z) : option grid :=
  let y := fst yx in let x := snd yx in
  f ← cell (function g) x y;
  if f : bool then Some g else
  b ← maskBit m x y;
  if b : bool then
    c ← cell (modules g) x y;
    m' ← store2 (modules g) x y (negb c);
    Some (mkGrid (version g) (size g) m' (function g))
  else Some g.

(** What a module becomes under mask [m]. *)
Definition masked (m : Z) (g : grid) (x y : Z) : option bool :=
  c ← cell (modules g) x y;
  Some (if decide (is_fun g x y) then c else xorb c (mask_sel m x y)).

Definition same_frame (g g' : grid) : Prop :=
  version g' = version g /\ size g' = size g /\ function g' = function g.

Lemma mask_step_ok n m g x y : wf n g -> inside n x y -> 0 <= m < 8 ->
  exists g', mask_step m g (y, x) = Some g' /\ wf n g' /\ same_frame g g'
    /\ forall x' y', cell (modules g') x' y' =
         if decide (x' = x /\ y' = y) then masked m g x y else cell (modules g) x' y'.
Proof.
  intros (Hs&Hm&Hf) Hin Hb. unfold mask_step, masked.
  destruct (proj2 (cell_is_Some n _ x y Hf) Hin) as [f Ef].
  destruct (proj2 (cell_is_Some n _ x y Hm) Hin) as [c Ec].
  assert (forall b, b = c -> forall x' y', cell (modules g) x' y' =
    if decide (x' = x /\ y' = y) then Some b else cell (modules g) x' y') as Hsame.
  { intros b -> x' y'. case_decide as E; [|done]. by destruct E as [-> ->]. }
  cbn [fst snd]. rewrite Ef, Ec. cbn [mbind option_bind]. destruct f.
  { rewrite decide_True by done. exists g. split; [done|]. split; [done|]. split; [done|]. by apply Hsame. }
  rewrite (decide_False (P := is_fun g x y)) by (unfold is_fun; congruence).
  rewrite maskBit_sel by done. cbn [mbind option_bind]. destruct (mask_sel m x y) eqn:Es.
  - destruct (store2_ok n _ x y (negb c) Hm Hin) as (m'&->&Hm'&Cm). cbn [mbind option_bind].
    eexists. split; [done|]. split; [done|]. split; [done|].
    intros x' y'. simpl. rewrite Cm. case_decide; [|done]. by destruct c.
  - exists g. split; [done|]. split; [done|]. split; [done|].
    apply Hsame. by destruct c.
Qed.

Lemma same_frame_is_fun g g' x y : same_frame g g' -> is_fun g' x y <-> is_fun g x y.
Proof. intros (_&_&H). unfold is_fun. by rewrite H. Qed.

Lemma mask_loop_ok n m cells g : wf n g -> 0 <= m < 8 -> NoDup cells ->
  Forall (fun yx => inside n (snd yx) (fst yx)) cells ->
  exists g', for_each cells (mask_step m) g = Some g' /\ wf n g' /\ same_frame g g'
    /\ forall x y, cell (modules g') x y =
         if decide ((y, x) ∈ cells) then masked m g x y else cell (modules g) x y.
Proof.
  intros Hwf Hm Hnd Hin. revert g Hwf.
  induction Hin as [|[y x] cells Hxy Hin IH]; intros g Hwf.
  { exists g. split; [done|]. split; [done|]. split; [done|].
    intros. by rewrite decide_False by set_solver. }
  apply NoDup_cons in Hnd as [Hni Hnd]. simpl in Hxy.
  destruct (mask_step_ok n m g x y Hwf Hxy Hm) as (g1&E1&Hwf1&Hsf1&C1).
  destruct (IH Hnd g1 Hwf1) as (g2&E2&Hwf2&Hsf2&C2).
  exists g2. split; [cbn [for_each]; by rewrite E1|]. split; [done|].
  split; [unfold same_frame in *; intuition congruence|].
  intros x' y'. rewrite C2. unfold masked at 1. rewrite C1.
  destruct (decide (x' = x /\ y' = y)) as [[-> ->]|Hne].
  - rewrite (decide_False (P := (y, x) ∈ cells)), decide_True by (done || set_solver). done.
  - destruct (decide ((y', x') ∈ cells)).
    + rewrite decide_True by set_solver. unfold masked. destruct (cell (modules g) x' y'); [|done].
      simpl. do 2 f_equal. by apply decide_ext, same_frame_is_fun.
    + rewrite decide_False by set_solver. done.
Qed.

Lemma NoDup_product {A B} (l1 : list A) (l2 : list B) : NoDup l1 -> NoDup l2 -> NoDup (list_prod l1 l2).
Proof.
  intros H1 H2. induction H1 as [|a l1 Ha H1 IH]; simpl; [constructor|].
  apply NoDup_app. split; [|split; [|done]].
  - clear IH. induction H2 as [|b l2 Hb H2 IH]; simpl; constructor; [|done].
    rewrite list_elem_of_In, in_map_iff. intros (b'&[= ->]&Hb'%list_elem_of_In). done.
  - intros [a' b'] Hi Hi'. rewrite list_elem_of_In, in_map_iff in Hi.
    destruct Hi as (?&[= -> ->]&_). rewrite list_elem_of_In, in_prod_iff, <- list_elem_of_In in Hi'.
    by destruct Hi'.
Qed.

Lemma in_range a b z : z ∈ range a b <-> a <= z < b.
Proof. unfold range. rewrite elem_of_seqZ. lia. Qed.

Lemma applyMask_ok n m g : wf n g -> 0 <= m < 8 ->
  exists g', applyMask m g = Some g' /\ wf n g' /\ same_frame g g'
    /\ forall x y, cell (modules g') x y = masked m g x y.
Proof.
  intros Hwf Hm. unfold applyMask.
  set (cells := list_prod (range 0 (size g)) (range 0 (size g))).
  assert (forall y x, (y, x) ∈ cells <-> inside n x y) as Hc.
  { intros y x. unfold cells, inside. rewrite list_elem_of_In, in_prod_iff, <- !list_elem_of_In, !in_range.
    destruct Hwf as [-> _]. naive_solver. }
  destruct (mask_loop_ok n m cells g Hwf Hm) as (g'&E&Hwf'&Hsf&C).
  { apply NoDup_product; apply NoDup_seqZ. }
  { apply Forall_forall. intros [y x] Hi. by apply Hc. }
  exists g'. split; [|split; [done|split; [done|]]].
  - rewrite <- E. exact (for_each_product _ _ (fun g y x => mask_step m g (y, x)) g).
  - intros x y. rewrite C. case_decide as Hi; [done|].
    unfold masked. destruct (cell (modules g) x y) eqn:Ec; [|done].
    destruct Hi. apply Hc. apply (cell_is_Some n (modules g) x y ltac:(apply Hwf)). by rewrite Ec.
Qed.

(** ** Placement *)

Lemma lookup_bits8 l q r : 0 <= r < 8 ->
  bits8 l !! (8 * q + Z.to_nat r)%nat = (fun c => Z.testbit c (7 - r)) <$> l !! q.
Proof.
  intros Hr. unfold bits8. revert q. induction l as [|z l IH]; intros q; [done|].
  cbn [map concat]. destruct q as [|q].
  - rewrite Nat.mul_0_r. cbn [lookup list_lookup fmap option_fmap option_map].
    rewrite lookup_app_l by (rewrite length_bits_of; lia). unfold bits_of.
    rewrite lookup_map. rewrite lookup_seq_lt by lia. simpl. f_equal. f_equal. lia.
  - rewrite lookup_app_r by (rewrite length_bits_of; lia). rewrite length_bits_of.
    replace (8 * S q + Z.to_nat r - 8)%nat with (8 * q + Z.to_nat r)%nat by lia. apply IH.
Qed.

Definition place_step (f : list (list bool)) (cw : list Z) (mi : list (list bool) * Z) (xy : Z * Z)
    : option (list (list bool) * Z) :=
  let '(m, i) := mi in let '(x, y) := xy in
  f ← cell f x y;
  if decide (f = true \/ zlen cw * 8 <= i) then Some (m, i) else
  c ← go_index cw (Z.shiftr i 3);
  m' ← store2 m x y (Z.testbit c (7 - Z.land i 7));
  Some (m', i + 1).

(** The cells of a path that [f] leaves free. *)
Definition free (f : list (list bool)) (cells : list (Z * Z)) : list (Z * Z) :=
  filter (fun xy => cell f (fst xy) (snd xy) = Some false) cells.

Lemma bit_at cw i : 0 <= i < zlen cw * 8 ->
  exists c, go_index cw (Z.shiftr i 3) = Some c
    /\ bits8 cw !! Z.to_nat i = Some (Z.testbit c (7 - Z.land i 7)).
Proof.
  intros Hi. rewrite Z.shiftr_div_pow2 by lia. change (2 ^ 3) with 8.
  assert (Z.land i 7 = i mod 8) as -> by (change 7 with (Z.ones 3); by rewrite Z.land_ones by lia).
  pose proof (Z.mod_pos_bound i 8 ltac:(lia)). pose proof (Z.div_mod i 8 ltac:(lia)).
  assert (0 <= i `div` 8 < zlen cw) as Hq by (split; [apply Z.div_pos; lia|apply Z.div_lt_upper_bound; lia]).
  unfold zlen in Hq.
  destruct (lookup_lt_is_Some_2 cw (Z.to_nat (i `div` 8)) ltac:(lia)) as [c Hc].
  exists c. unfold go_index. rewrite decide_True by lia. split; [done|].
  replace (Z.to_nat i) with (8 * Z.to_nat (i `div` 8) + Z.to_nat (i mod 8))%nat by lia.
  by rewrite lookup_bits8, Hc.
Qed.

(** The bits of [cw] from [i] on go to the free cells in order; the others
    keep their module. *)
Lemma place_loop_ok n f cw cells m i : square n f -> square n m -> NoDup cells ->
  Forall (fun xy => inside n (fst xy) (snd xy)) cells -> 0 <= i <= zlen cw * 8 ->
  let todo := Nat.min (length (free f cells)) (Z.to_nat (zlen cw * 8 - i)) in
  exists m', for_each cells (place_step f cw) (m, i) = Some (m', i + Z.of_nat todo)
    /\ square n m'
    /\ (forall k x y, (k < todo)%nat -> free f cells !! k = Some (x, y) ->
          cell m' x y = bits8 cw !! (Z.to_nat i + k)%nat)
    /\ (forall x y, (x, y) ∉ free f cells -> cell m' x y = cell m x y).
Proof.
  intros Hf Hm Hnd Hin. revert m i Hm. induction Hin as [|[x y] cells Hxy Hin IH]; intros m i Hm Hi todo.
  { exists m. unfold todo. simpl. rewrite Z.add_0_r. split; [done|]. split; [done|]. split; [|done].
    intros; lia. }
  apply NoDup_cons in Hnd as [Hni Hnd]. specialize (IH Hnd). simpl in Hxy.
  destruct (proj2 (cell_is_Some n f x y Hf) Hxy) as [b Eb].
  cbn [for_each place_step]. rewrite Eb. cbn [mbind option_bind].
  assert ((x, y) ∉ free f cells) as Hnf.
  { unfold free. rewrite list_elem_of_filter. naive_solver. }
  destruct b.
  { rewrite decide_True by auto. assert (free f ((x, y) :: cells) = free f cells) as Efr.
    { unfold free. rewrite filter_cons_False; [done|]. simpl. congruence. }
    unfold todo. rewrite Efr. by apply IH. }
  assert (free f ((x, y) :: cells) = (x, y) :: free f cells) as Efr by (unfold free; by rewrite filter_cons_True).
  unfold todo. rewrite Efr. clear todo. simpl length.
  destruct (decide (zlen cw * 8 <= i)) as [Hge|Hlt].
  - rewrite decide_True by auto. destruct (IH m i Hm Hi) as (m'&E&Hm'&Hb&Hk).
    replace (Z.to_nat (zlen cw * 8 - i)) with 0%nat in * by lia. rewrite Nat.min_0_r in *.
    exists m'. split; [done|]. split; [done|]. split; [intros; lia|].
    intros x' y' Hn. apply Hk. set_solver.
  - rewrite decide_False by naive_solver. destruct (bit_at cw i ltac:(lia)) as (c&Ec&Ebit).
    rewrite Ec. cbn [mbind option_bind].
    destruct (store2_ok n m x y (Z.testbit c (7 - Z.land i 7)) Hm Hxy) as (m1&E1&Hm1&C1).
    rewrite E1. cbn [mbind option_bind].
    destruct (IH m1 (i + 1) Hm1 ltac:(lia)) as (m'&E&Hm'&Hb&Hk).
    exists m'. split; [|split; [done|split]].
    + rewrite E. do 2 f_equal. lia.
    + intros [|k] x' y' Hlt' Hl; cbn [lookup list_lookup] in Hl; [injection Hl as <- <-|].
      * rewrite Hk by auto. rewrite C1, decide_True by done. by rewrite Nat.add_0_r.
      * rewrite (Hb k x' y') by (done || lia). f_equal. lia.
    + intros x' y' Hn. rewrite Hk by set_solver. rewrite C1.
      rewrite decide_False; [done|]. intros [-> ->]. set_solver.
Qed.

Lemma placeCodewords_ok n cw g : wf n g ->
  NoDup (zigzag (size g)) -> Forall (fun xy => inside n (fst xy) (snd xy)) (zigzag (size g)) ->
  (8 * length cw <= length (free (function g) (zigzag (size g))))%nat ->
  exists g', placeCodewords cw g = Some g' /\ wf n g' /\ same_frame g g'
    /\ (forall k x y, (k < 8 * length cw)%nat -> free (function g) (zigzag (size g)) !! k = Some (x, y) ->
          cell (modules g') x y = bits8 cw !! k)
    /\ (forall x y, is_fun g x y -> cell (modules g') x y = cell (modules g) x y).
Proof.
  intros Hwf Hnd Hin Hlen. pose proof Hwf as (Hs&Hm&Hf).
  destruct (place_loop_ok n (function g) cw (zigzag (size g)) (modules g) 0 Hf Hm Hnd Hin)
    as (m'&E&Hm'&Hb&Hk); [unfold zlen; lia|].
  assert (Nat.min (length (free (function g) (zigzag (size g)))) (Z.to_nat (zlen cw * 8 - 0))
    = 8 * length cw)%nat as Et by (unfold zlen; lia).
  rewrite Et in *.
  exists (mkGrid (version g) (size g) m' (function g)).
  split; [|split; [done|split; [done|split]]].
  - unfold placeCodewords.
    match goal with |- context [for_each _ ?b _] => change b with (place_step (function g) cw) end.
    rewrite E. cbn [mbind option_bind fst snd]. rewrite decide_False; [done|].
    unfold zlen. lia.
  - intros k x y Hk' Hl. cbn [modules]. by rewrite (Hb k x y).
  - intros x y Hfun. apply Hk. unfold free. rewrite list_elem_of_filter. unfold is_fun in Hfun.
    simpl. intros [? _]. congruence.
Qed.
