(* ===== verification/QrCorrect.v ===== *)
(** Correctness of [Encode] (src/server/internal/qr/qr.go): it never panics on
    bytes, the scanner of QrDecode.v reads the payload back, the fixed patterns
    are the standard's, and the mask chosen has the least penalty. *)

From S2P Require Import Prelude QrField QrBits QrGrid QrSymbol QrDecode.
Open Scope Z_scope.

(** ** The penalty is never negative, so the loop's [-1] is never a score *)

Lemma foldl_grows {A} (f : Z -> A -> Z) l : (forall s a, s <= f s a) -> forall s, s <= foldl f s l.
Proof.
  intros H. induction l as [|a l IH]; intros s; simpl; [lia|].
  etransitivity; [apply (H s a)|apply IH].
Qed.

Lemma penaltyRuns_nonneg line : 0 <= penaltyRuns line.
Proof.
  unfold penaltyRuns. generalize (length line). intros fuel. revert line.
  induction fuel as [|fuel IH]; intros [|b line]; simpl; try lia.
  specialize (IH (drop (run_length b line) line)).
  unfold penaltyN1. case_decide; lia.
Qed.

Lemma penaltyFinderLike_nonneg line : 0 <= penaltyFinderLike line.
Proof.
  unfold penaltyFinderLike, penaltyN3. apply foldl_grows. intros s i. crush_matches; lia.
Qed.

Lemma penalty_nonneg v g : size g = side v -> 0 <= penalty g.
Proof.
  intros Hs. unfold penalty.
  set (score := foldl _ _ _). set (dark := count_dark _ _). set (score0 := foldl _ 0 _) in score.
  assert (0 <= score0) as H0.
  { unfold score0. apply foldl_grows. intros s k.
    pose proof (penaltyRuns_nonneg (map (fun i => mat (modules g) i k) (seq 0 (Z.to_nat (size g))))).
    pose proof (penaltyRuns_nonneg (map (fun i => mat (modules g) k i) (seq 0 (Z.to_nat (size g))))).
    pose proof (penaltyFinderLike_nonneg (map (fun i => mat (modules g) i k) (seq 0 (Z.to_nat (size g))))).
    pose proof (penaltyFinderLike_nonneg (map (fun i => mat (modules g) k i) (seq 0 (Z.to_nat (size g))))).
    lia. }
  assert (score0 <= score) as H1.
  { unfold score. apply foldl_grows. intros s y. apply foldl_grows. intros s' x.
    unfold penaltyN2. crush_matches; lia. }
  unfold penaltyN4. set (total := size g * size g).
  assert (0 < total /\ total mod 2 = 1) as [Ht Hodd].
  { unfold total. rewrite Hs. unfold side. split; [nia|].
    rewrite Z.mul_mod, Z.add_mod, (Z.mul_mod 4) by lia. simpl (4 mod 2).
    rewrite Z.mul_0_l. done. }
  assert (1 <= Z.abs (20 * dark - 10 * total)) as Hd.
  { pose proof (Z.div_mod total 2 ltac:(lia)). lia. }
  assert (1 <= (Z.abs (20 * dark - 10 * total) + total - 1) `div` total) by (apply Z.div_le_lower_bound; lia).
  lia.
Qed.

(** ** One mask applied and its format word drawn *)

Definition finish (m : Z) (g : grid) : option grid := g ← applyMask m g; drawFormatBits m g.

(** Equal but for the modules of the format areas. *)
Definition agree (g g' : grid) : Prop :=
  same_frame g g' /\ forall x y, last_write (format_writes (size g) 0) x y = None ->
    cell (modules g') x y = cell (modules g) x y.

Section finishing.
Context (v : nat) (Hv : v ∈ versions).
Let n : nat := Z.to_nat (side v).

(** The grid has version [v]'s function areas. *)
Definition framed (g : grid) : Prop :=
  wf n g /\ version g = v /\ forall x y, inside n x y -> cell (function g) x y = Some (reserved v x y).

Lemma framed_size g : framed g -> size g = side v.
Proof. intros [(Hs&_) _]. rewrite Hs. unfold n, side. lia. Qed.

Lemma framed_cells g x y : framed g -> is_Some (cell (modules g) x y) <-> inside n x y.
Proof. intros [(_&Hm&_) _]. by apply cell_is_Some. Qed.

Lemma framed_fun g x y : framed g -> inside n x y -> is_fun g x y <-> reserved v x y = true.
Proof. intros (_&_&Hf) Hi. unfold is_fun. rewrite (Hf x y Hi). split; [by intros [=]|by intros ->]. Qed.

Lemma same_frame_framed g g' : framed g -> wf n g' -> same_frame g g' -> framed g'.
Proof.
  intros (_&Hver&Hf) Hwf (E1&E2&E3). split; [done|]. split; [congruence|].
  intros x y Hi. rewrite E3. by apply Hf.
Qed.

Lemma masked_outside m g x y : framed g -> ~ inside n x y -> masked m g x y = None.
Proof.
  intros Hg Hi. unfold masked. destruct (cell (modules g) x y) eqn:E; [|done].
  destruct Hi. by apply (framed_cells g x y Hg).
Qed.

Lemma finish_ok m g : framed g -> 0 <= m < 8 ->
  exists g', finish m g = Some g' /\ framed g' /\ same_frame g g'
    /\ forall x y, cell (modules g') x y =
         match last_write (format_writes (side v) m) x y with
         | Some b => Some b | None => masked m g x y end.
Proof.
  intros Hg Hm. destruct (format_facts v Hv) as (Hin&Hres&_).
  destruct (applyMask_ok n m g (proj1 Hg) Hm) as (g1&E1&Hwf1&Hsf1&C1).
  destruct (draws_ok n (format_writes (side v) m) g1 Hwf1 (Hin m)) as (g2&E2&Hwf2&Hv2&C2&F2).
  assert (size g1 = side v) as Hs1 by (rewrite (proj1 (proj2 Hsf1)); by apply framed_size).
  assert (same_frame g g2) as Hsf.
  { destruct Hsf1 as (V1&S1&F1). split; [congruence|].
    destruct (draws_size _ _ _ E2) as [S2 _]. split; [congruence|].
    apply (square_ext n); [apply Hwf2|apply Hg|]. intros x y Hi. rewrite F2, F1.
    destruct (last_write _ x y) eqn:El; [|done].
    rewrite (proj2 (proj2 Hg) x y Hi). f_equal. destruct (reserved v x y) eqn:Er; [done|].
    apply (Hres m) in Er. congruence. }
  exists g2. unfold finish. rewrite E1. cbn [mbind option_bind].
  rewrite drawFormatBits_draws, Hs1. split; [done|].
  split; [by apply (same_frame_framed g)|]. split; [done|].
  intros x y. rewrite C2. by rewrite C1.
Qed.

Lemma framed_eq g g' : framed g -> framed g' ->
  (forall x y, inside n x y -> cell (modules g) x y = cell (modules g') x y) -> g = g'.
Proof.
  intros (W&V&F) (W'&V'&F') H.
  assert (modules g = modules g') as Em by (apply (square_ext n); [apply W|apply W'|done]).
  assert (function g = function g') as Ef.
  { apply (square_ext n); [apply W|apply W'|]. intros x y Hi. by rewrite F, F'. }
  destruct W as [S _], W' as [S' _].
  destruct g, g'; simpl in *. congruence.
Qed.

Lemma agree_refl g : agree g g.
Proof. by repeat split. Qed.

Lemma finish_agree m g g' : framed g -> framed g' -> agree g g' -> 0 <= m < 8 ->
  finish m g = finish m g'.
Proof.
  intros Hg Hg' [Hsf Ha] Hm.
  destruct (finish_ok m g Hg Hm) as (h&E&Hh&_&C). destruct (finish_ok m g' Hg' Hm) as (h'&E'&Hh'&_&C').
  rewrite E, E'. f_equal. apply framed_eq; [done..|]. intros x y Hi. rewrite C, C'.
  destruct (last_write _ x y) eqn:El; [done|].
  unfold masked. rewrite Ha by (rewrite framed_size by done; by apply (last_write_mask v m)).
  destruct (cell (modules g) x y); [|done]. simpl. do 2 f_equal.
  apply decide_ext. symmetry. by apply same_frame_is_fun.
Qed.

(** The mask is its own inverse, so a turn of the loop leaves the data as it was. *)
Lemma unmask_agree m g h : framed g -> 0 <= m < 8 -> finish m g = Some h ->
  exists g', applyMask m h = Some g' /\ framed g' /\ agree g g'.
Proof.
  intros Hg Hm E. destruct (finish_ok m g Hg Hm) as (h'&E'&Hh&Hsf&C). rewrite E in E'. simplify_eq.
  destruct (applyMask_ok n m h' (proj1 Hh) Hm) as (g'&Eg&Hwf&Hsf'&C').
  exists g'. split; [done|]. split; [by apply (same_frame_framed h')|]. split.
  - unfold same_frame in *. intuition congruence.
  - intros x y Hl. rewrite framed_size in Hl by done. rewrite C'. unfold masked at 1. rewrite C.
    rewrite (last_write_mask v 0 m) by done. unfold masked.
    destruct (cell (modules g) x y) as [c|]; [|done]. simpl. f_equal.
    destruct (decide (is_fun g x y)) as [Hf|Hf].
    + rewrite decide_True; [done|]. by apply (same_frame_is_fun _ _ _ _ Hsf).
    + rewrite decide_False by (by rewrite (same_frame_is_fun _ _ _ _ Hsf)).
      by destruct c, (mask_sel m x y).
Qed.

Lemma agree_trans g1 g2 g3 : agree g1 g2 -> agree g2 g3 -> agree g1 g3.
Proof.
  intros [F1 A1] [F2 A2]. split; [unfold same_frame in *; intuition congruence|].
  intros x y Hl. rewrite A2, A1; [done|done|]. destruct F1 as (_&->&_). done.
Qed.

(** ** The mask loop *)

(** The penalty of the symbol under mask [m]. *)
Definition score (g : grid) (m : Z) : Z := from_option penalty 0 (finish m g).

Lemma try_mask_ok g0 g best bestScore m : framed g0 -> framed g -> agree g0 g -> 0 <= m < 8 ->
  exists g', try_mask (g, best, bestScore) m =
      Some (g', if decide (bestScore < 0 \/ score g0 m < bestScore) then m else best,
                if decide (bestScore < 0 \/ score g0 m < bestScore) then score g0 m else bestScore)
    /\ framed g' /\ agree g0 g'.
Proof.
  intros Hg0 Hg Ha Hm. destruct (finish_ok m g Hg Hm) as (h&E&Hh&_).
  destruct (unmask_agree m g h Hg Hm E) as (g'&Eu&Hg'&Ha').
  assert (score g0 m = penalty h) as Es.
  { unfold score. by rewrite (finish_agree m g0 g Hg0 Hg Ha Hm), E. }
  exists g'. split; [|split; [done|by apply agree_trans with g]].
  unfold try_mask. unfold finish in E.
  destruct (applyMask m g) as [g1|]; cbn [mbind option_bind] in *; [|done].
  rewrite E. cbn [mbind option_bind]. rewrite Es.
  case_decide; rewrite Eu; done.
Qed.

(** [best] is the first of the masks below [k] with the least score. *)
Definition best_below (g0 : grid) (k best : Z) : Prop :=
  0 <= best < k /\ forall m, 0 <= m < k ->
    score g0 best <= score g0 m /\ (m < best -> score g0 best < score g0 m).

Lemma score_nonneg g m : framed g -> 0 <= m < 8 -> 0 <= score g m.
Proof.
  intros Hg Hm. unfold score. destruct (finish_ok m g Hg Hm) as (h&->&Hh&_). simpl.
  apply (penalty_nonneg v). by apply framed_size.
Qed.

Lemma mask_loop_inv g0 (k : nat) : framed g0 -> (k < 8)%nat ->
  exists g best, for_each (seqZ 0 (Z.of_nat (S k))) try_mask (g0, 0, -1) = Some (g, best, score g0 best)
    /\ framed g /\ agree g0 g /\ best_below g0 (Z.of_nat (S k)) best.
Proof.
  intros Hg0. induction k as [|k IH]; intros Hk.
  - destruct (try_mask_ok g0 g0 0 (-1) 0) as (g&E&Hg&Ha); [done|done|apply agree_refl|lia|].
    rewrite !decide_True in E by lia. exists g, 0.
    change (seqZ 0 (Z.of_nat 1)) with [0]. cbn [for_each]. rewrite E. cbn [mbind option_bind].
    split; [done|]. split; [done|]. split; [done|]. split; [lia|]. intros m Hm.
    replace m with 0 by lia. lia.
  - destruct IH as (g&best&E&Hg&Ha&Hb&Hmin); [lia|].
    rewrite seqZ_S. rewrite for_each_snoc, E. cbn [mbind option_bind].
    destruct (try_mask_ok g0 g best (score g0 best) (0 + Z.of_nat (S k))) as (g'&E'&Hg'&Ha');
      [done|done|done|lia|].
    rewrite E'. pose proof (score_nonneg g0 best Hg0 ltac:(lia)).
    set (k' := 0 + Z.of_nat (S k)) in *. assert (k' = Z.of_nat (S k)) as Ek by lia. rewrite <- Ek in *.
    destruct (decide (score g0 best < 0 \/ score g0 k' < score g0 best)) as [Hd|Hd].
    + exists g', k'. split; [done|]. split; [done|]. split; [done|]. split; [lia|].
      intros m Hm. destruct (decide (m = k')) as [->|]; [lia|].
      destruct (Hmin m ltac:(lia)). lia.
    + exists g', best. split; [done|]. split; [done|]. split; [done|]. split; [lia|].
      intros m Hm. destruct (decide (m = k')) as [->|]; [lia|]. apply Hmin. lia.
Qed.
End finishing.

(** ** The codewords on the symbol *)

(** [Encode] up to the mask loop, for the version it picks. *)
Definition codeword_grid (v : nat) (data : list Z) : option grid :=
  g ← drawFunctionPatterns (newGrid v);
  bytes ← encodeBytes v data (rawDataModules g / 8 - ecPerBlock v * numBlocks v)%nat;
  codewords ← interleave v (rawDataModules g / 8)%nat bytes;
  placeCodewords codewords g.

Definition free_cells (v : nat) : list (Z * Z) :=
  filter (fun xy => reserved v (fst xy) (snd xy) = false) (path v).

Lemma filter_ext_in {A} (P Q : A -> Prop) `{!forall x, Decision (P x), !forall x, Decision (Q x)} (l : list A) :
  (forall x, x ∈ l -> P x <-> Q x) -> filter P l = filter Q l.
Proof.
  induction l as [|x l IH]; intros Heq; [done|].
  specialize (IH ltac:(set_solver)).
  destruct (decide (P x)) as [HP|HP].
  - rewrite !filter_cons_True; [by rewrite IH|by apply Heq; [left|]|done].
  - rewrite !filter_cons_False; [done|by rewrite <- Heq by left|done].
Qed.

Lemma free_is v g : v ∈ versions -> framed v g ->
  free (function g) (zigzag (size g)) = free_cells v.
Proof.
  intros Hv Hg. destruct (path_facts v Hv) as (Ep&Hin&_).
  rewrite (framed_size v g Hg). unfold free, free_cells. rewrite <- Ep.
  apply filter_ext_in. intros [x y] Hi. rewrite Forall_forall in Hin. specialize (Hin _ Hi).
  destruct Hg as (_&_&Hf). simpl. rewrite Hf by done. split; [by intros [=]|by intros ->].
Qed.

(** The grid [g] carries [data]: its free cells hold a run of codewords that
    scans to a segment that reads as [data], and its fixed patterns stand. *)
Definition carries (v : nat) (data : list Z) (g : grid) : Prop :=
  exists out d, length out = total_codewords v /\ Forall is_byte out
    /\ scan_codewords v out = Some d /\ read_segment v (bits8 d) = Some data
    /\ (8 * length out <= length (free_cells v))%nat
    /\ (forall k x y, (k < 8 * length out)%nat -> free_cells v !! k = Some (x, y) ->
          cell (modules g) x y = bits8 out !! k)
    /\ (forall x y b, inside (Z.to_nat (side v)) x y -> expected v x y = Some b ->
          cell (modules g) x y = Some b /\ reserved v x y = true
          /\ (last_write (format_writes (side v) 0) x y = None \/ (x = 8 /\ y = side v - 8 /\ b = true))).

Lemma codeword_grid_ok v data : v ∈ versions -> Forall is_byte data ->
  (length data <= nth v byteCapacity 0)%nat ->
  exists g, codeword_grid v data = Some g /\ framed v g /\ carries v data g.
Proof.
  intros Hv Hd Hlen. destruct (capacity_facts v Hv) as (Hcap&Hcnt&Hdc).
  destruct (grid_facts v Hv) as (g0&E0&Hwf0&Hv0&Hf0&Hx0&Hraw&Hfree).
  destruct (path_facts v Hv) as (Ep&Hin&Hnd).
  assert (framed v g0) as Hg0 by done. pose proof (framed_size v g0 Hg0) as Hs0.
  destruct (encodeBytes_spec v data (data_codewords v) Hd) as (bytes&tail&Eb&Hbl&Hbb&Ebits); [lia|].
  destruct (interleave_spec v Hv bytes Hbb Hbl) as (out&Eo&Hol&Hob&Hscan).
  rewrite <- Hs0, (free_is v g0 Hv Hg0) in Hfree.
  destruct (placeCodewords_ok (Z.to_nat (side v)) out g0 Hwf0) as (g&Eg&Hwf&Hsf&Hbits&Hkeep).
  { by rewrite Hs0. }
  { by rewrite Hs0. }
  { by rewrite (free_is v g0 Hv Hg0), Hol. }
  exists g. split; [|split].
  - unfold codeword_grid. rewrite E0. cbn [mbind option_bind]. rewrite Hraw, Hdc, Eb.
    cbn [mbind option_bind]. by rewrite Eo.
  - by apply (same_frame_framed v g0).
  - exists out, bytes. split; [done|]. split; [done|]. split; [done|].
    split; [|split; [by rewrite Hol|split]].
    + rewrite Ebits. apply read_segment_ok; [|done]. unfold zlen. lia.
    + intros k x y Hk Hl. apply Hbits; [done|]. by rewrite (free_is v g0 Hv Hg0).
    + intros x y b Hi Ex. destruct (Hx0 x y b Hi Ex) as (Ec&Hf&Hlw).
      split; [by rewrite Hkeep|]. split; [|done].
      unfold is_fun in Hf. rewrite Hf0 in Hf by done. congruence.
Qed.

(** ** Reading the finished symbol *)

Lemma mapM_map {A B} (f : A -> option B) (g : A -> B) (l : list A) :
  (forall a, a ∈ l -> f a = Some (g a)) -> mapM f l = Some (map g l).
Proof.
  induction l as [|a l IH]; intros H; [done|]. simpl. rewrite (H a) by left.
  simpl. by rewrite IH by set_solver.
Qed.

Section reading.
Context (v : nat) (Hv : v ∈ versions) (data : list Z) (g h : grid) (m : Z) (Hm : 0 <= m < 8)
  (Hg : framed v g) (Hc : carries v data g) (Hh : finish m g = Some h).

Lemma finished_cells : framed v h /\ forall x y, cell (modules h) x y =
  match last_write (format_writes (side v) m) x y with
  | Some b => Some b | None => masked m g x y end.
Proof using Hv Hm Hg Hh.
  destruct (finish_ok v Hv m g Hg Hm) as (h'&E&Hf&_&C). rewrite Hh in E. by simplify_eq.
Qed.

Lemma read_word_ok (pos : Z -> Z * Z) :
  (forall i, 0 <= i < 15 -> last_write (format_writes (side v) m) (fst (pos i)) (snd (pos i))
     = Some (Z.testbit (formatBits m) i)) ->
  read_word (modules h) pos = Some (formatBits m mod 2 ^ 15).
Proof using Hv Hm Hg Hh.
  intros Hp. destruct finished_cells as [_ C]. unfold read_word.
  rewrite (mapM_map _ (Z.testbit (formatBits m))).
  - cbn [mbind option_bind]. f_equal. apply (val_from_bits_of 15 (formatBits m) 0).
  - intros i Hi. rewrite list_elem_of_In, <- in_rev, <- list_elem_of_In, in_range in Hi.
    by rewrite C, Hp.
Qed.

Lemma read_mask_ok : read_mask (modules h) (side v) = Some m.
Proof using Hv Hm Hg Hh.
  destruct (format_facts v Hv) as (_&_&Hfmt). destruct (Hfmt m Hm) as [Ew Hpos].
  unfold read_mask. rewrite !read_word_ok by (intros i Hi; apply Hpos; lia).
  cbn [mbind option_bind]. rewrite decide_False by auto. rewrite Ew. clear - Hm.
  by z_cases m 0%Z 8%nat.
Qed.

Lemma free_cell_inside x y : (x, y) ∈ free_cells v ->
  inside (Z.to_nat (side v)) x y /\ reserved v x y = false.
Proof using Hv.
  unfold free_cells. rewrite list_elem_of_filter. intros [Hr Hi]. split; [|done].
  destruct (path_facts v Hv) as (Ep&Hin&_). rewrite Ep, Forall_forall in Hin. by apply (Hin (x, y)).
Qed.

(** A free cell, unmasked, is what the placement left there. *)
Lemma unmasked x y : (x, y) ∈ free_cells v ->
  (b ← cell (modules h) x y; Some (xorb b (iso_mask m y x))) = cell (modules g) x y.
Proof using Hv Hm Hg Hh.
  intros Hi. destruct (free_cell_inside x y Hi) as [Hin Hr]. destruct finished_cells as [_ C].
  destruct (format_facts v Hv) as (_&Hres&_). rewrite C, (Hres m x y Hr). unfold masked.
  destruct (cell (modules g) x y) as [c|]; [|done]. cbn [mbind option_bind].
  rewrite decide_False by (rewrite (framed_fun v g x y Hg Hin); congruence).
  rewrite iso_mask_sel by done. f_equal. by destruct c, (iso_mask m y x).
Qed.

Lemma read_bits : exists out rest, Forall is_byte out /\ length out = total_codewords v
  /\ mapM (fun xy => b ← cell (modules h) (fst xy) (snd xy); Some (xorb b (iso_mask m (snd xy) (fst xy))))
       (free_cells v) = Some (bits8 out ++ rest)
  /\ scan_codewords v out ≫= (fun d => read_segment v (bits8 d)) = Some data.
Proof.
  destruct Hc as (out&d&Hl&Hb&Hs&Hr&Hle&Hbits&_).
  set (f := fun xy : Z * Z => _).
  assert (is_Some (mapM f (free_cells v))) as [bs Ebs].
  { apply mapM_is_Some, Forall_forall. intros [x y] Hi. unfold f. simpl. rewrite unmasked by done.
    apply (framed_cells v g x y Hg). by apply free_cell_inside. }
  assert (take (8 * length out) bs = bits8 out) as Et.
  { pose proof (length_mapM _ _ _ Ebs) as Hlb. apply mapM_Some_1 in Ebs.
    apply list_eq_same_length with (8 * length out)%nat; [by rewrite length_bits8|rewrite length_take; lia|].
    intros k b b' Hk Eb Eb'. rewrite lookup_take_lt in Eb by done.
    destruct (lookup_lt_is_Some_2 (free_cells v) k ltac:(lia)) as [[x y] Exy].
    pose proof (Forall2_lookup_lr _ _ _ _ _ _ Ebs Exy Eb) as E. unfold f in E. simpl in E.
    rewrite unmasked in E by (by eapply list_elem_of_lookup_2).
    rewrite (Hbits k x y Hk Exy) in E. congruence. }
  exists out, (drop (8 * length out) bs). split; [done|]. split; [done|].
  split; [rewrite Ebs, <- Et, take_drop; done|]. rewrite Hs. done.
Qed.

Lemma scan_finished : scan_symbol (modules h) = Some data.
Proof.
  destruct finished_cells as [Hf _]. pose proof (proj1 (proj1 (proj2 (proj1 Hf)))) as Hlen.
  unfold scan_symbol, zlen. rewrite Hlen.
  assert ((Z.to_nat (side v) - 17) / 4 = v)%nat as ->.
  { unfold side. replace (Z.to_nat (17 + 4 * Z.of_nat v) - 17)%nat with (v * 4)%nat by lia.
    by apply Nat.div_mul. }
  rewrite decide_True by (split; [done|unfold side; lia]).
  rewrite read_mask_ok. cbn [mbind option_bind].
  destruct read_bits as (out&rest&Hb&Hl&E&Er). fold (free_cells v). rewrite E.
  cbn [mbind option_bind]. by rewrite <- Hl, bytes_of_bits8.
Qed.

(** The fixed patterns of the finished symbol. *)
Lemma finished_patterns x y b : inside (Z.to_nat (side v)) x y -> expected v x y = Some b ->
  cell (modules h) x y = Some b.
Proof.
  intros Hi Ex. destruct Hc as (out&d&_&_&_&_&_&_&Hp). destruct (Hp x y b Hi Ex) as (Ec&Hr&Hlw).
  destruct finished_cells as [_ C]. rewrite C.
  destruct Hlw as [Hlw|(->&->&->)].
  - rewrite (last_write_mask v 0 m) by done. unfold masked. rewrite Ec. cbn [mbind option_bind].
    by rewrite decide_True by (by apply (framed_fun v g x y Hg Hi)).
  - assert (forall ws x y b, last_write (ws ++ [(x, y, b)]) x y = Some b) as Hlast.
    { clear. intros ws x y b. induction ws as [|[[x' y'] b'] ws IH]; simpl; [by rewrite decide_True|].
      by rewrite IH. }
    unfold format_writes. rewrite !app_assoc. by rewrite Hlast.
Qed.
End reading.

(** ** Encode *)

Lemma find_first {A} (f : A -> bool) l1 a l2 : f a = true -> (forall b, b ∈ l1 -> f b = false) ->
  List.find f (l1 ++ a :: l2) = Some a.
Proof.
  intros Ha. induction l1 as [|b l1 IH]; intros H; simpl; [by rewrite Ha|].
  rewrite (H b) by left. apply IH. set_solver.
Qed.

Definition smallest_version (n v : nat) : Prop :=
  v ∈ versions /\ (n <= nth v byteCapacity 0)%nat
  /\ forall v', v' ∈ versions -> (n <= nth v' byteCapacity 0)%nat -> (v <= v')%nat.

Lemma pick_version_ok n : (n <= MaxBytes)%nat -> exists v, pick_version n = Some v /\ smallest_version n v.
Proof.
  unfold MaxBytes. intros Hn. unfold pick_version, smallest_version.
  destruct (List.find _ (seq 1 10)) as [v|] eqn:E.
  - exists v. split; [done|]. pose proof E as [Hi Hf]%List.find_some.
    rewrite bool_decide_eq_true in Hf. split; [by apply list_elem_of_In|]. split; [done|].
    intros v' Hv' Hf'. destruct (decide (v <= v')%nat) as [|Hlt]; [done|]. exfalso.
    assert (v' ∈ seq 1 (v - 1)) as Hi' by (apply elem_of_seq; apply in_versions in Hv'; lia).
    apply in_seq in Hi. clear Hf Hn Hlt Hv'. revert v' Hi' Hf' E.
    assert (v = 1 \/ v = 2 \/ v = 3 \/ v = 4 \/ v = 5 \/ v = 6 \/ v = 7 \/ v = 8 \/ v = 9 \/ v = 10)%nat as Hc by lia.
    intros v' Hi' Hf'. apply elem_of_seq in Hi'. cbn [seq List.find].
    repeat match goal with |- context [bool_decide ?P] => destruct (bool_decide_reflect P) end;
      intros [= <-]; simpl in *;
      repeat (destruct v' as [|v']; simpl in *; try lia).
  - exfalso. apply (List.find_none _ _) with (x := 10%nat) in E; [|apply in_seq; lia].
    rewrite bool_decide_eq_false in E. simpl in E. lia.
Qed.

(** The pipeline with its intermediate results named. *)
Lemma Encode_unfold data v g0 g best s h : pick_version (length data) = Some v ->
  codeword_grid v data = Some g0 ->
  for_each (range 0 8) try_mask (g0, 0, -1) = Some (g, best, s) -> finish best g = Some h ->
  Encode data = Some (inr (mkCode v (size h) best (modules h))).
Proof.
  intros Hv Hg0 Hl Hh. unfold Encode. rewrite Hv. unfold codeword_grid in Hg0.
  destruct (drawFunctionPatterns _) as [g1|]; cbn [mbind option_bind] in *; [|done].
  destruct (encodeBytes _ _ _); cbn [mbind option_bind] in *; [|done].
  destruct (interleave _ _ _); cbn [mbind option_bind] in *; [|done].
  rewrite Hg0. cbn [mbind option_bind]. rewrite Hl. cbn [mbind option_bind].
  unfold finish in Hh. destruct (applyMask best g); cbn [mbind option_bind] in *; [|done].
  by rewrite Hh.
Qed.

Lemma Encode_spec data : Forall is_byte data -> (length data <= MaxBytes)%nat ->
  exists v g0 best h, smallest_version (length data) v /\ codeword_grid v data = Some g0
    /\ framed v g0 /\ carries v data g0 /\ best_below g0 8 best /\ finish best g0 = Some h
    /\ Encode data = Some (inr (mkCode v (side v) best (modules h))).
Proof.
  intros Hd Hl. destruct (pick_version_ok _ Hl) as (v&Ev&Hsm).
  pose proof Hsm as (Hv&Hcap&_).
  destruct (codeword_grid_ok v data Hv Hd Hcap) as (g0&Eg&Hg0&Hc).
  destruct (mask_loop_inv v Hv g0 7 Hg0) as (g&best&El&Hg&Ha&Hb); [lia|].
  destruct (finish_ok v Hv best g Hg) as (h&Eh&Hh&_); [apply Hb|].
  exists v, g0, best, h. split; [done|]. split; [done|]. split; [done|]. split; [done|].
  split; [done|]. split.
  - rewrite <- Eh. apply (finish_agree v Hv); [done|done|done|apply Hb].
  - rewrite <- (framed_size v h Hh). eapply Encode_unfold; eauto.
Qed.

Lemma Encode_scan data : Forall is_byte data -> (length data <= MaxBytes)%nat ->
  exists c, Encode data = Some (inr c) /\ smallest_version (length data) (Version c)
    /\ Size c = side (Version c) /\ scan_symbol (code_modules c) = Some data.
Proof.
  intros Hd Hl. destruct (Encode_spec data Hd Hl) as (v&g0&best&h&Hsm&_&Hg0&Hc&Hb&Hh&E).
  eexists. split; [exact E|]. split; [done|]. split; [done|].
  apply (scan_finished v (proj1 Hsm) data g0 h best); [apply Hb|done..].
Qed.

(** C22: [Encode] is correct: on any bytes it returns without a fault (no index
    out of range, no panic); up to 213 bytes it returns a symbol of the
    smallest version that holds them, from which a scanner written from the
    standard (format words, masks, path, blocks with zero syndromes, byte
    segment) reads exactly those bytes; above 213 it returns [ErrTooLong]. *)
Theorem encode_scans (data : list Z) : Forall is_byte data ->
  if decide (length data <= MaxBytes)%nat then
    exists c, Encode data = Some (inr c) /\ smallest_version (length data) (Version c)
      /\ Size c = side (Version c) /\ scan_symbol (code_modules c) = Some data
  else Encode data = Some (inl ErrTooLong).
Proof.
  intros Hd. destruct (decide _) as [Hl|Hl].
  - by apply Encode_scan.
  - unfold Encode, pick_version.
    destruct (List.find _ (seq 1 10)) as [v|] eqn:E; [|done]. exfalso. apply Hl.
    apply List.find_some in E as [Hi Hf]. rewrite bool_decide_eq_true in Hf. apply in_seq in Hi.
    assert (nth v byteCapacity 0 <= MaxBytes)%nat; [|lia]. unfold MaxBytes.
    do 11 (destruct v as [|v]; [simpl; lia|]). lia.
Qed.

Lemma encode_scans_witness :
  let data := [68; 105; 97; 108] in
  exists c, Encode data = Some (inr c) /\ smallest_version (length data) (Version c)
    /\ Size c = side (Version c) /\ scan_symbol (code_modules c) = Some data.
Proof.
  apply (encode_scans [68; 105; 97; 108]). repeat constructor; done.
Defined.

(** the mask of the symbol returned scores least among the eight, and is
    the first that does: the format bits the earlier turns left behind do not
    disturb a later turn's score, and no score is negative, which is what the
    loop's initial [-1] relies on. *)
Theorem encode_mask_is_best (data : list Z) (c : Code) :
  Forall is_byte data -> Encode data = Some (inr c) ->
  exists g h, codeword_grid (Version c) data = Some g /\ finish (Mask c) g = Some h
    /\ code_modules c = modules h /\ 0 <= Mask c < 8 /\ 0 <= penalty h
    /\ forall m, 0 <= m < 8 -> exists h', finish m g = Some h'
       /\ penalty h <= penalty h' /\ (m < Mask c -> penalty h < penalty h').
Proof.
  intros Hd E. destruct (decide (length data <= MaxBytes)%nat) as [Hl|Hl].
  - destruct (Encode_spec data Hd Hl) as (v&g0&best&h&Hsm&Hcg&Hg0&Hc&Hb&Hh&E').
    rewrite E in E'. injection E' as ->. exists g0, h.
    destruct Hb as [Hb Hmin]. pose proof (score_nonneg v (proj1 Hsm) g0 best Hg0 Hb) as Hnn.
    unfold score in Hmin, Hnn. rewrite Hh in *.
    do 5 (split; [done|]). intros m Hm.
    destruct (finish_ok v (proj1 Hsm) m g0 Hg0 Hm) as (h'&Eh'&_). exists h'. split; [done|].
    specialize (Hmin m Hm). rewrite Eh' in Hmin. done.
  - exfalso. unfold Encode in E. destruct (pick_version (length data)) as [v|] eqn:Ev; [|done].
    apply Hl. apply List.find_some in Ev as [Hi Hf]. rewrite bool_decide_eq_true in Hf.
    apply in_seq in Hi. unfold MaxBytes.
    assert (nth v byteCapacity 0 <= 213)%nat; [|lia]. do 11 (destruct v as [|v]; [simpl; lia|]). lia.
Qed.

Lemma encode_mask_is_best_witness : exists c, Encode [72; 101; 108] = Some (inr c) /\ Mask c = 2
  /\ exists g h, codeword_grid (Version c) [72; 101; 108] = Some g /\ finish (Mask c) g = Some h
    /\ code_modules c = modules h /\ 0 <= Mask c < 8 /\ 0 <= penalty h
    /\ forall m, 0 <= m < 8 -> exists h', finish m g = Some h'
       /\ penalty h <= penalty h' /\ (m < Mask c -> penalty h < penalty h').
Proof.
  eexists. split; [vm_compute; reflexivity|]. split; [reflexivity|].
  apply encode_mask_is_best; [repeat constructor; done|vm_compute; reflexivity].
Defined.

(** every fixed pattern of the symbol is the standard's: the three finders
    with their separators, the timing patterns, the alignment patterns, the
    dark module and (from version 7) both copies of the version word, whatever
    the payload and the mask. *)
Theorem encode_fixed_patterns (data : list Z) (c : Code) (x y : Z) (b : bool) :
  Forall is_byte data -> (length data <= MaxBytes)%nat -> Encode data = Some (inr c) ->
  0 <= x < Size c -> 0 <= y < Size c -> expected (Version c) x y = Some b ->
  cell (code_modules c) x y = Some b.
Proof.
  intros Hd Hl E Hx Hy Ex. destruct (Encode_spec data Hd Hl) as (v&g0&best&h&Hsm&_&Hg0&Hc&Hb&Hh&E').
  rewrite E in E'. injection E' as ->. simpl in *.
  apply (finished_patterns v (proj1 Hsm) data g0 h best (proj1 Hb) Hg0 Hc Hh); [|done].
  unfold inside. lia.
Qed.

Lemma encode_fixed_patterns_witness : exists c, Encode [72] = Some (inr c)
  /\ expected (Version c) 0 20 = Some true /\ cell (code_modules c) 0 20 = Some true.
Proof.
  eexists. split; [vm_compute; reflexivity|]. split; [vm_compute; reflexivity|].
  apply (encode_fixed_patterns [72]); [repeat constructor; done|vm_compute; lia
    |vm_compute; reflexivity|simpl; lia|simpl; lia|vm_compute; reflexivity].
Defined.
