(* ===== verification/QrSvg.v ===== *)
(** Reading modules and drawing the QR symbol (src/server/internal/qr/qr.go:
    [Code.At], [Code.SVG]): the SVG's rectangles cover exactly the dark
    modules. *)

From stdpp Require Import pretty.
From S2P Require Import Prelude QrField QrBits QrGrid QrSymbol.
Open Scope Z_scope.

Definition quietZone : Z := 4.

(** [None] is the index panic on a code whose rows are shorter than [Size]. *)
Definition At (c : Code) (x y : Z) : option bool :=
  if decide (x < 0 \/ y < 0 \/ Size c <= x \/ Size c <= y) then Some false
  else cell (code_modules c) x y.

(** The runs of dark modules of a row, from column [x] on: start and length. *)
Fixpoint svg_row (fuel : nat) (row : list bool) (x : Z) : list (Z * Z) :=
  match fuel, row with
  | S fuel', b :: row' =>
      if negb b then svg_row fuel' row' (x + 1)
      else let run := run_length true row in
           (x, Z.of_nat run) :: svg_row fuel' (drop run row) (x + Z.of_nat run)
  | _, _ => []
  end.

(** Column, row and length of each rectangle, in the order they are written. *)
Definition svg_rects (c : Code) : list (Z * Z * Z) :=
  concat (imap (fun y row => map (fun xr => (fst xr, Z.of_nat y, snd xr)) (svg_row (length row) row 0))
    (code_modules c)).

Definition svg_path (r : Z * Z * Z) : string :=
  let '(x, y, run) := r in
  ("M" +:+ pretty (x + quietZone) +:+ " " +:+ pretty (y + quietZone) +:+ "h" +:+ pretty run
   +:+ "v1h-" +:+ pretty run +:+ "z")%string.

(** The double quote, which the templates are full of. *)
Definition dq : string := String (Ascii.ascii_of_N 34) EmptyString.

Definition attr (name value : string) : string := (" " +:+ name +:+ "=" +:+ dq +:+ value +:+ dq)%string.

Definition SVG (c : Code) : string :=
  let n := pretty (Size c + 2 * quietZone) in
  ("<svg" +:+ attr "xmlns" "http://www.w3.org/2000/svg" +:+ attr "viewBox" ("0 0 " +:+ n +:+ " " +:+ n)
   +:+ attr "shape-rendering" "crispEdges" +:+ attr "role" "img" +:+ "><rect" +:+ attr "width" n
   +:+ attr "height" n +:+ attr "fill" "#fff" +:+ "/><path" +:+ attr "fill" "#000"
   +:+ " d=" +:+ dq +:+ foldr (fun r s => svg_path r +:+ s) "" (svg_rects c) +:+ dq +:+ "/></svg>")%string.

Lemma run_length_spec b row :
  (run_length b row <= length row)%nat
  /\ (forall i, (i < run_length b row)%nat -> row !! i = Some b)
  /\ row !! run_length b row <> Some b.
Proof.
  induction row as [|c row (IH1&IH2&IH3)]; simpl; [repeat split; [lia|lia|done]|].
  case_decide as Hc; simpl; [|split; [lia|split; [lia|congruence]]].
  split; [lia|]. split; [|done]. intros [|i] Hi; [by subst|]. apply IH2. lia.
Qed.

(** A position of the row is in a run exactly if its module is dark. *)
Lemma svg_row_covers fuel : forall row x i, (length row <= fuel)%nat ->
  (exists s r, (s, r) ∈ svg_row fuel row x /\ s <= x + Z.of_nat i < s + r) <-> row !! i = Some true.
Proof.
  induction fuel as [|fuel IH]; intros row x i Hl.
  { destruct row; [|simpl in Hl; lia]. simpl. split; [intros (?&?&H&_); set_solver|done]. }
  destruct row as [|b row]; simpl.
  { split; [intros (?&?&H&_); set_solver|done]. }
  assert (forall fuel row x s r, (s, r) ∈ svg_row fuel row x -> x <= s) as Hstart.
  { clear. induction fuel as [|fuel IH]; intros [|b row] x s r H; simpl in H; try by (apply elem_of_nil in H).
    destruct b; simpl in H.
    - apply elem_of_cons in H as [[= -> ->]|H]; [lia|]. apply IH in H. lia.
    - apply IH in H. lia. }
  destruct b; simpl.
  - set (run := run_length true row).
    destruct (run_length_spec true row) as (Hr1&Hr2&Hr3). fold run in Hr1, Hr2, Hr3.
    destruct (decide (i < S run)%nat) as [Hi|Hi].
    + split.
      * intros _. destruct i as [|i]; [done|]. apply Hr2. lia.
      * intros _. exists x, (Z.of_nat (S run)). split; [by left|lia].
    + assert ((true :: row) !! i = row !! (run + (i - S run))%nat) as ->
        by (destruct i as [|i']; [lia|]; simpl; f_equal; lia).
      rewrite <- lookup_drop, <- (IH _ (x + Z.of_nat (S run)) (i - S run)%nat) by (rewrite length_drop; simpl in Hl; lia).
      split.
      * intros (s&r&[[= -> ->]|H]%elem_of_cons&Hb); [lia|]. exists s, r. split; [done|lia].
      * intros (s&r&H&Hb). exists s, r. split; [by right|lia].
  - destruct i as [|i].
    + split; [|done]. intros (s&r&H&Hb). apply Hstart in H. lia.
    + cbn [lookup list_lookup]. rewrite <- (IH row (x + 1) i) by (simpl in Hl; lia).
      split; intros (s&r&H&Hb); exists s, r; (split; [done|lia]).
Qed.

(** the drawing is the symbol: a module of a square code is dark exactly if
    one of the rectangles that [SVG] writes covers it (one row high, its run
    wide), and [At] reports that module. *)
Theorem svg_covers_dark_modules (c : Code) (x y : Z) :
  square (Z.to_nat (Size c)) (code_modules c) -> 0 <= x < Size c -> 0 <= y < Size c ->
  At c x y = Some true <->
  exists x0 run, (x0, y, run) ∈ svg_rects c /\ x0 <= x < x0 + run.
Proof.
  intros Hsq Hx Hy. unfold At. rewrite decide_False by lia.
  replace x with (Z.of_nat (Z.to_nat x)) by lia. replace y with (Z.of_nat (Z.to_nat y)) by lia.
  rewrite cell_nat. set (i := Z.to_nat x). set (j := Z.to_nat y).
  destruct (lookup_lt_is_Some_2 (code_modules c) j) as [row Erow]; [rewrite (proj1 Hsq); lia|].
  rewrite Erow. simpl. rewrite <- (svg_row_covers (length row) row 0 i) by done. unfold svg_rects.
  split.
  - intros (s&r&Hin&Hb). exists s, r. split; [|lia].
    rewrite list_elem_of_In, in_concat. eexists. split.
    + apply list_elem_of_In, list_elem_of_lookup_2 with j.
      rewrite list_lookup_imap, Erow. reflexivity.
    + apply in_map_iff. exists (s, r). split; [done|]. by apply list_elem_of_In.
  - intros (s&r&Hin&Hb). rewrite list_elem_of_In, in_concat in Hin. destruct Hin as (l&Hl&Hin).
    apply list_elem_of_In, list_elem_of_lookup_1 in Hl as [k Hk].
    rewrite list_lookup_imap in Hk. destruct (code_modules c !! k) as [row'|] eqn:E'; simplify_eq/=.
    apply in_map_iff in Hin as ([s' r']&[= -> E ->]&Hin). assert (k = j) as -> by lia. simplify_eq.
    exists s, r. split; [by apply list_elem_of_In|lia].
Qed.

Lemma svg_covers_dark_modules_witness :
  let c := mkCode 1 2 0 [[true; false]; [true; true]] in
  svg_rects c = [(0, 0, 1); (0, 1, 2)] /\
  (At c 1 1 = Some true <-> exists x0 run, (x0, 1, run) ∈ svg_rects c /\ x0 <= 1 < x0 + run).
Proof.
  split; [vm_compute; reflexivity|]. apply (svg_covers_dark_modules (mkCode 1 2 0 [[true; false]; [true; true]]) 1 1).
  - split; [reflexivity|]. repeat constructor.
  - simpl; lia.
  - simpl; lia.
Defined.
