(* ===== verification/Wire.v ===== *)
(** The client protocol (src/server/internal/wire/wire.go, frame.go): the
    envelope and its checks, the message bodies, the length-prefixed framing.
    [encoding/json] is not modelled: the frame operations take its marshal and
    unmarshal as arguments. *)

From S2P Require Import Prelude.
Open Scope Z_scope.

(** ** Messages *)

Definition WireVersion : Z := 1.

(** A message type is a string on the wire; these are the defined ones. *)
Definition TypeHello : string := "hello".
Definition TypePing : string := "ping".
Definition TypeWakeAck : string := "wake_ack".
Definition TypeWelcome : string := "welcome".
Definition TypePong : string := "pong".
Definition TypeWake : string := "wake".
Definition TypeWakeCancel : string := "wake_cancel".
Definition TypeDirectoryChanged : string := "directory_changed".
Definition TypeConfig : string := "config".
Definition TypeError : string := "error".

Definition knownTypes : gset string :=
  {[ TypeHello; TypePing; TypeWakeAck; TypeWelcome; TypePong; TypeWake; TypeWakeCancel;
     TypeDirectoryChanged; TypeConfig; TypeError ]}.

Definition Known (t : string) : bool := bool_decide (t ∈ knownTypes).

Record Envelope := mkEnvelope {
  V : Z;
  Type_ : string;
  ID : string;
  TS : Z;
  Body : list Z;
}.

#[export] Instance Envelope_eq_dec : EqDecision Envelope.
Proof. solve_decision. Defined.

Inductive validate_error := ErrUnsupportedVersion (v : Z) | ErrMissingType | ErrMissingID.

(** [None] is the nil error. *)
Definition Validate (e : Envelope) : option validate_error :=
  if decide (V e <> WireVersion) then Some (ErrUnsupportedVersion (V e))
  else if decide (Type_ e = "") then Some ErrMissingType
  else if decide (ID e = "") then Some ErrMissingID
  else None.

Inductive ClientKind := ClientApp | ClientExtension.

Record Hello := mkHello {
  DeviceID : string;
  Token : string;
  Client : string;
  AppVersion : string;
  Capabilities : list string;
}.

Record SIPAccount := mkSIPAccount {
  acc_User : string;
  acc_Domain : string;
  acc_Host : string;
  acc_Port : Z;
  acc_Transport : string;
}.

Record DeviceConfig := mkDeviceConfig {
  cfg_Version : Z;
  SSIDs : list string;
}.

Record Welcome := mkWelcome {
  SessionID : string;
  HeartbeatSeconds : Z;
  ServerTime : Z;
  DirectoryVersion : Z;
  SIP : option SIPAccount;
  Config : option DeviceConfig;
  Licence : string;
}.

Record Party := mkParty { DisplayName : string; URI : string }.

Record SIPTarget := mkSIPTarget { tgt_Host : string; tgt_Port : Z; tgt_Transport : string }.

Record Wake := mkWake {
  wake_CallID : string;
  From : Party;
  To : Party;
  wake_SIP : SIPTarget;
  ExpiresAt : Z;
}.

Inductive WakeAction := WakeWillAnswer | WakeDecline | WakeBusy.
Record WakeAck := mkWakeAck { ack_CallID : string; Action : string }.

Inductive CancelReason := CancelCallerHangup | CancelAnsweredElsewhere | CancelTimeout.
Record WakeCancel := mkWakeCancel { cancel_CallID : string; Reason : CancelReason }.

Record DirectoryChanged := mkDirectoryChanged { dc_Version : Z }.

Inductive ErrorCode :=
  CodeUnsupportedVersion | CodeBadFrame | CodeHelloExpected | CodeUnauthorized
  | CodeSuperseded | CodeIdleTimeout | CodeUnknownCall.

Record Error := mkError { Code : ErrorCode; Message : string; Fatal : bool }.

(** ** Frames *)

Definition MaxFrameSize : Z := 64 * 1024.

(** The four bytes of [binary.BigEndian.PutUint32], and their value. *)
Definition put_uint32 (n : Z) : list Z :=
  [Z.land (Z.shiftr n 24) 255; Z.land (Z.shiftr n 16) 255; Z.land (Z.shiftr n 8) 255; Z.land n 255].

Definition get_uint32 (b : list Z) : Z :=
  match b with
  | [b0; b1; b2; b3] => Z.lor (Z.lor (Z.shiftl b0 24) (Z.shiftl b1 16)) (Z.lor (Z.shiftl b2 8) b3)
  | _ => 0
  end.

Inductive frame_error :=
  | EOF                   (* the stream ended between frames *)
  | ErrHeader             (* ... inside a length prefix *)
  | ErrPayload            (* ... inside a payload *)
  | ErrFrameTooLarge
  | ErrMarshal
  | ErrDecode.

(** [io.ReadFull] of [n] bytes: the bytes and what is left, or whether any
    byte was read before the stream ended. *)
Definition ReadFull (n : nat) (r : list Z) : bool + (list Z * list Z) :=
  if decide (n <= length r)%nat then inr (take n r, drop n r)
  else inl (bool_decide (r <> [])).

Section framing.
Context (marshal : Envelope -> option (list Z)) (unmarshal : list Z -> option Envelope).

(** The bytes handed to the writer. *)
Definition WriteFrame (e : Envelope) : frame_error + list Z :=
  match marshal e with
  | None => inl ErrMarshal
  | Some payload =>
      if decide (MaxFrameSize < zlen payload) then inl ErrFrameTooLarge
      else inr (put_uint32 (u32 (zlen payload)) ++ payload)
  end.

(** The result and the unread rest of the stream. *)
Definition ReadFrame (r : list Z) : (frame_error + Envelope) * list Z :=
  match ReadFull 4 r with
  | inl false => (inl EOF, [])
  | inl true => (inl ErrHeader, [])
  | inr (hdr, r) =>
      let n := get_uint32 hdr in
      if decide (MaxFrameSize < n) then (inl ErrFrameTooLarge, r) else
      match ReadFull (Z.to_nat n) r with
      | inl _ => (inl ErrPayload, [])
      | inr (payload, r) =>
          match unmarshal payload with
          | None => (inl ErrDecode, r)
          | Some e => (inr e, r)
          end
      end
  end.

(** A receiver's loop: frames until the first error. *)
Fixpoint read_frames (fuel : nat) (r : list Z) : list Envelope * option frame_error :=
  match fuel with
  | O => ([], None)
  | S fuel' =>
      match ReadFrame r with
      | (inl err, _) => ([], Some err)
      | (inr e, r') => let '(es, err) := read_frames fuel' r' in (e :: es, err)
      end
  end.

Lemma get_put_uint32 n : 0 <= n < 2 ^ 32 -> get_uint32 (put_uint32 n) = n.
Proof.
  intros Hn. cbn [get_uint32 put_uint32].
  apply Z.bits_inj'. intros i Hi.
  assert (forall m k, 0 <= m -> 0 <= k -> Z.testbit (Z.land m 255) k = Z.testbit m k && (k <? 8)) as Hb.
  { intros m k Hm Hk. rewrite Z.land_spec. f_equal. change 255 with (Z.ones 8).
    destruct (Z.ltb_spec k 8); [apply Z.ones_spec_low|apply Z.ones_spec_high]; lia. }
  assert (32 <= i -> Z.testbit n i = false) as Hhigh.
  { intros. destruct (decide (n = 0)) as [->|]; [apply Z.testbit_0_l|].
    apply Z.bits_above_log2; [lia|]. apply Z.lt_le_trans with 32; [apply Z.log2_lt_pow2; lia|done]. }
  rewrite !Z.lor_spec.
  destruct (decide (i < 8)) as [H8|H8].
  { rewrite !Z.shiftl_spec_low, Hb by lia. simpl. rewrite (proj2 (Z.ltb_lt i 8)) by lia.
    by rewrite andb_true_r. }
  assert (forall s, 8 <= s -> s <= i -> Z.testbit (Z.shiftl (Z.land (Z.shiftr n s) 255) s) i
    = Z.testbit n i && (i - s <? 8)) as Hmid.
  { intros s Hs Hsi. rewrite Z.shiftl_spec, Hb by (try apply Z.shiftr_nonneg; lia).
    rewrite Z.shiftr_spec by lia. by replace (i - s + s) with i by lia. }
  rewrite (Hb n i) by lia. rewrite (proj2 (Z.ltb_ge i 8)), andb_false_r, orb_false_r by lia.
  rewrite (Hmid 8) by lia.
  destruct (decide (i < 16)) as [H16|H16].
  { rewrite !Z.shiftl_spec_low by lia. simpl. rewrite (proj2 (Z.ltb_lt (i - 8) 8)) by lia.
    by rewrite andb_true_r. }
  rewrite (Hmid 16), (proj2 (Z.ltb_ge (i - 8) 8)), andb_false_r, orb_false_r by lia.
  destruct (decide (i < 24)) as [H24|H24].
  { rewrite !Z.shiftl_spec_low by lia. simpl. rewrite (proj2 (Z.ltb_lt (i - 16) 8)) by lia.
    by rewrite andb_true_r. }
  rewrite (Hmid 24), (proj2 (Z.ltb_ge (i - 16) 8)), andb_false_r, orb_false_r by lia.
  destruct (decide (i < 32)) as [H32|H32].
  { rewrite (proj2 (Z.ltb_lt (i - 24) 8)) by lia. by rewrite andb_true_r. }
  by rewrite Hhigh by lia.
Qed.

Lemma get_uint32_nonneg b : Forall (fun b => 0 <= b < 256) b -> 0 <= get_uint32 b.
Proof.
  intros Hb. unfold get_uint32.
  destruct b as [|b0 [|b1 [|b2 [|b3 [|]]]]]; try lia.
  rewrite !Forall_cons in Hb. destruct Hb as (?&?&?&?&_).
  repeat (apply Z.lor_nonneg; split); try (apply Z.shiftl_nonneg); lia.
Qed.

Lemma ReadFull_app n a r : n = length a -> ReadFull n (a ++ r) = inr (a, r).
Proof.
  intros ->. unfold ReadFull. rewrite decide_True by (rewrite length_app; lia).
  by rewrite take_app_length, drop_app_length.
Qed.

(** What a written frame is. *)
Lemma WriteFrame_inv e f : WriteFrame e = inr f ->
  exists p, marshal e = Some p /\ zlen p <= MaxFrameSize /\ f = put_uint32 (zlen p) ++ p.
Proof.
  unfold WriteFrame. destruct (marshal e) as [p|]; [|done]. case_decide as H; [done|].
  assert (u32 (zlen p) = zlen p) as -> by (apply wrapu_small; unfold MaxFrameSize, zlen in *; lia).
  intros [= <-]. exists p. split; [done|]. split; [lia|done].
Qed.

Lemma ReadFrame_frame p r : zlen p <= MaxFrameSize ->
  ReadFrame ((put_uint32 (zlen p) ++ p) ++ r) =
  (match unmarshal p with None => inl ErrDecode | Some e => inr e end, r).
Proof.
  intros Hp. unfold ReadFrame. rewrite <- app_assoc, (ReadFull_app 4) by done.
  rewrite get_put_uint32 by (unfold MaxFrameSize, zlen in *; lia).
  rewrite decide_False by lia. rewrite ReadFull_app by (unfold zlen; lia).
  by destruct (unmarshal p).
Qed.

(** A frame cut short anywhere but between frames is an error, never a message. *)
Lemma ReadFrame_cut p k : zlen p <= MaxFrameSize -> (0 < k < 4 + length p)%nat ->
  ReadFrame (take k (put_uint32 (zlen p) ++ p)) =
  (inl (if decide (k < 4)%nat then ErrHeader else ErrPayload), []).
Proof.
  intros Hp Hk. unfold ReadFrame.
  assert (length (put_uint32 (zlen p)) = 4)%nat as H4 by done.
  case_decide as Hk4.
  - unfold ReadFull at 1. rewrite take_app_le by lia. rewrite length_take.
    rewrite decide_False by lia.
    rewrite bool_decide_eq_true_2; [done|]. intros E%(f_equal length).
    rewrite length_take in E. simpl in E. lia.
  - rewrite take_app_ge by lia. rewrite (ReadFull_app 4) by done.
    rewrite get_put_uint32 by (unfold MaxFrameSize, zlen in *; lia).
    rewrite decide_False by lia. unfold ReadFull. rewrite decide_False; [done|].
    rewrite length_take, H4. unfold zlen. lia.
Qed.

(** framing loses nothing and invents nothing: the concatenation of the
    frames written for any envelopes, cut at any byte inside one more frame,
    reads as exactly those envelopes in order, then as the clean end of stream
    if the cut is at the frame boundary and as a truncation error if it is
    inside the frame (whatever the payload bytes are). *)
Theorem frames_roundtrip (es : list (Envelope * list Z)) (last : list Z) (k : nat) :
  (forall e f, (e, f) ∈ es -> WriteFrame e = inr f
     /\ forall p, marshal e = Some p -> unmarshal p = Some e) ->
  zlen last <= MaxFrameSize -> (k < 4 + length last)%nat ->
  read_frames (S (length es)) (concat (map snd es) ++ take k (put_uint32 (zlen last) ++ last)) =
  (map fst es, Some (if decide (k = 0)%nat then EOF
                     else if decide (k < 4)%nat then ErrHeader else ErrPayload)).
Proof.
  intros Hes Hlast Hk. induction es as [|[e f] es IH].
  - cbn [map concat length read_frames app]. case_decide as H0.
    + subst k. rewrite take_0. done.
    + rewrite ReadFrame_cut by (done || lia). done.
  - destruct (Hes e f ltac:(by left)) as [Hw Hu]. apply WriteFrame_inv in Hw as (p&Hm&Hp&->).
    cbn [map concat length snd fst]. change (read_frames (S (S (length es)))) with
      (fun r => match ReadFrame r with
                | (inl err, _) => ([], Some err)
                | (inr e, r') => let '(es0, err) := read_frames (S (length es)) r' in (e :: es0, err)
                end). cbv beta.
    rewrite <- app_assoc, ReadFrame_frame, (Hu p Hm) by done.
    rewrite IH; [done|]. intros e' f' Hi. apply Hes. by right.
Qed.

(** a receiver's memory is bounded by the prefix check: whatever bytes
    arrive, [ReadFrame] consumes at most the prefix and 64 KiB; a prefix above
    the limit is refused after its four bytes; and a delivered envelope is the
    decoding of at most 64 KiB that follow their own length. *)
Theorem read_frame_bounded (r : list Z) : Forall (fun b => 0 <= b < 256) r ->
  let '(res, r') := ReadFrame r in
  match res with
  | inr e => exists hdr p, r = hdr ++ p ++ r' /\ length hdr = 4%nat /\ get_uint32 hdr = zlen p
      /\ zlen p <= MaxFrameSize /\ unmarshal p = Some e
  | inl ErrFrameTooLarge => exists hdr, r = hdr ++ r' /\ length hdr = 4%nat /\ MaxFrameSize < get_uint32 hdr
  | inl ErrDecode => exists hdr p, r = hdr ++ p ++ r' /\ length hdr = 4%nat /\ zlen p <= MaxFrameSize
      /\ unmarshal p = None
  | inl EOF => r = []
  | inl ErrHeader => (0 < length r < 4)%nat
  | inl ErrPayload => exists hdr p, r = hdr ++ p /\ length hdr = 4%nat
      /\ zlen p < get_uint32 hdr <= MaxFrameSize
  | inl ErrMarshal => False
  end.
Proof.
  intros Hbytes. unfold ReadFrame, ReadFull at 1. destruct (decide (4 <= length r)%nat) as [H4|H4].
  - set (hdr := take 4 r). assert (length hdr = 4)%nat as Hh by (unfold hdr; rewrite length_take; lia).
    destruct (decide (MaxFrameSize < get_uint32 hdr)) as [Hb|Hb].
    { exists hdr. unfold hdr. by rewrite take_drop. }
    assert (Hr : r = hdr ++ drop 4 r) by (unfold hdr; by rewrite take_drop).
    assert (0 <= get_uint32 hdr) as Hnn by (by apply get_uint32_nonneg, Forall_take).
    unfold ReadFull. destruct (decide (Z.to_nat (get_uint32 hdr) <= length (drop 4 r))%nat) as [Hn|Hn].
    + set (p := take (Z.to_nat (get_uint32 hdr)) (drop 4 r)).
      assert (drop 4 r = p ++ drop (Z.to_nat (get_uint32 hdr)) (drop 4 r)) as Hp by (unfold p; by rewrite take_drop).
      assert (zlen p = Z.max 0 (get_uint32 hdr)) as Hlp by (unfold p, zlen; rewrite length_take; lia).
      destruct (unmarshal p) as [e|] eqn:Eu.
      * exists hdr, p. rewrite <- Hp. split; [done|]. split; [done|].
        split; [|split; [unfold MaxFrameSize in *; lia|done]].
        lia.
      * exists hdr, p. rewrite <- Hp. split; [done|]. split; [done|]. split; [unfold MaxFrameSize in *; lia|done].
    + exists hdr, (drop 4 r). split; [done|]. split; [done|]. unfold zlen. lia.
  - destruct (decide (r = [])) as [->|Hr].
    + rewrite bool_decide_eq_false_2 by auto. done.
    + rewrite bool_decide_eq_true_2 by done. destruct r; [done|]. simpl in *. lia.
Qed.
End framing.

Lemma frames_roundtrip_witness :
  let e := mkEnvelope 1 TypePing "x" 0 [] in
  let marshal := fun _ : Envelope => Some [123; 125] in
  let unmarshal := fun _ : list Z => Some e in
  WriteFrame marshal e = inr [0; 0; 0; 2; 123; 125]
  /\ read_frames unmarshal 3 [0; 0; 0; 2; 123; 125; 0; 0; 0; 2; 123; 125; 0; 0; 0] = ([e; e], Some ErrHeader).
Proof.
  split; [reflexivity|].
  apply (frames_roundtrip (fun _ => Some [123; 125]) (fun _ => Some (mkEnvelope 1 TypePing "x" 0 []))
    [(mkEnvelope 1 TypePing "x" 0 [], [0; 0; 0; 2; 123; 125]);
     (mkEnvelope 1 TypePing "x" 0 [], [0; 0; 0; 2; 123; 125])] [1] 3).
  - intros e f [[= -> ->]|[[= -> ->]|H%elem_of_nil]%elem_of_cons]%elem_of_cons; [| |done]; (split; [reflexivity|done]).
  - vm_compute. discriminate.
  - simpl. lia.
Defined.

Lemma read_frame_bounded_witness : let r := [0; 1; 0; 1; 9] in
  let '(res, r') := ReadFrame (fun _ => None) r in
  match res with
  | inr e => exists hdr p, r = hdr ++ p ++ r' /\ length hdr = 4%nat /\ get_uint32 hdr = zlen p
      /\ zlen p <= MaxFrameSize /\ None = Some e
  | inl ErrFrameTooLarge => exists hdr, r = hdr ++ r' /\ length hdr = 4%nat /\ MaxFrameSize < get_uint32 hdr
  | inl ErrDecode => exists hdr p, r = hdr ++ p ++ r' /\ length hdr = 4%nat /\ zlen p <= MaxFrameSize
      /\ @None Envelope = None
  | inl EOF => r = []
  | inl ErrHeader => (0 < length r < 4)%nat
  | inl ErrPayload => exists hdr p, r = hdr ++ p /\ length hdr = 4%nat
      /\ zlen p < get_uint32 hdr <= MaxFrameSize
  | inl ErrMarshal => False
  end.
Proof. apply (read_frame_bounded (fun _ => None)). repeat constructor; lia. Defined.
