(* ===== verification/SipMsg.v ===== *)
(** SIP messages (src/server/internal/sip/message.go): headers and their
    case-insensitive access, serialising, reading one message from a stream,
    the parts of an address, the expiry a REGISTER asks for.

    A message is a value: [Set] and [Del] filter the header slice in place in
    the code, which writes at an index no greater than the one being read, so
    the message the method returns to its caller is the one modelled here;
    copies of a message that share the slice are not modelled. *)

From S2P Require Import Prelude Text.
Open Scope Z_scope.

Record Header := mkHeader { Name : text; Value : text }.

Record Message := mkMessage {
  IsRequest : bool;
  Method : text;
  RequestURI : text;
  StatusCode : Z;
  Reason : text;
  Headers : list Header;
  Body : text;
}.

#[export] Instance Header_eq_dec : EqDecision Header.
Proof. solve_decision. Defined.

(** ** Header access *)

Definition compact : list (text * text) :=
  [(T "v", T "Via"); (T "f", T "From"); (T "t", T "To"); (T "i", T "Call-ID"); (T "m", T "Contact");
   (T "l", T "Content-Length"); (T "c", T "Content-Type"); (T "s", T "Subject"); (T "k", T "Supported");
   (T "e", T "Content-Encoding")].

Definition canonicalName (n : text) : text :=
  let n := TrimSpace n in
  match List.find (fun kv => bool_decide (fst kv = ToLower n)) compact with
  | Some (_, c) => c
  | None => n
  end.

Definition names (want : text) (h : Header) : bool := EqualFold (Name h) want.

Definition Get (m : Message) (name : text) : text :=
  match List.find (names (canonicalName name)) (Headers m) with Some h => Value h | None => [] end.

Definition Values (m : Message) (name : text) : list text :=
  map Value (List.filter (names (canonicalName name)) (Headers m)).

Definition with_headers (m : Message) (hs : list Header) : Message :=
  mkMessage (IsRequest m) (Method m) (RequestURI m) (StatusCode m) (Reason m) hs (Body m).

(** The loop of [Set]: the headers kept and whether the value was placed. *)
Fixpoint set_loop (want value : text) (placed : bool) (hs : list Header) : list Header * bool :=
  match hs with
  | [] => ([], placed)
  | h :: hs' =>
      if names want h then
        if placed then set_loop want value placed hs'
        else let '(kept, p) := set_loop want value true hs' in (mkHeader want value :: kept, p)
      else let '(kept, p) := set_loop want value placed hs' in (h :: kept, p)
  end.

Definition Set_ (m : Message) (name value : text) : Message :=
  let want := canonicalName name in
  let '(kept, placed) := set_loop want value false (Headers m) in
  with_headers m (if placed then kept else kept ++ [mkHeader want value]).

Definition Add (m : Message) (name value : text) : Message :=
  with_headers m (Headers m ++ [mkHeader (canonicalName name) value]).

Definition Del (m : Message) (name : text) : Message :=
  with_headers m (List.filter (fun h => negb (names (canonicalName name) h)) (Headers m)).

(** [strings.Fields] *)
Fixpoint fields_from (cur s : text) : list text :=
  match s with
  | [] => match cur with [] => [] | _ => [cur] end
  | c :: s' =>
      if is_space c then match cur with [] => fields_from [] s' | _ => cur :: fields_from [] s' end
      else fields_from (cur ++ [c]) s'
  end.

Definition Fields (s : text) : list text := fields_from [] s.

Definition CSeq (m : Message) : Z * text :=
  match Fields (Get m (T "CSeq")) with
  | [n; meth] => (default 0 (Atoi n), meth)
  | _ => (0, [])
  end.

(** ** Serialising *)

Definition CR : Ascii.ascii := Ascii.ascii_of_N 13.
Definition LF : Ascii.ascii := Ascii.ascii_of_N 10.
Definition SP : Ascii.ascii := " "%char.
Definition crlf : text := [CR; LF].

Definition is_content_length (h : Header) : bool := EqualFold (Name h) (T "Content-Length").

Definition start_line (m : Message) : text :=
  if IsRequest m then Method m ++ [SP] ++ RequestURI m ++ T " SIP/2.0"
  else T "SIP/2.0 " ++ Itoa (StatusCode m) ++ [SP] ++ Reason m.

Definition header_line (h : Header) : text := Name h ++ T ": " ++ Value h.

Definition length_header (m : Message) : Header := mkHeader (T "Content-Length") (Itoa (zlen (Body m))).

Definition lines (ls : list text) : text := concat (map (fun l => l ++ crlf) ls).

Definition Bytes (m : Message) : text :=
  lines (start_line m :: map header_line (List.filter (fun h => negb (is_content_length h)) (Headers m)))
  ++ header_line (length_header m) ++ crlf ++ crlf ++ Body m.

(** ** Reading *)

Inductive read_error :=
  | EOF | ErrUnexpectedEOF | ErrBadStartLine | ErrBadHeader | ErrBadContentLength | ErrReadBody.

(** [strings.TrimRight(line, "\r\n")] *)
Definition trim_eol (s : text) : text :=
  rev ((fix go (s : text) := match s with
        | c :: s' => if bool_decide (c = CR \/ c = LF) then go s' else s
        | [] => [] end) (rev s)).

(** A line and the rest of the stream. *)
Definition readLine (r : text) : read_error + (text * text) :=
  match Cut r LF with
  | None => inl (if decide (r = []) then EOF else ErrUnexpectedEOF)
  | Some (line, rest) => inr (trim_eol line, rest)
  end.

(** The first line that is not empty; each turn consumes at least a byte, so
    fuel beyond the stream's length is never used up. *)
Fixpoint read_start (fuel : nat) (r : text) : read_error + (text * text) :=
  match fuel with
  | O => inl EOF
  | S fuel' =>
      match readLine r with
      | inl e => inl e
      | inr (line, r') => if decide (line = []) then read_start fuel' r' else inr (line, r')
      end
  end.

Definition parse_start (start : text) : option Message :=
  if has_prefix_t (T "SIP/2.0 ") start then
    match SplitN3 start SP with
    | _ :: code :: rest =>
        c ← Atoi code;
        if decide (c < 100 \/ 699 < c) then None
        else Some (mkMessage false [] [] c (match rest with [reason] => reason | _ => [] end) [] [])
    | _ => None
    end
  else
    match SplitN3 start SP with
    | [meth; uri; proto] =>
        if decide (proto = T "SIP/2.0") then Some (mkMessage true meth uri 0 [] [] []) else None
    | _ => None
    end.

(** The header lines up to the empty one: the headers read, the last
    Content-Length (-1 if none) and the rest of the stream. *)
Fixpoint read_headers (fuel : nat) (r : text) (hs : list Header) (cl : Z)
    : read_error + (list Header * Z * text) :=
  match fuel with
  | O => inl EOF
  | S fuel' =>
      match readLine r with
      | inl e => inl e
      | inr ([], r') => inr (hs, cl, r')
      | inr (line, r') =>
          match Cut line ":"%char with
          | None => inl ErrBadHeader
          | Some (name, value) =>
              if decide (TrimSpace name = []) then inl ErrBadHeader else
              let h := mkHeader (canonicalName name) (TrimSpace value) in
              if is_content_length h then
                match Atoi (Value h) with
                | None => inl ErrBadContentLength
                | Some n => if decide (n < 0) then inl ErrBadContentLength
                            else read_headers fuel' r' (hs ++ [h]) n
                end
              else read_headers fuel' r' (hs ++ [h]) cl
          end
      end
  end.

Definition ReadMessage (r : text) : read_error + (Message * text) :=
  let fuel := S (length r) in
  match read_start fuel r with
  | inl e => inl e
  | inr (start, r) =>
      match parse_start start with
      | None => inl ErrBadStartLine
      | Some m =>
          match read_headers fuel r [] (-1) with
          | inl e => inl e
          | inr (hs, cl, r) =>
              let n := Z.to_nat (if decide (cl < 0) then 0 else cl) in
              if decide (n <= length r)%nat
              then inr (mkMessage (IsRequest m) (Method m) (RequestURI m) (StatusCode m) (Reason m)
                          hs (take n r), drop n r)
              else inl ErrReadBody
          end
      end
  end.

(** Bytes after the message are left unread, as by the code. *)
Definition Parse (raw : text) : read_error + Message :=
  match ReadMessage raw with inl e => inl e | inr (m, _) => inr m end.

(** ** Responses *)

(** [tag] is the value of [RandomToken(8)]. [";tag="] is sought in lower case. *)
Fixpoint contains (sub s : text) : bool :=
  has_prefix_t sub s || match s with [] => false | _ :: s' => contains sub s' end.

Definition NewResponse (tag : text) (req : Message) (code : Z) (reason : text) : Message :=
  let resp := mkMessage false [] [] code reason [] [] in
  let resp := foldl (fun r v => Add r (T "Via") v) resp (Values req (T "Via")) in
  let resp := Add resp (T "From") (Get req (T "From")) in
  let to := Get req (T "To") in
  let to := if contains (T ";tag=") (ToLower to) then to else to ++ T ";tag=" ++ tag in
  let resp := Add resp (T "To") to in
  let resp := Add resp (T "Call-ID") (Get req (T "Call-ID")) in
  Add resp (T "CSeq") (Get req (T "CSeq")).

(** ** Addresses *)

Definition IndexAny2 (s : text) (a b : Ascii.ascii) : option nat :=
  match IndexByte s a, IndexByte s b with
  | Some i, Some j => Some (Nat.min i j)
  | Some i, None => Some i
  | None, o => o
  end.

Definition cut_at (o : option nat) (s : text) : text :=
  match o with Some i => take i s | None => s end.

(** Between the angle brackets, if any, without the scheme. *)
Definition address_core (addr : text) : text :=
  let s := TrimSpace addr in
  let s := match IndexByte s "<"%char with
           | Some i => let s := drop (S i) s in cut_at (IndexByte s ">"%char) s
           | None => s
           end in
  TrimPrefix (TrimPrefix s (T "sips:")) (T "sip:").

Definition URIUser (addr : text) : text :=
  let s := address_core addr in
  let s := cut_at (IndexByte s "@"%char) s in
  cut_at (IndexAny2 s ";"%char "?"%char) s.

Definition URIHost (addr : text) : text :=
  let s := address_core addr in
  match IndexByte s "@"%char with
  | Some i => let s := drop (S i) s in cut_at (IndexAny2 s ";"%char "?"%char) s
  | None =>
      if negb (bool_decide ("."%char ∈ s)) && negb (bool_decide (":"%char ∈ s)) then []
      else cut_at (IndexAny2 s ";"%char "?"%char) s
  end.

(** The first usable [expires] parameter of a Contact. *)
Definition param_expires (p : text) : option Z :=
  '(k, v) ← Cut (TrimSpace p) "="%char;
  if EqualFold k (T "expires") then Atoi (TrimSpace v) else None.

Fixpoint first_some {A B} (f : A -> option B) (l : list A) : option B :=
  match l with
  | [] => None
  | a :: l' => match f a with Some b => Some b | None => first_some f l' end
  end.

Definition ContactExpires (req : Message) (def : Z) : Z :=
  match first_some param_expires (Split (Get req (T "Contact")) ";"%char) with
  | Some n => n
  | None =>
      let e := Get req (T "Expires") in
      if decide (e <> []) then default def (Atoi e) else def
  end.

(** ** Lines *)

Definition no_eol (s : text) : Prop := (CR ∉ s) /\ (LF ∉ s).

Lemma no_eol_app a b : no_eol a -> no_eol b -> no_eol (a ++ b).
Proof. unfold no_eol. set_solver. Qed.

Lemma no_eol_digits (s : text) : (forall d, d ∈ s -> is_digit d = true) -> no_eol s.
Proof. intros H. split; eapply digit_not; eauto; done. Qed.

Lemma trim_eol_line l : no_eol l -> trim_eol (l ++ [CR]) = l.
Proof.
  intros [Hc Hl]. unfold trim_eol. rewrite rev_app_distr. simpl.
  destruct (rev l) as [|c s] eqn:E.
  - apply (f_equal (@rev _)) in E. rewrite rev_involutive in E. by subst.
  - assert (c ∈ l) as Hi by (rewrite list_elem_of_In, in_rev, E; by left).
    rewrite bool_decide_eq_false_2 by (intros [-> | ->]; done).
    by rewrite <- E, rev_involutive.
Qed.

Lemma readLine_line l r : no_eol l -> readLine (l ++ crlf ++ r) = inr (l, r).
Proof.
  intros Hl. unfold readLine, crlf. simpl.
  replace (l ++ (CR :: LF :: r)) with ((l ++ [CR]) ++ (LF :: r)) by (by rewrite <- app_assoc).
  rewrite Cut_app by (destruct Hl; set_solver). by rewrite trim_eol_line.
Qed.

(** Keep-alive line ends are skipped. *)
Lemma read_start_line k l r fuel : no_eol l -> l <> [] -> (k < fuel)%nat ->
  read_start fuel (lines (replicate k []) ++ l ++ crlf ++ r) = inr (l, r).
Proof.
  intros Hl Hne. revert fuel. induction k as [|k IH]; intros fuel Hf; (destruct fuel as [|fuel]; [lia|]); cbn [read_start].
  - unfold lines. cbn [replicate map concat app]. rewrite readLine_line by done. by rewrite decide_False.
  - unfold lines in *. cbn [replicate map concat]. rewrite <- app_assoc. cbn [app].
    rewrite <- (app_nil_l (crlf ++ _)). rewrite readLine_line by (split; apply not_elem_of_nil).
    rewrite decide_True by done. apply IH. lia.
Qed.

(** ** Round trip *)

Definition wf_header (h : Header) : Prop :=
  canonicalName (Name h) = Name h /\ TrimSpace (Name h) <> [] /\ (":"%char ∉ Name h) /\ no_eol (Name h)
  /\ trimmed (Value h) /\ no_eol (Value h).

Definition wf_message (m : Message) : Prop :=
  (if IsRequest m then
     (SP ∉ Method m) /\ (SP ∉ RequestURI m) /\ no_eol (Method m) /\ no_eol (RequestURI m)
     /\ Method m <> T "SIP/2.0" /\ StatusCode m = 0 /\ Reason m = []
   else Method m = [] /\ RequestURI m = [] /\ 100 <= StatusCode m <= 699 /\ no_eol (Reason m))
  /\ Forall wf_header (List.filter (fun h => negb (is_content_length h)) (Headers m)) /\ zlen (Body m) < 2 ^ 63.

(** What the reader makes of a message: one Content-Length, last. *)
Definition wire_form (m : Message) : Message :=
  with_headers m (List.filter (fun h => negb (is_content_length h)) (Headers m) ++ [length_header m]).

Lemma header_line_no_eol h : wf_header h -> no_eol (header_line h).
Proof.
  intros (_&_&_&Hn&_&Hv). unfold header_line. repeat apply no_eol_app; try done.
  split; set_solver.
Qed.

Lemma length_header_wf m : wf_header (length_header m).
Proof.
  unfold length_header, wf_header. cbn [Name Value].
  assert (forall d, d ∈ Itoa (zlen (Body m)) -> is_digit d = true) as Hd
    by (intros d; apply Itoa_digits; unfold zlen; lia).
  split; [reflexivity|]. split; [discriminate|]. split; [vm_compute; set_solver|].
  split; [split; vm_compute; set_solver|]. split; [by apply trimmed_digits|by apply no_eol_digits].
Qed.

(** Reading one header line back. *)
Lemma read_headers_line fuel h r hs cl : wf_header h ->
  read_headers (S fuel) (header_line h ++ crlf ++ r) hs cl =
  if is_content_length h then
    match Atoi (Value h) with
    | None => inl ErrBadContentLength
    | Some n => if decide (n < 0) then inl ErrBadContentLength else read_headers fuel r (hs ++ [h]) n
    end
  else read_headers fuel r (hs ++ [h]) cl.
Proof.
  intros Hwf. pose proof (header_line_no_eol h Hwf) as Hne. destruct Hwf as (Hc&Ht&Hcol&_&Hv&_).
  cbn [read_headers]. rewrite readLine_line by done.
  destruct (header_line h) as [|c l] eqn:E.
  { unfold header_line in E. destruct (Name h); discriminate. }
  rewrite <- E. unfold header_line. change (T ": " ++ Value h) with (":"%char :: SP :: Value h).
  rewrite Cut_app by done. rewrite decide_False by done.
  rewrite TrimSpace_space, TrimSpace_fix, Hc by done. by destruct h.
Qed.

Lemma read_headers_end fuel r hs cl : read_headers (S fuel) (crlf ++ r) hs cl = inr (hs, cl, r).
Proof.
  cbn [read_headers]. rewrite <- (app_nil_l (crlf ++ r)).
  by rewrite readLine_line by (split; apply not_elem_of_nil).
Qed.

Lemma read_headers_lines hs0 : forall fuel hs cl r,
  Forall wf_header hs0 -> Forall (fun h => is_content_length h = false) hs0 -> (length hs0 <= fuel)%nat ->
  read_headers fuel (lines (map header_line hs0) ++ r) hs cl =
  read_headers (fuel - length hs0) r (hs ++ hs0) cl.
Proof.
  induction hs0 as [|h hs0 IH]; intros fuel hs cl r Hw Hc Hf.
  - simpl. by rewrite app_nil_r, Nat.sub_0_r.
  - apply Forall_cons in Hw as [Hh Hw]. apply Forall_cons in Hc as [Hc0 Hc].
    destruct fuel as [|fuel]; [simpl in Hf; lia|].
    unfold lines. cbn [map concat]. rewrite <- !app_assoc.
    rewrite read_headers_line, Hc0 by done. unfold lines in IH.
    rewrite IH by (done || (simpl in Hf; lia)). by rewrite <- app_assoc.
Qed.

Lemma parse_start_line m : wf_message m ->
  start_line m <> [] /\ no_eol (start_line m)
  /\ parse_start (start_line m) =
     Some (mkMessage (IsRequest m) (Method m) (RequestURI m) (StatusCode m) (Reason m) [] []).
Proof.
  intros [Hs _]. unfold start_line, parse_start. destruct (IsRequest m).
  - destruct Hs as (Hm&Hu&Hem&Heu&Hsip&->&->).
    split; [by destruct (Method m)|]. split.
    { repeat apply no_eol_app; try done; split; vm_compute; set_solver. }
    assert (has_prefix_t (T "SIP/2.0 ") (Method m ++ [SP] ++ RequestURI m ++ T " SIP/2.0") = false) as ->.
    { apply not_true_iff_false. intros [r E]%has_prefix_t_true.
      apply (f_equal (fun s => fst <$> Cut s SP)) in E.
      change (T "SIP/2.0 " ++ r) with (T "SIP/2.0" ++ (SP :: r)) in E. cbn [app] in E.
      rewrite Cut_app in E by done. rewrite Cut_app in E by (vm_compute; set_solver). by injection E. }
    unfold SplitN3. cbn [app]. rewrite Cut_app by done.
    change (T " SIP/2.0") with (SP :: T "SIP/2.0"). rewrite Cut_app by done. by rewrite decide_True.
  - destruct Hs as (->&->&Hc&Hr).
    split; [done|]. split.
    { repeat apply no_eol_app; try done; try (apply no_eol_digits; intros d; apply Itoa_digits; lia);
        split; vm_compute; set_solver. }
    change (has_prefix_t (T "SIP/2.0 ") (T "SIP/2.0 " ++ Itoa (StatusCode m) ++ [SP] ++ Reason m)) with true.
    cbv iota. unfold SplitN3.
    change (T "SIP/2.0 " ++ Itoa (StatusCode m) ++ [SP] ++ Reason m)
      with (T "SIP/2.0" ++ (SP :: (Itoa (StatusCode m) ++ (SP :: Reason m)))).
    rewrite Cut_app by (vm_compute; set_solver).
    rewrite Cut_app by (eapply digit_not; [done|intros d; apply Itoa_digits; lia]).
    rewrite Atoi_Itoa by lia. simpl. by rewrite decide_False by lia.
Qed.

Lemma length_lines_cons l ls : length (lines (l :: ls)) = (length l + 2 + length (lines ls))%nat.
Proof. unfold lines. cbn [map concat]. rewrite !length_app. simpl. lia. Qed.

Lemma length_lines ls : (length ls <= length (lines ls))%nat.
Proof. induction ls as [|l ls IH]; [done|]. rewrite length_lines_cons. simpl. lia. Qed.

(** One message, after any number of keep-alive line ends. *)
Lemma ReadMessage_Bytes k m r : wf_message m ->
  ReadMessage (lines (replicate k []) ++ Bytes m ++ r) = inr (wire_form m, r).
Proof.
  intros Hwf. destruct (parse_start_line m Hwf) as (Hne&Heol&Hp).
  pose proof Hwf as (_&Hh&Hb). unfold ReadMessage, Bytes.
  set (hs := List.filter (fun h => negb (is_content_length h)) (Headers m)) in *.
  set (fuel := S _).
  assert (k < fuel /\ length hs + 2 < fuel)%nat as [Hk Hf].
  { unfold fuel. rewrite !length_app. pose proof (length_lines (replicate k [])) as H1.
    rewrite length_replicate in H1. rewrite length_lines_cons.
    pose proof (length_lines (map header_line hs)) as H2. rewrite length_map in H2.
    unfold crlf. simpl. lia. }
  unfold lines at 2. cbn [map concat]. rewrite <- !app_assoc.
  rewrite read_start_line by done. rewrite Hp. fold (lines (map header_line hs)).
  rewrite read_headers_lines; [|done| |lia].
  2: { unfold hs. apply Forall_forall. intros h Hi. apply list_elem_of_In, filter_In in Hi as [_ Hi].
       by apply negb_true_iff. }
  destruct (fuel - length hs)%nat as [|[|f2]] eqn:Ef; [lia|lia|].
  rewrite read_headers_line by apply length_header_wf.
  change (is_content_length (length_header m)) with true. cbv iota.
  unfold length_header at 1. cbn [Value]. rewrite Atoi_Itoa by (unfold zlen in *; lia).
  rewrite decide_False by (unfold zlen; lia). rewrite read_headers_end.
  rewrite (decide_False (P := zlen (Body m) < 0)) by (unfold zlen; lia).
  assert (Z.to_nat (zlen (Body m)) = length (Body m)) as -> by (unfold zlen; lia).
  rewrite decide_True by (rewrite length_app; lia).
  rewrite take_app_length, drop_app_length. done.
Qed.

(** A connection's read loop, to the first error. *)
Fixpoint read_all (fuel : nat) (r : text) : list Message * option read_error :=
  match fuel with
  | O => ([], None)
  | S fuel' =>
      match ReadMessage r with
      | inl e => ([], Some e)
      | inr (m, r') => let '(ms, e) := read_all fuel' r' in (m :: ms, e)
      end
  end.

Lemma ReadMessage_keepalive k : ReadMessage (lines (replicate k [])) = inl EOF.
Proof.
  unfold ReadMessage. set (fuel := S _).
  assert (k < fuel)%nat as Hk.
  { unfold fuel. pose proof (length_lines (replicate k [])) as H. rewrite length_replicate in H. lia. }
  assert (read_start fuel (lines (replicate k [])) = inl EOF) as ->; [|done].
  clearbody fuel. revert fuel Hk. induction k as [|k IH]; intros [|fuel] Hk; try lia; [done|].
  cbn [read_start]. unfold lines in *. cbn [replicate map concat]. cbn [app].
  rewrite <- (app_nil_l (crlf ++ _)), readLine_line by (split; apply not_elem_of_nil).
  rewrite decide_True by done. apply IH. lia.
Qed.

(** C23: messages survive the stream: any sequence of well-formed messages,
    serialised back to back with any number of keep-alive line ends before,
    between and after them, is read as exactly those messages in order (with
    one Content-Length header, last, that matches the body, whose bytes are
    untouched), and then the clean end of the stream. *)
Theorem message_stream_roundtrip (ms : list (nat * Message)) (k : nat) :
  Forall (fun km => wf_message (snd km)) ms ->
  read_all (S (length ms))
    (concat (map (fun km => lines (replicate (fst km) []) ++ Bytes (snd km)) ms) ++ lines (replicate k [])) =
  (map (fun km => wire_form (snd km)) ms, Some EOF).
Proof.
  induction 1 as [|[k0 m] ms Hm Hms IH].
  - cbn. by rewrite ReadMessage_keepalive.
  - cbn [length map concat fst snd]. rewrite <- !app_assoc.
    change (read_all (S (S (length ms)))) with (fun r =>
      match ReadMessage r with
      | inl e => ([], Some e)
      | inr (m, r') => let '(ms0, e) := read_all (S (length ms)) r' in (m :: ms0, e) end).
    cbv beta. rewrite ReadMessage_Bytes by done. by rewrite IH.
Qed.

Lemma message_stream_roundtrip_witness :
  let m := mkMessage true (T "OPTIONS") (T "sip:a@b") 0 [] [mkHeader (T "Via") (T "x")] (T "hi") in
  Bytes m = T "OPTIONS sip:a@b SIP/2.0" ++ crlf ++ T "Via: x" ++ crlf ++ T "Content-Length: 2" ++ crlf ++ crlf ++ T "hi"
  /\ read_all 3 (concat (map (fun km => lines (replicate (fst km) []) ++ Bytes (snd km)) [(2%nat, m); (0%nat, m)])
       ++ lines (replicate 1 [])) = ([wire_form m; wire_form m], Some EOF).
Proof.
  split; [vm_compute; reflexivity|].
  apply (message_stream_roundtrip
    [(2%nat, mkMessage true (T "OPTIONS") (T "sip:a@b") 0 [] [mkHeader (T "Via") (T "x")] (T "hi"));
     (0%nat, mkMessage true (T "OPTIONS") (T "sip:a@b") 0 [] [mkHeader (T "Via") (T "x")] (T "hi"))] 1).
  assert (wf_message (mkMessage true (T "OPTIONS") (T "sip:a@b") 0 [] [mkHeader (T "Via") (T "x")] (T "hi"))) as H.
  { split; [|split; [|vm_compute; reflexivity]].
    - cbn [IsRequest Method RequestURI StatusCode Reason].
      repeat split; try (vm_compute; set_solver); discriminate.
    - repeat constructor; cbn [Name Value]; try (vm_compute; set_solver); try discriminate;
        intros c [= <-]; reflexivity. }
  apply Forall_cons; split; [exact H|]. apply Forall_cons; split; [exact H|]. apply Forall_nil. done.
Defined.

(** ** Header access laws *)

Lemma find_names_values want hs :
  match List.find (names want) hs with Some h => Value h | None => [] end =
  default [] (head (map Value (List.filter (names want) hs))).
Proof. induction hs as [|h hs IH]; [done|]. simpl. by destruct (names want h). Qed.

Lemma set_loop_spec want value : forall hs placed, let '(kept, p) := set_loop want value placed hs in
  p = placed || existsb (names want) hs
  /\ map Value (List.filter (names want) kept) =
       (if negb placed && existsb (names want) hs then [value] else [])
  /\ (forall w, EqualFold want w = false -> List.filter (names w) kept = List.filter (names w) hs).
Proof.
  induction hs as [|h hs IH]; intros placed.
  { simpl. by rewrite orb_false_r, andb_false_r. }
  simpl. destruct (names want h) eqn:Eh.
  - destruct placed.
    + specialize (IH true). destruct (set_loop want value true hs) as [kept p].
      destruct IH as (->&Hv&Ho). split; [done|]. split; [done|]. intros w Hw. rewrite (Ho w Hw).
      assert (names w h = false) as ->; [|done]. unfold names in *.
      by rewrite (EqualFold_trans (Name h) want w).
    + specialize (IH true). destruct (set_loop want value true hs) as [kept p].
      destruct IH as (->&Hv&Ho). split; [done|]. split.
      * simpl. unfold names at 1. simpl. rewrite EqualFold_refl. simpl. by rewrite Hv.
      * intros w Hw. simpl. rewrite (Ho w Hw).
        assert (names w h = false) as ->.
        { unfold names in *. rewrite (EqualFold_trans (Name h) want w); [done|]. done. }
        unfold names at 1. simpl. by rewrite Hw.
  - specialize (IH placed). destruct (set_loop want value placed hs) as [kept p].
    destruct IH as (->&Hv&Ho). simpl. rewrite Eh. split; [done|]. split; [done|].
    intros w Hw. simpl. by rewrite (Ho w Hw).
Qed.

Lemma filter_del want w hs : EqualFold want w = false ->
  List.filter (names w) (List.filter (fun h => negb (names want h)) hs) = List.filter (names w) hs.
Proof.
  intros Hw. induction hs as [|h hs IH]; [done|]. simpl.
  destruct (names want h) eqn:E; simpl; rewrite IH; [|done].
  assert (names w h = false) as ->; [|done]. unfold names in *. by rewrite (EqualFold_trans _ _ w E).
Qed.

Lemma Values_Get m name : Get m name = default [] (head (Values m name)).
Proof. apply find_names_values. Qed.

(** header access obeys the laws its callers rely on, for names in any case
    or compact form: after [Set] the name has exactly the value set; [Add]
    appends one value; [Del] leaves none; and each leaves the values of every
    other name, and [Get] (the first value), as they were. *)
Theorem header_access_laws (m : Message) (name other value : text) :
  (Values (Set_ m name value) name = [value] /\ Get (Set_ m name value) name = value)
  /\ Values (Add m name value) name = Values m name ++ [value]
  /\ (Values (Del m name) name = [] /\ Get (Del m name) name = [])
  /\ (EqualFold (canonicalName name) (canonicalName other) = false ->
      Values (Set_ m name value) other = Values m other /\ Get (Set_ m name value) other = Get m other
      /\ Values (Add m name value) other = Values m other /\ Get (Add m name value) other = Get m other
      /\ Values (Del m name) other = Values m other /\ Get (Del m name) other = Get m other).
Proof.
  rewrite !Values_Get. unfold Values, Set_, Add, Del.
  set (want := canonicalName name). set (w := canonicalName other).
  pose proof (set_loop_spec want value (Headers m) false) as Hset.
  destruct (set_loop want value false (Headers m)) as [kept p]. destruct Hset as (->&Hv&Ho).
  assert (names want (mkHeader want value) = true) as Hself by apply EqualFold_refl.
  simpl in *.
  assert (map Value (List.filter (names want)
    (if existsb (names want) (Headers m) then kept else kept ++ [mkHeader want value])) = [value]) as Hs.
  { destruct (existsb _ _); [done|]. rewrite List.filter_app, map_app, Hv. simpl. by rewrite Hself. }
  assert (forall hs, List.filter (names want) (List.filter (fun h => negb (names want h)) hs) = []) as Hd.
  { induction hs as [|h hs IH]; [done|]. simpl. destruct (names want h) eqn:E; simpl; [done|]. by rewrite E. }
  split; [by rewrite Hs|]. split; [|split].
  - rewrite List.filter_app, map_app. simpl. by rewrite Hself.
  - by rewrite Hd.
  - intros Hw. assert (names w (mkHeader want value) = false) as Hnw by done.
    assert (List.filter (names w)
      (if existsb (names want) (Headers m) then kept else kept ++ [mkHeader want value])
      = List.filter (names w) (Headers m)) as ->.
    { destruct (existsb _ _); [by apply Ho|]. rewrite List.filter_app, (Ho w Hw). simpl.
      by rewrite Hnw, app_nil_r. }
    assert (List.filter (names w) (Headers m ++ [mkHeader want value]) = List.filter (names w) (Headers m)) as ->.
    { rewrite List.filter_app. simpl. by rewrite Hnw, app_nil_r. }
    by rewrite filter_del.
Qed.

Lemma header_access_laws_witness :
  let m := mkMessage true [] [] 0 [] [mkHeader (T "via") (T "a"); mkHeader (T "To") (T "b"); mkHeader (T "Via") (T "c")] [] in
  EqualFold (canonicalName (T "v")) (canonicalName (T "t")) = false
  /\ Headers (Set_ m (T "v") (T "z")) = [mkHeader (T "Via") (T "z"); mkHeader (T "To") (T "b")]
  /\ Values (Set_ m (T "v") (T "z")) (T "t") = Values m (T "t").
Proof.
  split; [vm_compute; reflexivity|]. split; [vm_compute; reflexivity|].
  apply (header_access_laws (mkMessage true [] [] 0 [] [mkHeader (T "via") (T "a"); mkHeader (T "To") (T "b");
    mkHeader (T "Via") (T "c")] []) (T "v") (T "t") (T "z")). vm_compute. reflexivity.
Defined.

(** ** Addresses *)

(** No delimiter of an address. *)
Definition plain (s : text) : Prop :=
  ("<"%char ∉ s) /\ (">"%char ∉ s) /\ ("@"%char ∉ s) /\ (";"%char ∉ s) /\ ("?"%char ∉ s).

Definition unprefixed (s : text) : Prop :=
  has_prefix_t (T "sips:") s = false /\ has_prefix_t (T "sip:") s = false.

Definition is_params (p : text) : Prop :=
  p = [] \/ exists r, p = ";"%char :: r \/ p = "?"%char :: r.

Lemma strip_scheme scheme s : scheme ∈ [[]; T "sip:"; T "sips:"] -> unprefixed s ->
  TrimPrefix (TrimPrefix (scheme ++ s) (T "sips:")) (T "sip:") = s.
Proof.
  intros Hs [H1 H2]. unfold TrimPrefix. rewrite !elem_of_cons, elem_of_nil in Hs.
  destruct Hs as [->|[->|[->|[]]]].
  - rewrite (app_nil_l s), H1, H2. done.
  - change (has_prefix_t (T "sips:") (T "sip:" ++ s)) with false. cbv iota.
    change (has_prefix_t (T "sip:") (T "sip:" ++ s)) with true. cbv iota. apply drop_app_length.
  - change (has_prefix_t (T "sips:") (T "sips:" ++ s)) with true. cbv iota.
    rewrite drop_app_length, H2. done.
Qed.

Lemma cut_params h p : plain h -> is_params p ->
  cut_at (IndexAny2 (h ++ p) ";"%char "?"%char) (h ++ p) = h.
Proof.
  intros (_&_&_&Hs&Hq) Hp. unfold IndexAny2.
  assert (forall c : Ascii.ascii, c ∉ h -> forall r, exists n,
    (length h <= n)%nat /\ (IndexByte (h ++ r) c = None \/ IndexByte (h ++ r) c = Some n)) as Hge.
  { clear. induction h as [|x h IH]; intros c Hc r.
    - destruct (IndexByte ([] ++ r) c) as [n|]; [exists n|exists O]; simpl; (split; [lia|auto]).
    - rewrite not_elem_of_cons in Hc. destruct Hc as [Hx Hc]. destruct (IH c Hc r) as (n&Hn&Hi).
      exists (S n). simpl. split; [lia|]. rewrite decide_False by congruence.
      destruct Hi as [-> | ->]; auto. }
  destruct Hp as [->|(r&[->| ->])].
  - rewrite app_nil_r, !IndexByte_None by done. done.
  - rewrite (IndexByte_app h ";"%char r) by done.
    destruct (Hge "?"%char Hq (";"%char :: r)) as (n&Hn&[-> | ->]); simpl;
      rewrite ?Nat.min_l by done; apply take_app_length.
  - rewrite (IndexByte_app h "?"%char r) by done.
    destruct (Hge ";"%char Hs ("?"%char :: r)) as (n&Hn&[-> | ->]); simpl;
      rewrite ?Nat.min_r by done; apply take_app_length.
Qed.

Lemma plain_cut u : plain u -> cut_at (IndexAny2 u ";"%char "?"%char) u = u.
Proof. intros Hu. pose proof (cut_params u [] Hu ltac:(by left)) as H. by rewrite app_nil_r in H. Qed.

(** User and host of an address whose core is known. *)
Lemma core_parts addr u h p : address_core addr = u ++ ("@"%char :: (h ++ p)) ->
  plain u -> plain h -> is_params p -> URIUser addr = u /\ URIHost addr = h.
Proof.
  intros E Hu Hh Hp. unfold URIUser, URIHost. rewrite E.
  rewrite IndexByte_app by apply Hu.
  change (cut_at (Some (length u)) ?s) with (take (length u) s).
  rewrite take_app_length. split; [by apply plain_cut|].
  rewrite drop_app_ge by lia. replace (S (length u) - length u)%nat with 1%nat by lia.
  simpl. rewrite drop_0. by apply cut_params.
Qed.

(** the user and the host of an address are found in each of the shapes the
    server meets: with either scheme or none, alone or in angle brackets after
    a display name and before header parameters, with URI parameters or
    headers after the host; and a bare user is its own user part. *)
Theorem uri_parts (scheme u h p name trail : text) :
  scheme ∈ [[]; T "sip:"; T "sips:"] -> plain u -> plain h -> is_params p ->
  unprefixed (u ++ ("@"%char :: (h ++ p))) ->
  let uri := scheme ++ u ++ ("@"%char :: (h ++ p)) in
  let nameaddr := name ++ ("<"%char :: (uri ++ (">"%char :: trail))) in
  (trimmed uri -> ("<"%char ∉ p) -> URIUser uri = u /\ URIHost uri = h)
  /\ (trimmed nameaddr -> ("<"%char ∉ name) -> (">"%char ∉ p) ->
      URIUser nameaddr = u /\ URIHost nameaddr = h)
  /\ (trimmed u -> unprefixed u -> URIUser u = u).
Proof.
  intros Hsch Hu Hh Hp Hpre uri nameaddr.
  assert (forall c, c ∈ [";"; "?"; "<"; ">"]%char -> c ∉ p -> c ∈ ["<"; ">"]%char -> c ∉ uri) as Hnot.
  { intros c _ Hcp Hc. unfold uri. rewrite !not_elem_of_app, not_elem_of_cons, not_elem_of_app.
    destruct Hu as (?&?&_), Hh as (?&?&_).
    rewrite !elem_of_cons, elem_of_nil in Hsch. rewrite !elem_of_cons, elem_of_nil in Hc.
    destruct Hc as [->|[->|[]]]; destruct Hsch as [->|[->|[->|[]]]];
      (split; [vm_compute; set_solver|done]). }
  split; [|split]; intros Ht.
  - intros Hlt. apply (core_parts uri u h p); [|done..]. unfold address_core. rewrite TrimSpace_fix by done.
    rewrite IndexByte_None by (apply Hnot; set_solver). by apply strip_scheme.
  - intros Hn Hgt. apply (core_parts nameaddr u h p); [|done..].
    unfold address_core. rewrite TrimSpace_fix by done. unfold nameaddr.
    rewrite IndexByte_app by done.
    rewrite drop_app_ge by lia. replace (S (length name) - length name)%nat with 1%nat by lia.
    simpl drop. rewrite drop_0.
    rewrite IndexByte_app by (apply Hnot; set_solver). unfold cut_at. rewrite take_app_length.
    by apply strip_scheme.
  - intros Hup. assert (address_core u = u) as E.
    { unfold address_core. rewrite TrimSpace_fix by done. rewrite IndexByte_None by apply Hu.
      apply (strip_scheme [] u); [set_solver|done]. }
    unfold URIUser. rewrite E, IndexByte_None by apply Hu. by apply plain_cut.
Qed.

Lemma uri_parts_witness :
  let na := T "Bob <sips:201@pbx.example;transport=tls>;tag=9" in
  URIUser na = T "201" /\ URIHost na = T "pbx.example".
Proof.
  apply (uri_parts (T "sips:") (T "201") (T "pbx.example") (T ";transport=tls") (T "Bob ") (T ";tag=9")).
  - set_solver.
  - repeat split; vm_compute; set_solver.
  - repeat split; vm_compute; set_solver.
  - right. eexists. left. reflexivity.
  - split; vm_compute; reflexivity.
  - split; intros c [= <-]; reflexivity.
  - vm_compute. set_solver.
  - vm_compute. set_solver.
Defined.
