(* ===== verification/Registrar.v ===== *)
(** The reference registrar (src/server/internal/sip/registrar.go): REGISTER
    and OPTIONS answered from the location table. The clock and the random tag
    of a response are arguments; logging and deadlines are left out. *)

From S2P Require Import Prelude Text Net Registry SipMsg.
Open Scope Z_scope.

Record Registrar := mkRegistrar {
  Domain : text;
  MinExpires : Z;
  MaxExpires : Z;
  ReadIdle : Z;
}.

Definition defaults (r : Registrar) : Registrar :=
  mkRegistrar (Domain r) (if decide (MinExpires r = 0) then 60 else MinExpires r)
    (if decide (MaxExpires r = 0) then 3600 else MaxExpires r)
    (if decide (ReadIdle r = 0) then 5 * ns_minute else ReadIdle r).

(** [strings.Index(s, sub)] *)
Fixpoint Index (sub s : text) : option nat :=
  if has_prefix_t sub s then Some O
  else match s with [] => None | _ :: s' => S <$> Index sub s' end.

(** The contact without its (first) expires parameter. *)
Definition strip_expires (contact : text) : text :=
  match Index (T ";expires=") (ToLower contact) with
  | None => contact
  | Some i =>
      match IndexByte (drop (i + 1) contact) ";"%char with
      | None => take i contact
      | Some e => take i contact ++ drop (i + 1 + e) contact
      end
  end.

Section handling.
Context (cfg : Registrar) (now : Z) (tag : text).

Let respond (req : Message) (code : Z) (reason : string) : Message := NewResponse tag req code (T reason).

(** [None] is a panic. *)
Definition register (req : Message) (reg : Registry) : option (Registry * Message) :=
  let user := URIUser (Get req (T "To")) in
  if decide (user = []) then Some (reg, respond req 400 "Bad Request") else
  let host := URIHost (Get req (T "To")) in
  let host := match SplitHostPort host with Some (h, _) => h | None => host end in
  if decide (Domain cfg <> [] /\ host <> [] /\ EqualFold host (Domain cfg) = false)
  then Some (reg, respond req 403 "Forbidden") else
  let contact := Get req (T "Contact") in
  if decide (contact = []) then
    match Lookup now (to_string user) reg with
    | None => Some (reg, respond req 404 "Not Found")
    | Some ep =>
        let resp := respond req 200 "OK" in
        Some (reg, if decide (Contact ep <> "") then Add resp (T "Contact") (T (Contact ep)) else resp)
    end
  else
  let expires := ContactExpires req (MaxExpires cfg) in
  if decide (contact = T "*" \/ expires = 0)
  then Some (Unregister (to_string user) reg, respond req 200 "OK") else
  if decide (expires < MinExpires cfg)
  then Some (reg, Set_ (respond req 423 "Interval Too Brief") (T "Min-Expires") (Itoa (MinExpires cfg))) else
  let expires := if decide (MaxExpires cfg < expires) then MaxExpires cfg else expires in
  let stored := strip_expires contact in
  r ← Register now (to_string user) (to_string stored) (i64 (expires * ns_second)) reg;
  match snd r with
  | None => Some (fst r, respond req 404 "Not Found")
  | Some _ =>
      let resp := Add (respond req 200 "OK") (T "Contact") (stored ++ T ";expires=" ++ Itoa expires) in
      Some (fst r, Set_ resp (T "Expires") (Itoa expires))
  end.

Definition handle (req : Message) (reg : Registry) : option (Registry * Message) :=
  if decide (Method req = T "REGISTER") then register req reg
  else if decide (Method req = T "OPTIONS")
  then Some (reg, Set_ (respond req 200 "OK") (T "Allow") (T "REGISTER, OPTIONS"))
  else Some (reg, Set_ (respond req 501 "Not Implemented") (T "Allow") (T "REGISTER, OPTIONS")).

End handling.

(** One connection: the messages it delivers, each with the clock and tag of
    its handling; responses are ignored, requests answered. *)
Fixpoint HandleConn (cfg : Registrar) (msgs : list (Message * Z * text)) (reg : Registry)
    : option (Registry * list text) :=
  match msgs with
  | [] => Some (reg, [])
  | (m, now, tag) :: msgs' =>
      if negb (IsRequest m) then HandleConn cfg msgs' reg else
      r ← handle (defaults cfg) now tag m reg;
      r' ← HandleConn cfg msgs' (fst r);
      Some (fst r', Bytes (snd r) :: snd r')
  end.

(** ** What a request may do *)

(** The outcomes of a request: the table after it and the answer. *)
Inductive outcome (cfg : Registrar) (now : Z) (tag : text) (req : Message) (reg : Registry)
    : Registry -> Message -> Prop :=
  | Refused resp :
      StatusCode resp ∈ [400; 403; 404; 423; 501] ->
      outcome cfg now tag req reg reg resp
  | Answered resp :                        (* OPTIONS, or a query of the binding *)
      (Method req = T "OPTIONS" \/ Get req (T "Contact") = []) -> StatusCode resp = 200 ->
      outcome cfg now tag req reg reg resp
  | Removed u resp :
      u = to_string (URIUser (Get req (T "To"))) -> StatusCode resp = 200 ->
      (forall ep, byUser (Unregister u reg) !! u = Some ep -> Contact ep = "") ->
      (forall v, v <> u -> byUser (Unregister u reg) !! v = byUser reg !! v) ->
      outcome cfg now tag req reg (Unregister u reg) resp
  | Bound u n ep reg' resp :
      u = to_string (URIUser (Get req (T "To"))) ->
      MinExpires cfg <= n <= MaxExpires cfg ->
      byUser reg !! u = Some ep ->
      byUser reg' = <[u := mkEndpoint (User ep) (DeviceID ep)
          (to_string (strip_expires (Get req (T "Contact")))) (now + n * ns_second)]> (byUser reg) ->
      StatusCode resp = 200 ->
      Values resp (T "Contact") = [strip_expires (Get req (T "Contact")) ++ T ";expires=" ++ Itoa n] ->
      Get resp (T "Expires") = Itoa n ->
      outcome cfg now tag req reg reg' resp.

Lemma StatusCode_Add m n v : StatusCode (Add m n v) = StatusCode m.
Proof. done. Qed.

Lemma StatusCode_Set m n v : StatusCode (Set_ m n v) = StatusCode m.
Proof. unfold Set_. by destruct (set_loop _ _ _ _). Qed.

Lemma NewResponse_shape tag req code reason :
  StatusCode (NewResponse tag req code reason) = code
  /\ Values (NewResponse tag req code reason) (T "Contact") = [].
Proof.
  unfold NewResponse.
  assert (forall vs m, StatusCode (foldl (fun r v => Add r (T "Via") v) m vs) = StatusCode m
    /\ Values (foldl (fun r v => Add r (T "Via") v) m vs) (T "Contact") = Values m (T "Contact")) as H.
  { induction vs as [|v vs IH]; intros m; [done|]. cbn [foldl]. destruct (IH (Add m (T "Via") v)) as [-> ->].
    split; [done|]. unfold Values, Add. simpl. by rewrite List.filter_app, app_nil_r. }
  specialize (H (Values req (T "Via")) (mkMessage false [] [] code reason [] [])).
  set (m := foldl _ _ _) in *. destruct H as [H1 H2]. split; [by rewrite !StatusCode_Add|].
  unfold Values, Add in *. cbn [with_headers Headers] in *.
  rewrite !List.filter_app, !map_app, H2. done.
Qed.

Lemma Values_Add_same m name value : Values (Add m name value) name = Values m name ++ [value].
Proof.
  unfold Values, Add, names. cbn [with_headers Headers]. rewrite List.filter_app, map_app. simpl.
  by rewrite EqualFold_refl.
Qed.

Lemma Set_values m name value :
  Values (Set_ m name value) name = [value]
  /\ forall other, EqualFold (canonicalName name) (canonicalName other) = false ->
       Values (Set_ m name value) other = Values m other.
Proof.
  unfold Values, Set_. set (want := canonicalName name).
  pose proof (set_loop_spec want value (Headers m) false) as Hset.
  destruct (set_loop want value false (Headers m)) as [kept p]. destruct Hset as (->&Hv&Ho). simpl in *.
  assert (names want (mkHeader want value) = true) as Hself by apply EqualFold_refl.
  split.
  - destruct (existsb _ _); [done|]. rewrite List.filter_app, map_app, Hv. simpl. by rewrite Hself.
  - intros other Hw. f_equal. destruct (existsb _ _); [by apply Ho|].
    rewrite List.filter_app, Ho by done. simpl. unfold names at 2. simpl. by rewrite Hw, app_nil_r.
Qed.

(** a request of the app leg does one of four things and nothing else: it
    is refused or answered with the table untouched; it removes the contact of
    the user named in To; or it binds that provisioned user's contact, without
    its expires parameter, for a time between the configured bounds that the
    answer reports. No handling panics, and no other user's entry changes. *)
Theorem register_outcome (cfg : Registrar) (now : Z) (tag : text) (req : Message) (reg : Registry) :
  wf reg -> MinExpires cfg <= MaxExpires cfg -> - 2 ^ 31 <= MinExpires cfg -> MaxExpires cfg < 2 ^ 31 ->
  exists reg' resp, handle cfg now tag req reg = Some (reg', resp) /\ wf reg'
    /\ outcome cfg now tag req reg reg' resp.
Proof.
  intros Hwf Hmm Hmin Hmax. unfold handle.
  assert (forall code m, code ∈ [400; 403; 404; 423; 501] ->
    StatusCode m = code -> outcome cfg now tag req reg reg m) as Href.
  { intros code m Hc Hm. apply Refused. by rewrite Hm. }
  destruct (decide (Method req = T "REGISTER")) as [Hreg|Hreg].
  2: { destruct (decide (Method req = T "OPTIONS")) as [Ho|Ho]; do 2 eexists; (split; [done|split; [done|]]).
    - apply Answered; [by left|]. by rewrite StatusCode_Set, (proj1 (NewResponse_shape _ _ _ _)).
    - apply (Href 501); [set_solver|]. by rewrite StatusCode_Set, (proj1 (NewResponse_shape _ _ _ _)). }
  unfold register. set (user := URIUser (Get req (T "To"))). set (contact := Get req (T "Contact")).
  case_decide as Hu.
  { do 2 eexists. split; [done|split; [done|]]. apply (Href 400); [set_solver|apply NewResponse_shape]. }
  case_decide as Hd.
  { do 2 eexists. split; [done|split; [done|]]. apply (Href 403); [set_solver|apply NewResponse_shape]. }
  case_decide as Hc.
  { destruct (Lookup now (to_string user) reg) as [ep|]; do 2 eexists; (split; [done|split; [done|]]).
    - apply Answered; [by right|]. case_decide; rewrite ?StatusCode_Add; apply NewResponse_shape.
    - apply (Href 404); [set_solver|apply NewResponse_shape]. }
  case_decide as Hz.
  { do 2 eexists. split; [done|split; [by apply wf_Unregister|]]. apply Removed; [done|apply NewResponse_shape| |].
    - intros ep. rewrite Unregister_lookup, decide_True by done.
      destruct (byUser reg !! to_string user); intros [= <-]. done.
    - intros v Hv. by rewrite Unregister_lookup, decide_False. }
  case_decide as Hlt.
  { do 2 eexists. split; [done|split; [done|]]. apply (Href 423); [set_solver|].
    rewrite StatusCode_Set. apply NewResponse_shape. }
  set (n := if decide (MaxExpires cfg < _) then _ else _).
  assert (MinExpires cfg <= n <= MaxExpires cfg) as Hn by (unfold n; case_decide; lia).
  assert (i64 (n * ns_second) = n * ns_second) as ->.
  { apply wraps_small; [done|]. unfold ns_second. lia. }
  destruct (byUser reg !! to_string user) as [ep|] eqn:Eu.
  - destruct (Register_spec now (to_string user) (to_string (strip_expires contact)) (n * ns_second) ep reg Hwf Eu)
      as (reg'&->&Hwf'&Hby&_). cbn [mbind option_bind fst snd].
    do 2 eexists. split; [done|split; [done|]].
    set (resp := Add _ _ _). destruct (Set_values resp (T "Expires") (Itoa n)) as [Hs Ho].
    apply (Bound _ _ _ _ _ (to_string user) n ep); try done.
    + rewrite StatusCode_Set. apply NewResponse_shape.
    + rewrite Ho by (vm_compute; reflexivity). unfold resp. rewrite Values_Add_same.
      by rewrite (proj2 (NewResponse_shape _ _ _ _)).
    + by rewrite Values_Get, Hs.
  - unfold Register. rewrite Eu. cbn [mbind option_bind fst snd]. do 2 eexists. split; [done|split; [done|]].
    apply (Href 404); [set_solver|apply NewResponse_shape].
Qed.

Lemma register_outcome_witness :
  let cfg := defaults (mkRegistrar [] 0 0 0) in
  let req := mkMessage true (T "REGISTER") (T "sip:x") 0 [] [mkHeader (T "To") (T "<sip:201@x>");
     mkHeader (T "Contact") (T "<sip:201@1.2.3.4>;expires=7200")] [] in
  exists reg' resp, handle cfg 5 (T "aa") req (Provision "201" "d" New) = Some (reg', resp) /\ wf reg'
    /\ outcome cfg 5 (T "aa") req (Provision "201" "d" New) reg' resp.
Proof.
  apply (register_outcome (defaults (mkRegistrar [] 0 0 0))).
  - apply wf_Provision, wf_New.
  - vm_compute. discriminate.
  - vm_compute. discriminate.
  - vm_compute. reflexivity.
Defined.
