(* ===== verification/Routing.v ===== *)
(** Where a dialled destination goes (src/server/internal/routing/routing.go):
    a user of the location table, the echo test, the trunk, or nowhere. *)

From S2P Require Import Prelude Text Registry SipMsg.
Open Scope Z_scope.

Inductive Target := Local | Trunk | Echo | Unknown.

#[export] Instance Target_eq_dec : EqDecision Target.
Proof. solve_decision. Defined.

Definition EchoUser : text := T "echo".

Record Decision_ := mkDecision {
  target : Target;
  User_ : text;
  Endpoint_ : option Endpoint;   (* set when local *)
  Registered_ : bool;
}.

(** [hasTrunk] is the answer of the callback, [false] when there is none. *)
Record Router := mkRouter {
  domains : gset text;
  hasTrunk : bool;
}.

Definition New (localDomains : list text) (hasTrunk : option bool) : Router :=
  mkRouter (list_to_set (map ToLower localDomains)) (default false hasTrunk).

Definition Resolve (r : Router) (reg : Registry) (now : Z) (dest : text) : Decision_ :=
  let user := URIUser dest in
  let host := URIHost dest in
  let host := cut_at (IndexByte host ":"%char) host in
  let d := mkDecision Unknown user None false in
  if decide (user = []) then d else
  let foreign := bool_decide (host <> []) && negb (bool_decide (ToLower host ∈ domains r)) in
  let beyond := if hasTrunk r then mkDecision Trunk user None false else d in
  if negb foreign then
    if EqualFold user EchoUser then mkDecision Echo user None false
    else match Lookup now (to_string user) reg with
         | Some ep => mkDecision Local user (Some ep) (bool_decide (Contact ep <> ""))
         | None => beyond
         end
  else beyond.

(** A destination's host is one the server answers for: none, or a configured
    domain in any case, whatever the port. *)
Definition owned (localDomains : list text) (dest : text) : Prop :=
  let host := URIHost dest in
  let host := cut_at (IndexByte host ":"%char) host in
  host = [] \/ exists d, d ∈ localDomains /\ EqualFold d host = true.

(** a destination is local exactly if it has a user part, its host is owned
    (domains compare without case and without port), the user is provisioned
    and is not the reserved echo name; then the decision carries the user's
    endpoint, and says registered exactly if a live contact is stored. Echo
    needs an owned host too; everything else goes to the trunk exactly if
    there is one: a foreign domain never reaches a local user of that name. *)
Theorem resolve_decision (localDomains : list text) (trunk : option bool) (reg : Registry) (now : Z) (dest : text) :
  let d := Resolve (New localDomains trunk) reg now dest in
  let user := URIUser dest in
  let echo := EqualFold user EchoUser in
  User_ d = user
  /\ (target d = Local <-> user <> [] /\ owned localDomains dest /\ echo = false
        /\ is_Some (byUser reg !! to_string user))
  /\ (target d = Local -> Endpoint_ d = Lookup now (to_string user) reg
        /\ Registered_ d = Registered now (to_string user) reg)
  /\ (target d = Echo <-> user <> [] /\ owned localDomains dest /\ echo = true)
  /\ (target d = Trunk <-> user <> [] /\ trunk = Some true
        /\ ~ (owned localDomains dest /\ (echo = true \/ is_Some (byUser reg !! to_string user)))).
Proof.
  intros d user echo. subst d. unfold Resolve. fold user. fold echo. unfold Registered.
  set (host := cut_at _ _).
  assert (negb (bool_decide (host <> []) && negb (bool_decide (ToLower host ∈ domains (New localDomains trunk)))) = true
    <-> owned localDomains dest) as Hown.
  { unfold owned. fold host. rewrite negb_true_iff, andb_false_iff, bool_decide_eq_false,
      negb_false_iff, bool_decide_eq_true. cbn [New domains].
    rewrite elem_of_list_to_set, list_elem_of_In, in_map_iff. unfold EqualFold.
    setoid_rewrite bool_decide_eq_true. split.
    - intros [H%dec_stable|(dd&E&Hi)]; [by left|right]. exists dd. by rewrite list_elem_of_In.
    - intros [->|(dd&Hi&E)]; [left; auto|right]. exists dd. by rewrite <- list_elem_of_In. }
  destruct (decide (user = [])) as [Hu|Hu]; [simpl; rewrite Hu; intuition congruence|].
  destruct (negb (_ && _)) eqn:Ef.
  - apply proj1 in Hown. specialize (Hown eq_refl). destruct echo eqn:Ee; simpl; [intuition congruence|].
    unfold Lookup. destruct (byUser reg !! to_string user) as [ep|] eqn:El; simpl.
    + split; [done|]. split; [by split; eauto|]. split; [done|]. split; [intuition congruence|].
      split; [done|]. intros (_&_&[]). eauto.
    + assert (~ is_Some (@None Endpoint)) by (by intros [? [=]]).
      destruct trunk as [[]|]; simpl; intuition congruence.
  - assert (~ owned localDomains dest) by (rewrite <- Hown; congruence).
    destruct trunk as [[]|]; simpl; intuition congruence.
Qed.

Lemma resolve_decision_witness :
  let d := Resolve (New [T "Example.local"] (Some true)) (Provision "201" "" Registry.New) 0
             (T "sip:201@EXAMPLE.local:5061") in
  target d = Local /\ Endpoint_ d = Lookup 0 "201" (Provision "201" "" Registry.New).
Proof.
  split; [vm_compute; reflexivity|].
  apply (resolve_decision [T "Example.local"] (Some true) (Provision "201" "" Registry.New) 0
    (T "sip:201@EXAMPLE.local:5061")). vm_compute. reflexivity.
Defined.
