(* ===== verification/Base64.v ===== *)
(** encoding/base64's RawURLEncoding and encoding/hex, as the licence tokens
    (src/server/internal/licence/licence.go) and the sealed secrets and key files
    (src/server/internal/secrets/secrets.go, src/server/internal/licence/installid.go)
    use them: both ways, and that each reads back what it wrote.  A byte is a [Z]
    from 0 to 255. *)

From S2P Require Import Prelude Text.
Open Scope Z_scope.

Definition is_byte (b : Z) : Prop := 0 <= b < 256.

(** The bytes of a text, and back. *)
Definition byte_of (c : Ascii.ascii) : Z := Z.of_N (Ascii.N_of_ascii c).
Definition char_of (b : Z) : Ascii.ascii := Ascii.ascii_of_N (Z.to_N b).
Definition bytes (t : text) : list Z := map byte_of t.
Definition of_bytes (bs : list Z) : text := map char_of bs.

Lemma byte_of_char_of b : is_byte b -> byte_of (char_of b) = b.
Proof. unfold is_byte, byte_of, char_of. intros Hb. rewrite Ascii.N_ascii_embedding by lia. lia. Qed.

Lemma char_of_byte_of c : char_of (byte_of c) = c.
Proof. unfold byte_of, char_of. rewrite N2Z.id. apply Ascii.ascii_N_embedding. Qed.

Lemma byte_of_is_byte c : is_byte (byte_of c).
Proof. unfold is_byte, byte_of. pose proof (Ascii.N_ascii_bounded c). lia. Qed.

Lemma of_bytes_bytes t : of_bytes (bytes t) = t.
Proof. unfold of_bytes, bytes. rewrite map_map. rewrite <- (map_id t) at 2. apply map_ext. intros c. apply char_of_byte_of. Qed.

Lemma bytes_of_bytes bs : Forall is_byte bs -> bytes (of_bytes bs) = bs.
Proof. intros H. unfold of_bytes, bytes. induction H as [|b bs Hb _ IH]; [done|]. cbn [map]. by rewrite byte_of_char_of, IH. Qed.

Lemma bytes_are_bytes t : Forall is_byte (bytes t).
Proof. induction t; constructor; [apply byte_of_is_byte | done]. Qed.

(** ** base64.RawURLEncoding *)

Definition alphabet : text := T "ABCDEFGHIJKLMNOPQRSTUVWXYZabcdefghijklmnopqrstuvwxyz0123456789-_".

Definition enc_char (v : Z) : Ascii.ascii := nth (Z.to_nat v) alphabet "A"%char.

Fixpoint index_of (c : Ascii.ascii) (t : text) : option Z :=
  match t with [] => None | a :: t => if decide (a = c) then Some 0 else (fun n => n + 1) <$> index_of c t end.

Definition dec_char (c : Ascii.ascii) : option Z := index_of c alphabet.

(** [EncodeToString]: three bytes are four characters, a rest of one or two is two or
    three, without padding. *)
Fixpoint Encode (bs : list Z) : text :=
  match bs with
  | a :: b :: c :: bs =>
      let n := a * 65536 + b * 256 + c in
      enc_char (n / 262144) :: enc_char (n / 4096 mod 64) :: enc_char (n / 64 mod 64) :: enc_char (n mod 64) :: Encode bs
  | [a; b] => let n := a * 256 + b in [enc_char (n / 1024); enc_char (n / 16 mod 64); enc_char (n mod 16 * 4)]
  | [a] => [enc_char (a / 4); enc_char (a mod 4 * 16)]
  | [] => []
  end.

(** The values of the characters; a line break is passed over. *)
Fixpoint sextets (t : text) : option (list Z) :=
  match t with
  | [] => Some []
  | c :: t => if decide (c = char_of 10 \/ c = char_of 13) then sextets t else v ← dec_char c; vs ← sextets t; Some (v :: vs)
  end.

(** Groups of four; the bits of a shorter last group that are no byte are not looked at,
    and one left over is a fault. *)
Fixpoint groups (vs : list Z) : option (list Z) :=
  match vs with
  | a :: b :: c :: d :: vs =>
      let n := a * 262144 + b * 4096 + c * 64 + d in
      bs ← groups vs; Some (n / 65536 :: n / 256 mod 256 :: n mod 256 :: bs)
  | [a; b; c] => let n := a * 4096 + b * 64 + c in Some [n / 1024; n / 4 mod 256]
  | [a; b] => Some [(a * 64 + b) / 16]
  | [_] => None
  | [] => Some []
  end.

(** [DecodeString]. *)
Definition Decode (t : text) : option (list Z) := vs ← sextets t; groups vs.

Lemma enc_char_dec v : 0 <= v < 64 -> dec_char (enc_char v) = Some v /\ enc_char v <> char_of 10 /\ enc_char v <> char_of 13.
Proof.
  intros Hv. assert (forallb (fun v => bool_decide (dec_char (enc_char v) = Some v /\ enc_char v <> char_of 10 /\ enc_char v <> char_of 13)) (seqZ 0 64) = true) as H
    by (vm_compute; reflexivity).
  rewrite forallb_forall in H. specialize (H v). rewrite bool_decide_eq_true in H. apply H. apply list_elem_of_In, elem_of_seqZ. lia.
Qed.

Lemma sextets_enc v t : 0 <= v < 64 -> sextets (enc_char v :: t) = (fun vs => v :: vs) <$> sextets t.
Proof.
  intros Hv. destruct (enc_char_dec v Hv) as (Hd & H1 & H2). cbn [sextets]. rewrite decide_False by (intros [|]; done). rewrite Hd. cbn. by destruct (sextets t).
Qed.

(** Three bytes at a time. *)
Lemma bytes_ind3 (P : list Z -> Prop) : P [] -> (forall a, P [a]) -> (forall a b, P [a; b]) -> (forall a b c l, P l -> P (a :: b :: c :: l)) -> forall l, P l.
Proof.
  intros H0 H1 H2 H3. assert (forall l, P l /\ (forall a, P (a :: l)) /\ forall a b, P (a :: b :: l)) as H; [|intros l; apply H].
  induction l as [|x l (IH1 & IH2 & IH3)]; [done|]. split; [apply IH2|]. split; [intros a; apply IH3|]. intros a b. by apply H3.
Qed.

Lemma Decode_Encode bs : Forall is_byte bs -> Decode (Encode bs) = Some bs.
Proof.
  unfold Decode. induction bs as [|a|a b|a b c bs IH] using bytes_ind3; intros H; cbn [Encode].
  - done.
  - apply Forall_inv in H. unfold is_byte in H. rewrite !sextets_enc by (Z.to_euclidean_division_equations; lia).
    cbn. f_equal. f_equal. Z.to_euclidean_division_equations; lia.
  - apply Forall_cons in H as [Ha H]. apply Forall_inv in H. unfold is_byte in *. rewrite !sextets_enc by (Z.to_euclidean_division_equations; lia).
    cbn. f_equal. f_equal; [|f_equal]; Z.to_euclidean_division_equations; lia.
  - apply Forall_cons in H as [Ha H]. apply Forall_cons in H as [Hb H]. apply Forall_cons in H as [Hc H]. unfold is_byte in Ha, Hb, Hc.
    rewrite !sextets_enc by (Z.to_euclidean_division_equations; lia). specialize (IH H). destruct (sextets (Encode bs)) as [vs|]; [|done]. cbn in IH |- *. rewrite IH. cbn.
    f_equal. f_equal; [|f_equal; [|f_equal]]; Z.to_euclidean_division_equations; lia.
Qed.

Definition in_alphabet (c : Ascii.ascii) : Prop := c ∈ alphabet.

Lemma enc_char_in v : 0 <= v < 64 -> in_alphabet (enc_char v).
Proof.
  intros Hv. assert (forallb (fun v => bool_decide (in_alphabet (enc_char v))) (seqZ 0 64) = true) as H by (vm_compute; reflexivity).
  rewrite forallb_forall in H. specialize (H v). rewrite bool_decide_eq_true in H. apply H. apply list_elem_of_In, elem_of_seqZ. lia.
Qed.

Lemma Encode_chars bs : Forall is_byte bs -> Forall in_alphabet (Encode bs).
Proof.
  induction bs as [|a|a b|a b c bs IH] using bytes_ind3; intros H; cbn [Encode]; [done| | |];
    repeat (apply Forall_cons in H as [? H]); unfold is_byte in *;
    repeat (constructor; [apply enc_char_in; Z.to_euclidean_division_equations; lia|]); by (done || apply IH).
Qed.

Lemma Encode_nonempty bs : bs <> [] -> Encode bs <> [].
Proof. by destruct bs as [|a [|b [|c bs]]]. Qed.

(** No character of an encoding is a full stop, which separates the parts of a token. *)
Lemma Encode_no_dot bs : Forall is_byte bs -> "."%char ∉ Encode bs.
Proof.
  intros H Hd. apply Encode_chars in H. rewrite Forall_forall in H. specialize (H _ Hd). unfold in_alphabet in H.
  assert (bool_decide ("."%char ∈ alphabet) = false) as Hn by (vm_compute; reflexivity). by apply bool_decide_eq_false in Hn.
Qed.

(** Without the line breaks that are passed over, there is nothing but the alphabet. *)
Lemma Decode_chars t bs : Decode t = Some bs -> Forall (fun c => in_alphabet c \/ c = char_of 10 \/ c = char_of 13) t.
Proof.
  unfold Decode. assert (forall vs, sextets t = Some vs -> Forall (fun c => in_alphabet c \/ c = char_of 10 \/ c = char_of 13) t) as H.
  { induction t as [|c t IH]; intros vs; [constructor|]. cbn [sextets]. case_decide as Hc; [intros H; constructor; [by right | by eapply IH]|].
    destruct (dec_char c) as [v|] eqn:Ed; [|done]. destruct (sextets t) as [ws|]; [|done]. intros _. constructor; [|by eapply IH]. left.
    unfold dec_char in Ed. unfold in_alphabet. revert v Ed. generalize alphabet. intros al0. induction al0 as [|a al IHa]; intros v; [done|]. cbn [index_of].
    case_decide as Ha; [subst; by left|]. destruct (index_of c al) eqn:E; [|done]. intros _. right. by eapply IHa. }
  destruct (sextets t) as [vs|]; [|done]. intros _. by eapply H.
Qed.

(** ** encoding/hex *)

Definition hex_char (v : Z) : Ascii.ascii := nth (Z.to_nat v) (T "0123456789abcdef") "0"%char.

Definition hex_val (c : Ascii.ascii) : option Z :=
  match index_of c (T "0123456789abcdef") with Some v => Some v | None => index_of (lower_ascii c) (T "0123456789abcdef") end.

Fixpoint EncodeHex (bs : list Z) : text :=
  match bs with b :: bs => hex_char (b / 16) :: hex_char (b mod 16) :: EncodeHex bs | [] => [] end.

Fixpoint DecodeHex (t : text) : option (list Z) :=
  match t with
  | [] => Some []
  | a :: b :: t => x ← hex_val a; y ← hex_val b; bs ← DecodeHex t; Some (x * 16 + y :: bs)
  | [_] => None
  end.

Lemma hex_char_val v : 0 <= v < 16 -> hex_val (hex_char v) = Some v /\ is_space (hex_char v) = false.
Proof.
  intros Hv. assert (forallb (fun v => bool_decide (hex_val (hex_char v) = Some v /\ is_space (hex_char v) = false)) (seqZ 0 16) = true) as H by (vm_compute; reflexivity).
  rewrite forallb_forall in H. specialize (H v). rewrite bool_decide_eq_true in H. apply H. apply list_elem_of_In, elem_of_seqZ. lia.
Qed.

Lemma DecodeHex_EncodeHex bs : Forall is_byte bs -> DecodeHex (EncodeHex bs) = Some bs.
Proof.
  induction 1 as [|b bs Hb _ IH]; [done|]. unfold is_byte in Hb. cbn [EncodeHex DecodeHex].
  rewrite (proj1 (hex_char_val (b / 16) ltac:(Z.to_euclidean_division_equations; lia))), (proj1 (hex_char_val (b mod 16) ltac:(Z.to_euclidean_division_equations; lia))), IH.
  cbn. f_equal. f_equal. Z.to_euclidean_division_equations; lia.
Qed.

Lemma EncodeHex_no_space bs : Forall is_byte bs -> forall c, c ∈ EncodeHex bs -> is_space c = false.
Proof.
  induction 1 as [|b bs Hb _ IH]; intros c Hc; [by apply elem_of_nil in Hc|]. unfold is_byte in Hb. cbn [EncodeHex] in Hc.
  apply elem_of_cons in Hc as [->|Hc]; [apply (hex_char_val (b / 16)); Z.to_euclidean_division_equations; lia|].
  apply elem_of_cons in Hc as [->|Hc]; [apply (hex_char_val (b mod 16)); Z.to_euclidean_division_equations; lia | by apply IH].
Qed.

Lemma EncodeHex_length bs : length (EncodeHex bs) = (2 * length bs)%nat.
Proof. induction bs as [|b bs IH]; [done|]. cbn [EncodeHex length]. rewrite IH. lia. Qed.
