(* ===== verification/Licence.v ===== *)
(** The product licence (src/server/internal/licence/licence.go, manager.go):
    the signed token, what makes one valid, and the manager that holds the
    installed licence of a server, stores it, watches its date and tells the
    seat count to one callback.

    Ed25519 and the JSON of the payload are arguments of the operations; what is
    assumed of them is stated where it is used. *)

From S2P Require Import Prelude Text.
From S2P Require Base64.
Open Scope Z_scope.

(** ** The document *)

Record Licence := mkLicence {
  V : Z;
  ID : text;
  Customer : text;
  InstallID : text;
  Seats : Z;
  IssuedAt : Z;
  ValidUntil : Z;
}.

Definition Prefix : text := T "DP1.".
Definition MaxLen : Z := 4096.
Definition WarnWindow : Z := 30 * 24 * ns_hour.
Definition SignatureSize : Z := 64.
Definition PublicKeySize : Z := 32.
Definition PrivateKeySize : Z := 64.

Inductive err := ErrFormat | ErrSignature | ErrPayload | ErrWrongInstall | ErrExpired | ErrKey | ErrMarshal | ErrStore | ErrRead.

#[export] Instance err_eq_dec : EqDecision err.
Proof. solve_decision. Defined.

(** [None] is no error. *)
Definition validate (l : Licence) : option err :=
  if decide (V l <> 1) then Some ErrPayload
  else if decide (ID l = []) then Some ErrPayload
  else if decide (Customer l = []) then Some ErrPayload
  else if decide (InstallID l = []) then Some ErrPayload
  else if decide (Seats l < 0) then Some ErrPayload
  else if is_zero (IssuedAt l) || is_zero (ValidUntil l) then Some ErrPayload
  else if negb (after (ValidUntil l) (IssuedAt l)) then Some ErrPayload
  else None.

Section tokens.
Context
  (json_decode : list Z -> option (Licence * bool))   (* the value, and [More()] after it *)
  (json_encode : Licence -> option (list Z))
  (verify_sig : list Z -> text -> list Z -> bool) (sign_sig : list Z -> text -> list Z)
  (PublicKey : list Z).

Definition Parse (token : text) : err + Licence :=
  if decide (MaxLen < zlen token) then inl ErrFormat else
  if negb (has_prefix_t Prefix token) then inl ErrFormat else
  match Split (TrimPrefix token Prefix) "."%char with
  | [p; s] =>
      if decide (p = [] \/ s = []) then inl ErrFormat else
      match Base64.Decode p, Base64.Decode s with
      | None, _ => inl ErrFormat
      | _, None => inl ErrFormat
      | Some payload, Some sig =>
          if decide (zlen sig <> SignatureSize) then inl ErrFormat else
          if decide (zlen PublicKey <> PublicKeySize) then inl ErrSignature else
          if negb (verify_sig PublicKey (Prefix ++ p) sig) then inl ErrSignature else
          match json_decode payload with
          | None => inl ErrPayload
          | Some (l, more) =>
              if more : bool then inl ErrPayload else
              match validate l with Some e => inl e | None => inr l end
          end
      end
  | _ => inl ErrFormat
  end.

Definition Sign (priv : list Z) (l : Licence) : err + text :=
  match validate l with
  | Some e => inl e
  | None =>
      if decide (zlen priv <> PrivateKeySize) then inl ErrKey else
      match json_encode l with
      | None => inl ErrMarshal
      | Some payload =>
          let b64 := Base64.Encode payload in
          inr (Prefix ++ b64 ++ T "." ++ Base64.Encode (sign_sig priv (Prefix ++ b64)))
      end
  end.

Definition Check (l : Licence) (installID : text) (now : Z) : option err :=
  if decide (InstallID l <> installID) then Some ErrWrongInstall
  else if negb (before now (ValidUntil l)) then Some ErrExpired
  else None.

Inductive State := StateMissing | StateInvalid | StateWrongInstall | StateActive | StateExpiring | StateExpired.

#[export] Instance State_eq_dec : EqDecision State.
Proof. solve_decision. Defined.

Definition StateAt (l : Licence) (now : Z) : State :=
  if negb (before now (ValidUntil l)) then StateExpired
  else if after (now + WarnWindow) (ValidUntil l) then StateExpiring
  else StateActive.

Definition DaysLeft (l : Licence) (now : Z) : Z :=
  let d := time_sub (ValidUntil l) now in
  if decide (d <= 0) then 0 else Z.quot d (24 * ns_hour).

(** ** What the checks accept *)

(** C31: [Parse] accepts exactly the vendor-signed licences: a token of at most
    4096 bytes of the form [DP1.p.s], where [s] decodes to a 64-byte signature
    that the compiled-in key (32 bytes) verifies over the text [DP1.p] itself,
    [p] decodes to one JSON licence with nothing after it, and that licence is
    valid: version 1, named, bound to an install id, no negative seats, and
    valid until after it was issued. With no key compiled in it accepts
    nothing. *)
Theorem parse_accepts_exactly_signed (token : text) (l : Licence) :
  Parse token = inr l <->
  exists p s payload sig,
    token = Prefix ++ p ++ ("."%char :: s) /\ zlen token <= MaxLen
    /\ p <> [] /\ s <> [] /\ ("."%char ∉ p) /\ ("."%char ∉ s)
    /\ Base64.Decode p = Some payload /\ Base64.Decode s = Some sig /\ zlen sig = SignatureSize
    /\ zlen PublicKey = PublicKeySize /\ verify_sig PublicKey (Prefix ++ p) sig = true
    /\ json_decode payload = Some (l, false)
    /\ V l = 1 /\ ID l <> [] /\ Customer l <> [] /\ InstallID l <> [] /\ 0 <= Seats l
    /\ IssuedAt l <> 0 /\ ValidUntil l <> 0 /\ IssuedAt l < ValidUntil l.
Proof.
  assert (validate l = None <-> V l = 1 /\ ID l <> [] /\ Customer l <> [] /\ InstallID l <> [] /\ 0 <= Seats l
    /\ IssuedAt l <> 0 /\ ValidUntil l <> 0 /\ IssuedAt l < ValidUntil l) as Hval.
  { unfold validate, is_zero, after. split.
    - intros H. repeat case_decide; try done.
      destruct (IssuedAt l =? 0) eqn:E1, (ValidUntil l =? 0) eqn:E2, (IssuedAt l <? ValidUntil l) eqn:E3; simpl in H; try done.
      repeat split; try done; lia.
    - intros (HV&HI&HC&HN&HS&HA&HU&HL).
      rewrite decide_False by auto. rewrite !decide_False by (done || lia).
      rewrite (proj2 (Z.eqb_neq _ _) HA), (proj2 (Z.eqb_neq _ _) HU), (proj2 (Z.ltb_lt _ _) HL). done. }
  unfold Parse. split.
  - case_decide as Hlen; [done|]. destruct (has_prefix_t Prefix token) eqn:Hpre; simpl; [|done].
    pose proof Hpre as Hpre'. apply has_prefix_t_true in Hpre' as [r ->].
    unfold TrimPrefix. rewrite Hpre, drop_app_length.
    destruct (Split r "."%char) as [|p [|s [|]]] eqn:Es; try done.
    apply Split_two in Es as (->&Hp&Hs). case_decide as Hne; [done|].
    destruct (Base64.Decode p) as [payload|] eqn:Ep; [|done].
    destruct (Base64.Decode s) as [sig|] eqn:Ess; [|done].
    case_decide as Hsig; [done|]. case_decide as Hkey; [done|].
    destruct (verify_sig _ _ _) eqn:Ev; simpl; [|done].
    destruct (json_decode payload) as [[l' []]|] eqn:Ej; try done.
    destruct (validate l') eqn:Evl; [done|]. intros [= ->].
    exists p, s, payload, sig. apply Hval in Evl.
    split; [done|]. split; [by apply Z.nlt_ge|]. split; [intros ->; apply Hne; auto|]. split; [intros ->; apply Hne; auto|].
    do 8 (split; [done|]). exact Evl.
  - intros (p&s&payload&sig&->&Hlen&Hp&Hs&Hdp&Hds&Ep&Ess&Hsig&Hkey&Ev&Ej&Hl).
    rewrite decide_False by lia.
    assert (has_prefix_t Prefix (Prefix ++ p ++ ("."%char :: s)) = true) as Hpre
      by (apply has_prefix_t_true; eauto).
    unfold TrimPrefix. rewrite Hpre. cbn [negb]. rewrite drop_app_length.
    rewrite (proj2 (Split_two _ p s "."%char)) by done.
    rewrite decide_False by (intros [|]; done). rewrite Ep, Ess.
    rewrite !decide_False by auto. rewrite Ev. cbn [negb]. rewrite Ej.
    apply Hval in Hl. by rewrite Hl.
Qed.

(** *** A signed licence parses *)

Lemma Sign_token priv l token : Sign priv l = inr token ->
  exists payload, json_encode l = Some payload /\ validate l = None
    /\ token = Prefix ++ Base64.Encode payload
         ++ ("."%char :: Base64.Encode (sign_sig priv (Prefix ++ Base64.Encode payload))).
Proof.
  unfold Sign. destruct (validate l); [done|]. case_decide; [done|].
  destruct (json_encode l) as [payload|]; [|done]. intros [= <-]. by exists payload.
Qed.

(** what the vendor signs, the server accepts: a token [Sign] makes for a
    licence parses back to that licence, given that the two keys belong
    together and that JSON reads back what it wrote for this licence, whenever the token is within the size cap. *)
Theorem sign_parse_roundtrip (priv : list Z) (l : Licence) (payload : list Z) (tok : text) :
  Sign priv l = inr tok -> json_encode l = Some payload -> json_decode payload = Some (l, false) ->
  let sig := sign_sig priv (Prefix ++ Base64.Encode payload) in
  payload <> [] -> Forall Base64.is_byte payload -> Forall Base64.is_byte sig ->
  zlen sig = SignatureSize -> zlen PublicKey = PublicKeySize ->
  verify_sig PublicKey (Prefix ++ Base64.Encode payload) sig = true ->
  zlen tok <= MaxLen -> Parse tok = inr l.
Proof.
  intros Hs He Hd sig Hne Hbp Hbs Hsl Hpk Hv Hlen. apply Sign_token in Hs as (p&Ep&Hval&->).
  rewrite He in Ep. injection Ep as <-. fold sig. fold sig in Hlen.
  pose proof (Base64.Decode_Encode _ Hbp) as H1. pose proof (Base64.Encode_nonempty _ Hne) as H2. pose proof (Base64.Encode_no_dot _ Hbp) as H3.
  pose proof (Base64.Decode_Encode _ Hbs) as H4. pose proof (Base64.Encode_no_dot _ Hbs) as H6.
  assert (Base64.Encode sig <> []) as H5 by (apply Base64.Encode_nonempty; by intros Hn; rewrite Hn in Hsl). unfold Parse.
  rewrite decide_False by lia.
  assert (has_prefix_t Prefix (Prefix ++ Base64.Encode payload ++ ("."%char :: Base64.Encode sig)) = true) as Hpre
    by (apply has_prefix_t_true; eauto).
  unfold TrimPrefix. rewrite Hpre. cbn [negb]. rewrite drop_app_length.
  rewrite (proj2 (Split_two _ (Base64.Encode payload) (Base64.Encode sig) "."%char)) by done.
  rewrite decide_False by (intros [|]; done). rewrite H1, H4.
  rewrite !decide_False by auto. rewrite Hv. cbn [negb]. rewrite Hd. by rewrite Hval.
Qed.

End tokens.

(** ** The manager *)

Inductive LogEntry :=
  | LogNone | LogUnreadable | LogUnusable (e : err) | LogInstalled (id : text)
  | LogExpiring (days : Z) | LogExpired.

(** [file] is the content on disk, [calls] the seat counts the callback was
    told, oldest first. *)
Record Manager := mkManager {
  installID : text;
  token : text;
  lic : option Licence;
  loadErr : option err;
  hasOnChange : bool;
  lastSeats : Z;
  warnedAt : Z;
  expiredLogged : bool;
  file : option text;
  calls : list Z;
  logs : list LogEntry;
}.

Definition with_log (m : Manager) (e : LogEntry) : Manager :=
  mkManager (installID m) (token m) (lic m) (loadErr m) (hasOnChange m) (lastSeats m) (warnedAt m)
    (expiredLogged m) (file m) (calls m) (logs m ++ [e]).

Section managing.
Context (json_decode : list Z -> option (Licence * bool))
  (verify_sig : list Z -> text -> list Z -> bool) (PublicKey : list Z).

Definition verify (id tok : text) : err + Licence :=
  match Parse json_decode verify_sig PublicKey tok with
  | inl e => inl e
  | inr l => if decide (InstallID l <> id) then inl ErrWrongInstall else inr l
  end.

Definition seatsLocked (m : Manager) (now : Z) : Z :=
  match lic m with
  | None => 0
  | Some l => if decide (StateAt l now = StateExpired) then 0 else Seats l
  end.

Definition stateLocked (m : Manager) (now : Z) : State :=
  match lic m, loadErr m with
  | Some l, _ => StateAt l now
  | None, Some e => if decide (e = ErrWrongInstall) then StateWrongInstall else StateInvalid
  | None, None => StateMissing
  end.

Definition logStateLocked (m : Manager) (now : Z) : Manager :=
  match lic m with
  | None => m
  | Some l =>
      match StateAt l now with
      | StateExpiring =>
          if is_zero (warnedAt m) || (24 * ns_hour <=? time_sub now (warnedAt m)) then
            mkManager (installID m) (token m) (lic m) (loadErr m) (hasOnChange m) (lastSeats m) now
              (expiredLogged m) (file m) (calls m) (logs m ++ [LogExpiring (DaysLeft l now)])
          else m
      | StateExpired =>
          if negb (expiredLogged m) then
            mkManager (installID m) (token m) (lic m) (loadErr m) (hasOnChange m) (lastSeats m) (warnedAt m)
              true (file m) (calls m) (logs m ++ [LogExpired])
          else m
      | _ => m
      end
  end.

(** What [os.ReadFile] finds. *)
Inductive read_result := NotExist | ReadError | Content (raw : text).

Definition Open (id : text) (disk : read_result) (now : Z) : Manager :=
  let content := match disk with Content raw => Some raw | _ => None end in
  let m0 := mkManager id [] None None false 0 0 false content [] [] in
  let m := match disk with
    | NotExist => with_log m0 LogNone
    | ReadError => with_log (mkManager id [] None (Some ErrRead) false 0 0 false content [] []) LogUnreadable
    | Content raw =>
        let tok := TrimSpace raw in
        match verify id tok with
        | inl e => with_log (mkManager id [] None (Some e) false 0 0 false content [] []) (LogUnusable e)
        | inr l => mkManager id tok (Some l) None false 0 0 false content [] []
        end
    end in
  let m := mkManager (installID m) (token m) (lic m) (loadErr m) (hasOnChange m) (seatsLocked m now)
    (warnedAt m) (expiredLogged m) (file m) (calls m) (logs m) in
  logStateLocked m now.

Definition OnChange (m : Manager) : Manager :=
  mkManager (installID m) (token m) (lic m) (loadErr m) true (lastSeats m) (warnedAt m)
    (expiredLogged m) (file m) (calls m) (logs m).

(** [fire] up to its unlock: the new state, and the call it will make. *)
Definition fire_decide (now : Z) (m : Manager) : Manager * option Z :=
  let seats := seatsLocked m now in
  let changed := bool_decide (seats <> lastSeats m) in
  (mkManager (installID m) (token m) (lic m) (loadErr m) (hasOnChange m) seats (warnedAt m)
     (expiredLogged m) (file m) (calls m) (logs m),
   if changed && hasOnChange m then Some seats else None).

(** The call itself, made without the lock. *)
Definition deliver (seats : Z) (m : Manager) : Manager :=
  mkManager (installID m) (token m) (lic m) (loadErr m) (hasOnChange m) (lastSeats m) (warnedAt m)
    (expiredLogged m) (file m) (calls m ++ [seats]) (logs m).

Definition fire (now : Z) (m : Manager) : Manager :=
  let '(m, call) := fire_decide now m in
  match call with Some seats => deliver seats m | None => m end.

(** [Install] up to its call of [fire]: the state, the error, and whether it
    goes on to [fire]. [now] is the clock of the check and of [fire]; [stored]
    is whether [writeFile] succeeds: it writes beside the target and renames,
    so it replaces the content or leaves it. *)
Definition install_store (tok : text) (now : Z) (stored : bool) (m : Manager) : Manager * option err * bool :=
  let tok := TrimSpace tok in
  match verify (installID m) tok with
  | inl e => (m, Some e, false)
  | inr l =>
      match Check l (installID m) now with
      | Some e => (m, Some e, false)
      | None =>
          if decide (tok = token m) then (m, None, false) else
          if negb stored then (m, Some ErrStore, false) else
          (mkManager (installID m) tok (Some l) None (hasOnChange m) (lastSeats m) 0 false
             (Some (tok ++ [ascii_of_N 10])) (calls m) (logs m ++ [LogInstalled (ID l)]), None, true)
      end
  end.

Definition Install (tok : text) (now : Z) (stored : bool) (m : Manager) : Manager * option err :=
  let '(m, e, fires) := install_store tok now stored m in
  (if fires : bool then fire now m else m, e).

Definition tick (now : Z) (m : Manager) : Manager := fire now (logStateLocked m now).

(** The clock is read twice. *)
Definition Token (m : Manager) (now now' : Z) : text :=
  if (seatsLocked m now =? 0)
     && match lic m with None => true | Some l => bool_decide (StateAt l now' = StateExpired) end
  then [] else token m.

Record Summary := mkSummary {
  s_State : State; s_InstallID : text; s_ID : text; s_Customer : text; s_Seats : Z; s_SeatsUsed : Z;
  s_IssuedAt : Z; s_ValidUntil : Z; s_DaysLeft : Z; s_Error : option err }.

Definition Summarise (m : Manager) (seatsUsed now : Z) : Summary :=
  match lic m with
  | None => mkSummary (stateLocked m now) (installID m) [] [] 0 seatsUsed 0 0 0 (loadErr m)
  | Some l => mkSummary (stateLocked m now) (installID m) (ID l) (Customer l) (seatsLocked m now) seatsUsed
      (IssuedAt l) (ValidUntil l) (DaysLeft l now) (loadErr m)
  end.

(** ** Histories of a manager *)

Inductive Op := OpInstall (tok : text) (now : Z) (stored : bool) | OpTick (now : Z) | OpOnChange.

Definition apply_op (m : Manager) (o : Op) : Manager :=
  match o with
  | OpInstall tok now stored => fst (Install tok now stored m)
  | OpTick now => tick now m
  | OpOnChange => OnChange m
  end.

Definition run (m : Manager) (ops : list Op) : Manager := foldl apply_op m ops.

(** The fields that say what is installed. *)
Definition installed (m : Manager) : text * text * option Licence * option text :=
  (installID m, token m, lic m, file m).

Lemma logStateLocked_frame m now :
  installed (logStateLocked m now) = installed m /\ calls (logStateLocked m now) = calls m
  /\ lastSeats (logStateLocked m now) = lastSeats m /\ hasOnChange (logStateLocked m now) = hasOnChange m.
Proof.
  unfold logStateLocked. destruct (lic m) as [l|] eqn:El; [|done].
  destruct (StateAt l now); try done; destruct (_ || _) || destruct (negb _); unfold installed; simpl; rewrite ?El; done.
Qed.

Lemma fire_frame now m : installed (fire now m) = installed m /\ hasOnChange (fire now m) = hasOnChange m
  /\ lastSeats (fire now m) = seatsLocked m now
  /\ calls (fire now m) = if decide (seatsLocked m now <> lastSeats m /\ hasOnChange m = true)
                          then calls m ++ [seatsLocked m now] else calls m.
Proof.
  unfold fire, fire_decide. destruct (hasOnChange m) eqn:Eh; rewrite ?andb_true_r, ?andb_false_r.
  - destruct (decide (seatsLocked m now = lastSeats m)) as [E|E].
    + rewrite bool_decide_eq_false_2 by auto. rewrite decide_False by naive_solver. done.
    + rewrite bool_decide_eq_true_2 by auto. rewrite decide_True by auto. done.
  - rewrite decide_False by naive_solver. done.
Qed.

Lemma seatsLocked_installed m m' now : installed m = installed m' -> seatsLocked m now = seatsLocked m' now.
Proof. unfold installed, seatsLocked. intros [= _ _ -> _]. done. Qed.

(** What is installed is on disk and verifies. *)
Definition stored_ok (m : Manager) : Prop :=
  match lic m with
  | None => token m = []
  | Some l => exists c, file m = Some c /\ TrimSpace c = token m /\ verify (installID m) (token m) = inr l
  end.

Lemma stored_ok_frame m m' : installed m = installed m' -> stored_ok m -> stored_ok m'.
Proof. unfold installed, stored_ok. intros [= -> -> -> ->]. done. Qed.

Lemma verify_nil id : exists e, verify id [] = inl e.
Proof. by exists ErrFormat. Qed.

Lemma Install_cases tok now stored m : stored_ok m ->
  match Install tok now stored m with
  | (m', Some e) => m' = m
  | (m', None) => exists l, verify (installID m) (TrimSpace tok) = inr l /\ Check l (installID m) now = None
      /\ installID m' = installID m /\ token m' = TrimSpace tok /\ lic m' = Some l /\ stored_ok m'
  end.
Proof.
  intros Hok. unfold Install, install_store.
  destruct (verify (installID m) (TrimSpace tok)) as [e|l] eqn:Ev; [done|].
  destruct (Check l (installID m) now) eqn:Ec; [done|].
  case_decide as Et.
  - exists l. split; [done|]. split; [done|]. split; [done|]. split; [done|]. split; [|done].
    unfold stored_ok in Hok. destruct (lic m) as [l'|].
    + destruct Hok as (c&_&_&Ev'). rewrite <- Et in Ev'. congruence.
    + destruct (verify_nil (installID m)) as [e Ee]. rewrite Et, Hok in Ev. congruence.
  - destruct stored; simpl; [|done].
    set (m1 := mkManager _ _ _ _ _ _ _ _ _ _ _).
    destruct (fire_frame now m1) as (Hf&_). exists l.
    assert (stored_ok m1) as Hok1.
    { exists (TrimSpace tok ++ [ascii_of_N 10]). split; [done|]. split; [|done].
      apply TrimSpace_snoc; [apply TrimSpace_trimmed|done]. }
    pose proof (stored_ok_frame m1 (fire now m1) (eq_sym Hf) Hok1).
    unfold installed in Hf. injection Hf as E1 E2 E3 E4. rewrite E1, E2, E3. done.
Qed.

Lemma stored_ok_Open id disk now : stored_ok (Open id disk now).
Proof.
  unfold Open. match goal with |- stored_ok (logStateLocked ?m _) => set (m1 := m) end.
  apply (stored_ok_frame m1); [symmetry; apply logStateLocked_frame|].
  unfold m1, stored_ok. destruct disk as [| |raw]; simpl; [done|done|].
  destruct (verify id (TrimSpace raw)) as [e|l] eqn:E; simpl; [done|]. by exists raw.
Qed.

Lemma stored_ok_run m ops : stored_ok m -> stored_ok (run m ops).
Proof.
  revert m. induction ops as [|o ops IH]; intros m Hm; [done|]. apply IH. destruct o as [tok now st|now|].
  - simpl. pose proof (Install_cases tok now st m Hm) as H. destruct (Install tok now st m) as [m' [e|]]; simpl.
    + by subst.
    + by destruct H as (?&_&_&_&_&_&?).
  - simpl. unfold tick. apply (stored_ok_frame m); [|done].
    destruct (logStateLocked_frame m now) as (E1&_). destruct (fire_frame now (logStateLocked m now)) as (E2&_).
    congruence.
  - apply (stored_ok_frame m); done.
Qed.

(** C27: installing is all or nothing and survives a restart: whatever happened
    to the manager before, a refused install (not a licence, another server's,
    expired, or not stored) changes nothing in memory or on disk; an accepted
    one is a verified licence in force for this server, and a server that
    opens the stored file at any later time finds the same token and licence
    and grants the same seats. *)
Theorem install_atomic_and_durable (id tok : text) (disk : read_result) (ops : list Op)
    (now0 now later : Z) (stored : bool) :
  let m := run (Open id disk now0) ops in
  match Install tok now stored m with
  | (m', Some e) => m' = m
  | (m', None) => exists l c, Parse json_decode verify_sig PublicKey (TrimSpace tok) = inr l /\ InstallID l = installID m /\ now < ValidUntil l
      /\ file m' = Some c
      /\ let m2 := Open (installID m) (Content c) later in
         token m2 = TrimSpace tok /\ lic m2 = Some l /\ seatsLocked m2 later = seatsLocked m' later
  end.
Proof.
  intros m. assert (stored_ok m) as Hok by (apply stored_ok_run, stored_ok_Open).
  pose proof (Install_cases tok now stored m Hok) as H.
  destruct (Install tok now stored m) as [m' [e|]]; [done|].
  destruct H as (l&Hv&Hc&Eid&Et&El&Hok'). unfold stored_ok in Hok'. rewrite El in Hok'.
  destruct Hok' as (c&Ef&Ec&Ev). exists l, c.
  pose proof Hv as Hv'. unfold verify in Hv'. destruct (Parse _ _ _ (TrimSpace tok)) as [|l'] eqn:Ep; [done|].
  case_decide as Hi; [done|]. simplify_eq. split; [done|]. split; [done|]. split.
  { unfold Check in Hc. rewrite decide_False in Hc by auto.
    destruct (before now (ValidUntil l)) eqn:Eb; [|done]. unfold before in Eb. lia. }
  split; [done|].
  assert (installed (Open (installID m) (Content c) later) = (installID m, token m', Some l, Some c)) as Eo.
  { unfold Open. rewrite Ec, <- Eid, Ev. rewrite (proj1 (logStateLocked_frame _ _)). done. }
  unfold installed in Eo. injection Eo as E1 E2 E3 E4. cbv zeta. rewrite E2, E3, Et. split; [done|]. split; [done|].
  unfold seatsLocked. by rewrite E3, El.
Qed.

(** No two neighbours are equal. *)
Fixpoint all_change (l : list Z) : Prop :=
  match l with
  | a :: ((b :: _) as t) => a <> b /\ all_change t
  | _ => True
  end.

Lemma all_change_snoc l a b : last l = Some a -> all_change l -> a <> b -> all_change (l ++ [b]).
Proof.
  induction l as [|x l IH]; [done|]. destruct l as [|y l].
  - intros [= ->] _ Hab. simpl. done.
  - intros Hl [Hxy Hc] Hab. split; [done|]. by apply IH.
Qed.

Definition told (init : Z) (m : Manager) : Prop :=
  hasOnChange m = true /\ all_change (init :: calls m) /\ last (init :: calls m) = Some (lastSeats m).

Lemma told_fire init now m : told init m -> told init (fire now m).
Proof.
  intros (Hh&Hc&Hl). destruct (fire_frame now m) as (_&E1&E2&E3). unfold told. rewrite E1, E2, E3.
  split; [done|]. case_decide as Hd.
  - rewrite app_comm_cons. split; [eapply all_change_snoc; eauto; naive_solver|]. apply last_snoc.
  - split; [done|]. destruct (decide (seatsLocked m now = lastSeats m)) as [->|]; [done|]. naive_solver.
Qed.

Lemma told_ext init m m' : hasOnChange m' = hasOnChange m -> calls m' = calls m -> lastSeats m' = lastSeats m ->
  told init m -> told init m'.
Proof. unfold told. by intros -> -> ->. Qed.

Lemma told_run init m ops : told init m -> told init (run m ops).
Proof.
  revert m. induction ops as [|o ops IH]; intros m Hm; [done|]. apply IH. destruct o as [tok now st|now|]; simpl.
  - unfold Install, install_store. destruct (verify _ _); [done|]. destruct (Check _ _ _); [done|].
    case_decide; [done|]. destruct st; simpl; [|done]. apply told_fire. by apply (told_ext init m).
  - unfold tick. apply told_fire. destruct (logStateLocked_frame m now) as (_&?&?&?). by apply (told_ext init m).
  - apply (told_ext init m); try done. simpl. symmetry. by destruct Hm.
Qed.

(** with its operations run one at a time, the manager tells its callback
    every change of the seat count once, in order, and nothing else: from the
    count at opening, no two successive values told are equal; after every
    tick the last value told is the count then; and once the installed licence
    has expired that value is 0. *)
Theorem every_change_told_once (id : text) (disk : read_result) (now0 now : Z) (ops : list Op) :
  let m0 := OnChange (Open id disk now0) in
  let init := seatsLocked m0 now0 in
  let m := run m0 ops in
  let m' := tick now m in
  all_change (init :: calls m') /\ last (init :: calls m') = Some (seatsLocked m' now)
  /\ (calls m' = calls m \/ calls m' = calls m ++ [seatsLocked m' now])
  /\ forall l, lic m = Some l -> ValidUntil l <= now -> last (init :: calls m') = Some 0.
Proof.
  intros m0 init m m'.
  assert (told init m0) as H0.
  { split; [done|]. unfold m0, OnChange, init. simpl. unfold Open.
    match goal with |- context [logStateLocked ?x now0] =>
      set (m1 := x); destruct (logStateLocked_frame m1 now0) as (E1&E2&E3&E4) end.
    rewrite E2, E3. assert (calls m1 = []) as ->.
    { unfold m1. destruct disk; [done|done|]. simpl. by destruct (verify _ _). }
    assert (lastSeats m1 = seatsLocked m1 now0) as -> by done.
    split; [done|]. simpl. f_equal. apply seatsLocked_installed.
    rewrite <- E1. done. }
  assert (told init m') as (_&Hc&Hl) by (apply told_fire;
    destruct (logStateLocked_frame m now) as (_&?&?&?); apply (told_ext init m); auto; by apply told_run).
  unfold m', tick in *. destruct (logStateLocked_frame m now) as (F1&F2&F3&F4).
  destruct (fire_frame now (logStateLocked m now)) as (G1&G2&G3&G4).
  assert (seatsLocked (fire now (logStateLocked m now)) now = seatsLocked m now) as Es
    by (apply seatsLocked_installed; congruence).
  assert (seatsLocked (logStateLocked m now) now = seatsLocked m now) as Es' by (by apply seatsLocked_installed).
  rewrite G3, Es' in Hl. rewrite Es. split; [done|]. split; [done|]. split.
  - rewrite G4, F2, Es'. match goal with |- context [decide ?P] => destruct (decide P) end; [by right|by left].
  - intros l El Hexp. rewrite Hl. unfold seatsLocked. rewrite El. rewrite decide_True; [done|].
    unfold StateAt, before. by rewrite (proj2 (Z.ltb_ge _ _)) by lia.
Qed.

(** ** Two threads

    [fire] makes its call after it has released the lock, so the calls of two
    threads (the tick and an install) can overtake each other. A run of both
    is a sequence of these steps; [pending] are the calls decided on and not
    yet made. *)
Inductive step : Manager * list Z -> Manager * list Z -> Prop :=
  | StepTick now m m' call pending :
      fire_decide now (logStateLocked m now) = (m', call) ->
      step (m, pending) (m', pending ++ option_list call)
  | StepInstall tok now m m1 m' call pending :
      install_store tok now true m = (m1, None, true) -> fire_decide now m1 = (m', call) ->
      step (m, pending) (m', pending ++ option_list call)
  | StepDeliver m seats pre post :
      step (m, pre ++ seats :: post) (deliver seats m, pre ++ post).

(** The seat count the callback was last told can be wrong for good: when
    an install runs between a tick's decision that the old licence has expired
    and the call that says so, the two calls can be made in the other order.
    Then no call is left to make, the licence in force grants its seats, the
    callback was last told 0, and no later tick before that licence's own
    expiry tells it anything. *)
Theorem seat_callbacks_can_reorder (old new : Licence) (tok : text) (m : Manager) (t1 t2 : Z) :
  lic m = Some old -> 0 < Seats old -> lastSeats m = Seats old -> hasOnChange m = true ->
  ValidUntil old <= t1 <= t2 ->
  verify (installID m) (TrimSpace tok) = inr new -> Check new (installID m) t2 = None ->
  TrimSpace tok <> token m -> 0 < Seats new ->
  exists m', rtc step (m, []) (m', []) /\ lic m' = Some new /\ last (calls m') = Some 0
    /\ forall t, t < ValidUntil new -> seatsLocked m' t = Seats new
        /\ calls (tick t m') = calls m'.
Proof.
  intros Hold Hs1 Hl Hh Ht Hv Hc Hne Hs2.
  destruct (logStateLocked_frame m t1) as (F1&F2&F3&F4).
  destruct (fire_decide t1 (logStateLocked m t1)) as [m1 c1] eqn:E1.
  assert (seatsLocked (logStateLocked m t1) t1 = 0) as Hz.
  { rewrite (seatsLocked_installed _ m) by done. unfold seatsLocked. rewrite Hold, decide_True; [done|].
    unfold StateAt, before. by rewrite (proj2 (Z.ltb_ge _ _)) by lia. }
  assert (c1 = Some 0 /\ lastSeats m1 = 0 /\ hasOnChange m1 = true /\ installed m1 = installed m) as (->&L1&H1&I1).
  { unfold fire_decide in E1. rewrite Hz, F3, F4, Hl, Hh, bool_decide_eq_true_2 in E1 by lia.
    injection E1 as <- <-. split; [done|]. split; [done|]. split; [done|]. rewrite <- F1. done. }
  assert (installID m1 = installID m /\ token m1 = token m) as [I2 I3] by (unfold installed in I1; by injection I1).
  assert (before t2 (ValidUntil new) = true) as Hb.
  { unfold Check in Hc. case_decide; [done|]. by destruct (before t2 (ValidUntil new)). }
  set (m2 := mkManager (installID m1) (TrimSpace tok) (Some new) None (hasOnChange m1) (lastSeats m1) 0 false
    (Some (TrimSpace tok ++ [ascii_of_N 10])) (calls m1) (logs m1 ++ [LogInstalled (ID new)])).
  assert (install_store tok t2 true m1 = (m2, None, true)) as E2
    by (unfold install_store; by rewrite I2, Hv, Hc, decide_False, <- I2 by congruence).
  assert (seatsLocked m2 t2 = Seats new) as Hs.
  { unfold seatsLocked, m2. simpl. rewrite decide_False; [done|]. unfold StateAt. rewrite Hb. simpl.
    by destruct (after _ _). }
  destruct (fire_decide t2 m2) as [m3 c3] eqn:E3.
  assert (c3 = Some (Seats new)) as ->.
  { unfold fire_decide in E3. rewrite Hs in E3. cbn [m2 lastSeats hasOnChange] in E3.
    unfold m2 in E3. simpl in E3. rewrite L1, H1, bool_decide_eq_true_2 in E3 by lia. by injection E3. }
  assert (m3 = mkManager (installID m1) (TrimSpace tok) (Some new) None true (Seats new) 0 false
    (Some (TrimSpace tok ++ [ascii_of_N 10])) (calls m1) (logs m1 ++ [LogInstalled (ID new)])) as ->.
  { unfold fire_decide in E3. rewrite Hs in E3. injection E3 as <- _. unfold m2. simpl. by rewrite H1. }
  eexists. split; [|split; [|split]].
  - eapply rtc_l; [by apply (StepTick t1 m m1 (Some 0) [])|].
    eapply rtc_l; [eapply (StepInstall tok t2 m1 m2 _ (Some (Seats new)) [0]); [exact E2|exact E3]|].
    eapply rtc_l; [apply (StepDeliver _ (Seats new) [0] [])|].
    eapply rtc_l; [apply (StepDeliver _ 0 [] [])|]. apply rtc_refl.
  - done.
  - apply last_snoc.
  - intros t Hlt. set (m4 := deliver _ _).
    assert (seatsLocked m4 t = Seats new) as Hs4.
    { unfold seatsLocked, m4. simpl. rewrite decide_False; [done|].
      unfold StateAt, before. rewrite (proj2 (Z.ltb_lt _ _)) by lia. simpl. by destruct (after _ _). }
    split; [done|]. unfold tick. destruct (logStateLocked_frame m4 t) as (G1&G2&G3&_).
    destruct (fire_frame t (logStateLocked m4 t)) as (_&_&_&->).
    rewrite (seatsLocked_installed _ m4) by done. rewrite Hs4, G3, G2.
    by rewrite decide_False by (intros [[] _]; done).
Qed.
End managing.

(** A concrete signature scheme for the witnesses: a signature is 64 zeros, and
    JSON knows two payloads of one byte. *)
Definition demo_licence (id : string) (seats until : Z) : Licence :=
  mkLicence 1 (T id) (T "c") (T "srv") seats 5 until.
Definition demo_sig : list Z := replicate 64 0.
Definition demo_key : list Z := replicate 32 0.
Definition demo_token (x : Z) : text := Prefix ++ Base64.Encode [x] ++ T "." ++ Base64.Encode demo_sig.
Definition demo_json (x : list Z) : option (Licence * bool) :=
  if decide (x = [7]) then Some (demo_licence "old" 5 100, false) else Some (demo_licence "new" 7 1000, false).

Lemma sign_parse_roundtrip_witness :
  Parse demo_json (fun _ _ _ => true) demo_key (demo_token 7) = inr (demo_licence "old" 5 100).
Proof.
  apply (sign_parse_roundtrip demo_json (fun _ => Some [7]) (fun _ _ _ => true)
    (fun _ _ => demo_sig) demo_key demo_sig (demo_licence "old" 5 100) [7]).
  - vm_compute. reflexivity.
  - reflexivity.
  - vm_compute. reflexivity.
  - discriminate.
  - apply Forall_singleton. unfold Base64.is_byte. lia.
  - apply Forall_replicate. unfold Base64.is_byte. lia.
  - reflexivity.
  - reflexivity.
  - reflexivity.
  - vm_compute. discriminate.
Defined.

Lemma seat_callbacks_can_reorder_witness :
  let m := OnChange (Open demo_json (fun _ _ _ => true) demo_key (T "srv") (Content (demo_token 7)) 50) in
  let install := step demo_json (fun _ _ _ => true) demo_key in
  exists m', rtc install (m, []) (m', []) /\ lic m' = Some (demo_licence "new" 7 1000) /\ last (calls m') = Some 0
    /\ forall t, t < 1000 -> seatsLocked m' t = 7 /\ calls (tick t m') = calls m'.
Proof.
  apply (seat_callbacks_can_reorder demo_json (fun _ _ _ => true) demo_key
    (demo_licence "old" 5 100) (demo_licence "new" 7 1000) (demo_token 8) _ 100 200).
  - vm_compute. reflexivity.
  - vm_compute. reflexivity.
  - vm_compute. reflexivity.
  - reflexivity.
  - simpl. lia.
  - vm_compute. reflexivity.
  - vm_compute. reflexivity.
  - vm_compute. discriminate.
  - vm_compute. reflexivity.
Defined.
