(* ===== verification/SipAuth.v ===== *)
(** SIP Digest on the app leg (src/server/internal/sipauth/sipauth.go): the
    challenge and its nonce table, and the verification of a request.

    Arguments: MD5 in hex, the Digest header parser (a third-party package),
    the enrolment store's secret look-up, the random nonce and the clock. *)

From S2P Require Import Prelude Text.
Open Scope Z_scope.

(** The fields of [digest.Credentials] that are used. *)
Record Credentials := mkCredentials {
  Realm : text;
  Algorithm : text;
  QOP : text;
  Nonce : text;
  Username : text;
  Response : text;
  URI : text;
  Nc : Z;
  Cnonce : text;
}.

Inductive auth_error := ErrNoCredentials | ErrStale | ErrBadCredentials | ErrUnknownDevice.

#[export] Instance auth_error_eq_dec : EqDecision auth_error.
Proof. solve_decision. Defined.

Definition NonceTTL : Z := 5 * ns_minute.

Record Authenticator := mkAuthenticator {
  realm : text;
  nonces : gmap text Z;
}.

Definition New (realm : text) : Authenticator := mkAuthenticator realm ∅.

(** The pruning walks the map in any order: each entry is kept or dropped by
    its own age. *)
Definition newNonce (n : text) (now : Z) (a : Authenticator) : Authenticator :=
  mkAuthenticator (realm a)
    (<[n := now]> (filter (fun kv => ~ NonceTTL < time_sub now (snd kv)) (nonces a))).

(** The [WWW-Authenticate] value and the state; [n] is the nonce drawn. *)
Definition Challenge (n : text) (now : Z) (stale : bool) (a : Authenticator) : Authenticator * text :=
  let quote := [ascii_of_N 34] in
  let v := T "Digest realm=" ++ quote ++ realm a ++ quote ++ T ", nonce=" ++ quote ++ n ++ quote
           ++ T ", algorithm=MD5, qop=" ++ quote ++ T "auth" ++ quote in
  (newNonce n now a, if stale then v ++ T ", stale=true" else v).

Definition nonceValid (n : text) (now : Z) (a : Authenticator) : bool :=
  match nonces a !! n with
  | Some issued => time_sub now issued <=? NonceTTL
  | None => false
  end.

(** [%08x] *)
Definition hex_digit (d : Z) : Ascii.ascii :=
  ascii_of_N (Z.to_N (if decide (d < 10) then 48 + d else 87 + d)).

Fixpoint hex_fuel (fuel : nat) (n : Z) : text :=
  match fuel with
  | O => []
  | S fuel' => hex_fuel fuel' (n `div` 16) ++ [hex_digit (n mod 16)]
  end.

Definition hex08 (n : Z) : text := hex_fuel 8 n.

Section verification.
Context (md5hex : text -> text) (IsDigest : text -> bool) (ParseCredentials : text -> option Credentials)
  (DigestSecret : text -> option (text * text)).   (* H(A1) and the SIP user *)

Definition colon : text := T ":".

Definition HA1 (username realm password : text) : text :=
  md5hex (username ++ colon ++ realm ++ colon ++ password).

Definition response (ha1 method : text) (c : Credentials) : text :=
  let ha2 := md5hex (method ++ colon ++ URI c) in
  if decide (QOP c = []) then md5hex (ha1 ++ colon ++ Nonce c ++ colon ++ ha2)
  else md5hex (ha1 ++ colon ++ Nonce c ++ colon ++ hex08 (Nc c) ++ colon ++ Cnonce c ++ colon
               ++ QOP c ++ colon ++ ha2).

(** [header] is the Authorization header, if the request has one. *)
Definition Verify (method : text) (header : option text) (now : Z) (a : Authenticator) : auth_error + text :=
  match header with
  | None => inl ErrNoCredentials
  | Some h =>
      if negb (IsDigest h) then inl ErrNoCredentials else
      match ParseCredentials h with
      | None => inl ErrBadCredentials
      | Some c =>
          if negb (EqualFold (Realm c) (realm a)) then inl ErrBadCredentials else
          if negb (bool_decide (Algorithm c = [])) && negb (EqualFold (Algorithm c) (T "MD5"))
          then inl ErrBadCredentials else
          if decide (QOP c <> [] /\ QOP c <> T "auth") then inl ErrBadCredentials else
          if negb (nonceValid (Nonce c) now a) then inl ErrStale else
          match DigestSecret (Username c) with
          | None => inl ErrUnknownDevice
          | Some (ha1, user) =>
              if decide (response ha1 method c <> ToLower (Response c)) then inl ErrBadCredentials
              else inr user
          end
      end
  end.

(** ** Histories *)

(** The nonces issued, oldest first, with their times. *)
Definition issue (a : Authenticator) (h : list (text * Z)) : Authenticator :=
  foldl (fun a nt => newNonce (fst nt) (snd nt) a) a h.

Lemma realm_issue h a : realm (issue a h) = realm a.
Proof. revert a. induction h as [|nt h IH]; intros a; [done|]. simpl. by rewrite IH. Qed.

Lemma sub_ttl now t : time_sub now t <= NonceTTL <-> now - t <= NonceTTL.
Proof.
  assert (NonceTTL < 2 ^ 63 - 1 /\ - 2 ^ 63 <= NonceTTL) as [? ?] by (vm_compute; split; [done|discriminate]).
  unfold time_sub. lia.
Qed.

(** Times never go back. *)
Definition ordered (h : list (text * Z)) (now : Z) : Prop :=
  StronglySorted Z.le (map snd h) /\ Forall (fun nt => snd nt <= now) h.

Lemma ordered_snoc h n t now : ordered (h ++ [(n, t)]) now -> ordered h t /\ t <= now.
Proof.
  intros [Hs Hf]. rewrite map_app in Hs. apply Forall_app in Hf as [_ Hf]. rewrite Forall_singleton in Hf. simpl in Hf.
  split; [|done]. split; [by eapply StronglySorted_app_1_l|].
  apply Forall_forall. intros nt Hi.
  apply (StronglySorted_app_1_elem_of Z.le (map snd h) (map snd [(n, t)])); [done| |by left].
  apply list_elem_of_In, in_map, list_elem_of_In, Hi.
Qed.

Lemma ordered_later h t now : ordered h t -> t <= now -> ordered h now.
Proof.
  intros [Hs Hf] Ht. split; [done|]. eapply Forall_impl; [exact Hf|]. simpl. lia.
Qed.

Lemma nonce_table h r now n : ordered h now ->
  nonceValid n now (issue (New r) h) = true <-> exists t, (n, t) ∈ h /\ now - t <= NonceTTL.
Proof.
  revert now. induction h as [|[m t0] h IH] using rev_ind; intros now Ho.
  { unfold nonceValid. simpl. rewrite lookup_empty. split; [done|]. intros (t&Hi&_). by apply elem_of_nil in Hi. }
  apply ordered_snoc in Ho as [Ho Ht0]. unfold issue. rewrite foldl_app. simpl. fold (issue (New r) h).
  unfold nonceValid, newNonce. cbn [nonces].
  destruct (decide (m = n)) as [->|Hmn].
  - rewrite lookup_insert_eq, Z.leb_le, sub_ttl. split.
    + intros H. exists t0. split; [|done]. apply elem_of_app. right. by left.
    + intros (t&Hi&Ht). apply elem_of_app in Hi as [Hi|Hi].
      * destruct Ho as [_ Hf]. rewrite Forall_forall in Hf. specialize (Hf _ Hi). simpl in Hf. lia.
      * apply list_elem_of_singleton in Hi. injection Hi as <-. done.
  - rewrite lookup_insert_ne by done.
    assert ((exists t, (n, t) ∈ h ++ [(m, t0)] /\ now - t <= NonceTTL) <->
      exists t, (n, t) ∈ h /\ now - t <= NonceTTL) as ->.
    { split; intros (t&Hi&Ht); exists t; (split; [|done]).
      - apply elem_of_app in Hi as [Hi|Hi]; [done|]. apply list_elem_of_singleton in Hi. congruence.
      - apply elem_of_app. by left. }
    rewrite <- (IH now) by (by apply (ordered_later h t0)). unfold nonceValid.
    rewrite map_lookup_filter.
    destruct (nonces (issue (New r) h) !! n) as [issued|] eqn:E; simpl; [|done].
    destruct (decide (~ NonceTTL < time_sub t0 issued)) as [Hk|Hk].
    + by rewrite option_guard_True by done.
    + rewrite option_guard_False by done. rewrite Z.leb_le, sub_ttl.
      assert (~ t0 - issued <= NonceTTL) by (rewrite <- sub_ttl; lia). split; [done|lia].
Qed.

(** the app leg accepts exactly what an enrolled device can have sent: a
    request verifies, as a user, if and only if it carries Digest credentials
    for this realm (in any case), with MD5 or no algorithm and [auth] or no
    qop, a nonce this server issued at most five minutes ago, a device with a
    live secret that belongs to that user, and (in any case of its hex digits)
    the Digest response computed from that secret, the method, and the
    request's own nonce, count and URI. *)
Theorem verify_accepts_exactly (h : list (text * Z)) (r : text) (now : Z) (method : text)
    (header : option text) (user : text) : ordered h now ->
  Verify method header now (issue (New r) h) = inr user <->
  exists hdr c t ha1, header = Some hdr /\ IsDigest hdr = true /\ ParseCredentials hdr = Some c
    /\ EqualFold (Realm c) r = true /\ (Algorithm c = [] \/ EqualFold (Algorithm c) (T "MD5") = true)
    /\ (QOP c = [] \/ QOP c = T "auth")
    /\ (Nonce c, t) ∈ h /\ now - t <= NonceTTL
    /\ DigestSecret (Username c) = Some (ha1, user)
    /\ ToLower (Response c) = response ha1 method c.
Proof.
  intros Ho. unfold Verify. rewrite realm_issue. cbn [New realm]. split.
  - destruct header as [hdr|]; [|done]. destruct (IsDigest hdr) eqn:Ed; [|done]. cbn [negb].
    destruct (ParseCredentials hdr) as [c|] eqn:Ec; [|done].
    destruct (EqualFold (Realm c) r) eqn:Er; [|done]. cbn [negb].
    destruct (negb (bool_decide (Algorithm c = [])) && _) eqn:Ea; [done|].
    case_decide as Hq; [done|].
    destruct (nonceValid (Nonce c) now _) eqn:En; [|done]. cbn [negb].
    apply nonce_table in En as (t&Hi&Ht); [|done].
    destruct (DigestSecret (Username c)) as [[ha1 u]|] eqn:Es; [|done].
    case_decide as Hr; [done|]. intros [= ->].
    exists hdr, c, t, ha1. do 4 (split; [done|]). split.
    { apply andb_false_iff in Ea as [Ea|Ea]; apply negb_false_iff in Ea; [left|right; done].
      by apply bool_decide_eq_true in Ea. }
    split; [destruct (decide (QOP c = [])); [by left|right; apply dec_stable; naive_solver]|].
    do 3 (split; [done|]). symmetry. apply dec_stable. naive_solver.
  - intros (hdr&c&t&ha1&->&Ed&Ec&Er&Ha&Hq&Hi&Ht&Es&Hr). rewrite Ed, Ec, Er. cbn [negb].
    assert (negb (bool_decide (Algorithm c = [])) && negb (EqualFold (Algorithm c) (T "MD5")) = false) as ->.
    { destruct Ha as [-> | ->]; [done|]. apply andb_false_r. }
    rewrite decide_False by naive_solver.
    assert (nonceValid (Nonce c) now (issue (New r) h) = true) as -> by (apply nonce_table; eauto).
    cbn [negb]. rewrite Es. by rewrite decide_False by auto.
Qed.
End verification.

Lemma verify_accepts_exactly_witness :
  let md5 := fun x : text => [] in
  let creds := mkCredentials (T "Home") [] [] (T "n1") (T "dev") [] (T "sip:x") 1 [] in
  Verify md5 (fun _ => true) (fun _ => Some creds) (fun _ => Some (T "ha1", T "201")) (T "REGISTER") (Some (T "x"))
    (6 * ns_minute) (issue (New (T "home")) [(T "n0", 0); (T "n1", 2 * ns_minute)]) = inr (T "201").
Proof.
  apply (verify_accepts_exactly (fun _ => []) (fun _ => true) _ _ [(T "n0", 0); (T "n1", 2 * ns_minute)] (T "home")).
  - split.
    + vm_compute. repeat constructor; discriminate.
    + repeat constructor; vm_compute; discriminate.
  - eexists _, _, (2 * ns_minute), (T "ha1"). repeat split; try reflexivity; try (left; reflexivity).
    + right. left.
    + vm_compute. discriminate.
Defined.
