(* ===== verification/Directory.v ===== *)
(** The per-device address books (src/server/internal/directory/directory.go):
    contacts with versions and tombstones, the writes with their preconditions
    and their rollback, the delta a client pulls.

    - A directory is a map from contact ids; the code ranges over Go maps, whose
      order is arbitrary, so [upsertLocked] takes the order of its loop as an
      argument; loops whose effect does not depend on the order are map
      operations.
    - A device's file is the state last written for it: marshalling and reading
      back are taken to be inverse. Whether a write succeeds is an argument. The files
      themselves, starts and the migration are in DirDisk.
    - Versions are [Z]: reaching the int64 bound takes 2^63 writes.
    - A write has two critical sections with the file write between them:
      [upsert_begin] and the like are the first, [finish_write] the second. *)

From S2P Require Import Prelude.
Open Scope Z_scope.

Inductive Mode := ModeLocal | ModeTrunk | ModeOther.   (* any other string *)

#[export] Instance Mode_eq_dec : EqDecision Mode.
Proof. solve_decision. Defined.

Record Contact := mkContact {
  ID : string;
  DisplayName : string;
  URI : string;
  Mode_ : Mode;
  Favourite : bool;
  Version : Z;
  UpdatedAt : Z;
  Deleted : bool;
}.

#[export] Instance Contact_eq_dec : EqDecision Contact.
Proof. solve_decision. Defined.

Inductive dir_error := ErrInvalid | ErrNoDevice | ErrVersionMismatch | ErrBadDevice | ErrWrite.

Record state := mkState {
  Schema : Z;
  st_Version : Z;
  Contacts_ : gmap string Contact;
}.

Definition schemaVersion : Z := 1.
Definition empty_state : state := mkState 0 0 ∅.

Record writeOpts := mkOpts { pre : list Z; by_ : string }.

Definition checkAll (p : list Z) (st : state) : bool := forallb (fun v => v =? st_Version st) p.

(** [calls] are the [onChange] and [onWrite] notifications, oldest first. *)
Record Store := mkStore {
  persistent : bool;                (* dir <> "" *)
  devices : gmap string state;
  files : gmap string state;
  calls : list (string * Z * string);
}.

Definition with_devices (s : Store) (d : gmap string state) : Store :=
  mkStore (persistent s) d (files s) (calls s).

Definition validate (c : Contact) : bool :=
  bool_decide (URI c <> "") && bool_decide (Mode_ c = ModeLocal \/ Mode_ c = ModeTrunk).

Fixpoint has_slash (s : string) : bool :=
  match s with
  | EmptyString => false
  | String c s' => bool_decide (c = "/"%char \/ c = "\"%char) || has_slash s'
  end.

Definition checkDeviceID (d : string) : bool :=
  negb (has_slash d || bool_decide (d = ".") || bool_decide (d = "..")).

(** ** Reading *)

Definition VersionOf (s : Store) (deviceID : string) : Z :=
  match devices s !! deviceID with Some st => st_Version st | None => 0 end.

Definition Devices (s : Store) : list string := merge_sort String.le (map_to_list (devices s)).*1.

Definition contact_le (a b : Contact) : Prop :=
  Version a < Version b \/ (Version a = Version b /\ String.le (ID a) (ID b)).

#[export] Instance contact_le_dec a b : Decision (contact_le a b).
Proof. unfold contact_le. apply _. Defined.

Definition changed_since (since : Z) (c : Contact) : Prop :=
  since < Version c /\ ~ (since = 0 /\ Deleted c = true).

#[export] Instance changed_since_dec since c : Decision (changed_since since c).
Proof. unfold changed_since. apply _. Defined.

Definition state_changes (st : state) (since : Z) : list Contact :=
  merge_sort contact_le (filter (changed_since since) (map_to_list (Contacts_ st)).*2).

Definition Changes (s : Store) (deviceID : string) (since : Z) : list Contact * Z :=
  match devices s !! deviceID with
  | None => ([], 0)
  | Some st => (state_changes st since, st_Version st)
  end.

Definition Contacts (s : Store) (deviceID : string) : list Contact * Z := Changes s deviceID 0.

(** ** The upsert *)

(** Live and with this URI.  The letters folded are those of ASCII: strings.EqualFold
    here and strings.ToLower in [dropped] fold others too, and not all alike (U+017F is
    an s to the one and not to the other). *)
Definition live_at (uri : string) (c : Contact) : bool := negb (Deleted c) && equal_fold (URI c) uri.

Definition tombstone (v now : Z) (c : Contact) : Contact :=
  mkContact (ID c) (DisplayName c) (URI c) (Mode_ c) (Favourite c) v now true.

(** The loop of the by-URI case: state, the id found, and the version. *)
Fixpoint upsert_loop (order : list string) (uri : string) (now : Z) (st : state) (id : string) (v : Z)
    : state * string * Z :=
  match order with
  | [] => (st, id, v)
  | k :: order' =>
      match Contacts_ st !! k with
      | None => upsert_loop order' uri now st id v
      | Some existing =>
          if negb (live_at uri existing) then upsert_loop order' uri now st id v
          else if decide (id = "") then upsert_loop order' uri now st (ID existing) v
          else
            let '(st, v) := if decide (v = 0)
              then (mkState (Schema st) (st_Version st + 1) (Contacts_ st), st_Version st + 1)
              else (st, v) in
            let st := mkState (Schema st) (st_Version st) (<[k := tombstone v now existing]> (Contacts_ st)) in
            upsert_loop order' uri now st id v
      end
  end.

(** [newid] is the random id, used when none is given or found. *)
Definition upsertLocked (order : list string) (newid : string) (now : Z) (st : state) (c : Contact) (v : Z)
    : state * Contact * bool :=
  let '(st, id, v, existed) :=
    if decide (ID c = "") then
      let '(st, id, v) := upsert_loop order (URI c) now st "" v in
      (st, id, v, bool_decide (id <> ""))
    else (st, ID c, v, match Contacts_ st !! ID c with Some old => negb (Deleted old) | None => false end) in
  let id := if decide (id = "") then newid else id in
  let '(st, v) := if decide (v = 0)
    then (mkState (Schema st) (st_Version st + 1) (Contacts_ st), st_Version st + 1)
    else (st, v) in
  let c := mkContact id (DisplayName c) (URI c) (Mode_ c) (Favourite c) v now false in
  (mkState (Schema st) (st_Version st) (<[id := c]> (Contacts_ st)), c, existed).

(** ** The reconcile *)

(** The one live contact with [uri]; [None] when there is none or several. *)
Definition liveByURILocked (st : state) (uri : string) : option Contact :=
  match filter (fun c => live_at uri c = true) (map_to_list (Contacts_ st)).*2 with
  | [c] => Some c
  | _ => None
  end.

Record ReplaceResult := mkResult { r_Version : Z; Added : Z; Changed : Z; Removed : Z }.

(** The first loop; each contact comes with the order and the id its upsert
    draws. *)
Fixpoint replace_loop (cs : list (Contact * list string * string)) (now v : Z) (st : state) (added changed : Z)
    : state * Z * Z :=
  match cs with
  | [] => (st, added, changed)
  | (c, order, newid) :: cs' =>
      let c := mkContact "" (DisplayName c) (URI c) (Mode_ c) (Favourite c) (Version c) (UpdatedAt c) (Deleted c) in
      let same := match liveByURILocked st (URI c) with
        | Some s => bool_decide (DisplayName s = DisplayName c) && bool_decide (Mode_ s = Mode_ c)
                    && eqb (Favourite s) (Favourite c)
        | None => false
        end in
      if same then replace_loop cs' now v st added changed
      else
        let '(st, _, existed) := upsertLocked order newid now st c v in
        if existed : bool then replace_loop cs' now v st added (changed + 1)
        else replace_loop cs' now v st (added + 1) changed
  end.

(** Live and not among the URIs kept. *)
Definition dropped (keep : gset string) (c : Contact) : bool :=
  negb (Deleted c) && bool_decide (to_lower (URI c) ∉ keep).

Definition replaceLocked (st : state) (cs : list (Contact * list string * string)) (now : Z)
    : state * ReplaceResult * bool :=
  let v := st_Version st + 1 in
  let keep : gset string := list_to_set (map (fun x => to_lower (URI (fst (fst x)))) cs) in
  let '(st, added, changed) := replace_loop cs now v st 0 0 in
  let removed := Z.of_nat (length (filter (fun c => dropped keep c = true) (map_to_list (Contacts_ st)).*2)) in
  let st := mkState (Schema st) (st_Version st)
    ((fun c => if dropped keep c then tombstone v now c else c) <$> Contacts_ st) in
  let any := bool_decide (0 < added + changed + removed) in
  let st := if any then mkState (Schema st) v (Contacts_ st) else st in
  (st, mkResult (st_Version st) added changed removed, any).

(** ** Writes *)

Definition stateLocked (s : Store) (deviceID : string) : state := default empty_state (devices s !! deviceID).

(** A write between its two critical sections: the state marshalled, and the
    backup to put back if it fails. *)
Record pending := mkPending { p_device : string; p_state : state; p_backup : option state; p_by : string }.

Definition marshalled (st : state) : state := mkState schemaVersion (st_Version st) (Contacts_ st).

(** The file write ([ok]: it and the marshalling succeeded, or there is no
    file) and the section after it: [false] is the error. *)
Definition finish_write (ok : bool) (p : pending) (s : Store) : Store * bool :=
  if ok then
    (mkStore (persistent s) (devices s)
       (if persistent s then <[p_device p := p_state p]> (files s) else files s)
       (calls s ++ [(p_device p, st_Version (p_state p), p_by p)]), true)
  else
    (with_devices s (match p_backup p with
                     | None => delete (p_device p) (devices s)
                     | Some st => <[p_device p := st]> (devices s)
                     end), false).

(** First sections: the store readers see from then on, and either the answer
    or the write to do. *)
Definition upsert_begin (order : list string) (newid : string) (now : Z) (deviceID : string) (c : Contact)
    (wo : writeOpts) (s : Store) : Store * (dir_error + (pending * Contact)) :=
  if decide (deviceID = "") then (s, inl ErrNoDevice) else
  if negb (validate c) then (s, inl ErrInvalid) else
  if negb (checkDeviceID deviceID) then (s, inl ErrBadDevice) else
  let backup := devices s !! deviceID in
  let st := stateLocked s deviceID in
  let s := with_devices s (<[deviceID := st]> (devices s)) in
  if negb (checkAll (pre wo) st) then (s, inl ErrVersionMismatch) else
  let '(st, out, _) := upsertLocked order newid now st c 0 in
  let st := marshalled st in
  (with_devices s (<[deviceID := st]> (devices s)), inr (mkPending deviceID st backup (by_ wo), out)).

Definition delete_begin (now : Z) (deviceID id : string) (wo : writeOpts) (s : Store)
    : Store * (dir_error + option pending) :=
  if decide (deviceID = "") then (s, inl ErrNoDevice) else
  if negb (checkDeviceID deviceID) then (s, inl ErrBadDevice) else
  match devices s !! deviceID with
  | None => (s, inr None)
  | Some st =>
      if negb (checkAll (pre wo) st) then (s, inl ErrVersionMismatch) else
      match Contacts_ st !! id with
      | None => (s, inr None)
      | Some c =>
          if Deleted c then (s, inr None) else
          let v := st_Version st + 1 in
          let st' := marshalled (mkState (Schema st) v (<[id := tombstone v now c]> (Contacts_ st))) in
          (with_devices s (<[deviceID := st']> (devices s)),
           inr (Some (mkPending deviceID st' (Some st) (by_ wo))))
      end
  end.

Definition replace_begin (now : Z) (deviceID : string) (cs : list (Contact * list string * string))
    (wo : writeOpts) (s : Store) : Store * (dir_error + (ReplaceResult * option pending)) :=
  if decide (deviceID = "") then (s, inl ErrNoDevice) else
  if negb (forallb (fun x => validate (fst (fst x))) cs) then (s, inl ErrInvalid) else
  if negb (checkDeviceID deviceID) then (s, inl ErrBadDevice) else
  let backup := devices s !! deviceID in
  let st := stateLocked s deviceID in
  if negb (checkAll (pre wo) st)
  then (with_devices s (match backup with None => delete deviceID (devices s) | Some _ => devices s end),
        inl ErrVersionMismatch) else
  let '(st, res, changed) := replaceLocked st cs now in
  let st := if changed : bool then marshalled st else st in
  (with_devices s (<[deviceID := st]> (devices s)),
   inr (res, if changed then Some (mkPending deviceID st backup (by_ wo)) else None)).

(** Whole operations, as the writers' lock makes them run for each other. *)
Definition Upsert order newid now deviceID c wo (ok : bool) (s : Store) : Store * (dir_error + Contact) :=
  match upsert_begin order newid now deviceID c wo s with
  | (s, inl e) => (s, inl e)
  | (s, inr (p, out)) =>
      let '(s, done) := finish_write (ok || negb (persistent s)) p s in
      (s, if done : bool then inr out else inl ErrWrite)
  end.

Definition Delete now deviceID id wo (ok : bool) (s : Store) : Store * (dir_error + bool) :=
  match delete_begin now deviceID id wo s with
  | (s, inl e) => (s, inl e)
  | (s, inr None) => (s, inr false)
  | (s, inr (Some p)) =>
      let '(s, done) := finish_write (ok || negb (persistent s)) p s in
      (s, if done : bool then inr true else inl ErrWrite)
  end.

Definition Replace now deviceID cs wo (ok : bool) (s : Store) : Store * (dir_error + ReplaceResult) :=
  match replace_begin now deviceID cs wo s with
  | (s, inl e) => (s, inl e)
  | (s, inr (res, None)) => (s, inr res)
  | (s, inr (res, Some p)) =>
      let '(s, done) := finish_write (ok || negb (persistent s)) p s in
      (s, if done : bool then inr res else inl ErrWrite)
  end.

Definition DryRun now deviceID cs (s : Store) : dir_error + ReplaceResult :=
  if decide (deviceID = "") then inl ErrNoDevice else
  if negb (forallb (fun x => validate (fst (fst x))) cs) then inl ErrInvalid else
  let copy := stateLocked s deviceID in
  let '(_, res, _) := replaceLocked copy cs now in
  inr (mkResult (st_Version copy) (Added res) (Changed res) (Removed res)).

(** [removed]: [os.Remove] succeeded or found no file. *)
Definition Purge (deviceID : string) (removed : bool) (s : Store) : Store * option dir_error :=
  if negb (checkDeviceID deviceID) then (s, Some ErrBadDevice) else
  if persistent s && negb removed then (s, Some ErrWrite) else
  (mkStore (persistent s) (delete deviceID (devices s))
     (if persistent s then delete deviceID (files s) else files s) (calls s), None).

(** ** Well-formed directories *)

(** Contacts are filed under their ids, which are not empty, with versions up
    to [v]. *)
Definition contacts_ok (v : Z) (m : gmap string Contact) : Prop :=
  forall k c, m !! k = Some c -> ID c = k /\ k <> "" /\ 0 < Version c <= v.

Definition state_ok (st : state) : Prop := 0 <= st_Version st /\ contacts_ok (st_Version st) (Contacts_ st).

(** [m'] is [m] but for contacts of version [v]. *)
Definition changed_at (v : Z) (m m' : gmap string Contact) : Prop :=
  forall k, m' !! k = m !! k \/ exists c, m' !! k = Some c /\ ID c = k /\ k <> "" /\ Version c = v.

Lemma changed_at_refl v m : changed_at v m m.
Proof. intros k. by left. Qed.

Lemma changed_at_trans v m1 m2 m3 : changed_at v m1 m2 -> changed_at v m2 m3 -> changed_at v m1 m3.
Proof.
  intros H1 H2 k. destruct (H2 k) as [E|H]; [|by right]. rewrite E. apply H1.
Qed.

Lemma changed_at_insert v m k c : ID c = k -> k <> "" -> Version c = v -> changed_at v m (<[k := c]> m).
Proof.
  intros Hi Hk Hv k'. destruct (decide (k' = k)) as [->|Hne].
  - right. exists c. by rewrite lookup_insert_eq.
  - left. by rewrite lookup_insert_ne.
Qed.

Lemma contacts_ok_changed v v' m m' : contacts_ok v m -> changed_at v' m m' -> 0 < v' -> v <= v' -> contacts_ok v' m'.
Proof.
  intros Hm Hc Hv Hle k c Hk. destruct (Hc k) as [E|(c'&E&H1&H2&H3)].
  - rewrite E in Hk. destruct (Hm k c Hk) as (?&?&?). split; [done|]. split; [done|lia].
  - rewrite Hk in E. injection E as <-. split; [done|]. split; [done|lia].
Qed.

(** What the upsert relies on, which also holds amid a reconcile. *)
Definition ids_ok (st : state) : Prop :=
  0 <= st_Version st /\ forall k c, Contacts_ st !! k = Some c -> ID c = k /\ k <> "".

Lemma state_ok_ids st : state_ok st -> ids_ok st.
Proof. intros [Hv Hm]. split; [done|]. intros k c E. by destruct (Hm k c E) as (?&?&_). Qed.

Lemma ids_ok_changed v st st' : ids_ok st -> 0 <= st_Version st' ->
  changed_at v (Contacts_ st) (Contacts_ st') -> ids_ok st'.
Proof.
  intros [_ Hi] Hv Hc. split; [done|]. intros k c E.
  destruct (Hc k) as [E'|(c'&E'&H1&H2&_)]; rewrite E in E'; [by apply Hi|]. by injection E' as <-.
Qed.

Lemma state_ok_empty : state_ok empty_state.
Proof. split; [done|]. intros k c H. simplify_map_eq. Qed.

(** *** The loop of the upsert *)

(** The ids of [order] that are live at [uri]. *)
Definition matches (uri : string) (m : gmap string Contact) (order : list string) : list string :=
  filter (fun k => match m !! k with Some c => live_at uri c | None => false end = true) order.

Definition tomb_all (v now : Z) (ks : list string) (m : gmap string Contact) : gmap string Contact :=
  foldl (fun m k => alter (tombstone v now) k m) m ks.

Definition next_version (st : state) (v : Z) : Z := if decide (v = 0) then st_Version st + 1 else v.

(** What the loop makes of the ids [ks] once it holds an id. *)
Definition loop_result (now : Z) (st : state) (ks : list string) (id : string) (v : Z) : state * string * Z :=
  match ks with
  | [] => (st, id, v)
  | _ => let nv := next_version st v in
         (mkState (Schema st) (if decide (v = 0) then nv else st_Version st) (tomb_all nv now ks (Contacts_ st)), id, nv)
  end.

Lemma tombstone_idem v now c : tombstone v now (tombstone v now c) = tombstone v now c.
Proof. done. Qed.

Lemma lookup_tomb_all v now ks m k :
  tomb_all v now ks m !! k = (fun c => if decide (k ∈ ks) then tombstone v now c else c) <$> m !! k.
Proof.
  unfold tomb_all. revert m. induction ks as [|j ks IH]; intros m; simpl.
  - destruct (m !! k); [|done]. simpl. destruct (decide (k ∈ [])) as [H|]; [|done]. by apply not_elem_of_nil in H.
  - rewrite IH. destruct (decide (j = k)) as [->|Hne].
    + rewrite lookup_alter_eq. destruct (m !! k); [|done]. simpl. f_equal.
      rewrite (decide_True (P := k ∈ k :: ks)) by (by left). by case_decide.
    + rewrite lookup_alter_ne by done. destruct (m !! k); [|done]. simpl. f_equal.
      apply decide_ext. rewrite elem_of_cons. naive_solver.
Qed.

Lemma matches_insert uri m k c order : k ∉ order -> matches uri (<[k := c]> m) order = matches uri m order.
Proof.
  intros Hk. unfold matches. induction order as [|j order IH]; [done|].
  rewrite not_elem_of_cons in Hk. destruct Hk as [Hj Hk]. specialize (IH Hk).
  rewrite !filter_cons, lookup_insert_ne by done. by rewrite IH.
Qed.

Lemma matches_cons uri m k order : matches uri m (k :: order) =
  if decide (match m !! k with Some c => live_at uri c | None => false end = true)
  then k :: matches uri m order else matches uri m order.
Proof. unfold matches. by rewrite filter_cons. Qed.

Lemma alter_insert_eq (v now : Z) k ex (m : gmap string Contact) : m !! k = Some ex ->
  alter (tombstone v now) k m = <[k := tombstone v now ex]> m.
Proof.
  intros E. apply map_eq. intros j. destruct (decide (j = k)) as [->|].
  - by rewrite lookup_alter_eq, lookup_insert_eq, E.
  - by rewrite lookup_alter_ne, lookup_insert_ne by done.
Qed.

Lemma upsert_loop_held uri now : forall order st id v,
  0 <= st_Version st -> NoDup order -> id <> "" ->
  upsert_loop order uri now st id v = loop_result now st (matches uri (Contacts_ st) order) id v.
Proof.
  induction order as [|k order IH]; intros st id v Hv Hnd Hid; [done|].
  apply NoDup_cons in Hnd as [Hk Hnd]. cbn [upsert_loop]. rewrite matches_cons.
  destruct (Contacts_ st !! k) as [ex|] eqn:Ek; [|by rewrite decide_False, IH by done].
  destruct (live_at uri ex) eqn:El; cbn [negb]; [|by rewrite decide_False, IH by done].
  rewrite (decide_False (P := id = "")) by done. rewrite (decide_True (P := true = true)) by done.
  set (nv := next_version st v).
  assert (nv <> 0) as Hnv by (unfold nv, next_version; case_decide; lia).
  assert ((if decide (v = 0) then (mkState (Schema st) (st_Version st + 1) (Contacts_ st), st_Version st + 1) else (st, v))
    = (mkState (Schema st) (if decide (v = 0) then nv else st_Version st) (Contacts_ st), nv)) as ->.
  { unfold nv, next_version. case_decide; [done|]. by destruct st. }
  cbn [Schema st_Version Contacts_]. rewrite IH; [|simpl; unfold nv, next_version; case_decide; lia|done|done].
  cbn [Contacts_]. rewrite matches_insert by done. unfold loop_result.
  destruct (matches uri (Contacts_ st) order) as [|j ks] eqn:Em.
  - simpl. unfold tomb_all. simpl. by rewrite (alter_insert_eq nv now k ex).
  - assert (forall x, next_version x nv = nv) as E by (intros x; unfold next_version; by rewrite (decide_False (P := nv = 0))).
    rewrite !E, (decide_False (P := nv = 0)) by done. cbn [Schema st_Version Contacts_].
    fold nv. unfold tomb_all. cbn [foldl]. by rewrite (alter_insert_eq nv now k ex).
Qed.

Lemma upsert_loop_start uri now : forall order st v,
  0 <= st_Version st -> NoDup order -> (forall k c, Contacts_ st !! k = Some c -> ID c = k /\ k <> "") ->
  upsert_loop order uri now st "" v =
  match matches uri (Contacts_ st) order with
  | [] => (st, "", v)
  | k :: ks => loop_result now st ks k v
  end.
Proof.
  induction order as [|k order IH]; intros st v Hv Hnd Hok; [done|].
  apply NoDup_cons in Hnd as [Hk Hnd]. cbn [upsert_loop]. rewrite matches_cons.
  destruct (Contacts_ st !! k) as [ex|] eqn:Ek; [|by rewrite decide_False, IH by done].
  destruct (live_at uri ex) eqn:El; cbn [negb]; [|by rewrite decide_False, IH by done].
  rewrite !decide_True by done. destruct (Hok k ex Ek) as [-> Hne]. by apply upsert_loop_held.
Qed.

(** *** The upsert *)

(** An order of the map's keys. *)
Definition is_order (m : gmap string Contact) (order : list string) : Prop :=
  order ≡ₚ (map_to_list m).*1.

Lemma is_order_NoDup m order : is_order m order -> NoDup order.
Proof. intros ->. apply NoDup_fst_map_to_list. Qed.

Lemma is_order_elem m order k : is_order m order -> k ∈ order <-> is_Some (m !! k).
Proof.
  intros ->. rewrite list_elem_of_fmap. split.
  - intros ([j c]&->&H%elem_of_map_to_list). by exists c.
  - intros [c H]. exists (k, c). split; [done|]. by apply elem_of_map_to_list.
Qed.

Lemma elem_of_matches uri m order k : is_order m order ->
  k ∈ matches uri m order <-> exists c, m !! k = Some c /\ live_at uri c = true.
Proof.
  intros Ho. unfold matches. rewrite list_elem_of_filter, (is_order_elem m order k Ho). split.
  - intros [H [c E]]. rewrite E in H. eauto.
  - intros (c&E&H). rewrite E. split; [done|by exists c].
Qed.

(** The whole of an upsert without an id: with [v] the version its changes
    get, the contact stored is the first match or new, and every other match
    is tombstoned. *)
Lemma upsertLocked_uri order newid now st c v : ids_ok st -> is_order (Contacts_ st) order ->
  newid <> "" -> ID c = "" ->
  let nv := next_version st v in
  let ms := matches (URI c) (Contacts_ st) order in
  let id := default newid (head ms) in
  let out := mkContact id (DisplayName c) (URI c) (Mode_ c) (Favourite c) nv now false in
  upsertLocked order newid now st c v =
    (mkState (Schema st) (if decide (v = 0) then nv else st_Version st)
       (<[id := out]> (tomb_all nv now (tail ms) (Contacts_ st))), out, bool_decide (ms <> [])).
Proof.
  intros [Hv Hok] Ho Hnew Hid nv ms id out. unfold upsertLocked. rewrite decide_True by done.
  rewrite upsert_loop_start; [|done|by eapply is_order_NoDup|done].
  fold ms. unfold next_version in nv.
  assert (forall k ks, ms = k :: ks -> k <> "") as Hk.
  { intros k ks E. assert (k ∈ ms) as Hi by (rewrite E; by left).
    apply elem_of_matches in Hi as (x&Ex&_); [|done]. by apply (Hok k x Ex). }
  destruct ms as [|k ks] eqn:Ems; simpl in id.
  - rewrite (decide_True (P := "" = "")) by done. rewrite bool_decide_eq_false_2 by auto.
    unfold tomb_all. simpl. unfold out, id, nv. case_decide; [done|]. by destruct st.
  - specialize (Hk k ks eq_refl). unfold loop_result. destruct ks as [|j ks].
    + rewrite (decide_False (P := k = "")) by done. rewrite bool_decide_eq_true_2 by done.
      unfold tomb_all. simpl. unfold out, id, nv. case_decide; [done|]. by destruct st.
    + rewrite (decide_False (P := k = "")) by done. rewrite bool_decide_eq_true_2 by done.
      fold (next_version st v) in nv. rewrite (decide_False (P := next_version st v = 0))
        by (unfold next_version; case_decide; lia).
      done.
Qed.

Lemma changed_at_tomb v now ks m : (forall k c, m !! k = Some c -> ID c = k /\ k <> "") ->
  changed_at v m (tomb_all v now ks m).
Proof.
  intros Hok k. rewrite lookup_tomb_all. destruct (m !! k) as [c|] eqn:E; [|by left]. simpl.
  case_decide; [right|by left]. exists (tombstone v now c). destruct (Hok k c E). done.
Qed.

(** Any upsert changes contacts to one version only. *)
Lemma upsertLocked_changed order newid now st c v : ids_ok st -> is_order (Contacts_ st) order ->
  newid <> "" -> 0 <= v ->
  let '(st', _, _) := upsertLocked order newid now st c v in
  st_Version st' = (if decide (v = 0) then next_version st v else st_Version st)
  /\ changed_at (next_version st v) (Contacts_ st) (Contacts_ st').
Proof.
  intros Hst Ho Hnew Hv. pose proof Hst as [Hsv Hok].
  destruct (decide (ID c = "")) as [Hid|Hid].
  - rewrite upsertLocked_uri by done. cbn [st_Version Contacts_]. split; [done|].
    eapply changed_at_trans; [apply changed_at_tomb|apply changed_at_insert; [done| |done]].
    + done.
    + destruct (matches _ _ _) as [|k ks] eqn:E; [done|]. simpl.
      assert (k ∈ matches (URI c) (Contacts_ st) order) as Hi by (rewrite E; by left).
      apply elem_of_matches in Hi as (x&Ex&_); [|done]. by apply (Hok k x Ex).
  - unfold upsertLocked. rewrite decide_False by done. rewrite (decide_False (P := ID c = "")) by done.
    unfold next_version. case_decide; cbn [st_Version Contacts_]; (split; [done|]); by apply changed_at_insert.
Qed.

Definition retire (uri : string) (v now : Z) (c : Contact) : Contact :=
  if live_at uri c then tombstone v now c else c.

Lemma upsertLocked_lookup order newid now st c v : ids_ok st -> is_order (Contacts_ st) order ->
  newid <> "" -> ID c = "" ->
  let '(st', out, existed) := upsertLocked order newid now st c v in
  (forall k, Contacts_ st' !! k = if decide (k = ID out) then Some out
                                  else retire (URI c) (next_version st v) now <$> Contacts_ st !! k)
  /\ (URI out = URI c /\ DisplayName out = DisplayName c /\ Mode_ out = Mode_ c /\ Favourite out = Favourite c
      /\ Deleted out = false /\ Version out = next_version st v)
  /\ (if existed : bool then exists x, Contacts_ st !! ID out = Some x /\ live_at (URI c) x = true
      else ID out = newid /\ forall k x, Contacts_ st !! k = Some x -> live_at (URI c) x = false).
Proof.
  intros Hst Ho Hnew Hid. rewrite upsertLocked_uri by done. cbn [Contacts_ ID].
  pose proof (fun k => elem_of_matches (URI c) (Contacts_ st) order k Ho) as He.
  destruct (matches _ _ _) as [|j ks]; cbn [head tail default bool_decide].
  - assert (forall k x, Contacts_ st !! k = Some x -> live_at (URI c) x = false) as Hno.
    { intros k x E. apply not_true_is_false. intros Hl.
      assert (k ∈ @nil string) as Hi by (apply He; eauto). by apply not_elem_of_nil in Hi. }
    rewrite bool_decide_eq_false_2 by auto. split; [|done]. intros k. simpl.
    case_decide; [subst; by rewrite lookup_insert_eq|]. rewrite lookup_insert_ne by done.
    destruct (Contacts_ st !! k) as [x|] eqn:E; [|done]. simpl. unfold retire. by rewrite (Hno k x).
  - rewrite bool_decide_eq_true_2 by done. simpl. split; [|split; [done|]].
    2: { destruct (He j) as [H _]. destruct H as (x&E&Hl); [by left|]. eauto. }
    intros k. case_decide; [subst; by rewrite lookup_insert_eq|]. rewrite lookup_insert_ne by done.
    rewrite lookup_tomb_all. destruct (Contacts_ st !! k) as [x|] eqn:E; [|done]. simpl. f_equal.
    specialize (He k). rewrite E, elem_of_cons in He. unfold retire. destruct (live_at (URI c) x) eqn:El.
    + rewrite decide_True; [done|]. destruct He as [_ He]. by destruct He as [->|]; [eauto|..].
    + rewrite decide_False; [done|]. intros Hi. destruct He as [He _]. destruct He as (x'&E'&Hl); [by right|].
      congruence.
Qed.

(** ** The reconcile *)

(** The orders and ids drawn along [replace_loop] are possible ones. *)
Fixpoint draws_ok (cs : list (Contact * list string * string)) (now v : Z) (st : state) : Prop :=
  match cs with
  | [] => True
  | (c, order, newid) :: cs' =>
      let c := mkContact "" (DisplayName c) (URI c) (Mode_ c) (Favourite c) (Version c) (UpdatedAt c) (Deleted c) in
      is_order (Contacts_ st) order /\ newid <> "" /\ Contacts_ st !! newid = None
      /\ draws_ok cs' now v (fst (fst (replace_loop [(c, order, newid)] now v st 0 0)))
  end.

Lemma replace_loop_app cs1 : forall cs2 now v st a ch,
  replace_loop (cs1 ++ cs2) now v st a ch =
  let '(st', a', ch') := replace_loop cs1 now v st a ch in replace_loop cs2 now v st' a' ch'.
Proof.
  induction cs1 as [|[[c o] i] cs1 IH]; intros; [done|]. cbn [replace_loop app].
  set (s := match liveByURILocked _ _ with Some _ => _ | None => _ end). destruct s; [by rewrite IH|].
  destruct (upsertLocked _ _ _ _ _ _) as [[st' out] e]. destruct e; by rewrite IH.
Qed.

Lemma replace_loop_counts cs : forall now v st a ch,
  let '(st', a', ch') := replace_loop cs now v st 0 0 in
  replace_loop cs now v st a ch = (st', a + a', ch + ch') /\ 0 <= a' /\ 0 <= ch'
  /\ (a' + ch' = 0 -> st' = st).
Proof.
  induction cs as [|[[c o] i] cs IH]; intros; cbn [replace_loop]; [split; [apply f_equal2; [apply f_equal2; [done|lia]|lia]|done]|].
  set (s := match liveByURILocked _ _ with Some _ => _ | None => _ end). destruct s; [by apply IH|].
  destruct (upsertLocked _ _ _ _ _ _) as [[st1 out] e]. destruct e.
  - pose proof (IH now v st1 0 (0+1)) as H0. pose proof (IH now v st1 a (ch+1)) as H1.
    destruct (replace_loop cs now v st1 0 0) as [[st' a'] ch']. destruct H0 as (->&?&?&_), H1 as (->&_).
    split; [apply f_equal2; [apply f_equal2; [done|lia]|lia]|]. split; [lia|]. split; [lia|]. lia.
  - pose proof (IH now v st1 (0+1) 0) as H0. pose proof (IH now v st1 (a+1) ch) as H1.
    destruct (replace_loop cs now v st1 0 0) as [[st' a'] ch']. destruct H0 as (->&?&?&_), H1 as (->&_).
    split; [apply f_equal2; [apply f_equal2; [done|lia]|lia]|]. split; [lia|]. split; [lia|]. lia.
Qed.

Definition same_data (d c : Contact) : Prop :=
  DisplayName c = DisplayName d /\ Mode_ c = Mode_ d /\ Favourite c = Favourite d.

(** Exactly one contact is live at [u], and it is the one [d] describes. *)
Definition one_live (u : string) (d : Contact) (m : gmap string Contact) : Prop :=
  exists k c, m !! k = Some c /\ live_at u c = true /\ same_data d c
    /\ forall k' c', m !! k' = Some c' -> live_at u c' = true -> k' = k.

(** The same contacts are live at [u]. *)
Definition same_live (u : string) (m m' : gmap string Contact) : Prop :=
  forall k c, live_at u c = true -> (m' !! k = Some c <-> m !! k = Some c).

Lemma same_live_trans u m1 m2 m3 : same_live u m1 m2 -> same_live u m2 m3 -> same_live u m1 m3.
Proof. intros H1 H2 k c Hl. rewrite (H2 k c Hl). by apply H1. Qed.

Lemma one_live_same u d m m' : same_live u m m' -> one_live u d m -> one_live u d m'.
Proof.
  intros Hs (k&c&E&Hl&Hd&Hu). exists k, c. split; [by apply Hs|]. split; [done|]. split; [done|].
  intros k' c' E' Hl'. apply (Hu k' c'); [by apply Hs|done].
Qed.

Lemma live_at_fold u u' c : equal_fold u u' = true -> live_at u c = live_at u' c.
Proof. unfold live_at, equal_fold. intros ->%bool_decide_eq_true. done. Qed.

Lemma one_live_fold u u' d m : equal_fold u u' = true -> one_live u d m -> one_live u' d m.
Proof.
  intros Hf (k&c&E&Hl&Hd&Hu). exists k, c. rewrite <- (live_at_fold u u') by done. split; [done|].
  split; [done|]. split; [done|]. intros k' c' E' Hl'. apply (Hu k' c' E'). by rewrite (live_at_fold u u').
Qed.

Lemma live_at_other u u' c : equal_fold u u' = false -> live_at u c = true -> live_at u' c = false.
Proof.
  unfold live_at, equal_fold. intros Hf%bool_decide_eq_false [-> Hl%bool_decide_eq_true]%andb_true_iff.
  simpl. apply bool_decide_eq_false. congruence.
Qed.

Lemma filter_map_snd (f : Contact -> bool) (l : list (string * Contact)) :
  filter (fun c => f c = true) l.*2 = (filter (fun x => f x.2 = true) l).*2.
Proof.
  induction l as [|[k c] l IH]; [done|]. rewrite fmap_cons, !filter_cons. simpl. case_decide; [|done].
  rewrite fmap_cons. by f_equal.
Qed.

Lemma liveByURILocked_one st uri c : liveByURILocked st uri = Some c ->
  exists k, Contacts_ st !! k = Some c /\ live_at uri c = true
    /\ forall k' c', Contacts_ st !! k' = Some c' -> live_at uri c' = true -> k' = k.
Proof.
  unfold liveByURILocked. rewrite filter_map_snd. intros H.
  pose proof (fun x => list_elem_of_filter (fun x : string * Contact => live_at uri x.2 = true) (map_to_list (Contacts_ st)) x) as He.
  destruct (filter _ _) as [|[k c1] [|? ?]]; [done| |done]. simpl in H. injection H as ->.
  exists k. destruct (proj1 (He (k, c)) ltac:(by left)) as [Hl Hi%elem_of_map_to_list].
  split; [done|]. split; [done|]. intros k' c' E' Hl'.
  assert ((k', c') ∈ [(k, c)]) as Hin by (apply He; split; [done|by apply elem_of_map_to_list]).
  apply list_elem_of_singleton in Hin. by injection Hin as ->.
Qed.

Lemma upsertLocked_one_live order newid now st c v : ids_ok st -> is_order (Contacts_ st) order ->
  newid <> "" -> ID c = "" ->
  let '(st', out, _) := upsertLocked order newid now st c v in
  one_live (URI c) c (Contacts_ st')
  /\ (Contacts_ st !! newid = None ->
      forall u, equal_fold u (URI c) = false -> same_live u (Contacts_ st) (Contacts_ st')).
Proof.
  intros Hst Ho Hnew Hid. pose proof (upsertLocked_lookup order newid now st c v Hst Ho Hnew Hid) as H.
  destruct (upsertLocked _ _ _ _ _ _) as [[st' out] e]. destruct H as (Hk&(Hu&Hn&Hm&Hf&Hd&_)&He). split.
  - exists (ID out), out. rewrite Hk, decide_True by done. split; [done|].
    split; [unfold live_at, equal_fold; rewrite Hd, Hu; by apply bool_decide_eq_true|]. split; [done|].
    intros k' c' E' Hl. rewrite Hk in E'. case_decide; [done|].
    destruct (Contacts_ st !! k') as [x|]; [|done]. injection E' as <-. unfold retire in Hl.
    destruct (live_at (URI c) x) eqn:El; [done|congruence].
  - intros Hfree u Hne k x Hl. rewrite Hk.
    assert (live_at u out = false) as Hout.
    { unfold live_at, equal_fold in *. rewrite Hd, Hu. simpl. apply bool_decide_eq_false_2.
      apply bool_decide_eq_false in Hne. congruence. }
    pose proof (live_at_other u (URI c) x Hne Hl) as Hx. case_decide as Hc.
    + split; [intros [= ->]; congruence|]. intros E. subst k. destruct e.
      * destruct He as (x'&E'&Hl'). congruence.
      * destruct He as [He _]. congruence.
    + destruct (Contacts_ st !! k) as [y|]; [|done]. simpl. unfold retire.
      destruct (live_at (URI c) y) eqn:Ey; [|done].
      split; [|congruence]. intros [= <-]. unfold live_at in Hl. done.
Qed.

Definition contacts_of (cs : list (Contact * list string * string)) : list Contact := map (fun x => fst (fst x)) cs.

(** The last contact of the list with the URI [u]. *)
Fixpoint last_at (u : string) (cs : list Contact) : option Contact :=
  match cs with
  | [] => None
  | c :: cs' =>
      match last_at u cs' with
      | Some d => Some d
      | None => if equal_fold u (URI c) then Some c else None
      end
  end.

Lemma replace_step x now v st : ids_ok st -> 0 < v -> draws_ok [x] now v st ->
  let '(st', _, _) := replace_loop [x] now v st 0 0 in
  st_Version st' = st_Version st /\ changed_at v (Contacts_ st) (Contacts_ st')
  /\ one_live (URI (fst (fst x))) (fst (fst x)) (Contacts_ st')
  /\ forall u, equal_fold u (URI (fst (fst x))) = false -> same_live u (Contacts_ st) (Contacts_ st').
Proof.
  destruct x as [[c order] newid]. intros Hst Hv (Ho&Hnew&Hfree&_). cbn [replace_loop fst].
  set (c0 := mkContact "" _ _ _ _ _ _ _). set (same := match liveByURILocked _ _ with Some _ => _ | None => _ end).
  destruct same eqn:Eb; unfold same in Eb.
  - split; [done|]. split; [apply changed_at_refl|]. split; [|done].
    destruct (liveByURILocked st (URI c0)) as [s|] eqn:Es; [|done].
    apply andb_true_iff in Eb as [[H1%bool_decide_eq_true H2%bool_decide_eq_true]%andb_true_iff H3%eqb_prop].
    apply liveByURILocked_one in Es as (k&E&Hl&Hu). by exists k, s.
  - pose proof (upsertLocked_changed order newid now st c0 v Hst Ho Hnew ltac:(lia)) as Hc.
    pose proof (upsertLocked_one_live order newid now st c0 v Hst Ho Hnew eq_refl) as H1.
    destruct (upsertLocked _ _ _ _ _ _) as [[st' out] e]. unfold next_version in Hc.
    rewrite !(decide_False (P := v = 0)) in Hc by lia. destruct Hc, H1 as [H1 H2].
    destruct e; (split; [done|]); (split; [done|]); (split; [done|]); by apply H2.
Qed.

Lemma draws_ok_cons x cs now v st : draws_ok (x :: cs) now v st ->
  draws_ok [x] now v st /\ draws_ok cs now v (fst (fst (replace_loop [x] now v st 0 0))).
Proof. destruct x as [[c o] i]. cbn [draws_ok]. naive_solver. Qed.

Lemma replace_loop_spec cs now v : forall st, ids_ok st -> 0 < v -> draws_ok cs now v st ->
  let '(st', _, _) := replace_loop cs now v st 0 0 in
  st_Version st' = st_Version st /\ changed_at v (Contacts_ st) (Contacts_ st')
  /\ forall u, match last_at u (contacts_of cs) with
               | Some d => one_live u d (Contacts_ st')
               | None => same_live u (Contacts_ st) (Contacts_ st')
               end.
Proof.
  induction cs as [|x cs IH]; intros st Hst Hv Hd; [by split; [|split; [apply changed_at_refl|]]|].
  apply draws_ok_cons in Hd as [Hx Hd]. pose proof (replace_step x now v st Hst Hv Hx) as H1.
  change (x :: cs) with ([x] ++ cs). rewrite replace_loop_app.
  destruct (replace_loop [x] now v st 0 0) as [[st1 a1] ch1]. destruct H1 as (Hv1&Hc1&Ho1&Hs1). cbn [fst] in Hd.
  pose proof (replace_loop_counts cs now v st1 a1 ch1) as Hn.
  assert (ids_ok st1) as Hst1 by (eapply ids_ok_changed; [done| |done]; rewrite Hv1; apply Hst).
  specialize (IH st1 Hst1 Hv Hd). destruct (replace_loop cs now v st1 0 0) as [[st' a'] ch'].
  destruct Hn as [-> _], IH as (Hv'&Hc'&Hu). split; [congruence|]. split; [by eapply changed_at_trans|].
  intros u. specialize (Hu u). cbn [app contacts_of map last_at]. fold (contacts_of cs).
  destruct (last_at u (contacts_of cs)); [done|]. destruct (equal_fold u _) eqn:Ef.
  - eapply one_live_same; [done|]. apply (one_live_fold (URI x.1.1)); [|done].
    unfold equal_fold in *. apply bool_decide_eq_true in Ef. by apply bool_decide_eq_true.
  - eapply same_live_trans; [|done]. by apply Hs1.
Qed.

Lemma last_at_None u cs : last_at u cs = None <-> Forall (fun c => equal_fold u (URI c) = false) cs.
Proof.
  induction cs as [|c cs IH]; [done|]. rewrite Forall_cons. cbn [last_at].
  destruct (last_at u cs); [naive_solver|]. destruct (equal_fold u (URI c)); naive_solver.
Qed.

Lemma elem_of_kept u cs :
  to_lower u ∈ (list_to_set (map (fun x : Contact * list string * string => to_lower (URI (fst (fst x)))) cs) : gset string)
  <-> last_at u (contacts_of cs) <> None.
Proof.
  rewrite elem_of_list_to_set, last_at_None, Forall_forall. unfold contacts_of. split.
  - intros (x&E&Hx)%list_elem_of_fmap H. specialize (H x.1.1 (list_elem_of_fmap_2 _ _ _ Hx)).
    by apply bool_decide_eq_false in H.
  - intros H. apply dec_stable. intros Hn. apply H. intros c (x&->&Hx)%list_elem_of_fmap.
    apply bool_decide_eq_false_2. intros E. apply Hn. rewrite E.
    by apply (list_elem_of_fmap_2 (fun y : Contact * list string * string => to_lower (URI y.1.1))).
Qed.

Lemma dropped_none keep (m : gmap string Contact) (f : Contact -> Contact) :
  filter (fun c => dropped keep c = true) (map_to_list m).*2 = [] ->
  (fun c => if dropped keep c then f c else c) <$> m = m.
Proof.
  intros H. apply map_eq. intros k. rewrite lookup_fmap. destruct (m !! k) as [c|] eqn:E; [|done]. simpl.
  destruct (dropped keep c) eqn:Ed; [|done].
  assert (c ∈ filter (fun c => dropped keep c = true) (map_to_list m).*2) as Hi.
  { apply list_elem_of_filter. split; [done|]. apply (list_elem_of_fmap_2 snd (map_to_list m) (k, c)).
    by apply elem_of_map_to_list. }
  rewrite H in Hi. by apply not_elem_of_nil in Hi.
Qed.

Definition sweep (keep : gset string) (v now : Z) (m : gmap string Contact) : gmap string Contact :=
  (fun c => if dropped keep c then tombstone v now c else c) <$> m.

Lemma live_at_lower u c : live_at u c = true -> Deleted c = false /\ to_lower (URI c) = to_lower u.
Proof. unfold live_at, equal_fold. destruct (Deleted c); [done|]. by intros ->%bool_decide_eq_true. Qed.

Lemma sweep_keeps u keep v now m : to_lower u ∈ keep -> same_live u m (sweep keep v now m).
Proof.
  intros Hk k c Hl. unfold sweep. rewrite lookup_fmap. destruct (m !! k) as [x|]; [|done]. simpl.
  destruct (dropped keep x) eqn:Ed; [|done]. split; intros [= <-]; [done|].
  destruct (live_at_lower u x Hl) as [_ E]. unfold dropped in Ed. rewrite E in Ed.
  apply andb_true_iff in Ed as [_ Ed%bool_decide_eq_true]. done.
Qed.

Lemma sweep_drops u keep v now m k c : to_lower u ∉ keep -> sweep keep v now m !! k = Some c -> live_at u c = false.
Proof.
  intros Hk. unfold sweep. rewrite lookup_fmap. destruct (m !! k) as [x|]; [|done]. simpl. intros [= <-].
  apply not_true_is_false. intros [Hd E]%live_at_lower. destruct (dropped keep x) eqn:Ed; [done|].
  unfold dropped in Ed. rewrite Hd, E in Ed. simpl in Ed. by apply bool_decide_eq_false in Ed.
Qed.

Lemma sweep_changed keep v now st : ids_ok st -> changed_at v (Contacts_ st) (sweep keep v now (Contacts_ st)).
Proof.
  intros Hst k. unfold sweep. rewrite lookup_fmap. destruct (Contacts_ st !! k) as [c|] eqn:E; [|by left]. simpl.
  destruct (dropped keep c); [right|by left]. exists (tombstone v now c). by destruct (proj2 Hst k c E).
Qed.

Lemma replaceLocked_spec st cs now : ids_ok st -> draws_ok cs now (st_Version st + 1) st ->
  let '(st', res, any) := replaceLocked st cs now in
  st_Version st' = (if any then st_Version st + 1 else st_Version st) /\ r_Version res = st_Version st'
  /\ changed_at (st_Version st + 1) (Contacts_ st) (Contacts_ st') /\ (any = false -> st' = st)
  /\ forall u, match last_at u (contacts_of cs) with
               | Some d => one_live u d (Contacts_ st')
               | None => forall k c, Contacts_ st' !! k = Some c -> live_at u c = false
               end.
Proof.
  intros Hst Hd. unfold replaceLocked. set (v := st_Version st + 1) in *.
  assert (0 < v) as Hv by (unfold v; destruct Hst; lia). pose proof (replace_loop_spec cs now v st Hst Hv Hd) as H.
  pose proof (replace_loop_counts cs now v st 0 0) as Hn.
  destruct (replace_loop cs now v st 0 0) as [[st1 a] ch]. destruct Hn as (_&Ha&Hch&Hsame), H as (Hv1&Hc1&Hu).
  set (keep := list_to_set _ : gset string). set (l := filter _ _). cbn [st_Version Contacts_ Schema].
  fold (sweep keep v now (Contacts_ st1)).
  assert (ids_ok st1) as Hst1 by (eapply ids_ok_changed; [done| |done]; rewrite Hv1; apply Hst).
  set (any := bool_decide _). set (st' := if any then _ else _).
  assert (Contacts_ st' = sweep keep v now (Contacts_ st1)) as Em by (unfold st'; by destruct any).
  rewrite Em. cbn [r_Version]. split; [unfold st'; by destruct any|]. split; [done|].
  split; [eapply changed_at_trans; [done|by apply sweep_changed]|]. split.
  - intros Ha0. unfold st'. rewrite Ha0. apply bool_decide_eq_false in Ha0. unfold sweep.
    rewrite dropped_none by (apply nil_length_inv; fold l; lia). rewrite Hsame by lia. by destruct st.
  - intros u. specialize (Hu u). pose proof (elem_of_kept u cs) as Hk. fold keep in Hk.
    destruct (last_at u (contacts_of cs)).
    + eapply one_live_same; [|done]. apply sweep_keeps. by apply Hk.
    + intros k c. apply sweep_drops. intros Hin. by apply Hk in Hin.
Qed.

(** ** Writes as one kind of step *)

Inductive op :=
  | OpUpsert (order : list string) (newid : string) (now : Z) (deviceID : string) (c : Contact) (wo : writeOpts)
  | OpDelete (now : Z) (deviceID id : string) (wo : writeOpts)
  | OpReplace (now : Z) (deviceID : string) (cs : list (Contact * list string * string)) (wo : writeOpts).

Definition op_device (o : op) : string :=
  match o with OpUpsert _ _ _ d _ _ | OpDelete _ d _ _ | OpReplace _ d _ _ => d end.
Definition op_opts (o : op) : writeOpts :=
  match o with OpUpsert _ _ _ _ _ wo | OpDelete _ _ _ wo | OpReplace _ _ _ wo => wo end.

Definition is_ok {A} (r : dir_error + A) : bool := match r with inl _ => false | inr _ => true end.

(** The store after the operation, and whether it returned no error. *)
Definition run (o : op) (ok : bool) (s : Store) : Store * bool :=
  match o with
  | OpUpsert order newid now d c wo => let '(s', r) := Upsert order newid now d c wo ok s in (s', is_ok r)
  | OpDelete now d id wo => let '(s', r) := Delete now d id wo ok s in (s', is_ok r)
  | OpReplace now d cs wo => let '(s', r) := Replace now d cs wo ok s in (s', is_ok r)
  end.

(** The orders and ids the operation draws are possible ones. *)
Definition op_draws (o : op) (s : Store) : Prop :=
  match o with
  | OpUpsert order newid _ d _ _ => is_order (Contacts_ (stateLocked s d)) order /\ newid <> ""
  | OpDelete _ _ _ _ => True
  | OpReplace now d cs _ => draws_ok cs now (st_Version (stateLocked s d) + 1) (stateLocked s d)
  end.

Definition store_ok (s : Store) : Prop := forall d st, devices s !! d = Some st -> state_ok st.

(** Nothing a reader, a restart or a listener could tell apart. *)
Definition same_content (s s' : Store) : Prop :=
  (forall d, stateLocked s' d = stateLocked s d) /\ files s' = files s /\ calls s' = calls s
  /\ (store_ok s -> store_ok s').

(** [st'] is in memory and in the file, and has been told. *)
Definition committed (d by_ : string) (st' : state) (s s' : Store) : Prop :=
  devices s' = <[d := st']> (devices s)
  /\ files s' = (if persistent s then <[d := st']> (files s) else files s)
  /\ calls s' = calls s ++ [(d, st_Version st', by_)].

Definition outcome (o : op) (ok : bool) (s s' : Store) (done : bool) : Prop :=
  persistent s' = persistent s /\
  (same_content s s'
   \/ done = true /\ (ok = true \/ persistent s = false)
      /\ checkAll (pre (op_opts o)) (stateLocked s (op_device o)) = true
      /\ exists st', committed (op_device o) (by_ (op_opts o)) st' s s'
         /\ st_Version st' = st_Version (stateLocked s (op_device o)) + 1
         /\ changed_at (st_Version st') (Contacts_ (stateLocked s (op_device o))) (Contacts_ st')).

Lemma stateLocked_ok s d : store_ok s -> state_ok (stateLocked s d).
Proof. intros H. unfold stateLocked. destruct (devices s !! d) eqn:E; [by eapply H|apply state_ok_empty]. Qed.

Lemma same_content_refl s : same_content s s.
Proof. done. Qed.

(** Registering the device's current state changes nothing that can be told. *)
Lemma same_content_devices s m : (forall d, default empty_state (m !! d) = stateLocked s d) ->
  same_content s (with_devices s m).
Proof.
  intros H. split; [exact H|]. split; [done|]. split; [done|]. intros Hs d st E.
  pose proof (stateLocked_ok s d Hs) as Hd. rewrite <- H in Hd. simpl in E. by rewrite E in Hd.
Qed.

Lemma default_insert_self s d d' :
  default empty_state (<[d := stateLocked s d]> (devices s) !! d') = stateLocked s d'.
Proof.
  destruct (decide (d' = d)) as [->|]; [by rewrite lookup_insert_eq|by rewrite lookup_insert_ne].
Qed.

(** Both ends of a write of [st'] to [d], from a store that holds [d]'s state. *)
Lemma finish_write_outcome o s m st' ok : let d := op_device o in let st := stateLocked s d in
  (m = devices s \/ m = <[d := st]> (devices s)) -> checkAll (pre (op_opts o)) st = true ->
  st_Version st' = st_Version st + 1 -> changed_at (st_Version st') (Contacts_ st) (Contacts_ st') ->
  let '(s', done) := finish_write (ok || negb (persistent s)) (mkPending d st' (devices s !! d) (by_ (op_opts o)))
                       (with_devices (with_devices s m) (<[d := st']> m)) in
  outcome o ok s s' done.
Proof.
  intros d st Hm Hpre Hv Hc. assert (<[d := st']> m = <[d := st']> (devices s)) as Em.
  { destruct Hm as [->| ->]; [done|by rewrite insert_insert_eq]. }
  unfold finish_write. rewrite Em. destruct (ok || negb (persistent s)) eqn:Eok; (split; [done|]).
  - right. split; [done|]. split; [destruct ok; [by left|right; by destruct (persistent s)]|].
    split; [done|]. by exists st'.
  - left. apply (same_content_devices s). intros d'. cbn [p_backup p_device devices with_devices]. unfold stateLocked.
    destruct (devices s !! d) as [st0|] eqn:Ed; destruct (decide (d' = d)) as [->|Hne].
    + by rewrite lookup_insert_eq, Ed.
    + by rewrite !lookup_insert_ne.
    + by rewrite lookup_delete_eq, Ed.
    + by rewrite lookup_delete_ne, lookup_insert_ne.
Qed.

Lemma stay_outcome o ok s s' done : persistent s' = persistent s -> same_content s s' -> outcome o ok s s' done.
Proof. intros Hp H. split; [done|by left]. Qed.

Lemma same_content_insert_self s d : same_content s (with_devices s (<[d := stateLocked s d]> (devices s))).
Proof. apply same_content_devices. intros d'. apply default_insert_self. Qed.

Lemma upsert_outcome order newid now d c wo ok s : store_ok s -> op_draws (OpUpsert order newid now d c wo) s ->
  let '(s', done) := run (OpUpsert order newid now d c wo) ok s in
  outcome (OpUpsert order newid now d c wo) ok s s' done.
Proof.
  intros Hs [Ho Hnew]. pose proof (state_ok_ids _ (stateLocked_ok s d Hs)) as Hst.
  cbn [run]. unfold Upsert, upsert_begin. case_decide; [by apply stay_outcome|].
  destruct (negb (validate c)); [by apply stay_outcome|]. destruct (negb (checkDeviceID d)); [by apply stay_outcome|].
  destruct (checkAll (pre wo) (stateLocked s d)) eqn:Ep; cbn [negb];
    [|apply stay_outcome; [done|apply same_content_insert_self]].
  pose proof (upsertLocked_changed order newid now (stateLocked s d) c 0 Hst Ho Hnew ltac:(lia)) as Hc.
  destruct (upsertLocked _ _ _ _ _ _) as [[st' out] e]. unfold next_version in Hc.
  rewrite !(decide_True (P := 0 = 0)) in Hc by done. destruct Hc as [Hv Hc].
  pose proof (finish_write_outcome (OpUpsert order newid now d c wo) s (<[d := stateLocked s d]> (devices s))
    (marshalled st') ok ltac:(by right) Ep Hv) as Hf. cbn [op_device op_opts] in Hf. rewrite <- Hv in Hc. specialize (Hf Hc).
  cbn [devices with_devices] in *. destruct (finish_write _ _ _) as [s' done]. by destruct done.
Qed.

Lemma delete_outcome now d id wo ok s : store_ok s ->
  let '(s', done) := run (OpDelete now d id wo) ok s in outcome (OpDelete now d id wo) ok s s' done.
Proof.
  intros Hs. cbn [run]. unfold Delete, delete_begin. case_decide; [by apply stay_outcome|].
  destruct (negb (checkDeviceID d)); [by apply stay_outcome|].
  destruct (devices s !! d) as [st|] eqn:Ed; [|by apply stay_outcome].
  destruct (checkAll (pre wo) st) eqn:Ep; cbn [negb]; [|by apply stay_outcome].
  destruct (Contacts_ st !! id) as [c|] eqn:Ec; [|by apply stay_outcome].
  destruct (Deleted c); [by apply stay_outcome|]. destruct (Hs d st Ed) as [Hv Hm].
  set (st' := marshalled _). assert (stateLocked s d = st) as Est by (unfold stateLocked; by rewrite Ed).
  pose proof (finish_write_outcome (OpDelete now d id wo) s (devices s) st' ok) as Hf.
  cbn [op_device op_opts] in Hf. rewrite Est, Ed in Hf.
  specialize (Hf ltac:(by left) Ep eq_refl). cbn [devices with_devices] in *.
  destruct (finish_write _ _ _) as [s' done]. destruct done; apply Hf;
    (apply changed_at_insert; [by apply (Hm id c)|by apply (Hm id c)|done]).
Qed.

Lemma replace_outcome now d cs wo ok s : store_ok s -> op_draws (OpReplace now d cs wo) s ->
  let '(s', done) := run (OpReplace now d cs wo) ok s in outcome (OpReplace now d cs wo) ok s s' done.
Proof.
  intros Hs Hd. pose proof (state_ok_ids _ (stateLocked_ok s d Hs)) as Hst.
  cbn [run]. unfold Replace, replace_begin. case_decide; [by apply stay_outcome|].
  destruct (negb (forallb _ cs)); [by apply stay_outcome|]. destruct (negb (checkDeviceID d)); [by apply stay_outcome|].
  destruct (checkAll (pre wo) (stateLocked s d)) eqn:Ep; cbn [negb].
  2: { apply stay_outcome; [done|]. apply same_content_devices. intros d'. unfold stateLocked.
       destruct (devices s !! d) eqn:E; [done|]. destruct (decide (d' = d)) as [->|].
       - by rewrite lookup_delete_eq, E.
       - by rewrite lookup_delete_ne. }
  cbn [op_draws] in Hd. pose proof (replaceLocked_spec _ cs now Hst Hd) as Hr.
  destruct (replaceLocked _ _ _) as [[st' res] any]. destruct Hr as (Hv&_&Hc&Hsame&_). destruct any.
  - pose proof (finish_write_outcome (OpReplace now d cs wo) s (devices s) (marshalled st') ok ltac:(by left) Ep Hv) as Hf.
    cbn [op_device op_opts] in Hf. rewrite <- Hv in Hc. specialize (Hf Hc).
    cbn [devices with_devices] in *. destruct (finish_write _ _ _) as [s' done]. by destruct done.
  - rewrite Hsame by done. apply stay_outcome; [done|apply same_content_insert_self].
Qed.

Lemma run_outcome o ok s : store_ok s -> op_draws o s ->
  let '(s', done) := run o ok s in outcome o ok s s' done.
Proof. destruct o; intros; [by apply upsert_outcome|by apply delete_outcome|by apply replace_outcome]. Qed.

(** ** The delta a client pulls *)

(** What a client holds: the live contacts, by id. *)
Definition live_view (st : state) : gmap string Contact := filter (fun kc => Deleted kc.2 = false) (Contacts_ st).

(** A client's use of a delta: tombstones remove, the rest replaces. *)
Definition apply_delta (l : list Contact) (view : gmap string Contact) : gmap string Contact :=
  foldl (fun view c => if Deleted c then delete (ID c) view else <[ID c := c]> view) view l.

Definition shown (c : Contact) : option Contact := if Deleted c then None else Some c.

Lemma lookup_live_view st k : live_view st !! k = c ← Contacts_ st !! k; shown c.
Proof.
  unfold live_view, shown. rewrite map_lookup_filter. destruct (Contacts_ st !! k) as [c|]; [|done]. simpl.
  case_guard as Hg; simpl in *; destruct (Deleted c); naive_solver.
Qed.

Lemma apply_delta_other l view k : k ∉ map ID l -> apply_delta l view !! k = view !! k.
Proof.
  unfold apply_delta. revert view. induction l as [|c l IH]; intros view Hk; [done|]. cbn [map] in Hk.
  rewrite not_elem_of_cons in Hk. destruct Hk as [Hne Hk]. simpl. rewrite IH by done.
  destruct (Deleted c); [by rewrite lookup_delete_ne|by rewrite lookup_insert_ne].
Qed.

Lemma apply_delta_elem l view c : NoDup (map ID l) -> c ∈ l -> apply_delta l view !! ID c = shown c.
Proof.
  revert view. induction l as [|x l IH]; intros view Hnd Hc; [by apply not_elem_of_nil in Hc|].
  cbn [map] in Hnd. apply NoDup_cons in Hnd as [Hx Hnd]. apply elem_of_cons in Hc as [->|Hc].
  - unfold apply_delta. simpl. fold (apply_delta l (if Deleted x then delete (ID x) view else <[ID x := x]> view)).
    rewrite apply_delta_other by done. unfold shown.
    destruct (Deleted x); [by rewrite lookup_delete_eq|by rewrite lookup_insert_eq].
  - unfold apply_delta. simpl. by apply IH.
Qed.

Lemma elem_of_contacts (m : gmap string Contact) c : c ∈ (map_to_list m).*2 <-> exists k, m !! k = Some c.
Proof.
  rewrite list_elem_of_fmap. split.
  - intros ([k c']&->&H%elem_of_map_to_list). eauto.
  - intros [k H]. exists (k, c). split; [done|]. by apply elem_of_map_to_list.
Qed.

Lemma elem_of_changes st since c : state_ok st ->
  c ∈ state_changes st since <-> changed_since since c /\ Contacts_ st !! ID c = Some c.
Proof.
  intros [_ Hm]. unfold state_changes. rewrite merge_sort_Permutation, list_elem_of_filter, elem_of_contacts.
  split; intros [Hc H]; (split; [done|]); [|eauto]. destruct H as [k E]. by destruct (Hm k c E) as [-> _].
Qed.

Lemma changes_NoDup st since : state_ok st -> NoDup (map ID (state_changes st since)).
Proof.
  intros [_ Hm]. unfold state_changes. change (map ID ?l) with (ID <$> l). rewrite merge_sort_Permutation.
  apply (sublist_NoDup _ (ID <$> (map_to_list (Contacts_ st)).*2)); cycle 1.
  - apply fmap_sublist, sublist_filter.
  - rewrite <- list_fmap_compose. replace (_ <$> _) with ((map_to_list (Contacts_ st)).*1); [apply NoDup_fst_map_to_list|].
    apply list_fmap_ext. intros i [k c] E%list_elem_of_lookup_2%elem_of_map_to_list. by destruct (Hm k c E) as [Hid _].
Qed.

(** [st'] is [st] some writes later. *)
Definition grown (st st' : state) : Prop :=
  st_Version st <= st_Version st'
  /\ forall k, Contacts_ st' !! k = Contacts_ st !! k \/ exists c, Contacts_ st' !! k = Some c /\ st_Version st < Version c.

Lemma grown_refl st : grown st st.
Proof. split; [lia|]. intros k. by left. Qed.

Lemma grown_trans st1 st2 st3 : grown st1 st2 -> grown st2 st3 -> grown st1 st3.
Proof.
  intros [H1 G1] [H2 G2]. split; [lia|]. intros k. destruct (G2 k) as [->|(c&->&H)]; [apply G1|].
  right. exists c. split; [done|lia].
Qed.

Lemma grown_sync st st' : state_ok st -> state_ok st' -> grown st st' ->
  apply_delta (state_changes st' (st_Version st)) (live_view st) = live_view st'.
Proof.
  intros [Hv Hm] Hst' [_ Hg]. apply map_eq. intros k.
  pose proof (changes_NoDup st' (st_Version st) Hst') as Hnd.
  destruct (decide (k ∈ map ID (state_changes st' (st_Version st)))) as [Hk|Hk].
  - apply list_elem_of_fmap in Hk as (c&->&Hc). rewrite apply_delta_elem by done.
    apply elem_of_changes in Hc as [_ E]; [|done]. by rewrite lookup_live_view, E.
  - rewrite apply_delta_other, !lookup_live_view by done.
    destruct (Hg k) as [->|(c&E&Hc)]; [done|]. rewrite E. simpl.
    assert (ID c = k) as Hid by (by apply (proj2 Hst')).
    destruct (decide (changed_since (st_Version st) c)) as [Hch|Hch].
    + destruct Hk. rewrite <- Hid. apply list_elem_of_fmap_2. apply elem_of_changes; [done|]. by rewrite Hid.
    + unfold changed_since in Hch. assert (st_Version st = 0 /\ Deleted c = true) as [Hz Hd].
      { apply dec_stable. naive_solver. }
      unfold shown. rewrite Hd. destruct (Contacts_ st !! k) as [c0|] eqn:E0; [|done].
      destruct (Hm k c0 E0) as (_&_&?). lia.
Qed.

Lemma outcome_grown o ok s s' done : store_ok s -> outcome o ok s s' done ->
  store_ok s' /\ forall d, grown (stateLocked s d) (stateLocked s' d).
Proof.
  intros Hs [_ [(Hc&_&_&Hok)|(_&_&_&st'&(Hd&_&_)&Hv&Hch)]].
  - split; [by apply Hok|]. intros d. rewrite Hc. apply grown_refl.
  - set (d0 := op_device o) in *. pose proof (stateLocked_ok s d0 Hs) as Hst.
    assert (state_ok st') as Hst'.
    { destruct Hst as [H0 Hm]. split; [lia|]. eapply contacts_ok_changed; [done|done|lia|lia]. }
    split.
    + intros d st E. rewrite Hd in E. apply lookup_insert_Some in E as [[_ <-]|[_ E]]; [done|by eapply Hs].
    + intros d. unfold stateLocked at 2. rewrite Hd. destruct (decide (d = d0)) as [->|];
        [rewrite lookup_insert_eq|rewrite lookup_insert_ne by done; apply grown_refl].
      simpl. split; [lia|]. intros k. destruct (Hch k) as [->|(c&->&_&_&Hvc)]; [by left|]. right.
      exists c. split; [done|lia].
Qed.

(** The store after a sequence of writes, each with the fate of its file.  A purge is
    not one of them: a directory begins again after it. *)
Definition runs (ops : list (op * bool)) (s : Store) : Store := foldl (fun s o => fst (run (fst o) (snd o) s)) s ops.

Fixpoint runs_draws (ops : list (op * bool)) (s : Store) : Prop :=
  match ops with
  | [] => True
  | (o, ok) :: ops' => op_draws o s /\ runs_draws ops' (fst (run o ok s))
  end.

Lemma runs_grown ops : forall s, store_ok s -> runs_draws ops s ->
  store_ok (runs ops s) /\ forall d, grown (stateLocked s d) (stateLocked (runs ops s) d).
Proof.
  induction ops as [|[o ok] ops IH]; intros s Hs Hd; [split; [done|intros; apply grown_refl]|].
  destruct Hd as [Hd Hds]. pose proof (run_outcome o ok s Hs Hd) as H.
  cbn [runs foldl fst snd]. fold (runs ops (fst (run o ok s))).
  destruct (run o ok s) as [s' done]. cbn [fst] in *.
  apply outcome_grown in H as [Hs' Hg]; [|done]. destruct (IH s' Hs' Hds) as [Hok Hg'].
  split; [done|]. intros d. by eapply grown_trans.
Qed.

Lemma Changes_eq s d since : Changes s d since = (state_changes (stateLocked s d) since, VersionOf s d).
Proof. unfold Changes, VersionOf, stateLocked. by destruct (devices s !! d). Qed.

Lemma VersionOf_eq s d : VersionOf s d = st_Version (stateLocked s d).
Proof. unfold VersionOf, stateLocked. by destruct (devices s !! d). Qed.

(** ** The properties *)

(** C11: a sync from any earlier version is complete. Take any store that is
    well formed, what a client holds of a device's directory there (its live
    contacts) and the version it got with them. After any sequence of upserts,
    deletes and replaces on any devices, each with its preconditions and
    whether or not its file write failed, applying [Changes] since that version
    gives exactly the live contacts of then. *)
Theorem sync_complete ops s d : store_ok s -> runs_draws ops s ->
  let s' := runs ops s in
  let '(delta, v) := Changes s' d (VersionOf s d) in
  apply_delta delta (live_view (stateLocked s d)) = live_view (stateLocked s' d)
  /\ v = VersionOf s' d /\ VersionOf s d <= v.
Proof.
  intros Hs Hd s'. destruct (runs_grown ops s Hs Hd) as [Hs' Hg]. fold s' in Hs', Hg.
  rewrite Changes_eq, !VersionOf_eq. split; [|split; [done|apply Hg]].
  apply grown_sync; [by apply stateLocked_ok|by apply stateLocked_ok|apply Hg].
Qed.

(** an upsert without an id leaves exactly one live contact at its URI.
    When the write is made, the contact answered is stored under its id (that
    of a live contact at the URI, or the fresh one if there was none) with the
    next version; every other live contact at the URI is a tombstone of that
    version; every other contact is what it was; memory, the file and the
    notification agree. *)
Theorem upsert_collapses_uri order newid now d c wo ok s s' out :
  store_ok s -> is_order (Contacts_ (stateLocked s d)) order -> newid <> "" -> ID c = "" ->
  Upsert order newid now d c wo ok s = (s', inr out) ->
  let m := Contacts_ (stateLocked s d) in
  let m' := Contacts_ (stateLocked s' d) in
  let v := VersionOf s d + 1 in
  VersionOf s' d = v /\ Version out = v /\ URI out = URI c /\ same_data c out
  /\ (forall k, m' !! k = if decide (k = ID out) then Some out
                          else (fun x => if live_at (URI c) x then tombstone v now x else x) <$> m !! k)
  /\ (forall k x, m' !! k = Some x -> (live_at (URI c) x = true <-> k = ID out))
  /\ ((exists x, m !! ID out = Some x /\ live_at (URI c) x = true)
      \/ ID out = newid /\ forall k x, m !! k = Some x -> live_at (URI c) x = false)
  /\ calls s' = calls s ++ [(d, v, by_ wo)]
  /\ (persistent s = true -> files s' !! d = devices s' !! d).
Proof.
  intros Hs Ho Hnew Hid Hup m m' v. pose proof (state_ok_ids _ (stateLocked_ok s d Hs)) as Hst.
  unfold Upsert, upsert_begin in Hup. case_decide; [done|]. destruct (negb (validate c)); [done|].
  destruct (negb (checkDeviceID d)); [done|]. destruct (negb (checkAll _ _)); [done|].
  pose proof (upsertLocked_changed order newid now _ c 0 Hst Ho Hnew ltac:(lia)) as Hv.
  pose proof (upsertLocked_lookup order newid now _ c 0 Hst Ho Hnew Hid) as H1.
  destruct (upsertLocked _ _ _ _ _ _) as [[st' out'] e]. unfold next_version in Hv, H1.
  rewrite !(decide_True (P := 0 = 0)) in Hv, H1 by done. rewrite <- VersionOf_eq in Hv, H1.
  destruct Hv as [Hv _], H1 as (Hk&(Hu&Hn&Hm&Hf&Hd&Hvo)&He). fold v in Hv, Hk, Hvo.
  unfold finish_write in Hup. cbn [persistent with_devices] in Hup. destruct (ok || negb (persistent s)); [|done]. injection Hup as <- <-.
  assert (Contacts_ (stateLocked (mkStore (persistent s)
    (<[d := marshalled st']> (<[d := stateLocked s d]> (devices s))) (files s) (calls s)) d) = Contacts_ st') as Em.
  { unfold stateLocked at 1. cbn [devices]. by rewrite lookup_insert_eq. }
  assert (m' = Contacts_ st') as Em' by exact Em. rewrite Em'.
  split; [unfold VersionOf; cbn [devices with_devices]; rewrite lookup_insert_eq; exact Hv|].
  split; [done|]. split; [done|]. split; [done|]. split; [exact Hk|]. split; [|split; [|split]].
  - intros k x E. rewrite Hk in E. case_decide as Hc.
    + injection E as <-. split; [done|]. intros _. unfold live_at, equal_fold. rewrite Hd, Hu. by apply bool_decide_eq_true.
    + split; [|done]. intros Hl. fold m in E. destruct (m !! k) as [y|]; [|done]. injection E as <-.
      unfold retire in Hl. destruct (live_at (URI c) y) eqn:Ey; [done|congruence].
  - destruct e; [by left|by right].
  - cbn [calls with_devices p_device p_state p_by marshalled st_Version]. by rewrite Hv.
  - intros Hp. cbn [files devices with_devices p_device p_state]. by rewrite Hp, !lookup_insert_eq.
Qed.

(** a reconcile makes the directory the list. When [Replace] answers
    without an error, at every URI of the list (in any case) exactly one
    contact is live, with the name, mode and star of the list's last entry for
    it, and at every other URI none is; the version is bumped once if anything
    changed and not at all otherwise, when no contact changed either. *)
Theorem replace_makes_the_list cs now d wo ok s s' res :
  store_ok s -> draws_ok cs now (st_Version (stateLocked s d) + 1) (stateLocked s d) ->
  Replace now d cs wo ok s = (s', inr res) ->
  let st := stateLocked s d in
  let st' := stateLocked s' d in
  (forall u, match last_at u (contacts_of cs) with
             | Some c => one_live u c (Contacts_ st')
             | None => forall k x, Contacts_ st' !! k = Some x -> live_at u x = false
             end)
  /\ r_Version res = st_Version st'
  /\ (st' = st /\ calls s' = calls s
      \/ st_Version st' = st_Version st + 1 /\ calls s' = calls s ++ [(d, r_Version res, by_ wo)])
  /\ DryRun now d cs s = inr (mkResult (st_Version st) (Added res) (Changed res) (Removed res)).
Proof.
  intros Hs Hdr Hre st st'. pose proof (state_ok_ids _ (stateLocked_ok s d Hs)) as Hst.
  unfold Replace, replace_begin in Hre. unfold DryRun. case_decide; [done|].
  destruct (negb (forallb _ cs)); [done|]. destruct (negb (checkDeviceID d)); [done|].
  destruct (negb (checkAll _ _)); [done|]. pose proof (replaceLocked_spec _ cs now Hst Hdr) as H1. fold st in H1.
  fold st in Hre |- *. destruct (replaceLocked st cs now) as [[st1 r] any].
  destruct H1 as (Hv&Hr&_&Hsame&Hu). destruct any.
  - unfold finish_write in Hre. cbn [persistent with_devices] in Hre. destruct (ok || negb (persistent s)); [|done]. injection Hre as <- <-.
    assert (st' = marshalled st1) as -> by (unfold st', stateLocked; cbn [devices with_devices]; by rewrite lookup_insert_eq).
    split; [exact Hu|]. split; [done|]. split; [|done]. right. split; [done|].
    cbn [calls with_devices p_device p_state p_by]. by rewrite Hr.
  - injection Hre as <- <-.
    assert (st' = st1) as -> by (unfold st', stateLocked; cbn [devices with_devices]; by rewrite lookup_insert_eq).
    split; [exact Hu|]. split; [done|]. split; [|done]. left. split; [by apply Hsame|done].
Qed.

(** a write happens entirely or not at all. From a well-formed store, an
    upsert, delete or replace either leaves every directory, every file and
    the notifications as they were (it must, when it answers an error), or it
    answers success with every precondition equal to the version it found and
    the device's new state, one version later and different only in contacts
    of that version, in memory, in the file and told once. The store stays
    well formed. *)
Theorem write_all_or_nothing o ok s : store_ok s -> op_draws o s ->
  let '(s', done) := run o ok s in outcome o ok s s' done /\ store_ok s'.
Proof.
  intros Hs Hd. pose proof (run_outcome o ok s Hs Hd) as H. destruct (run o ok s) as [s' done].
  split; [done|]. by eapply outcome_grown.
Qed.

Lemma changes_at_head st : state_ok st -> state_changes st (st_Version st) = [].
Proof.
  intros Hst. destruct (state_changes st (st_Version st)) as [|c l] eqn:E; [done|].
  assert (c ∈ state_changes st (st_Version st)) as Hc by (rewrite E; by left).
  apply elem_of_changes in Hc as [[Hv _] Hk]; [|done]. destruct (proj2 Hst _ _ Hk) as (_&_&?). lia.
Qed.

Lemma upsertLocked_out order newid now st c v : ids_ok st -> is_order (Contacts_ st) order -> newid <> "" ->
  let '(_, out, _) := upsertLocked order newid now st c v in Version out = next_version st v.
Proof.
  intros Hst Ho Hnew. destruct (decide (ID c = "")); [by rewrite upsertLocked_uri|].
  unfold upsertLocked. rewrite decide_False by done. rewrite (decide_False (P := ID c = "")) by done.
  unfold next_version. by case_decide.
Qed.

Lemma upsert_begin_version order newid now d c wo s s1 p out : store_ok s ->
  is_order (Contacts_ (stateLocked s d)) order -> newid <> "" ->
  upsert_begin order newid now d c wo s = (s1, inr (p, out)) ->
  persistent s1 = persistent s /\ p_device p = d /\ devices s1 !! d = Some (p_state p)
  /\ st_Version (p_state p) = VersionOf s d + 1 /\ Version out = VersionOf s d + 1.
Proof.
  intros Hs Ho Hnew Hb. pose proof (state_ok_ids _ (stateLocked_ok s d Hs)) as Hst.
  unfold upsert_begin in Hb. case_decide; [done|]. destruct (negb (validate c)); [done|].
  destruct (negb (checkDeviceID d)); [done|]. destruct (negb (checkAll _ _)); [done|].
  pose proof (upsertLocked_changed order newid now _ c 0 Hst Ho Hnew ltac:(lia)) as Hv.
  pose proof (upsertLocked_out order newid now _ c 0 Hst Ho Hnew) as Hout.
  destruct (upsertLocked _ _ _ _ _ _) as [[st' o] e]. destruct Hv as [Hv _]. injection Hb as <- <- <-.
  rewrite VersionOf_eq. cbn [devices with_devices p_device p_state persistent]. by rewrite lookup_insert_eq.
Qed.

(** Readers see a write before its file is safe, and a failed file write
    takes the version back. When a client reads between an upsert's two
    critical sections, the file write then fails, and the next upsert
    succeeds, that upsert has the very version the client holds: its [Changes]
    from there are empty and the contact written never reaches it. *)
Theorem failed_write_hides_the_next order newid now d c wo s s1 p out s2 order' newid' now' c' wo' s3 out' since :
  store_ok s -> persistent s = true ->
  is_order (Contacts_ (stateLocked s d)) order -> newid <> "" ->
  is_order (Contacts_ (stateLocked s2 d)) order' -> newid' <> "" ->
  upsert_begin order newid now d c wo s = (s1, inr (p, out)) ->
  finish_write false p s1 = (s2, false) ->
  Upsert order' newid' now' d c' wo' true s2 = (s3, inr out') ->
  Changes s3 d (snd (Changes s1 d since)) = ([], snd (Changes s1 d since))
  /\ VersionOf s d < Version out'.
Proof.
  intros Hs Hp Ho Hnew Ho' Hnew' Hb Hf Hup.
  destruct (upsert_begin_version _ _ _ _ _ _ _ _ _ _ Hs Ho Hnew Hb) as (Hp1&_&Hd1&Hv1&_).
  assert (run (OpUpsert order newid now d c wo) false s = (s2, false)) as E1.
  { cbn [run]. unfold Upsert. rewrite Hb, Hp1, Hp. cbn [negb orb]. by rewrite Hf. }
  pose proof (run_outcome (OpUpsert order newid now d c wo) false s Hs ltac:(done)) as H1.
  rewrite E1 in H1. destruct H1 as [_ [(Hc&_&_&Hok)|(?&_)]]; [|done]. specialize (Hok Hs).
  pose proof (run_outcome (OpUpsert order' newid' now' d c' wo') true s2 Hok ltac:(done)) as H2.
  cbn [run] in H2. rewrite Hup in H2. destruct (outcome_grown _ _ _ _ _ Hok H2) as [Hs3 _].
  unfold Upsert in Hup. destruct (upsert_begin order' newid' now' d c' wo' s2) as [s2' [|[p' o']]] eqn:Hb'; [done|].
  destruct (upsert_begin_version _ _ _ _ _ _ _ _ _ _ Hok Ho' Hnew' Hb') as (_&Hpd&Hd2&Hv2&Hvo).
  simpl in Hup. injection Hup as <- <-.
  assert (VersionOf s2 d = VersionOf s d) as E2 by (by rewrite !VersionOf_eq, Hc).
  rewrite !Changes_eq. cbn [snd].
  assert (VersionOf s1 d = VersionOf s d + 1) as -> by (unfold VersionOf at 1; by rewrite Hd1).
  set (s3 := mkStore _ _ _ _) in *.
  assert (st_Version (stateLocked s3 d) = VersionOf s d + 1) as E3.
  { unfold stateLocked, s3. cbn [devices]. rewrite Hd2. simpl. lia. }
  split; [|lia]. rewrite (VersionOf_eq s3), E3. f_equal. rewrite <- E3. by apply changes_at_head, stateLocked_ok.
Qed.

(** ** Witnesses *)

Definition example_contact (id name uri : string) (v : Z) : Contact := mkContact id name uri ModeLocal false v 7 false.

Definition example_store : Store :=
  let st := mkState 1 2 {[ "ct_1" := example_contact "ct_1" "Ann" "sip:ann@pbx" 1;
                           "ct_2" := example_contact "ct_2" "Ann" "SIP:ann@pbx" 2 ]} in
  mkStore true {[ "dev" := st ]} {[ "dev" := st ]} [].

Lemma example_store_ok : store_ok example_store.
Proof.
  intros d st E. unfold example_store in E. cbn [devices] in E. apply lookup_singleton_Some in E as [<- <-].
  split; [done|]. cbn [Contacts_ st_Version]. intros k c E.
  apply lookup_insert_Some in E as [[<- <-]|[_ E]]; [done|].
  apply lookup_singleton_Some in E as [<- <-]. done.
Qed.

Definition example_order : list string := (map_to_list (Contacts_ (stateLocked example_store "dev"))).*1.

Lemma example_is_order : is_order (Contacts_ (stateLocked example_store "dev")) example_order.
Proof. unfold is_order, example_order. apply Permutation_refl. Qed.

Definition example_ops : list (op * bool) :=
  [(OpUpsert example_order "ct_3" 9 "dev" (example_contact "" "Bo" "sip:bo@pbx" 0) (mkOpts [] "admin"), false);
   (OpReplace 10 "dev" [(example_contact "" "Bea" "sip:bea@pbx" 0, example_order, "ct_4")] (mkOpts [2] "admin"), true)].

Lemma example_runs_draws : runs_draws example_ops example_store.
Proof. cbn [runs_draws example_ops op_draws]. vm_compute. split_and!; done || reflexivity. Qed.

Lemma sync_complete_witness : store_ok example_store /\ runs_draws example_ops example_store /\
  let s' := runs example_ops example_store in
  let '(delta, v) := Changes s' "dev" 2 in
  apply_delta delta (live_view (stateLocked example_store "dev")) = live_view (stateLocked s' "dev") /\ v = 3 /\ length delta = 3%nat.
Proof.
  split; [apply example_store_ok|]. split; [apply example_runs_draws|].
  pose proof (sync_complete example_ops example_store "dev" example_store_ok example_runs_draws) as H.
  cbv zeta in H |- *. change (VersionOf example_store "dev") with 2 in H. revert H.
  destruct (Changes _ _ _) as [delta v] eqn:E. intros [H [Hv _]]. split; [exact H|].
  clear H Hv. vm_compute in E. injection E as <- <-. split; reflexivity.
Defined.

Lemma upsert_collapses_uri_witness : exists s' out,
  Upsert example_order "ct_3" 9 "dev" (example_contact "" "Ann" "sip:Ann@pbx" 0) (mkOpts [2] "admin") true example_store = (s', inr out)
  /\ VersionOf s' "dev" = 3.
Proof.
  destruct (Upsert _ _ _ _ _ _ _ _) as [s' [|out]] eqn:E; [vm_compute in E; discriminate E|]. exists s', out. split; [done|].
  pose proof (upsert_collapses_uri example_order "ct_3" 9 "dev" (example_contact "" "Ann" "sip:Ann@pbx" 0) (mkOpts [2] "admin")
    true example_store s' out example_store_ok example_is_order ltac:(discriminate) eq_refl E) as H.
  cbv zeta in H. apply proj1 in H. rewrite H. vm_compute. reflexivity.
Defined.

Lemma replace_makes_the_list_witness : exists s' res,
  Replace 10 "dev" [(example_contact "" "Bea" "sip:bea@pbx" 0, example_order, "ct_4")] (mkOpts [2] "admin") true example_store
    = (s', inr res)
  /\ one_live "SIP:bea@pbx" (example_contact "" "Bea" "sip:bea@pbx" 0) (Contacts_ (stateLocked s' "dev")).
Proof.
  destruct (Replace _ _ _ _ _ _) as [s' [|res]] eqn:E; [vm_compute in E; discriminate E|]. exists s', res. split; [done|].
  assert (draws_ok [(example_contact "" "Bea" "sip:bea@pbx" 0, example_order, "ct_4")] 10
    (st_Version (stateLocked example_store "dev") + 1) (stateLocked example_store "dev")) as Hd.
  { split; [apply example_is_order|]. split; [discriminate|]. split; [vm_compute; reflexivity|exact I]. }
  pose proof (replace_makes_the_list _ _ _ _ _ _ _ _ example_store_ok Hd E) as H. cbv zeta in H.
  apply proj1 in H. exact (H "SIP:bea@pbx").
Defined.

Lemma write_all_or_nothing_witness :
  let o := OpDelete 9 "dev" "ct_1" (mkOpts [2] "device") in
  let '(s', done) := run o true example_store in
  outcome o true example_store s' done /\ done = true /\ calls s' = [("dev", 3, "device")].
Proof.
  pose proof (write_all_or_nothing (OpDelete 9 "dev" "ct_1" (mkOpts [2] "device")) true example_store example_store_ok I) as H.
  cbv zeta. revert H. destruct (run _ _ _) as [s' done] eqn:E. intros H. split; [exact (proj1 H)|]. clear H.
  vm_compute in E. injection E as <- <-. split; reflexivity.
Defined.

Definition example_begin : Store * (dir_error + (pending * Contact)) :=
  upsert_begin example_order "ct_3" 9 "dev" (example_contact "" "Bo" "sip:bo@pbx" 0) (mkOpts [] "admin") example_store.

(** What the begun write is to finish with; the default is never taken. *)
Definition example_pending : pending * Contact :=
  match snd example_begin with
  | inr x => x
  | inl _ => (mkPending "" empty_state None "", example_contact "" "" "" 0)
  end.

Definition example_failed : Store := fst (finish_write false (fst example_pending) (fst example_begin)).

Definition example_next : Store * (dir_error + Contact) :=
  Upsert example_order "ct_5" 11 "dev" (example_contact "" "Cy" "sip:cy@pbx" 0) (mkOpts [] "admin") true example_failed.

Lemma failed_write_hides_the_next_witness :
  Changes (fst example_begin) "dev" 0 <> Changes example_store "dev" 0
  /\ exists out, snd example_next = inr out /\ 2 < Version out
     /\ Changes (fst example_next) "dev" (snd (Changes (fst example_begin) "dev" 0))
        = ([], snd (Changes (fst example_begin) "dev" 0)).
Proof.
  split; [vm_compute; discriminate|].
  set (bo := example_contact "" "Bo" "sip:bo@pbx" 0). set (cy := example_contact "" "Cy" "sip:cy@pbx" 0).
  assert (upsert_begin example_order "ct_3" 9 "dev" bo (mkOpts [] "admin") example_store
    = (fst example_begin, inr (fst example_pending, snd example_pending))) as E1 by (vm_compute; reflexivity).
  assert (finish_write false (fst example_pending) (fst example_begin) = (example_failed, false)) as E2 by (vm_compute; reflexivity).
  assert (is_order (Contacts_ (stateLocked example_failed "dev")) example_order) as Ho by (vm_compute; reflexivity).
  set (out := mkContact "ct_5" "Cy" "sip:cy@pbx" ModeLocal false 3 11 false).
  assert (Upsert example_order "ct_5" 11 "dev" cy (mkOpts [] "admin") true example_failed
    = (fst example_next, inr out)) as E3 by (vm_compute; reflexivity).
  pose proof (failed_write_hides_the_next example_order "ct_3" 9 "dev" bo (mkOpts [] "admin") example_store
    (fst example_begin) (fst example_pending) (snd example_pending) example_failed example_order "ct_5" 11 cy
    (mkOpts [] "admin") (fst example_next) out 0 example_store_ok eq_refl
    example_is_order ltac:(discriminate) Ho ltac:(discriminate) E1 E2 E3) as [H1 H2].
  exists out. split; [vm_compute; reflexivity|]. split; [exact H2|exact H1].
Defined.
