(* ===== verification/Enroll.v ===== *)
(** The enrolment store (src/server/internal/enroll/enroll.go and line.go):
    device records, credentials, enrolment codes, settings and PBX lines, the
    commit with its rollback, and the licence seats.

    - The records are a map from device ids. Loops over it whose effect does
      not depend on the order are map operations; [Claim] takes the order.
    - A write is the mutation and the seat recount under the lock
      ([commit_begin]), the file write with no lock held, and the section after
      it ([commit_end]); [commit] is the whole, as the writers' lock makes
      writes run for each other. [SetSeats] takes only the inner lock and may
      run in between.
    - [file] is the map last marshalled for the path; whether a write of it
      succeeds is an argument. [told] is what the seat callback was told.
    - Arguments: SHA-256 and MD5 in hex, the sealing box, the random bytes
      drawn, the clock of each operation. *)

From S2P Require Import Prelude Text SipAuth.
Open Scope Z_scope.

(** ** Data *)

Record lineRecord := mkLine { DN : string; DigestUser : string; SecretEnc : string; l_UpdatedAt : Z }.

Record record := mkRecord {
  User : string;
  Description : string;
  LegacyLabel : string;
  TokenHash : string;
  rHA1 : string;
  IssuedAt : Z;
  UpdatedAt_ : Z;
  Revoked : bool;
  SeatSince : Z;
  CodeHash : string;
  CodeExpires : Z;
  SSIDs : list string;
  ConfigVersion : Z;
  PBXLine_ : option lineRecord;
}.

Abbreviation records := (gmap string record).

Inductive enroll_error :=
  | ErrVersionMismatch | ErrInvalid | ErrExists | ErrUserTaken | ErrImmutable | ErrNoSeats
  | ErrBadCode | ErrNoSecretKey | ErrRandom | ErrSeal | ErrSave
  | errNoChange.

#[export] Instance enroll_error_eq_dec : EqDecision enroll_error.
Proof. solve_decision. Defined.

Record SeatChange := mkSeatChange { Gained : list string; Lost : list string; c_Used : Z; c_Seats : Z }.

Inductive SeatStatus := SeatHolder | SeatUnlicensed | SeatNone.

Record Store := mkStore {
  persistent : bool;             (* path <> "" *)
  Realm_ : string;
  devices : records;
  file : option records;
  seats : Z;
  used : Z;
  unlicensed : gset string;
  hooked : bool;                 (* a seat callback is registered *)
  told : list SeatChange;
}.

Definition CodeTTL : Z := 15 * ns_minute.
Definition NoSeatLimit : Z := -1.
Definition codeAlphabet : string := "0123456789ABCDEFGHJKMNPQRSTVWXYZ".

(** Assignments to fields of a record. *)
Definition set_credential (hash ha1 : string) (now : Z) (r : record) : record :=
  mkRecord (User r) (Description r) (LegacyLabel r) hash ha1 now now (Revoked r) (SeatSince r) (CodeHash r)
    (CodeExpires r) (SSIDs r) (ConfigVersion r) (PBXLine_ r).
Definition set_seat_since (t : Z) (r : record) : record :=
  mkRecord (User r) (Description r) (LegacyLabel r) (TokenHash r) (rHA1 r) (IssuedAt r) (UpdatedAt_ r) (Revoked r) t
    (CodeHash r) (CodeExpires r) (SSIDs r) (ConfigVersion r) (PBXLine_ r).
Definition set_description (d : string) (r : record) : record :=
  mkRecord (User r) d (LegacyLabel r) (TokenHash r) (rHA1 r) (IssuedAt r) (UpdatedAt_ r) (Revoked r) (SeatSince r)
    (CodeHash r) (CodeExpires r) (SSIDs r) (ConfigVersion r) (PBXLine_ r).
Definition set_updated (now : Z) (r : record) : record :=
  mkRecord (User r) (Description r) (LegacyLabel r) (TokenHash r) (rHA1 r) (IssuedAt r) now (Revoked r) (SeatSince r)
    (CodeHash r) (CodeExpires r) (SSIDs r) (ConfigVersion r) (PBXLine_ r).
Definition set_revoked (b : bool) (r : record) : record :=
  mkRecord (User r) (Description r) (LegacyLabel r) (TokenHash r) (rHA1 r) (IssuedAt r) (UpdatedAt_ r) b (SeatSince r)
    (CodeHash r) (CodeExpires r) (SSIDs r) (ConfigVersion r) (PBXLine_ r).
Definition set_code (hash : string) (expires : Z) (r : record) : record :=
  mkRecord (User r) (Description r) (LegacyLabel r) (TokenHash r) (rHA1 r) (IssuedAt r) (UpdatedAt_ r) (Revoked r)
    (SeatSince r) hash expires (SSIDs r) (ConfigVersion r) (PBXLine_ r).
Definition set_config (ssids : list string) (v : Z) (r : record) : record :=
  mkRecord (User r) (Description r) (LegacyLabel r) (TokenHash r) (rHA1 r) (IssuedAt r) (UpdatedAt_ r) (Revoked r)
    (SeatSince r) (CodeHash r) (CodeExpires r) ssids v (PBXLine_ r).
Definition set_line (l : option lineRecord) (r : record) : record :=
  mkRecord (User r) (Description r) (LegacyLabel r) (TokenHash r) (rHA1 r) (IssuedAt r) (UpdatedAt_ r) (Revoked r)
    (SeatSince r) (CodeHash r) (CodeExpires r) (SSIDs r) (ConfigVersion r) l.
Definition new_record (user description : string) (issued updated : Z) : record :=
  mkRecord user description "" "" "" issued updated false 0 "" 0 [] 0 None.

(** ** Preconditions *)

Record Match := mkMatch { m_UpdatedAt : option Z; m_ConfigVersion : option Z }.

Definition check (m : Match) (r : record) : bool :=
  match m_UpdatedAt m with Some t => t =? UpdatedAt_ r | None => true end
  && match m_ConfigVersion m with Some v => v =? ConfigVersion r | None => true end.

Definition checkAll (pre : list Match) (r : record) : bool := forallb (fun m => check m r) pre.

(** ** Seats *)

Definition holdsSeat (r : record) : bool := bool_decide (TokenHash r <> "") && negb (Revoked r).

Definition seatSince (r : record) : Z := if is_zero (SeatSince r) then IssuedAt r else SeatSince r.

Definition freeSeatLocked (s : Store) : bool := (seats s =? NoSeatLimit) || (used s <? seats s).

(** The order of the queue: by [since], then by id. *)
Definition holder_le (a b : string * Z) : Prop := snd a < snd b \/ (snd a = snd b /\ String.le (fst a) (fst b)).

#[export] Instance holder_le_dec a b : Decision (holder_le a b).
Proof. unfold holder_le. apply _. Defined.

Definition holders (m : records) : list (string * Z) :=
  merge_sort holder_le
    (map (fun kr => (fst kr, seatSince (snd kr))) (filter (fun kr => holdsSeat (snd kr) = true) (map_to_list m))).

Definition recomputeSeatsLocked (s : Store) : Store :=
  let h := holders (devices s) in
  mkStore (persistent s) (Realm_ s) (devices s) (file s) (seats s) (zlen h)
    (if seats s =? NoSeatLimit then ∅ else list_to_set (map fst (drop (Z.to_nat (seats s)) h)))
    (hooked s) (told s).

Definition licensedSetLocked (s : Store) : gset string :=
  dom (filter (fun kr => holdsSeat (snd kr) = true /\ fst kr ∉ unlicensed s) (devices s)).

Definition sorted_ids (x : gset string) : list string := merge_sort String.le (elements x).

Definition seatDiffLocked (prev : gset string) (s : Store) : option SeatChange :=
  let now := licensedSetLocked s in
  let c := mkSeatChange (sorted_ids (now ∖ prev)) (sorted_ids (prev ∖ now)) (used s) (seats s) in
  if decide (now ∖ prev = ∅ /\ prev ∖ now = ∅) then None else Some c.

Definition fireSeats (change : option SeatChange) (s : Store) : Store :=
  match change with
  | Some c =>
      if hooked s
      then mkStore (persistent s) (Realm_ s) (devices s) (file s) (seats s) (used s) (unlicensed s) (hooked s) (told s ++ [c])
      else s
  | None => s
  end.

Definition SetSeats (n : Z) (s : Store) : Store :=
  let n := if n <? 0 then NoSeatLimit else n in
  if n =? seats s then s else
  let prev := licensedSetLocked s in
  let s := recomputeSeatsLocked (mkStore (persistent s) (Realm_ s) (devices s) (file s) n (used s) (unlicensed s)
                                   (hooked s) (told s)) in
  fireSeats (seatDiffLocked prev s) s.

Definition OnSeats (s : Store) : Store :=
  mkStore (persistent s) (Realm_ s) (devices s) (file s) (seats s) (used s) (unlicensed s) true (told s).

Definition Seats (s : Store) : Z * Z := (used s, seats s).

Definition Licensed (s : Store) (deviceID : string) : bool :=
  match devices s !! deviceID with
  | Some r => holdsSeat r && negb (bool_decide (deviceID ∈ unlicensed s))
  | None => false
  end.

Definition SeatState (s : Store) (deviceID : string) : SeatStatus :=
  match devices s !! deviceID with
  | None => SeatNone
  | Some r => if negb (holdsSeat r) then SeatNone
              else if decide (deviceID ∈ unlicensed s) then SeatUnlicensed else SeatHolder
  end.

(** ** The commit *)

(** A mutation: what the closure leaves in the variables it captures, and the
    error that aborts it or the new records. *)
Definition mut (A : Type) : Type := Store -> A * (enroll_error + records).

Record backup := mkBackup { b_devices : records; b_unlicensed : gset string; b_used : Z; b_licensed : gset string }.

Definition commit_begin {A} (mutate : mut A) (s : Store) : Store * A * (enroll_error + backup) :=
  match mutate s with
  | (a, inl e) => (s, a, inl e)
  | (a, inr m) =>
      (recomputeSeatsLocked (mkStore (persistent s) (Realm_ s) m (file s) (seats s) (used s) (unlicensed s)
                               (hooked s) (told s)),
       a, inr (mkBackup (devices s) (unlicensed s) (used s) (licensedSetLocked s)))
  end.

(** [ok]: the file was written, or there is none. *)
Definition commit_end (ok : bool) (b : backup) (s : Store) : Store * option SeatChange * option enroll_error :=
  if ok then
    let s := mkStore (persistent s) (Realm_ s) (devices s) (if persistent s then Some (devices s) else file s) (seats s)
               (used s) (unlicensed s) (hooked s) (told s) in
    (s, seatDiffLocked (b_licensed b) s, None)
  else
    (mkStore (persistent s) (Realm_ s) (b_devices b) (file s) (seats s) (b_used b) (b_unlicensed b) (hooked s) (told s),
     None, Some ErrSave).

Definition commit {A} (mutate : mut A) (ok : bool) (s : Store) : Store * A * option enroll_error :=
  match commit_begin mutate s with
  | (s, a, inl e) => (s, a, Some e)
  | (s, a, inr b) =>
      let '(s, change, e) := commit_end (ok || negb (persistent s)) b s in
      (match e with None => fireSeats change s | Some _ => s end, a, e)
  end.

(** [errors.Is(err, errNoChange)] makes the error nil. *)
Definition no_change (e : option enroll_error) : option enroll_error :=
  if decide (e = Some errNoChange) then None else e.

Definition userTakenLocked (user deviceID : string) (m : records) : bool :=
  negb (bool_decide (filter (fun kr => fst kr <> deviceID /\ User (snd kr) = user) m = ∅)).

(** ** Codes *)

Definition upper_ascii (c : Ascii.ascii) : Ascii.ascii :=
  if decide (97 <= ascii_code c <= 122)%N then Ascii.ascii_of_N (ascii_code c - 32) else c.

Fixpoint normalize (code : text) : text :=
  match code with
  | [] => []
  | c :: code' =>
      let c := upper_ascii c in
      if decide (c = " "%char \/ c = "-"%char) then normalize code'
      else if decide (c = "I"%char \/ c = "L"%char) then "1"%char :: normalize code'
      else if decide (c = "O"%char) then "0"%char :: normalize code'
      else if decide (ascii_code c < 128)%N then c :: normalize code'
      else normalize code'
  end.

Definition NormalizeCode (code : string) : string := to_string (normalize (T code)).

(** [randomCode] of the bytes drawn. *)
Definition randomCode (b : list Z) : string :=
  to_string (map (fun x => default " "%char (T codeAlphabet !! Z.to_nat (x mod 32))) b).

(** ** The operations *)

Section operations.
Context (sha256hex : string -> string) (md5hex : text -> text).

Definition hashToken (tok : string) : string := sha256hex tok.

(** The token and its H(A1) in the record of [deviceID]. *)
Definition credential_ha1 (s : Store) (deviceID tok : string) : string :=
  if decide (Realm_ s = "") then "" else to_string (HA1 md5hex (T deviceID) (T (Realm_ s)) (T tok)).

Definition issue_mut (deviceID user tok : string) (now : Z) : mut unit := fun s =>
  let found := devices s !! deviceID in
  let wasHolder := match found with Some r => holdsSeat r | None => false end in
  match (match found with
         | Some r => if decide (User r <> user) then inl ErrImmutable else inr r
         | None => if userTakenLocked user deviceID (devices s) then inl ErrUserTaken
                   else inr (new_record user "" now 0)
         end) with
  | inl e => (tt, inl e)
  | inr r =>
      if negb wasHolder && negb (Revoked r) && negb (freeSeatLocked s) then (tt, inl ErrNoSeats) else
      let r := if negb wasHolder && negb (Revoked r) then set_seat_since now r else r in
      let r := set_credential (hashToken tok) (credential_ha1 s deviceID tok) now r in
      (tt, inr (<[deviceID := r]> (devices s)))
  end.

(** [random]: the token drawn, when the random source gives one. *)
Definition IssueToken (deviceID user token : string) (random : option string) (now : Z) (ok : bool) (s : Store)
    : Store * (enroll_error + string) :=
  if decide (deviceID = "" \/ user = "") then (s, inl ErrInvalid) else
  match (if decide (token = "") then (match random with Some t => inr t | None => inl ErrRandom end)
         else if decide (String.length token < 16)%nat then inl ErrInvalid else inr token) with
  | inl e => (s, inl e)
  | inr tok =>
      match commit (issue_mut deviceID user tok now) ok s with
      | (s, _, Some e) => (s, inl e)
      | (s, _, None) => (s, inr tok)
      end
  end.

Definition Issue (deviceID user : string) := IssueToken deviceID user "".

(** The loop that draws an id: the first that is free. [None]: it goes on. *)
Fixpoint draw_id (draws : list string) (m : records) : option string :=
  match draws with
  | [] => None
  | d :: draws' => match m !! d with None => Some d | Some _ => draw_id draws' m end
  end.

Definition create_mut (deviceID user description : string) (now : Z) : mut unit := fun s =>
  if bool_decide (is_Some (devices s !! deviceID)) then (tt, inl ErrExists) else
  if userTakenLocked user deviceID (devices s) then (tt, inl ErrUserTaken) else
  (tt, inr (<[deviceID := new_record user description now now]> (devices s))).

(** [draws]: the ids the loop draws, each with its prefix. *)
Definition Create (deviceID user description : string) (draws : list string) (now : Z) (ok : bool) (s : Store)
    : option (Store * (enroll_error + string)) :=
  if decide (user = "") then Some (s, inl ErrInvalid) else
  id ← (if decide (deviceID = "") then draw_id draws (devices s) else Some deviceID);
  match commit (create_mut id user description now) ok s with
  | (s, _, Some e) => Some (s, inl e)
  | (s, _, None) => Some (s, inr id)
  end.

(** The shape of the writes to one record: the captured [found], and what to
    do to the record. *)
Definition update_mut (deviceID : string) (f : record -> enroll_error + record) : mut bool := fun s =>
  match devices s !! deviceID with
  | None => (false, inr (devices s))
  | Some r => match f r with
              | inl e => (true, inl e)
              | inr r' => (true, inr (<[deviceID := r']> (devices s)))
              end
  end.

Definition SetDescription (deviceID description : string) (pre : list Match) (now : Z) (ok : bool) (s : Store)
    : Store * bool * option enroll_error :=
  let '(s, found, e) := commit (update_mut deviceID (fun r =>
    if negb (checkAll pre r) then inl ErrVersionMismatch else
    if decide (Description r = description) then inl errNoChange else
    inr (set_updated now (set_description description r)))) ok s in
  (s, found, no_change e).

Definition mint_mut (deviceID code : string) (now : Z) : mut unit := fun s =>
  match devices s !! deviceID with
  | None => (tt, inl ErrInvalid)
  | Some r => (tt, inr (<[deviceID := set_updated now (set_code (hashToken code) (now + CodeTTL) r)]> (devices s)))
  end.

(** [drawn]: eight random bytes. *)
Definition MintCode (deviceID : string) (drawn : list Z) (now : Z) (ok : bool) (s : Store)
    : Store * (enroll_error + string * Z) :=
  let code := randomCode drawn in
  match commit (mint_mut deviceID code now) ok s with
  | (s, _, Some e) => (s, inl e)
  | (s, _, None) => (s, inr (code, now + CodeTTL))
  end.

Definition CancelCode (deviceID : string) (now : Z) (ok : bool) (s : Store) : Store * bool * option enroll_error :=
  let '(s, found, e) := commit (update_mut deviceID (fun r =>
    if decide (CodeHash r = "") then inl errNoChange else inr (set_updated now (set_code "" 0 r)))) ok s in
  (s, found, no_change e).

Record Claimed_ := mkClaimed { cl_DeviceID : string; cl_User : string; cl_Token : string }.

(** The loop over the records, in the order [order]: the last match stays. *)
Fixpoint claim_find (order : list string) (m : records) (want : string) (now : Z) (hit : option (string * record))
    : option (string * record) :=
  match order with
  | [] => hit
  | d :: order' =>
      match m !! d with
      | None => claim_find order' m want now hit
      | Some r =>
          if decide (CodeHash r = "") then claim_find order' m want now hit
          else if bool_decide (CodeHash r = want) && before now (CodeExpires r)
          then claim_find order' m want now (Some (d, r))
          else claim_find order' m want now hit
      end
  end.

Definition claim_mut (order : list string) (want : string) (random : option string) (now : Z) : mut Claimed_ := fun s =>
  let none := mkClaimed "" "" "" in
  match claim_find order (devices s) want now None with
  | None => (none, inl ErrBadCode)
  | Some (id, r) =>
      if negb (holdsSeat r) && negb (freeSeatLocked s) then (none, inl ErrNoSeats) else
      let r := if negb (holdsSeat r) then set_seat_since now r else r in
      match random with
      | None => (none, inl ErrRandom)
      | Some tok =>
          let r := set_credential (hashToken tok) (credential_ha1 s id tok) now r in
          let r := set_code "" 0 (set_revoked false r) in
          (mkClaimed id (User r) tok, inr (<[id := r]> (devices s)))
      end
  end.

Definition Claim (order : list string) (code : string) (random : option string) (now : Z) (ok : bool) (s : Store)
    : Store * (enroll_error + Claimed_) :=
  match commit (claim_mut order (hashToken (NormalizeCode code)) random now) ok s with
  | (s, _, Some e) => (s, inl e)
  | (s, out, None) => (s, inr out)
  end.

Definition DeviceConfig : Type := Z * list string.

Definition Config (s : Store) (deviceID : string) : option DeviceConfig :=
  r ← devices s !! deviceID; if decide (ConfigVersion r = 0) then None else Some (ConfigVersion r, SSIDs r).

(** Trimmed, without the empty ones and the repeats. *)
Fixpoint clean_ssids (ssids : list string) (seen : gset string) : list string :=
  match ssids with
  | [] => []
  | ss :: ssids' =>
      let ss := to_string (TrimSpace (T ss)) in
      if decide (ss = "" \/ ss ∈ seen) then clean_ssids ssids' seen
      else ss :: clean_ssids ssids' ({[ ss ]} ∪ seen)
  end.

Definition config_mut (deviceID : string) (clean : list string) (pre : list Match) (now : Z)
    : mut (DeviceConfig * bool) := fun s =>
  match devices s !! deviceID with
  | None => ((0, [], false), inl ErrInvalid)
  | Some r =>
      if negb (checkAll pre r) then ((0, [], false), inl ErrVersionMismatch) else
      if decide (0 < ConfigVersion r /\ SSIDs r = clean) then ((ConfigVersion r, clean, false), inl errNoChange) else
      let r' := set_updated now (set_config clean (ConfigVersion r + 1) r) in
      ((ConfigVersion r', clean, true), inr (<[deviceID := r']> (devices s)))
  end.

Definition SetConfig (deviceID : string) (ssids : list string) (pre : list Match) (now : Z) (ok : bool) (s : Store)
    : Store * (enroll_error + DeviceConfig * bool) :=
  let clean := clean_ssids ssids ∅ in
  let '(s, a, e) := commit (config_mut deviceID clean pre now) ok s in
  match no_change e with
  | Some e => (s, inl e)
  | None => (s, inr a)
  end.

Definition Authenticate (s : Store) (deviceID token : string) : bool :=
  match devices s !! deviceID with
  | None => false
  | Some r => negb (Revoked r) && bool_decide (TokenHash r <> "") && bool_decide (TokenHash r = hashToken token)
  end.

Definition Revoke (deviceID : string) (now : Z) (ok : bool) (s : Store) : Store * bool * option enroll_error :=
  let '(s, found, e) := commit (update_mut deviceID (fun r =>
    if Revoked r then inl errNoChange else inr (set_updated now (set_seat_since 0 (set_revoked true r))))) ok s in
  (s, found, no_change e).

Definition purge_mut (deviceID : string) : mut bool := fun s =>
  match devices s !! deviceID with
  | None => (false, inr (devices s))
  | Some _ => (true, inr (delete deviceID (devices s)))
  end.

Definition Purge (deviceID : string) (ok : bool) (s : Store) : Store * bool * option enroll_error :=
  commit (purge_mut deviceID) ok s.

(** *** Reads *)

Definition Exists (s : Store) (deviceID : string) : bool := bool_decide (is_Some (devices s !! deviceID)).

Definition UpdatedAt (s : Store) (deviceID : string) : Z :=
  match devices s !! deviceID with Some r => UpdatedAt_ r | None => 0 end.

Definition UserFor (s : Store) (deviceID : string) : option string :=
  r ← devices s !! deviceID; if Revoked r : bool then None else Some (User r).

Definition DigestSecret (s : Store) (deviceID : string) : option (string * string) :=
  r ← devices s !! deviceID;
  if decide (Revoked r = true \/ rHA1 r = "" \/ deviceID ∈ unlicensed s) then None else Some (rHA1 r, User r).

Record PBXLine := mkPBXLine { v_DN : string; v_DigestUser : string; v_Configured : bool; v_UpdatedAt : Z }.

Definition view (l : lineRecord) : PBXLine := mkPBXLine (DN l) (DigestUser l) true (l_UpdatedAt l).

Record Device := mkDevice {
  d_DeviceID : string; d_User : string; d_Description : string; d_IssuedAt : Z; d_UpdatedAt : Z; d_Revoked : bool;
  d_Enrolled : bool; d_Licensed : bool; d_SeatSince : Z; d_CodePending : bool; d_CodeExpiresAt : Z;
  d_Config : option DeviceConfig; d_PBXLine : option PBXLine;
}.

Definition viewLocked (s : Store) (now : Z) (id : string) (r : record) : Device :=
  let pending := bool_decide (CodeHash r <> "") && before now (CodeExpires r) in
  mkDevice id (User r) (Description r) (IssuedAt r) (UpdatedAt_ r) (Revoked r) (bool_decide (TokenHash r <> ""))
    (holdsSeat r && negb (bool_decide (id ∈ unlicensed s))) (SeatSince r) pending (if pending then CodeExpires r else 0)
    (if decide (0 < ConfigVersion r) then Some (ConfigVersion r, SSIDs r) else None) (view <$> PBXLine_ r).

Definition Device_ (s : Store) (now : Z) (deviceID : string) : option Device :=
  viewLocked s now deviceID <$> devices s !! deviceID.

Definition device_le (a b : Device) : Prop := String.le (d_DeviceID a) (d_DeviceID b).

#[export] Instance device_le_dec a b : Decision (device_le a b).
Proof. unfold device_le. apply _. Defined.

Definition Devices (s : Store) (now : Z) : list Device :=
  merge_sort device_le (map (fun kr => viewLocked s now (fst kr) (snd kr)) (map_to_list (devices s))).

(** *** PBX lines (line.go) *)

(** The box: [None] is a store with no key; sealing and opening may fail. *)
Record Box := mkBox { Seal : string -> string -> option string; Open_ : string -> string -> option string }.
Context (Secrets : option Box).

Definition line_mut (deviceID : string) (l : lineRecord) (pre : list Match) (now : Z) : mut (option PBXLine) := fun s =>
  match devices s !! deviceID with
  | None => (None, inl ErrInvalid)
  | Some r =>
      if negb (checkAll pre r) then (None, inl ErrVersionMismatch) else
      (Some (view l), inr (<[deviceID := set_updated now (set_line (Some l) r)]> (devices s)))
  end.

Definition trim (s : string) : string := to_string (TrimSpace (T s)).

Definition SetPBXLine (deviceID dn digestUser secret : string) (pre : list Match) (now : Z) (ok : bool) (s : Store)
    : Store * (enroll_error + option PBXLine) :=
  let dn := trim dn in
  let digestUser := trim digestUser in
  if decide (digestUser = "" \/ secret = "") then (s, inl ErrInvalid) else
  match Secrets with
  | None => (s, inl ErrNoSecretKey)
  | Some box =>
      match Seal box deviceID secret with
      | None => (s, inl ErrSeal)
      | Some sealed =>
          match commit (line_mut deviceID (mkLine dn digestUser sealed now) pre now) ok s with
          | (s, _, Some e) => (s, inl e)
          | (s, v, None) => (s, inr v)
          end
      end
  end.

Definition PBXLine' (s : Store) (deviceID : string) : option PBXLine :=
  r ← devices s !! deviceID; view <$> PBXLine_ r.

Definition DeletePBXLine (deviceID : string) (pre : list Match) (now : Z) (ok : bool) (s : Store)
    : Store * bool * option enroll_error :=
  let '(s, found, e) := commit (update_mut deviceID (fun r =>
    if negb (checkAll pre r) then inl ErrVersionMismatch else
    match PBXLine_ r with
    | None => inl errNoChange
    | Some _ => inr (set_updated now (set_line None r))
    end)) ok s in
  (s, found, no_change e).

Record PBXCredential := mkPBXCredential {
  p_DeviceID : string; p_User : string; p_DN : string; p_DigestUser : string; p_Secret : string }.

Definition credential (deviceID user : string) (l : lineRecord) : enroll_error + PBXCredential :=
  match Secrets with
  | None => inl ErrNoSecretKey
  | Some box =>
      match Open_ box deviceID (SecretEnc l) with
      | None => inl ErrSeal
      | Some secret =>
          inr (mkPBXCredential deviceID user (if decide (DN l = "") then user else DN l) (DigestUser l) secret)
      end
  end.

(** [None]: no such line. *)
Definition PBXCredential' (s : Store) (deviceID : string) : option (enroll_error + PBXCredential) :=
  r ← devices s !! deviceID; l ← PBXLine_ r; Some (credential deviceID (User r) l).

Definition credential_le (a b : PBXCredential) : Prop := String.le (p_DeviceID a) (p_DeviceID b).

#[export] Instance credential_le_dec a b : Decision (credential_le a b).
Proof. unfold credential_le. apply _. Defined.

(** The lines to register, and the devices whose secret did not open. *)
Definition PBXCredentials (s : Store) : list PBXCredential * list string :=
  let wanted := omap (fun kr => let '(id, r) := kr in
      if decide (Revoked r = true \/ id ∈ unlicensed s) then None
      else l ← PBXLine_ r; Some (id, credential id (User r) l)) (map_to_list (devices s)) in
  (merge_sort credential_le (omap (fun x => match snd x with inr c => Some c | inl _ => None end) wanted),
   omap (fun x => match snd x with inr _ => None | inl _ => Some (fst x) end) wanted).

End operations.

(** ** Loading *)

(** What the JSON decoder makes of the file: the object with a schema, or the
    bare map of the old shape, or neither. A null entry is a nil record. *)
Inductive decoded :=
  | Schemed (schema : Z) (m : gmap string (option record))
  | Bare (m : gmap string (option record))
  | Undecodable.

Definition schemaVersion : Z := 1.

Definition fold_record (r : record) : record :=
  mkRecord (User r)
    (if decide (Description r = "" /\ LegacyLabel r <> "") then LegacyLabel r else Description r) ""
    (TokenHash r) (rHA1 r) (IssuedAt r) (UpdatedAt_ r) (Revoked r) (SeatSince r) (CodeHash r) (CodeExpires r)
    (SSIDs r) (ConfigVersion r) (PBXLine_ r).

Definition fold_records (m : gmap string (option record)) : gmap string (option record) := option_map fold_record <$> m.

Definition parseFile (d : decoded) : option (gmap string (option record)) :=
  match d with
  | Schemed schema m => if schemaVersion <? schema then None else Some (fold_records m)
  | Bare m => Some (fold_records m)
  | Undecodable => None
  end.

Inductive file_read := NoFile | ReadError | EmptyFile | Contents (d : decoded).

Inductive opened := OpenError | OpenPanics | Opened (s : Store).

Definition fix_seat_since (r : record) : record :=
  if holdsSeat r && is_zero (SeatSince r) then set_seat_since (IssuedAt r) r else r.

Definition emptyStore (persistent : bool) : Store := mkStore persistent "" ∅ None NoSeatLimit 0 ∅ false [].

(** The loop over the records calls a method of each, which a nil one panics on. *)
Definition Open (persistent : bool) (f : file_read) : opened :=
  if negb persistent then Opened (emptyStore false) else
  match f with
  | NoFile | EmptyFile => Opened (emptyStore true)
  | ReadError => OpenError
  | Contents d =>
      match parseFile d with
      | None => OpenError
      | Some m =>
          if decide (map_Forall (fun _ r => r <> None) m)
          then Opened (recomputeSeatsLocked (mkStore true "" (fix_seat_since <$> omap (fun r => r) m) None NoSeatLimit 0 ∅ false []))
          else OpenPanics
      end
  end.
