(* ===== verification/EnrollSeats.v ===== *)
(** The licence seats of the enrolment store: the recount is refined to a
    queue (a holder is licensed when fewer holders than seats are ahead of
    it), and the store's operations are characterised by what they do to the
    queue. The properties of Enroll about whole operations follow in
    EnrollProps. *)

From S2P Require Import Prelude Text SipAuth Enroll.
Open Scope Z_scope.

(** ** The queue *)

#[export] Instance holder_le_total : Total holder_le.
Proof.
  intros [k1 t1] [k2 t2]. unfold holder_le. simpl. destruct (total String.le k1 k2); destruct (Z.lt_total t1 t2) as [|[|]];
    naive_solver lia.
Qed.

#[export] Instance holder_le_trans : Transitive holder_le.
Proof.
  intros [k1 t1] [k2 t2] [k3 t3]. unfold holder_le. simpl.
  intros [?|[-> ?]] [?|[-> ?]]; [left; lia|by left|by left|]. right. split; [done|by etrans].
Qed.

#[export] Instance holder_le_antisymm : AntiSymm (=) holder_le.
Proof.
  intros [k1 t1] [k2 t2]. unfold holder_le. simpl. intros [?|[-> ?]] [?|[? ?]]; try lia.
  f_equal. by apply (anti_symm String.le).
Qed.

(** The holders and their places. *)
Definition holding (m : records) : gmap string Z := omap (fun r => if holdsSeat r then Some (seatSince r) else None) m.

Definition queue (h : gmap string Z) : list (string * Z) := merge_sort holder_le (map_to_list h).

(** The holders ahead of [x]. *)
Definition ahead (h : gmap string Z) (x : string * Z) : gmap string Z :=
  filter (fun y => holder_le y x /\ fst y <> fst x) h.

Lemma lookup_holding m k : holding m !! k = r ← m !! k; if holdsSeat r then Some (seatSince r) else None.
Proof. unfold holding. by rewrite lookup_omap. Qed.

Lemma sorted_equal (l1 l2 : list (string * Z)) :
  StronglySorted holder_le l1 -> StronglySorted holder_le l2 -> l1 ≡ₚ l2 -> l1 = l2.
Proof. intros. by eapply (StronglySorted_unique holder_le). Qed.

Lemma holders_queue m : holders m = queue (holding m).
Proof.
  apply sorted_equal; [apply StronglySorted_merge_sort; apply _..|].
  unfold holders, queue. rewrite !merge_sort_Permutation. apply NoDup_Permutation.
  - apply (NoDup_fmap_1 fst). change (map ?f ?l) with (f <$> l). rewrite <- list_fmap_compose.
    apply (sublist_NoDup _ (map_to_list m).*1); [apply NoDup_fst_map_to_list|].
    apply fmap_sublist, sublist_filter.
  - apply NoDup_map_to_list.
  - intros [k t]. change (map ?f ?l) with (f <$> l). rewrite list_elem_of_fmap, elem_of_map_to_list, lookup_holding. split.
    + intros ([k' r]&[= -> ->]&[Hr E%elem_of_map_to_list]%list_elem_of_filter). simpl in *. by rewrite E; simpl; rewrite Hr.
    + destruct (m !! k) as [r|] eqn:E; [|done]. simpl. destruct (holdsSeat r) eqn:Hr; [|done]. intros [= <-].
      exists (k, r). split; [done|]. apply list_elem_of_filter. split; [done|]. by apply elem_of_map_to_list.
Qed.

Lemma length_queue h : length (queue h) = size h.
Proof. unfold queue. by rewrite merge_sort_Permutation, length_map_to_list. Qed.

Lemma elem_of_queue h k t : (k, t) ∈ queue h <-> h !! k = Some t.
Proof. unfold queue. by rewrite merge_sort_Permutation, elem_of_map_to_list. Qed.

Lemma NoDup_queue h : NoDup (queue h).*1.
Proof. unfold queue. rewrite merge_sort_Permutation. apply NoDup_fst_map_to_list. Qed.

Lemma filter_all {A} (P : A -> Prop) `{!forall x, Decision (P x)} l : Forall P l -> filter P l = l.
Proof. induction 1; [done|]. rewrite filter_cons_True by done. by f_equal. Qed.

Lemma filter_none {A} (P : A -> Prop) `{!forall x, Decision (P x)} l : Forall (fun x => ~ P x) l -> filter P l = [].
Proof. induction 1; [done|]. by rewrite filter_cons_False. Qed.

(** In a sorted list, the entries before position [i] are the ones ahead. *)
Lemma filter_sorted (l1 l2 : list (string * Z)) x : StronglySorted holder_le (l1 ++ x :: l2) -> NoDup (l1 ++ x :: l2).*1 ->
  filter (fun y => holder_le y x /\ fst y <> fst x) (l1 ++ x :: l2) = l1.
Proof.
  intros Hs Hnd. rewrite fmap_app in Hnd. simpl in Hnd. apply NoDup_app in Hnd as (_&Hd&[Hx _]%NoDup_cons).
  rewrite filter_app, filter_cons_False by naive_solver. rewrite (filter_none _ l2), (filter_all _ l1); [by rewrite app_nil_r|..].
  - apply Forall_forall. intros y Hy. split; [apply (StronglySorted_app_1_elem_of holder_le l1 (x :: l2)); [done|done|by left]|].
    intros E. apply (Hd (fst y)); [by apply list_elem_of_fmap_2|]. rewrite E. by left.
  - apply StronglySorted_app_1_r in Hs. apply StronglySorted_inv in Hs as [_ Hs].
    rewrite Forall_forall in Hs |- *. intros y Hy [Hle Hne]. apply Hne. f_equal.
    apply (anti_symm holder_le); [done|by apply Hs].
Qed.

(** The position in the queue is the number of holders ahead. *)
Lemma queue_position h k t i : queue h !! i = Some (k, t) -> i = size (ahead h (k, t)).
Proof.
  intros E. apply list_elem_of_split_length in E as (l1&l2&E&->).
  rewrite <- length_map_to_list. unfold ahead. rewrite map_to_list_filter.
  transitivity (length (filter (fun y => holder_le y (k, t) /\ fst y <> fst (k, t)) (queue h))).
  - rewrite E, filter_sorted; [done| |]; rewrite <- E; [apply StronglySorted_merge_sort; apply _|apply NoDup_queue].
  - unfold queue. by rewrite merge_sort_Permutation.
Qed.

(** The holders past the first [n]. *)
Lemma elem_of_beyond h n k : k ∈ map fst (drop n (queue h)) <-> exists t, h !! k = Some t /\ (n <= size (ahead h (k, t)))%nat.
Proof.
  change (map fst ?l) with (l.*1). rewrite list_elem_of_fmap. split.
  - intros ([k' t]&->&[i Hi]%list_elem_of_lookup). rewrite lookup_drop in Hi. exists t.
    split; [by apply list_elem_of_lookup_2, elem_of_queue in Hi|].
    cbn [fst]. rewrite <- (queue_position _ _ _ _ Hi). lia.
  - intros (t&E&Hn). exists (k, t). split; [done|]. apply elem_of_queue in E. apply list_elem_of_lookup in E as [i Hi].
    pose proof (queue_position _ _ _ _ Hi) as Hp. apply list_elem_of_lookup. exists (i - n)%nat.
    rewrite lookup_drop. by replace (n + (i - n))%nat with i by lia.
Qed.

(** ** The store's seats *)

(** The counts are those of the records, and the seat count is one a store can
    have. *)
Definition seats_ok (s : Store) : Prop :=
  recomputeSeatsLocked s = s /\ (seats s = NoSeatLimit \/ 0 <= seats s).

Lemma recompute_idem s : recomputeSeatsLocked (recomputeSeatsLocked s) = recomputeSeatsLocked s.
Proof. done. Qed.

Lemma used_size s : seats_ok s -> used s = Z.of_nat (size (holding (devices s))).
Proof.
  intros [E _]. rewrite <- E. unfold recomputeSeatsLocked. cbn [used devices]. unfold zlen.
  by rewrite holders_queue, length_queue.
Qed.

Lemma elem_of_unlicensed s k : seats_ok s -> k ∈ unlicensed s <->
  seats s <> NoSeatLimit /\ exists t, holding (devices s) !! k = Some t /\ seats s <= Z.of_nat (size (ahead (holding (devices s)) (k, t))).
Proof.
  intros [E Hn]. rewrite <- E at 1. unfold recomputeSeatsLocked. cbn [unlicensed].
  destruct (Z.eqb_spec (seats s) NoSeatLimit) as [|Hs]; [set_solver|].
  rewrite elem_of_list_to_set, holders_queue, elem_of_beyond. split.
  - intros (t&H&Hp). split; [done|]. exists t. split; [done|lia].
  - intros (_&t&H&Hp). exists t. split; [done|lia].
Qed.

(** Within the count, by the queue. *)
Definition in_seats (s : Store) (k : string) (t : Z) : Prop :=
  seats s = NoSeatLimit \/ Z.of_nat (size (ahead (holding (devices s)) (k, t))) < seats s.

Lemma Licensed_iff s k : seats_ok s ->
  Licensed s k = true <-> exists t, holding (devices s) !! k = Some t /\ in_seats s k t.
Proof.
  intros Hs. unfold Licensed, in_seats. pose proof (elem_of_unlicensed s k Hs) as Hu. rewrite lookup_holding in *.
  destruct (devices s !! k) as [r|]; simpl in *; [|split; [done|by intros (?&?&_)]].
  destruct (holdsSeat r); simpl; [|split; [done|by intros (?&?&_)]].
  rewrite negb_true_iff, bool_decide_eq_false, Hu. destruct (decide (seats s = NoSeatLimit)) as [Hn|Hn].
  - split; [intros _; eauto|]. intros _ [? _]. done.
  - split.
    + intros H. exists (seatSince r). split; [done|]. right. apply Z.nle_gt. intros Hle. apply H. eauto.
    + intros (t&[= <-]&[?|Hlt]) [_ (t'&[= <-]&Hle)]; [done|lia].
Qed.

Lemma elem_of_licensedSet s k : k ∈ licensedSetLocked s <-> Licensed s k = true.
Proof.
  unfold licensedSetLocked, Licensed. rewrite elem_of_dom. split.
  - intros [r [E [Hr Hu]]%map_lookup_filter_Some]. simpl in *. rewrite E, Hr. by rewrite bool_decide_eq_false_2.
  - destruct (devices s !! k) as [r|] eqn:E; [|done]. intros [Hr Hu%negb_true_iff%bool_decide_eq_false]%andb_true_iff.
    exists r. by apply map_lookup_filter_Some.
Qed.

Lemma freeSeat_iff s : freeSeatLocked s = true <-> seats s = NoSeatLimit \/ used s < seats s.
Proof. unfold freeSeatLocked. rewrite orb_true_iff, Z.eqb_eq, Z.ltb_lt. done. Qed.

(** ** What a commit does *)

(** The store once [m] is in memory and in the file, before the callback. *)
Definition written (s : Store) (m : records) : Store :=
  recomputeSeatsLocked (mkStore (persistent s) (Realm_ s) m (if persistent s then Some m else file s) (seats s) (used s)
                          (unlicensed s) (hooked s) (told s)).

Definition after (s : Store) (m : records) : Store :=
  fireSeats (seatDiffLocked (licensedSetLocked s) (written s m)) (written s m).

Lemma commit_cases {A} (mutate : mut A) ok s :
  let '(s', a, e) := commit mutate ok s in
  a = fst (mutate s) /\
  match snd (mutate s) with
  | inl er => s' = s /\ e = Some er
  | inr m => if ok || negb (persistent s) then s' = after s m /\ e = None else s' = s /\ e = Some ErrSave
  end.
Proof.
  unfold commit, commit_begin, commit_end. destruct (mutate s) as [a [er|m]]; [done|]. cbn [fst snd].
  cbn [persistent recomputeSeatsLocked]. destruct (ok || negb (persistent s)); [done|].
  split; [done|]. split; [by destruct s|done].
Qed.

(** What a mutation may do to the records: nothing, a new device with a free
    user, an update of one device that keeps its user, or the removal of one.
    A seat is entered only when one is free and left only by [leaver]. *)
Inductive change (leaver : option string) (s : Store) : records -> Prop :=
  | change_none : change leaver s (devices s)
  | change_new d r : devices s !! d = None -> userTakenLocked (User r) d (devices s) = false ->
      (holdsSeat r = true -> freeSeatLocked s = true /\ SeatSince r <> 0) -> change leaver s (<[d := r]> (devices s))
  | change_update d r r' : devices s !! d = Some r -> User r' = User r ->
      (holdsSeat r' = true -> if holdsSeat r then SeatSince r' = SeatSince r
                              else freeSeatLocked s = true /\ SeatSince r' <> 0) ->
      (holdsSeat r = true -> holdsSeat r' = false -> leaver = Some d) -> change leaver s (<[d := r']> (devices s))
  | change_delete d : leaver = Some d -> change leaver s (delete d (devices s)).

(** A record update that leaves the seat alone. *)
Lemma change_keep leaver s d r r' : devices s !! d = Some r -> User r' = User r -> TokenHash r' = TokenHash r ->
  Revoked r' = Revoked r -> SeatSince r' = SeatSince r -> change leaver s (<[d := r']> (devices s)).
Proof.
  intros E Hu Ht Hr Hs. assert (holdsSeat r' = holdsSeat r) as Hh by (unfold holdsSeat; by rewrite Ht, Hr).
  eapply change_update; [done..| |]; rewrite Hh; [by intros ->|congruence].
Qed.

Lemma update_mut_change leaver d (f : record -> enroll_error + record) s m :
  (forall r r', devices s !! d = Some r -> f r = inr r' -> User r' = User r /\ TokenHash r' = TokenHash r
     /\ Revoked r' = Revoked r /\ SeatSince r' = SeatSince r) ->
  snd (update_mut d f s) = inr m -> change leaver s m.
Proof.
  intros Hf. unfold update_mut. destruct (devices s !! d) as [r|] eqn:E; [|intros [= <-]; constructor].
  destruct (f r) as [|r'] eqn:Ef; [done|]. intros [= <-]. destruct (Hf r r' eq_refl Ef) as (?&?&?&?).
  by eapply change_keep.
Qed.

Section operations.
Context (sha256hex : string -> string) (md5hex : text -> text) (Secrets : option Box).

(** A SHA-256 in hex is not empty. *)
Context (sha256hex_nonempty : forall t, sha256hex t <> "").

Lemma holdsSeat_credential tok ha1 now r :
  holdsSeat (set_credential (hashToken sha256hex tok) ha1 now r) = negb (Revoked r).
Proof. unfold holdsSeat. cbn [TokenHash Revoked set_credential]. by rewrite bool_decide_eq_true_2 by apply sha256hex_nonempty. Qed.

Lemma issue_change leaver d user tok now s m : now <> 0 ->
  snd (issue_mut sha256hex md5hex d user tok now s) = inr m -> change leaver s m.
Proof.
  intros Hnow. unfold issue_mut. destruct (devices s !! d) as [r|] eqn:E.
  - destruct (decide (User r <> user)); [done|].
    destruct (negb (holdsSeat r) && negb (Revoked r)) eqn:Eh; simpl.
    + apply andb_true_iff in Eh as [Hh%negb_true_iff Hr]. destruct (freeSeatLocked s) eqn:Ef; [|done].
      intros [= <-]. eapply change_update; [done|done| |congruence]. intros _. by rewrite Hh.
    + intros [= <-]. eapply change_update; [done|done| |].
      * rewrite holdsSeat_credential. intros Hr. rewrite Hr, andb_true_r in Eh. by apply negb_false_iff in Eh as ->.
      * rewrite holdsSeat_credential. intros [_ ->]%andb_true_iff. done.
  - destruct (userTakenLocked user d (devices s)) eqn:Eu; [done|]. cbn [negb andb Revoked new_record].
    destruct (freeSeatLocked s) eqn:Ef; [|done]. intros [= <-]. by apply change_new.
Qed.

Lemma create_change leaver d user desc now s m : snd (create_mut d user desc now s) = inr m -> change leaver s m.
Proof.
  unfold create_mut. case_bool_decide as Hd; [done|]. apply eq_None_not_Some in Hd.
  destruct (userTakenLocked _ _ _) eqn:Eu; [done|]. intros [= <-]. by apply change_new.
Qed.

Lemma mint_change leaver d code now s m : snd (mint_mut sha256hex d code now s) = inr m -> change leaver s m.
Proof.
  unfold mint_mut. destruct (devices s !! d) as [r|] eqn:E; [|done]. intros [= <-]. by eapply change_keep.
Qed.

Lemma claim_find_sound order m want now hit d r : claim_find order m want now hit = Some (d, r) ->
  hit = Some (d, r) \/ (d ∈ order /\ m !! d = Some r /\ CodeHash r <> "" /\ CodeHash r = want /\ now < CodeExpires r).
Proof.
  revert hit. induction order as [|k order IH]; intros hit; [by left|]. cbn [claim_find].
  assert (forall hit', claim_find order m want now hit' = Some (d, r) -> hit' = hit ->
    hit = Some (d, r) \/ d ∈ k :: order /\ m !! d = Some r /\ CodeHash r <> "" /\ CodeHash r = want /\ now < CodeExpires r) as Hs.
  { intros hit' H <-. apply IH in H as [|[? ?]]; [by left|right; split; [by right|done]]. }
  destruct (m !! k) as [r0|] eqn:E; [|intros H; by eapply Hs]. case_decide; [intros H'; by eapply Hs|].
  destruct (bool_decide (CodeHash r0 = want) && before now (CodeExpires r0)) eqn:Eb; [|intros H'; by eapply Hs].
  intros [[= <- <-]|[? ?]]%IH; right; (split; [by (left + right)|]); [|done].
  apply andb_true_iff in Eb as [Hw%bool_decide_eq_true Hb%Z.ltb_lt]. done.
Qed.

Lemma claim_change leaver order want random now s m : now <> 0 ->
  snd (claim_mut sha256hex md5hex order want random now s) = inr m -> change leaver s m.
Proof.
  intros Hnow. unfold claim_mut. destruct (claim_find _ _ _ _ _) as [[d r]|] eqn:Ec; [|done].
  apply claim_find_sound in Ec as [|(_&E&_)]; [done|].
  destruct (negb (holdsSeat r) && negb (freeSeatLocked s)) eqn:Eh; [done|]. destruct random as [tok|]; [|done].
  intros [= <-].
  eapply change_update; [done|by destruct (negb (holdsSeat r))| |].
  - intros _. destruct (holdsSeat r); [done|]. simpl in *. by apply negb_false_iff in Eh.
  - intros _ Hz. exfalso. unfold holdsSeat in Hz. cbn [TokenHash Revoked set_code set_revoked set_credential] in Hz.
    by rewrite bool_decide_eq_true_2 in Hz by apply sha256hex_nonempty.
Qed.

Lemma config_change leaver d clean pre now s m : snd (config_mut d clean pre now s) = inr m -> change leaver s m.
Proof.
  unfold config_mut. destruct (devices s !! d) as [r|] eqn:E; [|done]. destruct (negb _); [done|].
  case_decide; [done|]. intros [= <-]. by eapply change_keep.
Qed.

Lemma line_change leaver d l pre now s m : snd (line_mut d l pre now s) = inr m -> change leaver s m.
Proof.
  unfold line_mut. destruct (devices s !! d) as [r|] eqn:E; [|done]. destruct (negb _); [done|].
  intros [= <-]. by eapply change_keep.
Qed.

Lemma revoke_change d now s m :
  snd (update_mut d (fun r => if Revoked r then inl errNoChange
                              else inr (set_updated now (set_seat_since 0 (set_revoked true r)))) s) = inr m ->
  change (Some d) s m.
Proof.
  unfold update_mut. destruct (devices s !! d) as [r|] eqn:E; [|intros [= <-]; constructor].
  destruct (Revoked r); [done|]. intros [= <-]. eapply change_update; [done|done| |done].
  unfold holdsSeat. simpl. by rewrite andb_false_r.
Qed.

Lemma purge_change d s m : snd (purge_mut d s) = inr m -> change (Some d) s m.
Proof. unfold purge_mut. destruct (devices s !! d); intros [= <-]; [by apply change_delete|constructor]. Qed.

End operations.

(** ** The invariant *)

(** Every holder has its place written down, so a new credential cannot move it. *)
Definition seated (m : records) : Prop := forall d r, m !! d = Some r -> holdsSeat r = true -> SeatSince r <> 0.

Definition users_unique (m : records) : Prop :=
  forall d1 d2 r1 r2, m !! d1 = Some r1 -> m !! d2 = Some r2 -> User r1 = User r2 -> d1 = d2.

Definition inv (s : Store) : Prop := seats_ok s /\ seated (devices s) /\ users_unique (devices s).

Lemma userTaken_false user d m : userTakenLocked user d m = false <->
  forall d' r, m !! d' = Some r -> User r = user -> d' = d.
Proof.
  unfold userTakenLocked. rewrite negb_false_iff, bool_decide_eq_true. split.
  - intros E d' r Hr Hu. apply dec_stable. intros Hne.
    assert (filter (fun kr => fst kr <> d /\ User (snd kr) = user) m !! d' = Some r) as H
      by (apply map_lookup_filter_Some; done). rewrite E in H. by apply lookup_empty_Some in H.
  - intros H. apply map_empty_filter_2. intros d' r Hr [Hne Hu]. apply Hne. by eapply H.
Qed.

Lemma seatSince_seated r : SeatSince r <> 0 -> seatSince r = SeatSince r.
Proof. intros H. unfold seatSince, is_zero. by destruct (Z.eqb_spec (SeatSince r) 0). Qed.

(** A change of the records is, for the queue, nothing, one device entering
    while a seat is free, or the leaver leaving. *)
Lemma change_holding leaver s m : seated (devices s) -> change leaver s m ->
  holding m = holding (devices s)
  \/ (exists d t, freeSeatLocked s = true /\ holding (devices s) !! d = None /\ holding m = <[d := t]> (holding (devices s)))
  \/ (exists d, leaver = Some d /\ holding m = delete d (holding (devices s))).
Proof.
  intros Hs. assert (forall d r, devices s !! d = None \/ True -> holding (<[d := r]> (devices s)) =
    (if holdsSeat r then <[d := seatSince r]> else delete d) (holding (devices s))) as Hi.
  { intros d r _. apply map_eq. intros k. rewrite lookup_holding. destruct (decide (k = d)) as [->|Hne].
    - rewrite lookup_insert_eq. simpl. destruct (holdsSeat r); [by rewrite lookup_insert_eq|by rewrite lookup_delete_eq].
    - rewrite lookup_insert_ne by done. destruct (holdsSeat r);
        [rewrite lookup_insert_ne by done|rewrite lookup_delete_ne by done]; by rewrite lookup_holding. }
  intros [|d r Hd _ Hh|d r r' Hd _ Hh Hl|d ->].
  - by left.
  - rewrite Hi by auto. destruct (holdsSeat r).
    + right. left. exists d, (seatSince r). destruct Hh as [Hf _]; [done|]. rewrite lookup_holding, Hd. done.
    + left. apply delete_id. by rewrite lookup_holding, Hd.
  - assert (holding (devices s) !! d = if holdsSeat r then Some (seatSince r) else None) as Ed
      by (rewrite lookup_holding, Hd; done).
    rewrite Hi by auto. destruct (holdsSeat r') eqn:Er', (holdsSeat r) eqn:Er.
    + left. apply insert_id. rewrite Ed. specialize (Hs d r Hd Er). rewrite !seatSince_seated; rewrite ?Hh; done.
    + right. left. exists d, (seatSince r'). by destruct Hh.
    + right. right. exists d. split; [by apply Hl|done].
    + left. by apply delete_id.
  - right. right. exists d. split; [done|]. apply map_eq. intros k. rewrite lookup_holding.
    destruct (decide (k = d)) as [->|]; [by rewrite !lookup_delete_eq|]. by rewrite !lookup_delete_ne, lookup_holding by done.
Qed.

Lemma change_seated leaver s m : seated (devices s) -> change leaver s m -> seated m.
Proof.
  intros Hs [|d r Hd _ Hh|d r r' Hd _ Hh Hl|d _]; intros k x E Hx.
  - by eapply Hs.
  - apply lookup_insert_Some in E as [[<- <-]|[_ E]]; [by apply Hh|by eapply Hs].
  - apply lookup_insert_Some in E as [[<- <-]|[_ E]]; [|by eapply Hs]. specialize (Hh Hx).
    destruct (holdsSeat r) eqn:Er; [rewrite Hh; by eapply Hs|by destruct Hh].
  - apply lookup_delete_Some in E as [_ E]. by eapply Hs.
Qed.

Lemma change_users leaver s m : users_unique (devices s) -> change leaver s m ->
  users_unique m /\ forall d r r', devices s !! d = Some r -> m !! d = Some r' -> User r' = User r.
Proof.
  intros Hu [|d r Hd Ht _|d r r' Hd Hr' _ _|d _].
  - split; [done|]. intros d r r' -> [= ->]. done.
  - rewrite userTaken_false in Ht. split.
    + intros d1 d2 r1 r2 E1 E2 E. apply lookup_insert_Some in E1 as [[<- <-]|[_ E1]], E2 as [[<- <-]|[_ E2]];
        [done|symmetry; by eapply Ht|by eapply Ht|by eapply Hu].
    + intros d0 r0 r0' E1 E2. rewrite lookup_insert_ne in E2 by congruence. congruence.
  - split.
    + intros d1 d2 r1 r2 E1 E2 E. apply lookup_insert_Some in E1 as [[<- <-]|[_ E1]], E2 as [[<- <-]|[_ E2]];
        [done|eapply Hu; [done|done|congruence]|eapply Hu; [done|done|congruence]|by eapply Hu].
    + intros d0 r0 r0' E1 E2. apply lookup_insert_Some in E2 as [[<- <-]|[_ E2]]; congruence.
  - split.
    + intros d1 d2 r1 r2 [_ E1]%lookup_delete_Some [_ E2]%lookup_delete_Some E. by eapply Hu.
    + intros d0 r0 r0' E1 [_ E2]%lookup_delete_Some. congruence.
Qed.

Lemma inv_written leaver s m : inv s -> change leaver s m -> inv (written s m).
Proof.
  intros ([_ Hn]&Hs&Hu) Hc. split; [|split].
  - split; [apply recompute_idem|done].
  - by eapply change_seated.
  - by eapply change_users.
Qed.

Lemma fireSeats_fields c s : let s' := fireSeats c s in
  (persistent s', devices s', file s', seats s', used s', unlicensed s', hooked s')
  = (persistent s, devices s, file s, seats s, used s, unlicensed s, hooked s).
Proof. unfold fireSeats. destruct c; [|done]. by destruct (hooked s) eqn:E; simpl; rewrite ?E. Qed.

Lemma seats_fireSeats c s : seats (fireSeats c s) = seats s.
Proof. unfold fireSeats. destruct c; [|done]. by destruct (hooked s). Qed.

Lemma inv_fireSeats c s : inv s -> inv (fireSeats c s).
Proof.
  intros ([E Hn]&Hs&Hu). unfold fireSeats. destruct c as [c|]; [|done]. destruct (hooked s) eqn:Hh; [|done].
  split; [|done]. split; [|done]. rewrite <- Hh.
  transitivity (let r := recomputeSeatsLocked s in
    mkStore (persistent r) (Realm_ r) (devices r) (file r) (seats r) (used r) (unlicensed r) (hooked r) (told s ++ [c]));
    [done|]. cbv zeta. by rewrite E.
Qed.

Lemma Licensed_fireSeats c s k : Licensed (fireSeats c s) k = Licensed s k.
Proof. unfold fireSeats. destruct c; [|done]. by destruct (hooked s). Qed.

(** ** A write displaces nobody *)

Lemma size_ahead_lt h k t t' : h !! k = Some t -> (size (ahead h (k, t')) < size h)%nat.
Proof.
  intros E. assert (ahead h (k, t') ⊆ delete k h) as Hsub.
  { apply map_subseteq_spec. intros j x [Hj [_ Hne]]%map_lookup_filter_Some. simpl in Hne. by rewrite lookup_delete_ne. }
  apply map_subseteq_size in Hsub. rewrite map_size_delete_Some in Hsub by (by eexists).
  assert (size h <> 0)%nat; [|lia]. intros Hz%map_size_empty_inv. by rewrite Hz, lookup_empty in E.
Qed.

Lemma size_ahead_delete h d x : (size (ahead (delete d h) x) <= size (ahead h x))%nat.
Proof. apply map_subseteq_size, map_filter_subseteq_mono, delete_subseteq. Qed.

Lemma in_seats_entered s m d t k t' : seats_ok s -> freeSeatLocked s = true -> holding (devices s) !! d = None ->
  holding m = <[d := t]> (holding (devices s)) -> holding m !! k = Some t' -> in_seats (written s m) k t'.
Proof.
  intros Hs Hf Hd Hm Hk. unfold in_seats. cbn [seats written recomputeSeatsLocked devices].
  apply freeSeat_iff in Hf as [|Hf]; [by left|right]. rewrite (used_size s Hs) in Hf.
  pose proof (size_ahead_lt _ k t' t' Hk) as Hlt. rewrite Hm, map_size_insert_None in Hlt by done.
  rewrite <- Hm in Hlt. lia.
Qed.

Lemma written_licensed leaver s m k : inv s -> change leaver s m -> Licensed s k = true -> leaver <> Some k ->
  Licensed (written s m) k = true.
Proof.
  intros Hi Hc Hk Hl. pose proof (inv_written leaver s m Hi Hc) as (Hs'&_&_). destruct Hi as (Hs&Hse&_).
  rewrite Licensed_iff in Hk |- * by done. destruct Hk as (t&Et&Hin).
  cbn [devices written recomputeSeatsLocked].
  destruct (change_holding leaver s m Hse Hc) as [E|[(d&t'&Hf&Hd&E)|(d&->&E)]].
  - exists t. rewrite E. split; [done|]. unfold in_seats. cbn [devices written recomputeSeatsLocked seats]. by rewrite E.
  - exists t. assert (holding m !! k = Some t) as Ek by (rewrite E, lookup_insert_ne; [done|congruence]).
    split; [done|]. by eapply in_seats_entered.
  - exists t. rewrite E, lookup_delete_ne by congruence. split; [done|].
    unfold in_seats in *. cbn [devices written recomputeSeatsLocked seats]. rewrite E.
    destruct Hin as [|Hin]; [by left|right]. pose proof (size_ahead_delete (holding (devices s)) d (k, t)). lia.
Qed.

(** ** The licensed set *)

Lemma elem_of_first h n k : k ∈ (take n (queue h)).*1 <-> exists t, h !! k = Some t /\ (size (ahead h (k, t)) < n)%nat.
Proof.
  rewrite list_elem_of_fmap. split.
  - intros ([k' t]&->&[i Hi]%list_elem_of_lookup). apply lookup_take_Some in Hi as [Hi Hlt]. exists t. cbn [fst].
    rewrite <- (queue_position _ _ _ _ Hi). split; [|done]. by apply list_elem_of_lookup_2, elem_of_queue in Hi.
  - intros (t&E&Hn). exists (k, t). split; [done|]. apply elem_of_queue in E. apply list_elem_of_lookup in E as [i Hi].
    pose proof (queue_position _ _ _ _ Hi) as Hp. apply list_elem_of_lookup. exists i.
    apply lookup_take_Some. split; [done|lia].
Qed.

Lemma licensedSet_first s : seats_ok s -> seats s <> NoSeatLimit ->
  licensedSetLocked s = list_to_set (take (Z.to_nat (seats s)) (queue (holding (devices s)))).*1.
Proof.
  intros Hs Hn. apply set_eq. intros k. rewrite elem_of_licensedSet, Licensed_iff, elem_of_list_to_set, elem_of_first by done.
  unfold in_seats. destruct Hs as [_ [?|H0]]; [done|].
  split; intros (t&E&H); exists t; (split; [done|]); [destruct H; [done|lia]|right; lia].
Qed.

Lemma size_licensedSet s : seats_ok s -> seats s <> NoSeatLimit ->
  Z.of_nat (size (licensedSetLocked s)) = Z.min (used s) (seats s).
Proof.
  intros Hs Hn. rewrite licensedSet_first by done. rewrite size_list_to_set.
  2: { rewrite fmap_take. apply (sublist_NoDup _ (queue (holding (devices s))).*1); [apply NoDup_queue|apply sublist_take]. }
  rewrite length_fmap, length_take, length_queue, used_size by done. destruct Hs as [_ [?|]]; [done|]. lia.
Qed.

(** ** What the callback is told *)

(** A listener's use of a change. *)
Definition apply_change (l : gset string) (c : SeatChange) : gset string :=
  (l ∪ list_to_set (Gained c)) ∖ list_to_set (Lost c).

Lemma elem_of_sorted_ids x k : k ∈ sorted_ids x <-> k ∈ x.
Proof. unfold sorted_ids. rewrite merge_sort_Permutation. apply elem_of_elements. Qed.

Lemma licensedSet_fireSeats c s : licensedSetLocked (fireSeats c s) = licensedSetLocked s.
Proof. apply set_eq. intros k. by rewrite !elem_of_licensedSet, Licensed_fireSeats. Qed.

Lemma set_same (a b : gset string) : a ∖ b = ∅ -> b ∖ a = ∅ -> b = a.
Proof.
  intros H1 H2. apply set_eq. intros k. destruct (decide (k ∈ a)), (decide (k ∈ b)); set_solver.
Qed.

Lemma set_step (a b : gset string) : (b ∪ (a ∖ b)) ∖ (b ∖ a) = a.
Proof.
  apply set_eq. intros k. rewrite elem_of_difference, elem_of_union, !elem_of_difference.
  destruct (decide (k ∈ a)), (decide (k ∈ b)); naive_solver.
Qed.

Lemma sorted_ids_set x : list_to_set (sorted_ids x) = x.
Proof. apply set_eq. intros k. by rewrite elem_of_list_to_set, elem_of_sorted_ids. Qed.

(** Firing the difference from [prev] brings a listener that holds [prev] up
    to date, and tells it nothing when there is no difference. *)
Lemma fireSeats_told prev s : hooked s = true ->
  exists cs, told (fireSeats (seatDiffLocked prev s) s) = told s ++ cs
  /\ foldl apply_change prev cs = licensedSetLocked s
  /\ (cs = [] \/ exists c, cs = [c] /\ prev <> licensedSetLocked s).
Proof.
  intros Hh. unfold seatDiffLocked. set (now := licensedSetLocked s). case_decide as Hd.
  - exists []. rewrite app_nil_r. split; [done|]. destruct Hd. split; [|by left]. by apply set_same.
  - exists [mkSeatChange (sorted_ids (now ∖ prev)) (sorted_ids (prev ∖ now)) (used s) (seats s)].
    split; [unfold fireSeats; by rewrite Hh|]. split.
    + simpl. unfold apply_change. cbn [Gained Lost]. rewrite !sorted_ids_set. apply set_step.
    + right. eexists. split; [done|]. intros E. apply Hd. rewrite E. unfold now. rewrite !difference_diag_L. done.
Qed.
