(* ===== verification/EnrollProps.v ===== *)
(** Properties of the enrolment store's operations (Enroll): each operation
    happens entirely or not at all; the seats over any history; users and
    enrolment codes; what the seat callback is told; and the one interleaving
    of [SetSeats] with a failing write that leaves the count wrong. *)

From S2P Require Import Prelude Text SipAuth Enroll EnrollSeats.
Open Scope Z_scope.

(** ** Histories *)

(** One write with its arguments, the bytes it draws and its clock. *)
Inductive op :=
  | OIssueToken (d user token : string) (random : option string) (now : Z)
  | OCreate (d user description : string) (draws : list string) (now : Z)
  | OSetDescription (d description : string) (pre : list Match) (now : Z)
  | OMintCode (d : string) (drawn : list Z) (now : Z)
  | OCancelCode (d : string) (now : Z)
  | OClaim (order : list string) (code : string) (random : option string) (now : Z)
  | OSetConfig (d : string) (ssids : list string) (pre : list Match) (now : Z)
  | ORevoke (d : string) (now : Z)
  | OPurge (d : string)
  | OSetPBXLine (d dn digestUser secret : string) (pre : list Match) (now : Z)
  | ODeletePBXLine (d : string) (pre : list Match) (now : Z).

Definition op_now (o : op) : Z :=
  match o with
  | OIssueToken _ _ _ _ now | OCreate _ _ _ _ now | OSetDescription _ _ _ now | OMintCode _ _ now | OCancelCode _ now
  | OClaim _ _ _ now | OSetConfig _ _ _ now | ORevoke _ now | OSetPBXLine _ _ _ _ _ now | ODeletePBXLine _ _ now => now
  | OPurge _ => 1
  end.

(** The device an operation may take out of its seat. *)
Definition op_leaver (o : op) : option string :=
  match o with ORevoke d _ | OPurge d => Some d | _ => None end.

Definition is_right {A B} (r : A + B) : bool := match r with inl _ => false | inr _ => true end.
Definition is_nil (e : option enroll_error) : bool := match e with None => true | Some _ => false end.

Section histories.
Context (sha256hex : string -> string) (md5hex : text -> text) (Secrets : option Box).

(** The store after the operation, and whether it answered no error. *)
Definition run (o : op) (ok : bool) (s : Store) : Store * bool :=
  match o with
  | OIssueToken d user token random now =>
      let '(s', r) := IssueToken sha256hex md5hex d user token random now ok s in (s', is_right r)
  | OCreate d user description draws now =>
      match Create d user description draws now ok s with
      | Some (s', r) => (s', is_right r)
      | None => (s, false)          (* still drawing *)
      end
  | OSetDescription d description pre now => let '(s', _, e) := SetDescription d description pre now ok s in (s', is_nil e)
  | OMintCode d drawn now => let '(s', r) := MintCode sha256hex d drawn now ok s in (s', is_right r)
  | OCancelCode d now => let '(s', _, e) := CancelCode d now ok s in (s', is_nil e)
  | OClaim order code random now =>
      let '(s', r) := Claim sha256hex md5hex order code random now ok s in (s', is_right r)
  | OSetConfig d ssids pre now => let '(s', r) := SetConfig d ssids pre now ok s in (s', is_right r)
  | ORevoke d now => let '(s', _, e) := Revoke d now ok s in (s', is_nil e)
  | OPurge d => let '(s', _, e) := Purge d ok s in (s', is_nil e)
  | OSetPBXLine d dn digestUser secret pre now =>
      let '(s', r) := SetPBXLine Secrets d dn digestUser secret pre now ok s in (s', is_right r)
  | ODeletePBXLine d pre now => let '(s', _, e) := DeletePBXLine d pre now ok s in (s', is_nil e)
  end.

(** [s'] is [s] or [s] with a change of its records, written. *)
Definition outcome (o : op) (ok : bool) (s s' : Store) (done : bool) : Prop :=
  s' = s \/ done = true /\ (ok = true \/ persistent s = false) /\ exists m, change (op_leaver o) s m /\ s' = after s m.

Lemma commit_outcome {A} (mutate : mut A) o ok s (f : A -> option enroll_error -> bool) :
  (forall m, snd (mutate s) = inr m -> change (op_leaver o) s m) -> (forall a, f a None = true) ->
  let '(s', a, e) := commit mutate ok s in outcome o ok s s' (f a e).
Proof.
  intros Hm Hf. pose proof (commit_cases mutate ok s) as H. destruct (commit mutate ok s) as [[s' a] e].
  destruct H as [-> H]. destruct (snd (mutate s)) as [er|m] eqn:E; [left; by destruct H as [-> _]|].
  destruct (ok || negb (persistent s)) eqn:Eok; destruct H as [-> ->]; [|by left].
  right. split; [by apply Hf|]. split; [apply orb_true_iff in Eok as [|?%negb_true_iff]; [by left|by right]|].
  exists m. split; [by apply Hm|done].
Qed.

Context (sha256hex_nonempty : forall t, sha256hex t <> "").

(** Closes an operation that ends in a commit: [f] says which errors answer
    success, [tac] that the mutation is a change. *)
Ltac by_commit o f tac :=
  match goal with |- context [commit ?mutate ?ok ?s] =>
    let H := fresh in pose proof (commit_outcome mutate o ok s f) as H;
    destruct (commit mutate ok s) as [[? ?] e'] eqn:?; simpl in H;
    let Hc := fresh in
    assert (Hc : forall m, snd (mutate s) = inr m -> change (op_leaver o) s m) by (intros; tac);
    specialize (H Hc ltac:(done)); try destruct e'; first [exact H | destruct (no_change _); exact H]
  end.

Lemma op_outcome o ok s : op_now o <> 0 -> let '(s', done) := run o ok s in outcome o ok s s' done.
Proof.
  intros Hnow. destruct o; cbn [run op_now] in *.
  - unfold IssueToken. case_decide; [by left|].
    set (tok := if decide (token = "") then _ else _). destruct tok as [|tok]; [by left|].
    by_commit (OIssueToken d user token random now) (fun (_ : unit) e => is_nil e) ltac:(by eapply issue_change).
  - unfold Create. case_decide; [by left|].
    set (id := if decide (d = "") then _ else _). destruct id as [id|]; [|by left]. simpl.
    by_commit (OCreate d user description draws now) (fun (_ : unit) e => is_nil e) ltac:(by eapply create_change).
  - unfold SetDescription. by_commit (OSetDescription d description pre now) (fun (_ : bool) e => is_nil (no_change e))
      ltac:(eapply update_mut_change; [|done]; intros r r' _; cbn beta; destruct (negb _); [done|]; case_decide; [done|]; by intros [= <-]).
  - unfold MintCode. by_commit (OMintCode d drawn now) (fun (_ : unit) e => is_nil e) ltac:(by eapply mint_change).
  - unfold CancelCode. by_commit (OCancelCode d now) (fun (_ : bool) e => is_nil (no_change e))
      ltac:(eapply update_mut_change; [|done]; intros r r' _; cbn beta; case_decide; [done|]; by intros [= <-]).
  - unfold Claim. by_commit (OClaim order code random now) (fun (_ : Claimed_) e => is_nil e) ltac:(by eapply claim_change).
  - unfold SetConfig.
    by_commit (OSetConfig d ssids pre now) (fun (_ : DeviceConfig * bool) e => is_nil (no_change e)) ltac:(by eapply config_change).
  - unfold Revoke. by_commit (ORevoke d now) (fun (_ : bool) e => is_nil (no_change e)) ltac:(by eapply revoke_change).
  - unfold Purge. by_commit (OPurge d) (fun (_ : bool) e => is_nil e) ltac:(by eapply purge_change).
  - unfold SetPBXLine. case_decide; [by left|]. destruct Secrets as [box|]; [|by left].
    destruct (Seal box d secret) as [sealed|]; [|by left].
    by_commit (OSetPBXLine d dn digestUser secret pre now) (fun (_ : option PBXLine) e => is_nil e) ltac:(by eapply line_change).
  - unfold DeletePBXLine. by_commit (ODeletePBXLine d pre now) (fun (_ : bool) e => is_nil (no_change e))
      ltac:(eapply update_mut_change; [|done]; intros r r' _; cbn beta; destruct (negb _); [done|]; destruct (PBXLine_ r); [|done]; by intros [= <-]).
Qed.

Inductive step := SWrite (o : op) (ok : bool) | SSeats (n : Z).

Definition exec (st : step) (s : Store) : Store :=
  match st with SWrite o ok => fst (run o ok s) | SSeats n => SetSeats n s end.

Definition exec_all (sts : list step) (s : Store) : Store := foldl (fun s st => exec st s) s sts.

(** The clock is never the zero time. *)
Definition timed (sts : list step) : Prop :=
  Forall (fun st => match st with SWrite o _ => op_now o <> 0 | SSeats _ => True end) sts.

Lemma outcome_inv o ok s s' done : inv s -> outcome o ok s s' done -> inv s'.
Proof. intros Hi [->|(_&_&m&Hc&->)]; [done|]. unfold after. apply inv_fireSeats. by eapply inv_written. Qed.

Lemma SetSeats_inv n s : inv s -> inv (SetSeats n s).
Proof.
  intros (Hs&Hse&Hu). unfold SetSeats. set (n' := if n <? 0 then NoSeatLimit else n).
  destruct (n' =? seats s); [done|]. apply inv_fireSeats. split; [|done]. split; [apply recompute_idem|].
  unfold n'. simpl. destruct (Z.ltb_spec n 0); [by left|by right].
Qed.

Lemma exec_inv st s : (match st with SWrite o _ => op_now o <> 0 | SSeats _ => True end) -> inv s -> inv (exec st s).
Proof.
  intros Ht Hi. destruct st as [o ok|n]; [|by apply SetSeats_inv]. simpl.
  pose proof (op_outcome o ok s Ht) as H. destruct (run o ok s) as [s' done]. by eapply outcome_inv.
Qed.

Lemma exec_all_inv sts : forall s, timed sts -> inv s -> inv (exec_all sts s).
Proof.
  induction sts as [|st sts IH]; intros s Ht Hi; [done|]. apply Forall_cons in Ht as [Ht Hts].
  apply IH; [done|]. by apply exec_inv.
Qed.

Lemma exec_told st s : hooked s = true -> (match st with SWrite o _ => op_now o <> 0 | SSeats _ => True end) ->
  hooked (exec st s) = true
  /\ exists cs, told (exec st s) = told s ++ cs
     /\ foldl apply_change (licensedSetLocked s) cs = licensedSetLocked (exec st s)
     /\ (cs = [] \/ exists c, cs = [c] /\ licensedSetLocked s <> licensedSetLocked (exec st s)).
Proof.
  intros Hh Ht. assert (forall s1, hooked s1 = true -> told s1 = told s ->
    let s2 := fireSeats (seatDiffLocked (licensedSetLocked s) s1) s1 in
    hooked s2 = true /\ exists cs, told s2 = told s ++ cs
      /\ foldl apply_change (licensedSetLocked s) cs = licensedSetLocked s2
      /\ (cs = [] \/ exists c, cs = [c] /\ licensedSetLocked s <> licensedSetLocked s2)) as Hf.
  { intros s1 H1 E s2. split; [unfold s2; by pose proof (fireSeats_fields (seatDiffLocked (licensedSetLocked s) s1) s1) as Hx; injection Hx as _ _ _ _ _ _ ->|].
    destruct (fireSeats_told (licensedSetLocked s) s1 H1) as (cs&E1&E2&E3). exists cs. unfold s2.
    rewrite licensedSet_fireSeats. by rewrite E1, E. }
  assert (hooked s = true /\ exists cs, told s = told s ++ cs /\ foldl apply_change (licensedSetLocked s) cs = licensedSetLocked s
    /\ (cs = [] \/ exists c, cs = [c] /\ licensedSetLocked s <> licensedSetLocked s)) as Hstay.
  { split; [done|]. exists []. rewrite app_nil_r. split; [done|]. split; [done|]. by left. }
  destruct st as [o ok|n]; simpl.
  - pose proof (op_outcome o ok s Ht) as H. destruct (run o ok s) as [s' done]. destruct H as [->|(_&_&m&_&->)]; [done|].
    by apply Hf.
  - unfold SetSeats. destruct ((if n <? 0 then NoSeatLimit else n) =? seats s); [done|]. by apply Hf.
Qed.

Lemma exec_all_told sts : forall s, hooked s = true -> timed sts ->
  exists cs, told (exec_all sts s) = told s ++ cs
  /\ foldl apply_change (licensedSetLocked s) cs = licensedSetLocked (exec_all sts s).
Proof.
  induction sts as [|st sts IH]; intros s Hh Ht; [exists []; by rewrite app_nil_r|].
  apply Forall_cons in Ht as [Ht Hts]. destruct (exec_told st s Hh Ht) as (Hh'&cs&E1&E2&_).
  destruct (IH (exec st s) Hh' Hts) as (cs'&E3&E4). exists (cs ++ cs').
  simpl. fold (exec_all sts (exec st s)). rewrite E3, E1, <- app_assoc. split; [done|]. by rewrite foldl_app, E2.
Qed.

(** ** The properties *)

(** C13: the seats are the front of the queue, whatever happened. After any
    history of writes (each with its file written or not) and seat-count
    changes, a device is licensed exactly when it holds a credential, is not
    revoked, and fewer holders than seats are ahead of it by the time they
    took their seats (then by id), or there is no limit; [used] is the number
    of holders; and the licensed are the lesser of the holders and the seats. *)
Theorem licensed_is_the_front_of_the_queue sts s : inv s -> timed sts ->
  let s' := exec_all sts s in
  (forall k, Licensed s' k = true <-> exists r, devices s' !! k = Some r /\ holdsSeat r = true
     /\ (seats s' = NoSeatLimit \/ Z.of_nat (size (ahead (holding (devices s')) (k, SeatSince r))) < seats s'))
  /\ used s' = Z.of_nat (size (holding (devices s')))
  /\ (seats s' <> NoSeatLimit -> Z.of_nat (size (licensedSetLocked s')) = Z.min (used s') (seats s')).
Proof.
  intros Hi Ht s'. destruct (exec_all_inv sts s Ht Hi) as (Hs&Hse&_). fold s' in Hs, Hse.
  split; [|split; [by apply used_size|by apply size_licensedSet]]. intros k. rewrite Licensed_iff by done.
  unfold in_seats. split.
  - intros (t&E&H). rewrite lookup_holding in E. destruct (devices s' !! k) as [r|] eqn:Er; [|done]. simpl in E.
    destruct (holdsSeat r) eqn:Hr; [|done]. injection E as <-. exists r. split; [done|]. split; [done|].
    by rewrite <- seatSince_seated by (by eapply Hse).
  - intros (r&Er&Hr&H). exists (SeatSince r). split; [|done].
    rewrite lookup_holding, Er. simpl. rewrite Hr, seatSince_seated; [done|by eapply Hse].
Qed.

(** C12: no write costs another device its seat. Whatever operation runs, and
    whether or not its file is written, every licensed device stays licensed,
    but for the one a revoke or a purge names. In particular a device that is
    given a new credential, or claims one, keeps its place. *)
Theorem no_write_displaces o ok s k : inv s -> op_now o <> 0 ->
  Licensed s k = true -> op_leaver o <> Some k -> Licensed (fst (run o ok s)) k = true.
Proof.
  intros Hi Ht Hk Hl. pose proof (op_outcome o ok s Ht) as H. destruct (run o ok s) as [s' done].
  destruct H as [->|(_&_&m&Hc&->)]; [done|]. simpl. unfold after. rewrite Licensed_fireSeats.
  by eapply written_licensed.
Qed.

(** C28: a write happens entirely or not at all. An operation that answers an
    error leaves the whole store (records, file, seats, calls) as it was; one
    that answers success has changed nothing, or has put its change in memory
    and, when there is a file, in the file: never when writing the file failed.
    The seats are those of the records, and the callback was told once if a
    device crossed the line and not otherwise. *)
Theorem enrolment_writes_are_atomic o ok s : inv s -> op_now o <> 0 -> hooked s = true ->
  let '(s', done) := run o ok s in
  inv s' /\
  (s' = s \/
   done = true /\ (ok = true \/ persistent s = false) /\ change (op_leaver o) s (devices s')
   /\ file s' = (if persistent s then Some (devices s') else file s) /\ seats s' = seats s
   /\ (told s' = told s /\ licensedSetLocked s' = licensedSetLocked s
       \/ exists c, told s' = told s ++ [c] /\ licensedSetLocked s' <> licensedSetLocked s
            /\ licensedSetLocked s' = apply_change (licensedSetLocked s) c)).
Proof.
  intros Hi Ht Hh. pose proof (op_outcome o ok s Ht) as H.
  pose proof (exec_told (SWrite o ok) s Hh Ht) as (_&cs&Ecs&Eset&Hcs). simpl in Ecs, Eset, Hcs.
  destruct (run o ok s) as [s' done]. simpl in *. split; [by eapply outcome_inv|].
  destruct H as [->|(->&Hok&m&Hc&->)]; [by left|]. right.
  pose proof (fireSeats_fields (seatDiffLocked (licensedSetLocked s) (written s m)) (written s m)) as Hf.
  cbv zeta in Hf. fold (after s m) in Hf. injection Hf as _ Hd Hfile Hseats _ _ _.
  rewrite Hd, Hfile, Hseats. split; [done|]. split; [done|]. split; [done|]. split; [done|]. split; [done|].
  destruct Hcs as [->|(c&->&Hne)]; [left|right].
  - by rewrite app_nil_r in Ecs.
  - exists c. split; [done|]. split; [congruence|]. by rewrite <- Eset.
Qed.

(** users are unique and bound for life. Over any history no two devices
    have the same user, and no operation changes the user of a device that
    it leaves in the store. *)
Theorem users_are_unique_and_immutable sts s : inv s -> timed sts ->
  let s' := exec_all sts s in
  (forall d1 d2 r1 r2, devices s' !! d1 = Some r1 -> devices s' !! d2 = Some r2 -> User r1 = User r2 -> d1 = d2)
  /\ forall o ok d r r', op_now o <> 0 -> devices s' !! d = Some r ->
       devices (fst (run o ok s')) !! d = Some r' -> User r' = User r.
Proof.
  intros Hi Ht s'. destruct (exec_all_inv sts s Ht Hi) as (_&_&Hu). fold s' in Hu. split; [exact Hu|].
  intros o ok d r r' Hnow E E'. pose proof (op_outcome o ok s' Hnow) as H. destruct (run o ok s') as [s2 done].
  destruct H as [->|(_&_&m&Hc&->)]; simpl in E'; [congruence|].
  pose proof (fireSeats_fields (seatDiffLocked (licensedSetLocked s') (written s' m)) (written s' m)) as Hf.
  cbv zeta in Hf. fold (after s' m) in Hf. injection Hf as _ Hd _ _ _ _ _. rewrite Hd in E'.
  destruct (change_users _ _ _ Hu Hc) as [_ Hk]. by eapply Hk.
Qed.

(** the seat callback loses nothing. A listener that holds the licensed
    devices when it registers and applies every change it is told, in order,
    holds exactly the licensed devices after any history of writes and
    seat-count changes run one after the other. *)
Theorem seat_changes_replay_to_licensed sts s : hooked s = true -> timed sts ->
  exists cs, told (exec_all sts s) = told s ++ cs
  /\ foldl apply_change (licensedSetLocked s) cs = licensedSetLocked (exec_all sts s).
Proof. apply exec_all_told. Qed.

End histories.

(** ** Claims *)

Definition is_key_order (order : list string) (m : records) : Prop := order ≡ₚ (map_to_list m).*1.

Lemma elem_of_key_order order m d r : is_key_order order m -> m !! d = Some r -> d ∈ order.
Proof.
  intros -> E. apply list_elem_of_fmap. exists (d, r). split; [done|]. by apply elem_of_map_to_list.
Qed.

Lemma claim_find_unique order m want now d r hit : m !! d = Some r -> CodeHash r = want -> want <> "" -> now < CodeExpires r ->
  (forall d' r', m !! d' = Some r' -> CodeHash r' = want -> d' = d) ->
  (d ∈ order /\ hit = None) \/ hit = Some (d, r) -> claim_find order m want now hit = Some (d, r).
Proof.
  intros E Ew Hne Hlt Hu. revert hit. induction order as [|k order IH]; intros hit Hh.
  - destruct Hh as [[Hd _]|Hh]; [by apply not_elem_of_nil in Hd|done].
  - cbn [claim_find]. assert (k = d \/ (d ∈ order /\ hit = None) \/ hit = Some (d, r)) as [->|Hh'].
    { rewrite elem_of_cons in Hh. destruct (decide (k = d)); naive_solver. }
    + rewrite E, decide_False by congruence. rewrite bool_decide_eq_true_2 by done.
      assert (before now (CodeExpires r) = true) as -> by (by apply Z.ltb_lt). apply IH. by right.
    + destruct (m !! k) as [r0|] eqn:E0; [|by apply IH]. case_decide; [by apply IH|].
      destruct (bool_decide (CodeHash r0 = want) && before now (CodeExpires r0)) eqn:Eb; [|by apply IH].
      apply andb_true_iff in Eb as [Ek%bool_decide_eq_true _]. pose proof (Hu k r0 E0 Ek) as ->.
      rewrite E in E0. injection E0 as <-. apply IH. by right.
Qed.

Section claims.
Context (sha256hex : string -> string) (md5hex : text -> text).
Context (sha256hex_nonempty : forall t, sha256hex t <> "").

(** What the claim leaves in the record. *)
Definition claimed_record (s : Store) (d tok : string) (now : Z) (r : record) : record :=
  set_code "" 0 (set_revoked false (set_credential (hashToken sha256hex tok) (credential_ha1 md5hex s d tok) now
    (if negb (holdsSeat r) then set_seat_since now r else r))).

Lemma claim_mut_unique order code tok now s d r : is_key_order order (devices s) ->
  devices s !! d = Some r -> CodeHash r = hashToken sha256hex (NormalizeCode code) -> now < CodeExpires r ->
  (forall d' r', devices s !! d' = Some r' -> CodeHash r' = hashToken sha256hex (NormalizeCode code) -> d' = d) ->
  claim_mut sha256hex md5hex order (hashToken sha256hex (NormalizeCode code)) (Some tok) now s =
  if negb (holdsSeat r) && negb (freeSeatLocked s) then (mkClaimed "" "" "", inl ErrNoSeats)
  else (mkClaimed d (User r) tok, inr (<[d := claimed_record s d tok now r]> (devices s))).
Proof.
  intros Ho E Ew Hlt Hu. unfold claim_mut.
  rewrite (claim_find_unique order (devices s) _ now d r None E Ew); [|apply sha256hex_nonempty|done|done|].
  2: { left. split; [by eapply elem_of_key_order|done]. }
  destruct (negb (holdsSeat r) && negb (freeSeatLocked s)); [done|]. unfold claimed_record.
  by destruct (negb (holdsSeat r)).
Qed.

Lemma holdsSeat_claimed s d tok now r : holdsSeat (claimed_record s d tok now r) = true.
Proof.
  unfold claimed_record, holdsSeat. cbn [TokenHash Revoked set_code set_revoked set_credential].
  by rewrite bool_decide_eq_true_2 by apply sha256hex_nonempty.
Qed.

Lemma claim_after order code tok now s d r : inv s -> now <> 0 -> is_key_order order (devices s) ->
  devices s !! d = Some r -> CodeHash r = hashToken sha256hex (NormalizeCode code) -> now < CodeExpires r ->
  (forall d' r', devices s !! d' = Some r' -> CodeHash r' = hashToken sha256hex (NormalizeCode code) -> d' = d) ->
  holdsSeat r = false \/ Licensed s d = true -> (holdsSeat r = true \/ freeSeatLocked s = true) ->
  Licensed (written s (<[d := claimed_record s d tok now r]> (devices s))) d = true.
Proof.
  intros Hi Hnow Ho E Ew Hlt Hu Hl Hf. set (m := <[d := _]> _).
  assert (change None s m) as Hc.
  { eapply claim_change; [done|done|]. rewrite (claim_mut_unique order code tok now s d r) by done.
    assert (negb (holdsSeat r) && negb (freeSeatLocked s) = false) as -> by (destruct Hf as [-> | ->]; by rewrite ?andb_false_r).
    done. }
  destruct (holdsSeat r) eqn:Hr; [destruct Hl as [|Hl]; [done|]; by eapply written_licensed|].
  destruct Hf as [|Hf]; [done|]. pose proof (inv_written None s m Hi Hc) as (Hs'&_&_). destruct Hi as (Hs&Hse&_).
  rewrite Licensed_iff by done. cbn [devices written recomputeSeatsLocked].
  assert (holding (devices s) !! d = None) as Hd by (rewrite lookup_holding, E; simpl; by rewrite Hr).
  assert (holding m !! d = Some (seatSince (claimed_record s d tok now r))) as Hm.
  { rewrite lookup_holding. unfold m. rewrite lookup_insert_eq. simpl. by rewrite holdsSeat_claimed. }
  exists (seatSince (claimed_record s d tok now r)). split; [done|].
  destruct (change_holding None s m Hse Hc) as [Eh|[(d0&t0&Hf0&Hd0&Eh)|(d0&Hx&_)]]; [congruence| |done].
  by eapply in_seats_entered.
Qed.

(** C32: an enrolment code buys one credential. A code that one device holds,
    unexpired, is refused while no seat is free for that device, leaving the
    store as it was, so the code can be claimed later. Otherwise, once the file
    is written, the device is answered a token that authenticates; no token
    with another hash (its old one) does; it is licensed, and stays so if it
    was; no other device changed; and the code is spent: claiming it again, at
    any time, is refused and changes nothing. *)
Theorem claim_spends_the_code order code tok now ok s d r :
  inv s -> now <> 0 -> is_key_order order (devices s) ->
  devices s !! d = Some r -> CodeHash r = hashToken sha256hex (NormalizeCode code) -> now < CodeExpires r ->
  (forall d' r', devices s !! d' = Some r' -> CodeHash r' = hashToken sha256hex (NormalizeCode code) -> d' = d) ->
  let res := Claim sha256hex md5hex order code (Some tok) now ok s in
  (holdsSeat r = false -> freeSeatLocked s = false -> res = (s, inl ErrNoSeats))
  /\ (holdsSeat r = true \/ freeSeatLocked s = true -> ok = true \/ persistent s = false ->
      let s' := fst res in
      snd res = inr (mkClaimed d (User r) tok)
      /\ Authenticate sha256hex s' d tok = true
      /\ (forall t, hashToken sha256hex t <> hashToken sha256hex tok -> Authenticate sha256hex s' d t = false)
      /\ (holdsSeat r = false \/ Licensed s d = true -> Licensed s' d = true)
      /\ (forall d', d' <> d -> devices s' !! d' = devices s !! d')
      /\ forall order' random' now' ok', Claim sha256hex md5hex order' code random' now' ok' s' = (s', inl ErrBadCode)).
Proof.
  intros Hi Hnow Ho E Ew Hlt Hu res. unfold Claim in res.
  pose proof (claim_mut_unique order code tok now s d r Ho E Ew Hlt Hu) as Hm.
  pose proof (commit_cases (claim_mut sha256hex md5hex order (hashToken sha256hex (NormalizeCode code)) (Some tok) now) ok s) as Hc.
  unfold res. clear res. rewrite Hm in Hc. destruct (commit _ _ _) as [[s' a] e]. destruct Hc as [-> Hc]. split.
  - intros Hr Hf. rewrite Hr, Hf in Hc. destruct Hc as [-> ->]. done.
  - intros Hf Hok. assert (negb (holdsSeat r) && negb (freeSeatLocked s) = false) as Hg
      by (destruct Hf as [-> | ->]; by rewrite ?andb_false_r).
    rewrite Hg in Hc. simpl in Hc. assert (ok || negb (persistent s) = true) as Hok'
      by (destruct Hok as [-> | ->]; by rewrite ?orb_true_r).
    rewrite Hok' in Hc. destruct Hc as [-> ->]. rewrite Hg. cbn [fst snd]. set (m := <[d := _]> _).
    pose proof (fireSeats_fields (seatDiffLocked (licensedSetLocked s) (written s m)) (written s m)) as Hd.
    cbv zeta in Hd. fold (after s m) in Hd. injection Hd as _ Hd _ _ _ _ _.
    unfold Authenticate. rewrite Hd. cbn [devices written recomputeSeatsLocked]. unfold m at 1 2. rewrite !lookup_insert_eq.
    cbn [Revoked TokenHash claimed_record set_code set_revoked set_credential negb andb].
    rewrite (bool_decide_eq_true_2 (hashToken sha256hex tok <> "")) by apply sha256hex_nonempty.
    split; [done|]. split; [by apply bool_decide_eq_true|]. split; [intros t Ht; apply bool_decide_eq_false_2; congruence|].
    split; [intros Hl; unfold after; rewrite Licensed_fireSeats; by eapply claim_after|].
    split; [intros d' Hne; unfold m; by rewrite lookup_insert_ne|].
    intros order' random' now' ok'. unfold Claim.
    pose proof (commit_cases (claim_mut sha256hex md5hex order' (hashToken sha256hex (NormalizeCode code)) random' now') ok' (after s m)) as Hc.
    destruct (commit _ _ _) as [[s2 a2] e2]. destruct Hc as [_ Hc]. unfold claim_mut in Hc. rewrite Hd in Hc.
    cbn [devices written recomputeSeatsLocked] in Hc.
    destruct (claim_find order' m _ now' None) as [[d1 r1]|] eqn:Ef; [|by destruct Hc as [-> ->]]. exfalso.
    apply claim_find_sound in Ef as [|(_&E1&Hn1&Ew1&_)]; [done|]. unfold m in E1.
    apply lookup_insert_Some in E1 as [[<- <-]|[Hne E1]]; [done|]. apply Hne. symmetry. by eapply Hu.
Qed.

End claims.

(** ** The race of a seat-count change with a failing write *)

(** A failing write takes back the recount of a seat-count change. When
    [SetSeats] lowers the count while a write's file is being saved and the
    save then fails, the count is the new one but the devices licensed are
    those of the old one: more than there are seats, until the next write. *)
Theorem failed_save_undoes_a_seat_change {A} (mutate : mut A) a m n s s1 b :
  seats_ok s -> seats s <> NoSeatLimit -> mutate s = (a, inr m) -> commit_begin mutate s = (s1, a, inr b) ->
  0 <= n < Z.min (used s) (seats s) ->
  let s3 := fst (fst (commit_end false b (SetSeats n s1))) in
  devices s3 = devices s /\ seats s3 = n /\ licensedSetLocked s3 = licensedSetLocked s
  /\ n < Z.of_nat (size (licensedSetLocked s3)).
Proof.
  intros Hs Hn Hm Hb Hlt s3. unfold commit_begin in Hb. rewrite Hm in Hb. injection Hb as <- <-.
  assert (seats (SetSeats n (recomputeSeatsLocked (mkStore (persistent s) (Realm_ s) m (file s) (seats s) (used s)
    (unlicensed s) (hooked s) (told s)))) = n) as En.
  { unfold SetSeats. cbn [seats recomputeSeatsLocked]. destruct (Z.ltb_spec n 0); [lia|].
    destruct (Z.eqb_spec n (seats s)); [lia|]. cbv zeta.
    by rewrite seats_fireSeats. }
  assert (licensedSetLocked s3 = licensedSetLocked s) as E by done.
  split; [done|]. split; [exact En|]. split; [done|]. rewrite E, size_licensedSet by done. lia.
Qed.

(** ** Witnesses *)

Definition example_sha (t : string) : string := String "h" t.

Definition example_record (user : string) (since : Z) (code : string) : record :=
  mkRecord user "" "" (if decide (since = 0) then "" else example_sha user) "" 5 5 false since code 100 [] 0 None.

Definition example_records : records :=
  {[ "dev_a" := example_record "ann" 1 ""; "dev_b" := example_record "bo" 2 "";
     "dev_c" := example_record "cy" 0 (example_sha "C0DE1234") ]}.

(** Two seats, both held; [dev_c] waits for its code to be claimed. *)
Definition example_store (seats : Z) : Store :=
  recomputeSeatsLocked (mkStore true "pbx" example_records None seats 0 ∅ true []).

Lemma example_lookup d r : example_records !! d = Some r ->
  (d = "dev_a" /\ r = example_record "ann" 1 "") \/ (d = "dev_b" /\ r = example_record "bo" 2 "")
  \/ (d = "dev_c" /\ r = example_record "cy" 0 (example_sha "C0DE1234")).
Proof.
  unfold example_records. intros E. apply lookup_insert_Some in E as [[<- <-]|[_ E]]; [by left|].
  apply lookup_insert_Some in E as [[<- <-]|[_ E]]; [by right; left|].
  apply lookup_singleton_Some in E as [<- <-]. by right; right.
Qed.

Lemma example_inv n : n = NoSeatLimit \/ 0 <= n -> inv (example_store n).
Proof.
  intros Hn. split; [split; [apply recompute_idem|exact Hn]|]. cbn [devices example_store recomputeSeatsLocked]. split.
  - intros d r E. apply example_lookup in E as [[-> ->]|[[-> ->]|[-> ->]]]; [discriminate 2|discriminate 2|discriminate 1].
  - intros d1 d2 r1 r2 E1 E2. apply example_lookup in E1 as [[-> ->]|[[-> ->]|[-> ->]]], E2 as [[-> ->]|[[-> ->]|[-> ->]]];
      done.
Qed.

Definition example_steps : list step :=
  [SWrite (OIssueToken "dev_a" "ann" "a new token of ann" None 50) true; SSeats 1; SWrite (ORevoke "dev_a" 60) false;
   SWrite (ORevoke "dev_a" 61) true].

Lemma example_timed : timed example_steps.
Proof. repeat constructor; discriminate. Qed.

Definition no_md5 (t : text) : text := t.

Abbreviation example_end := (exec_all example_sha no_md5 None example_steps (example_store 2)).

Lemma example_sha_nonempty t : example_sha t <> "".
Proof. discriminate. Qed.

Lemma licensed_is_the_front_of_the_queue_witness :
  inv (example_store 2) /\ timed example_steps /\ Licensed example_end "dev_b" = true
  /\ Z.of_nat (size (licensedSetLocked example_end)) = Z.min (used example_end) (seats example_end) /\ seats example_end = 1.
Proof.
  assert (inv (example_store 2)) as Hi by (apply example_inv; lia).
  pose proof (licensed_is_the_front_of_the_queue example_sha no_md5 None example_sha_nonempty example_steps (example_store 2)
    Hi example_timed) as H. cbv zeta in H.  apply proj2, proj2 in H.
  assert (seats example_end = 1) as E by (vm_compute; reflexivity).
  split; [exact Hi|]. split; [apply example_timed|]. split; [vm_compute; reflexivity|].
  split; [apply H; rewrite E; discriminate|exact E].
Defined.

Definition example_issue : op := OIssueToken "dev_a" "ann" "a new token of ann" None 50.

Lemma no_write_displaces_witness : Licensed (example_store 1) "dev_a" = true
  /\ Licensed (fst (run example_sha no_md5 None example_issue true (example_store 1))) "dev_a" = true.
Proof.
  assert (Licensed (example_store 1) "dev_a" = true) as Hl by (vm_compute; reflexivity). split; [exact Hl|].
  apply (no_write_displaces example_sha no_md5 None example_sha_nonempty example_issue true (example_store 1) "dev_a");
    [apply example_inv; lia|discriminate|exact Hl|discriminate].
Defined.

Lemma enrolment_writes_are_atomic_witness :
  let res := run example_sha no_md5 None example_issue false (example_store 1) in
  inv (fst res) /\ fst res = example_store 1 /\ snd res = false.
Proof.
  assert (inv (example_store 1)) as Hi by (apply example_inv; lia).
  pose proof (enrolment_writes_are_atomic example_sha no_md5 None example_sha_nonempty example_issue false (example_store 1)
    Hi ltac:(discriminate) eq_refl) as H. cbv zeta. revert H.
  assert (snd (run example_sha no_md5 None example_issue false (example_store 1)) = false) as Ed by (vm_compute; reflexivity).
  revert Ed. destruct (run _ _ _ _ _ _) as [s' done]. cbn [fst snd]. intros -> H.
  split; [apply H|]. split; [|reflexivity]. destruct H as [_ [H|[H _]]]; [exact H|discriminate H].
Defined.

Lemma users_are_unique_and_immutable_witness : exists r r', devices example_end !! "dev_a" = Some r
  /\ devices (fst (run example_sha no_md5 None example_issue true example_end)) !! "dev_a" = Some r' /\ User r' = User r.
Proof.
  assert (inv (example_store 2)) as Hi by (apply example_inv; lia).
  pose proof (users_are_unique_and_immutable example_sha no_md5 None example_sha_nonempty example_steps (example_store 2)
    Hi example_timed) as H. cbv zeta in H. apply proj2 in H.
  destruct (devices example_end !! "dev_a") as [r|] eqn:E; [|vm_compute in E; discriminate E].
  destruct (devices (fst (run example_sha no_md5 None example_issue true example_end)) !! "dev_a") as [r'|] eqn:E';
    [|vm_compute in E'; discriminate E'].
  exists r, r'. split; [reflexivity|]. split; [reflexivity|].
  apply (H example_issue true "dev_a" r r'); [discriminate|exact E|exact E'].
Defined.

Lemma seat_changes_replay_to_licensed_witness :
  exists cs, told example_end = cs /\ foldl apply_change (licensedSetLocked (example_store 2)) cs = licensedSetLocked example_end
  /\ length cs = 2%nat.
Proof.
  destruct (seat_changes_replay_to_licensed example_sha no_md5 None example_sha_nonempty example_steps (example_store 2)
    eq_refl example_timed) as (cs&E&H).
  exists cs. split; [exact E|]. split; [exact H|].
  assert (length (told example_end) = 2%nat) as El by (vm_compute; reflexivity). rewrite E in El. exact El.
Defined.

Definition example_order : list string := (map_to_list example_records).*1.

Lemma claim_spends_the_code_witness :
  snd (Claim example_sha no_md5 example_order "c0de-l234" (Some "tok_1") 50 true (example_store 3))
    = inr (mkClaimed "dev_c" "cy" "tok_1")
  /\ Claim example_sha no_md5 example_order "c0de-l234" (Some "tok_1") 50 true (example_store 2) = (example_store 2, inl ErrNoSeats).
Proof.
  assert (forall d' r', example_records !! d' = Some r' ->
    CodeHash r' = hashToken example_sha (NormalizeCode "c0de-l234") -> d' = "dev_c") as Hu.
  { intros d' r' E. apply example_lookup in E as [[-> ->]|[[-> ->]|[-> ->]]]; [discriminate 1|discriminate 1|reflexivity]. }
  split.
  - pose proof (claim_spends_the_code example_sha no_md5 example_sha_nonempty example_order "c0de-l234" "tok_1" 50 true
      (example_store 3) "dev_c" (example_record "cy" 0 (example_sha "C0DE1234")) (example_inv 3 ltac:(lia)) ltac:(discriminate)
      (Permutation_refl _) eq_refl eq_refl eq_refl Hu) as H. cbv zeta in H.
    apply (proj2 H); [right; vm_compute; reflexivity|left; reflexivity].
  - pose proof (claim_spends_the_code example_sha no_md5 example_sha_nonempty example_order "c0de-l234" "tok_1" 50 true
      (example_store 2) "dev_c" (example_record "cy" 0 (example_sha "C0DE1234")) (example_inv 2 ltac:(lia)) ltac:(discriminate)
      (Permutation_refl _) eq_refl eq_refl eq_refl Hu) as H. cbv zeta in H.
    apply (proj1 H); vm_compute; reflexivity.
Defined.

Lemma failed_save_undoes_a_seat_change_witness :
  match commit_begin (purge_mut "dev_c") (example_store 2) with
  | (s1, _, inr b) =>
      let s3 := fst (fst (commit_end false b (SetSeats 1 s1))) in
      seats s3 = 1 /\ 1 < Z.of_nat (size (licensedSetLocked s3))
  | _ => False
  end.
Proof.
  destruct (purge_mut "dev_c" (example_store 2)) as [a [e|m]] eqn:Em; [discriminate Em|].
  destruct (commit_begin (purge_mut "dev_c") (example_store 2)) as [[s1 a1] [e|b]] eqn:Eb;
    [unfold commit_begin in Eb; rewrite Em in Eb; discriminate Eb|].
  assert (a1 = a) as -> by (unfold commit_begin in Eb; rewrite Em in Eb; injection Eb as _ <- _; reflexivity).
  assert (inv (example_store 2)) as Hi by (apply example_inv; lia). cbv zeta.
  destruct (failed_save_undoes_a_seat_change (purge_mut "dev_c") a m 1 (example_store 2) s1 b (proj1 Hi) ltac:(discriminate)
    Em Eb ltac:(vm_compute; split; [discriminate|reflexivity])) as (_&H1&_&H2).
  split; [exact H1|exact H2].
Defined.
