(* ===== verification/Interfaces.v ===== *)
(** What one component of the server promises another, as a class: the
    client is defined and proved against the class, and the promising
    component's instance is given where the server wires the two together. *)

From S2P Require Import Prelude.

(** The credential check of a door (gateway.Authenticator and the [Licensed]
    of gateway.Config): whether the device's token is good, and whether it
    holds a seat, else the reason shown to it. *)
Class DoorKeeper (A : Type) := {
  door_authenticate : A -> string -> string -> bool;
  door_licensed : A -> string -> bool * string;
}.
