(* ===== verification/Gateway.v ===== *)
(** The signal gateway (src/server/internal/gateway/gateway.go): the session
    table, pending and cancelled wakes, and the handler of one connection.

    - The gateway's own state is a [Gateway]; each section under its lock is a
      function. Everything a goroutine does outside the lock is an [action];
      [act] is one action, and the goroutines of the server are lists of actions
      that GatewayProps interleaves.
    - A connection is a [session] with the frames written to it. Whether a
      write succeeds is an argument; after one that fails every later one fails
      (a TLS connection is unusable after a failed write), as on a closed one.
    - Arguments: the decoding of bodies, the credential check ([DoorKeeper]).
    - The order in which Go walks a map is an argument where it shows. *)

From stdpp Require Import pretty.
From S2P Require Import Prelude Wire Interfaces.
Open Scope Z_scope.

#[export] Instance ClientKind_eq_dec : EqDecision ClientKind.
Proof. solve_decision. Defined.

#[export] Instance ClientKind_countable : Countable ClientKind.
Proof.
  refine (inj_countable' (fun k => match k with ClientApp => true | ClientExtension => false end)
    (fun b => if b : bool then ClientApp else ClientExtension) _); by intros [].
Defined.

(** ** Configuration *)

Record GwConfig := mkGwConfig {
  Heartbeat : Z;
  HandshakeTimeout : Z;
  WriteTimeout : Z;
  DirectoryVersionOf : option (string -> Z);
  SIPAccountFor : option (string -> option SIPAccount);
  DeviceConfigFor : option (string -> option DeviceConfig);
  checks_licence : bool;                       (* Licensed <> nil *)
  LicenceFor : option string;
}.

Definition withDefaults (c : GwConfig) : GwConfig :=
  mkGwConfig
    (if Heartbeat c <=? 0 then 10 * ns_second else Heartbeat c)
    (if HandshakeTimeout c <=? 0 then 5 * ns_second else HandshakeTimeout c)
    (if WriteTimeout c <=? 0 then 5 * ns_second else WriteTimeout c)
    (match DirectoryVersionOf c with None => Some (fun _ => 0) | some => some end)
    (SIPAccountFor c) (DeviceConfigFor c) (checks_licence c) (LicenceFor c).

(** ** State *)

(** The frames a server sends, by their bodies. *)
Inductive out :=
  | OWelcome (w : Welcome) | OPong | OPing | OWake (w : Wake) | OCancel (c : WakeCancel)
  | ODirectory (d : DirectoryChanged) | OConfig (c : DeviceConfig) | OError (e : Error).

Record session := mkSession {
  s_device : string;
  s_kind : ClientKind;
  since : Z;
  addr : string;
  appVersion : string;
  closed : bool;
  broken : bool;                        (* a write on it has failed *)
  sentWakes : gset string;
  frames : list (Z * out);              (* with the ids given to the envelopes *)
}.

Record cancelRecord := mkCancel { reason : CancelReason; until : Z }.

Record PresenceEvent := mkPresence { pr_DeviceID : string; pr_Kind : ClientKind; Online_ : bool }.

Record Gateway := mkGateway {
  sessions : gmap string (gmap ClientKind Z);
  pending : gmap string (gmap string Wake);
  cancelled : gmap string (gmap string cancelRecord);
  conns : gmap Z session;               (* every connection accepted *)
  idSeq : Z;
  presence : list PresenceEvent;        (* the calls of the three callbacks *)
  acks : list (string * WakeAck);
  wakes : list (string * string * Z);
}.

Definition New : Gateway := mkGateway ∅ ∅ ∅ ∅ 0 [] [] [].

Definition cancelGrace : Z := 30 * ns_second.
Definition cancelMemory : Z := 90 * ns_second.

Definition with_sessions (g : Gateway) m := mkGateway m (pending g) (cancelled g) (conns g) (idSeq g) (presence g) (acks g) (wakes g).
Definition with_pending (g : Gateway) m := mkGateway (sessions g) m (cancelled g) (conns g) (idSeq g) (presence g) (acks g) (wakes g).
Definition with_cancelled (g : Gateway) m := mkGateway (sessions g) (pending g) m (conns g) (idSeq g) (presence g) (acks g) (wakes g).
Definition with_conns (g : Gateway) m := mkGateway (sessions g) (pending g) (cancelled g) m (idSeq g) (presence g) (acks g) (wakes g).

(** ** Nested maps

    Go's [m[a][b]] on a map of maps: reading through a missing inner map finds
    nothing, deleting from one does nothing. *)
Section nested.
Context {K A : Type} `{Countable K}.

Definition get2 (m : gmap string (gmap K A)) (a : string) (b : K) : option A := i ← m !! a; i !! b.
Definition inner (m : gmap string (gmap K A)) (a : string) : gmap K A := default ∅ (m !! a).

(** [delete(m[a], b)], which leaves an empty inner map. *)
Definition delete2 (a : string) (b : K) (m : gmap string (gmap K A)) : gmap string (gmap K A) := alter (delete b) a m.

(** [if len(m[a]) == 0 { delete(m, a) }] *)
Definition drop_empty (a : string) (m : gmap string (gmap K A)) : gmap string (gmap K A) :=
  if decide (inner m a = ∅) then delete a m else m.

(** [if m[a] == nil { m[a] = {} }; m[a][b] = x] *)
Definition insert2 (a : string) (b : K) (x : A) (m : gmap string (gmap K A)) : gmap string (gmap K A) :=
  <[a := <[b := x]> (inner m a)]> m.

Lemma get2_insert2 a b x m a' b' :
  get2 (insert2 a b x m) a' b' = if decide (a = a' /\ b = b') then Some x else get2 m a' b'.
Proof.
  unfold get2, insert2, inner. destruct (decide (a = a')) as [->|Ha].
  - rewrite lookup_insert_eq. simpl. destruct (decide (b = b')) as [->|Hb].
    + rewrite lookup_insert_eq, decide_True by done. done.
    + rewrite lookup_insert_ne, decide_False by naive_solver. by destruct (m !! a').
  - rewrite lookup_insert_ne, decide_False by naive_solver. done.
Qed.

Lemma get2_delete2 a b m a' b' :
  get2 (delete2 a b m) a' b' = if decide (a = a' /\ b = b') then None else get2 m a' b'.
Proof.
  unfold get2, delete2. destruct (decide (a = a')) as [->|Ha].
  - rewrite lookup_alter_eq. destruct (m !! a') as [i|]; simpl; [|by case_decide].
    destruct (decide (b = b')) as [->|Hb].
    + by rewrite lookup_delete_eq, decide_True.
    + rewrite lookup_delete_ne, decide_False by naive_solver. done.
  - rewrite lookup_alter_ne, decide_False by naive_solver. done.
Qed.

Lemma get2_drop_empty a m a' b' : get2 (drop_empty a m) a' b' = get2 m a' b'.
Proof.
  unfold drop_empty, get2, inner. case_decide as Hd; [|done]. destruct (decide (a = a')) as [->|Ha].
  - rewrite lookup_delete_eq. destruct (m !! a') as [i|]; [|done]. simpl in *. subst i. by rewrite lookup_empty.
  - by rewrite lookup_delete_ne.
Qed.

Lemma get2_inner m a b : get2 m a b = inner m a !! b.
Proof. unfold get2, inner. destruct (m !! a); [done|]. simpl. by rewrite lookup_empty. Qed.

Lemma get2_keep a (i : gmap K A) m a' b' :
  get2 (alter (fun _ => i) a m) a' b' = if decide (a = a') then (_ ← m !! a; i !! b') else get2 m a' b'.
Proof.
  unfold get2. case_decide; subst; [rewrite lookup_alter_eq|by rewrite lookup_alter_ne]. by destruct (m !! a').
Qed.
End nested.

(** ** Sections under the lock *)

Definition Online (d : string) (g : Gateway) : bool := bool_decide (inner (sessions g) d <> ∅).

Record SessionInfo := mkInfo { i_Kind : ClientKind; i_Since : Z; i_Addr : string; i_AppVersion : string }.

Definition Sessions (g : Gateway) : gmap string (list SessionInfo) :=
  (fun kinds => omap (fun sid => s ← conns g !! sid;
                       Some (mkInfo (s_kind s) (since s) (addr s) (appVersion s))) (map_to_list kinds).*2)
  <$> sessions g.

Definition snapshotLocked (d : string) (g : Gateway) : list Z := (map_to_list (inner (sessions g) d)).*2.

Definition wake_locked (d : string) (w : Wake) (now : Z) (g : Gateway) : Gateway :=
  let g := with_cancelled g (delete2 d (wake_CallID w) (cancelled g)) in
  if after (ExpiresAt w) now then with_pending g (insert2 d (wake_CallID w) w (pending g)) else g.

Definition forget_locked (d callID : string) (g : Gateway) : Gateway :=
  with_pending g (drop_empty d (delete2 d callID (pending g))).

Definition cancel_locked (d callID : string) (r : CancelReason) (now : Z) (g : Gateway) : Gateway :=
  let u := match get2 (pending g) d callID with
           | Some w => ExpiresAt w + cancelGrace
           | None => now + cancelMemory
           end in
  let g := forget_locked d callID g in
  with_cancelled g (insert2 d callID (mkCancel r u) (cancelled g)).

(** The entries still due, and the map without the others. *)
Definition cancelsFor (d : string) (now : Z) (g : Gateway) : Gateway * list WakeCancel :=
  let live := filter (fun kc => after (until (snd kc)) now = true) (inner (cancelled g) d) in
  (with_cancelled g (drop_empty d (alter (fun _ => live) d (cancelled g))),
   map (fun kc => mkWakeCancel (fst kc) (reason (snd kc))) (map_to_list live)).

Definition pendingFor (d : string) (now : Z) (g : Gateway) : Gateway * list Wake :=
  let live := filter (fun kw => after (ExpiresAt (snd kw)) now = true) (inner (pending g) d) in
  (with_pending g (drop_empty d (alter (fun _ => live) d (pending g))), (map_to_list live).*2).

(** The connection superseded, if any. *)
Definition attach_locked (sid : Z) (d : string) (k : ClientKind) (g : Gateway) : Gateway * option Z :=
  (with_sessions g (insert2 d k sid (sessions g)), get2 (sessions g) d k).

(** Whether the session owned its place. *)
Definition detach_locked (sid : Z) (d : string) (k : ClientKind) (g : Gateway) : Gateway * bool :=
  if decide (get2 (sessions g) d k = Some sid)
  then (with_sessions g (drop_empty d (delete2 d k (sessions g))), true) else (g, false).

Definition will_answer : string := "will_answer".

(** Whether the call was known. *)
Definition ack_locked (d : string) (a : WakeAck) (g : Gateway) : Gateway * bool :=
  match get2 (pending g) d (ack_CallID a) with
  | None => (g, false)
  | Some _ =>
      (if decide (Action a <> will_answer) then with_pending g (delete2 d (ack_CallID a) (pending g)) else g, true)
  end.

(** ** One connection *)

Definition new_session : session := mkSession "" ClientApp 0 "" "" false false ∅ [].

Definition usable (s : session) : bool := negb (closed s) && negb (broken s).

(** A write of one frame on a connection: the error, or the frame is out. *)
Definition write (ok : bool) (id : Z) (o : out) (s : session) : session * bool :=
  if ok && usable s
  then (mkSession (s_device s) (s_kind s) (since s) (addr s) (appVersion s) (closed s) (broken s) (sentWakes s)
          (frames s ++ [(id, o)]), true)
  else (mkSession (s_device s) (s_kind s) (since s) (addr s) (appVersion s) (closed s) true (sentWakes s) (frames s), false).

Definition update_session (sid : Z) (f : session -> session) (g : Gateway) : Gateway := with_conns g (alter f sid (conns g)).

(** [session.send]: the envelope takes the next id whatever becomes of it. *)
Definition send (ok : bool) (sid : Z) (o : out) (g : Gateway) : Gateway * bool :=
  match conns g !! sid with
  | None => (g, false)
  | Some s =>
      let id := idSeq g + 1 in
      let '(s', sent) := write ok id o s in
      (mkGateway (sessions g) (pending g) (cancelled g) (<[sid := s']> (conns g)) id (presence g) (acks g) (wakes g), sent)
  end.

(** The mark of [sendWake]: whether the wake is still to be sent. *)
Definition mark_wake (sid : Z) (callID : string) (g : Gateway) : Gateway * bool :=
  match conns g !! sid with
  | None => (g, false)
  | Some s =>
      if decide (callID ∈ sentWakes s) then (g, false) else
      (update_session sid (fun s => mkSession (s_device s) (s_kind s) (since s) (addr s) (appVersion s) (closed s) (broken s)
                                      ({[ callID ]} ∪ sentWakes s) (frames s)) g, true)
  end.

Definition close (sid : Z) (g : Gateway) : Gateway :=
  update_session sid (fun s => mkSession (s_device s) (s_kind s) (since s) (addr s) (appVersion s) true (broken s)
                                 (sentWakes s) (frames s)) g.

Definition error_frame (c : ErrorCode) (msg : string) (fatal : bool) : out := OError (mkError c msg fatal).

(** ** The handshake *)

Inductive first_read := ReadTimeout | ReadFailed | ReadEnvelope (e : Envelope).

Inductive verdict := Drop | Refuse (c : ErrorCode) (msg : string) | Admit (h : Hello) (k : ClientKind).

Definition validate_message (e : validate_error) : string :=
  match e with
  | ErrUnsupportedVersion v => "wire: unsupported envelope version: " +:+ pretty v
  | ErrMissingType => "wire: envelope type is empty"
  | ErrMissingID => "wire: envelope id is empty"
  end.

Definition validate_code (e : validate_error) : ErrorCode :=
  match e with ErrUnsupportedVersion _ => CodeUnsupportedVersion | _ => CodeBadFrame end.

Definition client_kind (c : string) : option ClientKind :=
  if decide (c = "app") then Some ClientApp else if decide (c = "extension") then Some ClientExtension else None.

Section connection.
Context (cfg : GwConfig) {A : Type} `{DoorKeeper A} (DecodeHello : list Z -> option Hello)
  (DecodeAck : list Z -> option WakeAck).

Definition handshake (auth : A) (r : first_read) : verdict :=
  match r with
  | ReadTimeout => Drop
  | ReadFailed => Refuse CodeBadFrame "expected a hello frame"
  | ReadEnvelope e =>
      match Validate e with
      | Some err => Refuse (validate_code err) (validate_message err)
      | None =>
          if decide (Type_ e <> TypeHello) then Refuse CodeHelloExpected "first frame must be hello" else
          match DecodeHello (Body e) with
          | None => Refuse CodeBadFrame "malformed hello"
          | Some h =>
              match client_kind (Client h) with
              | None => Refuse CodeBadFrame "malformed hello"
              | Some k =>
                  if decide (DeviceID h = "" \/ Token h = "") then Refuse CodeBadFrame "malformed hello" else
                  if negb (door_authenticate auth (DeviceID h) (Token h))
                  then Refuse CodeUnauthorized "unknown device or bad token" else
                  if checks_licence cfg && negb (fst (door_licensed auth (DeviceID h)))
                  then Refuse CodeUnauthorized (snd (door_licensed auth (DeviceID h)))
                  else Admit h k
              end
          end
      end
  end.

(** The welcome of session [sid]; [idPrefix] is fixed when the gateway is made. *)
Definition welcome (idPrefix : string) (sid : Z) (d : string) (now : Z) : Welcome :=
  mkWelcome (idPrefix +:+ pretty sid) ((Heartbeat cfg + ns_second - 1) `quot` ns_second) now
    (match DirectoryVersionOf cfg with Some f => f d | None => 0 end)
    (f ← SIPAccountFor cfg; f d) (f ← DeviceConfigFor cfg; f d) (default "" (LicenceFor cfg)).

(** ** What a goroutine does outside the lock *)

Inductive action :=
  | ASend (sid : Z) (o : out)                      (* [_ = s.send(...)] *)
  | ASendWake (sid : Z) (w : Wake)                 (* [_ = s.sendWake(w)] *)
  | AWake (d : string) (w : Wake) (targets : list Z) (n : Z)     (* the loop of [Wake] *)
  | AWakeSent (d : string) (w : Wake) (sid : Z) (targets : list Z) (n : Z)   (* its send, once marked *)
  | AFail (sid : Z) (c : ErrorCode) (msg : string)
  | AClose (sid : Z)
  | APresence (ev : PresenceEvent)
  | AOnAck (d : string) (a : WakeAck)
  | AAttach (sid : Z)
  | AWelcome (sid : Z)
  | AReplayWakes (sid : Z) | AReplayCancels (sid : Z)
  | ALoop (sid : Z)
  | ADetach (sid : Z).

(** What runs when the handler of [sid] returns after it attached. *)
Definition leave (sid : Z) : list action := [ADetach sid; AClose sid].

(** The frame loop's reading: what the handler does next. *)
Inductive event := EvTimeout | EvTooLarge | EvError | EvFrame (e : Envelope).

Definition too_large_message : string := "wire: frame exceeds MaxFrameSize".

Definition loop_step (sid : Z) (d : string) (ev : event) (g : Gateway) : Gateway * list action :=
  match ev with
  | EvTimeout => (g, AFail sid CodeIdleTimeout "no frame within 3×heartbeat" :: leave sid)
  | EvTooLarge => (g, AFail sid CodeBadFrame too_large_message :: leave sid)
  | EvError => (g, leave sid)
  | EvFrame e =>
      match Validate e with
      | Some err => (g, AFail sid CodeBadFrame (validate_message err) :: leave sid)
      | None =>
          if decide (Type_ e = TypePing) then (g, [ASend sid OPong; ALoop sid]) else
          if decide (Type_ e = TypeWakeAck) then
            match DecodeAck (Body e) with
            | None => (g, AFail sid CodeBadFrame "malformed wake_ack" :: leave sid)
            | Some a =>
                if decide (ack_CallID a = "") then (g, AFail sid CodeBadFrame "malformed wake_ack" :: leave sid) else
                let '(g, known) := ack_locked d a g in
                if known : bool then (g, [AOnAck d a; ALoop sid])
                else (g, [ASend sid (error_frame CodeUnknownCall "no pending wake for call_id" false); ALoop sid])
            end
          else (g, [ALoop sid])
      end
  end.

(** One action, with [rest] after it: the gateway, the actions that take its
    place (of which only replays are several, in the order of a map), what
    follows them, and the goroutines it starts. *)
Definition act (idPrefix : string) (ok : bool) (now : Z) (a : action) (rest : list action) (g : Gateway)
    : Gateway * list action * list action * list (list action) :=
  match a with
  | ASend sid o => (fst (send ok sid o g), [], rest, [])
  | ASendWake sid w =>
      let '(g, todo) := mark_wake sid (wake_CallID w) g in
      (g, if todo : bool then [ASend sid (OWake w)] else [], rest, [])
  | AWake d w [] n =>
      (mkGateway (sessions g) (pending g) (cancelled g) (conns g) (idSeq g) (presence g) (acks g)
         (wakes g ++ [(d, wake_CallID w, n)]), [], rest, [])
  | AWake d w (sid :: targets) n =>
      let '(g, todo) := mark_wake sid (wake_CallID w) g in
      (g, [if todo : bool then AWakeSent d w sid targets n else AWake d w targets (n + 1)], rest, [])
  | AWakeSent d w sid targets n =>
      let '(g, sent) := send ok sid (OWake w) g in
      (g, [AWake d w targets (if sent : bool then n + 1 else n)], rest, [])
  | AFail sid c msg => (fst (send ok sid (error_frame c msg true) g), [AClose sid], rest, [])
  | AClose sid => (close sid g, [], rest, [])
  | APresence ev =>
      (mkGateway (sessions g) (pending g) (cancelled g) (conns g) (idSeq g) (presence g ++ [ev]) (acks g) (wakes g),
       [], rest, [])
  | AOnAck d a =>
      (mkGateway (sessions g) (pending g) (cancelled g) (conns g) (idSeq g) (presence g) (acks g ++ [(d, a)]) (wakes g),
       [], rest, [])
  | AAttach sid =>
      match conns g !! sid with
      | None => (g, [], rest, [])
      | Some s =>
          let '(g, old) := attach_locked sid (s_device s) (s_kind s) g in
          (g, [APresence (mkPresence (s_device s) (s_kind s) true)], rest,
           match old with
           | Some o => [[AFail o CodeSuperseded "replaced by a newer connection"]]
           | None => []
           end)
      end
  | AWelcome sid =>
      match conns g !! sid with
      | None => (g, [], leave sid, [])
      | Some s =>
          let '(g, sent) := send ok sid (OWelcome (welcome idPrefix sid (s_device s) now)) g in
          (g, [], if sent : bool then rest else leave sid, [])
      end
  | AReplayWakes sid =>
      match conns g !! sid with
      | None => (g, [], rest, [])
      | Some s => let '(g, ws) := pendingFor (s_device s) now g in (g, map (ASendWake sid) ws, rest, [])
      end
  | AReplayCancels sid =>
      match conns g !! sid with
      | None => (g, [], rest, [])
      | Some s => let '(g, cs) := cancelsFor (s_device s) now g in (g, map (fun c => ASend sid (OCancel c)) cs, rest, [])
      end
  | ALoop sid => (g, [ALoop sid], rest, [])
  | ADetach sid =>
      match conns g !! sid with
      | None => (g, [], rest, [])
      | Some s =>
          let '(g, owned) := detach_locked sid (s_device s) (s_kind s) g in
          (g, if owned : bool then [APresence (mkPresence (s_device s) (s_kind s) false)] else [], rest, [])
      end
  end.

(** An accepted connection whose first read gave the verdict [v]: the session
    as its handler has filled it in, and what the handler does. *)
Definition accepted (v : verdict) (address : string) (now : Z) : session :=
  match v with
  | Admit h k => mkSession (DeviceID h) k now address (AppVersion h) false false ∅ []
  | _ => new_session
  end.

Definition handler (sid : Z) (v : verdict) : list action :=
  match v with
  | Drop => [AClose sid]
  | Refuse c msg => [AFail sid c msg; AClose sid]
  | Admit _ _ => [AAttach sid; AWelcome sid; AReplayWakes sid; AReplayCancels sid; ALoop sid]
  end.

(** What the other methods do once they have the lock's section behind them. *)
Definition wake_thread (d : string) (w : Wake) (targets : list Z) : list action := [AWake d w targets 0].
Definition cancel_thread (callID : string) (r : CancelReason) (targets : list Z) : list action :=
  map (fun sid => ASend sid (OCancel (mkWakeCancel callID r))) targets.
Definition DisconnectWith (msg : string) (targets : list Z) : list action := map (fun sid => AFail sid CodeUnauthorized msg) targets.
Definition Disconnect (targets : list Z) : list action := DisconnectWith "credential rotated; re-enrol" targets.
Definition NotifyConfig (c : DeviceConfig) (targets : list Z) : list action := map (fun sid => ASend sid (OConfig c)) targets.
Definition NotifyDirectory (v : Z) (targets : list Z) : list action :=
  map (fun sid => ASend sid (ODirectory (mkDirectoryChanged v))) targets.

End connection.
