(* ===== verification/GatewayStep.v ===== *)
(** The signal gateway as a system of goroutines (Gateway): callers of its
    methods and one handler per connection, interleaved between the lock's
    sections, the marks and the writes, with what one action can do to the
    connections and the tables. *)

From stdpp Require Import pretty.
From S2P Require Import Prelude Wire Interfaces Gateway.
Open Scope Z_scope.

Section system.
Context (cfg : GwConfig) {A : Type} `{DoorKeeper A} (DecodeHello : list Z -> option Hello)
  (DecodeAck : list Z -> option WakeAck) (idPrefix : string).

Record sys := mkSys { gw : Gateway; threads : list (list action); clock : Z; door : A }.

(** A call of a method: its section under the lock, then a goroutine with what
    it does after. *)
Definition call (s : sys) (g : Gateway) (l : list action) : sys := mkSys g (threads s ++ [l]) (clock s) (door s).

(** Some goroutine has an action with [P] ahead of it. *)
Definition comes (P : action -> Prop) (ths : list (list action)) : Prop := exists l a, l ∈ ths /\ a ∈ l /\ P a.

(** The action belongs to a [Wake] of this call of the device. *)
Definition wakes_call (d callID : string) (a : action) : Prop :=
  match a with
  | AWake d' w _ _ | AWakeSent d' w _ _ _ => d' = d /\ wake_CallID w = callID
  | _ => False
  end.

Inductive step : sys -> sys -> Prop :=
  | st_wake s d w targets : targets ≡ₚ snapshotLocked d (gw s) ->
      step s (call s (wake_locked d w (clock s) (gw s)) (wake_thread d w targets))
  | st_cancel s d callID r targets : targets ≡ₚ snapshotLocked d (gw s) ->
      (* the caller has its answer from [Wake] before it cancels *)
      ~ comes (wakes_call d callID) (threads s) ->
      step s (call s (cancel_locked d callID r (clock s) (gw s)) (cancel_thread callID r targets))
  | st_forget s d callID : step s (call s (forget_locked d callID (gw s)) [])
  | st_disconnect s d msg targets : targets ≡ₚ snapshotLocked d (gw s) ->
      step s (call s (gw s) (DisconnectWith msg targets))
  | st_config s d c targets : targets ≡ₚ snapshotLocked d (gw s) -> step s (call s (gw s) (NotifyConfig c targets))
  | st_directory s d v targets : targets ≡ₚ snapshotLocked d (gw s) -> step s (call s (gw s) (NotifyDirectory v targets))
  | st_accept s sid r address : sid = idSeq (gw s) + 1 -> conns (gw s) !! sid = None ->   (* ids are fresh *)
      let g := gw s in
      let v := handshake cfg DecodeHello (door s) r in
      step s (call s (mkGateway (sessions g) (pending g) (cancelled g) (<[sid := accepted v address (clock s)]> (conns g)) sid
                        (presence g) (acks g) (wakes g))
                (handler sid v))
  | st_ping s sid : step s (call s (gw s) [ASend sid OPing])
  | st_shutdown s sid : step s (call s (gw s) [AClose sid])
  | st_read s i sid ss ev g acts : threads s !! i = Some [ALoop sid] -> conns (gw s) !! sid = Some ss ->
      loop_step DecodeAck sid (s_device ss) ev (gw s) = (g, acts) ->
      step s (mkSys g (<[i := acts]> (threads s)) (clock s) (door s))
  | st_act s i ok a rest g new new' next spawned : threads s !! i = Some (a :: rest) ->
      (forall sid, a <> ALoop sid) ->
      act cfg idPrefix ok (clock s) a rest (gw s) = (g, new, next, spawned) -> new' ≡ₚ new ->
      step s (mkSys g (<[i := new' ++ next]> (threads s) ++ spawned) (clock s) (door s))
  | st_clock s t : clock s <= t -> step s (mkSys (gw s) (threads s) t (door s))
  | st_door s x : step s (mkSys (gw s) (threads s) (clock s) x).

Definition init (t : Z) (x : A) : sys := mkSys New [] t x.

(** ** Goroutines *)

(** What a goroutine of the gateway can look like. *)
Inductive shape : list action -> Prop :=
  | sh_done : shape []
  | sh_attach sid : shape [AAttach sid; AWelcome sid; AReplayWakes sid; AReplayCancels sid; ALoop sid]
  | sh_online ev sid : shape [APresence ev; AWelcome sid; AReplayWakes sid; AReplayCancels sid; ALoop sid]
  | sh_welcome sid : shape [AWelcome sid; AReplayWakes sid; AReplayCancels sid; ALoop sid]
  | sh_wakes sid : shape [AReplayWakes sid; AReplayCancels sid; ALoop sid]
  | sh_replay sid ws : Forall (fun a => exists w, a = ASendWake sid w \/ a = ASend sid (OWake w)) ws ->
      shape (ws ++ [AReplayCancels sid; ALoop sid])
  | sh_loop sid cs : Forall (fun a => (exists o, a = ASend sid o /\ forall w, o <> OWake w) \/ exists d x, a = AOnAck d x) cs ->
      shape (cs ++ [ALoop sid])
  | sh_leave l sid : Forall (fun a => match a with AFail _ _ _ | AClose _ | APresence _ => True | _ => False end) l ->
      shape (l ++ leave sid)
  | sh_end l : Forall (fun a => match a with AFail _ _ _ | AClose _ | APresence _ => True
                                | ASend _ (OWake _) => False | ASend _ _ => True | _ => False end) l -> shape l
  | sh_wake d w targets n : shape [AWake d w targets n]
  | sh_sent d w sid targets n : shape [AWakeSent d w sid targets n].

Lemma shape_tail l : Forall (fun a => match a with AFail _ _ _ | AClose _ | APresence _ => True | _ => False end) l ->
  shape l.
Proof. intros Hl. apply sh_end. eapply Forall_impl; [done|]. by intros []. Qed.

Lemma act_shape ok now a rest g g' new new' next spawned : shape (a :: rest) -> (forall sid, a <> ALoop sid) ->
  act cfg idPrefix ok now a rest g = (g', new, next, spawned) -> new' ≡ₚ new ->
  shape (new' ++ next) /\ Forall shape spawned.
Proof.
  intros Hs Hloop Ha Hp. inversion Hs as [Hx|sid|ev sid|sid|sid|sid ws Hws Hx|sid cs Hcs Hx|l sid Hl Hx|l Hl Hx|d w targets n|d w sid targets n];
    subst; cbn [act] in Ha.
  - destruct (conns g !! sid) as [ss|].
    + destruct (attach_locked _ _ _ _) as [g1 old] eqn:E. injection Ha as <- <- <- <-.
      apply Permutation_singleton_r in Hp as ->. split; [apply sh_online|]. destruct old; [|by constructor].
      apply Forall_singleton, sh_end. by repeat constructor.
    + injection Ha as <- <- <- <-. apply Permutation_nil_r in Hp as ->. split; [apply sh_welcome|by constructor].
  - injection Ha as <- <- <- <-. apply Permutation_nil_r in Hp as ->. split; [apply sh_welcome|by constructor].
  - destruct (conns g !! sid) as [ss|].
    + destruct (send _ _ _ _) as [g1 sent]. injection Ha as <- <- <- <-. apply Permutation_nil_r in Hp as ->.
      split; [|by constructor]. destruct sent; [apply sh_wakes|]. apply (sh_leave []). constructor.
    + injection Ha as <- <- <- <-. apply Permutation_nil_r in Hp as ->. split; [|by constructor]. apply (sh_leave []). constructor.
  - destruct (conns g !! sid) as [ss|].
    + destruct (pendingFor _ _ _) as [g1 l]. injection Ha as <- <- <- <-. split; [|by constructor].
      apply sh_replay. rewrite Hp. apply Forall_fmap, Forall_true. eauto.
    + injection Ha as <- <- <- <-. apply Permutation_nil_r in Hp as ->. split; [|by constructor]. by apply (sh_replay sid []).
  - destruct ws as [|x ws]; simpl in Hx; injection Hx as <- <-.
    + cbn [act] in Ha. destruct (conns g !! sid) as [ss|].
      * destruct (cancelsFor _ _ _) as [g1 l]. injection Ha as <- <- <- <-. split; [|by constructor].
        apply (sh_loop sid). rewrite Hp. apply Forall_fmap, Forall_true. intros c. left. by eexists.
      * injection Ha as <- <- <- <-. apply Permutation_nil_r in Hp as ->. split; [|by constructor]. by apply (sh_loop sid []).
    + apply Forall_cons in Hws as [(w&[->| ->]) Hws]; cbn [act] in Ha.
      * destruct (mark_wake _ _ _) as [g1 todo]. injection Ha as <- <- <- <-. split; [|by constructor].
        assert (Forall (fun a => exists w, a = ASendWake sid w \/ a = ASend sid (OWake w)) new') as Hn.
        { rewrite Hp. destruct todo; [|by constructor]. apply Forall_singleton. eauto. }
        rewrite app_assoc. apply sh_replay. by apply Forall_app.
      * injection Ha as <- <- <- <-. apply Permutation_nil_r in Hp as ->. split; [by apply sh_replay|by constructor].
  - destruct cs as [|x cs]; simpl in Hx; injection Hx as <- <-; [by destruct (Hloop sid)|].
    apply Forall_cons in Hcs as [[(o&->&_)|(d&y&->)] Hcs]; cbn [act] in Ha; injection Ha as <- <- <- <-;
      apply Permutation_nil_r in Hp as ->; (split; [by apply sh_loop|by constructor]).
  - destruct l as [|x l]; simpl in Hx; injection Hx as <- <-.
    + cbn [act] in Ha. destruct (conns g !! sid) as [ss|].
      * destruct (detach_locked _ _ _ _) as [g1 owned]. injection Ha as <- <- <- <-. split; [|by constructor].
        apply shape_tail, Forall_app. split; [|by repeat constructor]. rewrite Hp. destruct owned; by repeat constructor.
      * injection Ha as <- <- <- <-. apply Permutation_nil_r in Hp as ->. split; [|by constructor].
        apply shape_tail. by repeat constructor.
    + apply Forall_cons in Hl as [Hx Hl]. destruct x; try done; cbn [act] in Ha; injection Ha as <- <- <- <-;
        [apply Permutation_singleton_r in Hp as ->|apply Permutation_nil_r in Hp as ->..]; (split; [|by constructor]);
        [apply (sh_leave (_ :: l)); by constructor|by apply sh_leave..].
  - apply Forall_cons in Hl as [Hx Hl]. destruct a; try done; cbn [act] in Ha; injection Ha as <- <- <- <-;
      [apply Permutation_nil_r in Hp as ->|apply Permutation_singleton_r in Hp as ->|apply Permutation_nil_r in Hp as ->..];
      (split; [|by constructor]); apply sh_end; [done|by constructor|done|done].
  - destruct targets as [|t targets].
    + injection Ha as <- <- <- <-. apply Permutation_nil_r in Hp as ->. split; [apply sh_done|by constructor].
    + destruct (mark_wake _ _ _) as [g1 todo]. injection Ha as <- <- <- <-. apply Permutation_singleton_r in Hp as ->.
      split; [|by constructor]. destruct todo; [apply sh_sent|apply sh_wake].
  - destruct (send _ _ _ _) as [g1 sent]. injection Ha as <- <- <- <-. apply Permutation_singleton_r in Hp as ->.
    split; [apply sh_wake|by constructor].
Qed.

(** ** What an action does to a connection *)

(** The connection an action writes to, and what it may write. *)
Definition sends (a : action) : option (Z * (out -> Prop)) :=
  match a with
  | ASend sid o => Some (sid, fun o' => o' = o)
  | AWakeSent _ w sid _ _ => Some (sid, fun o' => o' = OWake w)
  | AFail sid c msg => Some (sid, fun o' => o' = error_frame c msg true)
  | AWelcome sid => Some (sid, fun o' => exists w, o' = OWelcome w)
  | _ => None
  end.

(** The connection an action marks, and the call. *)
Definition marks (a : action) : option (Z * string) :=
  match a with
  | ASendWake sid w | AWake _ w (sid :: _) _ => Some (sid, wake_CallID w)
  | _ => None
  end.

Definition same_owner (s s' : session) : Prop := s_device s' = s_device s /\ s_kind s' = s_kind s.

(** A usable connection after the action was one before, with one more frame if
    the action writes to it and one more mark if it marks it. *)
Definition act_on (a : action) (sid : Z) (s s' : session) : Prop :=
  same_owner s s' /\ (usable s' = true -> usable s = true
  /\ (match sends a with
      | Some (sid', P) => if decide (sid' = sid) then exists id o, P o /\ frames s' = frames s ++ [(id, o)] else frames s' = frames s
      | None => frames s' = frames s
      end)
  /\ (match marks a with
      | Some (sid', c) => if decide (sid' = sid) then sentWakes s' = {[c]} ∪ sentWakes s else sentWakes s' = sentWakes s
      | None => sentWakes s' = sentWakes s
      end)).

Lemma act_on_same a sid s : (forall p, sends a = Some p -> fst p <> sid) -> (forall p, marks a = Some p -> fst p <> sid) ->
  act_on a sid s s.
Proof.
  intros Hs Hm. split; [done|]. intros Hu. split; [done|]. split.
  - destruct (sends a) as [[sid' P]|]; [|done]. rewrite decide_False; [done|]. by apply (Hs (sid', P)).
  - destruct (marks a) as [[sid' c]|]; [|done]. rewrite decide_False; [done|]. by apply (Hm (sid', c)).
Qed.

Lemma send_conns ok sid o g g' sent : send ok sid o g = (g', sent) ->
  sessions g' = sessions g /\ pending g' = pending g /\ cancelled g' = cancelled g
  /\ forall k s, conns g !! k = Some s -> exists s', conns g' !! k = Some s' /\ same_owner s s'
      /\ sentWakes s' = sentWakes s
      /\ (usable s' = true -> usable s = true /\
          if decide (sid = k) then sent = true /\ exists id, frames s' = frames s ++ [(id, o)] else frames s' = frames s).
Proof.
  unfold send. destruct (conns g !! sid) as [s0|] eqn:E0.
  - unfold write. destruct (ok && usable s0) eqn:Eu; intros [= <- <-]; (split; [done|]); (split; [done|]); (split; [done|]);
      intros k s E; cbn [conns]; (destruct (decide (sid = k)) as [->|Hne];
        [rewrite lookup_insert_eq|rewrite lookup_insert_ne by done; by exists s]); rewrite E in E0; injection E0 as <-;
      (eexists; split; [done|]); (split; [done|]); (split; [done|]).
    + apply andb_true_iff in Eu as [_ Eu]. intros _. split; [done|]. split; [done|]. by eexists.
    + unfold usable. simpl. by rewrite andb_false_r.
  - intros [= <- <-]. do 3 (split; [done|]). intros k s E. exists s. split; [done|]. split; [done|]. split; [done|].
    intros Hu. split; [done|]. rewrite decide_False; [done|]. congruence.
Qed.

Lemma mark_conns sid c g g' todo : mark_wake sid c g = (g', todo) ->
  sessions g' = sessions g /\ pending g' = pending g /\ cancelled g' = cancelled g
  /\ (todo = false -> forall s, conns g !! sid = Some s -> c ∈ sentWakes s)
  /\ forall k s, conns g !! k = Some s -> exists s', conns g' !! k = Some s' /\ same_owner s s'
      /\ frames s' = frames s /\ usable s' = usable s
      /\ sentWakes s' = if decide (sid = k) then {[c]} ∪ sentWakes s else sentWakes s.
Proof.
  unfold mark_wake. destruct (conns g !! sid) as [s0|] eqn:E0.
  - destruct (decide (c ∈ sentWakes s0)) as [Hc|Hc]; intros [= <- <-]; (do 3 (split; [done|])); split.
    + intros _ s [= <-]. done.
    + intros k s E. exists s. do 4 (split; [done|]). destruct (decide (sid = k)) as [->|]; [|done].
      rewrite E in E0. injection E0 as <-. set_solver.
    + done.
    + intros k s E. cbn [conns update_session with_conns]. destruct (decide (sid = k)) as [->|Hne].
      * rewrite lookup_alter_eq, E. rewrite E in E0. by eexists.
      * rewrite lookup_alter_ne by done. by exists s.
  - intros [= <- <-]. do 3 (split; [done|]). split; [by intros _ s E|]. intros k s E. exists s.
    do 4 (split; [done|]). rewrite decide_False; [done|]. congruence.
Qed.

Lemma act_conns ok now a rest g g' new next spawned : act cfg idPrefix ok now a rest g = (g', new, next, spawned) ->
  forall k s, conns g !! k = Some s -> exists s', conns g' !! k = Some s' /\ act_on a k s s'.
Proof.
  intros Ha k s E. assert (forall g1, conns g1 = conns g -> sends a = None -> marks a = None ->
    exists s', conns g1 !! k = Some s' /\ act_on a k s s') as Hsame.
  { intros g1 Hg Hs Hm. exists s. rewrite Hg. split; [done|]. apply act_on_same; by rewrite ?Hs, ?Hm. }
  assert (forall sid o g1 sent (P : out -> Prop), send ok sid o g = (g1, sent) -> sends a = Some (sid, P) -> P o -> marks a = None ->
    exists s', conns g1 !! k = Some s' /\ act_on a k s s') as Hsend.
  { intros sid o g1 sent P Hg Hs HP Hm. destruct (send_conns _ _ _ _ _ _ Hg) as (_&_&_&Hc).
    destruct (Hc k s E) as (s'&E'&Ho&Hw&Hu). exists s'. split; [done|]. split; [done|]. rewrite Hs, Hm.
    intros U. destruct (Hu U) as [U0 Hf]. split; [done|]. split; [|done]. destruct (decide (sid = k)); [|done].
    destruct Hf as [_ [id Hf]]. by exists id, o. }
  assert (forall sid c g1 todo, mark_wake sid c g = (g1, todo) -> sends a = None -> marks a = Some (sid, c) ->
    exists s', conns g1 !! k = Some s' /\ act_on a k s s') as Hmark.
  { intros sid c g1 todo Hg Hs Hm. destruct (mark_conns _ _ _ _ _ Hg) as (_&_&_&_&Hc).
    destruct (Hc k s E) as (s'&E'&Ho&Hf&Hu&Hw). exists s'. split; [done|]. split; [done|]. rewrite Hs, Hm.
    rewrite Hu. intros U. split; [done|]. split; [done|]. by destruct (decide (sid = k)). }
  destruct a; cbn [act] in Ha.
  - injection Ha as <- <- <- <-. destruct (send ok sid o g) eqn:Es. by eapply Hsend.
  - destruct (mark_wake _ _ _) eqn:Em. injection Ha as <- <- <- <-. by eapply Hmark.
  - destruct targets as [|t ts]; [injection Ha as <- <- <- <-; by apply Hsame|].
    destruct (mark_wake _ _ _) eqn:Em. injection Ha as <- <- <- <-. by eapply Hmark.
  - destruct (send _ _ _ _) eqn:Es. injection Ha as <- <- <- <-. by eapply Hsend.
  - injection Ha as <- <- <- <-. destruct (send ok sid _ g) eqn:Es. by eapply Hsend.
  - injection Ha as <- <- <- <-. unfold close, update_session. cbn [with_conns conns]. destruct (decide (sid = k)) as [->|Hne].
    + rewrite lookup_alter_eq, E. eexists. split; [done|]. by split.
    + rewrite lookup_alter_ne by done. exists s. split; [done|]. by apply act_on_same.
  - injection Ha as <- <- <- <-. by apply Hsame.
  - injection Ha as <- <- <- <-. by apply Hsame.
  - destruct (conns g !! sid) as [ss|]; [|injection Ha as <- <- <- <-; by apply Hsame].
    unfold attach_locked in Ha. injection Ha as <- <- <- <-. by apply Hsame.
  - destruct (conns g !! sid) as [ss|] eqn:Ess.
    + destruct (send _ _ _ _) eqn:Es. injection Ha as <- <- <- <-. eapply Hsend; [done|done| |done]. by eexists.
    + injection Ha as <- <- <- <-. exists s. split; [done|]. apply act_on_same; simpl; [|done]. intros p [= <-]. simpl. congruence.
  - destruct (conns g !! sid) as [ss|]; injection Ha as <- <- <- <-; by apply Hsame.
  - destruct (conns g !! sid) as [ss|]; injection Ha as <- <- <- <-; by apply Hsame.
  - injection Ha as <- <- <- <-. by apply Hsame.
  - destruct (conns g !! sid) as [ss|]; [|injection Ha as <- <- <- <-; by apply Hsame].
    destruct (detach_locked _ _ _ _) as [g1 owned] eqn:Ed. injection Ha as <- <- <- <-. apply Hsame; try done.
    unfold detach_locked in Ed. by case_decide; injection Ed as <- <-.
Qed.

Lemma act_dom ok now a rest g g' new next spawned : act cfg idPrefix ok now a rest g = (g', new, next, spawned) ->
  forall k, is_Some (conns g' !! k) -> is_Some (conns g !! k).
Proof.
  intros Ha k. assert (forall sid f, is_Some (conns (update_session sid f g) !! k) -> is_Some (conns g !! k)) as Hup.
  { intros sid f. cbn. destruct (decide (sid = k)) as [->|]; [rewrite lookup_alter_eq; by destruct (conns g !! k)|by rewrite lookup_alter_ne]. }
  assert (forall ok sid o g1 b, send ok sid o g = (g1, b) -> is_Some (conns g1 !! k) -> is_Some (conns g !! k)) as Hsend.
  { intros ? sid o g1 b. unfold send. destruct (conns g !! sid) eqn:E; [|by intros [= <- _]].
    destruct (write _ _ _ _). intros [= <- _]. cbn. destruct (decide (sid = k)) as [->|]; [by rewrite E|by rewrite lookup_insert_ne]. }
  assert (forall sid c g1 b, mark_wake sid c g = (g1, b) -> is_Some (conns g1 !! k) -> is_Some (conns g !! k)) as Hmark.
  { intros sid c g1 b. unfold mark_wake. destruct (conns g !! sid); [case_decide|]; intros [= <- _]; [done|apply Hup|done]. }
  destruct a; cbn [act] in Ha; repeat case_match;
    lazymatch goal with
    | E : mark_wake _ _ _ = _ |- _ => injection Ha as <- <- <- <-; exact (Hmark _ _ _ _ E)
    | E : send _ _ _ _ = _ |- _ => injection Ha as <- <- <- <-; exact (Hsend _ _ _ _ _ E)
    | E : attach_locked _ _ _ _ = _ |- _ => injection E as <- _; by injection Ha as <- <- <- <-
    | E : detach_locked _ _ _ _ = _ |- _ =>
        injection Ha as <- <- <- <-; unfold detach_locked in E; case_decide; by simplify_eq/=
    | E : pendingFor _ _ _ = _ |- _ => injection E as <- <-; by injection Ha as <- <- <- <-
    | E : cancelsFor _ _ _ = _ |- _ => injection E as <- <-; by injection Ha as <- <- <- <-
    | _ => injection Ha as <- <- <- <-;
        first [done|apply Hup|destruct (send _ _ _ _) eqn:E; exact (Hsend _ _ _ _ _ E)]
    end.
Qed.

(** ** What an action does to the tables *)

Definition slot (g : Gateway) (d : string) (k : ClientKind) : option Z := get2 (sessions g) d k.

(** Only attaching and detaching touch the session table, and only the two
    replays the other tables. *)
Lemma act_tables ok now a rest g g' new next spawned : act cfg idPrefix ok now a rest g = (g', new, next, spawned) ->
  (match a with AAttach _ | ADetach _ => True | _ => sessions g' = sessions g end)
  /\ (match a with AReplayWakes _ => True | _ => pending g' = pending g end)
  /\ (match a with AReplayCancels _ => True | _ => cancelled g' = cancelled g end).
Proof.
  intros Ha.
  assert (forall ok sid o g1 b, send ok sid o g = (g1, b) ->
    sessions g1 = sessions g /\ pending g1 = pending g /\ cancelled g1 = cancelled g) as Hsend.
  { intros ??? g1 b Hg. by apply send_conns in Hg as (?&?&?&_). }
  assert (forall sid c g1 b, mark_wake sid c g = (g1, b) ->
    sessions g1 = sessions g /\ pending g1 = pending g /\ cancelled g1 = cancelled g) as Hmark.
  { intros ?? g1 b Hg. by apply mark_conns in Hg as (?&?&?&_). }
  destruct a; cbn [act] in Ha; repeat case_match;
    lazymatch goal with
    | E : mark_wake _ _ _ = _ |- _ => injection Ha as <- <- <- <-; by apply Hmark in E
    | E : send _ _ _ _ = _ |- _ => injection Ha as <- <- <- <-; by apply Hsend in E
    | E : attach_locked _ _ _ _ = _ |- _ => injection E as <- _; by injection Ha as <- <- <- <-
    | E : detach_locked _ _ _ _ = _ |- _ =>
        injection Ha as <- <- <- <-; unfold detach_locked in E; case_decide; by simplify_eq/=
    | E : pendingFor _ _ _ = _ |- _ => injection E as <- <-; by injection Ha as <- <- <- <-
    | E : cancelsFor _ _ _ = _ |- _ => injection E as <- <-; by injection Ha as <- <- <- <-
    | _ => injection Ha as <- <- <- <-;
        try done; destruct (send _ _ _ _) eqn:E; by apply Hsend in E
    end.
Qed.

Lemma act_sessions ok now a rest g g' new next spawned : act cfg idPrefix ok now a rest g = (g', new, next, spawned) ->
  forall d k sid, slot g' d k = Some sid ->
    (slot g d k = Some sid \/ a = AAttach sid /\ exists s, conns g !! sid = Some s /\ s_device s = d /\ s_kind s = k)
    /\ (a = ADetach sid -> forall s, conns g !! sid = Some s -> ~ (s_device s = d /\ s_kind s = k)).
Proof.
  intros Ha d k sid Hs. unfold slot in *. pose proof (act_tables _ _ _ _ _ _ _ _ _ Ha) as [Ht _].
  destruct a; try (rewrite Ht in Hs; split; [by left|done]); cbn [act] in Ha; clear Ht.
  - destruct (conns g !! sid0) as [ss|] eqn:Ec; [|injection Ha as <- <- <- <-; split; [by left|done]].
    unfold attach_locked in Ha. injection Ha as <- <- <- <-. split; [|done]. cbn [sessions with_sessions] in Hs.
    rewrite get2_insert2 in Hs. case_decide as Hd; [|by left]. injection Hs as <-. right. split; [done|].
    exists ss. destruct Hd. done.
  - destruct (conns g !! sid0) as [ss|] eqn:Ec.
    + destruct (detach_locked _ _ _ _) as [g1 owned] eqn:E. injection Ha as <- <- <- <-. unfold detach_locked in E.
      case_decide as Hd; injection E as <- <-.
      * cbn [sessions with_sessions] in Hs. rewrite get2_drop_empty, get2_delete2 in Hs. case_decide as Hx; [done|].
        split; [by left|]. intros [= ->] s Es. rewrite Es in Ec. by injection Ec as ->.
      * split; [by left|]. intros [= ->] s Es [<- <-]. rewrite Es in Ec. injection Ec as ->. done.
    + injection Ha as <- <- <- <-. split; [by left|]. intros [= ->] s Es. congruence.
Qed.

(** The entries of [pending] and [cancelled] only go away, and a replay takes up
    every one it leaves. *)
Lemma act_pending ok now a rest g g' new next spawned : act cfg idPrefix ok now a rest g = (g', new, next, spawned) ->
  forall d c w, get2 (pending g') d c = Some w -> get2 (pending g) d c = Some w
    /\ (forall sid s, a = AReplayWakes sid -> conns g !! sid = Some s -> s_device s = d -> ASendWake sid w ∈ new).
Proof.
  intros Ha d c w Hs. pose proof (act_tables _ _ _ _ _ _ _ _ _ Ha) as (_&Ht&_).
  destruct a; try (rewrite Ht in Hs; split; [done|done]); cbn [act] in Ha; clear Ht.
  destruct (conns g !! sid) as [ss|] eqn:Ec.
  - unfold pendingFor in Ha. injection Ha as <- <- <- <-. cbn [pending with_pending] in Hs.
    rewrite get2_drop_empty, get2_keep in Hs. case_decide as Hd.
    + subst d. unfold get2. unfold inner in Hs |- *. destruct (pending g !! s_device ss) as [i|] eqn:Ei; [|done]. simpl in Hs |- *.
      pose proof Hs as Hl. apply map_lookup_filter_Some in Hs as [Hs _]. split; [done|].
      intros sid' s [= <-] _ _. apply list_elem_of_fmap_2, list_elem_of_fmap. exists (c, w). split; [done|].
      by apply elem_of_map_to_list.
    + split; [done|]. intros sid' s [= <-] Es Hd'. rewrite Es in Ec. injection Ec as <-. done.
  - injection Ha as <- <- <- <-. split; [done|]. intros sid' s [= <-] Es. congruence.
Qed.

Lemma act_cancelled ok now a rest g g' new next spawned : act cfg idPrefix ok now a rest g = (g', new, next, spawned) ->
  forall d c r, get2 (cancelled g') d c = Some r -> get2 (cancelled g) d c = Some r
    /\ (forall sid s, a = AReplayCancels sid -> conns g !! sid = Some s -> s_device s = d ->
          ASend sid (OCancel (mkWakeCancel c (reason r))) ∈ new).
Proof.
  intros Ha d c r Hs. pose proof (act_tables _ _ _ _ _ _ _ _ _ Ha) as (_&_&Ht).
  destruct a; try (rewrite Ht in Hs; split; [done|done]); cbn [act] in Ha; clear Ht.
  destruct (conns g !! sid) as [ss|] eqn:Ec.
  - unfold cancelsFor in Ha. injection Ha as <- <- <- <-. cbn [cancelled with_cancelled] in Hs.
    rewrite get2_drop_empty, get2_keep in Hs. case_decide as Hd.
    + subst d. unfold get2. unfold inner in Hs |- *. destruct (cancelled g !! s_device ss) as [i|] eqn:Ei; [|done]. simpl in Hs |- *.
      pose proof Hs as Hl. apply map_lookup_filter_Some in Hs as [Hs _]. split; [done|].
      intros sid' s [= <-] _ _. apply list_elem_of_fmap. eexists. split; [done|]. apply list_elem_of_fmap.
      exists (c, r). split; [done|]. by apply elem_of_map_to_list.
    + split; [done|]. intros sid' s [= <-] Es Hd'. rewrite Es in Ec. injection Ec as <-. done.
  - injection Ha as <- <- <- <-. split; [done|]. intros sid' s [= <-] Es. congruence.
Qed.

(** ** Runs

    The choices of a scheduler, and the system they lead to. *)

Inductive choice :=
  | CWake (d : string) (w : Wake)
  | CCancel (d callID : string) (r : CancelReason)
  | CForget (d callID : string)
  | CDisconnect (d msg : string)
  | CAccept (r : first_read) (address : string)
  | CRead (i : nat) (ev : event)
  | CAct (i : nat) (ok : bool)
  | CClock (t : Z)
  | CDoor (x : A).

Definition wakes_callb (d c : string) (a : action) : bool :=
  match a with
  | AWake d' w _ _ | AWakeSent d' w _ _ _ => bool_decide (d' = d) && bool_decide (wake_CallID w = c)
  | _ => false
  end.

Definition is_loop (a : action) : option Z := match a with ALoop sid => Some sid | _ => None end.

Definition choose (c : choice) (s : sys) : option sys :=
  let g := gw s in
  match c with
  | CWake d w => Some (call s (wake_locked d w (clock s) g) (wake_thread d w (snapshotLocked d g)))
  | CCancel d c r =>
      if existsb (existsb (wakes_callb d c)) (threads s) then None
      else Some (call s (cancel_locked d c r (clock s) g) (cancel_thread c r (snapshotLocked d g)))
  | CForget d c => Some (call s (forget_locked d c g) [])
  | CDisconnect d msg => Some (call s g (DisconnectWith msg (snapshotLocked d g)))
  | CAccept r address =>
      let sid := idSeq g + 1 in
      let v := handshake cfg DecodeHello (door s) r in
      if conns g !! sid is Some _ then None
      else Some (call s (mkGateway (sessions g) (pending g) (cancelled g) (<[sid := accepted v address (clock s)]> (conns g)) sid
                           (presence g) (acks g) (wakes g)) (handler sid v))
  | CRead i ev =>
      match threads s !! i with
      | Some [ALoop sid] =>
          ss ← conns g !! sid;
          let '(g', acts) := loop_step DecodeAck sid (s_device ss) ev g in
          Some (mkSys g' (<[i := acts]> (threads s)) (clock s) (door s))
      | _ => None
      end
  | CAct i ok =>
      match threads s !! i with
      | Some (a :: rest) =>
          if is_loop a is Some _ then None else
          let '(g', new, next, spawned) := act cfg idPrefix ok (clock s) a rest g in
          Some (mkSys g' (<[i := new ++ next]> (threads s) ++ spawned) (clock s) (door s))
      | _ => None
      end
  | CClock t => if decide (clock s <= t) then Some (mkSys g (threads s) t (door s)) else None
  | CDoor x => Some (mkSys g (threads s) (clock s) x)
  end.

Fixpoint run (l : list choice) (s : sys) : option sys :=
  match l with [] => Some s | c :: l => s' ← choose c s; run l s' end.

Lemma wakes_callb_spec d c ths : existsb (existsb (wakes_callb d c)) ths = false -> ~ comes (wakes_call d c) ths.
Proof.
  intros Hf (l&a&Hl&Ha&Hw). assert (existsb (existsb (wakes_callb d c)) ths = true) as Ht; [|congruence].
  apply existsb_exists. exists l. rewrite <- list_elem_of_In. split; [done|]. apply existsb_exists. exists a.
  rewrite <- list_elem_of_In. split; [done|]. destruct a; try done; destruct Hw as [? ?]; cbn;
    by rewrite !bool_decide_eq_true_2.
Qed.

Lemma choose_step c s s' : choose c s = Some s' -> step s s'.
Proof.
  unfold choose. destruct c as [d w|d c r|d c|d msg|r address|i ev|i ok|t|x].
  - intros [= <-]. by apply st_wake.
  - destruct (existsb _ _) eqn:E; [done|]. intros [= <-]. apply st_cancel; [done|]. by apply wakes_callb_spec.
  - intros [= <-]. apply st_forget.
  - intros [= <-]. by apply st_disconnect with d.
  - destruct (conns (gw s) !! _) eqn:E; [done|]. intros [= <-]. by apply st_accept.
  - destruct (threads s !! i) as [[|[] [|]]|] eqn:E; try done. destruct (conns (gw s) !! sid) as [ss|] eqn:Ec; [|done].
    cbn. destruct (loop_step _ _ _ _ _) as [g' acts] eqn:El. intros [= <-]. by eapply st_read.
  - destruct (threads s !! i) as [[|a rest]|] eqn:E; try done. destruct (is_loop a) eqn:El; [done|].
    destruct (act _ _ _ _ _ _ _) as [[[g' new] next] spawned] eqn:Ea. intros [= <-].
    eapply st_act; eauto. by intros sid ->.
  - case_decide; [|done]. intros [= <-]. by apply st_clock.
  - intros [= <-]. apply st_door.
Qed.

Lemma run_steps l s s' : run l s = Some s' -> rtc step s s'.
Proof.
  revert s. induction l as [|c l IH]; intros s; cbn; [by intros [= ->]|].
  destruct (choose c s) as [s1|] eqn:E; [|done]. intros Hr. apply rtc_l with s1; [by eapply choose_step|by apply IH].
Qed.

End system.
