(* ===== verification/GatewayProps.v ===== *)
(** Properties of the signal gateway over every interleaving of its goroutines
    (GatewayStep), by rule induction: the session table names only connections
    whose handler runs, and a connection that is up is told every pending wake
    and every cancel. *)

From stdpp Require Import pretty.
From S2P Require Import Prelude Wire Interfaces Gateway GatewayStep.
Open Scope Z_scope.

(** ** The invariant *)

Definition is_wake (c : string) (o : out) : Prop := match o with OWake w => wake_CallID w = c | _ => False end.
Definition is_cancel (c : string) (o : out) : Prop := match o with OCancel x => cancel_CallID x = c | _ => False end.

#[export] Instance is_wake_dec c o : Decision (is_wake c o).
Proof. destruct o; cbn; apply _. Defined.
#[export] Instance is_cancel_dec c o : Decision (is_cancel c o).
Proof. destruct o; cbn; apply _. Defined.

(** What a client that reads the frames does about the call: it was woken, and
    it is left ringing. *)
Definition woken (c : string) (fs : list (Z * out)) : bool := existsb (fun f => bool_decide (is_wake c (snd f))) fs.
Definition rings (c : string) (fs : list (Z * out)) : bool :=
  fold_left (fun b f => if decide (is_wake c (snd f)) then true else if decide (is_cancel c (snd f)) then false else b) fs false.

Definition writes_wake (c : string) (sid : Z) (a : action) : Prop :=
  match a with
  | ASend s o => s = sid /\ is_wake c o
  | AWakeSent _ w s _ _ => s = sid /\ wake_CallID w = c
  | _ => False
  end.

Definition brings_wake (c : string) (sid : Z) (a : action) : Prop :=
  match a with
  | AReplayWakes s => s = sid
  | ASendWake s w => s = sid /\ wake_CallID w = c
  | AWake _ w ts _ => sid ∈ ts /\ wake_CallID w = c
  | AWakeSent _ w s ts _ => sid ∈ s :: ts /\ wake_CallID w = c
  | _ => writes_wake c sid a
  end.

Definition brings_cancel (c : string) (sid : Z) (a : action) : Prop :=
  match a with
  | AReplayCancels s => s = sid
  | ASend s o => s = sid /\ is_cancel c o
  | _ => False
  end.

Definition ends (sid : Z) (a : action) : Prop := a = ALoop sid \/ a = ADetach sid.

Definition conn_of (g : Gateway) (d : string) (sid : Z) : Prop := exists ss, conns g !! sid = Some ss /\ s_device ss = d.

Definition targets_ok (g : Gateway) (a : action) : Prop :=
  match a with
  | AWake d _ ts _ => Forall (conn_of g d) ts
  | AWakeSent d _ s ts _ => Forall (conn_of g d) (s :: ts)
  | _ => True
  end.

Record inv (g : Gateway) (ths : list (list action)) : Prop := {
  i_shape : Forall shape ths;
  i_key d c w : get2 (pending g) d c = Some w -> wake_CallID w = c;
  i_slot d k sid : slot g d k = Some sid -> exists ss, conns g !! sid = Some ss /\ s_device ss = d /\ s_kind ss = k;
  i_owner d k sid : slot g d k = Some sid -> comes (ends sid) ths;
  i_quiet d c r : get2 (cancelled g) d c = Some r -> ~ comes (wakes_call d c) ths;
  i_targets : Forall (Forall (targets_ok g)) ths;
  i_mark sid ss c : conns g !! sid = Some ss -> usable ss = true -> c ∈ sentWakes ss ->
    woken c (frames ss) = true \/ comes (writes_wake c sid) ths;
  i_wake d c w k sid ss : get2 (pending g) d c = Some w -> slot g d k = Some sid -> conns g !! sid = Some ss ->
    usable ss = true -> woken c (frames ss) = true \/ comes (brings_wake c sid) ths;
  i_cancel d c r k sid ss : get2 (cancelled g) d c = Some r -> slot g d k = Some sid -> conns g !! sid = Some ss ->
    usable ss = true -> rings c (frames ss) = false \/ comes (brings_cancel c sid) ths;
}.

Lemma woken_snoc c fs f : woken c (fs ++ [f]) = woken c fs || bool_decide (is_wake c (snd f)).
Proof. unfold woken. by rewrite existsb_app, orb_comm; simpl; rewrite orb_false_r, orb_comm. Qed.

Lemma rings_snoc c fs f : rings c (fs ++ [f]) =
  if decide (is_wake c (snd f)) then true else if decide (is_cancel c (snd f)) then false else rings c fs.
Proof. unfold rings. by rewrite fold_left_app. Qed.

(** A connection that was sent a wake of the call and no cancel of it rings. *)
Lemma woken_rings c fs : woken c fs = true -> Forall (fun f => ~ is_cancel c (snd f)) fs -> rings c fs = true.
Proof.
  induction fs as [|f fs IH] using rev_ind; [done|]. rewrite woken_snoc, rings_snoc, orb_true_iff. intros Hw [Hf [Hn _]%Forall_cons]%Forall_app.
  destruct (decide (is_wake c (snd f))) as [|Hk]; [done|]. rewrite decide_False by done. apply IH; [|done].
  destruct Hw as [Hw|Hw%bool_decide_eq_true_1]; done.
Qed.

Lemma writes_brings c sid a : writes_wake c sid a -> brings_wake c sid a.
Proof. destruct a; try done. intros [-> ?]. split; [|done]. by left. Qed.

(** The steps of a handler that [P] holds of are the handler's of [sid]. *)
Definition of_handler (sid : Z) (P : action -> Prop) : Prop :=
  forall b, P b -> match b with
    | AReplayWakes s | AReplayCancels s => s = sid
    | ALoop _ | ADetach _ | AAttach _ | AWelcome _ => False
    | _ => True
    end.

Lemma writes_wake_handler c sid : of_handler sid (writes_wake c sid).
Proof. by intros []. Qed.
Lemma brings_wake_handler c sid : of_handler sid (brings_wake c sid).
Proof. by intros []. Qed.
Lemma brings_cancel_handler c sid : of_handler sid (brings_cancel c sid).
Proof. by intros []. Qed.

(** *** What is ahead of the goroutines *)

Lemma comes_mono (P Q : action -> Prop) ths : (forall a, P a -> Q a) -> comes P ths -> comes Q ths.
Proof. intros HPQ (l&a&?&?&?). exists l, a. auto. Qed.

Lemma comes_app P ths l : comes P ths -> comes P (ths ++ l).
Proof. intros (x&a&?&?&?). exists x, a. split; [by apply elem_of_app; left|done]. Qed.

Lemma comes_new P ths l a : a ∈ l -> P a -> comes P (ths ++ [l]).
Proof. intros ??. exists l, a. split; [|done]. apply elem_of_app. right. by left. Qed.

Lemma comes_app_inv P ths l : comes P (ths ++ [l]) -> comes P ths \/ exists a, a ∈ l /\ P a.
Proof.
  intros (x&a&Hx&?&?). apply elem_of_app in Hx as [Hx|Hx]; [left; by exists x, a|].
  apply list_elem_of_singleton in Hx as ->. eauto.
Qed.

Lemma comes_put P (ths : list (list action)) i old l sp b : ths !! i = Some old -> b ∈ l -> P b -> comes P (<[i := l]> ths ++ sp).
Proof.
  intros Hi ??. exists l, b. split; [|done]. apply elem_of_app. left. apply list_elem_of_lookup. exists i.
  apply list_lookup_insert_eq. by eapply lookup_lt_Some.
Qed.

Lemma put_elim {B} (ths : list B) i l sp x : x ∈ <[i := l]> ths ++ sp -> x ∈ ths \/ x = l \/ x ∈ sp.
Proof.
  intros [Hx|?]%elem_of_app; [|by right; right]. apply list_elem_of_lookup in Hx as [j Hj].
  apply list_lookup_insert_Some in Hj as [(_&->&_)|[_ Hj]]; [by right; left|]. left. by apply list_elem_of_lookup_2 in Hj.
Qed.

(** What was ahead still is, was in the goroutine that moved. *)
Lemma comes_step P ths i old l sp : ths !! i = Some old -> comes P ths ->
  comes P (<[i := l]> ths ++ sp) \/ exists a, a ∈ old /\ P a.
Proof.
  intros Hi (x&a&Hx&?&?). apply list_elem_of_lookup in Hx as [j Hj]. destruct (decide (i = j)) as [->|Hne].
  - right. rewrite Hj in Hi. injection Hi as ->. eauto.
  - left. exists x, a. split; [|done]. apply elem_of_app. left. apply list_elem_of_lookup. exists j.
    by rewrite list_lookup_insert_ne.
Qed.


Lemma shape_welcome sid rest : shape (AWelcome sid :: rest) -> rest = [AReplayWakes sid; AReplayCancels sid; ALoop sid].
Proof.
  inversion 1 as [| | | | |? [|x l] Hl Hx|? [|x l] Hl Hx|[|x l] ? Hl Hx|l Hl| |]; subst; try done; simplify_eq/=;
    apply Forall_cons in Hl as [Hl _]; naive_solver.
Qed.

Lemma shape_attach sid rest : shape (AAttach sid :: rest) ->
  rest = [AWelcome sid; AReplayWakes sid; AReplayCancels sid; ALoop sid].
Proof.
  inversion 1 as [| | | | |? [|x l] Hl Hx|? [|x l] Hl Hx|[|x l] ? Hl Hx|l Hl| |]; subst; try done; simplify_eq/=;
    apply Forall_cons in Hl as [Hl _]; naive_solver.
Qed.

Lemma shape_wake sid w rest : shape (ASend sid (OWake w) :: rest) -> AReplayCancels sid ∈ rest.
Proof.
  inversion 1 as [| | | | |? [|x l] Hl Hx|? [|x l] Hl Hx|[|x l] ? Hl Hx|l Hl| |]; subst; try done; simplify_eq/=;
    apply Forall_cons in Hl as [Hl _].
  - destruct Hl as (w'&[|[= <- _]]); [done|]. set_solver.
  - destruct Hl as [(o&[= _ <-]&Ho)|(?&?&?)]; [|done]. by destruct (Ho w).
  - done.
  - done.
Qed.

Lemma conn_mono (g g' : Gateway) d sid : (forall s, conns g !! sid = Some s -> exists s', conns g' !! sid = Some s' /\ same_owner s s') ->
  conn_of g d sid -> conn_of g' d sid.
Proof. intros Hc (s&E&<-). destruct (Hc s E) as (s'&E'&Hd&_). by exists s'. Qed.

Lemma targets_mono (g g' : Gateway) b :
  (forall sid s, conns g !! sid = Some s -> exists s', conns g' !! sid = Some s' /\ same_owner s s') ->
  targets_ok g b -> targets_ok g' b.
Proof. intros Hc. destruct b; try done; cbn; intros Hf; (eapply Forall_impl; [exact Hf|]); intros; eapply conn_mono; eauto. Qed.

Lemma writes_wake_inv c sid a : writes_wake c sid a ->
  (exists w, a = ASend sid (OWake w)) \/ exists d w ts n, a = AWakeSent d w sid ts n /\ wake_CallID w = c.
Proof.
  destruct a; try done; intros [-> Hw]; [left|right; eauto 6]. destruct o; try done. eauto.
Qed.

Lemma brings_cancel_inv c sid a : brings_cancel c sid a ->
  a = AReplayCancels sid \/ exists o, a = ASend sid o /\ is_cancel c o.
Proof. destruct a; try done; [intros [-> Hw]; right; eauto|intros ->; by left]. Qed.

(** *** One action *)

Section action.
Context (cfg : GwConfig) {A : Type} `{DoorKeeper A} (idPrefix : string).
Context (ok : bool) (now : Z) (a : action) (rest : list action) (g g' : Gateway) (new new' next : list action)
  (spawned ths : list (list action)) (i : nat).
Hypothesis Hinv : inv g ths.
Hypothesis Hi : ths !! i = Some (a :: rest).
Hypothesis Hloop : forall sid, a <> ALoop sid.
Hypothesis Hact : act cfg idPrefix ok now a rest g = (g', new, next, spawned).
Hypothesis Hnew : new' ≡ₚ new.

Local Abbreviation ths' := (<[i := new' ++ next]> ths ++ spawned).

Lemma this_shape : shape (a :: rest).
Proof. eapply Forall_forall; [apply (i_shape _ _ Hinv)|]. by eapply list_elem_of_lookup_2. Qed.

Lemma next_shape : shape (new' ++ next) /\ Forall shape spawned.
Proof. eapply act_shape; eauto using this_shape. Qed.

(** What followed the action still does, but for a welcome that failed: its
    connection is done with. *)
Lemma act_next : next = rest \/ exists sid, a = AWelcome sid /\ next = leave sid
  /\ forall s', conns g' !! sid = Some s' -> usable s' = false.
Proof.
  pose proof Hact as Ha. destruct a; cbn [act] in Ha; repeat case_match; injection Ha as <- <- <- <-; try by left.
  - right. eexists. split; [done|]. split; [done|]. intros s' Es. 
    match goal with E : send _ _ _ _ = _ |- _ => apply send_conns in E as (_&_&_&Hc) end.
    match goal with E : conns g !! _ = Some _ |- _ => destruct (Hc _ _ E) as (s2&E2&_&_&Hu) end.
    rewrite Es in E2. injection E2 as <-. destruct (usable s'); [|done]. destruct (Hu eq_refl) as [_ Hx].
    rewrite decide_True in Hx by done. by destruct Hx.
  - right. eexists. split; [done|]. split; [done|]. intros s' Es. congruence.
Qed.

(** What was ahead for a usable connection and is not the action itself. *)
Lemma comes_act (P : action -> Prop) sid s' : conns g' !! sid = Some s' -> usable s' = true ->
  of_handler sid P ->
  comes P ths -> comes P ths' \/ P a.
Proof.
  intros Es Hu HP Hc. destruct (comes_step P ths i _ (new' ++ next) spawned Hi Hc) as [?|(b&Hb&Hp)]; [by left|].
  apply elem_of_cons in Hb as [->|Hb]; [by right|]. left.
  destruct act_next as [E|(x&Ea&_&Hx)].
  - apply (comes_put _ _ i _ _ _ b Hi); [|done]. rewrite E. apply elem_of_app. by right.
  - pose proof this_shape as Hs. rewrite Ea in Hs. apply shape_welcome in Hs. rewrite Hs in Hb.
    assert (sid = x) as ->; [|by rewrite (Hx _ Es) in Hu]. specialize (HP b Hp).
    repeat (apply elem_of_cons in Hb as [->|Hb]; [done|]). by apply not_elem_of_nil in Hb.
Qed.

Lemma put_new (P : action -> Prop) b : b ∈ new -> P b -> comes P ths'.
Proof.
  intros Hb Hp. apply (comes_put _ _ i _ _ _ b Hi); [|done]. apply elem_of_app. left. by rewrite Hnew.
Qed.

Lemma old_conn sid s' : conns g' !! sid = Some s' -> exists s, conns g !! sid = Some s /\ act_on a sid s s'.
Proof.
  intros E'. destruct (act_dom _ _ _ _ _ _ _ _ _ _ _ Hact sid) as [s E]; [by eexists|]. exists s. split; [done|]. destruct (act_conns _ _ _ _ _ _ _ _ _ _ _ Hact sid s E) as (s2&E2&Ho).
  rewrite E' in E2. by injection E2 as <-.
Qed.

Lemma conns_persist sid s : conns g !! sid = Some s -> exists s', conns g' !! sid = Some s' /\ same_owner s s'.
Proof. intros E. destruct (act_conns _ _ _ _ _ _ _ _ _ _ _ Hact sid s E) as (s'&E'&Ho&_). by exists s'. Qed.

Lemma act_slot d k sid : slot g' d k = Some sid -> exists ss, conns g' !! sid = Some ss /\ s_device ss = d /\ s_kind ss = k.
Proof.
  intros Hs. destruct (act_sessions _ _ _ _ _ _ _ _ _ _ _ Hact d k sid Hs) as [Ho _].
  assert (exists s, conns g !! sid = Some s /\ s_device s = d /\ s_kind s = k) as (s&E&<-&<-).
  { destruct Ho as [Ho|[_ ?]]; [|done]. by apply (i_slot _ _ Hinv). }
  destruct (conns_persist sid s E) as (s'&E'&Ho'); eauto.
Qed.

Lemma act_owner d k sid : slot g' d k = Some sid -> comes (ends sid) ths'.
Proof.
  intros Hs. destruct (act_sessions _ _ _ _ _ _ _ _ _ _ _ Hact d k sid Hs) as [[Ho|[Ea _]] Hd].
  - destruct (comes_step _ ths i _ (new' ++ next) spawned Hi (i_owner _ _ Hinv d k sid Ho)) as [?|(b&Hb&Hp)]; [done|].
    apply elem_of_cons in Hb as [->|Hb].
    + exfalso. destruct Hp as [Hp|Hp]; [by apply (Hloop sid)|].
      destruct (i_slot _ _ Hinv d k sid Ho) as (ss&E&Hk). by apply (Hd Hp ss E).
    + destruct act_next as [E|(x&Ea&E&_)].
      * apply (comes_put _ _ i _ _ _ b Hi); [|done]. rewrite E. apply elem_of_app. by right.
      * pose proof this_shape as Hsh. rewrite Ea in Hsh. apply shape_welcome in Hsh. rewrite Hsh in Hb.
        apply (comes_put _ _ i _ _ _ (ADetach x) Hi); [rewrite E; apply elem_of_app; right; by left|].
        repeat (apply elem_of_cons in Hb as [->|Hb]; [by destruct Hp as [[=]|[=]]; subst; right|]).
        by apply not_elem_of_nil in Hb.
  - apply (comes_put _ _ i _ _ _ (ALoop sid) Hi); [|by left]. pose proof this_shape as Hsh. rewrite Ea in Hsh.
    apply shape_attach in Hsh. destruct act_next as [E|(x&Ea'&_)]; [|congruence].
    rewrite E, Hsh. apply elem_of_app. right. set_solver.
Qed.

Lemma act_brings_targets b : b ∈ new ++ next -> (forall d c, wakes_call d c b -> wakes_call d c a \/ b ∈ rest)
  /\ (Forall (targets_ok g) (a :: rest) -> targets_ok g b).
Proof.
  intros Hb. assert (b ∈ rest -> (forall d c, wakes_call d c b -> wakes_call d c a \/ b ∈ rest)
  /\ (Forall (targets_ok g) (a :: rest) -> targets_ok g b)) as Hrest.
  { intros Hr. split; [by right|]. intros [_ Hf]%Forall_cons. by eapply Forall_forall in Hf. }
  pose proof Hact as Ha. destruct a; cbn [act] in Ha; repeat case_match; injection Ha as <- <- <- <-; subst;
    repeat (apply elem_of_app in Hb as [Hb|Hb]); try (by apply Hrest); try (by apply not_elem_of_nil in Hb);
    try (apply list_elem_of_fmap in Hb as (?&->&_); split; [done|by intros _]);
    repeat (apply elem_of_cons in Hb as [->|Hb]); try (by apply not_elem_of_nil in Hb); (split; [cbn; by left|]);
    try (by intros _); intros [Hf _]%Forall_cons; cbn in Hf |- *; first [done|by apply Forall_cons in Hf as [_ Hf]].
Qed.

Lemma act_spawned b l : l ∈ spawned -> b ∈ l -> (forall d c, ~ wakes_call d c b) /\ targets_ok g b.
Proof.
  intros Hl Hb. pose proof Hact as Ha. destruct a; cbn [act] in Ha; repeat case_match; injection Ha as <- <- <- <-;
    try (by apply not_elem_of_nil in Hl). apply list_elem_of_singleton in Hl as ->. apply list_elem_of_singleton in Hb as ->.
  split; [by intros ?? ?|done].
Qed.

Lemma act_quiet d c r : get2 (cancelled g') d c = Some r -> ~ comes (wakes_call d c) ths'.
Proof.
  intros Hc. destruct (act_cancelled _ _ _ _ _ _ _ _ _ _ _ Hact d c r Hc) as [Hc' _].
  intros (l&b&Hl&Hb&Hw). apply (i_quiet _ _ Hinv d c r Hc'). apply put_elim in Hl as [Hl|[->|Hl]].
  - by exists l, b.
  - assert (b ∈ new ++ next) as Hb' by (by rewrite <- Hnew).
    exists (a :: rest). destruct (act_brings_targets b Hb') as [Hx _]. apply list_elem_of_lookup_2 in Hi.
    destruct (Hx d c Hw); [exists a|exists b]; (split; [done|]); (split; [|done]); [by left|by right].
  - destruct (act_spawned b l Hl Hb) as [Hx _]. by apply Hx in Hw.
Qed.

Lemma act_targets : Forall (Forall (targets_ok g')) ths'.
Proof.
  apply Forall_forall. intros l Hl. apply Forall_forall. intros b Hb. apply (targets_mono g); [apply conns_persist|].
  pose proof (i_targets _ _ Hinv) as Ht. rewrite Forall_forall in Ht. apply put_elim in Hl as [Hl|[->|Hl]].
  - specialize (Ht l Hl). by rewrite Forall_forall in Ht; apply Ht.
  - apply (act_brings_targets b); [by rewrite <- Hnew|]. apply Ht. by eapply list_elem_of_lookup_2.
  - by apply (act_spawned b l).
Qed.

Lemma act_marks sid c s : marks a = Some (sid, c) -> conns g !! sid = Some s ->
  c ∈ sentWakes s \/ exists b, b ∈ new /\ writes_wake c sid b.
Proof.
  intros Hm Es. pose proof Hact as Ha. destruct a as [|s0 w|d w [|s0 ts] n| | | | | | | | | | |]; try done;
    injection Hm as -> <-; cbn [act] in Ha; destruct (mark_wake _ _ _) as [g1 []] eqn:Em; injection Ha as <- <- <- <-;
    try (left; apply mark_conns in Em as (_&_&_&Hc&_); by apply Hc); right; eexists; (split; [by left|]); done.
Qed.

Lemma act_frames sid s s' : act_on a sid s s' -> usable s' = true -> exists fs, frames s' = frames s ++ fs.
Proof.
  intros [_ Ho] Hu. destruct (Ho Hu) as (_&Hf&_). destruct (sends a) as [[x P]|]; [case_decide|].
  - destruct Hf as (id&o&_&Hf). eauto.
  - exists []. by rewrite app_nil_r.
  - exists []. by rewrite app_nil_r.
Qed.

Lemma act_woken c sid s s' : act_on a sid s s' -> usable s' = true -> woken c (frames s) = true -> woken c (frames s') = true.
Proof.
  intros Ho Hu Hw. destruct (act_frames sid s s' Ho Hu) as [fs ->]. unfold woken in *. by rewrite existsb_app, Hw.
Qed.

Lemma act_writes c sid s s' : act_on a sid s s' -> usable s' = true -> writes_wake c sid a -> woken c (frames s') = true.
Proof.
  intros [_ Ho] Hu Hw. destruct (Ho Hu) as (_&Hf&_). destruct a; try done; destruct Hw as [-> Hw]; cbn in Hf;
    rewrite decide_True in Hf by done; destruct Hf as (id&o'&->&->); rewrite woken_snoc, orb_true_iff; right;
    by apply bool_decide_eq_true.
Qed.

Lemma act_marked sid s' c : conns g' !! sid = Some s' -> usable s' = true -> c ∈ sentWakes s' ->
  woken c (frames s') = true \/ comes (writes_wake c sid) ths'.
Proof.
  intros E' Hu Hc. destruct (old_conn sid s' E') as (s&E&Ho). pose proof Ho as [_ Hx]. destruct (Hx Hu) as (Hu0&_&Hm).
  assert (c ∈ sentWakes s \/ marks a = Some (sid, c)) as [Hs|Hs].
  { destruct (marks a) as [[x c']|] eqn:Em; [case_decide as Hd|]; rewrite Hm in Hc; [|by left|by left].
    apply elem_of_union in Hc as [Hc|Hc]; [right|by left]. apply elem_of_singleton in Hc. by subst. }
  - destruct (i_mark _ _ Hinv sid s c E Hu0 Hs) as [Hw|Hw]; [left; by eapply act_woken|].
    destruct (comes_act _ sid s' E' Hu (writes_wake_handler c sid) Hw) as [?|Hw']; [by right|]. left. by eapply act_writes.
  - destruct (act_marks sid c s Hs E) as [Hs'|(b&Hb&Hw)].
    + destruct (i_mark _ _ Hinv sid s c E Hu0 Hs') as [Hw|Hw]; [left; by eapply act_woken|].
      destruct (comes_act _ sid s' E' Hu (writes_wake_handler c sid) Hw) as [?|Hw']; [by right|]. left. by eapply act_writes.
    + right. by apply (put_new _ b).
Qed.

Lemma act_wake_rest c sid : brings_wake c sid a -> is_Some (conns g !! sid) ->
  (exists x, sends a = Some (sid, x) /\ writes_wake c sid a) \/ marks a = Some (sid, c)
  \/ a = AReplayWakes sid \/ exists b, b ∈ new /\ brings_wake c sid b.
Proof.
  intros Hb _. pose proof Hact as Ha. destruct a; try done; cbn in Hb.
  - destruct Hb as [-> Hb]. left. eexists. split; [reflexivity|by split].
  - destruct Hb as [-> <-]. by right; left.
  - destruct targets as [|s0 ts]; [by destruct Hb as [Hb%not_elem_of_nil _]|]. destruct Hb as [Hb <-].
    apply elem_of_cons in Hb as [->|Hb]; [by right; left|]. right. right. right.
    cbn [act] in Ha. destruct (mark_wake _ _ _) as [g1 todo]. injection Ha as <- <- <- <-.
    destruct todo; eexists; (split; [by left|]); cbn; (split; [|done]); [by right|done].
  - destruct Hb as [Hb <-]. apply elem_of_cons in Hb as [->|Hb]; [left; eexists; split; [reflexivity|by split]|]. right. right. right.
    cbn [act] in Ha. destruct (send _ _ _ _) as [g1 sent]. injection Ha as <- <- <- <-.
    eexists. split; [by left|]. done.
  - subst sid0. by right; right; left.
Qed.

(** The slot held the connection before, or its handler has just attached. *)
Lemma slot_before d k sid s' : slot g' d k = Some sid -> conns g' !! sid = Some s' ->
  exists s, conns g !! sid = Some s /\ s_device s = d /\ act_on a sid s s'
    /\ (slot g d k = Some sid \/ next = [AWelcome sid; AReplayWakes sid; AReplayCancels sid; ALoop sid]).
Proof.
  intros Hs E'. destruct (old_conn sid s' E') as (s&E&Ho). exists s. split; [done|].
  destruct (act_sessions _ _ _ _ _ _ _ _ _ _ _ Hact d k sid Hs) as [[Hb|(Ea&s2&E2&<-&_)] _].
  - destruct (i_slot _ _ Hinv d k sid Hb) as (s2&E2&<-&_). rewrite E in E2. injection E2 as <-. auto.
  - rewrite E in E2. injection E2 as <-. split; [done|]. split; [done|]. right.
    pose proof this_shape as Hsh. rewrite Ea in Hsh. apply shape_attach in Hsh.
    destruct act_next as [En|(x&Ea'&_)]; [by rewrite En|congruence].
Qed.

Lemma act_i_wake d c w k sid s' : get2 (pending g') d c = Some w -> slot g' d k = Some sid -> conns g' !! sid = Some s' ->
  usable s' = true -> woken c (frames s') = true \/ comes (brings_wake c sid) ths'.
Proof.
  intros Hp Hs E' Hu. destruct (slot_before d k sid s' Hs E') as (s&E&Hd&Ho&Hb).
  destruct (act_pending _ _ _ _ _ _ _ _ _ _ _ Hact d c w Hp) as [Hp0 Hr].
  destruct Hb as [Hb|Hb].
  2:{ right. apply (comes_put _ _ i _ _ _ (AReplayWakes sid) Hi); [|done]. rewrite Hb. apply elem_of_app. right. set_solver. }
  pose proof Ho as [_ Hx]. destruct (Hx Hu) as (Hu0&_&Hm).
  destruct (i_wake _ _ Hinv d c w k sid s Hp0 Hb E Hu0) as [Hw|Hw]; [left; by eapply act_woken|].
  destruct (comes_act _ sid s' E' Hu (brings_wake_handler c sid) Hw) as [?|Hw']; [by right|].
  destruct (act_wake_rest c sid Hw' ltac:(by eexists)) as [[x [_ ?]]|[Ha|[Ha|(b&Hb'&?)]]].
  - left. by eapply act_writes.
  - rewrite Ha, decide_True in Hm by done.
    destruct (act_marked sid s' c E' Hu) as [?|?]; [set_solver|by left|right]. eapply comes_mono; [apply writes_brings|done].
  - right. apply (put_new _ (ASendWake sid w)); [by eapply Hr|]. split; [done|]. by eapply i_key.
  - right. by apply (put_new _ b).
Qed.

(** A wake written while its cancel is remembered is a replay, and the replay of
    the cancels follows. *)
Lemma act_wake_written d c r sid s : get2 (cancelled g) d c = Some r -> conns g !! sid = Some s -> s_device s = d ->
  writes_wake c sid a -> comes (brings_cancel c sid) ths'.
Proof.
  intros Hr E Hd [(w&Ea)|(d'&w&ts&n&Ea&Hw)]%writes_wake_inv.
  - pose proof this_shape as Hs. rewrite Ea in Hs. apply shape_wake in Hs.
    apply (comes_put _ _ i _ _ _ (AReplayCancels sid) Hi); [|done]. apply elem_of_app. right.
    destruct act_next as [->|(?&Ea'&_)]; [done|congruence].
  - exfalso. apply (i_quiet _ _ Hinv d c r Hr). exists (a :: rest), a.
    split; [by eapply list_elem_of_lookup_2|]. split; [by left|].
    pose proof (i_targets _ _ Hinv) as Ht. rewrite Forall_forall in Ht.
    specialize (Ht _ (list_elem_of_lookup_2 _ _ _ Hi)). apply Forall_cons in Ht as [Ht _].
    rewrite Ea in Ht |- *. apply Forall_cons in Ht as [(s2&E2&<-) _]. rewrite E in E2. injection E2 as <-. done.
Qed.

Lemma act_rings d c r sid s s' : get2 (cancelled g) d c = Some r -> conns g !! sid = Some s -> s_device s = d ->
  act_on a sid s s' -> usable s' = true ->
  comes (brings_cancel c sid) ths' \/ rings c (frames s') = false
  \/ rings c (frames s') = rings c (frames s) /\ ~ (exists o, a = ASend sid o /\ is_cancel c o).
Proof.
  intros Hr E Hd [_ Ho] Hu. destruct (Ho Hu) as (_&Hf&_). clear Ho.
  assert ((forall P, sends a <> Some (sid, P)) -> frames s' = frames s) as Hsame.
  { intros Hn. destruct (sends a) as [[x P]|]; [case_decide|]; [|done|done]. subst x. by destruct (Hn P). }
  destruct (sends a) as [[x P]|] eqn:Es; [destruct (decide (x = sid)) as [->|Hne]|].
  - destruct Hf as (id&o&HP&Hf). rewrite Hf, rings_snoc. simpl.
    destruct (decide (is_wake c o)) as [Hw|Hw].
    { left. eapply act_wake_written; eauto. clear -Es HP Hw. destruct a; try done; injection Es as -> <-; subst; try done.
      by destruct HP as [? ->]. }
    destruct (decide (is_cancel c o)) as [Hc|Hc]; [by right; left|]. right. right. split; [done|].
    intros (o2&Ea&Hc2). rewrite Ea in Es. injection Es as <-. by subst.
  - right. right. rewrite Hsame by (intros P' [= Hx _]; done). split; [done|]. intros (o&Ea&_). rewrite Ea in Es. by injection Es as ->.
  - right. right. rewrite Hsame by done. split; [done|]. intros (o&Ea&_). by rewrite Ea in Es.
Qed.

Lemma act_i_cancel d c r k sid s' : get2 (cancelled g') d c = Some r -> slot g' d k = Some sid -> conns g' !! sid = Some s' ->
  usable s' = true -> rings c (frames s') = false \/ comes (brings_cancel c sid) ths'.
Proof.
  intros Hp Hs E' Hu. destruct (slot_before d k sid s' Hs E') as (s&E&Hd&Ho&Hb).
  destruct (act_cancelled _ _ _ _ _ _ _ _ _ _ _ Hact d c r Hp) as [Hp0 Hr].
  destruct Hb as [Hb|Hb].
  2:{ right. apply (comes_put _ _ i _ _ _ (AReplayCancels sid) Hi); [|done]. rewrite Hb. apply elem_of_app. right. set_solver. }
  pose proof Ho as [_ Hx]. destruct (Hx Hu) as (Hu0&_&_). clear Hx.
  destruct (act_rings d c r sid s s' Hp0 E Hd Ho Hu) as [?|[?|[Hf Hn]]]; [by right|by left|].
  destruct (i_cancel _ _ Hinv d c r k sid s Hp0 Hb E Hu0) as [Hw|Hw]; [left; by rewrite Hf|]. right.
  destruct (comes_act _ sid s' E' Hu (brings_cancel_handler c sid) Hw) as [?|Hw']; [done|].
  apply brings_cancel_inv in Hw' as [Ea|?]; [|done].
  apply (put_new _ (ASend sid (OCancel (mkWakeCancel c (reason r))))); [by eapply Hr|by split].
Qed.

End action.

(** *** A goroutine more *)

Lemma comes_more (P : action -> Prop) ths l b : b ∈ l -> P b -> comes P (ths ++ [l]).
Proof. apply comes_new. Qed.

Lemma inv_add g g' ths l : inv g ths ->
  sessions g' = sessions g ->
  (forall sid s, conns g !! sid = Some s -> conns g' !! sid = Some s) ->
  (forall sid s, conns g' !! sid = Some s -> conns g !! sid = Some s \/ conns g !! sid = None /\ sentWakes s = ∅) ->
  shape l -> Forall (targets_ok g') l ->
  (forall d c w, get2 (pending g') d c = Some w -> get2 (pending g) d c = Some w
     \/ wake_CallID w = c /\ forall k sid, slot g d k = Some sid -> exists b, b ∈ l /\ brings_wake c sid b) ->
  (forall d c r, get2 (cancelled g') d c = Some r -> (forall b, b ∈ l -> ~ wakes_call d c b)
     /\ (get2 (cancelled g) d c = Some r \/ ~ comes (wakes_call d c) ths
         /\ forall k sid, slot g d k = Some sid -> exists b, b ∈ l /\ brings_cancel c sid b)) ->
  inv g' (ths ++ [l]).
Proof.
  intros I Es Hmono Hnew Hsh Ht Hp Hc. unfold slot in *. split; unfold slot; rewrite ?Es.
  - apply Forall_app. split; [by apply i_shape in I|by constructor].
  - intros d c w Hw. destruct (Hp d c w Hw) as [Hw'|[? _]]; [by eapply i_key|done].
  - intros d k sid Hs. destruct (i_slot _ _ I d k sid Hs) as (ss&E&?). eauto.
  - intros d k sid Hs. by eapply comes_app, (i_owner _ _ I).
  - intros d c r Hr [Hw|(b&Hb&Hw)]%comes_app_inv; destruct (Hc d c r Hr) as [Hl [Hr'|[Hn _]]]; try done.
    + by apply (i_quiet _ _ I d c r).
    + by apply (Hl b).
    + by apply (Hl b).
  - apply Forall_app. split; [|by constructor]. eapply Forall_impl; [apply (i_targets _ _ I)|]. intros x Hx.
    eapply Forall_impl; [exact Hx|]. intros b. apply targets_mono. intros sid s E. exists s. split; [auto|done].
  - intros sid ss c E Hu Hm. destruct (Hnew sid ss E) as [E0|[_ E0]]; [|rewrite E0 in Hm; set_solver].
    destruct (i_mark _ _ I sid ss c E0 Hu Hm); [by left|right; by apply comes_app].
  - intros d c w k sid ss Hw Hs E Hu. destruct (i_slot _ _ I d k sid Hs) as (s2&E2&_).
    rewrite (Hmono _ _ E2) in E. injection E as ->. destruct (Hp d c w Hw) as [Hw'|[_ Hb]].
    + destruct (i_wake _ _ I d c w k sid ss Hw' Hs E2 Hu); [by left|right; by apply comes_app].
    + destruct (Hb k sid Hs) as (b&?&?). right. by eapply comes_new.
  - intros d c r k sid ss Hr Hs E Hu. destruct (i_slot _ _ I d k sid Hs) as (s2&E2&_).
    rewrite (Hmono _ _ E2) in E. injection E as ->. destruct (Hc d c r Hr) as [_ [Hr'|[_ Hb]]].
    + destruct (i_cancel _ _ I d c r k sid ss Hr' Hs E2 Hu); [by left|right; by apply comes_app].
    + destruct (Hb k sid Hs) as (b&?&?). right. by eapply comes_new.
Qed.

Lemma in_snapshot g d k sid : slot g d k = Some sid -> sid ∈ snapshotLocked d g.
Proof.
  unfold slot. rewrite get2_inner. intros E. apply list_elem_of_fmap. exists (k, sid). split; [done|].
  by apply elem_of_map_to_list.
Qed.

Lemma snapshot_conn g ths d sid : inv g ths -> sid ∈ snapshotLocked d g -> conn_of g d sid.
Proof.
  intros I ([k ?]&->&Hs)%list_elem_of_fmap. apply elem_of_map_to_list in Hs. rewrite <- get2_inner in Hs.
  destruct (i_slot _ _ I d k _ Hs) as (ss&E&Hd&_). by exists ss.
Qed.

(** The cases of a method that only looks at the table. *)
Lemma inv_call g ths l : inv g ths ->
  Forall (fun a => match a with AFail _ _ _ | AClose _ => True | ASend _ (OWake _) => False | ASend _ _ => True | _ => False end) l ->
  inv g (ths ++ [l]).
Proof.
  intros I Hl. apply (inv_add g); auto.
  - apply sh_end. eapply Forall_impl; [exact Hl|]. by intros [].
  - eapply Forall_impl; [exact Hl|]. by intros [].
  - intros d c r Hr. split; [|by left]. intros b Hb. rewrite Forall_forall in Hl. specialize (Hl b Hb). intros Hw. by destruct b.
Qed.

Lemma inv_wake g ths d w now targets : inv g ths -> targets ≡ₚ snapshotLocked d g ->
  inv (wake_locked d w now g) (ths ++ [wake_thread d w targets]).
Proof.
  intros I Hp. assert (sessions (wake_locked d w now g) = sessions g) as Hs by (unfold wake_locked; by case_match).
  assert (conns (wake_locked d w now g) = conns g) as Hc by (unfold wake_locked; by case_match).
  apply (inv_add g); auto.
  - by rewrite Hc.
  - rewrite Hc. auto.
  - apply sh_wake.
  - apply Forall_singleton. cbn. rewrite Hp. apply Forall_forall. intros sid Hin. unfold conn_of. rewrite Hc.
    by eapply snapshot_conn.
  - intros d' c w'. unfold wake_locked. case_match; cbn; [|by left]. rewrite get2_insert2. case_decide as Hd; [|by left].
    intros [= <-]. destruct Hd as [<- <-]. right. split; [done|]. intros k sid Hin%in_snapshot.
    eexists. split; [by left|]. cbn. split; [|done]. by rewrite Hp.
  - intros d' c r Hr. assert (get2 (delete2 d (wake_CallID w) (cancelled g)) d' c = Some r) as Hr'.
    { revert Hr. unfold wake_locked. by case_match. }
    rewrite get2_delete2 in Hr'. case_decide as Hd; [done|]. split; [|by left].
    intros b Hb%list_elem_of_singleton. subst b. cbn. intros [<- <-]. by apply Hd.
Qed.

Lemma inv_cancel g ths d c0 r0 now targets : inv g ths -> targets ≡ₚ snapshotLocked d g -> ~ comes (wakes_call d c0) ths ->
  inv (cancel_locked d c0 r0 now g) (ths ++ [cancel_thread c0 r0 targets]).
Proof.
  intros I Hp Hq. apply (inv_add g); auto.
  - apply sh_end, Forall_fmap, Forall_true. done.
  - apply Forall_fmap, Forall_true. done.
  - intros d' c w. cbn. rewrite get2_drop_empty, get2_delete2. case_decide; [done|by left].
  - intros d' c r Hr. split; [intros b (?&->&_)%list_elem_of_fmap; by intros ?|]. revert Hr. cbn. rewrite get2_insert2.
    case_decide as Hd; [|by left]. intros [= <-]. destruct Hd as [<- <-]. right. split; [done|].
    intros k sid Hin%in_snapshot. rewrite <- Hp in Hin. eexists. split; [by apply list_elem_of_fmap_2|]. done.
Qed.

Lemma inv_accept g ths sid v address now : inv g ths -> conns g !! sid = None ->
  inv (mkGateway (sessions g) (pending g) (cancelled g) (<[sid := accepted v address now]> (conns g)) sid
         (presence g) (acks g) (wakes g)) (ths ++ [handler sid v]).
Proof.
  intros I Hn. apply (inv_add g); auto.
  - intros x s E. cbn. by rewrite lookup_insert_ne by congruence.
  - intros x s. cbn. intros [[<- <-]|[_ ?]]%lookup_insert_Some; [right|by left]. split; [done|]. by destruct v.
  - destruct v; [apply sh_end; by repeat constructor..|apply sh_attach].
  - destruct v; by repeat constructor.
  - intros d c r Hr. split; [|by left]. intros b Hb. destruct v; cbn in Hb;
      repeat (apply elem_of_cons in Hb as [->|Hb]; [by intros ?|]); by apply not_elem_of_nil in Hb.
Qed.

Lemma inv_forget g ths d c : inv g ths -> inv (forget_locked d c g) (ths ++ [[]]).
Proof.
  intros I. apply (inv_add g); auto.
  - apply sh_done.
  - intros d' c' w. cbn. rewrite get2_drop_empty, get2_delete2. case_decide; [done|by left].
  - intros d' c' r Hr. split; [by intros b Hb%not_elem_of_nil|by left].
Qed.

(** *** Every step *)

Section system.
Context (cfg : GwConfig) {A : Type} `{DoorKeeper A} (DecodeHello : list Z -> option Hello)
  (DecodeAck : list Z -> option WakeAck) (idPrefix : string).

Definition plain (b : action) : Prop := match b with AWake _ _ _ _ | AWakeSent _ _ _ _ _ => False | _ => True end.

Lemma plain_ok g b : plain b -> (forall d c, ~ wakes_call d c b) /\ targets_ok g b.
Proof. destruct b; try done; intros _; (split; [by intros ?? ?|done]). Qed.

(** What the handler's reading does. *)
Lemma loop_step_facts sid d ev g g' acts : loop_step DecodeAck sid d ev g = (g', acts) ->
  sessions g' = sessions g /\ conns g' = conns g /\ cancelled g' = cancelled g
  /\ (forall d' c w, get2 (pending g') d' c = Some w -> get2 (pending g) d' c = Some w)
  /\ shape acts /\ (exists b, b ∈ acts /\ ends sid b)
  /\ forall b, b ∈ acts -> (forall d c, ~ wakes_call d c b) /\ targets_ok g b.
Proof.
  intros Hl.
  assert (forall l, Forall (fun a => match a with AFail _ _ _ => True | _ => False end) l ->
    shape (l ++ leave sid) /\ (exists b, b ∈ l ++ leave sid /\ ends sid b)
    /\ forall b, b ∈ l ++ leave sid -> (forall d c, ~ wakes_call d c b) /\ targets_ok g b) as Hleave.
  { intros l Hf. split; [|split].
    - apply sh_leave. eapply Forall_impl; [exact Hf|]. by intros [].
    - exists (ADetach sid). split; [apply elem_of_app; right; by left|by right].
    - rewrite Forall_forall in Hf. intros b [Hb|Hb]%elem_of_app; [specialize (Hf b Hb); apply plain_ok; by destruct b|].
      repeat (apply elem_of_cons in Hb as [->|Hb]; [by apply plain_ok|]). by apply not_elem_of_nil in Hb. }
  assert (forall l, Forall (fun a => (exists o, a = ASend sid o /\ forall w, o <> OWake w) \/ exists d x, a = AOnAck d x) l ->
    shape (l ++ [ALoop sid]) /\ (exists b, b ∈ l ++ [ALoop sid] /\ ends sid b)
    /\ forall b, b ∈ l ++ [ALoop sid] -> (forall d c, ~ wakes_call d c b) /\ targets_ok g b) as Hstay.
  { intros l Hf. split; [by apply sh_loop|split].
    - exists (ALoop sid). split; [apply elem_of_app; right; by left|by left].
    - rewrite Forall_forall in Hf. intros b [Hb|Hb]%elem_of_app; [by apply plain_ok; destruct (Hf b Hb) as [(o&->&_)|(?&?&->)]|].
      apply list_elem_of_singleton in Hb as ->. by apply plain_ok. }
  assert (forall c msg, Forall (fun a => match a with AFail _ _ _ => True | _ => False end) [AFail sid c msg]) as Hone by (by repeat constructor).
  unfold loop_step in Hl. destruct ev as [| | |e];
    [injection Hl as <- <-; do 4 (split; [done|]); first [apply (Hleave [_]), Hone|by apply (Hleave [])]..|].
  destruct (Validate e); [injection Hl as <- <-; do 4 (split; [done|]); apply (Hleave [_]), Hone|].
  repeat case_decide; [| |by injection Hl as <- <-; do 4 (split; [done|]); apply (Hstay [])].
  - injection Hl as <- <-. do 4 (split; [done|]). apply (Hstay [_]). constructor; [|done]. left. by eexists.
  - destruct (DecodeAck (Body e)) as [a|]; [|injection Hl as <- <-; do 4 (split; [done|]); apply (Hleave [_]), Hone].
    case_decide; [injection Hl as <- <-; do 4 (split; [done|]); apply (Hleave [_]), Hone|].
    unfold ack_locked in Hl. destruct (get2 (pending g) d (ack_CallID a)); injection Hl as <- <-.
    + assert (forall o, Forall (fun a => (exists o, a = ASend sid o /\ forall w, o <> OWake w) \/ exists d x, a = AOnAck d x) [AOnAck d o])
        as Hon by (intros o; constructor; [right; eauto|done]).
      case_decide; cbn [sessions conns cancelled pending with_pending]; do 3 (split; [done|]); (split; [|apply (Hstay [_]), Hon]); [|done].
      intros d' c w'. rewrite get2_delete2. by case_decide.
    + do 4 (split; [done|]). apply (Hstay [_]). constructor; [|done]. left. by eexists.
Qed.

Lemma inv_read g ths i sid ss ev g' acts : inv g ths -> ths !! i = Some [ALoop sid] ->
  loop_step DecodeAck sid (s_device ss) ev g = (g', acts) -> inv g' (<[i := acts]> ths).
Proof.
  intros I Hi (Hs&Hc&Hx&Hp&Hsh&(b0&Hb0&He)&Hb)%loop_step_facts.
  assert (forall P, comes P ths -> comes P (<[i := acts]> ths) \/ P (ALoop sid)) as Hstep.
  { intros P HP. rewrite <- (app_nil_r (<[i := acts]> ths)). destruct (comes_step P ths i _ acts [] Hi HP) as [?|(a&Ha&?)]; [by left|].
    apply list_elem_of_singleton in Ha as ->. by right. }
  assert (forall l, l ∈ <[i := acts]> ths -> l ∈ ths \/ l = acts) as Hin.
  { intros l Hl. rewrite <- (app_nil_r (<[i := acts]> ths)) in Hl. apply put_elim in Hl as [?|[?|[]%not_elem_of_nil]]; auto. }
  unfold slot in *. split; unfold slot; rewrite ?Hs, ?Hc, ?Hx.
  - apply Forall_insert; [apply (i_shape _ _ I)|done].
  - intros d c w Hw%Hp. by eapply i_key.
  - apply (i_slot _ _ I).
  - intros d k x Ho%(i_owner _ _ I). destruct (Hstep _ Ho) as [?|[[= ->]|?]]; try done.
    rewrite <- (app_nil_r (<[i := acts]> ths)). by eapply comes_put.
  - intros d c r Hr (l&b&Hl&Hbl&Hw). destruct (Hin l Hl) as [Hl'| ->]; [|by apply (Hb b Hbl) in Hw].
    apply (i_quiet _ _ I d c r Hr). by exists l, b.
  - apply Forall_forall. intros l Hl. apply Forall_forall. intros b Hbl. apply (targets_mono g); [rewrite Hc; eauto|].
    + intros x s E. exists s. by split.
    + destruct (Hin l Hl) as [Hl'| ->]; [|by apply (Hb b Hbl)]. pose proof (i_targets _ _ I) as Ht.
      rewrite Forall_forall in Ht. specialize (Ht l Hl'). rewrite Forall_forall in Ht. by apply Ht.
  - intros x s c E Hu Hm. destruct (i_mark _ _ I x s c E Hu Hm) as [?|Hw]; [by left|]. by destruct (Hstep _ Hw); [right|].
  - intros d c w k x s Hw Ho E Hu. destruct (i_wake _ _ I d c w k x s (Hp _ _ _ Hw) Ho E Hu) as [?|Hw']; [by left|].
    by destruct (Hstep _ Hw'); [right|].
  - intros d c r k x s Hr Ho E Hu. destruct (i_cancel _ _ I d c r k x s Hr Ho E Hu) as [?|Hw']; [by left|].
    by destruct (Hstep _ Hw'); [right|].
Qed.

Lemma inv_act g ths i ok now a rest g' new new' next spawned : inv g ths -> ths !! i = Some (a :: rest) ->
  (forall sid, a <> ALoop sid) -> act cfg idPrefix ok now a rest g = (g', new, next, spawned) -> new' ≡ₚ new ->
  inv g' (<[i := new' ++ next]> ths ++ spawned).
Proof.
  intros I Hi Hl Ha Hn. split.
  - destruct (next_shape cfg idPrefix ok now a rest g g' new new' next spawned ths i I Hi Hl Ha Hn).
    apply Forall_app. split; [|done]. apply Forall_insert; [apply (i_shape _ _ I)|done].
  - intros d c w Hw. eapply (i_key _ _ I). by eapply act_pending.
  - intros. by eapply act_slot.
  - intros. by eapply act_owner.
  - intros. by eapply act_quiet.
  - by eapply act_targets.
  - intros. by eapply act_marked.
  - intros. by eapply act_i_wake.
  - intros. by eapply act_i_cancel.
Qed.

Local Abbreviation step := (step cfg DecodeHello DecodeAck idPrefix).

Lemma inv_step s s' : step s s' -> inv (gw s) (threads s) -> inv (gw s') (threads s').
Proof.
  destruct 1; intros I; cbn [gw threads call].
  - by apply inv_wake.
  - by apply inv_cancel.
  - by apply inv_forget.
  - apply inv_call; [done|]. by apply Forall_fmap, Forall_true.
  - apply inv_call; [done|]. by apply Forall_fmap, Forall_true.
  - apply inv_call; [done|]. by apply Forall_fmap, Forall_true.
  - by apply inv_accept.
  - apply inv_call; [done|]. by repeat constructor.
  - apply inv_call; [done|]. by repeat constructor.
  - by eapply inv_read.
  - by eapply inv_act.
  - done.
  - done.
Qed.

Lemma inv_init : inv New [].
Proof.
  split; unfold slot; cbn; intros; try done; try (by rewrite ?lookup_empty in *); try constructor.
Qed.

Lemma inv_reachable t x s : rtc step (init t x) s -> inv (gw s) (threads s).
Proof.
  intros Hr. assert (inv (gw (init t x)) (threads (init t x))) as I by apply inv_init.
  revert I. induction Hr as [|s1 s2 s3 Hs _ IH]; [done|]. intros I. by apply IH, (inv_step s1).
Qed.

(** ** The properties *)

(** Nothing is left to do but to read. *)
Definition quiescent (s : sys (A := A)) : Prop := forall l, l ∈ threads s -> l = [] \/ exists sid, l = [ALoop sid].

Lemma quiescent_comes s P : quiescent s -> comes P (threads s) -> exists sid, P (ALoop sid).
Proof.
  intros Hq (l&a&Hl&Ha&HP). destruct (Hq l Hl) as [->|(sid&->)]; [by apply not_elem_of_nil in Ha|].
  apply list_elem_of_singleton in Ha as ->. eauto.
Qed.

(** a device is online only through a connection whose handler is still
    running. In every reachable state of every interleaving each entry of the
    session table is a connection admitted for exactly that device and kind, one
    entry per connection, and some goroutine still has its frame loop or its
    detach ahead: entries never outlive their handlers and are never filed under
    another device. *)
Theorem table_names_running_handlers t x s : rtc step (init t x) s ->
  (forall d k sid, slot (gw s) d k = Some sid ->
     (exists ss, conns (gw s) !! sid = Some ss /\ s_device ss = d /\ s_kind ss = k)
     /\ (exists l a, l ∈ threads s /\ a ∈ l /\ (a = ALoop sid \/ a = ADetach sid))
     /\ forall d' k', slot (gw s) d' k' = Some sid -> d' = d /\ k' = k)
  /\ forall d, Online d (gw s) = true <-> exists k sid, slot (gw s) d k = Some sid.
Proof.
  intros I%inv_reachable. split.
  - intros d k sid Hs. destruct (i_slot _ _ I d k sid Hs) as (ss&E&Hd&Hk). split; [by exists ss|]. split; [by apply (i_owner _ _ I d k)|].
    intros d' k' (s2&E2&<-&<-)%(i_slot _ _ I). rewrite E in E2. by injection E2 as <-.
  - intros d. unfold Online, slot. rewrite bool_decide_eq_true. split.
    + intros (k&sid&E)%map_choose. exists k, sid. by rewrite get2_inner.
    + intros (k&sid&E) Hn. rewrite get2_inner, Hn in E. done.
Qed.

(** C9: nobody is left unrung or left ringing. In every reachable state in which
    the goroutines have nothing left to do but read, each connection of the
    session table that still takes writes has been sent, since it was made, a wake with
    the call id of every pending call of its device, whether the call came before it
    connected or after, and rings for it unless it was sent a cancel of that id
    before; and for every cancelled call the last of the call's frames it was sent is not
    a wake. (A call woken again after its cancel is not sent again on one connection.)
    Wakes and cancels arrive in any interleaving with handshakes, replays
    and each other, but that the caller cancels a call only after its [Wake] has
    returned; the ids of connections are fresh. *)
Theorem sessions_are_told t x s d k sid ss : rtc step (init t x) s -> quiescent s ->
  slot (gw s) d k = Some sid -> conns (gw s) !! sid = Some ss -> usable ss = true ->
  s_device ss = d
  /\ (forall c w, get2 (pending (gw s)) d c = Some w -> wake_CallID w = c /\ woken c (frames ss) = true
        /\ (Forall (fun f => ~ is_cancel c (snd f)) (frames ss) -> rings c (frames ss) = true))
  /\ (forall c r, get2 (cancelled (gw s)) d c = Some r -> rings c (frames ss) = false).
Proof.
  intros I%inv_reachable Hq Hs E Hu. split; [|split].
  - destruct (i_slot _ _ I d k sid Hs) as (s2&E2&<-&_). rewrite E in E2. by injection E2 as <-.
  - intros c w Hw. split; [by eapply i_key|].
    assert (woken c (frames ss) = true) as Hk by by destruct (i_wake _ _ I d c w k sid ss Hw Hs E Hu) as [?|(?&?)%(quiescent_comes _ _ Hq)].
    split; [done|]. by apply woken_rings.
  - intros c r Hr. by destruct (i_cancel _ _ I d c r k sid ss Hr Hs E Hu) as [?|(?&?)%(quiescent_comes _ _ Hq)].
Qed.

End system.

(** *** An example *)

Module Demo.

#[export] Instance list_door : DoorKeeper (list string) := {|
  door_authenticate := fun l d _ => bool_decide (d ∈ l);
  door_licensed := fun l d => (bool_decide (d ∈ l), "no licence seat");
|}.

Definition cfg : GwConfig := withDefaults (mkGwConfig 0 0 0 None None None true None).
Definition decode_hello (_ : list Z) : option Hello := Some (mkHello "dev-1" "tok" "app" "1.0" []).
Definition decode_ack (_ : list Z) : option WakeAck := None.
Definition hello : first_read := ReadEnvelope (mkEnvelope 1 TypeHello "1" 0 []).
Definition ring (c : string) : Wake := mkWake c (mkParty "" "") (mkParty "" "") (mkSIPTarget "" 0 "") 100.

Definition start : sys (A := list string) := init 0 ["dev-1"].

Abbreviation runs := (run cfg decode_hello decode_ack "srv-").

(** The call "a" is pending when the device connects; "b" comes after, and is
    cancelled while the connection is up. *)
Definition told_run : list (choice (A := list string)) :=
  [CWake "dev-1" (ring "a"); CAct 0 true; CAccept hello "198.51.100.7"] ++ replicate 7 (CAct 1 true)
  ++ [CWake "dev-1" (ring "b"); CAct 2 true; CAct 2 true; CAct 2 true; CCancel "dev-1" "b" CancelTimeout; CAct 3 true].

Definition told : sys (A := list string) := default start (runs told_run start).

Lemma told_runs : runs told_run start = Some told.
Proof. vm_compute. reflexivity. Qed.

Definition told_conn : session := default new_session (conns (gw told) !! 1).

Lemma told_quiescent : quiescent told.
Proof.
  intros l Hl. vm_compute in Hl. repeat (apply elem_of_cons in Hl as [->|Hl]; [by eauto|]). by apply not_elem_of_nil in Hl.
Qed.

(** The connection is admitted, and before its handler attaches the device loses
    its seat and is disconnected, which reaches nothing. *)
Definition late_run : list (choice (A := list string)) :=
  [CAccept hello "198.51.100.7"; CDoor []; CDisconnect "dev-1" "no licence seat"] ++ replicate 5 (CAct 0 true).

Definition late : sys (A := list string) := default start (runs late_run start).

Lemma late_runs : runs late_run start = Some late.
Proof. vm_compute. reflexivity. Qed.

End Demo.
#[local] Existing Instance Demo.list_door.

Lemma table_names_running_handlers_witness :
  rtc (step Demo.cfg Demo.decode_hello Demo.decode_ack "srv-") (init 0 ["dev-1"]) Demo.told
  /\ slot (gw Demo.told) "dev-1" ClientApp = Some 1 /\ Online "dev-1" (gw Demo.told) = true
  /\ exists ss, conns (gw Demo.told) !! 1 = Some ss /\ s_device ss = "dev-1" /\ s_kind ss = ClientApp.
Proof.
  assert (rtc (step Demo.cfg Demo.decode_hello Demo.decode_ack "srv-") (init 0 ["dev-1"]) Demo.told) as Hr
    by (exact (run_steps _ _ _ _ _ _ _ Demo.told_runs)).
  assert (slot (gw Demo.told) "dev-1" ClientApp = Some 1) as Hs by (vm_compute; reflexivity).
  pose proof (table_names_running_handlers Demo.cfg Demo.decode_hello Demo.decode_ack "srv-" 0 ["dev-1"] Demo.told Hr) as [Ht Ho].
  split; [exact Hr|]. split; [exact Hs|]. split; [apply Ho; exists ClientApp, 1; exact Hs|].
  apply (Ht "dev-1" ClientApp 1 Hs).
Defined.

Lemma sessions_are_told_witness :
  (exists w, get2 (pending (gw Demo.told)) "dev-1" "a" = Some w) /\ woken "a" (frames Demo.told_conn) = true /\ rings "a" (frames Demo.told_conn) = true
  /\ (exists r, get2 (cancelled (gw Demo.told)) "dev-1" "b" = Some r)
  /\ woken "b" (frames Demo.told_conn) = true /\ rings "b" (frames Demo.told_conn) = false.
Proof.
  pose proof (sessions_are_told Demo.cfg Demo.decode_hello Demo.decode_ack "srv-" 0 ["dev-1"] Demo.told "dev-1" ClientApp 1
    Demo.told_conn (run_steps _ _ _ _ _ _ _ Demo.told_runs) Demo.told_quiescent ltac:(vm_compute; reflexivity)
    ltac:(vm_compute; reflexivity) ltac:(vm_compute; reflexivity)) as (_&Hp&Hc).
  assert (get2 (pending (gw Demo.told)) "dev-1" "a" = Some (Demo.ring "a")) as Ha by (vm_compute; reflexivity).
  assert (get2 (cancelled (gw Demo.told)) "dev-1" "b" = Some (mkCancel CancelTimeout (100 + cancelGrace))) as Hb
    by (vm_compute; reflexivity).
  split; [exists (Demo.ring "a"); exact Ha|]. split; [exact (proj1 (proj2 (Hp "a" _ Ha)))|].
  split; [apply (proj2 (proj2 (Hp "a" _ Ha))); apply (bool_decide_unpack _); vm_compute; exact I|].
  split; [eexists; exact Hb|]. split; [vm_compute; reflexivity|exact (Hc "b" _ Hb)].
Defined.

(** The check at the door and the entry into the table are not one step: a device
    disconnected for a lost seat or a rotated credential in between stays
    connected. *)
Lemma late_attach_escapes_the_disconnect : exists s ss,
  rtc (step Demo.cfg Demo.decode_hello Demo.decode_ack "srv-") Demo.start s
  /\ door_licensed (door s) "dev-1" = (false, "no licence seat")
  /\ threads s = [[ALoop 1]; []] /\ slot (gw s) "dev-1" ClientApp = Some 1
  /\ conns (gw s) !! 1 = Some ss /\ usable ss = true.
Proof.
  exists Demo.late, (default new_session (conns (gw Demo.late) !! 1)).
  split; [exact (run_steps _ _ _ _ _ _ _ Demo.late_runs)|]. by vm_compute.
Qed.
