(* ===== verification/PbxLine.v ===== *)
(** The PBX lines (src/server/internal/pbxline/pbxline.go): the manager that keeps
    one registration per device on the exchange.

    - A [line] is one registration's shared state and the place [pc] its loop is
      at; the two one-place channels are booleans. Each section of the loop
      between two waits is a function, as is each method of the manager.
    - A line that was deleted and put again is a new object whose predecessor's
      loop may still run, so the manager's map holds the numbers of objects.
    - Arguments: the clock readings, the products of a random float and a
      duration ([spread], [jitter]), what the exchange answers, which case of a
      ready [select] is taken, and the order of a walk over a map. *)

From S2P Require Import Prelude.
Open Scope Z_scope.

(** ** Data *)

Record Line := mkLine { User : string; DN : string; DigestUser : string; Secret : string }.

#[export] Instance Line_eq_dec : EqDecision Line.
Proof. solve_decision. Defined.

Definition normalised (l : Line) : Line :=
  if decide (DN l = "") then mkLine (User l) (User l) (DigestUser l) (Secret l) else l.

Definition sameCredential (l o : Line) : bool :=
  bool_decide (DN l = DN o) && bool_decide (DigestUser l = DigestUser o) && bool_decide (Secret l = Secret o).

Inductive State := StatePending | StateRegistered | StateRetrying | StateRefused.

#[export] Instance State_eq_dec : EqDecision State.
Proof. solve_decision. Defined.

Record Status := mkStatus {
  st_User : string; st_DN : string; st_DigestUser : string;
  st_State : State; st_Since : Z; ExpiresAt : Z; st_Realm : string; st_Error : string; Attempts : Z;
}.

Record Registration := mkRegistration { Expiry : Z; Realm : string }.

(** What [Registrar.Register] returns: a registration, an error that
    [errors.As] finds a refusal in, or another error. *)
Inductive reg_result :=
  | Granted (r : Registration) | Refused (status : Z) (reason : string) | Failed (msg : string).

Record Config := mkConfig {
  cfg_Expiry : Z; MinRefresh : Z; BackoffBase : Z; BackoffCap : Z; StartSpread : Z; UnregisterTimeout : Z; Tick : Z;
}.

Definition applyDefaults (c : Config) : Config :=
  mkConfig
    (if cfg_Expiry c <=? 0 then ns_hour else cfg_Expiry c)
    (if MinRefresh c <=? 0 then 5 * ns_second else MinRefresh c)
    (if BackoffBase c <=? 0 then 5 * ns_second else BackoffBase c)
    (if BackoffCap c <=? 0 then 5 * ns_minute else BackoffCap c)
    (if StartSpread c <? 0 then 0 else StartSpread c)
    (if UnregisterTimeout c <=? 0 then 2 * ns_second else UnregisterTimeout c)
    (if Tick c <=? 0 then 10 * ns_second else Tick c).

(** ** Intervals *)

Definition refreshAfter (granted floor : Z) : Z :=
  let d := i64 (granted * 3) `quot` 4 in if d <? floor then floor else d.

Fixpoint backoff_loop (n : nat) (d limit : Z) : Z :=
  match n with
  | O => if limit <? d then limit else d
  | S n => let d := i64 (d * 2) in if limit <=? d then limit else backoff_loop n d limit
  end.

Definition backoff (attempt base limit : Z) : Z :=
  let attempt := if attempt <? 1 then 1 else attempt in backoff_loop (Z.to_nat (attempt - 1)) base limit.

(** ** A line and its loop *)

(** What follows a wait: the first round, the round's REGISTER after a late one
    was spread, or the next round. [cur] and [attempt] are the loop's. *)
Inductive after_wait :=
  | AfterStart
  | AfterLate (attempt : Z) (cur : Line)
  | AfterRound (attempt : Z) (cur : Line).

Inductive place :=
  | Unborn                                              (* no goroutine yet *)
  | Launched                                            (* at the top of [run] *)
  | Top (attempt : Z) (late : bool)
  | Registering (attempt : Z) (late : bool) (cur : Line)        (* in [Registrar.Register] *)
  | Waiting (k : after_wait)
  | Parked (late : bool) (cur : Line)                   (* in [waitForChange] *)
  | Gone.

Record line := mkline {
  cur : Line;
  status : Status;
  wake : bool;
  until : Z;
  late : bool;
  cancel : bool;              (* l.cancel is set *)
  over : bool;                (* its context has ended *)
  pc : place;
}.

Definition with_status (l : line) s := mkline (cur l) s (wake l) (until l) (late l) (cancel l) (over l) (pc l).
Definition with_pc (l : line) p := mkline (cur l) (status l) (wake l) (until l) (late l) (cancel l) (over l) p.
Definition with_wake (l : line) b := mkline (cur l) (status l) b (until l) (late l) (cancel l) (over l) (pc l).

Definition new_line (c : Line) (now : Z) : line :=
  mkline c (mkStatus (User c) (DN c) (DigestUser c) StatePending now 0 "" "" 0) false 0 false false false Unborn.

Definition signal (l : line) : line := with_wake l true.
Definition armDeadline (t : Z) (l : line) : line := mkline (cur l) (status l) (wake l) t (late l) (cancel l) (over l) (pc l).
Definition disarmDeadline (l : line) : line := mkline (cur l) (status l) (wake l) 0 false (cancel l) (over l) (pc l).

Definition flagIfOverdue (now : Z) (l : line) : line * bool :=
  if is_zero (until l) || before now (until l) then (l, false)
  else (mkline (cur l) (status l) (wake l) 0 true (cancel l) (over l) (pc l), true).

Definition since_of (now : Z) (to : State) (s : Status) : Z := if decide (st_State s <> to) then now else st_Since s.

Definition registered (now granted : Z) (realm : string) (l : line) : line :=
  let s := status l in
  with_status l (mkStatus (st_User s) (st_DN s) (st_DigestUser s) StateRegistered (since_of now StateRegistered s)
    (now + granted) (if decide (realm <> "") then realm else st_Realm s) "" 0).

Definition retrying (now : Z) (err : string) (attempt : Z) (l : line) : line :=
  let s := status l in
  with_status l (mkStatus (st_User s) (st_DN s) (st_DigestUser s) StateRetrying (since_of now StateRetrying s)
    0 (st_Realm s) err attempt).

Definition refused (now : Z) (err : string) (l : line) : line :=
  let s := status l in
  with_status l (mkStatus (st_User s) (st_DN s) (st_DigestUser s) StateRefused (since_of now StateRefused s)
    0 (st_Realm s) err (Attempts s)).

(** The loop goes on from a wait. *)
Definition resume (k : after_wait) (was_late : bool) (l : line) : line :=
  with_pc l match k with
            | AfterStart => Top 0 false
            | AfterLate attempt c => Registering attempt true c
            | AfterRound attempt _ => Top attempt was_late
            end.

Definition waitUntil (k : after_wait) (t now : Z) (l : line) : line :=
  if time_sub t now <=? 0 then (if over l then with_pc l Gone else resume k true l)
  else with_pc (armDeadline t l) (Waiting k).

(** [wait]; the clock is read again inside [waitUntil]. *)
Definition wait (k : after_wait) (d now now' : Z) (l : line) : line :=
  if d <=? 0 then (if over l then with_pc l Gone else resume k false l) else waitUntil k (now + d) now' l.

(** The ready cases of the two selects. *)
Inductive ready := RDone | RWake | RLate | RTimer.

Definition waited (r : ready) (l : line) : option line :=
  match pc l, r with
  | Waiting k, RDone => if over l then Some (with_pc (disarmDeadline l) Gone) else None
  | Waiting k, RWake => if wake l then Some (resume k false (disarmDeadline (with_wake l false))) else None
  | Waiting k, RLate => if late l then Some (resume k true (disarmDeadline l)) else None
  | Waiting k, RTimer => Some (resume k false (disarmDeadline l))
  | Parked lt _, RDone => if over l then Some (with_pc l Gone) else None
  | Parked lt _, RWake => if wake l then Some (with_pc (with_wake l false) (Top 0 lt)) else None
  | _, _ => None
  end.

Section loop.
Context (cfg : Config).

Definition run_begin (spread now now' : Z) (l : line) : line :=
  if 0 <? spread then wait AfterStart spread now now' l else with_pc l (Top 0 false).

(** From the top of a round to its REGISTER, or to the wait that spreads it. *)
Definition round_begin (spread now now' attempt : Z) (lt : bool) (l : line) : line :=
  let c := cur l in
  if lt && (0 <? spread) then wait (AfterLate attempt c) spread now now' l
  else with_pc l (Registering attempt lt c).

Definition refused_message (reason : string) : string := "pbx refused the registration: " +:+ reason.

(** What the loop does with the answer, up to the next wait. *)
Definition round_end (jitter : Z -> Z) (now now' attempt : Z) (lt : bool) (c : Line) (res : reg_result) (l : line) : line :=
  if over l then with_pc l Gone else
  match res with
  | Granted reg =>
      let granted := if Expiry reg <=? 0 then cfg_Expiry cfg else Expiry reg in
      waitUntil (AfterRound 0 c) (now + refreshAfter granted (MinRefresh cfg)) now' (registered now granted (Realm reg) l)
  | Refused _ reason => with_pc (refused now (refused_message reason) l) (Parked lt c)
  | Failed msg =>
      let attempt := attempt + 1 in
      waitUntil (AfterRound attempt c) (now + jitter (backoff attempt (BackoffBase cfg) (BackoffCap cfg))) now'
        (retrying now msg attempt l)
  end.

(** ** The manager *)

(** What the exchange has been told, in order: each REGISTER whose answer has
    come back, and each binding dropped. *)
Inductive told := TRegister (l : Line) | TUnregister (l : Line).

Record Manager := mkManager {
  lines : gmap string nat;
  objs : list line;                    (* every line made, by number *)
  started : bool;
  sweeping : bool;
  ended : bool;                        (* the server's context *)
  stopping : option (list Line);       (* Stop, waiting for the goroutines *)
  unregs : list Line;                  (* the goroutines of [unregister] *)
  exchange : list told;
  onState : list Status;
}.

Definition New : Manager := mkManager ∅ [] false false false None [] [] [].

Definition with_objs (m : Manager) o := mkManager (lines m) o (started m) (sweeping m) (ended m) (stopping m) (unregs m) (exchange m) (onState m).
Definition update_line (i : nat) (f : line -> line) (m : Manager) : Manager := with_objs m (alter f i (objs m)).

(** [ctx_over]: the server's context has ended. *)
Definition startLocked (ctx_over : bool) (l : line) : line :=
  if cancel l then l else mkline (cur l) (status l) (wake l) (until l) (late l) true ctx_over Launched.

Definition cancel_line (l : line) : line :=
  if cancel l then mkline (cur l) (status l) (wake l) (until l) (late l) (cancel l) true (pc l) else l.

(** The objects in the map. *)
Definition held (m : Manager) : list nat := (map_to_list (lines m)).*2.

Definition on_held (f : line -> line) (m : Manager) : Manager := with_objs m (foldr (fun i o => alter f i o) (objs m) (held m)).

Definition Start (m : Manager) : Manager :=
  if started m then m else
  let m := on_held (startLocked (ended m)) m in
  mkManager (lines m) (objs m) true (negb (ended m)) (ended m) (stopping m) (unregs m) (exchange m) (onState m).

Definition put_line (l : Line) (x : line) : line :=
  let s := status x in
  let unchanged := sameCredential (cur x) l in
  let x := mkline l (mkStatus (st_User s) (DN l) (DigestUser l) (st_State s) (st_Since s) (ExpiresAt s) (st_Realm s) (st_Error s) (Attempts s))
             (wake x) (until x) (late x) (cancel x) (over x) (pc x) in
  if unchanged then x else signal x.

Definition Put (i : Line) (now : Z) (m : Manager) : Manager :=
  let l := normalised i in
  if decide (User l = "") then m else
  match lines m !! User l with
  | Some n => update_line n (put_line l) m
  | None =>
      let x := new_line l now in
      let x := if started m then startLocked (ended m) x else x in
      mkManager (<[User l := length (objs m)]> (lines m)) (objs m ++ [x]) (started m) (sweeping m) (ended m) (stopping m) (unregs m)
        (exchange m) (onState m)
  end.

Definition Delete (user : string) (m : Manager) : Manager :=
  match lines m !! user with
  | None => m
  | Some n =>
      let m := mkManager (delete user (lines m)) (objs m) (started m) (sweeping m) (ended m) (stopping m) (unregs m) (exchange m) (onState m) in
      let m := update_line n cancel_line m in
      if negb (started m) then m else
      match objs m !! n with
      | Some x => mkManager (lines m) (objs m) (started m) (sweeping m) (ended m) (stopping m) (unregs m ++ [cur x]) (exchange m) (onState m)
      | None => m
      end
  end.

(** [gone]: the users no longer wanted, in the order of the map. *)
Definition Set_ (ls : list Line) (now : Z) (m : Manager) : Manager :=
  let keep := list_to_set (C := gset string) (map User ls) in
  let m := foldl (fun m l => Put l now m) m ls in
  let gone := filter (fun u => u ∉ keep) (map_to_list (lines m)).*1 in
  foldl (fun m u => Delete u m) m gone.

Definition snapshots (m : Manager) : list Line := omap (fun i => cur <$> objs m !! i) (held m).

Definition stop_begin (m : Manager) : Manager :=
  let running := started m in
  let m := on_held cancel_line m in
  mkManager (lines m) (objs m) false false (ended m) (Some (if running then snapshots m else [])) (unregs m) (exchange m) (onState m).

(** Once every goroutine has ended; each contact is then dropped. *)
Definition stop_end (m : Manager) : Manager :=
  match stopping m with
  | Some ls =>
      if forallb (fun x => match pc x with Unborn | Gone => true | _ => false end) (objs m)
      then mkManager (lines m) (objs m) (started m) (sweeping m) (ended m) None (unregs m ++ ls) (exchange m) (onState m) else m
  | None => m
  end.

Definition sweep_tick (now : Z) (m : Manager) : Manager := on_held (fun l => fst (flagIfOverdue now l)) m.

Definition unregister (j : nat) (m : Manager) : Manager :=
  match unregs m !! j with
  | Some l => mkManager (lines m) (objs m) (started m) (sweeping m) (ended m) (stopping m) (delete j (unregs m)) (exchange m ++ [TUnregister l]) (onState m)
  | None => m
  end.

(** [ls !! user] and the object under it. *)
Definition line_of (m : Manager) (user : string) : option line := n ← lines m !! user; objs m !! n.

Definition Credentials (m : Manager) (user : string) : option (string * string) :=
  x ← line_of m user;
  if decide (DigestUser (cur x) = "") then None else Some (DigestUser (cur x), Secret (cur x)).

Definition Number (m : Manager) (user : string) : option string := x ← line_of m user; Some (DN (cur x)).

Definition status_le (a b : Status) : Prop := String.le (st_User a) (st_User b).

#[export] Instance status_le_dec a b : Decision (status_le a b).
Proof. unfold status_le. apply _. Defined.

Definition Statuses (m : Manager) : list Status :=
  merge_sort status_le (omap (fun i => status <$> objs m !! i) (held m)).

Definition Status_ (m : Manager) (user : string) : option Status := x ← line_of m user; Some (status x).

(** ** Every interleaving

    One event at a clock reading [now]: a method's call, the server's context
    ending, a tick of the sweep, or a loop moving on to its next wait or answer. *)

Inductive choice :=
  | CPut (l : Line) | CDelete (user : string) | CSet (ls : list Line) | CStart | CStop | CStopped | CContext
  | CSweep | CUnregister (j : nat)
  | CBegin (i : nat) (spread now' : Z)
  | CRound (i : nat) (spread now' : Z)
  | CAnswer (i : nat) (jitter : Z -> Z) (now' : Z) (res : reg_result)
  | CSelect (i : nat) (r : ready).

(** [stateChanged] after an answer that was taken. *)
Definition heard (c : Line) (x : line) (m : Manager) : Manager :=
  mkManager (lines m) (objs m) (started m) (sweeping m) (ended m) (stopping m) (unregs m) (exchange m ++ [TRegister c])
    (if over x then onState m else onState m ++ [status x]).

Definition exec (now : Z) (c : choice) (m : Manager) : option Manager :=
  match c with
  | CPut l => Some (Put l now m)
  | CDelete user => Some (Delete user m)
  | CSet ls => Some (Set_ ls now m)
  | CStart => Some (Start m)
  | CStop => Some (stop_begin m)
  | CStopped => Some (stop_end m)
  | CContext =>
      let m := on_held cancel_line m in
      Some (mkManager (lines m) (objs m) (started m) false true (stopping m) (unregs m) (exchange m) (onState m))
  | CSweep => if sweeping m then Some (sweep_tick now m) else None
  | CUnregister j => Some (unregister j m)
  | CBegin i spread now' =>
      x ← objs m !! i;
      match pc x with Launched => Some (update_line i (run_begin spread now now') m) | _ => None end
  | CRound i spread now' =>
      x ← objs m !! i;
      match pc x with Top a lt => Some (update_line i (round_begin spread now now' a lt) m) | _ => None end
  | CAnswer i jitter now' res =>
      x ← objs m !! i;
      match pc x with
      | Registering a lt c =>
          let x' := round_end jitter now now' a lt c res x in
          Some (heard c x' (update_line i (fun _ => x') m))
      | _ => None
      end
  | CSelect i r =>
      x ← objs m !! i;
      x' ← waited r x;
      Some (update_line i (fun _ => x') m)
  end.

Fixpoint run (l : list (Z * choice)) (m : Manager) : option Manager :=
  match l with [] => Some m | (now, c) :: l => m' ← exec now c m; run l m' end.

End loop.
