(* ===== verification/PbxLineProps.v ===== *)
(** Properties of the PBX lines (PbxLine) over every interleaving of the manager's
    methods, the sweep and the loops: the intervals' bounds, what a line's
    published status says of its loop, that no credential change is lost, and
    that a refused line stays silent. *)

From S2P Require Import Prelude PbxLine.
Open Scope Z_scope.

(** ** Intervals *)

Lemma backoff_loop_spec n d limit : 0 < d < 2 ^ 62 -> 0 < limit <= 2 ^ 62 ->
  backoff_loop n d limit = Z.min (d * 2 ^ Z.of_nat n) limit.
Proof.
  assert (2 ^ 63 = 2 * 2 ^ 62) as H63 by reflexivity.
  revert d. induction n as [|n IH]; intros d Hd Hl; cbn [backoff_loop].
  - rewrite Z.pow_0_r, Z.mul_1_r. destruct (Z.ltb_spec limit d); lia.
  - rewrite wraps_small by (simpl Z.sub; lia). rewrite Nat2Z.inj_succ, Z.pow_succ_r by lia.
    pose proof (Z.pow_pos_nonneg 2 (Z.of_nat n) ltac:(lia) ltac:(lia)) as Hp.
    destruct (Z.leb_spec limit (d * 2)).
    + nia.
    + rewrite IH by lia. f_equal. lia.
Qed.

Lemma backoff_spec attempt base limit : 0 < base < 2 ^ 62 -> 0 < limit <= 2 ^ 62 ->
  backoff attempt base limit = Z.min (base * 2 ^ (Z.max attempt 1 - 1)) limit.
Proof.
  intros Hb Hl. unfold backoff.
  replace (if attempt <? 1 then 1 else attempt) with (Z.max attempt 1) by (destruct (Z.ltb_spec attempt 1); lia).
  rewrite backoff_loop_spec by done. by rewrite Z2Nat.id by lia.
Qed.

Lemma refresh_spec granted floor : 0 <= granted -> 3 * granted < 2 ^ 63 ->
  refreshAfter granted floor = Z.max (granted * 3 / 4) floor.
Proof.
  intros H0 H3. unfold refreshAfter. rewrite wraps_small by (simpl Z.sub; lia). rewrite Z.quot_div_nonneg by lia.
  destruct (Z.ltb_spec (granted * 3 / 4) floor); lia.
Qed.

(** the retry schedule is bounded. With the defaults' positive intervals
    below half the range of a Duration, the n-th retry waits the base doubled
    n-1 times and never more than the cap, so each wait is at least the base or
    the cap, waits never shrink, and from some attempt on all are the cap; and a
    lease short enough for its product by three is refreshed no sooner than the
    floor and, when its quarter in hand is longer than the floor, before it
    lapses. *)
Theorem retry_schedule base limit floor : 0 < base < 2 ^ 62 -> 0 < limit <= 2 ^ 62 -> 0 < floor ->
  (forall n, 1 <= n -> backoff n base limit = Z.min (base * 2 ^ (n - 1)) limit)
  /\ (forall n m, n <= m -> Z.min base limit <= backoff n base limit <= backoff m base limit /\ backoff m base limit <= limit)
  /\ (exists n, forall m, n <= m -> backoff m base limit = limit)
  /\ (forall granted, 0 < granted -> 3 * granted < 2 ^ 63 ->
        floor <= refreshAfter granted floor /\ (floor < granted -> refreshAfter granted floor < granted)
        /\ (4 * floor <= 3 * granted -> 4 * refreshAfter granted floor <= 3 * granted)).
Proof.
  intros Hb Hl Hf. split; [|split; [|split]].
  - intros n Hn. rewrite backoff_spec by done. by rewrite Z.max_l.
  - intros n m Hnm. rewrite !backoff_spec by done.
    pose proof (Z.pow_pos_nonneg 2 (Z.max n 1 - 1) ltac:(lia) ltac:(lia)).
    pose proof (Z.pow_le_mono_r 2 (Z.max n 1 - 1) (Z.max m 1 - 1) ltac:(lia) ltac:(lia)). nia.
  - exists 63. intros m Hm. rewrite backoff_spec by done.
    pose proof (Z.pow_le_mono_r 2 62 (Z.max m 1 - 1) ltac:(lia) ltac:(lia)). nia.
  - intros granted Hg H3. rewrite refresh_spec by lia.
    pose proof (Z.mul_div_le (granted * 3) 4 ltac:(lia)). lia.
Qed.

Lemma retry_schedule_witness : let base := 5 * ns_second in let limit := 5 * ns_minute in let floor := 5 * ns_second in
  backoff 1 base limit = 5 * ns_second /\ backoff 6 base limit = 160 * ns_second /\ backoff 7 base limit = limit
  /\ refreshAfter ns_hour floor = 45 * ns_minute.
Proof.
  intros base limit floor.
  destruct (retry_schedule base limit floor ltac:(by vm_compute) ltac:(by vm_compute) ltac:(by vm_compute)) as (H1&_).
  rewrite !H1 by lia. by vm_compute.
Defined.

(** The longest lease SIP can grant, 2^32-1 seconds, overflows the product by
    three: it is refreshed after the floor, every five seconds. *)
Lemma longest_lease_is_refreshed_at_the_floor :
  refreshAfter ((2 ^ 32 - 1) * ns_second) (5 * ns_second) = 5 * ns_second.
Proof. by vm_compute. Qed.

(** ** One line at a time *)

Section lines.
Context (cfg : Config) (spreads : bool) (puts : Line -> Prop).

(** What one event can do to a line. Times are not before the epoch, and a start
    or a catch-up is spread only if [spreads]; [puts] are the lines put. *)
Inductive line_step : line -> line -> Prop :=
  | ls_start e x : line_step x (startLocked e x)
  | ls_cancel x : line_step x (cancel_line x)
  | ls_put l x : puts l -> User l = User (cur x) -> line_step x (put_line l x)
  | ls_flag now x : 0 <= now -> line_step x (fst (flagIfOverdue now x))
  | ls_begin spread now now' x : pc x = Launched -> 0 <= now -> 0 <= now' -> (spreads = false -> spread <= 0) ->
      line_step x (run_begin spread now now' x)
  | ls_round spread now now' a lt x : pc x = Top a lt -> 0 <= now -> 0 <= now' -> (spreads = false -> spread <= 0) ->
      line_step x (round_begin spread now now' a lt x)
  | ls_answer jitter now now' a lt c res x : pc x = Registering a lt c -> 0 <= now -> 0 <= now' ->
      line_step x (round_end cfg jitter now now' a lt c res x)
  | ls_select r x y : waited r x = Some y -> line_step x y.

Definition allowed (e : Z * choice) : Prop :=
  0 <= fst e /\ match snd e with
    | CPut l => puts (normalised l)
    | CSet ls => Forall (fun l => puts (normalised l)) ls
    | CBegin _ spread now' | CRound _ spread now' => 0 <= now' /\ (spreads = false -> spread <= 0)
    | CAnswer _ _ now' _ => 0 <= now'
    | _ => True
    end.

Lemma waitUntil_cur k t now x : cur (waitUntil k t now x) = cur x.
Proof. unfold waitUntil. destruct (_ <=? 0); [by destruct (over x)|done]. Qed.

Lemma round_end_cur jitter now now' a lt c res x : cur (round_end cfg jitter now now' a lt c res x) = cur x.
Proof. unfold round_end. destruct (over x); [done|]. destruct res; [by rewrite waitUntil_cur|done|by rewrite waitUntil_cur]. Qed.

Lemma wait_cur k d now now' x : cur (wait k d now now' x) = cur x.
Proof. unfold wait. destruct (d <=? 0); [by destruct (over x)|apply waitUntil_cur]. Qed.

Lemma step_user x y : line_step x y -> User (cur y) = User (cur x).
Proof.
  destruct 1 as [e x|x|l x Hp Hu|now x Hn|spread now now' x|spread now now' a lt x|jit now now' a lt c res x|r x y Hw].
  - unfold startLocked. by destruct (cancel x).
  - unfold cancel_line. by destruct (cancel x).
  - unfold put_line. try destruct (sameCredential _ _); exact Hu.
  - unfold flagIfOverdue. by destruct (_ || _).
  - unfold run_begin. destruct (0 <? spread); [by rewrite wait_cur|done].
  - unfold round_begin. destruct (lt && _); [by rewrite wait_cur|done].
  - by rewrite round_end_cur.
  - unfold waited in Hw. destruct (pc x), r; try done; repeat case_match; by simplify_eq/=.
Qed.

(** A line of the manager after some events: one of before, or a new one. *)
Definition came (os os' : list line) : Prop :=
  (length os <= length os')%nat
  /\ forall i y, os' !! i = Some y ->
    match os !! i with
    | Some x => rtc line_step x y
    | None => exists l now, rtc line_step (new_line l now) y
    end.

(** Each line is filed under its user. *)
Definition keys_ok (m : Manager) : Prop := forall u n, lines m !! u = Some n -> exists x, objs m !! n = Some x /\ User (cur x) = u.

Lemma came_refl os : came os os.
Proof. split; [done|]. intros i y ->. constructor. Qed.

Lemma came_trans os1 os2 os3 : came os1 os2 -> came os2 os3 -> came os1 os3.
Proof.
  intros [L1 H1] [L2 H2]. split; [lia|]. intros i z Hz. specialize (H2 i z Hz). destruct (os2 !! i) as [y|] eqn:Ey.
  - specialize (H1 i y Ey). destruct (os1 !! i); [by etrans|]. destruct H1 as (l&now&?). exists l, now. by etrans.
  - apply lookup_ge_None in Ey. by rewrite lookup_ge_None_2 by lia.
Qed.

Lemma came_alter f i os : (forall x, os !! i = Some x -> line_step x (f x)) -> came os (alter f i os).
Proof.
  intros Hf. split; [by rewrite length_alter|]. intros j y Hj. destruct (decide (i = j)) as [->|Hne].
  - rewrite list_lookup_alter_eq in Hj. destruct (os !! j) as [x|] eqn:E; [|done]. injection Hj as <-. apply rtc_once. auto.
  - rewrite list_lookup_alter_ne in Hj by done. rewrite Hj. constructor.
Qed.

Lemma came_held f m : (forall x, line_step x (f x)) -> came (objs m) (objs (on_held f m)).
Proof.
  intros Hf. cbn. generalize (held m). induction l as [|i l IH]; [apply came_refl|].
  eapply came_trans; [apply IH|]. apply came_alter. auto.
Qed.

Lemma came_user os os' i x : came os os' -> os !! i = Some x -> exists y, os' !! i = Some y /\ rtc line_step x y /\ User (cur y) = User (cur x).
Proof.
  intros [Hl Hc] Hx. destruct (os' !! i) as [y|] eqn:Ey.
  - exists y. split; [done|]. specialize (Hc i y Ey). rewrite Hx in Hc. split; [done|].
    clear Hx Ey. induction Hc as [|x1 x2 x3 Hs _ IH]; [done|]. rewrite IH. by apply step_user.
  - apply lookup_lt_Some in Hx. apply lookup_ge_None in Ey. lia.
Qed.

(** The lines and the map after an operation. *)
Definition kept (m m' : Manager) : Prop := came (objs m) (objs m') /\ keys_ok m'.

Lemma kept_sub m m' : keys_ok m -> came (objs m) (objs m') -> lines m' ⊆ lines m -> kept m m'.
Proof.
  intros Hk Hc Hs. split; [done|]. intros u n Hu. destruct (Hk u n) as (x&Hx&<-); [by eapply lookup_weaken|].
  destruct (came_user _ _ n x Hc Hx) as (y&?&_&?). eauto.
Qed.

Lemma kept_trans m1 m2 m3 : kept m1 m2 -> kept m2 m3 -> kept m1 m3.
Proof. intros [? _] [? ?]. split; [by eapply came_trans|done]. Qed.

Lemma kept_put l now m : 0 <= now -> puts (normalised l) -> keys_ok m -> kept m (Put l now m).
Proof.
  intros Hn Hp Hk. unfold Put. case_decide; [by apply kept_sub; [|apply came_refl|]|].
  destruct (lines m !! _) as [n|] eqn:El.
  - apply kept_sub; [done| |done]. apply came_alter. intros x Hx. apply ls_put; [done|].
    destruct (Hk _ _ El) as (x'&Hx'&<-). rewrite Hx in Hx'. by injection Hx' as ->.
  - set (x0 := if started m then startLocked (ended m) (new_line (normalised l) now) else new_line (normalised l) now).
    assert (rtc line_step (new_line (normalised l) now) x0 /\ User (cur x0) = User (normalised l)) as [Hr Hu].
    { unfold x0. destruct (started m); (split; [|done]); [apply rtc_once, (ls_start (ended m) (new_line _ now))|constructor]. }
    split; cbn; fold x0.
    + split; [rewrite length_app; lia|]. intros i y Hy. destruct (objs m !! i) as [x|] eqn:E.
      * rewrite lookup_app_l in Hy by (by eapply lookup_lt_Some). rewrite E in Hy. injection Hy as ->. constructor.
      * apply lookup_app_Some in Hy as [Hy|[_ Hy]]; [congruence|]. apply list_lookup_singleton_Some in Hy as [_ <-]. eauto.
    + intros u n. cbn. intros [[<- <-]|[_ Hu']]%lookup_insert_Some.
      * exists x0. rewrite list_lookup_middle; auto.
      * destruct (Hk u n Hu') as (x&Hx&?). exists x. by rewrite lookup_app_l by (by eapply lookup_lt_Some).
Qed.

Lemma kept_delete u m : keys_ok m -> kept m (Delete u m).
Proof.
  intros Hk. unfold Delete. destruct (lines m !! u) as [n|]; [|by apply kept_sub; [|apply came_refl|]].
  assert (came (objs m) (alter cancel_line n (objs m))) as Hc by (apply came_alter; intros; apply ls_cancel).
  assert (delete u (lines m) ⊆ lines m) as Hs by apply delete_subseteq.
  cbn. destruct (negb (started m)); [by apply kept_sub|]. destruct (alter cancel_line n (objs m) !! n); by apply kept_sub.
Qed.

Lemma kept_same m m' : keys_ok m -> objs m' = objs m -> lines m' = lines m -> kept m m'.
Proof. intros Hk Ho Hl. apply kept_sub; [done|rewrite Ho; apply came_refl|by rewrite Hl]. Qed.

Lemma kept_at m i x f m' : keys_ok m -> objs m !! i = Some x -> line_step x (f x) -> objs m' = alter f i (objs m) -> lines m' = lines m ->
  kept m m'.
Proof.
  intros Hk Hx Hf Ho Hl. apply kept_sub; [done| |by rewrite Hl]. rewrite Ho. apply came_alter. intros x'. rewrite Hx. by intros [= <-].
Qed.

Lemma kept_exec now c m m' : allowed (now, c) -> keys_ok m -> exec cfg now c m = Some m' -> kept m m'.
Proof.
  intros [Hn Hc] Hk He. cbn in Hn, Hc.
  destruct c as [l|u|ls| | | | | |j|i spread now'|i spread now'|i jit now' res|i r]; cbn [exec] in He;
    try (destruct (objs m !! i) as [x|] eqn:E; [|done]; cbn in He).
  - injection He as <-. by apply kept_put.
  - injection He as <-. by apply kept_delete.
  - injection He as <-. unfold Set_.
    assert (forall us m, keys_ok m -> kept m (foldl (fun m u => Delete u m) m us)) as Hd.
    { induction us as [|u us IH]; intros x Hx; [by apply kept_same|]. cbn.
      eapply kept_trans; [by apply kept_delete|]. by apply IH, kept_delete. }
    assert (kept m (foldl (fun m l => Put l now m) m ls)) as Hp.
    { clear Hd. revert m Hk. induction Hc as [|l ls Hl _ IH]; intros m Hk; [by apply kept_same|]. cbn.
      eapply kept_trans; [by apply kept_put|]. by apply IH, kept_put. }
    eapply kept_trans; [exact Hp|]. apply Hd, Hp.
  - injection He as <-. unfold Start. destruct (started m); [by apply kept_same|].
    apply kept_sub; [done| |done]. apply came_held. intros. apply ls_start.
  - injection He as <-. apply kept_sub; [done| |done]. apply (came_held cancel_line). intros. apply ls_cancel.
  - injection He as <-. unfold stop_end. destruct (stopping m); [|by apply kept_same]. destruct (forallb _ _); by apply kept_same.
  - injection He as <-. apply kept_sub; [done| |done]. apply (came_held cancel_line). intros. apply ls_cancel.
  - destruct (sweeping m); [|done]. injection He as <-. apply kept_sub; [done| |done]. apply came_held. intros. by apply ls_flag.
  - injection He as <-. unfold unregister. destruct (unregs m !! j); by apply kept_same.
  - destruct (pc x) eqn:Ep; try done. injection He as <-. eapply kept_at; [done|done| |done|done]. by apply ls_begin; try apply Hc.
  - destruct (pc x) eqn:Ep; try done. injection He as <-. eapply kept_at; [done|done| |done|done]. by apply ls_round; try apply Hc.
  - destruct (pc x) eqn:Ep; try done. injection He as <-. eapply kept_at; [done|done| |reflexivity|done]. by apply ls_answer.
  - destruct (waited r x) as [y|] eqn:Ew; [|done]. injection He as <-. eapply kept_at; [done|done| |reflexivity|done]. by eapply ls_select.
Qed.

Lemma kept_run l m m' : Forall allowed l -> keys_ok m -> run cfg l m = Some m' -> kept m m'.
Proof.
  revert m. induction l as [|[now c] l IH]; intros m Hl Hk; cbn; [intros [= ->]; by apply kept_same|].
  apply Forall_cons in Hl as [Hc Hl]. destruct (exec cfg now c m) as [m1|] eqn:E; [|done]. cbn. intros Hr.
  assert (kept m m1) as Hm by (by eapply kept_exec). eapply kept_trans; [exact Hm|]. by apply IH; [|apply Hm|].
Qed.

Lemma keys_new : keys_ok New.
Proof. intros u n. cbn. by rewrite lookup_empty. Qed.

(** A property of every line ever made. *)
Lemma lines_invariant (P : line -> Prop) l m : (forall c now, P (new_line c now)) -> (forall x y, line_step x y -> P x -> P y) ->
  Forall allowed l -> run cfg l New = Some m -> forall i x, objs m !! i = Some x -> P x.
Proof.
  intros H0 Hs Hl Hr i x Hx. destruct (kept_run l New m Hl keys_new Hr) as [[_ Hc] _]. specialize (Hc i x Hx). cbn in Hc.
  destruct Hc as (c&now&Hc). pose proof (H0 c now) as HP. clear Hx. revert HP. induction Hc; eauto.
Qed.

End lines.

(** ** What the status says of the loop *)

(** The consecutive failures the round [attempt] comes after. *)
Definition after_failures (attempt : Z) (s : Status) : Prop :=
  0 < attempt /\ st_State s = StateRetrying /\ Attempts s = attempt \/ attempt = 0 /\ st_State s <> StateRetrying.

Definition truthful (x : line) : Prop :=
  st_DN (status x) = DN (cur x) /\ st_DigestUser (status x) = DigestUser (cur x)
  /\ (st_State (status x) = StateRegistered <-> 0 < ExpiresAt (status x)) /\ 0 <= ExpiresAt (status x)
  /\ match pc x with
     | Unborn | Launched | Waiting AfterStart => st_State (status x) = StatePending
     | Waiting (AfterLate a _) | Top a _ | Registering a _ _ => after_failures a (status x)
     | Waiting (AfterRound a _) =>
         a = 0 /\ st_State (status x) = StateRegistered
         \/ 0 < a /\ st_State (status x) = StateRetrying /\ Attempts (status x) = a
     | Parked _ _ => st_State (status x) = StateRefused
     | Gone => True
     end.

(** The deadline stands exactly while the loop waits and has not been told it is
    overdue; the token lives no longer than the wait. *)
Definition tokens_ok (x : line) : Prop :=
  match pc x with
  | Waiting _ => 0 < until x /\ late x = false \/ until x = 0 /\ late x = true
  | _ => until x = 0 /\ late x = false
  end.

(** The loop's own copy of the credential is the stored one, or a token says it
    is not. [AfterLate] is the wait where the copy is already made. *)
Definition in_step (x : line) : Prop :=
  match pc x with
  | Registering _ _ c | Waiting (AfterRound _ c) | Parked _ c => sameCredential c (cur x) = true \/ wake x = true
  | Waiting (AfterLate _ _) => False
  | _ => True
  end.

Lemma sameCredential_refl c : sameCredential c c = true.
Proof. unfold sameCredential. by rewrite !bool_decide_eq_true_2. Qed.

Lemma sameCredential_spec c d : sameCredential c d = true <-> DN c = DN d /\ DigestUser c = DigestUser d /\ Secret c = Secret d.
Proof. unfold sameCredential. rewrite !andb_true_iff, !bool_decide_eq_true. naive_solver. Qed.

Lemma sameCredential_trans c d e : sameCredential c d = true -> sameCredential d e = true -> sameCredential c e = true.
Proof. rewrite !sameCredential_spec. intros (->&->&->). done. Qed.

(** Where a wait leaves the line. *)
Lemma wait_cases k d now now' x : 0 <= now -> 0 <= now' ->
  (exists t, 0 < t /\ wait k d now now' x = with_pc (armDeadline t x) (Waiting k)) 
  \/ wait k d now now' x = with_pc x Gone \/ exists b, wait k d now now' x = resume k b x.
Proof.
  intros H0 H1. unfold wait, waitUntil. destruct (d <=? 0); [destruct (over x); eauto|].
  destruct (Z.leb_spec (time_sub (now + d) now') 0) as [Hle|Hlt]; [destruct (over x); eauto|].
  left. exists (now + d). split; [|done]. unfold time_sub in Hlt. lia.
Qed.

Lemma waitUntil_cases k t now' x : 0 <= now' ->
  (0 < t /\ waitUntil k t now' x = with_pc (armDeadline t x) (Waiting k)) 
  \/ waitUntil k t now' x = with_pc x Gone \/ waitUntil k t now' x = resume k true x.
Proof.
  intros H1. unfold waitUntil. destruct (Z.leb_spec (time_sub t now') 0) as [Hle|Hlt]; [destruct (over x); eauto|].
  left. split; [|done]. unfold time_sub in Hlt. lia.
Qed.

Section invariants.
Context (cfg : Config) (spreads : bool) (puts : Line -> Prop).
Hypothesis expiry_positive : 0 < cfg_Expiry cfg.

(** A line whose loop was never launched has no goroutine. *)
Definition born_ok (x : line) : Prop := cancel x = false -> pc x = Unborn.

Lemma born_step x y : line_step cfg spreads puts x y -> born_ok x -> born_ok y.
Proof.
  unfold born_ok. destruct 1 as [e x|x|l x _ _|now x Hn|spread now now' x Hp Hn Hn' _|spread now now' a lt x Hp Hn Hn' _|jit now now' a lt c res x Hp Hn Hn'|r x y Hw]; intros Hb.
  - unfold startLocked. destruct (cancel x) eqn:E; cbn; congruence.
  - unfold cancel_line. destruct (cancel x) eqn:E; cbn; [congruence|rewrite E; done].
  - unfold put_line. by try destruct (sameCredential _ _).
  - unfold flagIfOverdue. by destruct (_ || _).
  - unfold run_begin. destruct (0 <? spread); [|cbn; intros Hc; by rewrite Hb in Hp].
    destruct (wait_cases AfterStart spread now now' x Hn Hn') as [(t&_&->)|[->|[b ->]]]; cbn; intros Hc; by rewrite Hb in Hp.
  - unfold round_begin. destruct (lt && _); [|cbn; intros Hc; by rewrite Hb in Hp].
    destruct (wait_cases (AfterLate a (cur x)) spread now now' x Hn Hn') as [(t&_&->)|[->|[b ->]]]; cbn; intros Hc; by rewrite Hb in Hp.
  - intros Hc. exfalso. assert (cancel x = false) as Hx; [|by rewrite Hb in Hp]. revert Hc. unfold round_end.
    destruct (over x); [done|]. destruct res; cbn; try done;
      match goal with |- context [waitUntil ?k ?t ?n ?z] => destruct (waitUntil_cases k t n z Hn') as [[_ ->]|[->| ->]] end; done.
  - intros Hc. exfalso. assert (cancel x = false) as Hx.
    { revert Hc. unfold waited in Hw. destruct (pc x), r; try done; repeat case_match; simplify_eq/=; try done. }
    unfold waited in Hw. by rewrite Hb in Hw.
Qed.

Lemma tokens_step x y : line_step cfg spreads puts x y -> born_ok x -> tokens_ok x -> tokens_ok y.
Proof.
  unfold tokens_ok. destruct 1 as [e x|x|l x _ _|now x Hn|spread now now' x Hp Hn Hn' _|spread now now' a lt x Hp Hn Hn' _|jit now now' a lt c res x Hp Hn Hn'|r x y Hw]; intros Hb Ht.
  - unfold startLocked. destruct (cancel x) eqn:E; [done|]. rewrite Hb in Ht by done. done.
  - unfold cancel_line. by destruct (cancel x).
  - unfold put_line. by try destruct (sameCredential _ _).
  - unfold flagIfOverdue. destruct (_ || _) eqn:E; [done|]. apply orb_false_iff in E as [E _]. unfold is_zero in E.
    cbn. destruct (pc x); try (destruct Ht as [Ht _]; lia). right. done.
  - unfold run_begin. rewrite Hp in Ht. destruct (0 <? spread); [|done].
    by destruct (wait_cases AfterStart spread now now' x Hn Hn') as [(t&Ht'&->)|[->|[b ->]]]; cbn; [left; destruct Ht| |].
  - unfold round_begin. rewrite Hp in Ht. destruct (lt && _); [|done].
    by destruct (wait_cases (AfterLate a (cur x)) spread now now' x Hn Hn') as [(t&Ht'&->)|[->|[b ->]]]; cbn; [left; destruct Ht| |].
  - rewrite Hp in Ht. unfold round_end. destruct (over x); [done|]. destruct res; [|done|];
      match goal with |- context [waitUntil ?k ?t ?n ?z] => destruct (waitUntil_cases k t n z Hn') as [[Ht' ->]|[->| ->]] end;
      cbn; try done; left; by destruct Ht.
  - unfold waited in Hw. destruct (pc x) as [| | | |k|lt c|] eqn:Ep, r; try done; repeat case_match; simplify_eq/=; try done; by destruct k.
Qed.

Lemma truthful_step x y : line_step cfg spreads puts x y -> born_ok x -> truthful x -> truthful y.
Proof.
  unfold truthful. destruct 1 as [e x|x|l x _ _|now x Hn|spread now now' x Hp Hn Hn' _|spread now now' a lt x Hp Hn Hn' _|jit now now' a lt c res x Hp Hn Hn'|r x y Hw];
    intros Hb (Hd&Hu&He&He0&Hs).
  - unfold startLocked. destruct (cancel x) eqn:E; [done|]. rewrite Hb in Hs by done. done.
  - unfold cancel_line. by destruct (cancel x).
  - unfold put_line. by try destruct (sameCredential _ _).
  - unfold flagIfOverdue. by destruct (_ || _).
  - rewrite Hp in Hs. unfold run_begin. assert (after_failures 0 (status x)) by (right; split; [done|congruence]).
    destruct (0 <? spread); [|done].
    by destruct (wait_cases AfterStart spread now now' x Hn Hn') as [(t&_&->)|[->|[b ->]]].
  - rewrite Hp in Hs. unfold round_begin. destruct (lt && _); [|done].
    by destruct (wait_cases (AfterLate a (cur x)) spread now now' x Hn Hn') as [(t&_&->)|[->|[b ->]]].
  - rewrite Hp in Hs. unfold round_end. destruct (over x); [done|]. destruct res as [reg|st reason|msg].
    + set (granted := if Expiry reg <=? 0 then cfg_Expiry cfg else Expiry reg).
      assert (0 < granted) as Hg by (unfold granted; destruct (Z.leb_spec (Expiry reg) 0); lia).
      assert (after_failures 0 (status (registered now granted (Realm reg) x))) by (by right).
      match goal with |- context [waitUntil ?k ?t ?n ?z] => destruct (waitUntil_cases k t n z Hn') as [[_ ->]|[->| ->]] end; cbn;
        (split; [done|]); (split; [done|]); (split; [split; [lia|done]|]); (split; [lia|]); [by left|done|done].
    + cbn. done.
    + assert (0 <= a) as Ha by (destruct Hs as [?|?]; lia).
      assert (after_failures (a + 1) (status (retrying now msg (a + 1) x))) by (left; split; [lia|done]).
      match goal with |- context [waitUntil ?k ?t ?n ?z] => destruct (waitUntil_cases k t n z Hn') as [[_ ->]|[->| ->]] end; cbn;
        (split; [done|]); (split; [done|]); (split; [done|]); (split; [lia|]); [right; split; [lia|done]|done|done].
  - unfold waited in Hw. destruct (pc x) as [| | | |k|lt c|] eqn:Ep, r; try done; repeat case_match; simplify_eq/=;
      do 4 (split; [done|]); try done; try (right; split; [done|congruence]);
      (destruct Hs as [[-> ?]|?]; [right; split; [done|congruence]|by left]).
Qed.

Lemma line_ok_reachable l m i x : Forall (allowed spreads puts) l -> run cfg l New = Some m -> objs m !! i = Some x ->
  born_ok x /\ tokens_ok x /\ truthful x.
Proof.
  intros Hl Hr Hx. eapply (lines_invariant cfg spreads puts (fun x => born_ok x /\ tokens_ok x /\ truthful x)); [| |done|done|done].
  - intros c now. split; [done|]. split; [done|]. done.
  - intros y z Hs (Hb&Ht&Hu). split; [by eapply born_step|]. split; [by eapply tokens_step|by eapply truthful_step].
Qed.

Lemma in_step_step x y : spreads = false -> line_step cfg spreads puts x y -> born_ok x -> in_step x -> in_step y.
Proof.
  intros Hsp. unfold in_step. destruct 1 as [e x|x|l x _ _|now x Hn|spread now now' x Hp Hn Hn' Hz|spread now now' a lt x Hp Hn Hn' Hz|jit now now' a lt c res x Hp Hn Hn'|r x y Hw];
    intros Hb Hs.
  - unfold startLocked. by destruct (cancel x).
  - unfold cancel_line. by destruct (cancel x).
  - assert (forall c, sameCredential c (cur x) = true \/ wake x = true ->
      sameCredential c (cur (put_line l x)) = true \/ wake (put_line l x) = true) as Hc.
    { intros c Hc. unfold put_line. destruct (sameCredential (cur x) l) eqn:E; cbn; [|by right].
      destruct Hc as [Hc|Hc]; [left|by right]. by eapply sameCredential_trans. }
    assert (pc (put_line l x) = pc x) as -> by (unfold put_line; by try destruct (sameCredential _ _)).
    destruct (pc x) as [| | | |[]| |]; auto.
  - unfold flagIfOverdue. by destruct (_ || _).
  - unfold run_begin. destruct (Z.ltb_spec 0 spread); [specialize (Hz Hsp); lia|done].
  - unfold round_begin. destruct (Z.ltb_spec 0 spread); [specialize (Hz Hsp); lia|]. rewrite andb_false_r. cbn. left. apply sameCredential_refl.
  - rewrite Hp in Hs. unfold round_end. destruct (over x); [done|]. destruct res; [|done|];
      match goal with |- context [waitUntil ?k ?t ?n ?z] => destruct (waitUntil_cases k t n z Hn') as [[_ ->]|[->| ->]] end; done.
  - unfold waited in Hw. destruct (pc x) as [| | | |k|lt c|] eqn:Ep, r; try done; repeat case_match; simplify_eq/=; done.
Qed.

End invariants.

(** ** The properties *)

(** what a line's status says is what its loop is doing. After any events in
    any interleaving, on every line ever made: pending until its first answer,
    registered with a lease while it waits to refresh, retrying with the count of
    the consecutive failures while it backs off, refused while it is parked; a
    lease is shown exactly while it is registered, and the numbers shown are the
    credential's. A deadline stands exactly while the loop waits and no sweep has
    flagged it, and a sweep's token never outlives the wait it was sent for. *)
Theorem line_status_is_truthful c spreads l m i x : let cfg := applyDefaults c in
  Forall (allowed spreads (fun _ => True)) l -> run cfg l New = Some m -> objs m !! i = Some x ->
  st_DN (status x) = DN (cur x) /\ st_DigestUser (status x) = DigestUser (cur x)
  /\ (st_State (status x) = StateRegistered <-> 0 < ExpiresAt (status x))
  /\ match pc x with
     | Unborn | Launched | Waiting AfterStart => st_State (status x) = StatePending
     | Waiting (AfterRound a _) =>
         a = 0 /\ st_State (status x) = StateRegistered
         \/ 0 < a /\ st_State (status x) = StateRetrying /\ Attempts (status x) = a
     | Waiting (AfterLate a _) | Top a _ | Registering a _ _ =>
         0 < a /\ st_State (status x) = StateRetrying /\ Attempts (status x) = a
         \/ a = 0 /\ st_State (status x) <> StateRetrying
     | Parked _ _ => st_State (status x) = StateRefused
     | Gone => True
     end
  /\ match pc x with
     | Waiting _ => 0 < until x /\ late x = false \/ until x = 0 /\ late x = true
     | _ => until x = 0 /\ late x = false
     end.
Proof.
  intros cfg Hl Hr Hx. assert (0 < cfg_Expiry cfg) as He.
  { unfold cfg, applyDefaults. cbn. destruct (Z.leb_spec (cfg_Expiry c) 0); [done|lia]. }
  destruct (line_ok_reachable cfg spreads (fun _ => True) He l m i x Hl Hr Hx) as (_&Ht&Hd&Hu&Hs&_&Hp).
  split; [done|]. split; [done|]. split; [done|]. split; [exact Hp|exact Ht].
Qed.

(** C25: no credential change is lost. When starts and catch-ups are not spread
    (the default), after any events in any interleaving each line's loop that is
    sending a REGISTER, waiting to refresh or retry, or parked on a refusal has
    used the credential stored for the line, or holds a token that ends its wait
    and makes it register again with the stored one. *)
Theorem no_credential_is_lost c l m i x : let cfg := applyDefaults c in
  Forall (allowed false (fun _ => True)) l -> run cfg l New = Some m -> objs m !! i = Some x ->
  match pc x with
  | Registering _ _ used | Waiting (AfterRound _ used) | Parked _ used =>
      sameCredential used (cur x) = true
      \/ wake x = true /\ forall k lt, pc x = Waiting k \/ pc x = Parked lt used ->
           exists a b y, waited RWake x = Some y /\ pc y = Top a b
             /\ pc (round_begin 0 0 0 a b y) = Registering a b (cur x)
  | Waiting (AfterLate _ _) => False
  | _ => True
  end.
Proof.
  intros cfg Hl Hr Hx.
  assert (born_ok x /\ in_step x) as [_ Hi].
  { eapply (lines_invariant cfg false (fun _ => True) (fun x => born_ok x /\ in_step x)); [| |done|done|done]; [done|].
    intros y z Hs [Hb Hi]. split; [by eapply born_step|]. by eapply in_step_step. }
  unfold in_step in Hi. destruct (pc x) as [| |a lt|a lt used|[| |a used]|lt used|] eqn:Ep; try done;
    (destruct Hi as [Hi|Hw]; [by left|right; split; [done|]]); intros k lt' [[= <-]|[= <-]]; unfold waited; rewrite Ep, Hw.
  - exists a, false, (resume (AfterRound a used) false (disarmDeadline (with_wake x false))). done.
  - exists 0, lt, (with_pc (with_wake x false) (Top 0 lt)). split; [done|]. split; [done|]. unfold round_begin. by destruct lt.
Qed.

(** a refused credential is not sent again. Once a line is parked on a refusal
    with no token left, it stays parked or ends whatever happens, for as long as
    no write changes its credential: it sends no REGISTER, and neither the sweep
    nor a write of the same credential wakes it. *)
Theorem refused_line_stays_silent c spreads l m i x lt used l' m' : let cfg := applyDefaults c in
  Forall (allowed spreads (fun _ => True)) l -> run cfg l New = Some m ->
  objs m !! i = Some x -> pc x = Parked lt used -> wake x = false ->
  Forall (allowed spreads (fun p => User p = User (cur x) -> sameCredential (cur x) p = true)) l' -> run cfg l' m = Some m' ->
  exists y, objs m' !! i = Some y /\ (pc y = Parked lt used \/ pc y = Gone) /\ sameCredential (cur x) (cur y) = true.
Proof.
  intros cfg Hl Hr Hx Hp Hw Hl' Hr'.
  assert (keys_ok m) as Hk by (by eapply (kept_run cfg spreads (fun _ => True) l New m); [|apply keys_new|]).
  assert (born_ok x) as Hb.
  { eapply (lines_invariant cfg spreads (fun _ => True) born_ok); [done| |done|done|done]. intros. by eapply born_step. }
  pose (P := fun y => born_ok y /\ (pc y = Parked lt used \/ pc y = Gone) /\ wake y = false
               /\ sameCredential (cur x) (cur y) = true /\ User (cur y) = User (cur x)).
  destruct (kept_run _ spreads _ l' m m' Hl' Hk Hr') as [Hc _].
  destruct (came_user _ _ _ _ _ i x Hc Hx) as (y&Hy&Hs&_). exists y. split; [done|].
  assert (P y) as (_&?&_&?&_); [|done].
  assert (P x) as HP by (repeat split; auto; apply sameCredential_refl). clear Hy Hx. revert HP.
  induction Hs as [|x1 x2 x3 H1 _ IH]; [done|]. intros (Hb1&Hp1&Hw1&Hc1&Hu1). apply IH. split; [by eapply born_step|].
  destruct H1 as [e z|z|p z Hput Hup|now z Hn|spread now now' z Hz|spread now now' a lt' z Hz|jit now now' a lt' c' res z Hz|r z z' Hz].
  - unfold startLocked. destruct (cancel z) eqn:Ec; [done|]. exfalso. rewrite Hb1 in Hp1 by done. by destruct Hp1.
  - unfold cancel_line. by destruct (cancel z).
  - assert (sameCredential (cur z) p = true) as Hsame.
    { specialize (Hput ltac:(congruence)). apply sameCredential_spec in Hput as (H1&H2&H3).
      apply sameCredential_spec in Hc1 as (H4&H5&H6). apply sameCredential_spec. split; [congruence|split; congruence]. }
    unfold put_line. rewrite Hsame. cbn. split; [done|]. split; [done|]. split; [apply Hput|]; congruence.
  - unfold flagIfOverdue. by destruct (_ || _).
  - destruct Hp1; congruence.
  - destruct Hp1; congruence.
  - destruct Hp1; congruence.
  - unfold waited in Hz. destruct Hp1 as [Hp1|Hp1]; rewrite Hp1 in Hz; [|by destruct r].
    destruct r; try done; [|by rewrite Hw1 in Hz]. destruct (over z); [|done]. injection Hz as <-. cbn. auto.
Qed.

(** *** Examples *)

Module Demo.

Definition conf : Config := mkConfig 0 0 0 0 0 0 0.
Definition cfg : Config := applyDefaults conf.
Definition alice : Line := mkLine "2001" "" "alice" "old".
Definition alice' : Line := mkLine "2001" "" "alice" "new".
Definition at_ (t : Z) (c : choice) : Z * choice := (t * ns_second, c).
Definition granted : reg_result := Granted (mkRegistration ns_hour "cucm").

(** The line up to its first REGISTER. *)
Definition up : list (Z * choice) := map (at_ 1) [CPut alice; CStart; CBegin 0 0 ns_second; CRound 0 0 ns_second].

(** The credential is changed while the REGISTER with the old one is in flight. *)
Definition changed : list (Z * choice) := up ++ map (at_ 2) [CPut alice'; CAnswer 0 id (2 * ns_second) granted].

Definition refused : list (Z * choice) := up ++ [at_ 2 (CAnswer 0 id (2 * ns_second) (Refused 403 "Forbidden"))].
Definition pestered : list (Z * choice) := [at_ 3 (CPut alice); at_ 10000 CSweep; at_ 10001 (CSet [alice])].

Definition after (l : list (Z * choice)) : Manager := default New (run cfg l New).
Definition the_line (l : list (Z * choice)) : line := default (new_line alice 0) (objs (after l) !! 0%nat).

(** A catch-up after a sleep is spread, and the credential is changed meanwhile. *)
Definition overslept : list (Z * choice) :=
  up ++ [at_ 2 (CAnswer 0 id (2 * ns_second) granted); at_ 10000 CSweep; at_ 10000 (CSelect 0 RLate);
         at_ 10000 (CRound 0 (2 * ns_second) (10000 * ns_second)); at_ 10001 (CPut alice'); at_ 10001 (CSelect 0 RWake);
         at_ 10002 (CAnswer 0 id (10002 * ns_second) (Refused 403 "Forbidden"))].

(** The line is deleted and put again before its contact is dropped. *)
Definition replaced : list (Z * choice) :=
  up ++ map (at_ 2) [CAnswer 0 id (2 * ns_second) granted; CDelete "2001"; CPut alice; CBegin 1 0 (2 * ns_second);
                     CRound 1 0 (2 * ns_second); CAnswer 1 id (2 * ns_second) granted; CUnregister 0].

Ltac all_allowed :=
  repeat (apply Forall_cons; split); try exact (List.Forall_nil _);
  (split; [vm_compute; discriminate|]); cbv beta iota delta [fst snd at_];
  lazymatch goal with
  | |- True => exact I
  | |- _ /\ _ => split; [vm_compute; discriminate|intros _; vm_compute; discriminate]
  | |- Forall _ _ => apply Forall_singleton; intros _; vm_compute; reflexivity
  | |- _ = _ -> _ => intros _; vm_compute; reflexivity
  | |- _ => vm_compute; discriminate
  end.

End Demo.

Lemma line_status_is_truthful_witness :
  pc (Demo.the_line Demo.changed) = Waiting (AfterRound 0 (normalised Demo.alice))
  /\ st_State (status (Demo.the_line Demo.changed)) = StateRegistered
  /\ 0 < ExpiresAt (status (Demo.the_line Demo.changed)) /\ 0 < until (Demo.the_line Demo.changed).
Proof.
  assert (pc (Demo.the_line Demo.changed) = Waiting (AfterRound 0 (normalised Demo.alice))) as Hp by (by vm_compute).
  pose proof (line_status_is_truthful Demo.conf false Demo.changed (Demo.after Demo.changed) 0%nat (Demo.the_line Demo.changed)
    ltac:(unfold Demo.changed, Demo.up; cbn [map app]; Demo.all_allowed) ltac:(by vm_compute) ltac:(by vm_compute)) as (_&_&He&Hs&Hu).
  rewrite Hp in Hs, Hu. destruct Hs as [[_ Hs]|[Hs _]]; [|by vm_compute in Hs].
  destruct Hu as [[Hu _]|[Hu _]]; [|by vm_compute in Hu].
  split; [exact Hp|]. split; [exact Hs|]. split; [by apply He|exact Hu].
Defined.

Lemma no_credential_is_lost_witness :
  pc (Demo.the_line Demo.changed) = Waiting (AfterRound 0 (normalised Demo.alice))
  /\ sameCredential (normalised Demo.alice) (cur (Demo.the_line Demo.changed)) = false
  /\ wake (Demo.the_line Demo.changed) = true.
Proof.
  assert (pc (Demo.the_line Demo.changed) = Waiting (AfterRound 0 (normalised Demo.alice))) as Hp by (by vm_compute).
  pose proof (no_credential_is_lost Demo.conf Demo.changed (Demo.after Demo.changed) 0%nat (Demo.the_line Demo.changed)
    ltac:(unfold Demo.changed, Demo.up; cbn [map app]; Demo.all_allowed) ltac:(by vm_compute) ltac:(by vm_compute)) as Hi.
  rewrite Hp in Hi. split; [exact Hp|]. split; [by vm_compute|]. destruct Hi as [Hi|[Hi _]]; [by vm_compute in Hi|exact Hi].
Defined.

Lemma refused_line_stays_silent_witness :
  exists m' y, run Demo.cfg Demo.pestered (Demo.after Demo.refused) = Some m' /\ objs m' !! 0%nat = Some y
    /\ (pc y = Parked false (normalised Demo.alice) \/ pc y = Gone).
Proof.
  eexists. destruct (refused_line_stays_silent Demo.conf false Demo.refused (Demo.after Demo.refused) 0%nat (Demo.the_line Demo.refused)
    false (normalised Demo.alice) Demo.pestered (default New (run Demo.cfg Demo.pestered (Demo.after Demo.refused)))
    ltac:(unfold Demo.refused, Demo.up; cbn [map app]; Demo.all_allowed) ltac:(by vm_compute) ltac:(by vm_compute) ltac:(by vm_compute)
    ltac:(by vm_compute) ltac:(unfold Demo.pestered; Demo.all_allowed) ltac:(by vm_compute)) as (y&Hy&Hp&_).
  exists y. split; [|split; [exact Hy|exact Hp]]. by vm_compute.
Defined.

(** With a start spread, the token of a credential change is taken by the wait
    that spreads a catch-up, whose REGISTER still carries the old credential: the
    line is refused and stays parked though the right credential is stored. *)
Lemma spread_catch_up_loses_the_credential :
  let x := Demo.the_line Demo.overslept in
  run Demo.cfg Demo.overslept New = Some (Demo.after Demo.overslept) /\ objs (Demo.after Demo.overslept) !! 0%nat = Some x
  /\ pc x = Parked true (normalised Demo.alice) /\ cur x = normalised Demo.alice' /\ wake x = false.
Proof. by vm_compute. Qed.

(** The contact of a line that was deleted and put again is dropped after the new
    loop has registered: the exchange has no binding for a line that shows itself
    registered until its next refresh. *)
Lemma replaced_line_loses_its_binding :
  let m := Demo.after Demo.replaced in
  run Demo.cfg Demo.replaced New = Some m
  /\ exchange m = [TRegister (normalised Demo.alice); TRegister (normalised Demo.alice); TUnregister (normalised Demo.alice)]
  /\ exists x, line_of m "2001" = Some x /\ st_State (status x) = StateRegistered
       /\ pc x = Waiting (AfterRound 0 (normalised Demo.alice)) /\ until x = 2702 * ns_second.
Proof. split; [by vm_compute|]. split; [by vm_compute|]. eexists. split; [by vm_compute|]. by vm_compute. Qed.
