(* ===== verification/PbxRegister.v ===== *)
(** The REGISTER of a PBX line (src/server/internal/pbxline/sipreg.go): the request
    kept per line, the digest exchange, and how each answer is classed.

    - A request holds the fields the source sets; what the SIP client adds (Via,
      CSeq, Call-ID) is its own. The kept request is mutated in place, so the
      registrar's map is threaded through every change.
    - Arguments: the client's [Do], given everything sent before, and the digest
      library's parsing, capability check and computation. *)

From stdpp Require Import pretty.
From S2P Require Import Prelude Text PbxLine.
Open Scope Z_scope.

Record SIPConfig := mkSIPConfig {
  reg_Host : string; reg_Port : Z; reg_transport : option string;
  Domain : string; contact_Host : string; contact_Port : Z; UserAgent : string;
}.

Record request := mkRequest {
  r_transport : option string;
  aor_user : string; aor_host : string;           (* of To and From *)
  r_contact : string * string * Z;                (* user, host, port *)
  r_useragent : option string;
  r_expires : option Z;
  r_auth : list (string * string);                (* Authorization and Proxy-Authorization *)
}.

Record response := mkResponse {
  StatusCode : Z;
  Reason : string;
  GetHeader : string -> option string;
  contact_expires : option string;                (* of the Contact it echoed *)
}.

Definition NewSIPRegistrar (has_client : bool) (c : SIPConfig) : option SIPConfig :=
  if negb has_client then None else
  if decide (reg_Host c = "") then None else
  Some (if decide (Domain c = "")
        then mkSIPConfig (reg_Host c) (reg_Port c) (reg_transport c) (reg_Host c) (contact_Host c) (contact_Port c) (UserAgent c)
        else c).

Definition new_request (c : SIPConfig) (l : Line) : request :=
  mkRequest
    (match reg_transport c with Some t => if decide (t <> "") then Some t else None | None => None end)
    (DN l) (Domain c) (DN l, contact_Host c, contact_Port c)
    (if decide (UserAgent c <> "") then Some (UserAgent c) else None) None [].

(** [request]: kept or built, under the lock. *)
Definition request_ (c : SIPConfig) (reqs : gmap string request) (l : Line) : gmap string request * request :=
  match reqs !! User l with
  | Some r => (reqs, r)
  | None => (<[User l := new_request c l]> reqs, new_request c l)
  end.

Definition with_expires (r : request) e := mkRequest (r_transport r) (aor_user r) (aor_host r) (r_contact r) (r_useragent r) e (r_auth r).
Definition with_auth (r : request) a := mkRequest (r_transport r) (aor_user r) (aor_host r) (r_contact r) (r_useragent r) (r_expires r) a.

Definition clearAuth (r : request) : request := with_auth r [].

(** The whole seconds of the duration. *)
Definition setExpires (d : Z) (r : request) : request := with_expires r (Some (d `quot` ns_second)).

Definition isChallenge (r : response) : bool := (StatusCode r =? 401) || (StatusCode r =? 407).

(** A header's seconds as a duration, if it is a positive number. *)
Definition seconds_header (v : string) : option Z :=
  n ← atoi v; if decide (0 < n) then Some (i64 (n * ns_second)) else None.

Definition grantedExpiry (res : response) (asked : Z) : Z :=
  match (h ← GetHeader res "Expires"; seconds_header (to_string (TrimSpace (T h)))) with
  | Some d => d
  | None => match (v ← contact_expires res; seconds_header v) with Some d => d | None => asked end
  end.

Definition minExpires (res : response) : option Z := h ← GetHeader res "Min-Expires"; seconds_header (to_string (TrimSpace (T h))).

Definition responseError (res : response) : reg_result :=
  let code := StatusCode res in
  if (code =? 408) || (code =? 480) || (code =? 503) || (500 <=? code)
  then Failed ("pbx answered " +:+ pretty code +:+ " " +:+ Reason res)
  else Refused code (Reason res).

Section registrar.
Context (c : SIPConfig) {Challenge : Type}
  (ParseChallenge : string -> Challenge + string) (chal_Realm : Challenge -> string)
  (CanDigest : Challenge -> bool) (unsupported : Challenge -> string)
  (Digest : Challenge -> string -> string -> string -> string -> string + string).

(** [Client.Do] on the requests sent so far and this one: the final response, or
    an error. *)
Context (Do : list request -> request -> response + string) (recipient : string).

Definition challenge (res : response) : (Challenge * string) + string :=
  let proxy := StatusCode res =? 407 in
  let name := if proxy then "Proxy-Authenticate" else "WWW-Authenticate" in
  let answer := if proxy then "Proxy-Authorization" else "Authorization" in
  match GetHeader res name with
  | None => inr (pretty (StatusCode res) +:+ " without a " +:+ name +:+ " header")
  | Some h =>
      match ParseChallenge h with
      | inr e => inr ("unparseable " +:+ name +:+ ": " +:+ e)
      | inl chal => if CanDigest chal then inl (chal, answer) else inr (unsupported chal)
      end
  end.

Definition authorization (chal : Challenge) (method uri username password : string) : string + string :=
  Digest chal method uri username password.

Definition send_error (e : string) : reg_result := Failed ("register " +:+ recipient +:+ ": " +:+ e).

Record outcome := mkOutcome { result : reg_result; sent : list request; kept_request : request }.

(** The answer to the request as it stands after any 423: the digest exchange. *)
Definition answer_challenge (l : Line) (expiry : Z) (req : request) (res : response) (hist : list request) : outcome :=
  if isChallenge res then
    match challenge res with
    | inr e => mkOutcome (Refused (StatusCode res) e) hist req
    | inl (chal, hdr) =>
        match authorization chal "REGISTER" recipient (DigestUser l) (Secret l) with
        | inr e => mkOutcome (Refused (StatusCode res) e) hist req
        | inl auth =>
            let req := with_auth req (filter (fun h => fst h <> hdr) (r_auth req) ++ [(hdr, auth)]) in
            match Do hist req with
            | inr e => mkOutcome (send_error e) (hist ++ [req]) req
            | inl res =>
                mkOutcome
                  (if isChallenge res then Refused (StatusCode res) "credential refused" else
                   if negb (StatusCode res =? 200) then responseError res else
                   Granted (mkRegistration (grantedExpiry res expiry) (chal_Realm chal)))
                  (hist ++ [req]) req
            end
        end
    end
  else mkOutcome (if negb (StatusCode res =? 200) then responseError res
                  else Granted (mkRegistration (grantedExpiry res expiry) "")) hist req.

Definition register_request (l : Line) (expiry : Z) (req : request) : outcome :=
  let req := setExpires expiry (clearAuth req) in
  match Do [] req with
  | inr e => mkOutcome (send_error e) [req] req
  | inl res =>
      if StatusCode res =? 423 then
        match minExpires res with
        | None => mkOutcome (Refused (StatusCode res) "423 without a usable Min-Expires") [req] req
        | Some m =>
            let req' := setExpires m req in
            match Do [req] req' with
            | inr e => mkOutcome (send_error e) [req; req'] req'
            | inl res => answer_challenge l expiry req' res [req; req']
            end
        end
      else answer_challenge l expiry req res [req]
  end.

Definition register (reqs : gmap string request) (l : Line) (expiry : Z) : gmap string request * reg_result * list request :=
  let '(reqs, req) := request_ c reqs l in
  let o := register_request l expiry req in
  (<[User l := kept_request o]> reqs, result o, sent o).

Definition Register (reqs : gmap string request) (l : Line) (expiry : Z) := register reqs l expiry.

Definition Unregister (reqs : gmap string request) (l : Line) : gmap string request * reg_result * list request :=
  let '(reqs, r, s) := register reqs l 0 in (delete (User l) reqs, r, s).

(** ** Properties *)

Definition same_identity (r req : request) : Prop :=
  r_transport r = r_transport req /\ aor_user r = aor_user req /\ aor_host r = aor_host req
  /\ r_contact r = r_contact req /\ r_useragent r = r_useragent req.

(** The last request of an exchange: after what, with what proof, to what end. *)
Definition ends_with (l : Line) (expiry : Z) (pre : list request) (final : request) (res : reg_result) : Prop :=
  (r_auth final = [] \/
   exists pre' p ans chal hdr auth, pre = pre' ++ [p] /\ Do pre' p = inl ans /\ challenge ans = inl (chal, hdr)
     /\ isChallenge ans = true /\ Digest chal "REGISTER" recipient (DigestUser l) (Secret l) = inl auth /\ r_auth final = [(hdr, auth)])
  /\ match Do pre final with
     | inr e => res = send_error e
     | inl ans =>
         ((exists reg, res = Granted reg) <-> StatusCode ans = 200)
         /\ (StatusCode ans = 200 -> exists realm, res = Granted (mkRegistration (grantedExpiry ans expiry) realm))
         /\ (isChallenge ans = true -> exists why, res = Refused (StatusCode ans) why)
         /\ (isChallenge ans = true -> r_auth final <> [] -> res = Refused (StatusCode ans) "credential refused")
     end.

Lemma responseError_granted ans reg : responseError ans <> Granted reg.
Proof. unfold responseError. by destruct (_ || _). Qed.

Lemma not_challenge ans : StatusCode ans = 200 -> isChallenge ans = false.
Proof. unfold isChallenge. by intros ->. Qed.

Lemma plain_end l expiry pre final ans realm : Do pre final = inl ans -> isChallenge ans = false ->
  (r_auth final = [] \/
   exists pre' p ans chal hdr auth, pre = pre' ++ [p] /\ Do pre' p = inl ans /\ challenge ans = inl (chal, hdr)
     /\ isChallenge ans = true /\ Digest chal "REGISTER" recipient (DigestUser l) (Secret l) = inl auth /\ r_auth final = [(hdr, auth)]) ->
  ends_with l expiry pre final
    (if negb (StatusCode ans =? 200) then responseError ans else Granted (mkRegistration (grantedExpiry ans expiry) realm)).
Proof.
  intros Hd Hc Ha. split; [done|]. rewrite Hd. destruct (Z.eqb_spec (StatusCode ans) 200) as [E|E]; cbn [negb].
  - split; [split; eauto|]. split; [eauto|]. rewrite Hc. done.
  - split; [split; [intros [reg Hr]; by apply responseError_granted in Hr|done]|]. split; [done|]. by rewrite Hc.
Qed.

Lemma refused_end l expiry pre final ans why : Do pre final = inl ans -> r_auth final = [] -> StatusCode ans <> 200 ->
  ends_with l expiry pre final (Refused (StatusCode ans) why).
Proof.
  intros Hd Ha Hn. split; [by left|]. rewrite Hd. split; [split; [by intros [? ?]|by intros E]|]. split; [by intros E|].
  split; [eauto|by intros _ Hx].
Qed.

Lemma answer_challenge_spec l expiry pre req ans : Do pre req = inl ans -> r_auth req = [] ->
  let o := answer_challenge l expiry req ans (pre ++ [req]) in
  (sent o = pre ++ [req] /\ ends_with l expiry pre req (result o))
  \/ exists final, sent o = (pre ++ [req]) ++ [final] /\ same_identity final req /\ r_expires final = r_expires req
       /\ ends_with l expiry (pre ++ [req]) final (result o).
Proof.
  intros Hd Ha. unfold answer_challenge. destruct (isChallenge ans) eqn:Ec; [|left; split; [done|by apply plain_end; [..|left]]].
  assert (StatusCode ans <> 200) as Hn by (intros E%not_challenge; congruence).
  pose proof (fun why => refused_end l expiry pre req ans why Hd Ha Hn) as Href.
  destruct (challenge ans) as [[chal hdr]|e] eqn:Ech; [|left; split; [done|apply Href]].
  unfold authorization. destruct (Digest chal _ _ _ _) as [auth|e] eqn:Eg; [|left; split; [done|apply Href]]. right.
  set (final := with_auth req _). exists final.
  assert (r_auth final = [(hdr, auth)]) as Hf by (unfold final; cbn; by rewrite Ha).
  assert (exists pre' p a2 c2 h2 au2, pre ++ [req] = pre' ++ [p] /\ Do pre' p = inl a2 /\ challenge a2 = inl (c2, h2)
     /\ isChallenge a2 = true /\ Digest c2 "REGISTER" recipient (DigestUser l) (Secret l) = inl au2 /\ r_auth final = [(h2, au2)]) as Hp
    by (exists pre, req, ans, chal, hdr, auth; done).
  destruct (Do (pre ++ [req]) final) as [ans'|e] eqn:Ed; cbn [sent result]; (split; [done|]); (split; [done|]); (split; [done|]).
  - destruct (isChallenge ans') eqn:Ec'; [|apply plain_end; auto].
    split; [by right|]. rewrite Ed. assert (StatusCode ans' <> 200) by (intros E%not_challenge; congruence).
    split; [split; [by intros [? ?]|by intros E]|]. split; [by intros E|]. split; [eauto|done].
  - split; [by right|]. by rewrite Ed.
Qed.

(** C33: the credential is sent at most once, and only as the answer to a fresh
    challenge. Whatever the exchange answers, a registration sends one to three
    requests for the same line; all but the last carry no credential, the first
    none and the lifetime asked for; the last carries none or the line's own
    digest of the challenge just received. It is granted exactly when the last
    answer is a 200, for the lifetime that answer names; a challenge to a request
    that carried the credential is a refusal; and a failure to send is not. *)
Theorem register_sends_the_credential_once l expiry req :
  let o := register_request l expiry req in
  exists pre final, sent o = pre ++ [final] /\ (length pre <= 2)%nat
    /\ Forall (fun r => r_auth r = [] /\ same_identity r req) pre /\ same_identity final req
    /\ (exists first, head (sent o) = Some first /\ r_auth first = [] /\ r_expires first = Some (expiry `quot` ns_second))
    /\ ends_with l expiry pre final (result o).
Proof.
  cbn zeta. unfold register_request. set (r0 := setExpires expiry (clearAuth req)).
  assert (r_auth r0 = [] /\ same_identity r0 req) as [Ha0 Hi0] by done.
  assert (exists first, head [r0] = Some first /\ r_auth first = [] /\ r_expires first = Some (expiry `quot` ns_second)) as Hf by (by exists r0).
  destruct (Do [] r0) as [ans|e] eqn:Ed.
  2:{ exists [], r0. cbn. do 5 (split; [by auto with lia|]). split; [by left|]. by rewrite Ed. }
  destruct (Z.eqb_spec (StatusCode ans) 423) as [E|E].
  - destruct (minExpires ans) as [m|].
    + set (r1 := setExpires m r0). assert (r_auth r1 = [] /\ same_identity r1 req) as [Ha1 Hi1] by done.
      destruct (Do [r0] r1) as [ans'|e] eqn:Ed'.
      * destruct (answer_challenge_spec l expiry [r0] r1 ans' Ed' Ha1) as [[Hs He]|(final&Hs&Hi&_&He)]; cbn [app] in Hs; rewrite Hs.
        -- exists [r0], r1. split; [done|]. split; [cbn; lia|]. split; [by repeat constructor|]. done.
        -- exists [r0; r1], final. split; [done|]. split; [cbn; lia|]. split; [by repeat constructor|]. done.
      * exists [r0], r1. split; [done|]. split; [cbn; lia|]. split; [by repeat constructor|]. split; [done|]. split; [done|].
        split; [by left|]. by rewrite Ed'.
    + exists [], r0. split; [done|]. split; [cbn; lia|]. split; [done|]. split; [done|]. split; [done|].
      apply refused_end; [done|done|congruence].
  - destruct (answer_challenge_spec l expiry [] r0 ans Ed Ha0) as [[Hs He]|(final&Hs&Hi&_&He)]; cbn [app] in Hs; rewrite Hs.
    + exists [], r0. split; [done|]. split; [cbn; lia|]. done.
    + exists [r0], final. split; [done|]. split; [cbn; lia|]. split; [by repeat constructor|]. done.
Qed.

(** A 423 that answers the credential is taken for a refusal, whatever minimum it
    names: the exchange that challenges first and then finds the lifetime too
    brief parks the line. *)
Lemma interval_after_challenge_is_refused l expiry req ans ans' chal hdr auth :
  let r0 := setExpires expiry (clearAuth req) in
  let r1 := with_auth r0 [(hdr, auth)] in
  Do [] r0 = inl ans -> isChallenge ans = true -> challenge ans = inl (chal, hdr) ->
  Digest chal "REGISTER" recipient (DigestUser l) (Secret l) = inl auth ->
  Do [r0] r1 = inl ans' -> StatusCode ans' = 423 ->
  result (register_request l expiry req) = Refused 423 (Reason ans').
Proof.
  intros r0 r1 H0 Hc Hch Hd H1 H4. unfold register_request. fold r0. rewrite H0.
  assert ((StatusCode ans =? 423) = false) as -> by (unfold isChallenge in Hc; destruct (Z.eqb_spec (StatusCode ans) 423) as [E|]; [by rewrite E in Hc|done]).
  unfold answer_challenge. rewrite Hc, Hch. unfold authorization. rewrite Hd. cbn [r_auth r0 clearAuth setExpires with_auth with_expires].
  change (filter _ [] ++ [(hdr, auth)]) with [(hdr, auth)]. change (with_auth _ [(hdr, auth)]) with r1. rewrite H1. cbn [result].
  unfold isChallenge, responseError. by rewrite H4.
Qed.

End registrar.
