(* ===== verification/Pump.v ===== *)
(** The media relay of one direction of a call (src/server/internal/b2bua/b2bua.go,
    type pump) and the packet writer it drives
    (src/server/vendor/github.com/emiago/diago/media/rtp_packet_writer.go).

    - Every uint32, uint16, int32, int16 and Duration operation wraps as in Go.
    - Arguments: the packet header read, the arrival time, the random start
      number, and whether the transport takes the packet.
    - The jitter estimate (a floating-point statistic nothing else reads), the
      byte-copy path of a leg without packet access, counters of the logs and the
      reading loop around [forward] are left out. *)

From S2P Require Import Prelude.
Open Scope Z_scope.

Record Codec := mkCodec { PayloadType : Z; SampleRate : Z; SampleTimestamp : Z }.

Record header := mkHeader { h_SSRC : Z; h_Sequence : Z; h_Timestamp : Z; h_Marker : bool }.

(** ** The packet writer *)

Record packet := mkPacket { p_seq : Z; p_ts : Z; p_marker : bool; p_pt : Z; p_payload : list Z }.

Record writer := mkWriter { nextTimestamp : Z; initTimestamp : Z; sent : list packet }.

Definition DelayTimestamp (offset : Z) (w : writer) : writer := mkWriter (u32 (nextTimestamp w + offset)) (initTimestamp w) (sent w).

Definition WriteSamplesSeq (ok : bool) (payload : list Z) (sampleRateTimestamp : Z) (marker : bool) (pt seq : Z) (w : writer) : writer * bool :=
  let pkt := mkPacket seq (nextTimestamp w) marker pt payload in
  (mkWriter (u32 (nextTimestamp w + sampleRateTimestamp)) (initTimestamp w) (if ok then sent w ++ [pkt] else sent w), ok).

(** ** The pump *)

Record pump := mkPump {
  haveSrc : bool; srcSSRC : Z; tsOffset : Z;
  wroteAny : bool; lastOut : Z;
  t0 : Z; ts0 : Z;
  seqOffset : Z; lastSeq : Z;
  localWrote : bool;
  timelineBreak : Z; breaks : Z; lastBreakMs : Z;
  lag : Z; frozen : bool; frozenBreak : Z;
  skewMs : Z; earlyMaxMs : Z; lateMaxMs : Z;
  expectSeq : Z; lost : Z; reordered : Z;
  lastArrival : Z; lastTs : Z;
}.

Definition new_pump : pump :=
  mkPump false 0 0 false 0 0 0 0 0 false 0 0 0 0 false 0 0 0 0 0 0 0 0 0.

Definition pumpTimelineBreak : Z := 2 * ns_second.
Definition pumpFrozenBreak : Z := 200 * 1000000.

Definition milliseconds (d : Z) : Z := d `quot` 1000000.

(** [Duration(ticks) * Second / Duration(rate)] *)
Definition ticks_duration (c : Codec) (ticks : Z) : Z := i64 (ticks * ns_second) `quot` SampleRate c.

Definition set_out (p : pump) (offset ts seq_offset last_seq : Z) (wrote : bool) : pump :=
  mkPump (haveSrc p) (srcSSRC p) offset wrote ts (t0 p) (ts0 p) seq_offset last_seq (localWrote p) (timelineBreak p)
    (breaks p) (lastBreakMs p) (lag p) (frozen p) (frozenBreak p) (skewMs p) (earlyMaxMs p) (lateMaxMs p) (expectSeq p)
    (lost p) (reordered p) (lastArrival p) (lastTs p).

Definition rebaseSeq (random srcSeq : Z) (p : pump) : pump :=
  let start := if wroteAny p then u16 (lastSeq p + 1) else u16 random in
  set_out p (tsOffset p) (lastOut p) (u16 (start - srcSeq)) (lastSeq p) (wroteAny p).

(** A timeline break counted, of [ms]. *)
Definition count_break (ms : Z) (p : pump) : pump :=
  mkPump (haveSrc p) (srcSSRC p) (tsOffset p) (wroteAny p) (lastOut p) (t0 p) (ts0 p) (seqOffset p) (lastSeq p) (localWrote p)
    (timelineBreak p) (breaks p + 1) ms (lag p) (frozen p) (frozenBreak p) (skewMs p) (earlyMaxMs p) (lateMaxMs p)
    (expectSeq p) (lost p) (reordered p) (lastArrival p) (lastTs p).

Definition set_lag (l : Z) (fr : bool) (p : pump) : pump :=
  mkPump (haveSrc p) (srcSSRC p) (tsOffset p) (wroteAny p) (lastOut p) (t0 p) (ts0 p) (seqOffset p) (lastSeq p) (localWrote p)
    (timelineBreak p) (breaks p) (lastBreakMs p) l fr (frozenBreak p) (skewMs p) (earlyMaxMs p) (lateMaxMs p)
    (expectSeq p) (lost p) (reordered p) (lastArrival p) (lastTs p).

Section codec.
Context (c : Codec).

(** The timeline check on a source already seen: whether it broke, and the pump
    with its lag and, once the clock is frozen, the paced offset. *)
Definition check_timeline (h : header) (now : Z) (p : pump) : pump * bool :=
  let arrivalGap := time_sub now (lastArrival p) in
  let tsTicks := i32 (h_Timestamp h - lastTs p) in
  let tsGap := ticks_duration c tsTicks in
  let limit := if decide (timelineBreak p = 0) then pumpTimelineBreak else timelineBreak p in
  let diff := i64 (tsGap - arrivalGap) in
  let back := bool_decide (tsTicks < - i32 (SampleTimestamp c)) && bool_decide (0 < i16 (h_Sequence h + 1 - expectSeq p)) in
  if bool_decide (limit < diff) || bool_decide (diff < - limit) || back then (count_break (milliseconds diff) p, true) else
  let frame := ticks_duration c (SampleTimestamp c) in
  let lag' := if decide (2 * frame <= arrivalGap) then lag p
              else if decide (diff < (- frame) `quot` 4) then i64 (lag p - diff) else 0 in
  let flimit := if decide (frozenBreak p = 0) then pumpFrozenBreak else frozenBreak p in
  if decide (flimit < lag') then
    let p := if frozen p then set_lag lag' true p else count_break (milliseconds (- lag')) (set_lag lag' true p) in
    (set_out p (u32 (u32 (lastOut p + SampleTimestamp c) - h_Timestamp h)) (lastOut p) (seqOffset p) (lastSeq p) (wroteAny p), false)
  else (set_lag lag' false p, false).

(** The source's timeline taken up right after what was last sent. *)
Definition start_stream (h : header) (now random init : Z) (p : pump) : pump :=
  let start := if wroteAny p then u32 (lastOut p + SampleTimestamp c) else init in
  let p := set_out p (u32 (start - h_Timestamp h)) (lastOut p) (seqOffset p) (lastSeq p) (wroteAny p) in
  let p := rebaseSeq random (h_Sequence h) p in
  mkPump true (h_SSRC h) (tsOffset p) (wroteAny p) (lastOut p) now (h_Timestamp h) (seqOffset p) (lastSeq p) false
    (timelineBreak p) (breaks p) (lastBreakMs p) 0 false (frozenBreak p) (skewMs p) (earlyMaxMs p) (lateMaxMs p)
    (u16 (h_Sequence h + 1)) (lost p) (reordered p) now (h_Timestamp h).

(** Loss and reordering by sequence number. *)
Definition count_sequence (h : header) (random : Z) (p : pump) : pump :=
  let diff := i16 (h_Sequence h - expectSeq p) in
  let with_counts e l r (p : pump) :=
    mkPump (haveSrc p) (srcSSRC p) (tsOffset p) (wroteAny p) (lastOut p) (t0 p) (ts0 p) (seqOffset p) (lastSeq p) (localWrote p)
      (timelineBreak p) (breaks p) (lastBreakMs p) (lag p) (frozen p) (frozenBreak p) (skewMs p) (earlyMaxMs p) (lateMaxMs p)
      e l r (lastArrival p) (lastTs p) in
  if decide (diff = 0) then with_counts (u16 (expectSeq p + 1)) (lost p) (reordered p) p else
  if decide (0 < diff) then with_counts (u16 (h_Sequence h + 1)) (lost p + diff) (reordered p) p else
  if decide (-64 < diff)
  then with_counts (expectSeq p) (if decide (0 < lost p) then lost p - 1 else lost p) (reordered p + 1) p
  else rebaseSeq random (h_Sequence h) (with_counts (u16 (h_Sequence h + 1)) (lost p) (reordered p) p).

(** The arrival skew, the sequence, and the arrival of a packet that goes on with
    its stream. *)
Definition continue_stream (h : header) (now random : Z) (p : pump) : pump :=
  let elapsed := time_sub now (t0 p) in
  let expected := ticks_duration c (u32 (h_Timestamp h - ts0 p)) in
  let skew := milliseconds (i64 (elapsed - expected)) in
  let p := count_sequence h random p in
  mkPump (haveSrc p) (srcSSRC p) (tsOffset p) (wroteAny p) (lastOut p) (t0 p) (ts0 p) (seqOffset p) (lastSeq p) (localWrote p)
    (timelineBreak p) (breaks p) (lastBreakMs p) (lag p) (frozen p) (frozenBreak p)
    skew (Z.max (earlyMaxMs p) (- skew)) (Z.max (lateMaxMs p) skew)
    (expectSeq p) (lost p) (reordered p) now (h_Timestamp h).

(** Whether the packet begins a new stream, and the pump that places it. *)
Definition place (h : header) (now random init : Z) (p : pump) : pump * bool :=
  let newStream := negb (haveSrc p) || negb (bool_decide (h_SSRC h = srcSSRC p)) || localWrote p in
  let '(p, newStream) := if newStream then (p, true) else check_timeline h now p in
  (if newStream then start_stream h now random init p else continue_stream h now random p, newStream).

(** The write at [want], [seq]; what was last sent moves on only if it succeeds. *)
Definition emit (ok : bool) (payload : list Z) (marker : bool) (want seq : Z) (p : pump) (w : writer) : pump * writer * bool :=
  let cur := if wroteAny p then lastOut p else initTimestamp w in
  let w := DelayTimestamp (u32 (want - cur)) w in
  let '(w, ok) := WriteSamplesSeq ok payload 0 marker (PayloadType c) seq w in
  if ok then
    let last := if negb (wroteAny p) || bool_decide (0 < i16 (seq - lastSeq p)) then seq else lastSeq p in
    (set_out p (tsOffset p) want (seqOffset p) last true, w, true)
  else (p, w, false).

Definition forward (ok : bool) (payload : list Z) (h : header) (now random : Z) (p : pump) (w : writer) : pump * writer * bool :=
  let '(p, newStream) := place h now random (initTimestamp w) p in
  emit ok payload (h_Marker h || newStream) (u32 (h_Timestamp h + tsOffset p)) (u16 (h_Sequence h + seqOffset p)) p w.

Definition writeLocal (ok : bool) (payload : list Z) (marker : bool) (random : Z) (p : pump) (w : writer) : pump * writer * bool :=
  let want := if wroteAny p then u32 (lastOut p + SampleTimestamp c) else initTimestamp w in
  let cur := if wroteAny p then lastOut p else initTimestamp w in
  let seq := if wroteAny p then u16 (lastSeq p + 1) else u16 random in
  let w := DelayTimestamp (u32 (want - cur)) w in
  let '(w, ok) := WriteSamplesSeq ok payload 0 marker (PayloadType c) seq w in
  if ok then
    (mkPump (haveSrc p) (srcSSRC p) (tsOffset p) true want (t0 p) (ts0 p) (seqOffset p) seq true (timelineBreak p) (breaks p)
       (lastBreakMs p) (lag p) (frozen p) (frozenBreak p) (skewMs p) (earlyMaxMs p) (lateMaxMs p) (expectSeq p) (lost p)
       (reordered p) (lastArrival p) (lastTs p), w, true)
  else (p, w, false).

(** [same_writer]: both have the packet path, on the same writer. *)
Definition inheritTimeline (same_writer : bool) (prev p : pump) : pump :=
  if negb same_writer || negb (wroteAny prev) then p
  else set_out p (tsOffset p) (lastOut prev) (seqOffset p) (lastSeq prev) true.

Definition heldMode (mode : string) : bool := bool_decide (mode = "recvonly" \/ mode = "inactive").

(** ** A leg's stream

    What the goroutines do to one writer: packets relayed, frames of our own, and
    a transfer's new pump in place of the old one. *)
Inductive event :=
  | EForward (ok : bool) (payload : list Z) (h : header) (now random : Z)
  | ELocal (ok : bool) (payload : list Z) (marker : bool) (random : Z)
  | EReplace.

Definition step (e : event) (pw : pump * writer) : pump * writer :=
  let '(p, w) := pw in
  match e with
  | EForward ok payload h now random => fst (forward ok payload h now random p w)
  | ELocal ok payload marker random => fst (writeLocal ok payload marker random p w)
  | EReplace => (inheritTimeline true p new_pump, w)
  end.

Definition run (es : list event) (pw : pump * writer) : pump * writer := foldl (fun pw e => step e pw) pw es.

End codec.

(** ** What reaches the far end *)

Definition u32_range (z : Z) : Prop := 0 <= z < 2 ^ 32.
Definition u16_range (z : Z) : Prop := 0 <= z < 2 ^ 16.

Lemma u32_in z : u32_range (u32 z).
Proof. apply (wrapu_range 32 z). lia. Qed.
Lemma u16_in z : u16_range (u16 z).
Proof. apply (wrapu_range 16 z). lia. Qed.

(** The writer stands where the last packet left it, and the pump knows. *)
Record synced (p : pump) (w : writer) : Prop := {
  sy_init : u32_range (initTimestamp w);
  sy_next : nextTimestamp w = if wroteAny p then lastOut p else initTimestamp w;
  sy_range : u32_range (nextTimestamp w);
  sy_sent : if wroteAny p then exists pre q, sent w = pre ++ [q] /\ p_ts q = lastOut p else sent w = [];
}.

Lemma move_to want cur : u32_range want -> u32 (cur + u32 (want - cur)) = want.
Proof.
  intros Hw. unfold wrapu, u32_range in *. rewrite Zplus_mod_idemp_r. replace (cur + (want - cur)) with want by lia. by apply Z.mod_small.
Qed.

Section stream.
Context (c : Codec).

Lemma emit_ok payload marker want seq p w : synced p w -> u32_range want ->
  exists p' w', emit c true payload marker want seq p w = (p', w', true)
  /\ sent w' = sent w ++ [mkPacket seq want marker (PayloadType c) payload] /\ initTimestamp w' = initTimestamp w
  /\ p' = set_out p (tsOffset p) want (seqOffset p)
            (if negb (wroteAny p) || bool_decide (0 < i16 (seq - lastSeq p)) then seq else lastSeq p) true
  /\ synced p' w'.
Proof.
  intros Hs Hw. unfold emit. cbn.
  assert (u32 (nextTimestamp w + u32 (want - (if wroteAny p then lastOut p else initTimestamp w))) = want) as E.
  { rewrite (sy_next _ _ Hs). by apply move_to. }
  eexists _, _. split; [done|]. cbn. rewrite E. split; [done|]. split; [done|]. split; [done|].
  split; cbn; [by destruct Hs| |by apply u32_in|eauto]. rewrite Z.add_0_r. unfold wrapu. by apply Z.mod_small.
Qed.

Lemma local_ok payload marker random p w : synced p w ->
  exists p' w', writeLocal c true payload marker random p w = (p', w', true)
  /\ sent w' = sent w ++ [mkPacket (if wroteAny p then u16 (lastSeq p + 1) else u16 random)
                            (if wroteAny p then u32 (lastOut p + SampleTimestamp c) else initTimestamp w) marker (PayloadType c) payload]
  /\ initTimestamp w' = initTimestamp w /\ synced p' w' /\ wroteAny p' = true /\ localWrote p' = true
  /\ lastSeq p' = (if wroteAny p then u16 (lastSeq p + 1) else u16 random) /\ timelineBreak p' = timelineBreak p /\ frozenBreak p' = frozenBreak p.
Proof.
  intros Hs. set (want := if wroteAny p then u32 (lastOut p + SampleTimestamp c) else initTimestamp w).
  assert (u32_range want) as Hw.
  { unfold want. destruct (wroteAny p) eqn:E; [apply u32_in|]. pose proof (sy_range _ _ Hs) as Hr. pose proof (sy_next _ _ Hs) as Hn.
    rewrite E in Hn. by rewrite <- Hn. }
  unfold writeLocal. cbn. fold want.
  assert (u32 (nextTimestamp w + u32 (want - (if wroteAny p then lastOut p else initTimestamp w))) = want) as E.
  { rewrite (sy_next _ _ Hs). by apply move_to. }
  eexists _, _. split; [done|]. cbn. rewrite E. split; [done|]. split; [done|]. split; [|done].
  split; cbn; [by destruct Hs| |by apply u32_in|eauto]. rewrite Z.add_0_r. unfold wrapu. by apply Z.mod_small.
Qed.

(** Where [place] leaves the output side of the pump. *)
Lemma rebaseSeq_out random s p : wroteAny (rebaseSeq random s p) = wroteAny p /\ lastOut (rebaseSeq random s p) = lastOut p
  /\ lastSeq (rebaseSeq random s p) = lastSeq p /\ tsOffset (rebaseSeq random s p) = tsOffset p.
Proof. done. Qed.

Definition renumbered (h : header) (p : pump) : bool := bool_decide (i16 (h_Sequence h - expectSeq p) <= -64).

Lemma check_timeline_out h now p : let p' := fst (check_timeline c h now p) in
  wroteAny p' = wroteAny p /\ lastOut p' = lastOut p /\ lastSeq p' = lastSeq p /\ seqOffset p' = seqOffset p
  /\ expectSeq p' = expectSeq p /\ srcSSRC p' = srcSSRC p /\ haveSrc p' = haveSrc p /\ localWrote p' = localWrote p
  /\ (snd (check_timeline c h now p) = false ->
        if frozen p' then tsOffset p' = u32 (u32 (lastOut p + SampleTimestamp c) - h_Timestamp h) else tsOffset p' = tsOffset p).
Proof.
  unfold check_timeline. cbv zeta. destruct (_ || _); [done|]. destruct (decide (_ < _)); [|done]. destruct (frozen p); done.
Qed.

Lemma continue_out h now random p : let p' := continue_stream c h now random p in
  wroteAny p' = wroteAny p /\ lastOut p' = lastOut p /\ lastSeq p' = lastSeq p /\ tsOffset p' = tsOffset p /\ frozen p' = frozen p
  /\ seqOffset p' = if renumbered h p then u16 ((if wroteAny p then u16 (lastSeq p + 1) else u16 random) - h_Sequence h) else seqOffset p.
Proof.
  unfold continue_stream, count_sequence, renumbered. cbv zeta.
  destruct (decide (i16 (h_Sequence h - expectSeq p) = 0)) as [E|]; [rewrite E, bool_decide_eq_false_2 by lia; done|].
  destruct (decide (0 < i16 (h_Sequence h - expectSeq p))); [rewrite bool_decide_eq_false_2 by lia; done|].
  destruct (decide (-64 < i16 (h_Sequence h - expectSeq p))); [rewrite bool_decide_eq_false_2 by lia; done|].
  rewrite bool_decide_eq_true_2 by lia. done.
Qed.

Lemma seq_splice s h : u16 (h + u16 (u16 s - h)) = u16 s.
Proof. unfold wrapu. rewrite Zplus_mod_idemp_r. replace (h + (s mod 2 ^ 16 - h)) with (s mod 2 ^ 16) by lia. by rewrite Zmod_mod. Qed.

Lemma ts_splice t h : u32 (h + u32 (u32 t - h)) = u32 t.
Proof. unfold wrapu. rewrite Zplus_mod_idemp_r. replace (h + (t mod 2 ^ 32 - h)) with (t mod 2 ^ 32) by lia. by rewrite Zmod_mod. Qed.

(** Where [place] puts a relayed packet: right after what was sent, or on the
    source's own numbers. *)
Lemma place_out h now random init p : u32_range init -> let '(p2, nw) := place c h now random init p in
  wroteAny p2 = wroteAny p /\ lastOut p2 = lastOut p /\ lastSeq p2 = lastSeq p
  /\ if nw then u16 (h_Sequence h + seqOffset p2) = (if wroteAny p then u16 (lastSeq p + 1) else u16 random)
                /\ u32 (h_Timestamp h + tsOffset p2) = (if wroteAny p then u32 (lastOut p + SampleTimestamp c) else init)
     else (seqOffset p2 = seqOffset p \/ u16 (h_Sequence h + seqOffset p2) = (if wroteAny p then u16 (lastSeq p + 1) else u16 random))
          /\ (tsOffset p2 = tsOffset p \/ u32 (h_Timestamp h + tsOffset p2) = u32 (lastOut p + SampleTimestamp c)).
Proof.
  intros Hi. unfold place.
  destruct (if _ || _ || _ then (p, true) else check_timeline c h now p) as [p1 nw] eqn:E1.
  assert (wroteAny p1 = wroteAny p /\ lastOut p1 = lastOut p /\ lastSeq p1 = lastSeq p /\ (nw = false -> seqOffset p1 = seqOffset p
      /\ (tsOffset p1 = tsOffset p \/ tsOffset p1 = u32 (u32 (lastOut p + SampleTimestamp c) - h_Timestamp h)))) as (Hw&Ho&Hl&Hk).
  { destruct (_ || _ || _); [by injection E1 as <- <-|].
    pose proof (check_timeline_out h now p) as Hc. rewrite E1 in Hc. cbn in Hc. destruct Hc as (H1&H2&H3&H4&_&_&_&_&H6).
    do 3 (split; [done|]). intros ->. split; [done|]. specialize (H6 eq_refl). destruct (frozen p1); auto. }
  destruct nw; cbn [start_stream wroteAny lastOut lastSeq].
  - cbn. rewrite Hw, Ho, Hl. do 3 (split; [done|]). split; (destruct (wroteAny p)).
    + apply seq_splice. + apply seq_splice. + apply ts_splice.
    + rewrite <- (Z.mod_small init (2 ^ 32)) at 2 by exact Hi. unfold wrapu. rewrite Zplus_mod_idemp_r. f_equal. lia.
  - destruct (continue_out h now random p1) as (->&->&->&->&_&->). rewrite Hw, Ho, Hl. destruct (Hk eq_refl) as [Hq Ht].
    do 3 (split; [done|]). split.
    + destruct (renumbered h p1); [right|by left]. destruct (wroteAny p); apply seq_splice.
    + destruct Ht as [-> | ->]; [by left|right]. apply ts_splice.
Qed.

(** The source the pump is on afterwards. *)
Lemma place_source h now random init p : let '(p2, nw) := place c h now random init p in
  haveSrc p2 = true /\ localWrote p2 = false /\ srcSSRC p2 = h_SSRC h /\ lastTs p2 = h_Timestamp h /\ lastArrival p2 = now
  /\ timelineBreak p2 = timelineBreak p
  /\ (nw = false -> haveSrc p = true /\ localWrote p = false /\ srcSSRC p = h_SSRC h
        /\ (timelineBreak p = 0 ->
            Z.abs (i64 (ticks_duration c (i32 (h_Timestamp h - lastTs p)) - time_sub now (lastArrival p))) <= pumpTimelineBreak)).
Proof.
  unfold place. destruct (negb (haveSrc p) || negb (bool_decide (h_SSRC h = srcSSRC p)) || localWrote p) eqn:E; [by cbn|].
  apply orb_false_iff in E as [E Hloc]. apply orb_false_iff in E as [Hh Hs].
  apply negb_false_iff in Hh, Hs. apply bool_decide_eq_true_1 in Hs. unfold check_timeline. cbv zeta.
  set (diff := i64 _). set (limit := if decide _ then _ else _).
  destruct (bool_decide (limit < diff) || bool_decide (diff < - limit)) eqn:Eb; cbn [orb]; [by cbn|].
  destruct (_ && _); [by cbn|]. apply orb_false_iff in Eb as [H1 H2]. apply bool_decide_eq_false_1 in H1, H2.
  assert (timelineBreak p = 0 -> Z.abs diff <= pumpTimelineBreak) as Hd.
  { intros Ht. unfold limit in *. rewrite decide_True in H1, H2 by done. lia. }
  assert (forall p1, srcSSRC p1 = srcSSRC p -> haveSrc p1 = haveSrc p -> localWrote p1 = localWrote p -> timelineBreak p1 = timelineBreak p ->
    let p2 := continue_stream c h now random p1 in
    haveSrc p2 = true /\ localWrote p2 = false /\ srcSSRC p2 = h_SSRC h /\ lastTs p2 = h_Timestamp h /\ lastArrival p2 = now
    /\ timelineBreak p2 = timelineBreak p) as Hc.
  { intros p1 E1 E2 E3 E4. unfold continue_stream, count_sequence. cbv zeta.
    repeat case_decide; cbn; repeat split; congruence. }
  destruct (decide (_ < _)); [destruct (frozen p)|];
    (cbv beta iota zeta; match goal with |- context [continue_stream c h now random ?p1] =>
       destruct (Hc p1 eq_refl eq_refl eq_refl eq_refl) as (H3&H4&H5&H6&H7&H8) end; by auto 10).
Qed.

Lemma forward_ok payload h now random p w : synced p w ->
  exists p' w', let '(p2, nw) := place c h now random (initTimestamp w) p in
  let seq := u16 (h_Sequence h + seqOffset p2) in let want := u32 (h_Timestamp h + tsOffset p2) in
  forward c true payload h now random p w = (p', w', true)
  /\ sent w' = sent w ++ [mkPacket seq want (h_Marker h || nw) (PayloadType c) payload] /\ initTimestamp w' = initTimestamp w
  /\ synced p' w'
  /\ p' = set_out p2 (tsOffset p2) want (seqOffset p2)
            (if negb (wroteAny p) || bool_decide (0 < i16 (seq - lastSeq p)) then seq else lastSeq p) true.
Proof.
  intros Hs. unfold forward. pose proof (place_out h now random (initTimestamp w) p) as Hp.
  destruct (place c h now random (initTimestamp w) p) as [p2 nw].
  destruct (Hp (sy_init _ _ Hs)) as (Hw&Ho&Hl&_).
  assert (synced p2 w) as Hs2 by (destruct Hs as [H0 H1 H2 H3]; split; rewrite ?Hw, ?Ho; done).
  destruct (emit_ok payload (h_Marker h || nw) (u32 (h_Timestamp h + tsOffset p2)) (u16 (h_Sequence h + seqOffset p2)) p2 w Hs2 (u32_in _))
    as (p'&w'&E&Es&Ei&Ep&Hs'). exists p', w'. rewrite <- Hw, <- Hl. done.
Qed.

Definition event_ok (e : event) : Prop := match e with EForward ok _ _ _ _ | ELocal ok _ _ _ => ok = true | EReplace => True end.

Lemma step_synced e p w : event_ok e -> synced p w -> let '(p', w') := step c e (p, w) in synced p' w'.
Proof.
  intros He Hs. destruct e as [ok payload h now random|ok payload marker random|]; cbn in He; try subst ok.
  - destruct (forward_ok payload h now random p w Hs) as (p'&w'&H). destruct (place _ _ _ _ _ _) as [p2 nw].
    destruct H as (E&_&_&H&_). cbn [step]. by rewrite E.
  - destruct (local_ok payload marker random p w Hs) as (p'&w'&E&_&_&H&_). cbn [step]. by rewrite E.
  - destruct Hs as [H0 H1 H2 H3]. cbn [step]. unfold inheritTimeline. destruct (wroteAny p) eqn:E; cbn; split; cbn; auto.
Qed.

End stream.

(** ** Specification: the numbering the far end sees

    [top sent]: the highest sequence number sent so far (wrap-around safe), what
    the next packet of a stream that starts goes after. *)
Definition top (ps : list packet) : option Z :=
  foldl (fun acc q => match acc with None => Some (p_seq q) | Some s => Some (if bool_decide (0 < i16 (p_seq q - s)) then p_seq q else s) end) None ps.

Definition next_seq (random : Z) (ps : list packet) : Z := match top ps with None => u16 random | Some s => u16 (s + 1) end.

Definition next_ts (frame init : Z) (ps : list packet) : Z :=
  match last ps with None => init | Some q => u32 (p_ts q + frame) end.

(** How far the source's timestamps parted from the packets' arrival since the
    packet before. *)
Definition drift (c : Codec) (h : header) (now : Z) (h0 : header) (now0 : Z) : Z :=
  i64 (ticks_duration c (i32 (h_Timestamp h - h_Timestamp h0)) - time_sub now now0).

(** What is against the source's own step, for header [h] after [h0]: its numbers went
    back; its timestamps fell behind the packets' arrival, or it was not heard for two
    frames. *)
Definition went_back (h h0 : header) : Prop := i16 (h_Sequence h - h_Sequence h0) < 0.
Definition slowed (c : Codec) (h : header) (now : Z) (h0 : header) (now0 : Z) : Prop :=
  let frame := ticks_duration c (SampleTimestamp c) in drift c h now h0 now0 < (- frame) `quot` 4 \/ 2 * frame <= time_sub now now0.

(** Packet [q] after [l], for header [h] after [h0] of one source: each number
    moves as the source's did, or by one step of our own against a source that went
    back or slowed. *)
Definition carries_on (c : Codec) (h : header) (now : Z) (h0 : header) (now0 : Z) (ps : list packet) (q : packet) : Prop :=
  h_SSRC h = h_SSRC h0 /\ Z.abs (drift c h now h0 now0) <= pumpTimelineBreak /\ p_marker q = h_Marker h
  /\ exists l, last ps = Some l
  /\ (p_seq q = u16 (p_seq l + (h_Sequence h - h_Sequence h0)) \/ went_back h h0 /\ p_seq q = next_seq 0 ps)
  /\ (p_ts q = u32 (p_ts l + (h_Timestamp h - h_Timestamp h0)) \/ slowed c h now h0 now0 /\ p_ts q = u32 (p_ts l + SampleTimestamp c)).

(** A source that goes forward, its timestamps in step with the arrivals. *)
Definition honest (c : Codec) (h : header) (now : Z) (h0 : header) (now0 : Z) : Prop :=
  let frame := ticks_duration c (SampleTimestamp c) in
  h_SSRC h = h_SSRC h0 /\ Z.abs (drift c h now h0 now0) <= pumpTimelineBreak /\ (- frame) `quot` 4 <= drift c h now h0 now0
  /\ time_sub now now0 < 2 * frame
  /\ - i32 (SampleTimestamp c) <= i32 (h_Timestamp h - h_Timestamp h0) /\ 0 < i16 (h_Sequence h - h_Sequence h0).

(** Packet [q] after [l] spaced as the source spaced them. *)
Definition relayed (h h0 : header) (l q : packet) : Prop :=
  p_marker q = h_Marker h /\ p_seq q = u16 (p_seq l + (h_Sequence h - h_Sequence h0))
  /\ p_ts q = u32 (p_ts l + (h_Timestamp h - h_Timestamp h0)).

(** What one event of the stream may send, after the events [before]. *)
Definition continues (c : Codec) (init : Z) (before : list event) (ps : list packet) (e : event) (out : list packet) : Prop :=
  let frame := SampleTimestamp c in
  match e with
  | EReplace => out = []
  | ELocal _ payload marker random =>
      out = [mkPacket (next_seq random ps) (next_ts frame init ps) marker (PayloadType c) payload]
  | EForward _ payload h now random => exists q, out = [q] /\ p_payload q = payload /\ p_pt q = PayloadType c
      /\ ((p_seq q = next_seq random ps /\ p_ts q = next_ts frame init ps /\ p_marker q = true)
          \/ exists ok0 payload0 h0 now0 random0,
               last before = Some (EForward ok0 payload0 h0 now0 random0) /\ carries_on c h now h0 now0 ps q)
      /\ (forall ok0 payload0 h0 now0 random0, last before = Some (EForward ok0 payload0 h0 now0 random0) ->
           honest c h now h0 now0 -> exists l, last ps = Some l /\ relayed h h0 l q)
  end.

Lemma wraps_wrapu z b : i16 (u16 z - b) = i16 (z - b).
Proof. unfold wraps, wrapu. f_equal. replace (z mod 2 ^ 16 - b + 2 ^ (16 - 1)) with (z mod 2 ^ 16 + (2 ^ (16 - 1) - b)) by lia. rewrite Zplus_mod_idemp_l. f_equal. lia. Qed.

Lemma wraps_wrapu_r a z : i16 (a - u16 z) = i16 (a - z).
Proof. unfold wraps, wrapu. f_equal. replace (a - z mod 2 ^ 16 + 2 ^ (16 - 1)) with ((a + 2 ^ (16 - 1)) - z mod 2 ^ 16) by lia. rewrite Zminus_mod_idemp_r. f_equal. lia. Qed.

Lemma i16_shift a d : - 2 ^ 15 <= i16 a + d < 2 ^ 15 -> i16 (a + d) = i16 a + d.
Proof. unfold wraps. change (2 ^ (16 - 1)) with 32768. change (2 ^ 16) with 65536. change (2 ^ 15) with 32768. intros H. Z.to_euclidean_division_equations. lia. Qed.

Lemma i16_plus a b : - 2 ^ 15 <= i16 a + i16 b < 2 ^ 15 -> i16 (a + b) = i16 a + i16 b.
Proof. unfold wraps. change (2 ^ (16 - 1)) with 32768. change (2 ^ 16) with 65536. change (2 ^ 15) with 32768. intros H. Z.to_euclidean_division_equations. lia. Qed.

Lemma top_snoc ps q : top (ps ++ [q]) = Some (match top ps with None => p_seq q | Some s => if bool_decide (0 < i16 (p_seq q - s)) then p_seq q else s end).
Proof. unfold top. rewrite foldl_app. cbn. by destruct (foldl _ None ps). Qed.

Lemma after_top s : bool_decide (0 < i16 (u16 (s + 1) - s)) = true.
Proof. apply bool_decide_eq_true_2. rewrite wraps_wrapu. replace (s + 1 - s) with 1 by lia. by vm_compute. Qed.

Section continuity.
Context (c : Codec).

(** An honest source keeps its offsets. *)
Lemma place_honest h now random init p : haveSrc p = true -> localWrote p = false -> srcSSRC p = h_SSRC h ->
  timelineBreak p = 0 -> frozenBreak p = 0 ->
  (let frame := ticks_duration c (SampleTimestamp c) in
   let diff := i64 (ticks_duration c (i32 (h_Timestamp h - lastTs p)) - time_sub now (lastArrival p)) in
   Z.abs diff <= pumpTimelineBreak /\ (- frame) `quot` 4 <= diff /\ time_sub now (lastArrival p) < 2 * frame
   /\ - i32 (SampleTimestamp c) <= i32 (h_Timestamp h - lastTs p)) ->
  -64 < i16 (h_Sequence h - expectSeq p) ->
  let '(p2, nw) := place c h now random init p in nw = false /\ seqOffset p2 = seqOffset p /\ tsOffset p2 = tsOffset p.
Proof.
  intros Hh Hloc Hs Htb Hfb (H1&H2&H3&H4) Hx. unfold place. rewrite Hh, Hloc, bool_decide_eq_true_2 by done. cbn [negb orb].
  unfold check_timeline. cbv zeta. rewrite (decide_True _ _ Htb), (decide_True _ _ Hfb).
  rewrite !bool_decide_eq_false_2 by lia. cbn [orb andb].
  rewrite (decide_False (P := 2 * _ <= _)) by lia. rewrite (decide_False (P := _ < _ `quot` 4)) by lia.
  rewrite (decide_False (P := pumpFrozenBreak < 0)) by (unfold pumpFrozenBreak; lia).
  destruct (continue_out c h now random (set_lag 0 false p)) as (_&_&_&->&_&->).
  unfold renumbered. cbn. rewrite bool_decide_eq_false_2 by lia. done.
Qed.

(** The offsets of a source that goes on are moved only against a step back or a clock
    that slowed. *)
Lemma place_kept h now random init p : frozenBreak p = 0 -> let '(p2, nw) := place c h now random init p in
  nw = false -> (seqOffset p2 = seqOffset p \/ renumbered h p = true)
  /\ (tsOffset p2 = tsOffset p \/
      let frame := ticks_duration c (SampleTimestamp c) in
      i64 (ticks_duration c (i32 (h_Timestamp h - lastTs p)) - time_sub now (lastArrival p)) < (- frame) `quot` 4
      \/ 2 * frame <= time_sub now (lastArrival p)).
Proof.
  intros Hf. unfold place. destruct (_ || _ || _); [done|]. unfold check_timeline. cbv zeta. destruct (_ || _); [done|].
  assert (forall p1, seqOffset p1 = seqOffset p -> expectSeq p1 = expectSeq p ->
    seqOffset (continue_stream c h now random p1) = seqOffset p \/ renumbered h p = true) as Hq.
  { intros p1 E1 E2. destruct (continue_out c h now random p1) as (_&_&_&_&_&->). unfold renumbered. rewrite E1, E2.
    destruct (bool_decide _); auto. }
  assert (forall p1, tsOffset (continue_stream c h now random p1) = tsOffset p1) as Ht by (intros p1; apply (continue_out c h now random p1)).
  destruct (decide (_ < _)) as [Hl|]; [|by split; [apply Hq|left; rewrite Ht]].
  split; [apply Hq; by destruct (frozen p)|]. right. rewrite (decide_True _ _ Hf) in Hl. unfold pumpFrozenBreak in Hl.
  destruct (decide (2 * _ <= _)); [by right|]. destruct (decide (_ < _ `quot` 4)); [by left|lia].
Qed.

(** The number expected next is at most 64 past the one just read. *)
Lemma place_expect h now random init p :
  -64 < i16 (h_Sequence h - expectSeq (fst (place c h now random init p))) <= -1 /\ frozenBreak (fst (place c h now random init p)) = frozenBreak p.
Proof.
  assert (forall p1, -64 < i16 (h_Sequence h - expectSeq (continue_stream c h now random p1)) <= -1
    /\ frozenBreak (continue_stream c h now random p1) = frozenBreak p1) as Hc.
  { intros p1. unfold continue_stream, count_sequence. cbv zeta.
    destruct (decide (i16 (h_Sequence h - expectSeq p1) = 0)) as [E|N0]; [|destruct (decide (0 < i16 (h_Sequence h - expectSeq p1)));
      [|destruct (decide (-64 < i16 (h_Sequence h - expectSeq p1)))]]; cbn; (split; [|done]).
    - rewrite wraps_wrapu_r. replace (h_Sequence h - (expectSeq p1 + 1)) with (h_Sequence h - expectSeq p1 + -1) by lia. rewrite i16_shift by lia. lia.
    - rewrite wraps_wrapu_r. replace (h_Sequence h - (h_Sequence h + 1)) with (-1) by lia. by vm_compute.
    - lia.
    - rewrite wraps_wrapu_r. replace (h_Sequence h - (h_Sequence h + 1)) with (-1) by lia. by vm_compute. }
  unfold place. destruct (if _ || _ || _ then (p, true) else check_timeline c h now p) as [p1 nw] eqn:E1.
  assert (frozenBreak p1 = frozenBreak p) as <-.
  { destruct (_ || _ || _); [by injection E1 as <- <-|]. unfold check_timeline in E1. cbv zeta in E1.
    destruct (_ || _ || _); [by injection E1 as <- <-|]. destruct (decide (_ < _)); [destruct (frozen p)|]; by injection E1 as <- <-. }
  destruct nw; [|apply Hc]. cbn. split; [|done].
  rewrite wraps_wrapu_r. replace (h_Sequence h - (h_Sequence h + 1)) with (-1) by lia. by vm_compute.
Qed.

(** The pump's own account of the stream agrees with what was sent. *)
Record account (last_event : option event) (p : pump) (w : writer) : Prop := {
  ac_synced : synced p w;
  ac_top : top (sent w) = if wroteAny p then Some (lastSeq p) else None;
  ac_last : if wroteAny p then exists l, last (sent w) = Some l /\ p_ts l = lastOut p else last (sent w) = None;
  ac_default : timelineBreak p = 0 /\ frozenBreak p = 0;
  ac_source : haveSrc p = true -> localWrote p = false -> exists ok payload h now random l,
    last_event = Some (EForward ok payload h now random) /\ last (sent w) = Some l /\ wroteAny p = true
    /\ srcSSRC p = h_SSRC h /\ lastTs p = h_Timestamp h /\ lastArrival p = now
    /\ p_seq l = u16 (h_Sequence h + seqOffset p) /\ p_ts l = u32 (h_Timestamp h + tsOffset p)
    /\ -64 < i16 (h_Sequence h - expectSeq p) <= -1;
  ac_follows : forall ok payload h now random, last_event = Some (EForward ok payload h now random) -> haveSrc p = true /\ localWrote p = false;
}.

Lemma account_new w0 : u32_range (initTimestamp w0) -> nextTimestamp w0 = initTimestamp w0 -> sent w0 = [] -> account None new_pump w0.
Proof. intros Hr Hn Hs. split; cbn; rewrite ?Hs; try done. split; cbn; [done..|by rewrite Hn|done]. Qed.

Lemma next_seq_account le p w random : account le p w -> next_seq random (sent w) = if wroteAny p then u16 (lastSeq p + 1) else u16 random.
Proof. intros H. unfold next_seq. rewrite (ac_top _ _ _ H). by destruct (wroteAny p). Qed.

Lemma next_ts_account le p w : account le p w ->
  next_ts (SampleTimestamp c) (initTimestamp w) (sent w) = if wroteAny p then u32 (lastOut p + SampleTimestamp c) else initTimestamp w.
Proof.
  intros H. unfold next_ts. pose proof (ac_last _ _ _ H) as Hl. destruct (wroteAny p); [destruct Hl as (l&->&->)|rewrite Hl]; done.
Qed.

Lemma account_local le p w payload marker random : account le p w ->
  exists p' w', writeLocal c true payload marker random p w = (p', w', true)
  /\ sent w' = sent w ++ [mkPacket (next_seq random (sent w)) (next_ts (SampleTimestamp c) (initTimestamp w) (sent w)) marker (PayloadType c) payload]
  /\ initTimestamp w' = initTimestamp w /\ account (Some (ELocal true payload marker random)) p' w'.
Proof.
  intros Ha. destruct (local_ok c payload marker random p w (ac_synced _ _ _ Ha)) as (p'&w'&E&Es&Ei&Hs'&Hw'&Hl'&Hq'&Hb'&Hf').
  rewrite (next_seq_account _ _ _ random Ha), (next_ts_account _ _ _ Ha). exists p', w'. do 3 (split; [done|]).
  split; [done|..].
  - rewrite Hw', Es, top_snoc, (ac_top _ _ _ Ha), Hq'. destruct (wroteAny p); cbn; by rewrite ?after_top.
  - rewrite Hw'. pose proof (sy_sent _ _ Hs') as Hl. rewrite Hw' in Hl. destruct Hl as (pre&q&E2&E3). exists q. by rewrite E2, last_snoc.
  - rewrite Hb', Hf'. by apply (ac_default _ _ _ Ha).
  - congruence.
  - done.
Qed.

Lemma renumbered_went_back h h0 p : -64 < i16 (h_Sequence h0 - expectSeq p) <= -1 -> renumbered h p = true -> went_back h h0.
Proof.
  unfold renumbered, went_back. rewrite bool_decide_eq_true. intros H0 H1.
  assert (1 <= i16 (expectSeq p - h_Sequence h0) < 64) as H2.
  { revert H0. unfold wraps. change (2 ^ (16 - 1)) with 32768. change (2 ^ 16) with 65536. Z.to_euclidean_division_equations. lia. }
  pose proof (wraps_range 16 (h_Sequence h - expectSeq p) ltac:(lia)) as Hr.
  replace (h_Sequence h - h_Sequence h0) with ((h_Sequence h - expectSeq p) + (expectSeq p - h_Sequence h0)) by lia.
  rewrite i16_plus; lia.
Qed.

Lemma account_forward le p w payload h now random : account le p w ->
  exists p' w' q, forward c true payload h now random p w = (p', w', true)
  /\ sent w' = sent w ++ [q] /\ initTimestamp w' = initTimestamp w
  /\ account (Some (EForward true payload h now random)) p' w'
  /\ p_payload q = payload /\ p_pt q = PayloadType c
  /\ ((p_seq q = next_seq random (sent w) /\ p_ts q = next_ts (SampleTimestamp c) (initTimestamp w) (sent w) /\ p_marker q = true)
      \/ exists ok0 payload0 h0 now0 random0, le = Some (EForward ok0 payload0 h0 now0 random0) /\ carries_on c h now h0 now0 (sent w) q)
  /\ (forall ok0 payload0 h0 now0 random0, le = Some (EForward ok0 payload0 h0 now0 random0) ->
       honest c h now h0 now0 -> exists l, last (sent w) = Some l /\ relayed h h0 l q).
Proof.
  intros Ha. destruct (forward_ok c payload h now random p w (ac_synced _ _ _ Ha)) as (p'&w'&Hf).
  pose proof (place_out c h now random (initTimestamp w) p (sy_init _ _ (ac_synced _ _ _ Ha))) as Ho.
  pose proof (place_source c h now random (initTimestamp w) p) as Hc. pose proof (place_expect h now random (initTimestamp w) p) as Hx.
  pose proof (place_honest h now random (initTimestamp w) p) as Hh.
  pose proof (place_kept h now random (initTimestamp w) p (proj2 (ac_default _ _ _ Ha))) as Hk.
  destruct (place c h now random (initTimestamp w) p) as [p2 nw]. destruct Hf as (E&Es&Ei&Hs'&Ep').
  destruct Ho as (Hw&Hlo&Hls&Ho). destruct Hc as (H1&H2&H3&H4&H5&H6&Hc).
  eexists p', w', _. split; [done|]. split; [exact Es|]. split; [done|]. split; [|split; [done|]; split; [done|]; split]; cbn [p_seq p_ts p_marker].
  - split; rewrite ?Ep'; cbn; [by rewrite <- Ep'|..].
    + rewrite Es, top_snoc, (ac_top _ _ _ Ha). cbn. destruct (wroteAny p); cbn; [|done]. by destruct (bool_decide _).
    + rewrite Es, last_snoc. eauto.
    + rewrite H6. cbn in Hx. destruct Hx as [_ ->]. apply (ac_default _ _ _ Ha).
    + intros _ _. rewrite Es, last_snoc. eexists _, _, _, _, _, _. do 8 (split; [done|]). apply Hx.
    + done.
  - rewrite (next_seq_account _ _ _ random Ha), (next_ts_account _ _ _ Ha). destruct nw.
    + left. destruct Ho as [-> ->]. by rewrite orb_true_r.
    + right. destruct (Hc eq_refl) as (G1&G2&G3&G4).
      destruct (ac_source _ _ _ Ha G1 G2) as (ok0&payload0&h0&now0&random0&l&->&Hl&Hwr&A1&A2&A3&A4&A5&A6).
      destruct (Hk eq_refl) as [Kq Kt].
      eexists _, _, _, _, _. split; [done|]. rewrite Hwr in *. split; [congruence|]. split.
      { unfold drift. rewrite <- A2, <- A3. by apply G4, (ac_default _ _ _ Ha). }
      split; [cbn; by rewrite orb_false_r|]. exists l. split; [done|]. cbn [p_seq p_ts].
      pose proof (ac_last _ _ _ Ha) as Hl2. rewrite Hwr in Hl2. destruct Hl2 as (l2&Hl2&Hts). assert (l2 = l) as -> by congruence.
      destruct Ho as [Hq Ht]. split.
      * destruct Kq as [-> | Kr]; [left|destruct Hq as [-> | ->]; [left|right; split; [by eapply renumbered_went_back|]; by rewrite (next_seq_account _ _ _ 0 Ha), Hwr]];
          rewrite A4; unfold wrapu; rewrite Zplus_mod_idemp_l; f_equal; lia.
      * destruct Kt as [-> | Kr]; [left|destruct Ht as [-> | ->]; [left|right; split; [|by rewrite Hts]]];
          [rewrite A5; unfold wrapu; rewrite Zplus_mod_idemp_l; f_equal; lia..|].
        unfold slowed, drift. by rewrite <- A2, <- A3.
  - intros ok0 payload0 h0 now0 random0 -> (B1&B2&B3&B4&B5&B6).
    destruct (ac_follows _ _ _ Ha _ _ _ _ _ eq_refl) as [G1 G2].
    destruct (ac_source _ _ _ Ha G1 G2) as (ok1&payload1&h1&now1&random1&l&[= <- <- <- <- <-]&Hl&Hwr&A1&A2&A3&A4&A5&A6).
    exists l. split; [done|]. destruct (ac_default _ _ _ Ha) as [D1 D2]. rewrite A2, A3 in Hh.
    destruct Hh as (->&Hq&Ht); [done|done|congruence|done|done|done| |].
    { replace (h_Sequence h - expectSeq p) with ((h_Sequence h0 - expectSeq p) + (h_Sequence h - h_Sequence h0)) by lia.
      pose proof (wraps_range 16 (h_Sequence h - h_Sequence h0) ltac:(lia)). rewrite i16_plus; lia. }
    unfold relayed. cbn. rewrite Hq, Ht, A4, A5, orb_false_r. split; [done|]. unfold wrapu. rewrite !Zplus_mod_idemp_l. split; f_equal; lia.
Qed.

Lemma account_replace le p w : account le p w -> account (Some EReplace) (inheritTimeline true p new_pump) w.
Proof.
  intros Ha. pose proof (step_synced c EReplace p w I (ac_synced _ _ _ Ha)) as Hs. cbn [step] in Hs.
  pose proof (ac_top _ _ _ Ha) as Ht. pose proof (ac_last _ _ _ Ha) as Hl. unfold inheritTimeline in *.
  destruct (wroteAny p); cbn in *; split; cbn; done.
Qed.

Lemma account_step le e p w : event_ok e -> account le p w ->
  let '(p', w') := step c e (p, w) in account (Some e) p' w' /\ initTimestamp w' = initTimestamp w.
Proof.
  intros He Ha. destruct e as [ok payload h now random|ok payload marker random|]; cbn in He; try subst ok; cbn [step].
  - destruct (account_forward _ _ _ payload h now random Ha) as (p'&w'&q&E&_&Ei&H&_). by rewrite E.
  - destruct (account_local _ _ _ payload marker random Ha) as (p'&w'&E&_&Ei&H). by rewrite E.
  - split; [by eapply account_replace|done].
Qed.

Lemma account_run es w0 : Forall event_ok es -> u32_range (initTimestamp w0) -> nextTimestamp w0 = initTimestamp w0 -> sent w0 = [] ->
  let '(p, w) := run c es (new_pump, w0) in account (last es) p w /\ initTimestamp w = initTimestamp w0.
Proof.
  intros Hes Hr Hn Hs. induction es as [|e es IH] using rev_ind; [split; [by apply account_new|done]|].
  apply Forall_app in Hes as [Hes He]. apply Forall_inv in He. unfold run. rewrite foldl_app, last_snoc. cbn [foldl].
  specialize (IH Hes). unfold run in IH. destruct (foldl _ _ es) as [p w]. destruct IH as [IH Hi].
  pose proof (account_step _ e p w He IH) as H. destruct (step c e (p, w)) as [p' w']. rewrite <- Hi. done.
Qed.
End continuity.


(** ** Findings *)

Definition pcma : Codec := mkCodec 8 8000 160.
Definition fresh_writer : writer := mkWriter 1000 1000 [].
Definition ms (n : Z) : Z := n * 1000000.
Definition from_phone (n : Z) : header := mkHeader 7 (500 + n) (9000 + 160 * n) false.
Definition numbers (pw : pump * writer) : list (Z * Z) := map (fun q => (p_seq q, p_ts q)) (sent (snd pw)).

(** A packet the transport refuses has moved the writer but not the pump's record
    of it: every later packet of the stream is late by the length of that step. *)
Lemma failed_write_shifts_the_stream :
  let read ok n := EForward ok [n] (from_phone n) (ms (20 * n)) 41 in
  numbers (run pcma [read true 0; read true 1; read true 2; read true 3] (new_pump, fresh_writer))
    = [(41, 1000); (42, 1160); (43, 1320); (44, 1480)]
  /\ numbers (run pcma [read true 0; read false 1; read true 2; read true 3] (new_pump, fresh_writer))
    = [(41, 1000); (43, 1480); (44, 1640)].
Proof. by vm_compute. Qed.

(** A packet that arrives late keeps the highest number, not the latest
    timestamp: what starts after it repeats a timestamp already sent. *)
Lemma late_packet_pulls_the_timestamp_back :
  let read n at_ms := EForward true [n] (from_phone n) (ms at_ms) 41 in
  numbers (run pcma [read 0 0; read 2 40; read 1 42; ELocal true [9] true 0] (new_pump, fresh_writer))
    = [(41, 1000); (43, 1320); (42, 1160); (44, 1320)].
Proof. by vm_compute. Qed.

(** ** Witness *)

