(* ===== verification/Trunk.v ===== *)
(** The PBX trunk as configured and as recognised on the wire
    (src/server/internal/pbx/pbx.go; in src/server/internal/b2bua/b2bua.go
    trunkBind, isTrunkSource, reliableTransport, legTransport, the SRTP mode and
    the codec list; src/server/internal/b2bua/lines.go, the identity a call to
    the PBX carries).

    Arguments: the host's own first address and, in lines mode, the answers of
    the line registry. *)

From S2P Require Import Prelude Text Net.
Open Scope Z_scope.

(** ** The peer *)

Record Trunk := mkTrunk { Host : text; Port : Z; Transport : text }.

(** [for _, p := range parts[1:]]: the last transport parameter holds. *)
Definition transport_param (transport : text) (p : text) : text :=
  match Cut p "="%char with
  | Some (k, v) => if EqualFold k (T "transport") then ToLower v else transport
  | None => transport
  end.

Definition port_number (port : text) : option Z :=
  n ← Atoi port; if decide (n <= 0 \/ 65535 < n) then None else Some n.

(** [None] is [ErrBadTrunk]. *)
Definition ParseTrunk (s : text) : option Trunk :=
  let s := TrimPrefix (TrimSpace s) (T "sip:") in
  if decide (s = []) then None else
  let parts := Split s ";"%char in
  let hostport := default [] (head parts) in
  let transport := foldl transport_param (T "udp") (tail parts) in
  if negb (bool_decide (transport ∈ [T "udp"; T "tcp"; T "tls"])) then None else
  let '(host, port) := match SplitHostPort hostport with Some hp => hp | None => (TrimBrackets hostport, []) end in
  if decide (host = []) then None else
  if decide (port = []) then Some (mkTrunk host (if decide (transport = T "tls") then 5061 else 5060) transport)
  else n ← port_number port; Some (mkTrunk host n transport).

Definition Address (t : Trunk) : text := JoinHostPort (Host t) (Itoa (Port t)).

Definition URI (t : Trunk) (user : text) : text :=
  T "sip:" ++ user ++ T "@" ++ Address t ++ T ";transport=" ++ Transport t.

(** ** The listener and the sources it trusts *)

Definition reliableTransport (transport : text) : bool := bool_decide (ToLower transport ∈ [T "tcp"; T "tls"]).

Definition isTrunkSource (transport source : text) (t : option Trunk) (peers : list text) : bool :=
  match t with
  | None => false
  | Some t =>
      if negb (EqualFold transport (T "tls")) then true else
      let host := match SplitHostPort source with Some (h, _) => h | None => source end in
      if EqualFold host (Host t) then true
      else existsb (fun p => negb (bool_decide (p = [])) && EqualFold host p) peers
  end.

(** [None] is an error. *)
Definition trunkBind (addr : text) (t : Trunk) : option (text * Z) :=
  if decide (addr = []) then Some (T "0.0.0.0", if EqualFold (Transport t) (T "tls") then 5062 else 5060) else
  '(host, portStr) ← SplitHostPort addr;
  let host := if decide (host = []) then T "0.0.0.0" else host in
  port ← port_number portStr;
  Some (host, port).

Definition transportApp : text := T "app".
Definition transportTrunk : text := T "trunk".
Definition legTransport (trunk : bool) : text := if trunk then transportTrunk else transportApp.

(** ** Media security and codecs *)

Inductive TrunkSRTPMode := TrunkSRTPOff | TrunkSRTPSDES.

#[export] Instance TrunkSRTPMode_eq_dec : EqDecision TrunkSRTPMode.
Proof. solve_decision. Defined.

Definition ParseTrunkSRTP (s : text) : option TrunkSRTPMode :=
  let m := ToLower (TrimSpace s) in
  if decide (m = [] \/ m = T "off") then Some TrunkSRTPOff else if decide (m = T "sdes") then Some TrunkSRTPSDES else None.

Definition offers (m : TrunkSRTPMode) : bool := bool_decide (m = TrunkSRTPSDES).
Definition srtpOption (m : TrunkSRTPMode) : Z := if offers m then 1 else 0.

(** The error is [errTrunkNotSecure]; [secure]: both directions are SRTP. *)
Definition requireTrunkSRTP (mode : TrunkSRTPMode) (trunk secure : bool) : bool :=
  negb trunk || negb (bool_decide (mode = TrunkSRTPSDES)) || secure.

Inductive Codec := G722 | Ulaw | Alaw | Opus.

Definition DefaultTrunkCodecs : list Codec := [G722; Ulaw; Alaw].
Definition trunkCodecs (cfg : list Codec) : list Codec := match cfg with [] => DefaultTrunkCodecs | _ => cfg end.

(** [Some None]: an empty item, skipped. *)
Definition codec_named (name : text) : option (option Codec) :=
  let n := ToLower (TrimSpace name) in
  if decide (n = []) then Some None else
  if decide (n = T "g722") then Some (Some G722) else
  if decide (n ∈ [T "pcmu"; T "ulaw"; T "g711u"]) then Some (Some Ulaw) else
  if decide (n ∈ [T "pcma"; T "alaw"; T "g711a"]) then Some (Some Alaw) else
  if decide (n = T "opus") then Some (Some Opus) else None.

Definition ParseCodecs (l : text) : option (list Codec) :=
  out ← mapM codec_named (Split l ","%char);
  match omap id out with [] => None | cs => Some cs end.

Definition callTouchesTrunk (callerTrunk calleeTrunk : bool) : bool := callerTrunk || calleeTrunk.

(** What a leg is offered; [None] is the app leg's own set. *)
Definition callee_codecs (cfg : list Codec) (callerTrunk calleeTrunk : bool) : option (list Codec) :=
  if callTouchesTrunk callerTrunk calleeTrunk then Some (trunkCodecs cfg) else None.

(** ** The calling identity *)

Record Lines := mkLines { Credentials : text -> option (text * text); Number : text -> option text }.

Section identity.
Context (lines : option Lines) (DefaultLine PBXDomain ExternalHost : text) (trunk : option Trunk).

Definition pbxDomain : text :=
  if decide (PBXDomain <> []) then PBXDomain else match trunk with Some t => Host t | None => ExternalHost end.

(** The From header's user and host, if the call replaces it. *)
Record identity := mkIdentity { from : option (text * text); digestUser : text; secret : text }.

(** [None]: no line, the call is refused. *)
Definition trunkIdentity (localUser : text) : option identity :=
  match lines with
  | None => Some (mkIdentity None [] [])
  | Some l =>
      '(user, dn) ← match Number l localUser with
                    | Some dn => Some (localUser, dn)
                    | None => if decide (DefaultLine <> []) then (fun dn => (DefaultLine, dn)) <$> Number l DefaultLine else None
                    end;
      let '(du, s) := default ([], []) (Credentials l user) in
      Some (mkIdentity (Some (dn, pbxDomain)) du s)
  end.

Definition calleeInvite (calleeTrunk : bool) (onBehalfOf : text) : option identity :=
  if negb calleeTrunk then Some (mkIdentity None [] []) else trunkIdentity onBehalfOf.

End identity.

(** ** What is configured is what is dialled *)

Lemma port_number_bounds p n : port_number p = Some n -> 0 < n <= 65535.
Proof. unfold port_number. destruct (Atoi p) as [m|]; [|done]. cbn. destruct (decide _) as [|Hn]; [done|]. intros [= <-]. lia. Qed.

Lemma port_number_Itoa n : 0 < n <= 65535 -> port_number (Itoa n) = Some n.
Proof. intros Hn. unfold port_number. rewrite Atoi_Itoa by lia. cbn. by rewrite decide_False by lia. Qed.

Lemma transport_cases (t : text) : bool_decide (t ∈ [T "udp"; T "tcp"; T "tls"]) = true -> t = T "udp" \/ t = T "tcp" \/ t = T "tls".
Proof. intros H. apply bool_decide_eq_true_1 in H. set_solver. Qed.

(** The parts of a parsed trunk. *)
Lemma ParseTrunk_parts s t : ParseTrunk s = Some t ->
  0 < Port t <= 65535 /\ Host t <> [] /\ (Transport t = T "udp" \/ Transport t = T "tcp" \/ Transport t = T "tls")
  /\ exists hostport port, hostport = default [] (head (Split (TrimPrefix (TrimSpace s) (T "sip:")) ";"%char))
     /\ (SplitHostPort hostport = Some (Host t, port) \/ Host t = TrimBrackets hostport).
Proof.
  unfold ParseTrunk. destruct (decide (TrimPrefix _ _ = [])); [done|].
  set (hp := default [] (head _)). set (tr := foldl _ _ _).
  destruct (bool_decide (tr ∈ _)) eqn:Et; [|done]. cbn [negb]. apply transport_cases in Et.
  destruct (match SplitHostPort hp with Some hp => hp | None => (TrimBrackets hp, []) end) as [host port] eqn:E.
  assert (SplitHostPort hp = Some (host, port) \/ host = TrimBrackets hp) as Hh.
  { destruct (SplitHostPort hp); [left; congruence|right; congruence]. }
  destruct (decide (host = [])); [done|].
  destruct (decide (port = [])) as [->|].
  - intros [= <-]. cbn. split; [destruct (decide _); lia|]. split; [done|]. split; [done|]. exists hp, []. done.
  - destruct (port_number port) as [m|] eqn:Ep; [|done]. intros [= <-]. cbn. split; [by eapply port_number_bounds|].
    split; [done|]. split; [done|]. by exists hp, port.
Qed.

Lemma head_Split_no_c (s : text) c : c ∉ default [] (head (Split s c)).
Proof.
  rewrite Split_Cut. destruct (Cut s c) as [[a b]|] eqn:E; cbn; [by apply Cut_Some in E as [_ ?]|by apply Cut_None_inv].
Qed.

Lemma Host_no_semicolon s t : ParseTrunk s = Some t -> ";"%char ∉ Host t.
Proof.
  intros H. destruct (ParseTrunk_parts s t H) as (_&_&_&hp&port&->&Hs). intros Hc. eapply (head_Split_no_c _ ";"%char).
  destruct Hs as [Hs|Hs]; [by eapply SplitHostPort_sub|rewrite Hs in Hc; by eapply TrimBrackets_sub].
Qed.

Lemma digits_not n c : 0 <= n -> is_digit c = false -> c ∉ Itoa n.
Proof. intros Hn Hc. apply digit_not; [done|]. intros d. by apply Itoa_digits. Qed.

Lemma Address_no_semicolon h n : 0 <= n -> ";"%char ∉ h -> ";"%char ∉ JoinHostPort h (Itoa n).
Proof.
  intros Hn Hh. pose proof (digits_not n ";"%char Hn eq_refl) as Hd. unfold JoinHostPort. destruct (decide _); cbn.
  - rewrite elem_of_cons, elem_of_app, !elem_of_cons. intros [[=]|[?|[[=]|[[=]|?]]]]; done.
  - rewrite elem_of_app, elem_of_cons. intros [?|[[=]|?]]; done.
Qed.

(** A trunk that is read has a port from 1 to 65535, a transport among udp,
    tcp and tls and a host; and the address the server then dials, written back
    as a configuration, reads as the same trunk. *)
Theorem trunk_roundtrip (s : text) (t : Trunk) : ParseTrunk s = Some t -> plain_host (Host t) ->
  0 < Port t <= 65535 /\ Host t <> [] /\ Transport t ∈ [T "udp"; T "tcp"; T "tls"]
  /\ ParseTrunk (T "sip:" ++ Address t ++ T ";transport=" ++ Transport t) = Some t.
Proof.
  intros H Hp. destruct (ParseTrunk_parts s t H) as (Hb&Hh&Ht&_). pose proof (Host_no_semicolon s t H) as Hs.
  split; [done|]. split; [done|]. split; [set_solver|].
  set (s' := T "sip:" ++ Address t ++ T ";transport=" ++ Transport t).
  assert (trimmed s') as Htr.
  { split; [by intros c [= <-]|]. intros c. unfold s'. rewrite !app_assoc, last_app.
    by destruct Ht as [-> | [-> | ->]]; intros [= <-]. }
  assert (ToLower (Transport t) = Transport t) as El by (by destruct Ht as [-> | [-> | ->]]).
  assert (Split (Address t ++ T ";transport=" ++ Transport t) ";"%char = [Address t; T "transport=" ++ Transport t]) as Hsp.
  { apply Split_two. split; [done|]. split; [apply Address_no_semicolon; [lia|done]|].
    destruct Ht as [-> | [-> | ->]]; cbn; rewrite !not_elem_of_cons; repeat split; try done; apply not_elem_of_nil. }
  unfold ParseTrunk. rewrite (TrimSpace_fix _ Htr). unfold s'. change (TrimPrefix (T "sip:" ++ ?x) _) with (drop 4 (T "sip:" ++ x)).
  change (drop 4 (T "sip:" ++ ?x)) with x. rewrite Hsp. cbn [head tail default from_option id foldl].
  rewrite decide_False by (intros E; apply (f_equal length) in E; rewrite !length_app in E; cbn in E; lia).
  unfold transport_param. change (T "transport=" ++ ?x) with (T "transport" ++ "="%char :: x). rewrite (Cut_app (T "transport") "="%char (Transport t)) by (cbn; rewrite !not_elem_of_cons; repeat split; done || apply not_elem_of_nil).
  rewrite EqualFold_refl, El, bool_decide_eq_true_2 by set_solver. cbn [negb].
  unfold Address. rewrite Split_JoinHostPort; [|done|split; by apply digits_not; [lia|]|by apply digits_not; [lia|]].
  rewrite (decide_False (P := Host t = [])) by done. rewrite decide_False by (apply Itoa_nonempty; lia).
  rewrite port_number_Itoa by done. by destruct t.
Qed.

(** ** Findings *)

(** Over UDP and TCP the source address plays no part: any host is the PBX. *)
Lemma any_plain_source_is_the_trunk transport source t peers :
  EqualFold transport (T "tls") = false -> isTrunkSource transport source (Some t) peers = true.
Proof. intros H. unfold isTrunkSource. by rewrite H. Qed.

(** The default listener of a TLS trunk is 5062. *)
Lemma tls_trunk_binds_5062 host port : trunkBind [] (mkTrunk host port (T "tls")) = Some (T "0.0.0.0", 5062).
Proof. reflexivity. Qed.

(** ** Witness *)

Lemma trunk_roundtrip_witness :
  let t := mkTrunk (T "fd00::5") 5062 (T "tls") in
  ParseTrunk (T " sip:[fd00::5]:5062;transport=TLS ") = Some t
  /\ (0 < Port t <= 65535 /\ Host t <> [] /\ Transport t ∈ [T "udp"; T "tcp"; T "tls"]
      /\ ParseTrunk (T "sip:" ++ Address t ++ T ";transport=" ++ Transport t) = Some t).
Proof.
  cbv zeta. split; [reflexivity|].
  apply (trunk_roundtrip (T " sip:[fd00::5]:5062;transport=TLS ") (mkTrunk (T "fd00::5") 5062 (T "tls"))); [reflexivity|].
  split; cbn; rewrite !not_elem_of_cons; repeat split; done || apply not_elem_of_nil.
Defined.
