(* ===== verification/AppLeg.v ===== *)
(** The app leg's registrar and its admission of requests
    (src/server/internal/b2bua/b2bua.go: Config, onRegister, authorized,
    authMiddleware, inDialog, servesDomain, rewriteContact, registerExpires).

    - A request is what the handlers read of it; an answer is its status and the
      headers they add.
    - The state is the location table and the authenticator's nonces.
    - Arguments: those of [SipAuth], whether [net.ParseIP] reads a host as IPv6,
      the nonce a challenge draws, and the clock. *)

From S2P Require Import Prelude Text Net Trunk Registry SipAuth.
Open Scope Z_scope.

(** ** Configuration *)

Record Config := mkConfig {
  BindHost : text;
  CPort : Z;
  PublicPort : Z;
  ExternalHost : text;
  Domains : list text;
  KeepAdvertisedContact : bool;
  CTrunk : option Trunk;
  TrunkPeers : list text;
  RingTimeout : Z;
  PeerTimeout : Z;
  MinExpires : Z;
  MaxExpires : Z;
}.

Definition withDefaults (c : Config) : Config :=
  mkConfig (if decide (BindHost c = []) then T "0.0.0.0" else BindHost c) (if decide (CPort c = 0) then 5061 else CPort c)
    (PublicPort c) (ExternalHost c) (Domains c) (KeepAdvertisedContact c) (CTrunk c) (TrunkPeers c)
    (if decide (RingTimeout c <= 0) then 30 * ns_second else RingTimeout c)
    (if decide (PeerTimeout c = 0) then 60 * ns_second else PeerTimeout c)
    (if decide (MinExpires c = 0) then 60 else MinExpires c) (if decide (MaxExpires c = 0) then 3600 else MaxExpires c).

Definition publicPort (c : Config) : Z := if decide (0 < PublicPort c) then PublicPort c else CPort c.
Definition primaryDomain (c : Config) : text := default (ExternalHost c) (head (Domains c)).

(** ** Requests *)

(** [c_uri]: the address printed; [c_expires]: its expires parameter. *)
Record Contact := mkContact { c_user : text; c_uri : text; c_wildcard : bool; c_expires : option text }.

Record To := mkTo { to_user : text; to_host : text; to_tag : bool }.

Record Request := mkRequest {
  r_method : text;
  r_to : option To;
  r_from : option text;             (* the From user *)
  r_contact : option Contact;
  r_expires : option text;
  r_authorization : option text;
  r_transport : text;
  r_source : text;
}.

Record answer := mkAnswer { code : Z; headers : list (text * text) }.

Record state := mkState { reg : Registry; auth : option Authenticator }.

Definition bare (code : Z) : answer := mkAnswer code [].

Section leg.
Context (cfg : Config) (is_ipv6 : text -> bool).
Context (md5hex : text -> text) (IsDigest : text -> bool) (ParseCredentials : text -> option Credentials)
  (DigestSecret : text -> option (text * text)).

Definition servesDomain (host : text) : bool :=
  if decide (Domains cfg = [] \/ host = []) then true else
  let host := match IndexByte host ":"%char with Some i => take i host | None => host end in
  existsb (fun d => EqualFold d host) (Domains cfg) || EqualFold host (ExternalHost cfg).

Definition inDialog (req : Request) : bool := match r_to req with Some to => to_tag to | None => false end.

Definition nonneg (v : text) : option Z := n ← Atoi v; if decide (0 <= n) then Some n else None.

Definition registerExpires (req : Request) (contact : Contact) (def : Z) : Z :=
  match c_expires contact ≫= nonneg with
  | Some n => n
  | None => default def (r_expires req ≫= fun v => nonneg (TrimSpace v))
  end.

(** [sip.Uri.String] of a user at a host and port, over TLS. *)
Definition tls_uri (user host : text) (port : Z) : text :=
  T "sip:" ++ (if decide (user = []) then [] else user ++ T "@")
  ++ (if is_ipv6 host then T "[" ++ host ++ T "]" else host)
  ++ (if decide (0 < port) then T ":" ++ Itoa port else []) ++ T ";transport=tls".

Definition rewriteContact (advertised : Contact) (source : text) : text :=
  match SplitHostPort source with
  | Some (host, port) => if decide (host = []) then c_uri advertised else tls_uri (c_user advertised) host (default 0 (Atoi port))
  | None => c_uri advertised
  end.

(** What a request gets from the credentials it carries: a refusal, with the
    challenge's nonce kept, or leave to proceed. *)
Definition authorized (nonce : text) (now : Z) (verdict : auth_error + text) (sipUser : text) (a : Authenticator)
    : Authenticator * option answer :=
  match verdict with
  | inr enrolledUser => (a, if negb (EqualFold enrolledUser sipUser) then Some (bare 403) else None)
  | inl e =>
      if decide (e = ErrNoCredentials \/ e = ErrStale)
      then let '(a', v) := Challenge nonce now (bool_decide (e = ErrStale)) a in (a', Some (mkAnswer 401 [(T "WWW-Authenticate", v)]))
      else (a, Some (bare 403))
  end.

(** The check a request passes when authentication is on. *)
Definition admit_user (nonce : text) (now : Z) (req : Request) (sipUser : text) (st : state) : state * option answer :=
  match auth st with
  | None => (st, None)
  | Some a =>
      let '(a', r) := authorized nonce now (Verify md5hex IsDigest ParseCredentials DigestSecret (r_method req) (r_authorization req) now a) sipUser a in
      (mkState (reg st) (Some a'), r)
  end.

(** [None] is a panic in the location table. *)
Definition onRegister (nonce : text) (now : Z) (req : Request) (st : state) : option (state * answer) :=
  match r_to req with
  | None => Some (st, bare 400)
  | Some to =>
      if decide (to_user to = []) then Some (st, bare 400) else
      let user := to_user to in
      if negb (servesDomain (to_host to)) then Some (st, bare 403) else
      let '(st, refused) := admit_user nonce now req user st in
      match refused with
      | Some a => Some (st, a)
      | None =>
          match r_contact req with
          | None =>
              match Lookup now (to_string user) (reg st) with
              | None => Some (st, bare 404)
              | Some ep => Some (st, mkAnswer 200 (if decide (Registry.Contact ep <> "")
                                                   then [(T "Contact", T "<" ++ T (Registry.Contact ep) ++ T ">")] else []))
              end
          | Some contact =>
              let expires := registerExpires req contact (MaxExpires cfg) in
              if c_wildcard contact || bool_decide (expires = 0)
              then Some (mkState (Unregister (to_string user) (reg st)) (auth st), bare 200) else
              if decide (expires < MinExpires cfg)
              then Some (st, mkAnswer 423 [(T "Min-Expires", Itoa (MinExpires cfg))]) else
              let expires := if decide (MaxExpires cfg < expires) then MaxExpires cfg else expires in
              let uri := c_uri contact in
              let stored := if KeepAdvertisedContact cfg then uri else rewriteContact contact (r_source req) in
              r ← Register now (to_string user) (to_string stored) (i64 (expires * ns_second)) (reg st);
              match snd r with
              | None => Some (mkState (fst r) (auth st), bare 404)
              | Some _ => Some (mkState (fst r) (auth st),
                  mkAnswer 200 [(T "Contact", T "<" ++ uri ++ T ">;expires=" ++ Itoa expires); (T "Expires", Itoa expires)])
              end
          end
      end
  end.

(** [None]: the request goes on to its handler. *)
Definition authMiddleware (nonce : text) (now : Z) (req : Request) (st : state) : state * option answer :=
  if bool_decide (r_method req = T "INVITE") && negb (inDialog req)
     && negb (isTrunkSource (r_transport req) (r_source req) (CTrunk cfg) (TrunkPeers cfg))
  then admit_user nonce now req (default [] (r_from req)) st
  else (st, None).

Definition isTrunkLeg (req : Request) : bool := isTrunkSource (r_transport req) (r_source req) (CTrunk cfg) (TrunkPeers cfg).

End leg.

(** ** What a REGISTER may do *)

Section outcome.
Context (cfg : Config) (is_ipv6 : text -> bool).
Context (md5hex : text -> text) (IsDigest : text -> bool) (ParseCredentials : text -> option Credentials)
  (DigestSecret : text -> option (text * text)).

(** The request speaks for [user]: its domain is served and, when
    authentication is on, its credentials are those of a device enrolled for
    that user, up to case. *)
Definition speaks_for (now : Z) (req : Request) (st : state) (user : text) : Prop :=
  (exists to, r_to req = Some to /\ to_user to = user /\ user <> [] /\ servesDomain cfg (to_host to) = true)
  /\ forall a, auth st = Some a -> exists e,
       Verify md5hex IsDigest ParseCredentials DigestSecret (r_method req) (r_authorization req) now a = inr e
       /\ EqualFold e user = true.

Inductive outcome (now : Z) (req : Request) (st : state) : Registry -> answer -> Prop :=
  | Refused a : code a ∈ [400; 401; 403; 404; 423] -> outcome now req st (reg st) a
  | Queried user a : speaks_for now req st user -> r_contact req = None -> code a = 200 -> outcome now req st (reg st) a
  | Removed user c : speaks_for now req st user -> r_contact req = Some c ->
      outcome now req st (Unregister (to_string user) (reg st)) (bare 200)
  | Bound user c n ep reg' : speaks_for now req st user -> r_contact req = Some c ->
      MinExpires cfg <= n <= MaxExpires cfg -> n <= registerExpires req c (MaxExpires cfg) ->
      byUser (reg st) !! to_string user = Some ep ->
      (let route := if KeepAdvertisedContact cfg then c_uri c else rewriteContact is_ipv6 c (r_source req) in
       byUser reg' = <[to_string user := mkEndpoint (User ep) (DeviceID ep) (to_string route) (now + n * ns_second)]> (byUser (reg st))) ->
      outcome now req st reg'
        (mkAnswer 200 [(T "Contact", T "<" ++ c_uri c ++ T ">;expires=" ++ Itoa n); (T "Expires", Itoa n)]).

(** The admission check leaves the table alone. *)
Lemma admit_user_spec nonce now req user st :
  let '(st', r) := admit_user md5hex IsDigest ParseCredentials DigestSecret nonce now req user st in
  reg st' = reg st /\ match r with
    | Some a => code a ∈ [401; 403]
    | None => forall a, auth st = Some a -> exists e,
        Verify md5hex IsDigest ParseCredentials DigestSecret (r_method req) (r_authorization req) now a = inr e /\ EqualFold e user = true
    end.
Proof.
  unfold admit_user. destruct (auth st) as [a|]; [|done]. unfold authorized.
  destruct (Verify _ _ _ _ _ _ _ _) as [e|e] eqn:E.
  - destruct (decide _); cbn; (split; [done|set_solver]).
  - destruct (EqualFold e user) eqn:Ef; cbn; (split; [done|]); [|set_solver]. intros a' [= <-]. rewrite E. eauto.
Qed.

Lemma onRegister_spec nonce now req st : wf (reg st) ->
  MinExpires cfg <= MaxExpires cfg -> - 2 ^ 31 <= MinExpires cfg -> MaxExpires cfg < 2 ^ 31 ->
  exists st' a, onRegister cfg is_ipv6 md5hex IsDigest ParseCredentials DigestSecret nonce now req st = Some (st', a)
    /\ wf (reg st') /\ outcome now req st (reg st') a.
Proof.
  intros Hwf Hmm Hmin Hmax. unfold onRegister.
  assert (forall c h, c ∈ [400; 401; 403; 404; 423] -> outcome now req st (reg st) (mkAnswer c h)) as Href by (intros; by apply Refused).
  destruct (r_to req) as [to|] eqn:Et; [|do 2 eexists; split; [done|split; [done|apply Href; set_solver]]].
  destruct (decide (to_user to = [])) as [|Hu]; [do 2 eexists; split; [done|split; [done|apply Href; set_solver]]|].
  destruct (servesDomain cfg (to_host to)) eqn:Es; cbn [negb]; [|do 2 eexists; split; [done|split; [done|apply Href; set_solver]]].
  pose proof (admit_user_spec nonce now req (to_user to) st) as Ha.
  destruct (admit_user _ _ _ _ nonce now req (to_user to) st) as [st1 r]. destruct Ha as [Er Ha].
  destruct r as [a|].
  { do 2 eexists. split; [done|]. rewrite Er. split; [done|]. apply Refused. set_solver. }
  assert (speaks_for now req st (to_user to)) as Hsp by (split; [by eauto|done]).
  rewrite Er. destruct (r_contact req) as [c|] eqn:Ec.
  2: { destruct (Lookup now _ _); do 2 eexists; (split; [done|]); rewrite Er; (split; [done|]); [by eapply Queried|apply Href; set_solver]. }
  destruct (c_wildcard c || _).
  { do 2 eexists. split; [done|]. cbn. split; [by apply wf_Unregister|]. by eapply Removed. }
  destruct (decide (_ < MinExpires cfg)) as [|Hm].
  { do 2 eexists. split; [done|]. rewrite Er. split; [done|]. apply Href. set_solver. }
  set (n := if decide (MaxExpires cfg < _) then _ else _).
  assert (MinExpires cfg <= n <= MaxExpires cfg /\ n <= registerExpires req c (MaxExpires cfg)) as [Hn Hle] by (unfold n; case_decide; lia).
  assert (i64 (n * ns_second) = n * ns_second) as ->.
  { apply wraps_small; [done|]. unfold ns_second. lia. }
  set (route := if KeepAdvertisedContact cfg then _ else _).
  destruct (byUser (reg st) !! to_string (to_user to)) as [ep|] eqn:Eu.
  - destruct (Register_spec now (to_string (to_user to)) (to_string route) (n * ns_second) ep (reg st) Hwf Eu) as (reg'&->&Hwf'&Hby&_).
    cbn [mbind option_bind fst snd]. do 2 eexists. split; [done|]. split; [done|]. by eapply Bound.
  - unfold Register. rewrite Eu. cbn [mbind option_bind fst snd]. do 2 eexists. split; [done|]. cbn. split; [done|]. apply Href. set_solver.
Qed.

(** A REGISTER leaves the device index alone, and authentication on or off. *)
Lemma onRegister_frame nonce now req st st' a :
  onRegister cfg is_ipv6 md5hex IsDigest ParseCredentials DigestSecret nonce now req st = Some (st', a) ->
  byDevice (reg st') = byDevice (reg st) /\ (is_Some (auth st) -> is_Some (auth st')).
Proof.
  unfold onRegister. destruct (r_to req) as [to|]; [|by intros [= <- _]]. destruct (decide _); [by intros [= <- _]|].
  destruct (servesDomain _ _); cbn [negb]; [|by intros [= <- _]].
  pose proof (admit_user_spec nonce now req (to_user to) st) as Ha.
  assert (is_Some (auth st) -> is_Some (auth (fst (admit_user md5hex IsDigest ParseCredentials DigestSecret nonce now req (to_user to) st)))) as Hau.
  { unfold admit_user. destruct (auth st) as [au|] eqn:Eau; [|by intros [??]]. destruct (authorized _ _ _ _ _); cbn. eauto. }
  destruct (admit_user _ _ _ _ _ _ _ _ _) as [st1 r]. destruct Ha as [Er _]. cbn [fst] in Hau. rewrite <- Er.
  destruct r; [by intros [= <- _]|]. destruct (r_contact req) as [c|]; [|by destruct (Lookup _ _ _); intros [= <- _]].
  destruct (c_wildcard c || _); [intros [= <- _]; cbn; by rewrite Unregister_devices|].
  destruct (decide _); [by intros [= <- _]|].
  destruct (Register _ _ _ _ _) as [[r' x]|] eqn:E; [|done]. cbn. apply Register_devices in E.
  destruct x; intros [= <- _]; cbn; by rewrite E.
Qed.

End outcome.

(** Every REGISTER on the app leg is answered, without a panic, and does one
    of four things: it is refused with the table untouched; it is told the
    binding; it removes the contact of the user in To; or it binds that
    provisioned user, for a time between the configured bounds and at most the
    one asked for, to the connection it came in on (or to the contact it
    advertises where that is kept). The last three only for a served domain and
    credentials of a device enrolled for that user. *)
Theorem app_register_outcome (cfg : Config) (is_ipv6 : text -> bool) (md5hex : text -> text) (IsDigest : text -> bool)
  (ParseCredentials : text -> option Credentials) (DigestSecret : text -> option (text * text))
  (nonce : text) (now : Z) (req : Request) (st : state) :
  wf (reg st) -> MinExpires cfg <= MaxExpires cfg -> - 2 ^ 31 <= MinExpires cfg -> MaxExpires cfg < 2 ^ 31 ->
  exists st' a, onRegister cfg is_ipv6 md5hex IsDigest ParseCredentials DigestSecret nonce now req st = Some (st', a)
    /\ wf (reg st') /\ outcome cfg is_ipv6 md5hex IsDigest ParseCredentials DigestSecret now req st (reg st') a.
Proof. apply onRegister_spec. Qed.

(** ** Witness *)

Definition open_cfg : Config := withDefaults (mkConfig [] 0 0 (T "sip.example") [T "example.org"] false None [] 0 0 0 0).
Definition open_state : state := mkState (Provision "bob" "phone1" Registry.New) None.
Definition a_register : Request :=
  mkRequest (T "REGISTER") (Some (mkTo (T "bob") (T "Example.ORG:5061") false)) (Some (T "bob"))
    (Some (mkContact (T "bob") (T "sip:bob@10.0.0.9") false (Some (T "7200")))) None None (T "tls") (T "[fd00::9]:4001").
Definition is_v6 (h : text) : bool := bool_decide (":"%char ∈ h).

Example a_register_binds :
  option_map (fun r => (Registry.Contact <$> byUser (reg (fst r)) !! "bob", headers (snd r)))
    (onRegister open_cfg is_v6 id (fun _ => false) (fun _ => None) (fun _ => None) [] 20 a_register open_state)
  = Some (Some "sip:bob@[fd00::9]:4001;transport=tls",
          [(T "Contact", T "<sip:bob@10.0.0.9>;expires=3600"); (T "Expires", T "3600")]).
Proof. vm_compute. reflexivity. Qed.

Lemma app_register_outcome_witness :
  exists st' a, onRegister open_cfg is_v6 id (fun _ => false) (fun _ => None) (fun _ => None) [] 20 a_register open_state = Some (st', a)
    /\ wf (reg st') /\ outcome open_cfg is_v6 id (fun _ => false) (fun _ => None) (fun _ => None) 20 a_register open_state (reg st') a.
Proof.
  apply (app_register_outcome open_cfg is_v6 id (fun _ => false) (fun _ => None) (fun _ => None) [] 20 a_register open_state).
  - apply wf_Provision, wf_New.
  - vm_compute. discriminate.
  - vm_compute. discriminate.
  - vm_compute. reflexivity.
Defined.
