(* ===== verification/AppLegProps.v ===== *)
(** Who may act as whom on the app leg: the registrar and the INVITE gate over
    the credentials of the enrolment store (src/server/internal/b2bua/b2bua.go,
    src/server/internal/enroll/enroll.go). *)

From S2P Require Import Prelude Text Enroll Trunk Net Registry SipAuth AppLeg.
Open Scope Z_scope.

(** The store as the authenticator's source of secrets. *)
Definition store_secret (s : Store) (device : text) : option (text * text) :=
  (fun hu => (T (fst hu), T (snd hu))) <$> Enroll.DigestSecret s (to_string device).

Section leg.
Context (cfg : Config) (is_ipv6 : text -> bool).
Context (md5hex : text -> text) (IsDigest : text -> bool) (ParseCredentials : text -> option Credentials) (s : Store).

Definition verified (now : Z) (req : Request) (a : Authenticator) : auth_error + text :=
  Verify md5hex IsDigest ParseCredentials (store_secret s) (r_method req) (r_authorization req) now a.

(** No two users of the table differ in case only, the device's own included. *)
Definition case_distinct (r : Registry) (e : text) : Prop :=
  forall u ep, byUser r !! u = Some ep -> EqualFold e (T u) = true -> u = to_string e.

(** A verified device is one of the store, in force, with its user. *)
Lemma Verify_device now req a e : verified now req a = inr e ->
  exists d r, devices s !! d = Some r /\ Enroll.User r = to_string e /\ Revoked r = false /\ (d ∉ unlicensed s) /\ rHA1 r <> "".
Proof.
  unfold verified, Verify. destruct (r_authorization req) as [h|]; [|done]. destruct (IsDigest h); [|done]. cbn [negb].
  destruct (ParseCredentials h) as [c|]; [|done]. destruct (EqualFold _ _); [|done]. cbn [negb].
  destruct (_ && _); [done|]. destruct (decide _); [done|]. destruct (nonceValid _ _ _); [|done]. cbn [negb].
  unfold store_secret, Enroll.DigestSecret. destruct (devices s !! to_string (Username c)) as [r|] eqn:Er; [|done]. cbn.
  destruct (decide (Revoked r = true \/ _)) as [|Hn]; [done|]. cbn. destruct (decide _); [done|]. intros [= <-].
  exists (to_string (Username c)), r. rewrite to_string_T. split; [done|]. split; [done|].
  split; [destruct (Revoked r); [exfalso; auto|done]|]. split; auto.
Qed.

(** C3: With authentication on, a REGISTER never touches the contact of a user
    other than the one its credentials are enrolled for, if no two users differ
    in case only; one without valid credentials changes nothing; and a new call
    that is let through from outside the trunk names, up to case, the enrolled
    user of a device of the store that holds a seat and is not revoked. *)
Theorem device_acts_for_its_user (nonce : text) (now : Z) (req : Request) (st st' : state) (a : Authenticator) (ans : answer) :
  auth st = Some a -> wf (reg st) ->
  MinExpires cfg <= MaxExpires cfg -> - 2 ^ 31 <= MinExpires cfg -> MaxExpires cfg < 2 ^ 31 ->
  (onRegister cfg is_ipv6 md5hex IsDigest ParseCredentials (store_secret s) nonce now req st = Some (st', ans) ->
   match verified now req a with
   | inl _ => reg st' = reg st
   | inr e => case_distinct (reg st) e -> forall v, v <> to_string e -> byUser (reg st') !! v = byUser (reg st) !! v
   end)
  /\ (r_method req = T "INVITE" -> inDialog req = false -> isTrunkLeg cfg req = false ->
      (snd (authMiddleware cfg md5hex IsDigest ParseCredentials (store_secret s) nonce now req st) = None) ->
      exists d r, devices s !! d = Some r /\ Revoked r = false /\ (d ∉ unlicensed s)
                  /\ EqualFold (T (Enroll.User r)) (default [] (r_from req)) = true).
Proof.
  intros Ea Hwf Hmm Hmin Hmax. split.
  - intros H.
    destruct (onRegister_spec cfg is_ipv6 md5hex IsDigest ParseCredentials (store_secret s) nonce now req st Hwf Hmm Hmin Hmax)
      as (st1&ans1&E&_&Ho). assert (st1 = st') as -> by congruence.
    assert (forall user, speaks_for cfg md5hex IsDigest ParseCredentials (store_secret s) now req st user ->
      exists e, verified now req a = inr e /\ EqualFold e user = true) as Hsp by (intros user [_ Hs]; by apply Hs).
    inversion Ho as [? _|user ? Hs _ _|user c Hs _ E1|user c n ep reg' Hs _ _ _ Hep Hby]; subst.
    1, 2: by destruct (verified now req a).
    all: destruct (Hsp user Hs) as (e&Hv&Hf); rewrite Hv; intros Hd v Hne.
    + rewrite Unregister_lookup. destruct (decide (v = to_string user)) as [->|]; [|done].
      destruct (byUser (reg st) !! to_string user) as [ep|] eqn:Eu; [|done]. exfalso. apply Hne, (Hd _ ep Eu). by rewrite T_to_string.
    + rewrite Hby, lookup_insert_ne; [done|]. intros <-. apply Hne, (Hd _ ep Hep). by rewrite T_to_string.
  - intros Hm Hd Ht. unfold authMiddleware. rewrite bool_decide_eq_true_2 by done. unfold isTrunkLeg in Ht. rewrite Hd, Ht. cbn [negb andb].
    unfold admit_user. rewrite Ea. fold (verified now req a). destruct (verified now req a) as [e|e] eqn:E.
    { cbn. destruct (decide _); done. }
    cbn. destruct (EqualFold e _) eqn:Ef; [|done]. intros _. destruct (Verify_device _ _ _ _ E) as (d&r&H1&H2&H3&H4&_).
    exists d, r. rewrite H2, T_to_string. done.
Qed.
End leg.

(** ** Findings *)

(** Enrolment compares users exactly, the app leg without case: a device can be
    created for a user that differs in case only, and its REGISTER then moves
    the other user's contact. MD5, the header parser and the header are
    stand-ins: a digest is the text in lower case. *)
Module Twin.
Definition bob : record := mkRecord "bob" "" "" "h1" "ha1-bob" 1 1 false 1 "" 0 [] 0 None.
Definition before : Store := mkStore false "dialler" {["phone1" := bob]} None 10 1 ∅ false [].
Definition created : Store := match Create "phone2" "Bob" "" [] 5 true before with Some (s, inr _) => s | _ => before end.
Definition enrolled : Store := mkStore false "dialler" (alter (set_credential "h2" "ha1-twin" 6) "phone2" (devices created)) None 10 2 ∅ false [].

Definition cfg : Config := withDefaults (mkConfig [] 0 0 (T "sip.example") [] false None [] 0 0 0 0).
(** The credentials a device sends for a method: the header is the device and
    the method. *)
Definition creds (device ha1 method : text) : Credentials :=
  mkCredentials (T "dialler") [] [] (T "n0") device (ToLower (ha1 ++ T ":n0:" ++ method ++ T ":sip:x")) (T "sip:x") 0 [].
Definition stand_in (t : text) : text := ToLower t.
Definition parse (h : text) : option Credentials :=
  '(device, method) ← Cut h "/"%char;
  Some (creds device (if decide (device = T "phone1") then T "ha1-bob" else T "ha1-twin") method).
Definition table : Registry := match Register 5 "bob" "sip:bob@10.0.0.1:4000;transport=tls" (100 * ns_second) (Provision "bob" "phone1" Registry.New) with
                               | Some (r, _) => r | None => Registry.New end.
Definition before_st : state := mkState table (Some (newNonce (T "n0") 10 (SipAuth.New (T "dialler")))).
Definition take_over : Request :=
  mkRequest (T "REGISTER") (Some (mkTo (T "bob") (T "sip.example") false)) (Some (T "Bob"))
    (Some (mkContact (T "x") (T "sip:x@y") false None)) None (Some (T "phone2/REGISTER")) (T "tls") (T "6.6.6.6:999").

Lemma case_twin_takes_over :
  (exists e, Create "phone2" "Bob" "" [] 5 true before = Some (created, inr e))
  /\ (Registry.Contact <$> byUser (reg before_st) !! "bob") = Some "sip:bob@10.0.0.1:4000;transport=tls"
  /\ exists st' a, onRegister cfg (fun _ => false) stand_in (fun _ => true) parse (store_secret enrolled) [] 20 take_over before_st = Some (st', a)
     /\ (Registry.Contact <$> byUser (reg st') !! "bob") = Some "sip:x@6.6.6.6:999;transport=tls".
Proof. split; [by eexists|]. split; [by vm_compute|]. eexists _, _. split; [by vm_compute|by vm_compute]. Qed.

(** In lines mode a call goes out on the line of the From user as written: the
    device enrolled for bob that writes BOB is let through, and presented to the
    PBX as the default line. *)
Definition pbx_lines : Lines :=
  mkLines (fun user => Some (user, T "secret"))
    (fun user => if decide (user = T "bob") then Some (T "201") else if decide (user = T "reception") then Some (T "100") else None).
Definition call : Request :=
  mkRequest (T "INVITE") (Some (mkTo (T "0501") (T "sip.example") false)) (Some (T "BOB")) None None (Some (T "phone1/INVITE")) (T "tls") (T "10.0.0.1:4000").

Lemma capitals_call_as_the_default_line :
  snd (authMiddleware cfg stand_in (fun _ => true) parse (store_secret before) [] 20 call before_st) = None
  /\ (from <$> calleeInvite (Some pbx_lines) (T "reception") (T "pbx") [] None true (T "bob")) = Some (Some (T "201", T "pbx"))
  /\ (from <$> calleeInvite (Some pbx_lines) (T "reception") (T "pbx") [] None true (T "BOB")) = Some (Some (T "100", T "pbx")).
Proof. split; [by vm_compute|]. split; by vm_compute. Qed.

Definition refresh : Request :=
  mkRequest (T "REGISTER") (Some (mkTo (T "bob") (T "sip.example") false)) (Some (T "bob"))
    (Some (mkContact (T "bob") (T "sip:bob@y") false None)) None (Some (T "phone1/REGISTER")) (T "tls") (T "10.0.0.1:4001").
Definition refreshed : state * answer :=
  default (before_st, bare 0) (onRegister cfg (fun _ => false) stand_in (fun _ => true) parse (store_secret before) [] 20 refresh before_st).

Lemma table_wf : wf table.
Proof.
  pose proof (wf_Provision "bob" "phone1" _ wf_New) as Hp.
  destruct (Register_spec 5 "bob" "sip:bob@10.0.0.1:4000;transport=tls" (100 * ns_second) (mkEndpoint "bob" "phone1" "" 0) _ Hp) as (r&E&Hr&_); [done|].
  unfold table. by rewrite E.
Qed.
End Twin.

Lemma device_acts_for_its_user_witness :
  let '(st', ans) := Twin.refreshed in
  (onRegister Twin.cfg (fun _ => false) Twin.stand_in (fun _ => true) Twin.parse (store_secret Twin.before) [] 20 Twin.refresh Twin.before_st = Some (st', ans)
   /\ code ans = 200)
  /\ match verified Twin.stand_in (fun _ => true) Twin.parse Twin.before 20 Twin.refresh (newNonce (T "n0") 10 (SipAuth.New (T "dialler"))) with
     | inl _ => False
     | inr e => case_distinct (reg Twin.before_st) e -> forall v, v <> to_string e -> byUser (reg st') !! v = byUser (reg Twin.before_st) !! v
     end.
Proof.
  destruct Twin.refreshed as [st' ans] eqn:E.
  assert (onRegister Twin.cfg (fun _ => false) Twin.stand_in (fun _ => true) Twin.parse (store_secret Twin.before) [] 20 Twin.refresh Twin.before_st = Some (st', ans)) as H.
  { rewrite <- E. by vm_compute. }
  split; [split; [exact H|change (code (snd (st', ans)) = 200); rewrite <- E; by vm_compute]|].
  exact (proj1 (device_acts_for_its_user Twin.cfg (fun _ => false) Twin.stand_in (fun _ => true) Twin.parse Twin.before [] 20 Twin.refresh
    Twin.before_st st' (newNonce (T "n0") 10 (SipAuth.New (T "dialler"))) ans eq_refl Twin.table_wf
    ltac:(by vm_compute) ltac:(by vm_compute) ltac:(by vm_compute)) H).
Defined.
