(* ===== verification/Call.v ===== *)
(** An incoming call (src/server/internal/b2bua/b2bua.go: serveDialog,
    wakeAndWaitFrom, bridge up to the relay, echo, ringer, HandleWakeAck,
    callerStatus).

    - A call is a program in a state monad: what it does to the caller, the
      callee, the gateway and the location table is appended to a trace; [rang]
      is the [sync.Once] of the ringer.
    - While the callee's INVITE is out, responses, wake acknowledgements, the
      route watch, the timers and the end of the caller's context run
      concurrently; they are the list [during], in the order they take effect.
    - Arguments: the SIP stack's results of each step, the answers of the gateway
      and of the location table's waits, and whether a URI parses. *)

From S2P Require Import Prelude Text Net Registry Routing Trunk.
Open Scope Z_scope.

Inductive cancel_reason := CancelTimeout | CancelCallerHangup.

Inductive act :=
  | Trying
  | Ringing
  | Respond (code : Z)
  | Answer (ok : bool)                        (* AnswerOptions: 200 to the caller, and its ACK;
                                                 false: it failed, before the 200 or after *)
  | HangupIn
  | Wake (device : string)
  | CancelWake (device : string) (reason : cancel_reason)
  | ForgetWake (device : string)
  | Unregister (user : string)
  | Invite (route : text) (trunk : bool) (who : identity)
  | HangupOut
  | CloseOut
  | DropTrunk
  | AckOut
  | Started
  | Ended (reason : string).

Record trace := mkTrace { out : list act; rang : bool }.

(** ** The monad *)

Definition M (A : Type) : Type := trace -> trace * A.

#[export] Instance M_ret : MRet M := fun A x s => (s, x).
#[export] Instance M_bind : MBind M := fun A B f m s => let '(s', x) := m s in f x s'.

Definition emit (a : act) : M unit := fun s => (mkTrace (out s ++ [a]) (rang s), tt).

(** [ringer] *)
Definition ring : M unit := fun s => if rang s then (s, tt) else (mkTrace (out s ++ [Ringing]) true, tt).

Definition when (b : bool) (m : M unit) : M unit := if b then m else mret tt.

(** ** The callee's INVITE *)

Inductive ack := WillAnswer | Decline | Busy.

Inductive cause := CContext | CDeclined | CBusy | CRetarget | CTrunkUnresponsive.

#[export] Instance cause_eq_dec : EqDecision cause.
Proof. solve_decision. Defined.

Inductive during :=
  | DResponse (code : Z)             (* a response from the callee's route *)
  | DContext                         (* the ring time is over, or the caller is gone *)
  | DAck (a : ack)                   (* the device answers the wake *)
  | DGrace (c : cause)               (* declineGrace after such an answer *)
  | DMoved (ep : Endpoint)           (* the callee registered from elsewhere *)
  | DTimer.                          (* trunkResponseTimeout *)

Record watch := mkWatch {
  answered : bool;
  abandoned : option cause;
  moved : option Endpoint;
  cancelled : option bool;           (* the INVITE's context, and whether by force *)
  pending : list cause;              (* acknowledgements whose grace runs *)
}.

Definition no_watch : watch := mkWatch false None None None [].

Definition first {A} (old : option A) (new : A) : option A := match old with Some x => Some x | None => Some new end.

Definition abandon (reason : cause) (w : watch) : watch :=
  mkWatch (answered w) (first (abandoned w) reason) (moved w) (first (cancelled w) (negb (answered w))) (pending w).

(** HandleWakeAck: the cause it cancels a wait with. *)
Definition ack_cause (a : ack) : option cause :=
  match a with Decline => Some CDeclined | Busy => Some CBusy | WillAnswer => None end.

(** The function a wait is cancelled with while the INVITE is out. *)
Definition on_ack (c : cause) (w : watch) : watch :=
  mkWatch (answered w) (if decide (c = CBusy) then first (abandoned w) c else abandoned w) (moved w) (cancelled w) (c :: pending w).

(** [watched]: a registered callee; [timed]: a trunk over TCP or TLS. *)
Definition during_step (watched timed : bool) (d : during) (w : watch) : M watch :=
  match d with
  | DResponse code =>
      when (bool_decide (180 <= code < 200)) ring ;;
      mret (mkWatch true (abandoned w) (moved w) (cancelled w) (pending w))
  | DTimer =>
      mret (if timed && negb (answered w)
            then mkWatch (answered w) (first (abandoned w) CTrunkUnresponsive) (moved w) (first (cancelled w) true) (pending w)
            else w)
  | DContext => mret (if watched then abandon CContext w else w)
  | DAck a => mret (if watched then match ack_cause a with Some c => on_ack c w | None => w end else w)
  | DGrace c => mret (if watched && bool_decide (c ∈ pending w) then abandon c w else w)
  | DMoved ep =>
      mret (if watched then abandon CRetarget (mkWatch (answered w) (abandoned w) (first (moved w) ep) (cancelled w) (pending w)) else w)
  end.

Fixpoint during_all (watched timed : bool) (l : list during) (w : watch) : M watch :=
  match l with
  | [] => mret w
  | d :: l' => w' ← during_step watched timed d w; during_all watched timed l' w'
  end.

(** How the INVITE came to nothing: the callee's final response, or no answer. *)
Inductive invite_error := EResponse (code : Z) | EOther.

Definition callerStatus (e : invite_error) : Z :=
  match e with EResponse code => if decide (code ∈ [486; 600; 603]) then code else 480 | EOther => 480 end.

(** What the stack answers in one attempt: whether the dialog was made; what
    happened during the INVITE and its error, if any; whether each leg's media is
    SRTP; whether the caller's answer, the callee's ACK and the relay worked;
    whether the caller's dialog is over when that is asked; whether a leg fell
    silent. *)
Record attempt := mkAttempt {
  dialog_ok : bool;
  happened : list during;
  invite : option invite_error;
  secure_out : bool;
  secure_in : bool;
  answer_ok : bool;
  ack_ok : bool;
  start_ok : bool;
  gone : bool;
  peer_gone : bool;
}.

Record legs := mkLegs { callerTrunk : bool; calleeTrunk : bool; calleeUser : string; calleeRoute : text }.

(** [BStuck]: waiting for a route nobody sends. *)
Inductive bridged := BDone | BFailed | BMoved (ep : Endpoint) | BTrunkDead | BStuck.

(** The wait of a woken callee: the connections the wake reached, then the
    callee's new binding or why it ended: the device's answer, whether the call's
    time was over and whether the caller was gone. *)
Record wait_end := mkWaitEnd { w_cause : option cause; w_over : bool; w_gone : bool }.
Record wake_wait := mkWakeWait { delivered : Z; woken : Endpoint + wait_end }.

Record Server := mkServer {
  cfg_trunk : option Trunk;
  cfg_srtp : TrunkSRTPMode;
  cfg_keep : bool;                   (* KeepAdvertisedContact *)
  cfg_lines : option Lines;
  cfg_default_line : text;
  cfg_pbx_domain : text;
  cfg_external : text;
  has_waker : bool;
}.

Definition maxRetargets : nat := 3.

Section server.
Context (s : Server) (parses : text -> bool).

(** [callee]: its device; [in_]: there is a caller leg to tell. *)
Definition wakeAndWaitFrom (in_ : bool) (ep : Endpoint) (o : wake_wait) : M (option Endpoint) :=
  let respond code := when in_ (emit (Respond code)) in
  if bool_decide (DeviceID ep = "") || negb (has_waker s) then respond 480 ;; mret None else
  emit (Wake (DeviceID ep)) ;;
  if decide (delivered o = 0) then emit (CancelWake (DeviceID ep) CancelTimeout) ;; respond 480 ;; mret None else
  when in_ ring ;;
  match woken o with
  | inl ep' => mret (Some ep')
  | inr e =>
      if decide (w_cause e = Some CDeclined) then respond 486 ;; mret None else
      if decide (w_cause e = Some CBusy) then when (negb (w_gone e)) (respond 480) ;; mret None else
      let reason := if w_over e && (negb in_ || w_gone e) then CancelCallerHangup else CancelTimeout in
      emit (CancelWake (DeviceID ep) reason) ;;
      match reason with CancelTimeout => respond 480 | CancelCallerHangup => mret tt end ;;
      mret None
  end.

Definition bridge (l : legs) (dst : text) (onBehalfOf : text) (o : attempt) : M bridged :=
  let tell code := when (negb (gone o)) (emit (Respond code)) in
  if negb (dialog_ok o) then emit (Respond 500) ;; mret BFailed else
  match calleeInvite (cfg_lines s) (cfg_default_line s) (cfg_pbx_domain s) (cfg_external s) (cfg_trunk s) (calleeTrunk l) onBehalfOf with
  | None => emit (Respond 403) ;; emit CloseOut ;; mret BFailed
  | Some who =>
      let watched := bool_decide (calleeUser l <> "") in
      let timed := calleeTrunk l && match cfg_trunk s with Some t => reliableTransport (Transport t) | None => false end in
      emit (Invite dst (calleeTrunk l) who) ;;
      w ← during_all watched timed (happened o) no_watch;
      match invite o with
      | Some e =>
          match abandoned w with
          | Some CRetarget =>
              match moved w with
              | Some ep => emit HangupOut ;; emit CloseOut ;; mret (BMoved ep)
              | None => mret BStuck
              end
          | Some CDeclined => emit HangupOut ;; emit CloseOut ;; tell 486 ;; mret BFailed
          | Some CBusy => emit HangupOut ;; emit CloseOut ;; tell 480 ;; mret BFailed
          | Some CTrunkUnresponsive => emit CloseOut ;; emit DropTrunk ;; mret BTrunkDead
          | Some CContext | None => emit HangupOut ;; emit CloseOut ;; tell (callerStatus e) ;; mret BFailed
          end
      | None =>
          if negb (requireTrunkSRTP (cfg_srtp s) (calleeTrunk l) (secure_out o))
          then emit HangupOut ;; emit CloseOut ;; tell 488 ;; mret BFailed else
          emit (Answer (answer_ok o)) ;;
          if negb (answer_ok o) then emit HangupOut ;; emit CloseOut ;; mret BFailed else
          if negb (requireTrunkSRTP (cfg_srtp s) (callerTrunk l) (secure_in o)) then emit CloseOut ;; emit HangupIn ;; mret BFailed else
          if negb (ack_ok o) then emit CloseOut ;; emit HangupIn ;; mret BFailed else
          emit AckOut ;;
          if negb (start_ok o) then emit HangupOut ;; emit HangupIn ;; emit (Ended "failed") ;; emit CloseOut ;; mret BFailed else
          emit Started ;;
          emit (Ended (if peer_gone o then "peer_gone" else "bye")) ;;
          emit CloseOut ;;
          mret BDone
      end
  end.

(** ** The call *)

(** [over k]: the ring time is over, or the caller gone, after attempt [k]. *)
Record env := mkEnv {
  e_caller_trunk : bool;
  e_from : text;
  flow_alive : bool;
  e_wait : wake_wait;
  attempts : nat -> attempt;
  over : nat -> bool;
  gone_after : nat -> bool;
}.

Section env.
Context (e : env).

(** [false]: out of fuel. *)
Fixpoint dial_trunk (fuel k : nat) (dst : text) : M bool :=
  match fuel with
  | O => mret false
  | S fuel' =>
      r ← bridge (mkLegs (e_caller_trunk e) true "" []) dst (e_from e) (attempts e k);
      match r with
      | BTrunkDead =>
          if bool_decide (k = 0%nat) && negb (over e k) then dial_trunk fuel' (S k) dst
          else when (negb (gone_after e k)) (emit (Respond 480)) ;; mret true
      | _ => mret true
      end
  end.

Inductive dialled := OutOfFuel | BadContact | Over (ep : Endpoint) (ok : bool).

Fixpoint dial_app (fuel k : nat) (ep : Endpoint) : M dialled :=
  match fuel with
  | O => mret OutOfFuel
  | S fuel' =>
      let contact := T (Contact ep) in
      if negb (parses contact) then emit (Respond 500) ;; mret BadContact else
      r ← bridge (mkLegs (e_caller_trunk e) false (User ep) contact) contact (e_from e) (attempts e k);
      match r with
      | BMoved ep' => if bool_decide (k < maxRetargets)%nat && negb (over e k) then dial_app fuel' (S k) ep' else mret (Over ep false)
      | BDone => mret (Over ep true)
      | _ => mret (Over ep false)
      end
  end.

(** The ringing, the dialling and what the wake is told at the end. *)
Definition dial_local (ep : Endpoint) (wakeable : bool) : M bool :=
  r ← dial_app (S maxRetargets) 0 ep;
  match r with
  | OutOfFuel => mret false
  | BadContact => mret true
  | Over ep' ok =>
      when wakeable (emit (if ok : bool then ForgetWake (DeviceID ep')
                           else CancelWake (DeviceID ep') (if gone_after e 0 then CancelCallerHangup else CancelTimeout))) ;;
      mret true
  end.

(** [None] as the endpoint: the router gave none, which [Local] never does. *)
Definition serveDialog (d : Decision_) : M bool :=
  match target d with
  | Unknown => emit (Respond 404) ;; mret true
  | Echo => emit Trying ;; emit (Answer (answer_ok (attempts e 0))) ;; mret true
  | Routing.Trunk =>
      emit Trying ;;
      match cfg_trunk s with
      | None => emit (Respond 503) ;; mret true
      | Some t =>
          let uri := URI t (User_ d) in
          if negb (parses uri) then emit (Respond 500) ;; mret true else dial_trunk 2 0 uri
      end
  | Local =>
      emit Trying ;;
      let ep := default (mkEndpoint "" "" "" 0) (Endpoint_ d) in
      let stale := Registered_ d && negb (cfg_keep s) && negb (flow_alive e) in
      when stale (emit (Unregister (User ep))) ;;
      let registered := Registered_ d && negb stale in
      let wakeable := bool_decide (DeviceID ep <> "") && has_waker s in
      if negb registered then
        w ← wakeAndWaitFrom true ep (e_wait e);
        match w with None => mret true | Some ep' => dial_local ep' wakeable end
      else
        when wakeable (emit (Wake (DeviceID ep))) ;;
        dial_local ep wakeable
  end.

End env.
End server.
