(* ===== verification/CallProps.v ===== *)
(** What a call owes the caller and the woken device, whatever the stack, the
    gateway and the callee do (src/server/internal/b2bua/b2bua.go). *)

From S2P Require Import Prelude Text Net Registry Routing Trunk Call.
Open Scope Z_scope.

(** ** What the caller sees, and what the device is told *)

(** An answer that failed is no final: its 200 may not have been sent. *)
Definition is_final (a : act) : bool := match a with Respond _ => true | Answer ok => ok | _ => false end.
Definition faces_caller (a : act) : bool := match a with Trying | Ringing | Answer _ => true | _ => is_final a end.

(** What goes to the device, and the relay's start among it. *)
Definition to_device (a : act) : bool := match a with Wake _ | CancelWake _ _ | ForgetWake _ | Started => true | _ => false end.

Definition heard (l : list act) : list act := List.filter faces_caller l.
Definition told (l : list act) : list act := List.filter to_device l.

Lemma heard_app a b : heard (a ++ b) = heard a ++ heard b.
Proof. apply List.filter_app. Qed.
Lemma told_app a b : told (a ++ b) = told a ++ told b.
Proof. apply List.filter_app. Qed.

(** [s'] follows [s], the caller hearing [l] and the device [t]. *)
Definition goes (s s' : trace) (l t : list act) : Prop :=
  heard (out s') = heard (out s) ++ l /\ told (out s') = told (out s) ++ t.

(** The ringing part of a stretch: once, and only if not rung before. *)
Definition rung (s s' : trace) (rp : list act) : Prop :=
  (rp = [] /\ rang s' = rang s) \/ (rp = [Ringing] /\ rang s = false /\ rang s' = true).

Lemma goes_refl s : goes s s [] [].
Proof. split; by rewrite app_nil_r. Qed.

Lemma goes_trans s1 s2 s3 l1 t1 l2 t2 : goes s1 s2 l1 t1 -> goes s2 s3 l2 t2 -> goes s1 s3 (l1 ++ l2) (t1 ++ t2).
Proof. intros [H1 H2] [H3 H4]. split; [by rewrite H3, H1, app_assoc|by rewrite H4, H2, app_assoc]. Qed.

Lemma goes_emit s a : goes s (fst (emit a s)) (heard [a]) (told [a]).
Proof. split; [apply heard_app|apply told_app]. Qed.

Lemma rung_refl s : rung s s [].
Proof. by left. Qed.

Lemma rung_from s1 s2 s3 rp : rang s2 = rang s1 -> rung s2 s3 rp -> rung s1 s3 rp.
Proof. unfold rung. intros ->. done. Qed.

Lemma rung_trans s1 s2 s3 r1 r2 : rung s1 s2 r1 -> rung s2 s3 r2 -> rung s1 s3 (r1 ++ r2).
Proof.
  intros [[-> E1]|(->&E1&E1')] [[-> E2]|(->&E2&E2')]; unfold rung; cbn; rewrite ?E1, ?E2 in *.
  - by left. - right. by rewrite <- E1. - right. auto. - congruence.
Qed.

Definition alerted (l : list during) : Prop := exists code, DResponse code ∈ l /\ 180 <= code < 200.

(** What the watchers may have found. *)
Definition sound (watched timed : bool) (w : watch) : Prop :=
  (abandoned w = Some CRetarget -> moved w <> None /\ watched = true) /\ (timed = false -> abandoned w <> Some CTrunkUnresponsive).

Definition moved_by (l : list during) (w w' : watch) : Prop :=
  forall ep, moved w' = Some ep -> moved w = Some ep \/ DMoved ep ∈ l.

Lemma sound_abandon watched timed c w : c <> CTrunkUnresponsive -> (c = CRetarget -> moved w <> None /\ watched = true) ->
  sound watched timed w -> sound watched timed (abandon c w).
Proof. intros H1 H2 [H3 H4]. unfold abandon, sound, first. cbn. destruct (abandoned w); [done|]. split; [intros [= ->]; auto|intros _ [= ->]; auto]. Qed.

(** A grace in flight is for a decline or a busy. *)
Definition graces (w : watch) : Prop := forall c, c ∈ pending w -> c = CDeclined \/ c = CBusy.

Lemma during_step_spec watched timed d w s : sound watched timed w -> graces w -> let '(s', w') := during_step watched timed d w s in
  exists rp, goes s s' rp [] /\ rung s s' rp /\ (rp <> [] -> alerted [d]) /\ sound watched timed w' /\ graces w' /\ moved_by [d] w w'.
Proof.
  intros Hs Hg. assert (forall w', sound watched timed w' -> graces w' -> moved_by [d] w w' -> exists rp,
    goes s s rp [] /\ rung s s rp /\ (rp <> [] -> alerted [d]) /\ sound watched timed w' /\ graces w' /\ moved_by [d] w w') as Hq.
  { intros w' H1 H2 H3. exists []. split; [apply goes_refl|]. split; [apply rung_refl|]. done. }
  assert (moved_by [d] w w) as Hw by (intros ep; auto).
  destruct d as [code| |a|c|ep|]; cbn [during_step].
  - unfold mbind, M_bind, mret, M_ret, when. destruct (bool_decide (180 <= code < 200)) eqn:Eb; [|by apply Hq].
    apply bool_decide_eq_true_1 in Eb. unfold ring. destruct (rang s) eqn:Er; [by apply Hq|].
    exists [Ringing]. split; [split; cbn; [apply heard_app|by rewrite told_app]|]. split; [by right|].
    split; [exists code; split; [apply list_elem_of_here|done]|]. done.
  - apply Hq; destruct watched; try done. by apply sound_abandon.
  - destruct watched; [|by apply Hq]. destruct (ack_cause a) as [c|] eqn:Ec; [|by apply Hq].
    assert (c = CDeclined \/ c = CBusy) as Hc by (destruct a; [done|..]; injection Ec as <-; auto). apply Hq; [| |done].
    + destruct Hs as [H1 H2]. unfold on_ack, first. split; cbn; (destruct (decide (c = CBusy)) as [->|]; [destruct (abandoned w)|]); auto; done.
    + intros c'. cbn. rewrite elem_of_cons. intros [->|]; auto.
  - destruct watched; [|by apply Hq]. cbn [andb]. destruct (bool_decide (c ∈ pending w)) eqn:Eb; [|by apply Hq].
    apply bool_decide_eq_true_1 in Eb. apply Hq; try done. apply sound_abandon; [by destruct (Hg c Eb) as [-> | ->]..|done].
  - destruct watched; [|by apply Hq]. apply Hq; try done.
    + apply sound_abandon; [done| |].
      * intros _. cbn. unfold first. by destruct (moved w).
      * destruct Hs as [H1 H2]. split; [|done]. cbn. intros H. apply H1 in H as [H _]. unfold first. by destruct (moved w).
    + intros ep'. cbn. unfold first. destruct (moved w); [auto|]. intros [= ->]. right. apply list_elem_of_here.
  - unfold mret, M_ret. destruct (timed && negb (answered w)) eqn:Eb; [|by apply Hq]. apply andb_true_iff in Eb as [-> _].
    apply Hq; [|done|done]. destruct Hs as [H1 H2]. split; [|done]. cbn. unfold first. by destruct (abandoned w).
Qed.

(** While the INVITE is out the caller can only be told that it rings. *)
Lemma during_all_spec watched timed l w s : sound watched timed w -> graces w -> let '(s', w') := during_all watched timed l w s in
  exists rp, goes s s' rp [] /\ rung s s' rp /\ (rp <> [] -> alerted l) /\ sound watched timed w' /\ moved_by l w w'.
Proof.
  revert w s. induction l as [|d l IH]; intros w s Hs Hg.
  { cbn. exists []. split; [apply goes_refl|]. split; [apply rung_refl|]. split; [done|]. split; [done|]. by intros ep; auto. }
  cbn [during_all]. unfold mbind, M_bind. pose proof (during_step_spec watched timed d w s Hs Hg) as H1.
  destruct (during_step watched timed d w s) as [s1 w1]. destruct H1 as (r1&G1&R1&A1&S1&P1&M1).
  specialize (IH w1 s1 S1 P1). destruct (during_all watched timed l w1 s1) as [s2 w2]. destruct IH as (r2&G2&R2&A2&S2&M2).
  exists (r1 ++ r2). split; [by apply (goes_trans s s1 s2 r1 [] r2 [])|]. split; [by eapply rung_trans|]. split; [|split; [done|]].
  - intros Hr. destruct r1 as [|x r1].
    + destruct (A2 Hr) as (c&Hc&Hb). exists c. split; [by apply list_elem_of_further|done].
    + destruct (A1 ltac:(done)) as (c&Hc&Hb). exists c. split; [set_solver|done].
  - intros ep Hep. destruct (M2 ep Hep) as [H|H]; [|right; by apply list_elem_of_further].
    destruct (M1 ep H) as [?|?]; [by left|right; set_solver].
Qed.

(** ** One attempt *)

Definition bridge_end (l : legs) (o : attempt) (r : bridged) (fin : list act) : Prop :=
  match r with
  | BDone => fin = [Answer true]
  | BFailed => (exists a, fin = [a] /\ is_final a = true) \/ (fin = [] /\ gone o = true) \/ (fin = [Answer false] /\ answer_ok o = false)
  | BMoved ep => fin = [] /\ DMoved ep ∈ happened o /\ calleeUser l <> ""
  | BTrunkDead => fin = [] /\ calleeTrunk l = true
  | BStuck => False
  end.

Definition started (r : bridged) : list act := match r with BDone => [Started] | _ => [] end.

Lemma ending s s1 s2 rp l : goes s s1 [] [] -> rang s1 = rang s -> goes s1 s2 rp [] -> rung s1 s2 rp ->
  goes s (mkTrace (out s2 ++ l) (rang s2)) (rp ++ heard l) (told l) /\ rung s (mkTrace (out s2 ++ l) (rang s2)) rp.
Proof.
  intros G1 E1 G2 R2. split.
  - pose proof (goes_trans _ _ _ _ _ _ _ G1 G2) as [H1 H2]. split; cbn.
    + by rewrite heard_app, H1, <- app_assoc.
    + fold (told (out s2 ++ l)). by rewrite told_app, H2, app_nil_r.
  - unfold rung in *. by rewrite <- E1.
Qed.

Lemma bridge_spec srv l dst who o s : let '(s', r) := bridge srv l dst who o s in
  exists rp fin, goes s s' (rp ++ fin) (started r) /\ rung s s' rp /\ (rp <> [] -> alerted (happened o)) /\ bridge_end l o r fin.
Proof.
  unfold bridge. cbv zeta. destruct (dialog_ok o); cbn [negb].
  2: { unfold mbind, M_bind, emit. exists [], [Respond 500]. split; [split; cbn; [apply heard_app|by rewrite told_app]|].
       split; [by left|]. split; [done|]. left. eauto. }
  destruct (calleeInvite _ _ _ _ _ _ _) as [w0|].
  2: { unfold mbind, M_bind, emit. exists [], [Respond 403]. cbn. split; [split; cbn; [by rewrite !heard_app, <- app_assoc|by rewrite !told_app, <- app_assoc]|].
       split; [by left|]. split; [done|]. left. eauto. }
  set (timed := calleeTrunk l && _). unfold mbind at 1, M_bind at 1. cbn [emit].
  set (s1 := mkTrace _ _). assert (goes s s1 [] [] /\ rang s1 = rang s) as [G1 E1].
  { split; [|done]. split; cbn; [by rewrite heard_app|by rewrite told_app]. }
  pose proof (during_all_spec (bool_decide (calleeUser l <> "")) timed (happened o) no_watch s1) as Hd.
  unfold mbind at 1, M_bind at 1. destruct (during_all _ timed (happened o) no_watch s1) as [s2 w].
  destruct Hd as (rp&G2&R2&A2&[S1 S2]&M2); [by split|by intros c Hc; apply elem_of_nil in Hc|].
  assert (forall acts r, told acts = started r -> bridge_end l o r (heard acts) ->
    exists rp fin, goes s (mkTrace (out s2 ++ acts) (rang s2)) (rp ++ fin) (started r)
      /\ rung s (mkTrace (out s2 ++ acts) (rang s2)) rp /\ (rp <> [] -> alerted (happened o)) /\ bridge_end l o r fin) as Hend.
  { intros acts r Ht Hr. exists rp, (heard acts). rewrite <- Ht. destruct (ending s s1 s2 rp acts G1 E1 G2 R2) as [? ?]. done. }
  assert (forall e, gone o = false -> bridge_end l o BFailed (heard [HangupOut; CloseOut; Respond e])) as Htell by (intros e _; left; by eexists).
  assert (gone o = true -> bridge_end l o BFailed (heard [HangupOut; CloseOut])) as Hgone by (intros Hg; right; by left).
  unfold mbind, M_bind, mret, M_ret, emit, when.
  destruct (invite o) as [e|].
  - destruct (abandoned w) as [[| | | |]|] eqn:Ea; cbn [out rang].
    1, 6: destruct (gone o) eqn:Eg; cbn [negb out rang]; rewrite <- ?app_assoc; apply Hend; cbn [app]; auto.
    1, 2: destruct (gone o) eqn:Eg; cbn [negb out rang]; rewrite <- ?app_assoc; apply Hend; cbn [app]; auto.
    + destruct (moved w) as [ep|] eqn:Em; [|by destruct (S1 eq_refl)]. cbn [out rang]. rewrite <- app_assoc. apply Hend; [done|].
      split; [done|]. split; [by destruct (M2 ep Em)|]. apply (bool_decide_eq_true_1 _), S1. done.
    + rewrite <- app_assoc. apply Hend; [done|]. split; [done|]. destruct (calleeTrunk l); [done|]. by destruct (S2 eq_refl).
  - destruct (requireTrunkSRTP _ _ (secure_out o)); cbn [negb].
    2: destruct (gone o) eqn:Eg; cbn [negb out rang]; rewrite <- ?app_assoc; apply Hend; cbn [app]; auto.
    destruct (answer_ok o) eqn:Ea; cbn [negb out rang].
    2: rewrite <- !app_assoc; apply Hend; [done|]; right; by right.
    destruct (requireTrunkSRTP _ _ (secure_in o)), (ack_ok o), (start_ok o); cbn [negb out rang];
      rewrite <- ?app_assoc; apply Hend; try done; left; eexists; (split; [reflexivity|done]).
Qed.

(** ** The wake *)

Definition wakeable (srv : Server) (ep : Endpoint) : bool := bool_decide (DeviceID ep <> "") && has_waker srv.

Definition answered_the_wake (o : wake_wait) : Prop :=
  exists e, woken o = inr e /\ (w_cause e = Some CDeclined \/ w_cause e = Some CBusy).

Lemma wake_spec srv ep o s : let '(s', r) := wakeAndWaitFrom srv true ep o s in
  let dev := DeviceID ep in
  exists rp fin t, goes s s' (rp ++ fin) t /\ rung s s' rp /\ (rp <> [] -> wakeable srv ep = true /\ delivered o <> 0)
  /\ match r with
     | Some ep' => fin = [] /\ t = [Wake dev] /\ wakeable srv ep = true /\ woken o = inl ep'
     | None => ((exists a, fin = [a] /\ is_final a = true) \/ (fin = [] /\ exists e, woken o = inr e /\ w_gone e = true))
         /\ if wakeable srv ep
            then (exists why, t = [Wake dev; CancelWake dev why] /\ (why = CancelCallerHangup -> exists w, woken o = inr w /\ w_gone w = true))
                 \/ (t = [Wake dev] /\ answered_the_wake o)
            else t = []
     end.
Proof.
  unfold wakeAndWaitFrom, wakeable. rewrite bool_decide_not.
  destruct (bool_decide (DeviceID ep = "")), (has_waker srv); cbn [orb negb andb].
  1, 2, 4: unfold mbind, M_bind, emit; cbn; exists [], [Respond 480], [];
    (split; [split; cbn; [apply heard_app|by rewrite told_app]|]; split; [by left|]; split; [done|]; split; [left; eauto|done]).
  unfold mbind, M_bind, mret, M_ret. cbn [emit fst snd].
  destruct (decide (delivered o = 0)) as [Hd|Hd].
  { exists [], [Respond 480], [Wake (DeviceID ep); CancelWake (DeviceID ep) CancelTimeout]. cbn.
    split; [split; cbn; [by rewrite !heard_app, <- !app_assoc|by rewrite !told_app, <- !app_assoc]|].
    split; [by left|]. split; [done|]. split; [left; eauto|]. left. by exists CancelTimeout. }
  set (s1 := mkTrace _ _). assert (goes s s1 [] [Wake (DeviceID ep)] /\ rang s1 = rang s) as [G1 E1].
  { split; [|done]. split; cbn; [by rewrite heard_app|by rewrite told_app]. }
  cbn [when]. assert (exists s2 rp, ring s1 = (s2, tt) /\ goes s1 s2 rp [] /\ rung s1 s2 rp) as (s2&rp&->&G2&R2).
  { unfold ring. destruct (rang s1) eqn:Er; eexists _, _; (split; [reflexivity|]).
    - split; [apply goes_refl|by left].
    - split; [split; cbn; [apply heard_app|by rewrite told_app]|by right]. }
  assert (forall l, goes s (mkTrace (out s2 ++ l) (rang s2)) (rp ++ heard l) ([Wake (DeviceID ep)] ++ told l)
    /\ rung s (mkTrace (out s2 ++ l) (rang s2)) rp) as Hend.
  { intros l. split; [|unfold rung in *; by rewrite <- E1]. pose proof (goes_trans _ _ _ _ _ _ _ G1 G2) as [H1 H2]. split; cbn [out].
    - by rewrite heard_app, H1, <- app_assoc.
    - by rewrite told_app, H2, app_nil_r, <- app_assoc. }
  assert (rp <> [] -> true = true /\ delivered o <> 0) as Hrp by done.
  destruct (woken o) as [ep'|e] eqn:Ew.
  { exists rp, [], [Wake (DeviceID ep)]. destruct (Hend []) as [H1 H2]. cbn in H1. rewrite app_nil_r in H1, H2. destruct s2. done. }
  destruct (decide (w_cause e = Some CDeclined)) as [Hc|Hc].
  { exists rp, [Respond 486], [Wake (DeviceID ep)]. destruct (Hend [Respond 486]) as [H1 H2].
    split; [done|]. split; [done|]. split; [done|]. split; [left; eauto|]. right. split; [done|]. exists e. auto. }
  destruct (decide (w_cause e = Some CBusy)) as [Hb|Hb].
  { destruct (w_gone e) eqn:Eg; cbn [negb when].
    - exists rp, [], [Wake (DeviceID ep)]. destruct (Hend []) as [H1 H2]. cbn in H1. rewrite app_nil_r in H1, H2. destruct s2.
      split; [done|]. split; [done|]. split; [done|]. split; [right; eauto|]. right. split; [done|]. exists e. auto.
    - exists rp, [Respond 480], [Wake (DeviceID ep)]. destruct (Hend [Respond 480]) as [H1 H2].
      split; [done|]. split; [done|]. split; [done|]. split; [left; eauto|]. right. split; [done|]. exists e. auto. }
  cbn [negb orb]. destruct (w_over e && w_gone e) eqn:Er; cbn [emit out rang].
  - exists rp, [], [Wake (DeviceID ep); CancelWake (DeviceID ep) CancelCallerHangup].
    destruct (Hend [CancelWake (DeviceID ep) CancelCallerHangup]) as [H1 H2].
    split; [done|]. split; [done|]. split; [done|]. apply andb_true_iff in Er as [_ Er]. split; [right; eauto|]. left. exists CancelCallerHangup. eauto.
  - exists rp, [Respond 480], [Wake (DeviceID ep); CancelWake (DeviceID ep) CancelTimeout].
    destruct (Hend [CancelWake (DeviceID ep) CancelTimeout; Respond 480]) as [H1 H2]. cbn [app] in *.
    rewrite <- app_assoc. split; [done|]. split; [done|]. split; [done|]. split; [left; eauto|]. left. by exists CancelTimeout.
Qed.

(** ** The dialling *)

Section dialling.
Context (srv : Server) (parses : text -> bool) (e : env).

Definition some_alert : Prop := exists k, alerted (happened (attempts e k)).

(** The caller got no answer of ours: it is gone, or the callee kept moving to
    the last. *)
Definition missed : Prop :=
  (exists k, gone (attempts e k) = true) \/ (exists k, gone_after e k = true)
  \/ exists k ep, DMoved ep ∈ happened (attempts e k) /\ (k = maxRetargets \/ over e k = true).

(** The answer to the caller failed, and nothing of ours follows it. *)
Definition answer_failed : Prop := exists k, answer_ok (attempts e k) = false.

(** What ends the caller's part: one final; nothing, for a caller missed; or an answer
    that failed. *)
Definition one_final (fin : list act) : Prop := exists a, fin = [a] /\ is_final a = true.
Definition final_part (fin : list act) : Prop := one_final fin \/ (fin = [] /\ missed) \/ (fin = [Answer false] /\ answer_failed).

(** Only [rp] and [fin] reach the caller, and the device hears [t]. *)
Definition stretch (s s' : trace) (rp fin t : list act) : Prop :=
  goes s s' (rp ++ fin) t /\ rung s s' rp /\ (rp <> [] -> some_alert).

Lemma stretch_nil s : stretch s s [] [] [].
Proof. split; [apply goes_refl|]. split; [by left|done]. Qed.

(** A stretch without a final, then another. *)
Lemma stretch_trans s1 s2 s3 r1 r2 fin t : stretch s1 s2 r1 [] [] -> stretch s2 s3 r2 fin t -> stretch s1 s3 (r1 ++ r2) fin t.
Proof.
  intros (G1&R1&A1) (G2&R2&A2). rewrite app_nil_r in G1. split; [|split; [by eapply rung_trans|]].
  - rewrite <- app_assoc. by apply (goes_trans s1 s2 s3 r1 [] (r2 ++ fin) t).
  - destruct r1; [done|]. intros _. by apply A1.
Qed.

Lemma stretch_end s s' rp a : stretch s s' rp [] [] -> told [a] = [] -> stretch s (mkTrace (out s' ++ [a]) (rang s')) rp (heard [a]) [].
Proof.
  intros (G&R&A) Ht. rewrite app_nil_r in G. destruct G as [G1 G2]. split; [|done]. split; cbn [out].
  - by rewrite heard_app, G1, <- app_assoc.
  - by rewrite told_app, G2, Ht, app_nil_r.
Qed.

Lemma bridge_stretch l dst k s : let '(s', r) := bridge srv l dst (e_from e) (attempts e k) s in
  exists rp fin, stretch s s' rp fin (started r) /\ bridge_end l (attempts e k) r fin.
Proof.
  pose proof (bridge_spec srv l dst (e_from e) (attempts e k) s) as H. destruct (bridge _ _ _ _ _ s) as [s' r].
  destruct H as (rp&fin&G&R&A&E). exists rp, fin. split; [|done]. split; [done|]. split; [done|]. intros Hr. exists k. auto.
Qed.

(** An attempt that failed ends the caller's part. *)
Lemma failed_end l k fin : bridge_end l (attempts e k) BFailed fin -> final_part fin.
Proof. intros [H|[[H1 H2]|[H1 H2]]]; [by left|right; left|right; right]; (split; [done|]); [left; eauto|by exists k]. Qed.

Lemma dial_trunk_spec dst fuel k s : (fuel + k = 2)%nat -> (0 < fuel)%nat -> let '(s', r) := dial_trunk srv e fuel k dst s in
  r = true /\ exists rp fin t, stretch s s' rp fin t /\ final_part fin /\ (t = [] \/ t = [Started]).
Proof.
  revert k s. induction fuel as [|fuel IH]; intros k s Hk Hf; [lia|]. cbn [dial_trunk]. unfold mbind at 1, M_bind at 1.
  pose proof (bridge_stretch (mkLegs (e_caller_trunk e) true "" []) dst k s) as Hb.
  destruct (bridge _ _ _ _ _ s) as [s1 r]. destruct Hb as (rp&fin&St&En).
  destruct r as [| |ep| |]; cbn [mret M_ret started] in *.
  - split; [done|]. exists rp, fin, [Started]. split; [done|]. split; [left; rewrite En; by eexists|by right].
  - split; [done|]. exists rp, fin, []. split; [done|]. split; [by eapply failed_end|by left].
  - by destruct En as (_&_&[]).
  - destruct En as [-> _]. destruct (bool_decide (k = 0%nat) && negb (over e k)) eqn:Ek.
    + apply andb_true_iff in Ek as [Ek _]. apply bool_decide_eq_true_1 in Ek. specialize (IH (S k) s1 ltac:(lia) ltac:(lia)).
      destruct (dial_trunk _ _ fuel (S k) dst s1) as [s2 r2]. destruct IH as (->&rp2&fin2&t2&St2&En2).
      split; [done|]. exists (rp ++ rp2), fin2, t2. split; [by eapply stretch_trans|done].
    + unfold mbind, M_bind, mret, M_ret, when. destruct (gone_after e k) eqn:Eg; cbn [negb emit]; (split; [done|]).
      * exists rp, [], []. split; [done|]. split; [|by left]. right. left. split; [done|]. right. left. eauto.
      * exists rp, [Respond 480], []. split; [by apply (stretch_end s s1 rp (Respond 480))|]. split; [|by left]. left. by eexists.
  - done.
Qed.

(** The bindings a dialling that starts at [ep] may come to. *)
Definition led_to (ep ep' : Endpoint) : Prop := ep' = ep \/ exists j, DMoved ep' ∈ happened (attempts e j).

Lemma dial_app_spec fuel k ep s : (fuel + k = S maxRetargets)%nat -> let '(s', r) := dial_app srv parses e fuel k ep s in
  exists rp fin, match r with
  | OutOfFuel => fuel = 0%nat
  | BadContact => stretch s s' rp fin [] /\ one_final fin /\ exists ep', led_to ep ep' /\ parses (T (Contact ep')) = false
  | Over ep' ok => led_to ep ep' /\ if ok : bool then stretch s s' rp fin [Started] /\ fin = [Answer true] else stretch s s' rp fin [] /\ final_part fin
  end.
Proof.
  revert k ep s. induction fuel as [|fuel IH]; intros k ep s Hk; cbn [dial_app]; [by exists [], []|].
  destruct (parses (T (Contact ep))) eqn:Ep; cbn [negb].
  2: { unfold mbind, M_bind, mret, M_ret, emit. exists [], [Respond 500]. split; [by apply (stretch_end s s [] (Respond 500)); [apply stretch_nil|]|].
       split; [by eexists|]. exists ep. split; [by left|done]. }
  set (l := mkLegs _ _ _ _). unfold mbind, M_bind. pose proof (bridge_stretch l (T (Contact ep)) k s) as Hb.
  destruct (bridge _ _ _ _ _ s) as [s1 r]. destruct Hb as (rp&fin&St&En).
  destruct r as [| |ep'| |]; cbn [started] in *; unfold mret, M_ret.
  - exists rp, fin. split; [by left|done].
  - exists rp, fin. split; [by left|]. split; [done|]. by eapply failed_end.
  - destruct En as (->&Hep&_). destruct (bool_decide (k < maxRetargets)%nat && negb (over e k)) eqn:Ek.
    + apply andb_true_iff in Ek as [Ek _]. apply bool_decide_eq_true_1 in Ek. specialize (IH (S k) ep' s1 ltac:(lia)).
      assert (forall x, led_to ep' x -> led_to ep x) as Hled by (intros x [->|H]; right; eauto).
      destruct (dial_app _ _ _ fuel (S k) ep' s1) as [s2 r2]. destruct IH as (rp2&fin2&En2). exists (rp ++ rp2), fin2.
      destruct r2 as [| |ep2 ok]; [lia| |].
      * destruct En2 as (St2&H&x&Hx&Hp). split; [by eapply stretch_trans|]. eauto.
      * destruct En2 as [H1 H2]. split; [by apply Hled|]. destruct ok; destruct H2 as [H2 H3]; (split; [by eapply stretch_trans|done]).
    + exists rp, []. split; [by left|]. split; [done|]. right. left. split; [done|]. right. right. exists k, ep'. split; [done|].
      apply andb_false_iff in Ek as [Ek|Ek]; [left|right; by apply negb_false_iff].
      apply bool_decide_eq_false_1 in Ek. lia.
  - by destruct En.
  - done.
Qed.

End dialling.

(** How a call ends for the device that was woken for it, after the wake: its relay
    started and the wake is forgotten; it did not, and the wake is cancelled, as the
    caller's hang-up only if the caller hung up. *)
Definition ended (hung_up : Prop) (dev : string) (fin t : list act) : Prop :=
  (t = [Started; ForgetWake dev] /\ fin = [Answer true])
  \/ exists why, t = [CancelWake dev why] /\ (why = CancelCallerHangup -> hung_up).

(** The dialling of a local callee and what its wake is told. *)
Lemma dial_local_spec srv parses e ep wk s : let '(s', r) := dial_local srv parses e ep wk s in
  r = true /\ exists rp fin t, goes s s' (rp ++ fin) t /\ rung s s' rp /\ (rp <> [] -> some_alert e)
  /\ final_part e fin
  /\ if wk : bool then
       (exists ep', led_to e ep ep' /\ parses (T (Contact ep')) = false /\ t = [])
       \/ exists ep', led_to e ep ep' /\ ended (gone_after e 0 = true) (DeviceID ep') fin t
     else t = [] \/ t = [Started].
Proof.
  unfold dial_local. unfold mbind at 1, M_bind at 1. pose proof (dial_app_spec srv parses e (S maxRetargets) 0 ep s eq_refl) as H.
  destruct (dial_app _ _ _ _ 0 ep s) as [s1 r]. destruct H as (rp&fin&H).
  destruct r as [| |ep' ok]; [done| |].
  { split; [done|]. destruct H as ((G&R&A)&H&x&Hx&Hp). exists rp, fin, []. do 3 (split; [done|]). split; [by left|]. destruct wk; eauto. }
  destruct H as [Hep Hok]. destruct ok; destruct Hok as ((G&R&A)&Hf).
  - assert (final_part e fin) as Hfin by (left; rewrite Hf; by eexists). unfold mbind, M_bind, mret, M_ret, when. destruct wk; cbn [emit]; (split; [done|]).
    2: { exists rp, fin, [Started]. auto 10. }
    exists rp, fin, [Started; ForgetWake (DeviceID ep')]. split; [|split; [done|]; split; [done|]; split; [done|]].
    + destruct G as [G1 G2]. split; cbn [out]; [by rewrite heard_app, G1; cbn; rewrite app_nil_r|by rewrite told_app, G2, <- app_assoc].
    + right. exists ep'. split; [done|]. by left.
  - unfold mbind, M_bind, mret, M_ret, when. destruct wk; cbn [emit]; (split; [done|]).
    2: { exists rp, fin, []. auto 10. }
    eexists rp, fin, [CancelWake (DeviceID ep') _]. split; [|split; [done|]; split; [done|]; split; [done|]].
    + destruct G as [G1 G2]. split; cbn [out]; [by rewrite heard_app, G1; cbn; rewrite app_nil_r|by rewrite told_app, G2, app_nil_r].
    + right. exists ep'. split; [done|]. right. eexists. split; [done|]. by destruct (gone_after e 0).
Qed.

(** ** The two promises *)

Definition fresh : trace := mkTrace [] false.

Definition rang_rightly (e : env) : Prop := some_alert e \/ delivered (e_wait e) <> 0.
Definition nobody_told (e : env) : Prop := missed e \/ exists w, woken (e_wait e) = inr w /\ w_gone w = true.

Definition final_told (e : env) (fin : list act) : Prop :=
  one_final fin \/ (fin = [] /\ nobody_told e) \/ (fin = [Answer false] /\ answer_failed e).

Definition callee (d : Decision_) : Endpoint := default (mkEndpoint "" "" "" 0) (Endpoint_ d).

(** The callee is rung at the binding it has; otherwise its device is woken and waited
    for.  [start]: the binding the dialling begins at. *)
Definition reachable (srv : Server) (e : env) (d : Decision_) : bool := Registered_ d && (cfg_keep srv || flow_alive e).
Definition start (srv : Server) (e : env) (d : Decision_) (ep : Endpoint) : Prop :=
  if reachable srv e d then ep = callee d else woken (e_wait e) = inl ep.
Definition rung_at (srv : Server) (e : env) (d : Decision_) (ep : Endpoint) : Prop := exists ep0, start srv e d ep0 /\ led_to e ep0 ep.

(** The caller hung up while the device was waited for, or by the end of the call. *)
Definition hung_up (e : env) : Prop := gone_after e 0 = true \/ exists w, woken (e_wait e) = inr w /\ w_gone w = true.

(** What a woken device hears after its wake, the caller having heard [h]. *)
Definition device_part (srv : Server) (parses : text -> bool) (e : env) (d : Decision_) (h t : list act) : Prop :=
  (exists ep, rung_at srv e d ep /\ parses (T (Contact ep)) = false /\ t = [])
  \/ (exists ep, rung_at srv e d ep /\ t = [Started; ForgetWake (DeviceID ep)] /\ Answer true ∈ h)
  \/ (exists ep why, (rung_at srv e d ep \/ ep = callee d) /\ t = [CancelWake (DeviceID ep) why] /\ (why = CancelCallerHangup -> hung_up e))
  \/ (reachable srv e d = false /\ answered_the_wake (e_wait e) /\ t = []).

(** What one call tells the caller, then the device. *)
Definition served (srv : Server) (parses : text -> bool) (e : env) (d : Decision_) (h t : list act) : Prop :=
  (exists pre rp fin, h = pre ++ rp ++ fin /\ (pre = [] \/ pre = [Trying]) /\ (rp = [] \/ rp = [Ringing] /\ rang_rightly e) /\ final_told e fin)
  /\ if bool_decide (target d = Local) && wakeable srv (callee d)
     then exists t1, t = [Wake (DeviceID (callee d))] ++ t1 /\ device_part srv parses e d h t1
     else t = [] \/ t = [Started].

(** From the 100 on. *)
Definition trying : trace := mkTrace [Trying] false.

Lemma rung_once rp s s' : rung s s' rp -> rp = [] \/ rp = [Ringing].
Proof. intros [[-> _]|(->&_)]; auto. Qed.

Lemma heard_from_trying s rp fin t : goes trying s (rp ++ fin) t -> heard (out s) = [Trying] ++ rp ++ fin /\ told (out s) = t.
Proof. intros [H1 H2]. done. Qed.

Lemma served_caller e s rp fin t : goes trying s (rp ++ fin) t -> rung trying s rp -> (rp <> [] -> rang_rightly e) -> final_told e fin ->
  exists pre rp fin, heard (out s) = pre ++ rp ++ fin /\ (pre = [] \/ pre = [Trying]) /\ (rp = [] \/ rp = [Ringing] /\ rang_rightly e) /\ final_told e fin.
Proof.
  intros G R A F. destruct (heard_from_trying _ _ _ _ G) as [-> _]. exists [Trying], rp, fin. split; [done|]. split; [by right|]. split; [|done].
  destruct (rung_once _ _ _ R) as [-> | ->]; [by left|right]. split; [done|]. by apply A.
Qed.

(** A dialling with nobody to wake. *)
Lemma served_unwoken srv parses e d s rp fin t : bool_decide (target d = Local) && wakeable srv (callee d) = false ->
  goes trying s (rp ++ fin) t -> rung trying s rp -> (rp <> [] -> rang_rightly e) -> final_told e fin -> t = [] \/ t = [Started] ->
  served srv parses e d (heard (out s)) (told (out s)).
Proof.
  intros Hw G R A F Ht. split; [by eapply served_caller|]. rewrite Hw. by destruct (heard_from_trying _ _ _ _ G) as [_ ->].
Qed.

(** A local callee's call, from the step that may wake it. *)
Lemma served_local srv parses e d s rp fin t : target d = Local -> wakeable srv (callee d) = true ->
  goes trying s (rp ++ fin) ([Wake (DeviceID (callee d))] ++ t) -> rung trying s rp -> (rp <> [] -> rang_rightly e) -> final_told e fin ->
  device_part srv parses e d fin t ->
  served srv parses e d (heard (out s)) (told (out s)).
Proof.
  intros Ht Hw G R A F W. split; [by eapply served_caller|]. rewrite bool_decide_eq_true_2, Hw by done. cbn [andb].
  destruct (heard_from_trying _ _ _ _ G) as [-> ->]. exists t. split; [done|].
  destruct W as [W|[(ep&H1&H2&H3)|W]]; [by left|right; left|by right; right]. exists ep. set_solver.
Qed.

Lemma told_of_part e fin : final_part e fin -> final_told e fin.
Proof. intros [H|[[H1 H2]|H]]; [by left|right; left|by right; right]. split; [done|]. by left. Qed.

(** The dialling of a woken callee, seen from the whole call. *)
Lemma device_of_dialling srv parses e d ep0 fin t : start srv e d ep0 ->
  (exists ep', led_to e ep0 ep' /\ parses (T (Contact ep')) = false /\ t = [])
    \/ (exists ep', led_to e ep0 ep' /\ ended (gone_after e 0 = true) (DeviceID ep') fin t) ->
  device_part srv parses e d fin t.
Proof.
  intros Hs [(x&Hx&Hp&->)|(x&Hx&[[-> ->]|(why&->&Hw)])].
  - left. exists x. split; [by exists ep0|done].
  - right. left. exists x. split; [by exists ep0|]. split; [done|apply list_elem_of_here].
  - right. right. left. exists x, why. split; [left; by exists ep0|]. split; [done|]. intros H. left. by apply Hw.
Qed.

Lemma serveDialog_spec srv parses e d : let '(s', r) := serveDialog srv parses e d fresh in
  r = true /\ served srv parses e d (heard (out s')) (told (out s')).
Proof.
  unfold serveDialog. destruct (target d) eqn:Et.
  - (* local *) unfold mbind at 1, M_bind at 1. cbn [emit]. change (mkTrace (out fresh ++ [Trying]) (rang fresh)) with trying.
    fold (callee d). set (ep := callee d). fold (wakeable srv ep). set (stale := Registered_ d && _ && _).
    assert (exists s1, (when stale (emit (Call.Unregister (User ep)))) trying = (s1, tt) /\ goes trying s1 [] [] /\ rang s1 = false) as (s1&E1&G1&R1).
    { destruct stale; eexists; (split; [reflexivity|]); (split; [|done]); by split. }
    assert (Registered_ d && negb stale = reachable srv e d) as Er0 by (unfold stale, reachable; by destruct (Registered_ d), (cfg_keep srv), (flow_alive e)).
    unfold mbind at 1, M_bind at 1. rewrite E1, Er0. destruct (reachable srv e d) eqn:Er; cbn [negb].
    + assert (start srv e d ep) as Hst by (unfold start; by rewrite Er). destruct (wakeable srv ep) eqn:Ew; cbn [when].
      * unfold mbind at 1, M_bind at 1. cbn [emit].
        set (s2 := mkTrace _ _). assert (goes trying s2 [] [Wake (DeviceID ep)]) as G2.
        { apply (goes_trans trying s1 s2 [] [] [] [Wake (DeviceID ep)] G1). split; cbn; [by rewrite heard_app|by rewrite told_app]. }
        pose proof (dial_local_spec srv parses e ep true s2) as H. destruct (dial_local _ _ _ ep true s2) as [s3 r].
        destruct H as (->&rp&fin&t&G3&R3&A&F&W). split; [done|].
        apply (served_local _ _ _ _ s3 rp fin t Et Ew); [by apply (goes_trans trying s2 s3 [] [Wake (DeviceID ep)] (rp ++ fin) t)| | |by apply told_of_part|by eapply device_of_dialling].
        { by apply (rung_from trying _ _ _ R1). }
        { intros Hr. left. auto. }
      * unfold mbind at 1, M_bind at 1. cbn [mret M_ret].
        pose proof (dial_local_spec srv parses e ep false s1) as H. destruct (dial_local _ _ _ ep false s1) as [s3 r].
        destruct H as (->&rp&fin&t&G3&R3&A&F&W). split; [done|].
        apply (served_unwoken _ _ _ _ s3 rp fin t); [fold ep; rewrite Ew; apply andb_false_r|by apply (goes_trans trying s1 s3 [] [] (rp ++ fin) t)| | |by apply told_of_part|done].
        { by apply (rung_from trying _ _ _ R1). }
        { intros Hr. left. auto. }
    + unfold mbind at 1, M_bind at 1. pose proof (wake_spec srv ep (e_wait e) s1) as H.
      destruct (wakeAndWaitFrom srv true ep (e_wait e) s1) as [s2 r]. destruct H as (rp&fin&t&G2&R2&A2&H).
      assert (goes trying s2 (rp ++ fin) t) as G02 by exact (goes_trans trying s1 s2 [] [] (rp ++ fin) t G1 G2).
      assert (rung trying s2 rp) as R02 by (by apply (rung_from trying _ _ _ R1)).
      assert (rp <> [] -> rang_rightly e) as A02 by (intros Hr; right; by apply A2).
      destruct r as [ep'|].
      * destruct H as (->&->&Hw&Hwk). rewrite Hw. pose proof (dial_local_spec srv parses e ep' true s2) as H.
        destruct (dial_local _ _ _ ep' true s2) as [s3 r]. destruct H as (->&rp3&fin&t&G3&R3&A&F&W). split; [done|].
        rewrite app_nil_r in G02.
        apply (served_local _ _ _ _ s3 (rp ++ rp3) fin t Et Hw); [|by eapply rung_trans| |by apply told_of_part|].
        { rewrite <- app_assoc. by apply (goes_trans trying s2 s3 rp [Wake (DeviceID ep)] (rp3 ++ fin) t). }
        { intros Hr. destruct rp; [left; apply A; done|by apply A02]. }
        { eapply device_of_dialling; [|exact W]. unfold start. by rewrite Er. }
      * destruct H as [F H]. cbn [mret M_ret]. split; [done|].
        assert (final_told e fin) as F02.
        { destruct F as [F|(F&w&Hw&Hg)]; [by left|right; left]. split; [done|]. right. eauto. }
        destruct (wakeable srv ep) eqn:Ew.
        -- destruct H as [(why&->&Hy)|[-> H2]].
           ++ apply (served_local _ _ _ _ s2 rp fin [CancelWake (DeviceID ep) why] Et Ew); try done. right. right. left. exists ep, why.
              split; [by right|]. split; [done|]. intros Hc. right. by apply Hy.
           ++ apply (served_local _ _ _ _ s2 rp fin [] Et Ew); try done. right. right. by right.
        -- subst t. apply (served_unwoken _ _ _ _ s2 rp fin []); try done; [|by left]. fold ep. rewrite Ew. apply andb_false_r.
  - (* trunk *) unfold mbind at 1, M_bind at 1. cbn [emit]. change (mkTrace (out fresh ++ [Trying]) (rang fresh)) with trying.
    assert (bool_decide (target d = Local) && wakeable srv (callee d) = false) as Hw by (rewrite bool_decide_eq_false_2; [done|by rewrite Et]).
    assert (forall c, served srv parses e d (heard [Trying; Respond c]) (told [Trying; Respond c])) as Hend.
    { intros c. apply (served_unwoken _ _ _ _ (mkTrace [Trying; Respond c] false) [] [Respond c] [] Hw); try done; [by left| |by left]. left. by eexists. }
    destruct (cfg_trunk srv) as [t|]; [|by split; [|apply Hend]].
    destruct (parses _); cbn [negb]; [|by split; [|apply Hend]].
    pose proof (dial_trunk_spec srv e (URI t (User_ d)) 2 0 trying eq_refl ltac:(lia)) as H.
    destruct (dial_trunk _ _ 2 0 _ trying) as [s' r]. destruct H as (->&rp&fin&t1&(G&R&A)&F&Ht). split; [done|].
    apply (served_unwoken _ _ _ _ s' rp fin t1 Hw G R); [intros Hr; left; auto|by apply told_of_part|done].
  - cbn. split; [done|]. apply (served_unwoken _ _ _ _ (mkTrace [Trying; Answer (answer_ok (attempts e 0))] false) [] [Answer (answer_ok (attempts e 0))] []); try done.
    + rewrite bool_decide_eq_false_2; [done|by rewrite Et]. + by left.
    + destruct (answer_ok (attempts e 0)) eqn:Ea; [left; by eexists|right; right]. split; [done|]. by exists 0%nat.
    + by left.
  - cbn. split; [done|]. split; [|rewrite bool_decide_eq_false_2; [by left|by rewrite Et]].
    exists [], [], [Respond 404]. split; [done|]. split; [by left|]. split; [by left|]. left. by eexists.
Qed.

(** C7: Whatever the stack, the callee and the gateway do, a call hears at most
    one 100, then at most one 180, then exactly one final answer, in that order:
    nothing after the final, and a 180 only if the callee's route answered 18x
    or a wake reached a device. The calls left without a final of ours are those whose
    caller is gone, whose callee moved once too often or moved as the ring time ran out,
    and those whose own answering failed, after which nothing is sent. The redials
    always end. *)
Theorem caller_hears_one_answer (srv : Server) (parses : text -> bool) (e : env) (d : Decision_) :
  let '(s', finished) := serveDialog srv parses e d fresh in
  finished = true /\ exists pre rp fin, heard (out s') = pre ++ rp ++ fin /\ (pre = [] \/ pre = [Trying])
    /\ (rp = [] \/ rp = [Ringing] /\ rang_rightly e) /\ final_told e fin.
Proof.
  pose proof (serveDialog_spec srv parses e d) as H. destruct (serveDialog _ _ _ _ fresh) as [s' r].
  destruct H as [H1 [H2 _]]. done.
Qed.


(** ** Findings *)

(** A transfer that wakes its target has no caller leg, and a ring time that runs
    out is then reported to the device as the caller hanging up. *)
Lemma transfer_wake_timeout_is_told_as_hangup srv ep o w : wakeable srv ep = true -> delivered o <> 0 ->
  woken o = inr w -> w_cause w = None -> w_over w = true -> w_gone w = false ->
  told (out (fst (wakeAndWaitFrom srv false ep o fresh))) = [Wake (DeviceID ep); CancelWake (DeviceID ep) CancelCallerHangup].
Proof.
  intros Hw Hd Ho Hc Hov Hg. unfold wakeable in Hw. apply andb_true_iff in Hw as [H1 H2]. apply bool_decide_eq_true_1 in H1.
  unfold wakeAndWaitFrom. rewrite bool_decide_eq_false_2 by done. rewrite H2. cbn [orb negb]. unfold mbind, M_bind, mret, M_ret.
  cbn [emit]. rewrite decide_False by done. cbn [when fst snd mret M_ret]. rewrite Ho, Hc, !decide_False by done.
  rewrite Hov. done.
Qed.

(** ** Witnesses *)

Module Demo.
Definition srv : Server := mkServer None TrunkSRTPOff false None [] [] (T "sip.example") true.
Definition bob : Endpoint := mkEndpoint "bob" "phone1" "" 0.
Definition here : Endpoint := mkEndpoint "bob" "phone1" "sip:bob@10.0.0.1:4000;transport=tls" 900.
Definition there : Endpoint := mkEndpoint "bob" "phone1" "sip:bob@10.0.0.2:4000;transport=tls" 950.
Definition moves : attempt := mkAttempt true [DResponse 100; DMoved there] (Some EOther) true true true true true false false.
Definition answers : attempt := mkAttempt true [DResponse 180; DResponse 200] None true true true true true false false.
(** Woken, found, moved while ringing, answered there. *)
Definition call_env : env := mkEnv false (T "alice") true (mkWakeWait 1 (inl here)) (fun k => if decide (k = 0%nat) then moves else answers)
  (fun _ => false) (fun _ => false).
Definition to_bob : Decision_ := mkDecision Local (T "bob") (Some bob) false.

Example woken_then_moved :
  map (fun a => match a with Invite r _ _ => Respond (Z.of_nat (length r)) | _ => a end)
    (out (fst (serveDialog srv (fun _ => true) call_env to_bob fresh)))
  = [Trying; Wake "phone1"; Ringing; Respond 35; HangupOut; CloseOut; Respond 35; Answer true; AckOut; Started; Ended "bye"; CloseOut; ForgetWake "phone1"].
Proof. vm_compute. reflexivity. Qed.
End Demo.

