(* ===== verification/Admin.v ===== *)
(** The admin API's front door (src/server/internal/admin/decode.go, ifmatch.go,
    chain.go, snapshot.go, errors.go): the bearer guard, the strict JSON reading,
    the grammars of identifiers and free text, the preconditions and the cached
    status view.

    - An answer is its status, error code and field; messages are left out.
    - Arguments: what [json.Decoder] makes of a body (its tokens and how they
      end, and the typed decode), [mime.ParseMediaType], [time.Parse], the clock. *)

From S2P Require Import Prelude Text.
Open Scope Z_scope.

(** ** Answers *)

Record answer := mkAnswer { a_status : Z; a_code : string; a_field : string }.

#[export] Instance answer_eq_dec : EqDecision answer.
Proof. solve_decision. Defined.

Definition done_with (status : Z) : answer := mkAnswer status "" "".
Definition WriteError (status : Z) (code : string) : answer := mkAnswer status code "".
Definition WriteFieldError (status : Z) (code field : string) : answer := mkAnswer status code field.
Definition NotFound : answer := WriteError 404 "not_found".
Definition StoreError : answer := WriteError 500 "store".
Definition PreconditionFailed : answer := WriteError 412 "version_mismatch".

(** ** The guard *)

Definition BearerMatches (h want : text) : bool :=
  if has_prefix_t (T "Bearer ") h then bool_decide (TrimPrefix h (T "Bearer ") = want) else false.

(** [None]: the request goes on. *)
Definition Bearer (token h : text) : option answer :=
  if decide (token = []) then Some (WriteError 401 "unauthorized")
  else if negb (BearerMatches h token) then Some (WriteError 401 "unauthorized") else None.

(** ** Runes *)

Definition RuneError : Z := 65533.

Definition byte_z (c : Ascii.ascii) : Z := Z.of_N (Ascii.N_of_ascii c).

Definition is_cont (b : Z) : bool := (128 <=? b) && (b <=? 191).

(** The rune at the head of the bytes and its width: [RuneError] and 1 when
    they are not the shortest encoding of a Unicode scalar value. *)
Definition DecodeRune (s : list Z) : Z * nat :=
  match s with
  | [] => (RuneError, 0%nat)
  | b0 :: s =>
      if b0 <? 128 then (b0, 1%nat) else
      match s with
      | b1 :: s1 =>
          if (194 <=? b0) && (b0 <=? 223) && is_cont b1 then ((b0 - 192) * 64 + (b1 - 128), 2%nat) else
          match s1 with
          | b2 :: s2 =>
              let r := (b0 - 224) * 4096 + (b1 - 128) * 64 + (b2 - 128) in
              if (224 <=? b0) && (b0 <=? 239) && is_cont b1 && is_cont b2 && (2048 <=? r) && negb ((55296 <=? r) && (r <=? 57343))
              then (r, 3%nat) else
              match s2 with
              | b3 :: _ =>
                  let r := (b0 - 240) * 262144 + (b1 - 128) * 4096 + (b2 - 128) * 64 + (b3 - 128) in
                  if (240 <=? b0) && (b0 <=? 244) && is_cont b1 && is_cont b2 && is_cont b3 && (65536 <=? r) && (r <=? 1114111)
                  then (r, 4%nat) else (RuneError, 1%nat)
              | [] => (RuneError, 1%nat)
              end
          | [] => (RuneError, 1%nat)
          end
      | [] => (RuneError, 1%nat)
      end
  end.

(** The runes a loop over a string visits; the fuel is the bytes left. *)
Fixpoint runes_fuel (fuel : nat) (s : list Z) : list (Z * nat) :=
  match fuel, s with
  | S fuel, _ :: _ => let '(r, w) := DecodeRune s in (r, w) :: runes_fuel fuel (drop w s)
  | _, _ => []
  end.

Definition runes (s : text) : list (Z * nat) := runes_fuel (length s) (map byte_z s).

Definition Valid (s : text) : bool := forallb (fun rw => negb ((fst rw =? RuneError) && (snd rw =? 1)%nat)) (runes s).

Definition IsControl (r : Z) : bool := (r <=? 31) || ((127 <=? r) && (r <=? 159)).

Definition Clean (s : string) (max : Z) : bool :=
  (Z.of_nat (String.length s) <=? max) && forallb (fun rw => negb (IsControl (fst rw) || (fst rw =? RuneError))) (runes (T s)).

(** ** Identifiers *)

Definition alnum (c : Ascii.ascii) : bool :=
  let n := byte_z c in ((48 <=? n) && (n <=? 57)) || ((65 <=? n) && (n <=? 90)) || ((97 <=? n) && (n <=? 122)).

Definition one_of (set : string) (c : Ascii.ascii) : bool := bool_decide (c ∈ T set).

(** One to [n] characters of a class. *)
Definition matches (n : nat) (class : Ascii.ascii -> bool) (s : text) : bool :=
  (1 <=? length s)%nat && (length s <=? n)%nat && forallb class s.

Definition DeviceIDRe (s : string) : bool :=
  match T s with
  | c :: s => alnum c && (length s <=? 63)%nat && forallb (fun c => alnum c || one_of "_-" c) s
  | [] => false
  end.
Definition UserRe (s : string) : bool := matches 64 (fun c => alnum c || one_of "._+-" c) (T s).
Definition CallIDRe (s : string) : bool := matches 128 (fun c => alnum c || one_of "._@-" c) (T s).
Definition DiagNameRe (s : string) : bool := matches 160 (fun c => alnum c || one_of "._-" c) (T s).
Definition ContactIDRe (s : string) : bool :=
  has_prefix_t (T "ct_") (T s)
  && matches 64 (fun c => let n := byte_z c in ((48 <=? n) && (n <=? 57)) || ((97 <=? n) && (n <=? 102))) (TrimPrefix (T s) (T "ct_")).

Definition ValidDiagName (s : string) : bool :=
  DiagNameRe s && bool_decide (s <> ".") && bool_decide (s <> "..").

(** ** Preconditions *)

Definition quote : Ascii.ascii := Ascii.ascii_of_N 34.

Fixpoint trim_quotes (s : text) : text :=
  match s with c :: s' => if decide (c = quote) then trim_quotes s' else s | [] => [] end.

Definition IfMatch (header : text) : option text :=
  let v := TrimSpace header in
  if decide (v = [] \/ v = T "*") then None
  else Some (rev (trim_quotes (rev (trim_quotes (TrimPrefix v (T "W/")))))).

Definition if_match_fault : answer := WriteFieldError 400 "invalid" "If-Match".

(** The refusal, or the value when one was sent. *)
Definition IfMatchTime (parse : text -> option Z) (header : text) : answer + option Z :=
  match IfMatch header with
  | None => inr None
  | Some v => match parse v with None => inl if_match_fault | Some t => inr (Some t) end
  end.

Definition IfMatchInt (header : text) : answer + option Z :=
  match IfMatch header with
  | None => inr None
  | Some v => match Atoi v with
              | Some n => if n <? 0 then inl if_match_fault else inr (Some n)
              | None => inl if_match_fault
              end
  end.

(** ** The token walk *)

Inductive token := TOpenObj | TCloseObj | TOpenArr | TCloseArr | TString (s : string) | TScalar.

Inductive json_error := SyntaxError | TypeError (field : string) | UnexpectedEOF | OtherError (msg : text).

#[export] Instance token_eq_dec : EqDecision token.
Proof. solve_decision. Defined.

Record frame := mkFrame { object : bool; keys : gset string; key : string; index : Z; expect : bool }.

(** A fault is its code and its field. *)
Definition fault : Type := string * string.

Definition trim_cut (s : text) : text := rev (trim_quotes (rev (trim_quotes s))).

Definition unknown_prefix : text := T "json: unknown field ".

Definition classify (e : json_error) : fault :=
  match e with
  | SyntaxError | UnexpectedEOF => ("bad_json", "")
  | TypeError field => ("invalid", field)
  | OtherError msg =>
      if has_prefix_t unknown_prefix msg then ("unknown_field", to_string (trim_cut (TrimPrefix msg unknown_prefix)))
      else ("bad_json", "")
  end.

(** The stack is top first; [path] goes up from its bottom. *)
Definition path_step (b : text) (f : frame) : text :=
  if object f then (if decide (b = []) then b else b ++ T ".") ++ T (key f) else b ++ T "[" ++ Itoa (index f - 1) ++ T "]".

Definition path (stack : list frame) : string := to_string (foldl path_step [] (rev stack)).

Inductive walked := Fault (f : fault) | Walking (stack : list frame) | Panics.

Definition bump (f : frame) : frame :=
  if object f then f else mkFrame (object f) (keys f) (key f) (index f + 1) (expect f).
Definition expecting (f : frame) : frame :=
  if object f then mkFrame (object f) (keys f) (key f) (index f) true else f.

Definition on_top (g : frame -> frame) (stack : list frame) : list frame :=
  match stack with f :: st => g f :: st | [] => [] end.

Definition walk_token (tok : token) (first : bool) (stack : list frame) : walked :=
  if first && bool_decide (tok <> TOpenObj) then Fault ("bad_json", "") else
  if negb first && match stack with [] => true | _ => false end then Fault ("bad_json", "") else
  match tok with
  | TOpenObj => Walking (mkFrame true ∅ "" 0 true :: on_top bump stack)
  | TOpenArr => Walking (mkFrame false ∅ "" 0 false :: on_top bump stack)
  | TCloseObj | TCloseArr => match stack with [] => Panics | _ :: st => Walking (on_top expecting st) end
  | TString _ | TScalar =>
      match stack with
      | [] => Walking []
      | f :: st =>
          if object f then
            if expect f then
              let k := match tok with TString s => s | _ => "" end in
              let f' := mkFrame true (keys f) k (index f) (expect f) in
              if decide (k ∈ keys f) then Fault ("bad_json", path (f' :: st))
              else Walking (mkFrame true ({[ k ]} ∪ keys f) k (index f) false :: st)
            else Walking (expecting f :: st)
          else Walking (bump f :: st)
      end
  end.

(** What the walk answers: nothing, a fault, or a panic. *)
Inductive verdict := Passes | Faulty (f : fault) | WalkPanics.

(** [stop]: the error after the last token, [None] for [io.EOF]. *)
Fixpoint walk (toks : list token) (stop : option json_error) (first : bool) (stack : list frame) : verdict :=
  match toks with
  | [] => match stop with
          | None => if first then Faulty ("bad_json", "") else Passes
          | Some e => Faulty (classify e)
          end
  | tok :: toks =>
      match walk_token tok first stack with
      | Fault f => Faulty f
      | Panics => WalkPanics
      | Walking stack => walk toks stop false stack
      end
  end.

(** ** Decode *)

Record Body := mkBody {
  content_type : text;
  bytes : text;
  read_error : bool;                    (* the connection failed before the limit *)
  tokens_of : list token * option json_error;
  typed : option json_error;            (* of the decode into the struct *)
}.

Definition decodeStrict (b : Body) : verdict :=
  if decide (TrimSpace (bytes b) = []) then Faulty ("bad_json", "") else
  if negb (Valid (bytes b)) then Faulty ("bad_json", "") else
  match walk (fst (tokens_of b)) (snd (tokens_of b)) true [] with
  | Passes => match typed b with Some e => Faulty (classify e) | None => Passes end
  | v => v
  end.

(** [None]: decoded. [media]: the media type of a Content-Type. *)
Definition Decode (media : text -> option text) (limit : Z) (b : Body) : option answer :=
  if negb (bool_decide (content_type b = [])) && negb (bool_decide (media (content_type b) = Some (T "application/json")))
  then Some (WriteError 415 "unsupported_media_type") else
  if limit <? zlen (bytes b) then Some (WriteError 413 "too_large") else
  if read_error b then Some (WriteError 400 "bad_json") else
  match decodeStrict b with
  | Faulty (code, field) => Some (WriteFieldError 400 code field)
  | _ => None
  end.

(** ** The snapshot *)

Definition SnapshotTTL : Z := ns_second.

Record Snapshot (A : Type) := mkSnapshot { at_ : Z; value : option A }.
Arguments mkSnapshot {A}.
Arguments at_ {A}.
Arguments value {A}.

(** The value served, and whether it was built for this call. [value] is
    [None] while the snapshot is not valid. *)
Definition Get {A} (fn : A) (now : Z) (s : Snapshot A) : Snapshot A * A * bool :=
  match value s with
  | Some v => if SnapshotTTL <=? time_sub now (at_ s) then (mkSnapshot now (Some fn), fn, true) else (s, v, false)
  | None => (mkSnapshot now (Some fn), fn, true)
  end.

(** ** What the walk finds *)

Inductive json := JScalar | JString (s : string) | JArray (l : list json) | JObject (l : list (string * json)).

Fixpoint tokens (v : json) : list token :=
  match v with
  | JScalar => [TScalar]
  | JString s => [TString s]
  | JArray l => TOpenArr :: concat (map tokens l) ++ [TCloseArr]
  | JObject l => TOpenObj :: concat (map (fun kv => TString (fst kv) :: tokens (snd kv)) l) ++ [TCloseObj]
  end.

(** A place in a value: a key of an object or an index of an array. *)
Inductive comp := CKey (k : string) | CIndex (i : Z).

Definition dups_in (dup : json -> option (list comp)) : list (string * json) -> gset string -> option (list comp) :=
  fix go l seen := match l with
    | [] => None
    | (k, v) :: l => if decide (k ∈ seen) then Some [CKey k] else
                     match dup v with Some p => Some (CKey k :: p) | None => go l ({[ k ]} ∪ seen) end
    end.

Definition dups_at (dup : json -> option (list comp)) : list json -> Z -> option (list comp) :=
  fix go l i := match l with
    | [] => None
    | v :: l => match dup v with Some p => Some (CIndex i :: p) | None => go l (i + 1) end
    end.

(** Where the first repeated key of a value is, in the order of its text. *)
Fixpoint first_dup (v : json) : option (list comp) :=
  match v with
  | JScalar | JString _ => None
  | JArray l => dups_at first_dup l 0
  | JObject l => dups_in first_dup l ∅
  end.

(** No object in it has a key twice. *)
Inductive unique_keys : json -> Prop :=
  | unique_scalar : unique_keys JScalar
  | unique_string s : unique_keys (JString s)
  | unique_array l : Forall unique_keys l -> unique_keys (JArray l)
  | unique_object l : NoDup l.*1 -> Forall unique_keys l.*2 -> unique_keys (JObject l).

Definition show_step (b : text) (c : comp) : text :=
  match c with
  | CKey k => (if decide (b = []) then b else b ++ T ".") ++ T k
  | CIndex i => b ++ T "[" ++ Itoa i ++ T "]"
  end.

Definition show (p : list comp) : string := to_string (foldl show_step [] p).

Lemma json_ind_nested (P : json -> Prop) :
  P JScalar -> (forall s, P (JString s)) -> (forall l, Forall P l -> P (JArray l)) -> (forall l, Forall P l.*2 -> P (JObject l)) ->
  forall v, P v.
Proof.
  intros Hs Ht Ha Ho. fix IH 1. intros [|s|l|l]; [done|done| |].
  - apply Ha. induction l as [|v l IHl]; constructor; [apply IH|exact IHl].
  - apply Ho. induction l as [|[k v] l IHl]; cbn; constructor; [apply IH|exact IHl].
Qed.

Definition comp_of (f : frame) : comp := if object f then CKey (key f) else CIndex (index f - 1).

Lemma path_comps st : path st = show (map comp_of (rev st)).
Proof.
  unfold path, show. f_equal. generalize ([] : text). induction (rev st) as [|f l IH]; intros b; cbn; [done|].
  rewrite IH. f_equal. unfold path_step, comp_of. by destruct (object f).
Qed.

(** A frame ready for a value, the frame while the value is open, and after it. *)
Definition ready (f : frame) : Prop := object f = true -> expect f = false.
Definition after_value (f : frame) : frame := expecting (bump f).

Lemma bump_ready f : ready f -> ready (bump f).
Proof. unfold ready, bump. by destruct (object f) eqn:E; cbn; rewrite ?E. Qed.

(** Where a fault inside the next value is told to be. *)
Definition fault_at (st : list frame) (p : list comp) : verdict := Faulty ("bad_json", show (map comp_of (rev (on_top bump st)) ++ p)).

(** The walk of a value leaves its frame as after a value, or stops at the
    first repeated key. *)
Definition walks (v : json) : Prop := forall f st rest stop, ready f ->
  walk (tokens v ++ rest) stop false (f :: st) =
  match first_dup v with None => walk rest stop false (after_value f :: st) | Some p => fault_at (f :: st) p end.

Lemma walk_open_obj f st rest stop : walk (TOpenObj :: rest) stop false (f :: st) = walk rest stop false (mkFrame true ∅ "" 0 true :: bump f :: st).
Proof. done. Qed.
Lemma walk_open_arr f st rest stop : walk (TOpenArr :: rest) stop false (f :: st) = walk rest stop false (mkFrame false ∅ "" 0 false :: bump f :: st).
Proof. done. Qed.

Lemma walks_array l : Forall walks l -> forall i f st rest stop,
  walk (concat (map tokens l) ++ TCloseArr :: rest) stop false (mkFrame false ∅ "" i false :: f :: st) =
  match dups_at first_dup l i with
  | None => walk rest stop false (expecting f :: st)
  | Some p => Faulty ("bad_json", show (map comp_of (rev (f :: st)) ++ p))
  end.
Proof.
  induction 1 as [|v l Hv _ IH]; intros i f st rest stop; [done|]. cbn [concat map dups_at]. rewrite <- app_assoc, Hv by done.
  destruct (first_dup v) as [p|].
  - unfold fault_at. cbn [on_top]. replace (rev (_ :: f :: st)) with (rev (f :: st) ++ [bump (mkFrame false ∅ "" i false)]) by done.
    rewrite map_app, <- app_assoc. cbn. by rewrite Z.add_simpl_r.
  - unfold after_value, bump, expecting. cbn [object keys key index expect]. apply IH.
Qed.

Lemma walk_key k ks o i st rest stop :
  walk (TString k :: rest) stop false (mkFrame true ks o i true :: st) =
  if decide (k ∈ ks) then Faulty ("bad_json", show (map comp_of (rev st) ++ [CKey k]))
  else walk rest stop false (mkFrame true ({[ k ]} ∪ ks) k i false :: st).
Proof.
  transitivity (if decide (k ∈ ks) then Faulty ("bad_json", path (mkFrame true ks k i true :: st))
                else walk rest stop false (mkFrame true ({[ k ]} ∪ ks) k i false :: st)); [cbn; by destruct (decide _)|].
  destruct (decide (k ∈ ks)); [|done]. rewrite path_comps. cbn [rev]. by rewrite map_app.
Qed.

Lemma walks_object l : Forall walks l.*2 -> forall ks o i f st rest stop,
  walk (concat (map (fun kv => TString (fst kv) :: tokens (snd kv)) l) ++ TCloseObj :: rest) stop false
       (mkFrame true ks o i true :: f :: st) =
  match dups_in first_dup l ks with
  | None => walk rest stop false (expecting f :: st)
  | Some p => Faulty ("bad_json", show (map comp_of (rev (f :: st)) ++ p))
  end.
Proof.
  induction l as [|[k v] l IH]; intros Hl ks o i f st rest stop; [done|]. apply Forall_cons in Hl as [Hv Hl].
  cbn [concat map fst snd dups_in app]. rewrite walk_key. destruct (decide (k ∈ ks)); [done|].
  rewrite <- app_assoc. cbn in Hv. rewrite Hv by done. destruct (first_dup v) as [p|].
  - unfold fault_at. cbn [on_top]. replace (rev (_ :: f :: st)) with (rev (f :: st) ++ [bump (mkFrame true ({[k]} ∪ ks) k i false)]) by done.
    by rewrite map_app, <- app_assoc.
  - unfold after_value, bump, expecting. cbn [object keys key index expect]. by apply IH.
Qed.

Lemma after_bump f : ready f -> after_value f = expecting (bump f).
Proof. done. Qed.

Lemma walks_all v : walks v.
Proof.
  induction v as [|s|l IH|l IH] using json_ind_nested; intros f st rest stop Hf.
  - destruct f as [[] ks k i e]; cbn; [|done]. unfold ready in Hf. cbn in Hf. by rewrite (Hf eq_refl).
  - destruct f as [[] ks k i e]; cbn; [|done]. unfold ready in Hf. cbn in Hf. by rewrite (Hf eq_refl).
  - cbn [tokens app first_dup]. rewrite walk_open_arr, <- app_assoc. cbn [app]. by rewrite walks_array.
  - cbn [tokens app first_dup]. rewrite walk_open_obj, <- app_assoc. cbn [app]. by rewrite walks_object.
Qed.

(** The same at the bottom of the stack. *)
Lemma walks_members l : forall ks o i rest stop,
  walk (concat (map (fun kv => TString (fst kv) :: tokens (snd kv)) l) ++ TCloseObj :: rest) stop false [mkFrame true ks o i true] =
  match dups_in first_dup l ks with None => walk rest stop false [] | Some p => Faulty ("bad_json", show p) end.
Proof.
  induction l as [|[k v] l IH]; intros ks o i rest stop; [done|]. cbn [concat map fst snd dups_in app].
  rewrite walk_key.
  destruct (decide (k ∈ ks)); [done|]. rewrite <- app_assoc, walks_all by done. destruct (first_dup v) as [p|]; [done|].
  unfold after_value, bump, expecting. cbn [object keys key index expect]. apply IH.
Qed.

Lemma first_dup_unique v : first_dup v = None <-> unique_keys v.
Proof.
  induction v as [|s|l IH|l IH] using json_ind_nested; [split; [constructor|done]..| |]; cbn.
  - transitivity (Forall unique_keys l); [|split; [by constructor|by inversion 1]]. generalize 0.
    induction IH as [|v l Hv _ IHl]; intros i; cbn; [split; [intros _; by constructor|done]|].
    rewrite Forall_cons, <- Hv, <- (IHl (i + 1)). destruct (first_dup v); naive_solver.
  - transitivity (NoDup l.*1 /\ (forall k, k ∈ l.*1 -> k ∉ (∅ : gset string)) /\ Forall unique_keys l.*2);
      [|split; [intros (?&_&?); by constructor|inversion 1; set_solver]].
    generalize (∅ : gset string). induction l as [|[k v] l IHl]; intros seen; cbn.
    { split; [|done]. intros _. split; [constructor|]. split; [set_solver|by constructor]. }
    apply Forall_cons in IH as [Hv Hl]. cbn in Hv. rewrite NoDup_cons, Forall_cons, <- Hv.
    destruct (decide (k ∈ seen)) as [Hk|Hk]; [split; [done|set_solver]|].
    destruct (first_dup v) as [p|]; [naive_solver|]. rewrite (IHl Hl). split.
    + intros (H1&H2&H3). split; [|split; [set_solver|done]]. split; [|done]. intros Hi. apply (H2 k Hi). set_solver.
    + intros ([H0 H1]&H2&_&H3). split; [done|]. split; [|done]. intros k' Hi [->%elem_of_singleton|?]%elem_of_union; [done|].
      by apply (H2 k'); [right|].
Qed.

Lemma walk_safe toks stop : forall st, walk toks stop false st <> WalkPanics.
Proof.
  induction toks as [|tok toks IH]; intros st; cbn [walk]; [by destruct stop|].
  destruct (walk_token tok false st) as [f|st'|] eqn:E; [done|by apply IH|]. destruct st as [|f st]; [done|].
  destruct tok; cbn in E; try done; destruct (object f), (expect f); try done; by destruct (decide _).
Qed.

(** The token walk of a request body, over any value [v] and whatever comes
    after it, passes exactly a single object in which no object, at any depth,
    has a key twice; a repeated key is refused as [bad_json], naming the path of
    the first one in the order of the text, and a value that is not an object,
    or is followed by anything, is refused too. Over no tokens whatever does it
    fault on its stack. *)
Theorem walk_refuses_repeated_keys (v : json) (rest : list token) (stop : option json_error) (toks : list token) :
  walk (tokens v ++ rest) stop true [] =
    match v with
    | JObject _ =>
        match first_dup v, rest, stop with
        | Some p, _, _ => Faulty ("bad_json", show p)
        | None, [], None => Passes
        | None, [], Some e => Faulty (classify e)
        | None, _ :: _, _ => Faulty ("bad_json", "")
        end
    | _ => Faulty ("bad_json", "")
    end
  /\ (first_dup v = None <-> unique_keys v)
  /\ walk toks stop true [] <> WalkPanics.
Proof.
  split; [|split; [apply first_dup_unique|]].
  - destruct v as [|s|l|l]; [done..|]. cbn [tokens app]. rewrite <- app_assoc. cbn [app].
    transitivity (walk (concat (map (fun kv => TString (fst kv) :: tokens (snd kv)) l) ++ TCloseObj :: rest) stop false [mkFrame true ∅ "" 0 true]); [done|].
    rewrite walks_members. cbn [first_dup]. destruct (dups_in first_dup l ∅); [done|]. by destruct rest; [destruct stop|].
  - destruct toks as [|tok toks]; [by destruct stop|]. cbn [walk].
    destruct (walk_token tok true []) as [f|st|] eqn:E; [done|apply walk_safe|]. by destruct tok.
Qed.

(** The walk compares keys exactly, and [encoding/json] matches a key to a field
    without case: an object that sets a field twice, in two spellings, passes. *)
Lemma case_variants_pass : walk (tokens (JObject [("user", JString "ann"); ("User", JString "bob")])) None true [] = Passes
  /\ EqualFold (T "user") (T "User") = true.
Proof. split; vm_compute; reflexivity. Qed.

(** ** The rest of the door *)

(** A view served from the snapshot is younger than the time it may be kept, and
    one that has reached it is built again. *)
Lemma Get_fresh {A} (fn v : A) (now built : Z) : - 2 ^ 61 <= built -> built <= now <= 2 ^ 62 ->
  Get fn now (mkSnapshot built (Some v)) =
  if decide (now - built < SnapshotTTL) then (mkSnapshot built (Some v), v, false) else (mkSnapshot now (Some fn), fn, true).
Proof.
  intros Hb Hn. cbn. replace (time_sub now built) with (now - built) by (unfold time_sub; lia).
  destruct (Z.leb_spec SnapshotTTL (now - built)); case_decide; done || lia.
Qed.

(** No name that a path segment may be, of a device or of a diagnostics file,
    can leave its directory. *)
Lemma names_stay_inside s : DeviceIDRe s = true \/ ValidDiagName s = true ->
  ("/"%char ∉ T s) /\ s <> "" /\ s <> "." /\ s <> "..".
Proof.
  unfold DeviceIDRe, ValidDiagName, DiagNameRe, matches.
  rewrite !andb_true_iff, !bool_decide_eq_true, !forallb_forall. intros [H|[[[[H1 _] Hc] Hd] Hdd]].
  - assert (("/"%char ∉ T s) /\ forall t, T s = "."%char :: t -> False) as [Hs Hd].
    { destruct (T s) as [|c t]; [done|]. rewrite !andb_true_iff, forallb_forall in H. destruct H as [[Ha _] Ht]. split.
      - intros [<-|Hi%list_elem_of_In%Ht]%elem_of_cons; [done|done].
      - intros t' [= -> _]. done. }
    split; [done|]. split; [by intros ->|]. split; intros ->; by eapply Hd.
  - split; [intros Hi%list_elem_of_In%Hc; done|]. split; [by intros ->|done].
Qed.
