(* ===== verification/LineBook.v ===== *)
(** What the registrar of PBX lines promises the server that wires it to the
    enrolment store, and that the line manager of
    src/server/internal/pbxline/pbxline.go keeps it. *)

From S2P Require Import Prelude PbxLine.
Open Scope Z_scope.

(** A book of lines: which line each user has. [lb_good] is what its writes keep. *)
Class LineBook (B : Type) := {
  lb_good : B -> Prop;
  lb_get : B -> string -> option Line;
  lb_put : Line -> Z -> B -> B;
  lb_delete : string -> B -> B;
  lb_set : list Line -> Z -> B -> B;
  lb_put_good l now b : lb_good b -> lb_good (lb_put l now b);
  lb_delete_good u b : lb_good b -> lb_good (lb_delete u b);
  lb_get_put l now b u : lb_good b -> User l <> "" ->
    lb_get (lb_put l now b) u = if decide (u = User l) then Some (normalised l) else lb_get b u;
  lb_set_good ls now b : lb_good b -> lb_good (lb_set ls now b);
  lb_get_set ls now b u : lb_good b -> NoDup (map User ls) -> "" ∉ map User ls ->
    lb_get (lb_set ls now b) u = normalised <$> find (fun l => bool_decide (User l = u)) ls;
  lb_get_delete v b u : lb_good b -> lb_get (lb_delete v b) u = if decide (u = v) then None else lb_get b u;
}.

(** ** The manager's book *)

Definition filed (m : Manager) : Prop := forall u n, lines m !! u = Some n -> exists x, objs m !! n = Some x /\ User (cur x) = u.

Definition line_for (m : Manager) (u : string) : option Line := cur <$> line_of m u.

Lemma User_normalised l : User (normalised l) = User l.
Proof. unfold normalised. by destruct (decide _). Qed.

Lemma cur_put_line l x : cur (put_line l x) = l.
Proof. unfold put_line, signal, with_wake. by destruct (sameCredential _ _). Qed.

Lemma cur_cancel_line x : cur (cancel_line x) = cur x.
Proof. unfold cancel_line. by destruct (cancel x). Qed.

Lemma cur_startLocked b x : cur (startLocked b x) = cur x.
Proof. unfold startLocked. by destruct (cancel x). Qed.

(** Two users never share a line. *)
Lemma filed_inj m u v n : filed m -> lines m !! u = Some n -> lines m !! v = Some n -> u = v.
Proof. intros Hm Hu Hv. destruct (Hm u n Hu) as (x&Hx&<-), (Hm v n Hv) as (y&Hy&<-). congruence. Qed.

Lemma line_for_update m n f u : filed m ->
  line_for (update_line n f m) u = if decide (lines m !! u = Some n) then (fun x => cur (f x)) <$> objs m !! n else line_for m u.
Proof.
  intros Hm. unfold line_for, line_of. cbn. destruct (lines m !! u) as [k|] eqn:E; cbn.
  - destruct (decide (Some k = Some n)) as [[= ->]|Hk].
    + rewrite list_lookup_alter_eq. by destruct (objs m !! n).
    + rewrite list_lookup_alter_ne by congruence. done.
  - by rewrite decide_False.
Qed.

Lemma filed_update m n f : filed m -> (forall x, User (cur (f x)) = User (cur x)) -> filed (update_line n f m).
Proof.
  intros Hm Hf u k Hu. destruct (Hm u k Hu) as (x&Hx&E). cbn. destruct (decide (k = n)) as [->|Hk].
  - exists (f x). rewrite list_lookup_alter_eq, Hx. split; [done|]. by rewrite Hf.
  - exists x. by rewrite list_lookup_alter_ne.
Qed.

Lemma filed_put l now m : filed m -> filed (Put l now m).
Proof.
  intros Hm. unfold Put. destruct (decide _) as [|Hu]; [done|]. destruct (lines m !! _) as [n|] eqn:En.
  - intros u k Hu'. destruct (Hm u k Hu') as (x&Hx&E). cbn. destruct (decide (k = n)) as [->|Hk].
    + exists (put_line (normalised l) x). rewrite list_lookup_alter_eq, Hx. split; [done|]. rewrite cur_put_line.
      by eapply filed_inj.
    + exists x. by rewrite list_lookup_alter_ne.
  - intros u k. cbn. rewrite lookup_insert_Some. intros [[<- <-]|[Hne Hk]].
    + eexists. split; [by rewrite lookup_app_r, Nat.sub_diag|]. by destruct (started m); rewrite ?cur_startLocked.
    + destruct (Hm u k Hk) as (x&Hx&E). exists x. by rewrite lookup_app_l by (by eapply lookup_lt_Some).
Qed.

Lemma line_for_put l now m u : filed m -> User l <> "" ->
  line_for (Put l now m) u = if decide (u = User l) then Some (normalised l) else line_for m u.
Proof.
  intros Hm Hu. unfold Put. rewrite !User_normalised. rewrite decide_False by done. destruct (lines m !! User l) as [n|] eqn:En.
  - rewrite line_for_update by done. destruct (decide (u = User l)) as [->|Hne].
    + rewrite decide_True by done. destruct (Hm _ _ En) as (x&->&_). cbn. by rewrite cur_put_line.
    + rewrite decide_False; [done|]. intros E. by apply Hne, (filed_inj m u (User l) n).
  - unfold line_for, line_of. cbn. destruct (decide (u = User l)) as [->|Hne].
    + rewrite lookup_insert_eq. cbn. rewrite lookup_app_r, Nat.sub_diag by done. cbn. by destruct (started m); rewrite ?cur_startLocked.
    + rewrite lookup_insert_ne by done. destruct (lines m !! u) as [k|] eqn:Ek; [|done]. cbn.
      destruct (Hm _ _ Ek) as (x&Hx&_). by rewrite lookup_app_l by (by eapply lookup_lt_Some).
Qed.

(** [Delete] leaves the lines but one, and their objects but for a cancellation. *)
Lemma Delete_fields v m n : lines m !! v = Some n ->
  lines (Delete v m) = delete v (lines m) /\ objs (Delete v m) = alter cancel_line n (objs m).
Proof. intros E. unfold Delete. rewrite E. destruct (started m); [|done]. cbn. by destruct (alter _ _ _ !! n). Qed.

Lemma lookup_cancelled m n k x : objs m !! k = Some x -> cur <$> alter cancel_line n (objs m) !! k = Some (cur x).
Proof.
  intros Hx. destruct (decide (k = n)) as [->|Hk]; [|by rewrite list_lookup_alter_ne, Hx by done].
  rewrite list_lookup_alter_eq, Hx. cbn. by rewrite cur_cancel_line.
Qed.

Lemma filed_delete v m : filed m -> filed (Delete v m).
Proof.
  intros Hm. destruct (lines m !! v) as [n|] eqn:En; [|by unfold Delete; rewrite En].
  destruct (Delete_fields v m n En) as [El Eo]. intros u k. rewrite El, Eo, lookup_delete_Some. intros [_ Hk].
  destruct (Hm u k Hk) as (x&Hx&<-). pose proof (lookup_cancelled m n k x Hx) as Hy.
  destruct (alter _ _ _ !! k) as [y|]; [|done]. exists y. cbn in Hy. split; [done|]. by injection Hy as ->.
Qed.

Lemma line_for_delete v m u : filed m -> line_for (Delete v m) u = if decide (u = v) then None else line_for m u.
Proof.
  intros Hm. destruct (lines m !! v) as [n|] eqn:En.
  - destruct (Delete_fields v m n En) as [El Eo]. unfold line_for, line_of. rewrite El, Eo. destruct (decide (u = v)) as [->|Hne].
    { by rewrite lookup_delete_eq. }
    rewrite lookup_delete_ne by done. destruct (lines m !! u) as [k|] eqn:Ek; [|done]. cbn.
    destruct (Hm _ _ Ek) as (x&Hx&_). rewrite Hx. by apply lookup_cancelled.
  - unfold Delete. rewrite En. destruct (decide (u = v)) as [->|]; [|done]. unfold line_for, line_of. by rewrite En.
Qed.

Lemma puts_spec ls now : forall m, filed m -> NoDup (map User ls) -> "" ∉ map User ls ->
  let m' := foldl (fun m l => Put l now m) m ls in
  filed m' /\ forall u, line_for m' u = match find (fun l => bool_decide (User l = u)) ls with Some l => Some (normalised l) | None => line_for m u end.
Proof.
  induction ls as [|l ls IH]; intros m Hm Hn Hu; [done|]. cbn in Hn, Hu |- *. apply NoDup_cons in Hn as [Hl Hn].
  destruct (IH (Put l now m)) as [H1 H2]; [by apply filed_put|done|set_solver|]. split; [done|]. intros u.
  rewrite H2, line_for_put by (done || set_solver). case_bool_decide as Hlu; subst; [|by rewrite decide_False by congruence].
  rewrite decide_True by done. destruct (find _ ls) as [l'|] eqn:Ef; [|done]. exfalso.
  apply find_some in Ef as [Hin%list_elem_of_In Heq%bool_decide_eq_true]. apply Hl. rewrite <- Heq.
  by apply (list_elem_of_fmap_2 User).
Qed.

Lemma deletes_spec us : forall m, filed m ->
  let m' := foldl (fun m u => Delete u m) m us in
  filed m' /\ forall u, line_for m' u = if decide (u ∈ us) then None else line_for m u.
Proof.
  induction us as [|v us IH]; intros m Hm; cbn.
  { split; [done|]. intros u. by rewrite decide_False by set_solver. }
  destruct (IH (Delete v m)) as [H1 H2]; [by apply filed_delete|]. split; [done|]. intros u. rewrite H2, line_for_delete by done.
  destruct (decide (u ∈ us)), (decide (u ∈ v :: us)), (decide (u = v)); set_solver.
Qed.

Lemma line_for_key m u : line_for m u <> None -> u ∈ (map_to_list (lines m)).*1.
Proof.
  unfold line_for, line_of. destruct (lines m !! u) as [n|] eqn:E; [|done]. intros _.
  apply list_elem_of_fmap. exists (u, n). split; [done|]. by apply elem_of_map_to_list.
Qed.

Lemma filed_set ls now m : filed m -> filed (Set_ ls now m).
Proof.
  intros Hm. unfold Set_. apply deletes_spec.
  revert m Hm. induction ls as [|l ls IH]; intros m Hm; [done|]. by apply IH, filed_put.
Qed.

Lemma line_for_set ls now m u : filed m -> NoDup (map User ls) -> "" ∉ map User ls ->
  line_for (Set_ ls now m) u = normalised <$> find (fun l => bool_decide (User l = u)) ls.
Proof.
  intros Hm Hn Hu. unfold Set_. destruct (puts_spec ls now m Hm Hn Hu) as [H1 H2].
  rewrite (proj2 (deletes_spec _ _ H1)), H2. destruct (find _ ls) as [l|] eqn:Ef; cbn.
  - rewrite decide_False; [done|]. intros [Hno _]%list_elem_of_filter. apply Hno. rewrite elem_of_list_to_set.
    apply find_some in Ef as [Hin%list_elem_of_In Heq%bool_decide_eq_true]. rewrite <- Heq. by apply (list_elem_of_fmap_2 User).
  - case_decide as Hd; [done|]. destruct (line_for m u) as [x|] eqn:Ex; [|done]. exfalso. apply Hd, list_elem_of_filter. split.
    + rewrite elem_of_list_to_set. intros (l&->&Hl)%list_elem_of_fmap. pose proof (find_none _ _ Ef l) as Hf.
      rewrite bool_decide_eq_false in Hf. by apply Hf; [apply list_elem_of_In|].
    + apply line_for_key. rewrite H2, Ef. by rewrite Ex.
Qed.

#[export] Program Instance manager_book : LineBook Manager := {
  lb_good := filed; lb_get := line_for; lb_put := Put; lb_delete := Delete; lb_set := Set_;
}.
Next Obligation. intros. by apply filed_put. Qed.
Next Obligation. intros. by apply filed_delete. Qed.
Next Obligation. intros. by apply line_for_put. Qed.
Next Obligation. intros. by apply filed_set. Qed.
Next Obligation. intros. by apply line_for_set. Qed.
Next Obligation. intros. by apply line_for_delete. Qed.

Lemma filed_New : filed New.
Proof. intros u n. unfold New. cbn [lines]. by rewrite lookup_empty. Qed.
