(* ===== verification/Limiter.v ===== *)
(** The limiter of the enrolment endpoint (src/server/internal/enroll/handler.go:
    limiter): the attempts of one source address in a sliding window. *)

From S2P Require Import Prelude.
Open Scope Z_scope.

Record limiter := mkLimiter { limit : Z; window : Z; seen : gmap string (list Z) }.

Definition recent (l : limiter) (src : string) (now : Z) : list Z :=
  filter (fun t => time_sub now t < window l) (default [] (seen l !! src)).

Definition allow (src : string) (now : Z) (l : limiter) : limiter * bool :=
  let keep := recent l src now in
  if limit l <=? zlen keep then (mkLimiter (limit l) (window l) (<[src := keep]> (seen l)), false)
  else (mkLimiter (limit l) (window l) (<[src := keep ++ [now]]> (seen l)), true).

(** A history of attempts: the limiter after it, and the times of the ones of
    [src] that were let through. *)
Fixpoint attempts (hs : list (string * Z)) (l : limiter) (src : string) : limiter * list Z :=
  match hs with
  | [] => (l, [])
  | (s, now) :: hs =>
      let '(l', ok) := allow s now l in
      let '(l'', acc) := attempts hs l' src in
      (l'', if ok && bool_decide (s = src) then now :: acc else acc)
  end.

Definition New (limit window : Z) : limiter := mkLimiter limit window ∅.

(** Times a clock can read, in order, from [last] on. *)
Fixpoint ordered (last : Z) (hs : list (string * Z)) : Prop :=
  match hs with [] => True | (_, now) :: hs => last <= now <= 2 ^ 62 /\ ordered now hs end.

(** The attempts of the window that ends at [t]. *)
Definition within (w t : Z) (acc : list Z) : list Z := filter (fun a => t - w < a <= t) acc.

(** What the limiter remembers of [src], given what it has let through. *)
Record remembers (l : limiter) (src : string) (last : Z) (acc : list Z) : Prop := {
  rm_same : forall now, last <= now -> filter (fun a => now - a < window l) (default [] (seen l !! src)) = filter (fun a => now - a < window l) acc;
  rm_past : Forall (fun a => - 2 ^ 61 <= a <= last) acc;
  rm_seen : Forall (fun a => - 2 ^ 61 <= a <= last) (default [] (seen l !! src));
  rm_bound : forall t, zlen (within (window l) t acc) <= limit l;
}.

Lemma filter_filter_imp {A} (P Q : A -> Prop) `{!forall x, Decision (P x)} `{!forall x, Decision (Q x)} (l : list A) :
  (forall x, P x -> Q x) -> filter P (filter Q l) = filter P l.
Proof.
  intros Himp. induction l as [|x l IH]; [done|]. destruct (decide (Q x)) as [Hq|Hq].
  - rewrite (filter_cons_True Q) by done. destruct (decide (P x)); [rewrite !filter_cons_True by done|rewrite !filter_cons_False by done]; by rewrite ?IH.
  - rewrite (filter_cons_False Q) by done. rewrite IH. by rewrite filter_cons_False by auto.
Qed.

Lemma recent_spec l src now last acc : remembers l src last acc -> last <= now <= 2 ^ 62 ->
  recent l src now = filter (fun a => now - a < window l) acc.
Proof.
  intros [H1 _ H3 _] Hn. rewrite <- H1 by lia. clear H1. unfold recent. induction H3 as [|a l0 Ha _ IH]; [done|].
  assert (time_sub now a = now - a) as E by (unfold time_sub; lia).
  destruct (decide (now - a < window l)).
  - rewrite 2!filter_cons_True by lia.
    by rewrite IH.
  - rewrite 2!filter_cons_False by lia. by rewrite IH.
Qed.

Lemma filter_shorter {A} (P Q : A -> Prop) `{!forall x, Decision (P x)} `{!forall x, Decision (Q x)} (l : list A) :
  (forall x, P x -> Q x) -> zlen (filter P l) <= zlen (filter Q l).
Proof.
  intros Himp. unfold zlen. induction l as [|x l IH]; [done|]. destruct (decide (P x)) as [Hp|Hp].
  - rewrite !filter_cons_True by auto. cbn [length]. lia.
  - rewrite (filter_cons_False P) by done. destruct (decide (Q x)); [rewrite filter_cons_True by done; cbn [length]; lia|by rewrite filter_cons_False].
Qed.

Lemma allow_frame s now l : let '(l', ok) := allow s now l in limit l' = limit l /\ window l' = window l
  /\ seen l' !! s = Some (if ok then recent l s now ++ [now] else recent l s now)
  /\ (forall src, src <> s -> seen l' !! src = seen l !! src) /\ (ok = true -> zlen (recent l s now) < limit l).
Proof.
  unfold allow. destruct (Z.leb_spec (limit l) (zlen (recent l s now))); cbn; (split; [done|]); (split; [done|]);
    (split; [by rewrite lookup_insert_eq|]); (split; [intros src Hs; by rewrite lookup_insert_ne|done]).
Qed.

(** One attempt. *)
Lemma remembers_allow s now l src last acc : 0 < window l -> - 2 ^ 61 <= last -> last <= now <= 2 ^ 62 -> remembers l src last acc ->
  let '(l', ok) := allow s now l in
  remembers l' src now (if ok && bool_decide (s = src) then acc ++ [now] else acc).
Proof.
  intros Hw Hl Hn Hr. pose proof Hr as [H1 H2 H3 H4]. pose proof (allow_frame s now l) as Hf. destruct (allow s now l) as [[lm wd sn] ok].
  destruct Hf as (El&Ew&Es&Eo&Hok). cbn [limit window seen] in *. subst lm wd.
  assert (forall xs, Forall (fun a => - 2 ^ 61 <= a <= last) xs -> Forall (fun a => - 2 ^ 61 <= a <= now) xs) as Hmono
    by (intros xs Hx; eapply Forall_impl; [exact Hx|]; cbn; lia).
  destruct (decide (s = src)) as [->|Hne].
  2: { rewrite bool_decide_eq_false_2, andb_false_r by done. split; cbn [limit window seen]; rewrite ?(Eo src) by done; auto. intros t Ht. apply H1. lia. }
  rewrite bool_decide_eq_true_2, andb_true_r by done. rewrite (recent_spec l src now last acc) in Es, Hok by done.
  set (keep := filter _ acc) in *.
  assert (forall t, now <= t -> filter (fun a => t - a < window l) keep = filter (fun a => t - a < window l) acc) as Hk
    by (intros t Ht; apply filter_filter_imp; lia).
  assert (Forall (fun a => - 2 ^ 61 <= a <= now) keep) as Hkp by (apply Forall_forall; intros a [_ Ha]%list_elem_of_filter; exact (proj1 (Forall_forall _ _) (Hmono acc H2) a Ha)).
  destruct ok.
  - split; cbn [limit window seen]; rewrite ?Es; cbn [default id].
    + intros t Ht.
 rewrite !filter_app, Hk by done. done.
    + apply Forall_app. split; [auto|]. repeat constructor; lia.
    + apply Forall_app. split; [done|]. repeat constructor; lia.
    + intros t. specialize (Hok eq_refl). unfold within. rewrite filter_app.
      destruct (decide (t - window l < now <= t)) as [Ht|Ht].
      * rewrite (filter_cons_True _ now []) by done. unfold zlen. rewrite length_app. cbn [length].
        assert (zlen (filter (fun a => t - window l < a <= t) acc) <= zlen keep) as Hs by (apply filter_shorter; intros a Ha; lia). unfold zlen in *. change (length (filter _ [])) with 0%nat. lia.
      * rewrite (filter_cons_False _ now []) by done. rewrite app_nil_r. apply H4.
  - split; cbn [limit window seen]; rewrite ?Es; cbn [default id]; auto.
Qed.

Lemma attempts_bound hs : forall l src last acc, 0 < window l -> - 2 ^ 61 <= last -> ordered last hs -> remembers l src last acc ->
  forall t, zlen (within (window l) t (acc ++ snd (attempts hs l src))) <= limit l.
Proof.
  induction hs as [|[s now] hs IH]; intros l src last acc Hw Hl Ho Hr t; cbn [attempts].
  { cbn. rewrite app_nil_r. by apply Hr. }
  destruct Ho as [Hn Ho]. pose proof (remembers_allow s now l src last acc Hw Hl Hn Hr) as Ha.
  pose proof (allow_frame s now l) as Hf. destruct (allow s now l) as [l' ok]. destruct Hf as (El&Ew&_).
  specialize (IH l' src now _ ltac:(by rewrite Ew) ltac:(lia) Ho Ha t). rewrite El, Ew in IH.
  destruct (attempts hs l' src) as [l'' acc']. cbn [snd] in *. destruct (ok && bool_decide (s = src)); [|done].
  by rewrite <- app_assoc in IH.
Qed.

(** C34: Guessing is bounded: whatever the order in which addresses try, of one
    address no more than the limit are let through in any stretch of time as
    long as the window, wherever it starts. *)
Theorem attempts_are_bounded lim w hs src t last : 0 <= lim -> 0 < w -> - 2 ^ 61 <= last -> ordered last hs ->
  zlen (within w t (snd (attempts hs (New lim w) src))) <= lim.
Proof.
  intros Hl Hw Hlast Ho. apply (attempts_bound hs (New lim w) src last []); [done|done|done|].
  split; cbn; rewrite ?lookup_empty; cbn; done.
Qed.

Definition guesses : list (string * Z) :=
  map (fun n => ("10.0.0.1", n * ns_second)) [1; 2; 3; 4; 5; 6; 7; 62; 63] ++ [("10.0.0.2", 64 * ns_second)].

Example guesses_let_through : snd (attempts guesses (New 5 ns_minute) "10.0.0.1")
  = map (fun n => n * ns_second) [1; 2; 3; 4; 5; 62; 63].
Proof. vm_compute. reflexivity. Qed.

Lemma attempts_are_bounded_witness :
  within ns_minute (61 * ns_second) (snd (attempts guesses (New 5 ns_minute) "10.0.0.1")) = map (fun n => n * ns_second) [2; 3; 4; 5]
  /\ zlen (within ns_minute (61 * ns_second) (snd (attempts guesses (New 5 ns_minute) "10.0.0.1"))) <= 5.
Proof.
  split; [vm_compute; reflexivity|]. apply (attempts_are_bounded 5 ns_minute guesses "10.0.0.1" (61 * ns_second) 0).
  - lia.
  - vm_compute. reflexivity.
  - vm_compute. discriminate.
  - cbn. unfold ns_second. lia.
Defined.
