(* ===== verification/Server.v ===== *)
(** The server wired together: what the enrolment API and the licence do to the
    running system (src/server/cmd/dialpark-server/main.go, licence.go and
    pbxlines.go; src/server/internal/enroll/handler.go and admin_handler.go).

    - A [Live] server is the enrolment store, the app leg (the location table
      and the authenticator), the book of PBX lines in lines mode, the enrolment
      limiter, and the calls made to the gateway, the event ring, the directory
      and the diagnostics, oldest first. An event's details are left out.
    - A handler is its whole body, from the decoded input to the answer: the
      writes to the store, the seat callback that runs at the end of each, and
      the hooks of main.go. One handler runs at a time.
    - A handler that gives [None] has panicked in the location table, or is
      still drawing a device id.
    - Arguments: those of the store, the app leg and the book; what a handler
      draws ([Draws]: a clock reading and whether the file was written for each
      of its writes, and the random choices). *)

From S2P Require Import Prelude Text Limiter Registry SipAuth AppLeg AppLegProps PbxLine LineBook Licence Interfaces Enroll Admin.
Open Scope Z_scope.

(** ** The live server *)

Inductive effect :=
  | Disconnected (device reason : string)
  | ConfigPushed (device : string) (cfg : Enroll.DeviceConfig)
  | DirectoryPurged (device : string)
  | DiagPurged (device : string)
  | Emitted (kind device user : string).

Record Draws := mkDraws {
  clock : nat -> Z; saved : nat -> bool; ids : list string; token : option string; code_bytes : list Z; order : list string }.

Section server.
Context (sha256hex : string -> string) (md5hex : text -> text) (Secrets : option Box).
Context {B : Type} `{LineBook B}.

Record Live := mkLive { store : Store; leg : AppLeg.state; book : option B; lim : limiter; did : list effect }.

Definition with_store (s : Store) (l : Live) : Live := mkLive s (leg l) (book l) (lim l) (did l).
Definition with_leg (x : AppLeg.state) (l : Live) : Live := mkLive (store l) x (book l) (lim l) (did l).
Definition with_book (b : option B) (l : Live) : Live := mkLive (store l) (leg l) b (lim l) (did l).
Definition with_lim (x : limiter) (l : Live) : Live := mkLive (store l) (leg l) (book l) x (did l).
Definition act (e : effect) (l : Live) : Live := mkLive (store l) (leg l) (book l) (lim l) (did l ++ [e]).
Definition table (l : Live) : Registry := AppLeg.reg (leg l).
Definition on_table (f : Registry -> Registry) (l : Live) : Live := with_leg (AppLeg.mkState (f (table l)) (AppLeg.auth (leg l))) l.

(** [lines.Delete], when there is a manager. *)
Definition delete_line (user : string) (l : Live) : Live := with_book (lb_delete user <$> book l) l.

(** *** Seats *)

Definition line_of_credential (c : Enroll.PBXCredential) : PbxLine.Line :=
  PbxLine.mkLine (p_User c) (p_DN c) (p_DigestUser c) (p_Secret c).

Definition linesFrom (creds : list Enroll.PBXCredential) : list PbxLine.Line := map line_of_credential creds.

Definition registerLine (now : Z) (deviceID : string) (l : Live) : Live :=
  match book l with
  | None => l
  | Some b =>
      match PBXCredential' Secrets (store l) deviceID with
      | None | Some (inl _) => l
      | Some (inr cred) =>
          match SeatState (store l) deviceID with
          | SeatUnlicensed => l
          | _ => with_book (Some (lb_put (line_of_credential cred) now b)) l
          end
      end
  end.

Definition seat_lost (seats : Z) (l : Live) (id : string) : Live :=
  let l := act (Disconnected id (if seats =? 0 then "licence expired" else "no licence seat")) l in
  let l := match UserFor (store l) id with
           | Some user => delete_line user (on_table (Registry.Unregister user) l)
           | None => l
           end in
  act (Emitted "seat_lost" id "") l.

Definition seat_gained (now : Z) (l : Live) (id : string) : Live := act (Emitted "seat_gained" id "") (registerLine now id l).

Definition seatHooks (now : Z) (l : Live) (c : SeatChange) : Live :=
  foldl (seat_gained now) (foldl (seat_lost (c_Seats c)) l (Lost c)) (Gained c).

(** A write to the store: the callback hears each change it told. *)
Definition follow (now : Z) (s : Store) (l : Live) : Live :=
  foldl (seatHooks now) (with_store s l) (drop (length (told (store l))) (told s)).

(** The reason a device with a good credential is turned away. *)
Definition licenceGate (s : Store) (lic : Licence.State) (deviceID : string) : bool * string :=
  if Licensed s deviceID then (true, "") else
  match lic with
  | Licence.StateActive | Licence.StateExpiring => (false, "no licence seat")
  | Licence.StateExpired => (false, "licence expired")
  | _ => (false, "no licence")
  end.

(** *** The hooks of the admin API *)

(** [gw.Disconnect] of each of the hooks. *)
Definition rotated : string := "credential rotated; re-enrol".

Definition OnIssue (deviceID user : string) (l : Live) : Live := on_table (Registry.Provision user deviceID) l.

(** The device's user leaves the table and the exchange. *)
Definition forget (now : Z) (deviceID : string) (l : Live) : option Live :=
  found ← Registry.LookupDevice now deviceID (table l);
  Some match found with
       | Some ep => delete_line (Registry.User ep) (on_table (Registry.Deprovision (Registry.User ep)) l)
       | None => l
       end.

Definition OnRevoke (now : Z) (deviceID : string) (l : Live) : option Live :=
  l ← forget now deviceID l; Some (act (Emitted "device_revoked" deviceID "") (act (Disconnected deviceID rotated) l)).

Definition OnPurge (now : Z) (deviceID : string) (l : Live) : option Live :=
  l ← forget now deviceID l;
  Some (act (Emitted "device_purged" deviceID "")
       (act (DiagPurged deviceID) (act (DirectoryPurged deviceID) (act (Disconnected deviceID rotated) l)))).

Definition OnClaim (now : Z) (deviceID user : string) (l : Live) : Live :=
  registerLine now deviceID
    (act (Disconnected deviceID rotated) (on_table (Registry.Provision user deviceID) (act (Emitted "code_claimed" deviceID user) l))).

Definition OnConfig (deviceID : string) (cfg : Enroll.DeviceConfig) (l : Live) : Live :=
  act (ConfigPushed deviceID cfg) (act (Emitted "config_changed" deviceID "") l).

Definition pbxLineHook (now : Z) (deviceID : string) (cred : option Enroll.PBXCredential) (l : Live) : Live :=
  match book l with
  | None => l
  | Some _ => match cred with
              | None => match UserFor (store l) deviceID with Some user => delete_line user l | None => l end
              | Some _ => registerLine now deviceID l
              end
  end.

Definition OnPBXLine (now : Z) (deviceID : string) (line : option Enroll.PBXCredential) (l : Live) : Live :=
  pbxLineHook now deviceID line
    (act (match line with None => Emitted "line_removed" deviceID "" | Some c => Emitted "line_changed" deviceID (p_User c) end) l).

(** *** The handlers of the admin API

    The guard has passed the request and [admin.Decode] has read its body, or
    has answered ([inl]). *)

Inductive output :=
  | ONone
  | OCreated (id user description : string) (token : option string) (code : string) (expires : Z)
  | OCode (code : string) (expires : Z)
  | ODevice (d : option Device)
  | OConfig (cfg : Enroll.DeviceConfig)
  | OLine (line : option PBXLine)
  | OClaimed (c : Claimed_).

Definition reply : Type := answer * output.
Definition refuse (a : answer) : reply := (a, ONone).

Definition storeError (e : enroll_error) : answer :=
  match e with
  | ErrVersionMismatch => PreconditionFailed
  | ErrInvalid => WriteError 400 "invalid"
  | ErrExists => WriteFieldError 409 "device_exists" "device_id"
  | ErrUserTaken => WriteFieldError 409 "user_taken" "user"
  | ErrImmutable => WriteFieldError 409 "immutable" "user"
  | ErrNoSeats => WriteFieldError 409 "no_seats" "token"
  | _ => StoreError
  end.

Record DeviceIn := mkDeviceIn { in_DeviceID : string; in_User : string; in_Description : string; in_Token : string }.

(** The checks of the request, in their order. *)
Definition device_fault (i : DeviceIn) : option answer :=
  if decide (in_User i = "") then Some (WriteFieldError 400 "missing" "user")
  else if negb (UserRe (in_User i)) then Some (WriteFieldError 400 "invalid" "user")
  else if bool_decide (in_DeviceID i <> "") && negb (DeviceIDRe (in_DeviceID i)) then Some (WriteFieldError 400 "invalid" "device_id")
  else if negb (Clean (in_Description i) 120) then Some (WriteFieldError 400 "invalid" "description")
  else if bool_decide (in_Token i <> "") && ((String.length (in_Token i) <? 16)%nat || negb (Clean (in_Token i) 512))
  then Some (WriteFieldError 400 "invalid" "token")
  else None.

Definition no_seat_left (s : Store) : bool := let '(used, total) := Seats s in bool_decide (total <> NoSeatLimit) && (total <=? used).

(** The end of the handler, once the device exists. *)
Definition issue_and_mint (w : Draws) (i : DeviceIn) (exists_ : bool) (id description : string) (l : Live) : Live * reply :=
  let '(l, tok) :=
    if decide (in_Token i <> "") then
      let '(s, r) := IssueToken sha256hex md5hex id (in_User i) (in_Token i) None (clock w 1) (saved w 1) (store l) in
      (follow (clock w 1) s l, match r with inl e => inl e | inr tok => inr (Some tok) end)
    else (l, inr None) in
  match tok with
  | inl e => (l, refuse (storeError e))
  | inr tok =>
      let '(s, r) := MintCode sha256hex id (code_bytes w) (clock w 2) (saved w 2) (store l) in
      let l := follow (clock w 2) s l in
      match r with
      | inl e => (l, refuse (storeError e))
      | inr (code, expires) =>
          let l := if exists_ then l else act (Emitted "device_created" id "") l in
          let l := act (Emitted "code_issued" id "") l in
          (OnIssue id (in_User i) l, (done_with 201, OCreated id (in_User i) description tok code expires))
      end
  end.

Definition post_device (w : Draws) (body : answer + DeviceIn) (l : Live) : option (Live * reply) :=
  match body with
  | inl a => Some (l, refuse a)
  | inr i =>
      match device_fault i with
      | Some a => Some (l, refuse a)
      | None =>
          let id := in_DeviceID i in
          let exists_ := bool_decide (id <> "") && Exists (store l) id in
          if exists_ && bool_decide (in_Token i = "") then Some (l, refuse (WriteFieldError 409 "device_exists" "device_id")) else
          if bool_decide (in_Token i <> "") && negb exists_ && no_seat_left (store l)
          then Some (l, refuse (WriteFieldError 409 "no_seats" "token")) else
          if exists_ then
            let description := match Device_ (store l) (clock w 0) id with Some d => d_Description d | None => in_Description i end in
            Some (issue_and_mint w i true id description l)
          else
            '(s, r) ← Create id (in_User i) (in_Description i) (ids w) (clock w 0) (saved w 0) (store l);
            let l := follow (clock w 0) s l in
            match r with
            | inl e => Some (l, refuse (storeError e))
            | inr id => Some (issue_and_mint w i false id (in_Description i) l)
            end
      end
  end.

(** [purge]: the query's value. *)
Definition delete_device (w : Draws) (id purge : string) (l : Live) : option (Live * reply) :=
  if negb (DeviceIDRe id) then Some (l, refuse NotFound) else
  match (if decide (purge = "") then Some false else if decide (purge = "1" \/ purge = "true") then Some true else None) with
  | None => Some (l, refuse (WriteFieldError 400 "invalid" "purge"))
  | Some purge =>
      let '(s, found, e) := if (purge : bool) then Purge id (saved w 0) (store l) else Revoke id (clock w 0) (saved w 0) (store l) in
      let l := follow (clock w 0) s l in
      match e with
      | Some e => Some (l, refuse (storeError e))
      | None =>
          if negb found then Some (l, refuse NotFound) else
          l ← (if purge then OnPurge (clock w 1) id l else OnRevoke (clock w 1) id l);
          Some (l, (done_with 204, ONone))
      end
  end.

(** The precondition of If-Match: [inl] has been answered. *)
Definition recordMatch (pre : answer + option Z) : answer + list Match :=
  match pre with
  | inl a => inl a
  | inr (Some t) => inr [mkMatch (Some t) None]
  | inr None => inr []
  end.

Definition patch_device (w : Draws) (id : string) (body : answer + option string) (pre : answer + option Z) (l : Live)
    : Live * reply :=
  if negb (DeviceIDRe id) then (l, refuse NotFound) else
  match body with
  | inl a => (l, refuse a)
  | inr None => (l, refuse (WriteFieldError 400 "missing" "description"))
  | inr (Some description) =>
      if negb (Clean description 120) then (l, refuse (WriteFieldError 400 "invalid" "description")) else
      match recordMatch pre with
      | inl a => (l, refuse a)
      | inr pre =>
          let '(s, found, e) := SetDescription id description pre (clock w 0) (saved w 0) (store l) in
          let l := follow (clock w 0) s l in
          match e with
          | Some e => (l, refuse (storeError e))
          | None =>
              if negb found then (l, refuse NotFound) else
              let l := act (Emitted "description_changed" id "") l in
              (l, (done_with 200, ODevice (Device_ (store l) (clock w 1) id)))
          end
      end
  end.

Definition cancel_code (w : Draws) (id : string) (l : Live) : Live * reply :=
  if negb (DeviceIDRe id) then (l, refuse NotFound) else
  let '(s, found, e) := CancelCode id (clock w 0) (saved w 0) (store l) in
  let l := follow (clock w 0) s l in
  match e with
  | Some e => (l, refuse (storeError e))
  | None => if negb found then (l, refuse NotFound) else (act (Emitted "code_cancelled" id "") l, (done_with 204, ONone))
  end.

Definition post_code (w : Draws) (id : string) (l : Live) : Live * reply :=
  if negb (DeviceIDRe id) then (l, refuse NotFound) else
  let '(s, r) := MintCode sha256hex id (code_bytes w) (clock w 0) (saved w 0) (store l) in
  let l := follow (clock w 0) s l in
  match r with
  | inl e => (l, refuse (if decide (e = ErrInvalid) then NotFound else storeError e))
  | inr (code, expires) => (act (Emitted "code_issued" id "") l, (done_with 200, OCode code expires))
  end.

Definition bad_ssid (ssids : list string) : option nat :=
  fst <$> head (filter (fun ix => Clean (snd ix) 32 = false) (imap pair ssids)).

(** [ssids]: the list, [None] when absent or null. *)
Definition set_config (w : Draws) (id : string) (body : answer + option (list string)) (pre : answer + option Z) (l : Live)
    : Live * reply :=
  if negb (DeviceIDRe id) then (l, refuse NotFound) else
  match body with
  | inl a => (l, refuse a)
  | inr None => (l, refuse (WriteFieldError 400 "missing" "ssids"))
  | inr (Some ssids) =>
      if 32 <? zlen ssids then (l, refuse (WriteFieldError 400 "invalid" "ssids")) else
      match bad_ssid ssids with
      | Some i => (l, refuse (WriteFieldError 400 "invalid" ("ssids[" +:+ to_string (Itoa (Z.of_nat i)) +:+ "]")))
      | None =>
          match pre with
          | inl a => (l, refuse a)
          | inr v =>
              let pre := match v with Some v => [mkMatch None (Some v)] | None => [] end in
              let '(s, r) := SetConfig id ssids pre (clock w 0) (saved w 0) (store l) in
              let l := follow (clock w 0) s l in
              match r with
              | inl e => (l, refuse (if decide (e = ErrInvalid) then NotFound else storeError e))
              | inr (cfg, changed) => ((if changed : bool then OnConfig id cfg l else l), (done_with 200, OConfig cfg))
              end
          end
      end
  end.

Record LineIn := mkLineIn { in_DN : string; in_DigestUser : string; in_Secret : string }.

Definition dnRe (s : string) : bool := matches 32 (fun c => let n := byte_z c in ((48 <=? n) && (n <=? 57)) || one_of "+*#" c) (T s).

Definition line_fault (i : LineIn) : option answer :=
  if decide (in_DigestUser i = "") then Some (WriteFieldError 400 "missing" "digest_user")
  else if decide (in_Secret i = "") then Some (WriteFieldError 400 "missing" "secret")
  else if negb (Clean (in_DigestUser i) 128) then Some (WriteFieldError 400 "invalid" "digest_user")
  else if negb (Clean (in_Secret i) 128) then Some (WriteFieldError 400 "invalid" "secret")
  else if bool_decide (in_DN i <> "") && negb (dnRe (in_DN i)) then Some (WriteFieldError 400 "invalid" "dn")
  else None.

Definition set_line (w : Draws) (id : string) (body : answer + LineIn) (pre : answer + option Z) (l : Live) : Live * reply :=
  if negb (DeviceIDRe id) then (l, refuse NotFound) else
  match body with
  | inl a => (l, refuse a)
  | inr i =>
      match line_fault i with
      | Some a => (l, refuse a)
      | None =>
          if negb (Exists (store l) id) then (l, refuse NotFound) else
          match recordMatch pre with
          | inl a => (l, refuse a)
          | inr pre =>
              let '(s, r) := SetPBXLine Secrets id (in_DN i) (in_DigestUser i) (in_Secret i) pre (clock w 0) (saved w 0) (store l) in
              let l := follow (clock w 0) s l in
              match r with
              | inl e => (l, refuse (if decide (e = ErrInvalid) then NotFound
                                     else if decide (e = ErrNoSecretKey) then WriteError 503 "unavailable" else storeError e))
              | inr line =>
                  match PBXCredential' Secrets (store l) id with
                  | Some (inr cred) => (OnPBXLine (clock w 1) id (Some cred) l, (done_with 200, OLine line))
                  | _ => (l, refuse (WriteError 500 "store"))
                  end
              end
          end
      end
  end.

Definition delete_pbx_line (w : Draws) (id : string) (pre : answer + option Z) (l : Live) : Live * reply :=
  if negb (DeviceIDRe id) then (l, refuse NotFound) else
  match recordMatch pre with
  | inl a => (l, refuse a)
  | inr pre =>
      let '(s, found, e) := DeletePBXLine id pre (clock w 0) (saved w 0) (store l) in
      let l := follow (clock w 0) s l in
      match e with
      | Some e => (l, refuse (storeError e))
      | None => if negb found then (l, refuse NotFound) else (OnPBXLine (clock w 1) id None l, (done_with 204, ONone))
      end
  end.

(** *** The enrolment endpoint *)

(** [code]: [None] for a body that does not decode. *)
Definition enrol (w : Draws) (src : string) (code : option string) (l : Live) : Live * reply :=
  let '(x, allowed) := allow src (clock w 0) (lim l) in
  let l := with_lim x l in
  if negb allowed then (l, refuse (done_with 429)) else
  match code with
  | None => (l, refuse (done_with 400))
  | Some code =>
      if decide (code = "") then (l, refuse (done_with 400)) else
      let '(s, r) := Claim sha256hex md5hex (order w) code (token w) (clock w 1) (saved w 0) (store l) in
      let l := follow (clock w 1) s l in
      match r with
      | inl ErrBadCode => (l, refuse (done_with 404))
      | inl ErrNoSeats => (l, refuse (WriteError 403 "no_seats"))
      | inl _ => (l, refuse (done_with 500))
      | inr c => (OnClaim (clock w 2) (cl_DeviceID c) (cl_User c) l, (done_with 200, OClaimed c))
      end
  end.

(** *** Start *)

Definition provision_all (devices : list Device) (r : Registry) : Registry :=
  foldl (fun r d => if d_Revoked d then r else Registry.Provision (d_User d) (d_DeviceID d) r) r devices.

(** The server once it has started over the store's records. [lines]: a new
    manager, in lines mode. *)
Definition boot (now : Z) (auth : option Authenticator) (lines : option B) (limit : Z) (s : Store) : Live :=
  mkLive (OnSeats s)
    (AppLeg.mkState (Registry.OnChange (provision_all (Devices s now) Registry.New)) auth)
    ((fun b => lb_set (linesFrom (fst (PBXCredentials Secrets s))) now b) <$> lines)
    (Limiter.New limit ns_minute) [].

(** *** Everything that happens to a live server *)

Inductive event :=
  | EvPostDevice (w : Draws) (body : answer + DeviceIn)
  | EvDeleteDevice (w : Draws) (id purge : string)
  | EvPatchDevice (w : Draws) (id : string) (body : answer + option string) (pre : answer + option Z)
  | EvCancelCode (w : Draws) (id : string)
  | EvPostCode (w : Draws) (id : string)
  | EvSetConfig (w : Draws) (id : string) (body : answer + option (list string)) (pre : answer + option Z)
  | EvSetLine (w : Draws) (id : string) (body : answer + LineIn) (pre : answer + option Z)
  | EvDeleteLine (w : Draws) (id : string) (pre : answer + option Z)
  | EvEnrol (w : Draws) (src : string) (code : option string)
  | EvLicence (now seats : Z)
  | EvRegister (nonce : text) (now : Z) (req : AppLeg.Request).

Context (cfg : AppLeg.Config) (is_ipv6 : text -> bool) (IsDigest : text -> bool) (ParseCredentials : text -> option SipAuth.Credentials).

(** [lic.OnChange]: the licence manager has told the seats in force. *)
Definition licence_changed (now seats : Z) (l : Live) : Live :=
  let l := act (Emitted "licence_changed" "" "") l in follow now (SetSeats seats (store l)) l.

Definition serve (e : event) (l : Live) : option Live :=
  match e with
  | EvPostDevice w body => fst <$> post_device w body l
  | EvDeleteDevice w id purge => fst <$> delete_device w id purge l
  | EvPatchDevice w id body pre => Some (fst (patch_device w id body pre l))
  | EvCancelCode w id => Some (fst (cancel_code w id l))
  | EvPostCode w id => Some (fst (post_code w id l))
  | EvSetConfig w id body pre => Some (fst (set_config w id body pre l))
  | EvSetLine w id body pre => Some (fst (set_line w id body pre l))
  | EvDeleteLine w id pre => Some (fst (delete_pbx_line w id pre l))
  | EvEnrol w src code => Some (fst (enrol w src code l))
  | EvLicence now seats => Some (licence_changed now seats l)
  | EvRegister nonce now req =>
      '(st, _) ← AppLeg.onRegister cfg is_ipv6 md5hex IsDigest ParseCredentials (store_secret (store l)) nonce now req (leg l);
      Some (with_leg st l)
  end.

Fixpoint serve_all (es : list event) (l : Live) : option Live :=
  match es with [] => Some l | e :: es => l' ← serve e l; serve_all es l' end.

End server.

(** The gateway's door: the store's credentials and the licence's reasons. *)
#[export] Instance store_door (sha256hex : string -> string) : DoorKeeper (Store * Licence.State) := {|
  door_authenticate := fun sl => Authenticate sha256hex (fst sl);
  door_licensed := fun sl => licenceGate (fst sl) (snd sl);
|}.
