(* ===== verification/ServerSeats.v ===== *)
(** What a write to the store does to a live server (Server) through the seat
    callback: which contacts and lines it drops, and which lines it registers. *)

From S2P Require Import Prelude Text Limiter Registry SipAuth AppLeg AppLegProps PbxLine LineBook Enroll EnrollSeats EnrollProps Admin Server.
Open Scope Z_scope.

(** ** Steps of the store *)

(** The store after a step, and what the callback was told of it: nothing when
    the licensed devices are the same, and else the differences. *)
Record stepped (s s' : Store) : Prop := {
  st_inv : inv s';
  st_hooked : hooked s' = true;
  st_told : exists cs, told s' = told s ++ cs
    /\ ((cs = [] /\ forall k, Licensed s' k = Licensed s k)
        \/ exists c, cs = [c] /\ (forall k, k ∈ Lost c <-> Licensed s k = true /\ Licensed s' k = false)
                             /\ (forall k, k ∈ Gained c <-> Licensed s k = false /\ Licensed s' k = true));
}.

Lemma stepped_refl s : inv s -> hooked s = true -> stepped s s.
Proof. intros Hi Hh. split; [done..|]. exists []. rewrite app_nil_r. split; [done|]. by left. Qed.

Lemma hooked_fireSeats c s : hooked (fireSeats c s) = hooked s.
Proof. by pose proof (fireSeats_fields c s) as Hx; injection Hx. Qed.

Lemma devices_fireSeats c s : devices (fireSeats c s) = devices s.
Proof. by pose proof (fireSeats_fields c s) as Hx; injection Hx. Qed.

Lemma unlicensed_fireSeats c s : unlicensed (fireSeats c s) = unlicensed s.
Proof. by pose proof (fireSeats_fields c s) as Hx; injection Hx. Qed.

Lemma stepped_fire s s1 : inv s1 -> hooked s1 = true -> told s1 = told s ->
  stepped s (fireSeats (seatDiffLocked (licensedSetLocked s) s1) s1).
Proof.
  intros Hi Hh Ht. split; [by apply inv_fireSeats|by rewrite hooked_fireSeats|].
  assert (forall k, Licensed s k = true <-> k ∈ licensedSetLocked s) as Hs by (intros; by rewrite elem_of_licensedSet).
  assert (forall k, Licensed s1 k = true <-> k ∈ licensedSetLocked s1) as Hs1 by (intros; by rewrite elem_of_licensedSet).
  unfold seatDiffLocked. case_decide as Hd.
  - exists []. rewrite app_nil_r. split; [done|]. left. split; [done|]. intros k.
    cbn [fireSeats]. apply eq_true_iff_eq. rewrite Hs, Hs1. destruct Hd as [H1 H2]. by rewrite (set_same _ _ H1 H2).
  - eexists [_]. split; [unfold fireSeats; rewrite Hh; cbn; by rewrite Ht|]. right. eexists. split; [done|].
    cbn [Lost Gained]. split; intros k; rewrite elem_of_sorted_ids, elem_of_difference, <- Hs, <- Hs1, Licensed_fireSeats;
      by destruct (Licensed s k), (Licensed s1 k); naive_solver.
Qed.

Lemma stepped_after leaver s m : inv s -> hooked s = true -> change leaver s m -> stepped s (after s m).
Proof. intros Hi Hh Hc. apply stepped_fire; [by eapply inv_written|done|done]. Qed.

Lemma stepped_seats n s : inv s -> hooked s = true -> stepped s (SetSeats n s).
Proof.
  intros Hi Hh. pose proof (SetSeats_inv n s Hi) as Hi'. unfold SetSeats in *.
  destruct (_ =? seats s); [by apply stepped_refl|]. apply stepped_fire; [|done|done].
  destruct Hi as (Hs&Hse&Hu). split; [|done]. split; [apply recompute_idem|]. cbn.
  destruct (Z.ltb_spec n 0); [by left|by right].
Qed.

Lemma devices_after s m : devices (after s m) = m.
Proof. unfold after. by rewrite devices_fireSeats. Qed.

Lemma devices_SetSeats n s : devices (SetSeats n s) = devices s.
Proof. unfold SetSeats. destruct (_ =? seats s); [done|]. by rewrite devices_fireSeats. Qed.

(** A device without a seat is unlicensed when it holds a credential in force. *)
Lemma not_unlicensed s d r : inv s -> devices s !! d = Some r -> holdsSeat r = false -> d ∉ unlicensed s.
Proof.
  intros (Hs&_&_) Hd Hr. rewrite elem_of_unlicensed by done. intros (_&t&E&_). rewrite lookup_holding, Hd in E. cbn in E.
  by rewrite Hr in E.
Qed.

Lemma Licensed_holder s d : Licensed s d = true -> exists r, devices s !! d = Some r /\ holdsSeat r = true /\ d ∉ unlicensed s.
Proof.
  unfold Licensed. destruct (devices s !! d) as [r|]; [|done]. rewrite andb_true_iff, negb_true_iff, bool_decide_eq_false. eauto.
Qed.

(** ** What the callback does *)

Section callback.
Context (Secrets : option Box) {B : Type} `{LineBook B}.

Abbreviation Live := (Server.Live (B := B)).

Definition unbound (ep : Endpoint) : Endpoint := mkEndpoint (Registry.User ep) (DeviceID ep) "" 0.

(** The lines, where there is a manager. *)
Definition book_ok (l : Live) : Prop := forall b, book l = Some b -> lb_good b.
Definition line_in (l : Live) (user : string) : option Line := book l ≫= fun b => lb_get b user.

(** The line [registerLine] gives the book. *)
Definition registers (s : Store) (id : string) : option Line :=
  match PBXCredential' Secrets s id with
  | Some (inr cred) => match SeatState s id with SeatUnlicensed => None | _ => Some (normalised (line_of_credential cred)) end
  | _ => None
  end.

(** What stays as it is. *)
Definition same_frame (l l' : Live) : Prop :=
  store l' = store l /\ AppLeg.auth (leg l') = AppLeg.auth (leg l) /\ byDevice (table l') = byDevice (table l)
  /\ (wf (table l) -> wf (table l')) /\ (is_Some (book l') <-> is_Some (book l)) /\ (book_ok l -> book_ok l').

Lemma same_frame_refl l : same_frame l l.
Proof. done. Qed.

Lemma same_frame_trans l1 l2 l3 : same_frame l1 l2 -> same_frame l2 l3 -> same_frame l1 l3.
Proof.
  intros (a1&a2&a3&a4&a5&a6) (b1&b2&b3&b4&b5&b6).
  split; [congruence|]. split; [congruence|]. split; [congruence|]. split; [auto|]. split; [by rewrite b5|auto].
Qed.

Lemma line_in_delete v u l : book_ok l ->
  line_in (delete_line v l) u = if decide (u = v) then None else line_in l u.
Proof.
  intros Hb. unfold line_in, delete_line. cbn. destruct (book l) as [b|] eqn:Eb; cbn; [|by case_decide].
  apply lb_get_delete. by apply Hb.
Qed.

Lemma frame_delete_line v l : same_frame l (delete_line v l).
Proof.
  unfold same_frame, delete_line, book_ok. cbn. split; [done|]. split; [done|]. split; [done|]. split; [done|].
  split; [by rewrite fmap_is_Some|]. intros Hb b'. destruct (book l) as [b|]; [|done]. cbn. intros [= <-].
  by apply lb_delete_good, Hb.
Qed.

(** One device that lost its seat. *)
Lemma seat_lost_spec n l id : let l' := seat_lost n l id in
  same_frame l l'
  /\ (forall u, byUser (table l') !! u = if decide (UserFor (store l) id = Some u) then unbound <$> byUser (table l) !! u
                                         else byUser (table l) !! u)
  /\ (book_ok l -> forall u, line_in l' u = if decide (UserFor (store l) id = Some u) then None else line_in l u).
Proof.
  unfold seat_lost. cbn [store act]. destruct (UserFor (store l) id) as [v|]; cbn zeta.
  - split; [|split].
    + set (e1 := Disconnected _ _). set (e2 := Emitted _ _ _).
      eapply (same_frame_trans _ (on_table (Registry.Unregister v) (act e1 l))).
      * unfold same_frame, book_ok, on_table. cbn. rewrite Unregister_devices.
        split; [done|]. split; [done|]. split; [done|]. split; [apply wf_Unregister|done].
      * exact (frame_delete_line v (on_table (Registry.Unregister v) (act e1 l))).
    + intros u. cbn. rewrite Unregister_lookup. destruct (decide (u = v)) as [->|]; [by rewrite decide_True|].
      rewrite decide_False by congruence. done.
    + intros Hb u. etrans; [exact (line_in_delete v u (on_table (Registry.Unregister v) l) Hb)|].
      destruct (decide (u = v)) as [->|]; [by rewrite decide_True|]. by rewrite decide_False by congruence.
  - split; [done|]. split; [done|]. done.
Qed.

Definition users_of (s : Store) (ids : list string) : list string := omap (UserFor s) ids.

Lemma lost_fold n ids : forall l, let l' := foldl (seat_lost n) l ids in
  same_frame l l'
  /\ (forall u, byUser (table l') !! u = if decide (u ∈ users_of (store l) ids) then unbound <$> byUser (table l) !! u
                                         else byUser (table l) !! u)
  /\ (book_ok l -> forall u, line_in l' u = if decide (u ∈ users_of (store l) ids) then None else line_in l u).
Proof.
  induction ids as [|id ids IH]; intros l; cbn [foldl users_of omap list_omap].
  { split; [apply same_frame_refl|]. split; [|intros _]; intros u; by rewrite decide_False by (by intros ?%not_elem_of_nil). }
  destruct (seat_lost_spec n l id) as (F1&T1&B1). destruct (IH (seat_lost n l id)) as (F2&T2&B2).
  assert (store (seat_lost n l id) = store l) as Es by apply F1. rewrite Es in T2, B2. fold (users_of (store l) ids).
  split; [by eapply same_frame_trans|]. unfold users_of in *. cbn. split.
  - intros u. rewrite T2, T1. destruct (UserFor (store l) id) as [v|].
    + destruct (decide (Some v = Some u)) as [[= ->]|Hne].
      * rewrite (decide_True (P := u ∈ u :: _)) by (by left). destruct (decide _); [|done].
        by destruct (byUser (table l) !! u).
      * destruct (decide (u ∈ omap _ ids)) as [Hi|Hi]; [rewrite decide_True by (by right)|rewrite decide_False by set_solver]; done.
    + rewrite (decide_False (P := None = Some u)) by done. done.
  - intros Hb u. rewrite B2, B1 by (done || by apply F1). destruct (UserFor (store l) id) as [v|].
    + destruct (decide (Some v = Some u)) as [[= ->]|Hne].
      * rewrite (decide_True (P := u ∈ u :: _)) by (by left). by destruct (decide _).
      * destruct (decide (u ∈ omap _ ids)) as [Hi|Hi]; [rewrite decide_True by (by right)|rewrite decide_False by set_solver]; done.
    + rewrite (decide_False (P := None = Some u)) by done. done.
Qed.

(** Every user has a name. *)
Definition named (m : records) : Prop := forall d r, m !! d = Some r -> Enroll.User r <> "".

Lemma registers_user s id ln : registers s id = Some ln ->
  exists r, devices s !! id = Some r /\ PbxLine.User ln = Enroll.User r.
Proof.
  unfold registers, PBXCredential'. destruct (devices s !! id) as [r|]; [|done]. cbn. destruct (PBXLine_ r) as [lr|]; [|done]. cbn.
  unfold credential. destruct Secrets as [box|]; [|done]. destruct (Open_ box id (SecretEnc lr)) as [secret|]; [|done].
  intros Hl. exists r. split; [done|]. by destruct (SeatState s id); try done; injection Hl as <-; rewrite User_normalised.
Qed.

(** [registerLine], where the line of the device is read. *)
Lemma registerLine_spec now id l : named (devices (store l)) -> let l' := registerLine Secrets now id l in
  same_frame l l' /\ table l' = table l
  /\ (book_ok l -> is_Some (book l) -> forall u, line_in l' u = match registers (store l) id with
       | Some ln => if decide (u = PbxLine.User ln) then Some ln else line_in l u
       | None => line_in l u
       end).
Proof.
  intros Hn. cbn zeta. unfold registerLine. destruct (book l) as [b|] eqn:Eb.
  2: { split; [done|]. split; [done|]. by intros _ [??]. }
  pose proof (registers_user (store l) id) as Hu. unfold registers in *.
  destruct (PBXCredential' Secrets (store l) id) as [[|c]|] eqn:Ec; [split; [done|]; split; [done|]; done| |split; [done|]; split; [done|]; done].
  assert (SeatState (store l) id <> SeatUnlicensed ->
    let l' := with_book (Some (lb_put (line_of_credential c) now b)) l in
    same_frame l l' /\ table l' = table l
    /\ (book_ok l -> is_Some (Some b) -> forall u, line_in l' u =
        if decide (u = PbxLine.User (normalised (line_of_credential c))) then Some (normalised (line_of_credential c)) else line_in l u)) as Hp.
  { intros Hs. cbn zeta. split; [|split; [done|]].
    - unfold same_frame, book_ok. cbn. rewrite Eb. split; [done|]. split; [done|]. split; [done|]. split; [done|].
      split; [done|]. intros Hb b' [= <-]. by apply lb_put_good, Hb.
    - intros Hb _ u. unfold line_in. cbn. rewrite Eb. cbn. rewrite lb_get_put, User_normalised; [done|by apply Hb|].
      destruct (Hu (normalised (line_of_credential c))) as (r&Hr&E).
      { by destruct (SeatState (store l) id). }
      rewrite User_normalised in E. rewrite E. by eapply Hn. }
  destruct (SeatState (store l) id); [by apply Hp|split; [done|split; done]|by apply Hp].
Qed.

(** The devices that gained a seat: the line of a user is the one registered for
    a device of that user, if there is any. *)
Lemma gained_fold now ids : forall l, named (devices (store l)) -> let l' := foldl (seat_gained Secrets now) l ids in
  same_frame l l' /\ table l' = table l
  /\ (book_ok l -> is_Some (book l) -> forall u,
       (exists id ln, id ∈ ids /\ registers (store l) id = Some ln /\ PbxLine.User ln = u /\ line_in l' u = Some ln)
       \/ ((forall id ln, id ∈ ids -> registers (store l) id = Some ln -> PbxLine.User ln <> u) /\ line_in l' u = line_in l u)).
Proof.
  induction ids as [|id ids IH]; intros l Hn; cbn [foldl].
  { split; [done|]. split; [done|]. intros _ _ u. right. split; [|done]. by intros ?? ?%not_elem_of_nil. }
  destruct (registerLine_spec now id l Hn) as (F1&T1&B1). set (l1 := seat_gained Secrets now l id) in *.
  assert (same_frame l l1) as F1' by exact F1. assert (table l1 = table l) as T1' by exact T1.
  assert (store l1 = store l) as Es by apply F1'. destruct (IH l1) as (F2&T2&B2); [by rewrite Es|]. rewrite Es in B2.
  split; [by eapply same_frame_trans|]. split; [congruence|]. intros Hb Hs u.
  destruct (B2 (proj2 (proj2 (proj2 (proj2 (proj2 F1')))) Hb)) with (u := u) as [(id'&ln&Hi&Hr&Hu&Hl)|(Hno&Hl)]; [by apply F1'| |].
  - left. exists id', ln. split; [by right|done].
  - specialize (B1 Hb Hs u). replace (line_in (registerLine Secrets now id l) u) with (line_in l1 u) in B1 by done.
    rewrite B1 in Hl. destruct (registers (store l) id) as [ln|] eqn:Er.
    + destruct (decide (u = PbxLine.User ln)) as [->|Hne].
      * left. exists id, ln. split; [by left|done].
      * right. split; [|done]. intros id' ln' [->|Hi]%elem_of_cons Hr; [congruence|by eapply Hno].
    + right. split; [|done]. intros id' ln' [->|Hi]%elem_of_cons Hr; [congruence|by eapply Hno].
Qed.

(** The devices whose seat a step took, by the user who still has the device,
    and those a step gave one. *)
Definition dropped (s s' : Store) (u : string) : Prop :=
  exists id, Licensed s id = true /\ Licensed s' id = false /\ UserFor s' id = Some u.
Definition regained (s s' : Store) (u : string) (ln : Line) : Prop :=
  exists id, Licensed s id = false /\ Licensed s' id = true /\ registers s' id = Some ln /\ PbxLine.User ln = u.

Lemma follow_spec now s' l : stepped (store l) s' -> named (devices s') -> let l' := follow Secrets now s' l in
  same_frame (with_store s' l) l'
  /\ (forall u, dropped (store l) s' u /\ byUser (table l') !! u = unbound <$> byUser (table l) !! u
                \/ ~ dropped (store l) s' u /\ byUser (table l') !! u = byUser (table l) !! u)
  /\ (book_ok l -> is_Some (book l) -> forall u,
       (exists ln, regained (store l) s' u ln /\ line_in l' u = Some ln)
       \/ (~ exists ln, regained (store l) s' u ln)
          /\ (dropped (store l) s' u /\ line_in l' u = None \/ ~ dropped (store l) s' u /\ line_in l' u = line_in l u)).
Proof.
  intros [_ _ (cs&Ht&Hc)] Hn. cbn zeta. unfold follow. rewrite Ht, drop_app_length.
  destruct Hc as [[-> HL]|(c&->&Hlost&Hgained)]; cbn [foldl].
  { assert (forall u, ~ dropped (store l) s' u) as Hd by (intros u (id&H1&H2&_); by rewrite HL, H1 in H2).
    split; [done|]. split; [intros u; right; by split|]. intros _ _ u. right. split; [|by right].
    intros (ln&id&H1&H2&_). by rewrite HL, H1 in H2. }
  unfold seatHooks. set (l0 := with_store s' l).
  destruct (lost_fold (c_Seats c) (Lost c) l0) as (F1&T1&B1). set (l1 := foldl (seat_lost _) l0 (Lost c)) in *.
  assert (store l1 = s') as Es by apply F1. destruct (gained_fold now (Gained c) l1) as (F2&T2&B2); [by rewrite Es|].
  assert (forall u, u ∈ users_of s' (Lost c) <-> dropped (store l) s' u) as Hdr.
  { intros u. unfold users_of. rewrite list_elem_of_omap. split.
    - intros (id&[H1 H2]%Hlost&Hu). by exists id.
    - intros (id&H1&H2&Hu). exists id. split; [|done]. by apply Hlost. }
  split; [by eapply same_frame_trans|]. split.
  - intros u. rewrite T2, T1. cbn [store with_store l0].
    destruct (decide (u ∈ users_of s' (Lost c))) as [Hd|Hd]; rewrite Hdr in Hd; [by left|by right].
  - intros Hb Hs u. specialize (B1 Hb u). cbn [store with_store l0] in B1.
    destruct (B2 (proj2 (proj2 (proj2 (proj2 (proj2 F1)))) Hb)) with (u := u) as [(id&ln&Hi&Hr&Hu&Hl)|(Hno&Hl)]; [by apply F1| |].
    + left. exists ln. split; [|done]. apply Hgained in Hi as [H1 H2]. rewrite Es in Hr. by exists id.
    + right. rewrite Es in Hno. split.
      * intros (ln&id&H1&H2&Hr&Hu). apply (Hno id ln); [by apply Hgained|done..].
      * rewrite Hl, B1. destruct (decide (u ∈ users_of s' (Lost c))) as [Hd|Hd]; rewrite Hdr in Hd; [by left|by right].
Qed.

End callback.
