(* ===== verification/ServerProps.v ===== *)
(** Properties of the server wired together (Server): whom a call can reach,
    and that a server that has lived is as one that has just started. *)

From S2P Require Import Prelude Text Limiter Registry SipAuth AppLeg AppLegProps PbxLine LineBook Enroll EnrollSeats EnrollProps Admin Server ServerSeats.
Open Scope Z_scope.

(** ** Users and credentials *)

(** A name in lower case, so that no two names differ in case only. *)
Definition lower (u : string) : Prop := ToLower (T u) = T u.

Record good_record (d : string) (r : record) : Prop := {
  g_id : d <> ""; g_user : Enroll.User r <> ""; g_lower : lower (Enroll.User r);
  g_hash : rHA1 r <> "" -> TokenHash r <> "";
}.

Definition good (m : records) : Prop := forall d r, m !! d = Some r -> good_record d r.

Lemma good_insert m d r : good m -> good_record d r -> good (<[d := r]> m).
Proof. intros Hm Hr d' r' [[<- <-]|[_ E]]%lookup_insert_Some; [done|by apply Hm]. Qed.

(** An update that leaves the name and the credential alone. *)
Lemma good_keep d r r' : good_record d r -> Enroll.User r' = Enroll.User r -> rHA1 r' = rHA1 r -> TokenHash r' = TokenHash r ->
  good_record d r'.
Proof. intros [? ? ? ?] E1 E2 E3. split; by rewrite ?E1, ?E2, ?E3. Qed.

Lemma good_update d (f : record -> enroll_error + record) s m : good (devices s) ->
  (forall r r', devices s !! d = Some r -> f r = inr r' -> good_record d r -> good_record d r') ->
  snd (update_mut d f s) = inr m -> good m.
Proof.
  intros Hg Hf. unfold update_mut. destruct (devices s !! d) as [r|] eqn:E; [|by intros [= <-]].
  destruct (f r) as [|r'] eqn:Ef; [done|]. intros [= <-]. apply good_insert; [done|]. eapply Hf; [done..|]. by apply Hg.
Qed.

Lemma good_named m : good m -> named m.
Proof. intros Hg d r E. by apply (g_user d), Hg. Qed.

(** A store in use: its invariant, its callback and its names. *)
Record solid (s : Store) : Prop := { s_inv : inv s; s_hooked : hooked s = true; s_good : good (devices s) }.

(** What a commit does to a store in use. *)
Definition commits {A} (mutate : mut A) (leaver : option string) (s : Store) (r : Store * A * option enroll_error) : Prop :=
  let '(s', a, e) := r in
  a = fst (mutate s) /\ stepped s s' /\ solid s'
  /\ match e with
     | Some er => s' = s
     | None => exists m, snd (mutate s) = inr m /\ change leaver s m /\ s' = after s m
     end.

Lemma commit_commits {A} (mutate : mut A) leaver ok s : solid s ->
  (forall m, snd (mutate s) = inr m -> change leaver s m) -> (forall m, snd (mutate s) = inr m -> good m) ->
  commits mutate leaver s (commit mutate ok s).
Proof.
  intros [Hi Hh Hg] Hc Hm. pose proof (commit_cases mutate ok s) as H. destruct (commit mutate ok s) as [[s' a] e].
  destruct H as [-> H]. split; [done|]. destruct (snd (mutate s)) as [er|m] eqn:E.
  { destruct H as [-> ->]. split; [by apply stepped_refl|done]. }
  destruct (ok || _); destruct H as [-> ->]; [|split; [by apply stepped_refl|done]].
  pose proof (stepped_after leaver s m Hi Hh (Hc m eq_refl)) as Hs. split; [done|]. split; [|eauto].
  split; [apply Hs|apply Hs|]. rewrite devices_after. by apply Hm.
Qed.

(** What the other devices see of a change, and the one it is of: each is there
    with its user, and in its seat. *)
Lemma change_quiet leaver s m d r : inv s -> change leaver s m -> leaver <> Some d -> devices s !! d = Some r ->
  exists r', devices (after s m) !! d = Some r' /\ Enroll.User r' = Enroll.User r
    /\ (Licensed s d = true -> Licensed (after s m) d = true).
Proof.
  intros Hi Hc Hl Hd.
  assert (Licensed s d = true -> Licensed (after s m) d = true) as HL.
  { intros HL. unfold after. rewrite Licensed_fireSeats. by eapply written_licensed. }
  rewrite devices_after. destruct Hc as [|d0 r0 Hd0|d0 r0 r0' Hd0 Hu|d0 ->]; [by eauto|..].
  - exists r. split; [|done]. by rewrite lookup_insert_ne by congruence.
  - destruct (decide (d0 = d)) as [->|].
    + exists r0'. rewrite lookup_insert_eq. split; [done|]. split; [congruence|done].
    + exists r. by rewrite lookup_insert_ne.
  - exists r. by rewrite lookup_delete_ne by congruence.
Qed.

(** ** Each operation of the store *)

Section store.
Context (sha256hex : string -> string) (md5hex : text -> text) (Secrets : option Box).
Context (sha256hex_nonempty : forall t, sha256hex t <> "").

Lemma good_credential d r tok ha1 now : d <> "" -> Enroll.User r <> "" -> lower (Enroll.User r) ->
  good_record d (set_credential (hashToken sha256hex tok) ha1 now r).
Proof. intros Hd Hu Hl. split; [done..|]. intros _. apply sha256hex_nonempty. Qed.

Lemma issue_good d user tok now s m : good (devices s) -> d <> "" -> user <> "" -> lower user ->
  snd (issue_mut sha256hex md5hex d user tok now s) = inr m -> good m.
Proof.
  intros Hg Hd Hu Hl. unfold issue_mut.
  assert (forall r b, Enroll.User r = user -> good (<[d := set_credential (hashToken sha256hex tok) (credential_ha1 md5hex s d tok) now
            (if b : bool then set_seat_since now r else r)]> (devices s))) as Hc.
  { intros r b <-. apply good_insert; [done|]. by apply good_credential; destruct b. }
  destruct (devices s !! d) as [r|] eqn:E.
  - destruct (decide (Enroll.User r <> user)) as [|Hu']; [done|]. destruct (_ && negb (freeSeatLocked s)); [done|].
    intros [= <-]. apply Hc. by apply dec_stable.
  - destruct (userTakenLocked user d (devices s)); [done|]. destruct (_ && negb (freeSeatLocked s)); [done|].
    intros [= <-]. exact (Hc (new_record user "" now 0) true eq_refl).
Qed.

Lemma claim_good order want random now s m : good (devices s) ->
  snd (claim_mut sha256hex md5hex order want random now s) = inr m -> good m.
Proof.
  intros Hg. unfold claim_mut. destruct (claim_find order (devices s) want now None) as [[d r]|] eqn:Ef; [|done].
  destruct (_ && negb (freeSeatLocked s)); [done|]. destruct random as [tok|]; [|done]. intros [= <-].
  apply claim_find_sound in Ef as [Hx|(_&Hd&_)]; [done|]. apply good_insert; [done|]. destruct (Hg _ _ Hd) as [H1 H2 H3 _].
  assert (good_record d (set_credential (hashToken sha256hex tok) (credential_ha1 md5hex s d tok) now
    (if negb (holdsSeat r) then set_seat_since now r else r))) as Hc by (apply good_credential; by destruct (negb (holdsSeat r))).
  by eapply good_keep.
Qed.

(** Every write of the store is a commit, and keeps the names good. *)
Lemma issue_commits d user tok now ok s : solid s -> now <> 0 -> d <> "" -> user <> "" -> lower user ->
  commits (issue_mut sha256hex md5hex d user tok now) None s (commit (issue_mut sha256hex md5hex d user tok now) ok s).
Proof.
  intros Hs Hn Hd Hu Hl. apply commit_commits; [done|intros m; by apply issue_change|].
  intros m. apply issue_good; [by apply s_good|done..].
Qed.

Lemma create_commits d user desc now ok s : solid s -> d <> "" -> user <> "" -> lower user ->
  commits (create_mut d user desc now) None s (commit (create_mut d user desc now) ok s).
Proof.
  intros Hs Hd Hu Hl. apply commit_commits; [done|intros m; by apply create_change|].
  intros m. unfold create_mut. destruct (bool_decide _); [done|]. destruct (userTakenLocked _ _ _); [done|].
  intros [= <-]. apply good_insert; [by apply s_good|by split].
Qed.

Lemma mint_commits d code now ok s : solid s ->
  commits (mint_mut sha256hex d code now) None s (commit (mint_mut sha256hex d code now) ok s).
Proof.
  intros Hs. apply commit_commits; [done|intros m; by apply mint_change|].
  intros m. unfold mint_mut. destruct (devices s !! d) as [r|] eqn:E; [|done]. intros [= <-].
  apply good_insert; [by apply s_good|]. by apply (good_keep _ _ _ (s_good _ Hs _ _ E)).
Qed.

Lemma claim_commits order want random now ok s : solid s -> now <> 0 ->
  commits (claim_mut sha256hex md5hex order want random now) None s (commit (claim_mut sha256hex md5hex order want random now) ok s).
Proof.
  intros Hs Hn. apply commit_commits; [done|intros m; by apply claim_change|]. intros m. apply claim_good. by apply s_good.
Qed.

Lemma config_commits d clean pre now ok s : solid s ->
  commits (config_mut d clean pre now) None s (commit (config_mut d clean pre now) ok s).
Proof.
  intros Hs. apply commit_commits; [done|intros m; by apply config_change|].
  intros m. unfold config_mut. destruct (devices s !! d) as [r|] eqn:E; [|done]. destruct (negb _); [done|].
  destruct (decide _); [done|]. intros [= <-]. apply good_insert; [by apply s_good|]. by apply (good_keep _ _ _ (s_good _ Hs _ _ E)).
Qed.

Lemma line_commits d ln pre now ok s : solid s -> commits (line_mut d ln pre now) None s (commit (line_mut d ln pre now) ok s).
Proof.
  intros Hs. apply commit_commits; [done|intros m; by apply line_change|].
  intros m. unfold line_mut. destruct (devices s !! d) as [r|] eqn:E; [|done]. destruct (negb _); [done|]. intros [= <-].
  apply good_insert; [by apply s_good|]. by apply (good_keep _ _ _ (s_good _ Hs _ _ E)).
Qed.

(** The updates of one record that leave its user, credential and seat alone. *)
Lemma update_commits d (f : record -> enroll_error + record) ok s : solid s ->
  (forall r r', f r = inr r' -> Enroll.User r' = Enroll.User r /\ TokenHash r' = TokenHash r /\ Revoked r' = Revoked r
     /\ SeatSince r' = SeatSince r /\ rHA1 r' = rHA1 r) ->
  commits (update_mut d f) None s (commit (update_mut d f) ok s).
Proof.
  intros Hs Hf. apply commit_commits; [done| |].
  - intros m. apply update_mut_change. intros r r' _ E. destruct (Hf r r' E) as (?&?&?&?&?). done.
  - intros m. apply good_update; [by apply s_good|]. intros r r' _ E Hg. destruct (Hf r r' E) as (?&?&?&?&?). by eapply good_keep.
Qed.

Lemma revoke_commits d now ok s : solid s ->
  let f := fun r => if Revoked r then inl errNoChange else inr (set_updated now (set_seat_since 0 (set_revoked true r))) in
  commits (update_mut d f) (Some d) s (commit (update_mut d f) ok s).
Proof.
  intros Hs f. apply commit_commits; [done|intros m; by apply revoke_change|].
  intros m. apply good_update; [by apply s_good|]. unfold f. intros r r' _. destruct (Revoked r); [done|].
  intros [= <-] Hg. by eapply good_keep.
Qed.

Lemma purge_commits d ok s : solid s -> commits (purge_mut d) (Some d) s (commit (purge_mut d) ok s).
Proof.
  intros Hs. apply commit_commits; [done|intros m; by apply purge_change|].
  intros m. unfold purge_mut. destruct (devices s !! d); intros [= <-]; [|by apply s_good].
  intros d' r' [_ E]%lookup_delete_Some. by apply (s_good _ Hs).
Qed.

End store.

(** ** Whom a call can reach *)

Section reach.
Context (sha256hex : string -> string) (md5hex : text -> text) (Secrets : option Box).
Context (sha256hex_nonempty : forall t, sha256hex t <> "").
Context {B : Type} `{LineBook B}.
Context (cfg : AppLeg.Config) (is_ipv6 : text -> bool) (IsDigest : text -> bool) (ParseCredentials : text -> option SipAuth.Credentials).

Abbreviation Live := (Server.Live (B := B)).

(** The location table against the store: each of its users is that of its
    device, the device index is its exact inverse, and a user with a contact has
    a device with a seat. [x]: a device that is leaving, whose entry is not
    looked at. *)
Record tied (x : option string) (l : Live) : Prop := {
  t_solid : solid (store l);
  t_auth : is_Some (AppLeg.auth (leg l));
  t_wf : wf (table l);
  t_index : forall u ep, byUser (table l) !! u = Some ep -> DeviceID ep <> "" /\ byDevice (table l) !! DeviceID ep = Some u;
  t_device : forall u ep, byUser (table l) !! u = Some ep -> Some (DeviceID ep) <> x ->
    exists r, devices (store l) !! DeviceID ep = Some r /\ Enroll.User r = u;
  t_seat : forall u ep, byUser (table l) !! u = Some ep -> Some (DeviceID ep) <> x -> Registry.Contact ep <> "" ->
    Licensed (store l) (DeviceID ep) = true;
}.

(** [tied] looks at the store and the app leg only. *)
Lemma tied_ext x l l' : store l' = store l -> leg l' = leg l -> tied x l -> tied x l'.
Proof.
  intros Es El [H1 H2 H3 H4 H5 H6]. assert (table l' = table l) as Et by (unfold table; by rewrite El).
  split; rewrite ?Es, ?El, ?Et; done.
Qed.

Lemma tied_act x e l : tied x l -> tied x (act e l).
Proof. by apply tied_ext. Qed.

Lemma tied_delete_book x u l : tied x l -> tied x (delete_line u l).
Proof. by apply tied_ext. Qed.

Lemma tied_line x now id l : tied x l -> tied x (registerLine Secrets now id l).
Proof.
  intros Ht. destruct (registerLine_spec Secrets now id l) as (F&E&_); [by apply good_named, s_good, (t_solid x)|].
  destruct F as (F1&F2&_). destruct Ht as [H1 H2 H3 H4 H5 H6]. split; rewrite ?F1, ?F2, ?E; done.
Qed.

(** A write to the store leaves the table tied, but for the devices it takes
    away or revokes. *)
Lemma tied_follow x now s' l : tied None l -> stepped (store l) s' -> solid s' ->
  (forall d r, Some d <> x -> devices (store l) !! d = Some r -> exists r', devices s' !! d = Some r' /\ Enroll.User r' = Enroll.User r
     /\ (Licensed (store l) d = true -> Licensed s' d = false -> Revoked r' = false)) ->
  tied x (follow Secrets now s' l).
Proof.
  intros [H1 H2 H3 H4 H5 H6] Hst Hs Hk.
  destruct (follow_spec Secrets now s' l Hst) as ((F1&F2&F3&F4&_)&T&_); [by apply good_named, s_good|]. cbn [store with_store] in F1.
  set (l' := follow Secrets now s' l) in *.
  assert (forall u ep, byUser (table l') !! u = Some ep -> exists ep0, byUser (table l) !! u = Some ep0
    /\ DeviceID ep = DeviceID ep0 /\ (Registry.Contact ep = "" \/ (ep = ep0 /\ ~ dropped (store l) s' u))) as Hold.
  { intros u ep. destruct (T u) as [[_ ->]|[Hd ->]]; [|by eauto 6].
    destruct (byUser (table l) !! u) as [ep0|]; [|done]. intros [= <-]. exists ep0. split; [done|]. split; [done|by left]. }
  split.
  - by rewrite F1.
  - rewrite F2. exact H2.
  - by apply F4.
  - intros u ep (ep0&E&Ed&_)%Hold. rewrite F3, Ed. by apply H4.
  - intros u ep (ep0&E&Ed&_)%Hold Hx. rewrite Ed in *. destruct (H5 u ep0 E) as (r&Er&Eu); [done|].
    destruct (Hk _ _ Hx Er) as (r'&Er'&Eu'&_). exists r'. rewrite F1. split; [done|congruence].
  - intros u ep (ep0&E&Ed&Hc)%Hold Hx Hn. destruct Hc as [|[-> Hd]]; [done|]. rewrite F1.
    destruct (H5 u ep0 E) as (r&Er&Eu); [done|]. destruct (Hk _ _ Hx Er) as (r'&Er'&Eu'&Hr).
    destruct (Licensed s' (DeviceID ep0)) eqn:EL; [done|]. exfalso. pose proof (H6 u ep0 E ltac:(done) Hn) as HL.
    apply Hd. exists (DeviceID ep0). split; [done|]. split; [done|]. unfold UserFor. rewrite Er'. cbn.
    rewrite (Hr HL eq_refl). by rewrite Eu', Eu.
Qed.

(** A commit that takes no device away. *)
Lemma tied_commit {A} (mutate : mut A) now s' a e l : tied None l -> commits mutate None (store l) (s', a, e) ->
  tied None (follow Secrets now s' l).
Proof.
  intros Ht (_&Hst&Hs&He). apply tied_follow; [done..|]. intros d r _ Hd. destruct e as [er|].
  - subst s'. exists r. split; [done|]. split; [done|]. intros HL HL'. congruence.
  - destruct He as (m&_&Hc&->). destruct (change_quiet None (store l) m d r) as (r'&Hr'&Hu&HL); [apply (t_solid None l Ht)|done..|].
    exists r'. split; [done|]. split; [done|]. intros H1 H2. rewrite (HL H1) in H2. done.
Qed.

(** One that may take [id] away. *)
Lemma tied_leave {A} (mutate : mut A) id now s' a e l : tied None l -> commits mutate (Some id) (store l) (s', a, e) ->
  tied (Some id) (follow Secrets now s' l).
Proof.
  intros Ht (_&Hst&Hs&He). apply tied_follow; [done..|]. intros d r Hx Hd. destruct e as [er|].
  - subst s'. exists r. split; [done|]. split; [done|]. intros HL HL'. congruence.
  - destruct He as (m&_&Hc&->). destruct (change_quiet (Some id) (store l) m d r) as (r'&Hr'&Hu&HL); [apply (t_solid None l Ht)|done|congruence|done|].
    exists r'. split; [done|]. split; [done|]. intros H1 H2. rewrite (HL H1) in H2. done.
Qed.

(** The hooks. *)
Lemma tied_provision id u l r : tied None l -> devices (store l) !! id = Some r -> Enroll.User r = u ->
  tied None (OnIssue id u l).
Proof.
  intros [H1 H2 H3 H4 H5 H6] Hd Hu. pose proof (s_good _ H1 _ _ Hd) as [Hid _ _ _].
  assert (forall v ep, byUser (table l) !! v = Some ep -> DeviceID ep = id -> v = u) as Hback.
  { intros v ep Hv E. destruct (H5 v ep Hv) as (r'&Hr'&Hu'); [done|]. rewrite E, Hd in Hr'. congruence. }
  assert (forall ep, byUser (table l) !! u = Some ep -> DeviceID ep = id) as Hfwd.
  { intros ep Hep. destruct (H5 u ep Hep) as (r'&Hr'&Hu'); [done|]. destruct (s_inv _ H1) as (_&_&Hq). apply (Hq _ _ r' r); [done|done|congruence]. }
  split; [done|done|by apply wf_Provision|..].
  - intros v ep. cbn. rewrite (decide_True (P := id <> "")) by done. intros [[<- <-]|[Hne Hv]]%lookup_insert_Some; cbn.
    { split; [done|]. by rewrite lookup_insert_eq. }
    destruct (H4 v ep Hv) as [Hne' Hdev]. split; [done|].
    rewrite lookup_insert_ne by (intros E; apply Hne; symmetry; by apply (Hback v ep Hv)). case_decide; [|done].
    rewrite lookup_delete_ne; [done|]. intros E. destruct (byUser (table l) !! u) as [ep0|] eqn:E0; [|done]. cbn in E.
    apply Hne. symmetry. apply (Hback v ep Hv). rewrite <- E. by apply Hfwd.
  - intros v ep. cbn. intros [[<- <-]|[Hne Hv]]%lookup_insert_Some _; cbn; [by eauto|by apply (H5 v ep)].
  - intros v ep. cbn. intros [[<- <-]|[Hne Hv]]%lookup_insert_Some _; cbn; [|by apply (H6 v ep)].
    destruct (byUser (table l) !! u) as [ep0|] eqn:E0; cbn; [|done]. intros Hc. rewrite <- (Hfwd ep0 eq_refl).
    by apply (H6 u ep0).
Qed.

Lemma tied_forget now id l : tied (Some id) l -> exists l', forget now id l = Some l' /\ tied None l'.
Proof.
  intros [H1 H2 H3 H4 H5 H6]. unfold forget, LookupDevice. destruct (byDevice (table l) !! id) as [u|] eqn:E; cbn.
  - destruct (wf_devices _ H3 _ _ E) as (ep&Hep&Hd&Hne). rewrite Hep. cbn. eexists. split; [reflexivity|].
    assert (Registry.User (Registry.viewLocked now ep) = u) as ->.
    { rewrite <- (wf_user _ H3 _ _ Hep). unfold Registry.viewLocked. case_decide; [|done]. by destruct (negb _). }
    assert (forall v e, delete u (byUser (table l)) !! v = Some e -> byUser (table l) !! v = Some e /\ DeviceID e <> id) as Hold.
    { intros v e [Hv He]%lookup_delete_Some. split; [done|]. intros Ex. destruct (H4 v e He) as [_ Hb]. rewrite Ex in Hb. congruence. }
    split; [done|done|by apply wf_Deprovision|..]; intros v e [Hv Hx]%Hold.
    + destruct (H4 v e Hv) as [H7 H8]. split; [done|]. cbn. rewrite Hep, decide_True by (by rewrite Hd).
      rewrite lookup_delete_ne; [done|]. rewrite Hd. congruence.
    + intros _. apply (H5 v e); [done|congruence].
    + intros _. apply (H6 v e); [done|congruence].
  - eexists. split; [reflexivity|]. split; [done..| |]; intros u ep Hu _.
    + apply (H5 u ep); [done|]. intros [= Ex]. destruct (H4 u ep Hu) as [_ Hb]. rewrite Ex in Hb. congruence.
    + apply (H6 u ep); [done|]. intros [= Ex]. destruct (H4 u ep Hu) as [_ Hb]. rewrite Ex in Hb. congruence.
Qed.

(** *** The handlers *)

Lemma store_follow now s' l : stepped (store l) s' -> solid s' -> store (follow Secrets now s' l) = s'.
Proof. intros Hst Hs. by destruct (follow_spec Secrets now s' l Hst) as ((F1&_)&_); [by apply good_named, s_good|]. Qed.

Lemma follow_same now l : follow Secrets now (store l) l = l.
Proof. unfold follow. rewrite drop_all. by destruct l. Qed.

Lemma issue_token_cases d user token random now ok s :
  let '(s', r) := IssueToken sha256hex md5hex d user token random now ok s in
  (s' = s /\ exists e, r = inl e)
  \/ exists tok e, commit (issue_mut sha256hex md5hex d user tok now) ok s = (s', tt, e)
       /\ r = match e with Some e => inl e | None => inr tok end.
Proof.
  unfold IssueToken. destruct (decide _); [left; eauto|]. destruct (if decide (token = "") then _ else _) as [e|tok]; [left; eauto|].
  destruct (commit (issue_mut sha256hex md5hex d user tok now) ok s) as [[s' []] e] eqn:E. destruct e as [e|]; right; exists tok; eauto.
Qed.

(** Once a device is there, its user is the one asked for. *)
Lemma issue_user d user tok now s m r : snd (issue_mut sha256hex md5hex d user tok now s) = inr m ->
  devices s !! d = Some r -> Enroll.User r = user.
Proof.
  unfold issue_mut. intros Hm Hd. rewrite Hd in Hm. destruct (decide (Enroll.User r <> user)) as [|Hu]; [done|]. by apply dec_stable.
Qed.

(** After a commit, a device that was there is there with its user. *)
Lemma commits_device {A} (mutate : mut A) now s' a e l d r : tied None l -> commits mutate None (store l) (s', a, e) ->
  devices (store l) !! d = Some r ->
  exists r', devices (store (follow Secrets now s' l)) !! d = Some r' /\ Enroll.User r' = Enroll.User r.
Proof.
  intros Ht (_&Hst&Hs&He) Hd. rewrite store_follow by done. destruct e as [er|]; [subst; eauto|]. destruct He as (m&_&Hc&->).
  destruct (change_quiet None (store l) m d r) as (r'&?&?&_); [apply (t_solid None l Ht)|done..|]. eauto.
Qed.

Definition timely (w : Draws) : Prop := forall n, clock w n <> 0.

Lemma tied_issue_and_mint w i ex id desc l r : tied None l -> timely w -> devices (store l) !! id = Some r ->
  (in_Token i = "" -> Enroll.User r = in_User i) -> in_User i <> "" -> lower (in_User i) ->
  tied None (fst (issue_and_mint sha256hex md5hex Secrets w i ex id desc l)).
Proof.
  intros Ht Hw Hd Hu Hne Hl. unfold issue_and_mint.
  assert (forall l1 tok r1, tied None l1 -> devices (store l1) !! id = Some r1 -> Enroll.User r1 = in_User i ->
    tied None (fst (
      let '(s, rr) := MintCode sha256hex id (code_bytes w) (clock w 2) (saved w 2) (store l1) in
      let l := follow Secrets (clock w 2) s l1 in
      match rr with
      | inl e => (l, refuse (storeError e))
      | inr (code, expires) =>
          let l := if ex then l else act (Emitted "device_created" id "") l in
          let l := act (Emitted "code_issued" id "") l in
          (OnIssue id (in_User i) l, (done_with 201, OCreated id (in_User i) desc tok code expires))
      end))) as Hmint.
  { intros l1 tok r1 Ht1 Hd1 Hu1. unfold MintCode.
    pose proof (mint_commits sha256hex id (randomCode (code_bytes w)) (clock w 2) (saved w 2) (store l1) (t_solid None l1 Ht1)) as Hc.
    destruct (commit _ (saved w 2) (store l1)) as [[s a] e] eqn:E. pose proof (tied_commit _ (clock w 2) s a e l1 Ht1 Hc) as Ht2.
    destruct (commits_device _ (clock w 2) s a e l1 id r1 Ht1 Hc Hd1) as (r2&Hr2&Hu2). destruct e as [e|]; [done|]. cbn [fst].
    destruct ex; (eapply (tied_provision id (in_User i) _ r2); [eapply tied_ext; [..|exact Ht2]; done|exact Hr2|congruence]). }
  destruct (decide (in_Token i <> "")) as [Htok|Htok].
  2: { apply (Hmint l None r); [done|done|]. apply Hu. by apply dec_stable. }
  pose proof (issue_token_cases id (in_User i) (in_Token i) None (clock w 1) (saved w 1) (store l)) as Hi.
  destruct (IssueToken _ _ _ _ _ _ _ _ _) as [s rr]. destruct Hi as [[-> [e ->]]|(tok&e&E&->)]; [by rewrite follow_same|].
  pose proof (issue_commits sha256hex md5hex sha256hex_nonempty id (in_User i) tok (clock w 1) (saved w 1) (store l) (t_solid None l Ht)
    (Hw 1%nat) (g_id _ _ (s_good _ (t_solid None l Ht) _ _ Hd)) Hne Hl) as Hc. rewrite E in Hc.
  pose proof (tied_commit _ (clock w 1) s tt e l Ht Hc) as Ht1.
  destruct (commits_device _ (clock w 1) s tt e l id r Ht Hc Hd) as (r1&Hr1&Hu1).
  destruct e as [e|]; [done|]. apply (Hmint _ _ r1); [done|done|]. rewrite Hu1.
  destruct Hc as (_&_&_&m&Hm&_). by eapply issue_user.
Qed.

Lemma tied_post_device w body l l' a : tied None l -> timely w -> Forall (fun d => d <> "") (ids w) ->
  (forall i, body = inr i -> lower (in_User i)) ->
  post_device sha256hex md5hex Secrets w body l = Some (l', a) -> tied None l'.
Proof.
  intros Ht Hw Hids Hl. unfold post_device. destruct body as [|i]; [by intros [= <- _]|]. specialize (Hl i eq_refl).
  destruct (device_fault i) eqn:Ef; [by intros [= <- _]|].
  assert (in_User i <> "") as Hne by (intros E; unfold device_fault in Ef; by rewrite decide_True in Ef).
  set (ex := bool_decide (in_DeviceID i <> "") && _).
  destruct (ex && bool_decide (in_Token i = "")) eqn:E1; [by intros [= <- _]|]. destruct (_ && no_seat_left _); [by intros [= <- _]|].
  destruct ex eqn:Eex.
  - intros [= E]. apply andb_true_iff in Eex as [_ [r Hr]%bool_decide_eq_true].
    apply (f_equal fst) in E. cbn in E. rewrite <- E. eapply tied_issue_and_mint; [done|done|exact Hr| |done|done].
    intros Hx. by rewrite Hx, bool_decide_eq_true_2 in E1.
  - unfold Create. rewrite decide_False by done. destruct (if decide (in_DeviceID i = "") then _ else _) as [id|] eqn:Eid; [|done]. cbn.
    assert (id <> "") as Hid.
    { destruct (decide (in_DeviceID i = "")) as [|Hn]; [|by injection Eid as <-].
      revert Eid. clear - Hids. induction Hids as [|d ds Hd _ IH]; [done|]. cbn. destruct (devices (store l) !! d); [done|]. by intros [= <-]. }
    pose proof (create_commits id (in_User i) (in_Description i) (clock w 0) (saved w 0) (store l) (t_solid None l Ht) Hid Hne Hl) as Hc.
    destruct (commit _ (saved w 0) (store l)) as [[s u] e] eqn:E. pose proof (tied_commit _ (clock w 0) s u e l Ht Hc) as Ht1.
    destruct e as [e|]; cbn; [by intros [= <- _]|]. intros [= E2]. apply (f_equal fst) in E2. cbn in E2. rewrite <- E2.
    destruct Hc as (_&Hst&Hs&m&Hm&_&->).
    assert (m = <[id := new_record (in_User i) (in_Description i) (clock w 0) (clock w 0)]> (devices (store l))) as Em.
    { revert Hm. unfold create_mut. destruct (bool_decide (is_Some _)); [done|]. destruct (userTakenLocked _ _ _); [done|]. by intros [= <-]. }
    eapply tied_issue_and_mint; [exact Ht1|done| | |done|done].
    + rewrite store_follow by done. rewrite devices_after, Em. apply lookup_insert_eq.
    + done.
Qed.

Lemma tied_delete_device w id purge l l' a : tied None l ->
  delete_device Secrets w id purge l = Some (l', a) -> tied None l'.
Proof.
  intros Ht. unfold delete_device. destruct (negb _); [by intros [= <- _]|]. destruct (if decide (purge = "") then _ else _) as [p|]; [|by intros [= <- _]].
  assert (exists mut, let '(s, found, e) := if p then Purge id (saved w 0) (store l) else Revoke id (clock w 0) (saved w 0) (store l) in
    exists e0, commits mut (Some id) (store l) (s, found, e0)
      /\ (found = false -> devices (store l) !! id = None) /\ (e <> None -> s = store l)) as [mut Hm].
  { destruct p.
    - exists (purge_mut id). unfold Purge.
      pose proof (purge_commits id (saved w 0) (store l) (t_solid None l Ht)) as Hc.
      destruct (commit _ _ _) as [[s found] e]. exists e. split; [done|]. destruct Hc as (->&_&_&He).
      split; [unfold purge_mut; by destruct (devices (store l) !! id)|]. by destruct e.
    - eexists. unfold Revoke. pose proof (revoke_commits id (clock w 0) (saved w 0) (store l) (t_solid None l Ht)) as Hc. cbn zeta in Hc.
      destruct (commit _ _ _) as [[s found] e]. exists e. split; [exact Hc|]. destruct Hc as (->&_&_&He).
      split; [unfold update_mut; destruct (devices (store l) !! id) as [r|]; [|done]; by destruct (Revoked r)|].
      intros Hn. by destruct e. }
  destruct (if p then _ else _) as [[s found] e]. destruct Hm as (e0&Hc&Hf&He).
  pose proof (tied_leave _ id (clock w 0) s found e0 l Ht Hc) as Hl.
  destruct e as [e|]. { intros [= <- _]. rewrite He by done. by rewrite follow_same. }
  destruct found; cbn [negb].
  - destruct (tied_forget (clock w 1) id _ Hl) as (l1&E&Ht1). unfold OnPurge, OnRevoke. rewrite E.
    destruct p; cbn; intros [= <- _]; by repeat apply tied_act.
  - intros [= <- _]. destruct Hc as (_&Hst&Hs&Hcm). destruct Hl as [H1 H2 H3 H4 H5 H6].
    assert (forall u ep, byUser (table (follow Secrets (clock w 0) s l)) !! u = Some ep -> DeviceID ep <> id) as Hne.
    { intros u ep Hu. destruct (follow_spec Secrets (clock w 0) s l Hst) as (_&T&_); [by apply good_named, s_good|].
      assert (exists ep0, byUser (table l) !! u = Some ep0 /\ DeviceID ep = DeviceID ep0) as (ep0&E0&->).
      { destruct (T u) as [[_ E]|[_ E]]; rewrite E in Hu; [|by eauto]. destruct (byUser (table l) !! u) as [ep0|]; [|done].
        injection Hu as <-. by exists ep0. }
      intros E. destruct (t_device None l Ht u ep0 E0) as (r&Hr&_); [done|]. rewrite E, Hf in Hr; done. }
    split; [done..| |]; intros u ep Hu _; [apply (H5 u ep)|apply (H6 u ep)]; try done; intros [= E]; by eapply Hne.
Qed.

(** The handlers that write one record and hook at most the line. *)
Lemma tied_patch_device w id body pre l : tied None l -> tied None (fst (patch_device Secrets w id body pre l)).
Proof.
  intros Ht. unfold patch_device. destruct (negb _); [done|]. destruct body as [|[desc|]]; [done| |done]. destruct (negb _); [done|].
  destruct (recordMatch pre) as [|ms]; [done|]. unfold SetDescription.
  match goal with |- context [commit (update_mut id ?f) _ _] =>
    assert (commits (update_mut id f) None (store l) (commit (update_mut id f) (saved w 0) (store l))) as Hc end.
  { apply update_commits; [apply (t_solid None l Ht)|]. intros r r'. destruct (negb _); [done|]. case_decide; [done|]. by intros [= <-]. }
  destruct (commit _ _ _) as [[s found] e].
  pose proof (tied_commit _ (clock w 0) s found e l Ht Hc) as Ht1. destruct (no_change e); [done|]. destruct found; [by apply tied_act|done].
Qed.

Lemma tied_cancel_code w id l : tied None l -> tied None (fst (cancel_code Secrets w id l)).
Proof.
  intros Ht. unfold cancel_code. destruct (negb _); [done|]. unfold CancelCode.
  match goal with |- context [commit (update_mut id ?f) _ _] =>
    assert (commits (update_mut id f) None (store l) (commit (update_mut id f) (saved w 0) (store l))) as Hc end.
  { apply update_commits; [apply (t_solid None l Ht)|]. intros r r'. case_decide; [done|]. by intros [= <-]. }
  destruct (commit _ _ _) as [[s found] e]. pose proof (tied_commit _ (clock w 0) s found e l Ht Hc) as Ht1.
  destruct (no_change e); [done|]. destruct found; [by apply tied_act|done].
Qed.

Lemma tied_post_code w id l : tied None l -> tied None (fst (post_code sha256hex Secrets w id l)).
Proof.
  intros Ht. unfold post_code. destruct (negb _); [done|]. unfold MintCode.
  pose proof (mint_commits sha256hex id (randomCode (code_bytes w)) (clock w 0) (saved w 0) (store l) (t_solid None l Ht)) as Hc.
  destruct (commit _ _ _) as [[s a] e]. pose proof (tied_commit _ (clock w 0) s a e l Ht Hc) as Ht1. destruct e; [done|by apply tied_act].
Qed.

Lemma tied_set_config w id body pre l : tied None l -> tied None (fst (set_config Secrets w id body pre l)).
Proof.
  intros Ht. unfold set_config. destruct (negb _); [done|]. destruct body as [|[ssids|]]; [done| |done]. destruct (_ <? _); [done|].
  destruct (bad_ssid _); [done|]. destruct pre as [|v]; [done|]. unfold SetConfig.
  match goal with |- context [commit (config_mut id ?c ?p ?n) _ _] =>
    pose proof (config_commits id c p n (saved w 0) (store l) (t_solid None l Ht)) as Hc end.
  destruct (commit _ _ _) as [[s [c ch]] e]. pose proof (tied_commit _ (clock w 0) s (c, ch) e l Ht Hc) as Ht1.
  destruct (no_change e); [done|]. destruct ch; [by do 2 apply tied_act|done].
Qed.

Lemma set_line_cases d dn du secret pre now ok s : let '(s', r) := SetPBXLine Secrets d dn du secret pre now ok s in
  (s' = s /\ exists e, r = inl e)
  \/ exists sealed box v e, Secrets = Some box /\ Seal box d secret = Some sealed
      /\ commit (line_mut d (Enroll.mkLine (trim dn) (trim du) sealed now) pre now) ok s = (s', v, e)
      /\ r = match e with Some e => inl e | None => inr v end.
Proof.
  unfold SetPBXLine. destruct (decide _); [left; eauto|]. destruct Secrets as [box|]; [|left; eauto].
  destruct (Seal box d secret) as [sealed|] eqn:Es; [|left; eauto]. destruct (commit _ ok s) as [[s' v] e] eqn:E.
  destruct e as [e|]; right; exists sealed, box, v; eauto 6.
Qed.

Lemma tied_set_line w id body pre l : tied None l -> tied None (fst (set_line Secrets w id body pre l)).
Proof.
  intros Ht. unfold set_line. destruct (negb _); [done|]. destruct body as [|i]; [done|]. destruct (line_fault i); [done|].
  destruct (negb _); [done|]. destruct (recordMatch pre) as [|ms]; [done|].
  pose proof (set_line_cases id (in_DN i) (in_DigestUser i) (in_Secret i) ms (clock w 0) (saved w 0) (store l)) as Hs.
  destruct (SetPBXLine _ _ _ _ _ _ _ _ _) as [s r]. destruct Hs as [[-> [e ->]]|(sealed&box&v&e&_&_&E&->)].
  { cbn. by rewrite follow_same. }
  pose proof (line_commits id (Enroll.mkLine (trim (in_DN i)) (trim (in_DigestUser i)) sealed (clock w 0)) ms (clock w 0) (saved w 0) (store l) (t_solid None l Ht)) as Hc.
  rewrite E in Hc. pose proof (tied_commit _ (clock w 0) s v e l Ht Hc) as Ht1. destruct e as [e|]; [done|].
  destruct (PBXCredential' _ _ _) as [[|cred]|]; [done| |done]. cbn. unfold OnPBXLine, pbxLineHook. cbn [book act].
  destruct (book _); [apply tied_line|]; by apply tied_act.
Qed.

Lemma tied_delete_line w id pre l : tied None l -> tied None (fst (delete_pbx_line Secrets w id pre l)).
Proof.
  intros Ht. unfold delete_pbx_line. destruct (negb _); [done|]. destruct (recordMatch pre) as [|ms]; [done|]. unfold DeletePBXLine.
  match goal with |- context [commit (update_mut id ?f) _ _] =>
    assert (commits (update_mut id f) None (store l) (commit (update_mut id f) (saved w 0) (store l))) as Hc end.
  { apply update_commits; [apply (t_solid None l Ht)|]. intros r r'. destruct (negb _); [done|]. destruct (PBXLine_ r); [|done].
    by intros [= <-]. }
  destruct (commit _ _ _) as [[s found] e]. pose proof (tied_commit _ (clock w 0) s found e l Ht Hc) as Ht1.
  destruct (no_change e); [done|]. destruct found; [|done]. cbn. unfold OnPBXLine, pbxLineHook. cbn [book act].
  destruct (book _); [|by apply tied_act]. destruct (UserFor _ _); [apply tied_delete_book|]; by apply tied_act.
Qed.

(** What a claim hands out is a device of the store and its user. *)
Lemma claim_device order want random now s m : snd (claim_mut sha256hex md5hex order want random now s) = inr m ->
  exists r, devices s !! cl_DeviceID (fst (claim_mut sha256hex md5hex order want random now s)) = Some r
    /\ Enroll.User r = cl_User (fst (claim_mut sha256hex md5hex order want random now s)).
Proof.
  unfold claim_mut. destruct (claim_find order (devices s) want now None) as [[d r]|] eqn:Ef; [|done].
  destruct (_ && negb (freeSeatLocked s)); [done|]. destruct random as [tok|]; [|done]. intros _. cbn.
  apply claim_find_sound in Ef as [Hx|(_&Hd&_)]; [done|]. exists r. split; [done|]. by destruct (negb (holdsSeat r)).
Qed.

Lemma tied_enrol w src code l : tied None l -> timely w -> tied None (fst (enrol sha256hex md5hex Secrets w src code l)).
Proof.
  intros Ht Hw. unfold enrol. destruct (allow src (clock w 0) (lim l)) as [x allowed]. set (l0 := with_lim x l).
  assert (tied None l0) as Ht0 by (by apply (tied_ext None l)). destruct (negb allowed); [done|]. destruct code as [code|]; [|done].
  destruct (decide _); [done|]. unfold Claim.
  pose proof (claim_commits sha256hex md5hex sha256hex_nonempty (order w) (hashToken sha256hex (NormalizeCode code)) (Server.token w) (clock w 1)
    (saved w 0) (store l0) (t_solid None l0 Ht0) (Hw 1%nat)) as Hc.
  destruct (commit _ _ _) as [[s c] e]. pose proof (tied_commit _ (clock w 1) s c e l0 Ht0 Hc) as Ht1.
  destruct e as [e|]; [by destruct e|]. cbn [fst].
  assert (exists r, devices (store l0) !! cl_DeviceID c = Some r /\ Enroll.User r = cl_User c) as (r&Hr&Hu).
  { destruct Hc as (->&_&_&m&Hm&_). by eapply claim_device. }
  destruct (commits_device _ (clock w 1) s c None l0 _ r Ht0 Hc Hr) as (r'&Hr'&Hu').
  unfold OnClaim. apply tied_line, tied_act. eapply (tied_provision _ _ _ r'); [by apply tied_act|done|congruence].
Qed.

Lemma tied_licence now n l : tied None l -> tied None (licence_changed Secrets now n l).
Proof.
  intros Ht. unfold licence_changed. set (l0 := act _ l). assert (tied None l0) as Ht0 by by apply tied_act.
  change (store l) with (store l0). destruct (t_solid None l0 Ht0) as [Hi Hh Hg].
  pose proof (stepped_seats n (store l0) Hi Hh) as Hst. apply tied_follow; [done|done| |].
  - split; [apply Hst|apply Hst|by rewrite devices_SetSeats].
  - intros d r _ Hd. exists r. rewrite devices_SetSeats. split; [done|]. split; [done|]. intros (r'&Hr'&Hs&_)%Licensed_holder _.
    assert (r' = r) as -> by congruence. unfold holdsSeat in Hs. by apply andb_true_iff in Hs as [_ ?%negb_true_iff].
Qed.

Context (Hmm : MinExpires cfg <= MaxExpires cfg) (Hmin : - 2 ^ 31 <= MinExpires cfg) (Hmax : MaxExpires cfg < 2 ^ 31).

(** A REGISTER moves no entry to another device, and gives a contact only to
    that of a device with a seat. *)
Lemma register_contacts now req l rg a : tied None l ->
  AppLeg.outcome cfg is_ipv6 md5hex IsDigest ParseCredentials (store_secret (store l)) now req (leg l) rg a ->
  forall u ep, byUser rg !! u = Some ep -> exists ep0, byUser (table l) !! u = Some ep0
    /\ DeviceID ep = DeviceID ep0 /\ (Registry.Contact ep = "" \/ ep = ep0 \/ Licensed (store l) (DeviceID ep0) = true).
Proof.
  intros Ht Ho u ep. inversion Ho as [? _|? ? _ _ _|user c Hs _ E1|user c n ep1 reg' Hs _ _ _ Hep Hby]; subst.
  1, 2: by eauto 6.
  - change (AppLeg.reg (leg l)) with (table l). rewrite Unregister_lookup. case_decide; [|by eauto 6].
    subst u. destruct (byUser (table l) !! to_string user) as [ep0|]; [|done]. intros [= <-]. exists ep0. cbn. auto.
  - change (AppLeg.reg (leg l)) with (table l) in *. rewrite Hby. intros [[<- <-]|[_ Hu]]%lookup_insert_Some; [|by eauto 6].
    exists ep1. split; [done|]. split; [done|]. right; right. destruct Ht as [Hso [au Hau] _ _ Hdev _].
    destruct Hs as [_ Hs]. destruct (Hs au Hau) as (e&Hv&Hf).
    destruct (Verify_device md5hex IsDigest ParseCredentials (store l) now req au e Hv) as (d&r&Hd&Hu&Hr&Hun&Hha).
    destruct (Hdev _ _ Hep) as (r1&Hr1&Hu1); [done|].
    destruct (s_good _ Hso _ _ Hd) as [_ _ Hl Hth], (s_good _ Hso _ _ Hr1) as [_ _ Hl1 _].
    assert (Enroll.User r = Enroll.User r1) as Huu.
    { unfold EqualFold in Hf. apply bool_decide_eq_true in Hf. unfold lower in Hl, Hl1. rewrite Hu, T_to_string in Hl.
      rewrite Hu1, T_to_string in Hl1. rewrite Hu, Hu1. congruence. }
    destruct (s_inv _ Hso) as (_&_&Hq). assert (d = DeviceID ep1) as <- by (by apply (Hq _ _ r r1)).
    unfold Licensed. rewrite Hd. unfold holdsSeat. rewrite Hr, (bool_decide_eq_true_2 _ (Hth Hha)), bool_decide_eq_false_2; done.
Qed.

Lemma tied_register nonce now req l : tied None l ->
  exists l', serve sha256hex md5hex Secrets cfg is_ipv6 IsDigest ParseCredentials (EvRegister nonce now req) l = Some l' /\ tied None l'.
Proof.
  intros Ht. pose proof Ht as [H1 [au Hau] H3 H4 H5 H6]. cbn [serve].
  destruct (onRegister_spec cfg is_ipv6 md5hex IsDigest ParseCredentials (store_secret (store l)) nonce now req (leg l) H3 Hmm Hmin Hmax)
    as (st&a&E&Hwf&Ho). rewrite E. cbn. eexists. split; [reflexivity|].
  destruct (onRegister_frame _ _ _ _ _ _ _ _ _ _ _ _ E) as [Hd Ha].
  pose proof (register_contacts now req l _ a Ht Ho) as Hold.
  split; [done|apply Ha; eauto|done|..]; intros u ep (ep0&E0&Edev&Hc)%Hold.
  - unfold table. cbn. rewrite Hd, Edev. by apply H4.
  - rewrite Edev. apply H5. done.
  - rewrite Edev. intros _ Hn. destruct Hc as [|[->|]]; [done|by apply (H6 u ep0)|done].
Qed.

(** *** Everything *)

(** What the properties ask of an event: the clock is not the zero time, a drawn
    device id is not empty, and a device is created for a user in lower case. *)
Definition proper (e : event) : Prop :=
  match e with
  | EvPostDevice w body => timely w /\ Forall (fun d => d <> "") (ids w) /\ forall i, body = inr i -> lower (in_User i)
  | EvEnrol w _ _ => timely w
  | _ => True
  end.

Abbreviation serve := (serve sha256hex md5hex Secrets cfg is_ipv6 IsDigest ParseCredentials).
Abbreviation serve_all := (serve_all sha256hex md5hex Secrets cfg is_ipv6 IsDigest ParseCredentials).

Lemma tied_serve e l l' : tied None l -> proper e -> serve e l = Some l' -> tied None l'.
Proof.
  intros Ht Hp. destruct e as [w body|w id purge|w id body pre|w id|w id|w id body pre|w id body pre|w id pre|w src code|now n|nonce now req];
    cbn [Server.serve].
  - destruct (post_device _ _ _ w body l) as [[l1 a]|] eqn:E; [|done]. intros [= <-]. destruct Hp as (?&?&?). by eapply tied_post_device.
  - destruct (delete_device _ w id purge l) as [[l1 a]|] eqn:E; [|done]. intros [= <-]. by eapply tied_delete_device.
  - intros [= <-]. by apply tied_patch_device.
  - intros [= <-]. by apply tied_cancel_code.
  - intros [= <-]. by apply tied_post_code.
  - intros [= <-]. by apply tied_set_config.
  - intros [= <-]. by apply tied_set_line.
  - intros [= <-]. by apply tied_delete_line.
  - intros [= <-]. by apply tied_enrol.
  - intros [= <-]. by apply tied_licence.
  - destruct (tied_register nonce now req l Ht) as (l1&E&Ht1). cbn [Server.serve] in E. rewrite E. by intros [= <-].
Qed.

Lemma tied_serve_all es : forall l l', tied None l -> Forall proper es -> serve_all es l = Some l' -> tied None l'.
Proof.
  induction es as [|e es IH]; intros l l' Ht Hp; cbn; [by intros [= <-]|]. apply Forall_cons in Hp as [Hp Hps].
  destruct (serve e l) as [l1|] eqn:E; [|done]. cbn. apply IH; [|done]. by eapply tied_serve.
Qed.

(** No event faults: a handler that gives no answer is still drawing an id. *)
Lemma serve_answers e l : tied None l -> proper e ->
  is_Some (serve e l) \/ exists w i, e = EvPostDevice w (inr i) /\ in_DeviceID i = ""
                                   /\ forall d, d ∈ ids w -> is_Some (devices (store l) !! d).
Proof.
  intros Ht Hp. destruct e as [w body|w id purge| | | | | | | | |nonce now req]; try (left; by eexists).
  - cbn. unfold post_device. destruct body as [|i]; [left; by eexists|]. destruct (device_fault i); [left; by eexists|].
    destruct (_ && bool_decide (in_Token i = "")); [left; by eexists|]. destruct (_ && no_seat_left _); [left; by eexists|].
    destruct (bool_decide (in_DeviceID i <> "") && _); [left; by eexists|]. unfold Create.
    destruct (decide (in_User i = "")); [left; by eexists|].
    destruct (decide (in_DeviceID i = "")) as [Ei|Ei].
    + destruct (draw_id (ids w) (devices (store l))) as [d|] eqn:Ed; cbn.
      { destruct (commit _ _ _) as [[s u] e]. left. by destruct e; eexists. }
      right. exists w, i. split; [done|]. split; [done|]. intros d Hd. revert Ed. induction Hd as [d ds|d d' ds Hd IH]; cbn.
      * destruct (devices (store l) !! d); [by eexists|done].
      * destruct (devices (store l) !! d'); [done|]. done.
    + cbn. destruct (commit _ _ _) as [[s u] e]. left. by destruct e; eexists.
  - left. cbn. unfold delete_device. destruct (negb _); [by eexists|]. destruct (if decide (purge = "") then _ else _) as [p|]; [|by eexists].
    destruct (if p then _ else _) as [[s found] e] eqn:E. destruct e; [by eexists|]. destruct found; [|by eexists]. cbn.
    assert (tied (Some id) (follow Secrets (clock w 0) s l)) as Hl.
    { destruct p.
      - unfold Purge in E. pose proof (purge_commits id (saved w 0) (store l) (t_solid None l Ht)) as Hc. rewrite E in Hc.
        by eapply tied_leave.
      - unfold Revoke in E. pose proof (revoke_commits id (clock w 0) (saved w 0) (store l) (t_solid None l Ht)) as Hc. cbn zeta in Hc.
        destruct (commit _ _ _) as [[s1 f1] e1]. injection E as -> _ _. by eapply tied_leave. }
    destruct (tied_forget (clock w 1) id _ Hl) as (l1&E1&_). unfold OnPurge, OnRevoke. rewrite E1. destruct p; by eexists.
  - left. destruct (tied_register nonce now req l Ht) as (l1&E&_). rewrite E. by eexists.
Qed.

(** *** Start *)

Lemma elem_of_Devices s now d : d ∈ Devices s now -> exists r, devices s !! d_DeviceID d = Some r /\ d = Enroll.viewLocked s now (d_DeviceID d) r.
Proof.
  unfold Devices. rewrite merge_sort_Permutation. change (map ?f ?l) with (f <$> l).
  intros ([id r]&->&Hr%elem_of_map_to_list)%list_elem_of_fmap. by exists r.
Qed.

Lemma tied_provision_all ds now : forall l, tied None l -> (forall d, d ∈ ds -> d ∈ Devices (store l) now) ->
  tied None (on_table (provision_all ds) l).
Proof.
  induction ds as [|d ds IH]; intros l Ht Hd; [by apply (tied_ext None l); [|destruct l as [? []]|]|].
  destruct (elem_of_Devices (store l) now d (Hd d ltac:(by left))) as (r&Hr&Ed).
  assert (forall l1, tied None l1 -> store l1 = store l -> tied None (on_table (provision_all ds) l1)) as Hn.
  { intros l1 Ht1 Es. apply IH; [done|]. intros d' Hd'. rewrite Es. apply Hd. by right. }
  destruct (d_Revoked d) eqn:Erv.
  - replace (on_table (provision_all (d :: ds)) l) with (on_table (provision_all ds) l); [by apply Hn|].
    unfold on_table, provision_all. cbn. by rewrite Erv.
  - replace (on_table (provision_all (d :: ds)) l) with (on_table (provision_all ds) (OnIssue (d_DeviceID d) (d_User d) l)).
    { apply Hn; [|done]. apply (tied_provision _ _ _ r); [done|done|]. by rewrite Ed. }
    unfold OnIssue, on_table, provision_all. cbn. by rewrite Erv.
Qed.

Abbreviation boot := (boot (B := B) Secrets).

Lemma solid_OnSeats s : inv s -> good (devices s) -> solid (OnSeats s).
Proof.
  intros ([E Hn]&Hse&Hu) Hg. split; [|done|done]. split; [|done]. split; [|done].
  destruct s. unfold recomputeSeatsLocked, OnSeats in *. cbn in *. injection E as E1 E2. by rewrite E1, E2.
Qed.

Lemma tied_boot now auth lines limit s : inv s -> good (devices s) -> is_Some auth -> tied None (boot now auth lines limit s).
Proof.
  intros Hi Hg Ha. unfold Server.boot. set (bk := _ <$> lines).
  set (l0 := mkLive (OnSeats s) (AppLeg.mkState Registry.New auth) bk (Limiter.New limit ns_minute) []).
  assert (tied None l0) as H0.
  { split; cbn; [by apply solid_OnSeats|done|apply wf_New|..]; intros u ep; by rewrite lookup_empty. }
  pose proof (tied_provision_all (Devices s now) now l0 H0 (fun d Hd => Hd)) as [H1 H2 H3 H4 H5 H6].
  split; [done|done| |done..]. destruct (wf_apply_op OpOnChange _ H3) as (r&[= <-]&Hr). exact Hr.
Qed.

(** C2: With registration authentication on, and users in lower case both in the records
    the server started over and in every device created since (the clock never at the
    zero time, no drawn id empty): a call reaches a device only while it has its seat.
    However the server has been used since it started (devices created, given tokens,
    revoked, purged, claimed or edited, with each file write succeeding or failing;
    licences changed; REGISTERs of anyone), a user whose contact is
    in the location table is the user of an enrolled device that is not revoked
    and is within the licence's seats, and the table finds a device by its id
    exactly when that device's user is in it: no device is shadowed or lost. *)
Theorem only_a_seated_device_is_reachable now auth lines limit s es l :
  inv s -> good (devices s) -> is_Some auth -> Forall proper es -> serve_all es (boot now auth lines limit s) = Some l ->
  (forall u ep, byUser (table l) !! u = Some ep -> Registry.Contact ep <> "" ->
     exists r, devices (store l) !! DeviceID ep = Some r /\ Enroll.User r = u /\ Revoked r = false /\ Licensed (store l) (DeviceID ep) = true)
  /\ (forall d u, byDevice (table l) !! d = Some u <-> exists ep, byUser (table l) !! u = Some ep /\ DeviceID ep = d)
  /\ (forall u1 u2 ep1 ep2, byUser (table l) !! u1 = Some ep1 -> byUser (table l) !! u2 = Some ep2 -> DeviceID ep1 = DeviceID ep2 -> u1 = u2).
Proof.
  intros Hi Hg Ha Hp E. pose proof (tied_serve_all es _ l (tied_boot now auth lines limit s Hi Hg Ha) Hp E) as [H1 H2 H3 H4 H5 H6].
  split; [|split].
  - intros u ep Hu Hc. destruct (H5 u ep Hu) as (r&Hr&Eu); [done|]. pose proof (H6 u ep Hu ltac:(done) Hc) as HL. exists r.
    split; [done|]. split; [done|]. split; [|done]. destruct (Licensed_holder _ _ HL) as (r'&Hr'&Hs&_). assert (r' = r) as -> by congruence.
    unfold holdsSeat in Hs. by apply andb_true_iff in Hs as [_ ?%negb_true_iff].
  - intros d u. split.
    + intros Hd. destruct (wf_devices _ H3 _ _ Hd) as (ep&Hep&Hdev&_). by exists ep.
    + intros (ep&Hep&<-). by apply H4.
  - intros u1 u2 ep1 ep2 E1 E2 Ed. destruct (H4 _ _ E1) as [_ Hb1], (H4 _ _ E2) as [_ Hb2]. rewrite Ed in Hb1. congruence.
Qed.

(** C26: The server goes on answering. With registration authentication on, and users in
    lower case both in the records the server started over and in every device created
    since (the clock never at the zero time, no drawn id empty), after any history the
    next request, licence change or REGISTER is handled to its end: no hook
    panics in the location table, and the only handler that does not finish is
    one creating a device without an id of its own while every id it has drawn
    so far is taken. *)
Theorem every_event_is_answered now auth lines limit s es l e :
  inv s -> good (devices s) -> is_Some auth -> Forall proper es -> proper e -> serve_all es (boot now auth lines limit s) = Some l ->
  is_Some (serve e l) \/ exists w i, e = EvPostDevice w (inr i) /\ in_DeviceID i = ""
                                   /\ forall d, d ∈ ids w -> is_Some (devices (store l) !! d).
Proof.
  intros Hi Hg Ha Hp Hpe E. apply serve_answers; [|done]. exact (tied_serve_all es _ l (tied_boot now auth lines limit s Hi Hg Ha) Hp E).
Qed.

End reach.
