(* ===== verification/ServerRestart.v ===== *)
(** A server that has lived is as one that has just started (Server): the
    location table and the exchange's lines follow the store. *)

From S2P Require Import Prelude Text Limiter Registry SipAuth AppLeg AppLegProps PbxLine LineBook Enroll EnrollSeats EnrollProps Admin Server ServerSeats ServerProps.
Open Scope Z_scope.

(** ** What a start would provide *)

Definition active (s : Store) (d : string) : option record := r ← devices s !! d; if Revoked r : bool then None else Some r.

Definition unlic (s : Store) (d : string) : bool := match SeatState s d with SeatUnlicensed => true | _ => false end.

(** The line of a device in force, with its user. *)
Definition lined (s : Store) (d : string) : option (string * lineRecord) :=
  r ← active s d; l ← PBXLine_ r; Some (Enroll.User r, l).

Lemma active_Some s d r : active s d = Some r <-> devices s !! d = Some r /\ Revoked r = false.
Proof.
  unfold active. destruct (devices s !! d) as [r'|]; cbn; [|naive_solver]. destruct (Revoked r') eqn:E; [|naive_solver].
  split; [done|]. intros [[= ->] ?]. congruence.
Qed.

Lemma active_same s s' d : devices s' !! d = devices s !! d -> active s' d = active s d.
Proof. unfold active. by intros ->. Qed.

Lemma seat_bits s d : match devices s !! d with
  | Some r => Licensed s d = holdsSeat r && negb (bool_decide (d ∈ unlicensed s))
              /\ unlic s d = holdsSeat r && bool_decide (d ∈ unlicensed s)
  | None => Licensed s d = false /\ unlic s d = false
  end.
Proof.
  unfold Licensed, unlic, SeatState. destruct (devices s !! d) as [r|]; [|done]. split; [done|].
  destruct (holdsSeat r); cbn; [|done]. by destruct (decide _), (bool_decide_reflect (d ∈ unlicensed s)).
Qed.

(** A seat moves in the sight of the callback: what decides whether a line is
    registered changes only with [Licensed]. *)
Definition seat_seen (s s' : Store) (d : string) : Prop :=
  (Licensed s d = true -> Licensed s' d = false -> unlic s' d = true) /\ (unlic s' d <> unlic s d -> Licensed s' d <> Licensed s d).

Lemma seat_seen_same s s' d : devices s' !! d = devices s !! d -> seat_seen s s' d.
Proof.
  intros E. unfold seat_seen. pose proof (seat_bits s d) as H. pose proof (seat_bits s' d) as H'. rewrite E in H'.
  destruct (devices s !! d) as [r|]; destruct H as [-> ->], H' as [-> ->]; [|done].
  destruct (holdsSeat r), (bool_decide (d ∈ unlicensed s)), (bool_decide (d ∈ unlicensed s')); done.
Qed.

(** The same of a record whose seat is as it was, or has just been given. *)
Lemma seat_seen_kept s s' d r r' : devices s !! d = Some r -> devices s' !! d = Some r' ->
  (holdsSeat r' = holdsSeat r \/ holdsSeat r = false /\ Licensed s' d = true) -> seat_seen s s' d.
Proof.
  intros E E' Hh. unfold seat_seen. pose proof (seat_bits s d) as H. pose proof (seat_bits s' d) as H'. rewrite E in H. rewrite E' in H'.
  destruct H as [-> ->], H' as [HL ->]. rewrite HL in *. destruct Hh as [->|[-> Hl]].
  - destruct (holdsSeat r), (bool_decide (d ∈ unlicensed s)), (bool_decide (d ∈ unlicensed s')); done.
  - destruct (holdsSeat r'), (bool_decide (d ∈ unlicensed s)), (bool_decide (d ∈ unlicensed s')); done.
Qed.

(** A device that has just taken a free seat is within the count. *)
Lemma entered_licensed leaver s m d r r' : inv s -> change leaver s m -> devices s !! d = Some r -> m !! d = Some r' ->
  holdsSeat r = false -> holdsSeat r' = true -> Licensed (after s m) d = true.
Proof.
  intros Hi Hc Hd Hm Hr Hr'. unfold after. rewrite Licensed_fireSeats.
  pose proof (inv_written leaver s m Hi Hc) as (Hs'&_&_). destruct Hi as (Hs&Hse&_).
  assert (holding (devices s) !! d = None) as Hn by (rewrite lookup_holding, Hd; cbn; by rewrite Hr).
  assert (holding m !! d = Some (seatSince r')) as Hy by (rewrite lookup_holding, Hm; cbn; by rewrite Hr').
  rewrite Licensed_iff by done. exists (seatSince r'). split; [done|].
  destruct (change_holding leaver s m Hse Hc) as [E|[(d0&t&Hf&Hd0&E)|(d0&_&E)]].
  - congruence.
  - assert (d0 = d) as -> by (destruct (decide (d0 = d)); [done|]; rewrite E, lookup_insert_ne in Hy by done; congruence).
    by eapply in_seats_entered.
  - rewrite E in Hy. apply lookup_delete_Some in Hy as [_ Hy]. congruence.
Qed.

(** ** The server against its store *)

Section restart.
Context (sha256hex : string -> string) (md5hex : text -> text) (Secrets : option Box).
Context (sha256hex_nonempty : forall t, sha256hex t <> "").
Context {B : Type} `{LineBook B}.

Abbreviation Live := (Server.Live (B := B)).
Abbreviation registers := (ServerSeats.registers Secrets).

(** A sealed secret opens. *)
Definition readable (m : records) : Prop := forall d r lr, m !! d = Some r -> PBXLine_ r = Some lr ->
  exists box secret, Secrets = Some box /\ Open_ box d (SecretEnc lr) = Some secret.

(** The line of [u] a start would register. *)
Definition wants (s : Store) (u : string) (ln : Line) : Prop :=
  exists d r, active s d = Some r /\ Enroll.User r = u /\ registers s d = Some ln.

Lemma registers_lined s d r : readable (devices s) -> active s d = Some r ->
  registers s d = if unlic s d then None else
    ulr ← lined s d;
    match credential Secrets d (fst ulr) (snd ulr) with inr c => Some (normalised (line_of_credential c)) | inl _ => None end.
Proof.
  intros Hr Ha. unfold lined. rewrite Ha. cbn. apply active_Some in Ha as [Hd _]. unfold ServerSeats.registers, PBXCredential', unlic.
  rewrite Hd. cbn. destruct (PBXLine_ r) as [lr|]; cbn; [|by destruct (SeatState s d)].
  destruct (credential Secrets d (Enroll.User r) lr); by destruct (SeatState s d).
Qed.

Lemma registers_none s d r : readable (devices s) -> active s d = Some r -> registers s d = None <-> lined s d = None \/ unlic s d = true.
Proof.
  intros Hr Ha. rewrite (registers_lined s d r) by done. destruct (unlic s d); [split; auto|].
  unfold lined. rewrite Ha. cbn. apply active_Some in Ha as [Hd _]. destruct (PBXLine_ r) as [lr|] eqn:El; cbn; [|split; auto].
  destruct (Hr d r lr Hd El) as (box&secret&Hb&Ho). unfold credential. rewrite Hb, Ho. split; [done|by intros [|]].
Qed.

(** [x]: a device whose place in the table is not looked at; [y]: a user whose
    line is not. *)
Record current (x y : option string) (l : Live) : Prop := {
  c_read : readable (devices (store l));
  c_live : forall d r, Some d <> x -> active (store l) d = Some r ->
    exists ep, byUser (table l) !! Enroll.User r = Some ep /\ DeviceID ep = d;
  c_force : forall u ep, Some (DeviceID ep) <> x -> byUser (table l) !! u = Some ep -> is_Some (active (store l) (DeviceID ep));
  c_good : book_ok l;
  c_book : is_Some (book l) -> forall u, Some u <> y -> forall ln, line_in l u = Some ln <-> wants (store l) u ln;
}.

Lemma current_ext x y l l' : store l' = store l -> leg l' = leg l -> book l' = book l -> current x y l -> current x y l'.
Proof.
  intros Es El Eb [H1 H2 H3 H4 H5]. assert (table l' = table l) as Et by (unfold table; by rewrite El).
  unfold book_ok, line_in in *. split; unfold book_ok, line_in; rewrite ?Es, ?El, ?Et, ?Eb; done.
Qed.

Lemma current_act x y e l : current x y l -> current x y (act e l).
Proof. by apply current_ext. Qed.

(** What a step must leave alone of a device. *)
Definition quiet_table (s s' : Store) (d : string) : Prop := Enroll.User <$> active s' d = Enroll.User <$> active s d.
Definition quiet_line (s s' : Store) (d : string) : Prop := lined s' d = lined s d /\ (is_Some (lined s d) -> seat_seen s s' d).

Lemma quiet_same s s' d : devices s' !! d = devices s !! d -> quiet_table s s' d /\ quiet_line s s' d.
Proof.
  intros E. unfold quiet_table, quiet_line, lined. rewrite (active_same s s' d E). split; [done|]. split; [done|].
  intros _. by apply seat_seen_same.
Qed.

Lemma lined_Some s d u lr : lined s d = Some (u, lr) <-> exists r, active s d = Some r /\ PBXLine_ r = Some lr /\ Enroll.User r = u.
Proof.
  unfold lined. destruct (active s d) as [r|]; cbn; [|naive_solver]. destruct (PBXLine_ r) as [lr'|] eqn:E; cbn; naive_solver.
Qed.

(** The line a device in force registers, by its user. *)
Lemma registers_owner s d ln : registers s d = Some ln -> is_Some (active s d) ->
  exists r, active s d = Some r /\ PbxLine.User ln = Enroll.User r /\ is_Some (lined s d) /\ unlic s d = false.
Proof.
  intros Hr [r Ha]. exists r. split; [done|]. destruct (registers_user _ _ _ _ Hr) as (r'&Hd'&E).
  pose proof (proj1 (active_Some s d r) Ha) as [Hd Hrv]. assert (r' = r) as -> by congruence. split; [done|].
  unfold ServerSeats.registers, PBXCredential' in Hr. rewrite Hd in Hr. cbn in Hr. unfold lined, unlic. rewrite Ha. cbn.
  destruct (PBXLine_ r) as [lr|]; [|done]. cbn in *. split; [by eexists|].
  destruct (credential Secrets d (Enroll.User r) lr); [done|]. by destruct (SeatState s d).
Qed.

Lemma active_unique s d1 d2 r1 r2 : inv s -> active s d1 = Some r1 -> active s d2 = Some r2 -> Enroll.User r1 = Enroll.User r2 -> d1 = d2.
Proof. intros (_&_&Hu) [E1 _]%active_Some [E2 _]%active_Some. by apply Hu. Qed.

(** A line is wanted as it was, where the device is quiet and its seat stays. *)
Lemma registers_kept s s' d : readable (devices s) -> readable (devices s') -> quiet_line s s' d -> unlic s' d = unlic s d ->
  is_Some (active s d) -> is_Some (active s' d) -> registers s' d = registers s d.
Proof.
  intros Hr Hr' [El _] Eu [r Ha] [r' Ha']. rewrite (registers_lined s d r), (registers_lined s' d r') by done. by rewrite El, Eu.
Qed.

Definition same_users (s s' : Store) : Prop := forall d r r', devices s !! d = Some r -> devices s' !! d = Some r' -> Enroll.User r' = Enroll.User r.

(** A device is none of [y]'s, before or after. *)
Definition not_of (y : option string) (s s' : Store) (d : string) : Prop :=
  (forall r, active s d = Some r -> Some (Enroll.User r) <> y) /\ (forall r, active s' d = Some r -> Some (Enroll.User r) <> y).

Lemma not_of_user y s s' d u r : same_users s s' -> Some u <> y -> Enroll.User r = u ->
  active s d = Some r \/ active s' d = Some r -> not_of y s s' d.
Proof.
  intros Hu Hy E Ha. split; intros r0 [E0 _]%active_Some; destruct Ha as [[E1 _]%active_Some|[E1 _]%active_Some].
  - congruence.
  - rewrite <- (Hu d r0 r E0 E1). congruence.
  - rewrite (Hu d r r0 E1 E0). congruence.
  - congruence.
Qed.

Lemma Licensed_active s d : Licensed s d = true -> is_Some (active s d).
Proof.
  intros (r&Hr&Hs&_)%Licensed_holder. exists r. apply active_Some. split; [done|].
  unfold holdsSeat in Hs. by apply andb_true_iff in Hs as [_ ?%negb_true_iff].
Qed.

Lemma UserFor_active s d u : UserFor s d = Some u <-> exists r, active s d = Some r /\ Enroll.User r = u.
Proof.
  unfold UserFor, active. destruct (devices s !! d) as [r|]; cbn; [|naive_solver]. destruct (Revoked r); naive_solver.
Qed.

(** A line that is wanted, and whose seat the callback has not spoken of, was
    wanted before. *)
Lemma wants_before y s s' u ln : readable (devices s) -> readable (devices s') -> same_users s s' -> Some u <> y ->
  (forall d, not_of y s s' d -> quiet_line s s' d) -> ~ (exists ln, regained Secrets s s' u ln) -> ~ dropped s s' u ->
  wants s' u ln -> wants s u ln.
Proof.
  intros Hr Hr' Hu Hy Hq Hng Hnd (d&r'&Ha'&E&Hl). destruct (registers_owner _ _ _ Hl) as (r1&Ha1&Eu&[[u1 lr] Hli]&Hun); [by eexists|].
  assert (r1 = r') as -> by congruence. pose proof (Hq d (not_of_user y s s' d u r' Hu Hy E (or_intror Ha'))) as Hql. pose proof Hql as [El Hs].
  rewrite El in Hli. pose proof Hli as (r&Ha&_&<-)%lined_Some. specialize (Hs ltac:(by eexists)).
  assert (unlic s' d = unlic s d) as Eun.
  { destruct (bool_dec (unlic s' d) (unlic s d)) as [|Hne]; [done|]. exfalso. destruct Hs as [_ Hs]. specialize (Hs Hne).
    destruct (Licensed s d) eqn:E1, (Licensed s' d) eqn:E2; try done.
    - apply Hnd. exists d. split; [done|]. split; [done|]. apply UserFor_active. eauto.
    - apply Hng. exists ln, d. split; [done|]. split; [done|]. split; [done|congruence]. }
  exists d, r. split; [done|]. split.
  - apply active_Some in Ha as [Hd _], Ha' as [Hd' _]. by rewrite <- (Hu d r r' Hd Hd').
  - rewrite <- Hl. symmetry. apply registers_kept; done.
Qed.

(** And the other way. *)
Lemma wants_after y s s' u ln : readable (devices s) -> readable (devices s') -> same_users s s' -> Some u <> y ->
  (forall d, not_of y s s' d -> quiet_line s s' d) -> ~ (exists ln, regained Secrets s s' u ln) -> ~ dropped s s' u ->
  wants s u ln -> wants s' u ln.
Proof.
  intros Hr Hr' Hu Hy Hq Hng Hnd (d&r&Ha&E&Hl). destruct (registers_owner _ _ _ Hl) as (r1&Ha1&Eu&[[u1 lr] Hli]&Hun); [by eexists|].
  assert (r1 = r) as -> by congruence. pose proof (Hq d (not_of_user y s s' d u r Hu Hy E (or_introl Ha))) as Hql. pose proof Hql as [El Hs].
  specialize (Hs ltac:(by eexists)). rewrite Hli in El. pose proof El as (r'&Ha'&_&Eu')%lined_Some.
  apply lined_Some in Hli as (r2&Ha2&_&Eu2). assert (r2 = r) as -> by congruence. assert (u1 = u) as -> by congruence.
  assert (unlic s' d = unlic s d) as Eun.
  { destruct (bool_dec (unlic s' d) (unlic s d)) as [|Hne]; [done|]. exfalso. destruct Hs as [_ Hs]. specialize (Hs Hne).
    destruct (Licensed s d) eqn:E1, (Licensed s' d) eqn:E2; try done.
    - apply Hnd. exists d. split; [done|]. split; [done|]. apply UserFor_active. eauto.
    - apply Hng. destruct (registers s' d) as [ln'|] eqn:El'.
      + exists ln', d. split; [done|]. split; [done|]. split; [done|].
        destruct (registers_owner _ _ _ El') as (r3&Ha3&->&_); [by eexists|]. congruence.
      + apply (registers_none s' d r' Hr' Ha') in El' as [El'|El']; [by rewrite El in El'|].
        pose proof (seat_bits s' d) as Hb. apply active_Some in Ha' as [Hd' _]. rewrite Hd' in Hb. destruct Hb as [HL HU].
        rewrite HU in El'. rewrite HL in E2. by destruct (holdsSeat r'), (bool_decide (d ∈ unlicensed s')). }
  exists d, r'. split; [done|]. split; [done|]. rewrite <- Hl. apply registers_kept; done.
Qed.

(** A write to the store, and what the callback does of it: the table and the
    lines still follow, but for what the write itself is about. *)
Lemma current_follow x y now s' l : current x y l -> inv (store l) -> stepped (store l) s' -> solid s' -> readable (devices s') ->
  same_users (store l) s' -> (forall d, Some d <> x -> quiet_table (store l) s' d) -> (forall d, not_of y (store l) s' d -> quiet_line (store l) s' d) ->
  current x y (follow Secrets now s' l).
Proof.
  intros [H1 H2 H3 H4 H5] Hi Hst Hs Hr Hu Hqt Hql.
  destruct (follow_spec Secrets now s' l Hst) as ((F1&_&_&_&F5&F6)&T&L); [by apply good_named, s_good|]. cbn [store with_store] in F1.
  set (l' := follow Secrets now s' l) in *.
  assert (forall u ep, byUser (table l') !! u = Some ep -> exists ep0, byUser (table l) !! u = Some ep0 /\ DeviceID ep = DeviceID ep0) as Hold.
  { intros u ep. destruct (T u) as [[_ ->]|[_ ->]]; [|by eauto]. destruct (byUser (table l) !! u) as [ep0|]; [|done].
    intros [= <-]. by exists ep0. }
  split.
  - by rewrite F1.
  - intros d r Hx Ha. rewrite F1 in Ha. specialize (Hqt d Hx). unfold quiet_table in Hqt. rewrite Ha in Hqt. cbn in Hqt.
    destruct (active (store l) d) as [r0|] eqn:Ea; [|done]. injection Hqt as Hqt. destruct (H2 d r0 Hx Ea) as (ep&Hep&Hd).
    rewrite Hqt. destruct (T (Enroll.User r0)) as [[_ ->]|[_ ->]]; rewrite Hep; cbn; eexists; (split; [done|]); done.
  - intros u ep Hx (ep0&E0&Ed)%Hold. rewrite F1, Ed in *. specialize (Hqt _ Hx). unfold quiet_table in Hqt.
    destruct (H3 u ep0 Hx E0) as [r0 Ha0]. rewrite Ha0 in Hqt. by destruct (active s' (DeviceID ep0)).
  - by apply F6.
  - intros Hb u Hy ln. assert (is_Some (book l)) as Hb0 by (by apply F5 in Hb). rewrite F1.
    destruct (L H4 Hb0 u) as [(ln0&(id&_&HL&Hrg&Hur)&->)|(Hng&[[(id&HL&HL'&HU) ->]|[Hnd ->]])].
    + destruct (registers_owner _ _ _ Hrg (Licensed_active _ _ HL)) as (r&Ha&Eu&_). split.
      * intros [= <-]. exists id, r. split; [done|]. split; [congruence|done].
      * intros (d&r2&Ha2&Eu2&Hl2). assert (d = id) as -> by (eapply (active_unique s'); [apply Hs|done|done|congruence]). congruence.
    + split; [done|]. intros (d&r2&Ha2&Eu2&Hl2). apply UserFor_active in HU as (r&Ha&Eu).
      assert (d = id) as -> by (eapply (active_unique s'); [apply Hs|done|done|congruence]).
      destruct (registers_owner _ _ _ Hl2) as (r3&_&_&Hli&Hun); [by eexists|].
      destruct (Hql id (not_of_user y (store l) s' id u r Hu Hy Eu (or_intror Ha))) as [El Hse]. rewrite El in Hli.
      destruct (Hse Hli) as [Hse1 _]. by rewrite (Hse1 HL HL') in Hun.
    + rewrite (H5 Hb0 u Hy ln). split; [by eapply wants_after|by eapply wants_before].
Qed.

(** A server that follows its store. *)
Definition follows (l : Live) : Prop := tied None l /\ current None None l.

Lemma same_users_change leaver s m : inv s -> change leaver s m -> same_users s (after s m).
Proof.
  intros (_&_&Hu) Hc d r r' Hd Hd'. rewrite devices_after in Hd'. by eapply (proj2 (change_users leaver s m Hu Hc)).
Qed.

(** A commit that writes the record of one device. *)
Lemma current_commit {A} (mutate : mut A) leaver id x y now s' a e l : solid (store l) -> current x y l ->
  commits mutate leaver (store l) (s', a, e) ->
  (forall m, snd (mutate (store l)) = inr m -> change leaver (store l) m -> (forall d, d <> id -> m !! d = devices (store l) !! d) /\ readable m
     /\ (Some id <> x -> quiet_table (store l) (after (store l) m) id)
     /\ (not_of y (store l) (after (store l) m) id -> quiet_line (store l) (after (store l) m) id)) ->
  current x y (follow Secrets now s' l).
Proof.
  intros Hso Hc (_&Hst&Hs&He) Hm. destruct e as [e|]; [subst s'; by rewrite follow_same|]. destruct He as (m&E&Hch&->).
  destruct (Hm m E Hch) as (Hd&Hr&Ht&Hl). apply current_follow; try done; [apply Hso|by rewrite devices_after| | |].
  - eapply same_users_change; [apply Hso|done].
  - intros d Hx. destruct (decide (d = id)) as [->|Hne]; [by apply Ht|]. apply quiet_same. by rewrite devices_after, Hd.
  - intros d Hn. destruct (decide (d = id)) as [->|Hne]; [by apply Hl|]. apply quiet_same. by rewrite devices_after, Hd.
Qed.

(** A record but for its settings, its code and the like. *)
Definition alike (r r' : record) : Prop :=
  Enroll.User r' = Enroll.User r /\ Revoked r' = Revoked r /\ PBXLine_ r' = PBXLine_ r.

Lemma quiet_alike s s' id r r' : devices s !! id = Some r -> devices s' !! id = Some r' -> alike r r' ->
  (holdsSeat r' = holdsSeat r \/ holdsSeat r = false /\ Licensed s' id = true) -> quiet_table s s' id /\ quiet_line s s' id.
Proof.
  intros E E' (Eu&Er&El) Hh. unfold quiet_table, quiet_line, lined, active. rewrite E, E'. cbn. rewrite Er.
  split; [by destruct (Revoked r); cbn; rewrite ?Eu|]. split; [by destruct (Revoked r); cbn; rewrite ?Eu, ?El|].
  intros _. by eapply seat_seen_kept.
Qed.

Lemma readable_insert m id r : readable m ->
  (forall lr, PBXLine_ r = Some lr -> exists box secret, Secrets = Some box /\ Open_ box id (SecretEnc lr) = Some secret) ->
  readable (<[id := r]> m).
Proof. intros Hm Hr d r' lr [[<- <-]|[_ E]]%lookup_insert_Some; [by apply Hr|by eapply Hm]. Qed.

(** A commit that changes nothing a start looks at. *)
Lemma current_quiet {A} (mutate : mut A) id x y now s' a e l : solid (store l) -> current x y l ->
  commits mutate None (store l) (s', a, e) ->
  (forall m, snd (mutate (store l)) = inr m -> m = devices (store l) \/ exists r r', devices (store l) !! id = Some r /\ alike r r'
     /\ (holdsSeat r = true -> holdsSeat r' = true) /\ m = <[id := r']> (devices (store l))) ->
  current x y (follow Secrets now s' l).
Proof.
  intros Hso Hc Hcm Hm. eapply (current_commit mutate None id); [done|done|exact Hcm|]. intros m Em Hch. specialize (Hm m Em).
  destruct Hm as [->|(r&r'&Hd&Ha&Hh&Emm)].
  - split; [done|]. split; [apply Hc|]. assert (quiet_table (store l) (after (store l) (devices (store l))) id
      /\ quiet_line (store l) (after (store l) (devices (store l))) id) as [H1 H2] by (apply quiet_same; by rewrite devices_after). by split.
  - assert (m !! id = Some r') as Hm' by (rewrite Emm; apply lookup_insert_eq).
    split; [intros d Hne; rewrite Emm; by apply lookup_insert_ne|]. split.
    + rewrite Emm. apply readable_insert; [apply Hc|]. intros lr. destruct Ha as (_&_&->). by apply (c_read _ _ _ Hc).
    + assert (quiet_table (store l) (after (store l) m) id /\ quiet_line (store l) (after (store l) m) id) as [H1 H2]; [|by split].
      apply (quiet_alike _ _ id r r'); [done|by rewrite devices_after|done|]. destruct (holdsSeat r) eqn:E1, (holdsSeat r') eqn:E2; [by left|by specialize (Hh eq_refl)|right|by left].
      split; [done|]. eapply entered_licensed; try done. apply Hso.
Qed.

(** *** The quiet handlers *)

Lemma mint_quiet id code now s m : snd (mint_mut sha256hex id code now s) = inr m ->
  m = devices s \/ exists r r', devices s !! id = Some r /\ alike r r' /\ (holdsSeat r = true -> holdsSeat r' = true) /\ m = <[id := r']> (devices s).
Proof.
  unfold mint_mut. destruct (devices s !! id) as [r|]; [|done]. intros [= <-]. right. exists r. eexists. split; [done|]. split; [|split; [|reflexivity]]; done.
Qed.

Lemma update_quiet id f s m : (forall r r', f r = inr r' -> alike r r' /\ holdsSeat r' = holdsSeat r) -> snd (update_mut id f s) = inr m ->
  m = devices s \/ exists r r', devices s !! id = Some r /\ alike r r' /\ (holdsSeat r = true -> holdsSeat r' = true) /\ m = <[id := r']> (devices s).
Proof.
  intros Hf. unfold update_mut. destruct (devices s !! id) as [r|]; [|intros [= <-]; by left].
  destruct (f r) as [|r'] eqn:E; [done|]. intros [= <-]. destruct (Hf r r' E) as [Ha Hh]. right. exists r, r'. by rewrite Hh.
Qed.

Lemma current_patch w id body pre l : follows l -> current None None (fst (patch_device Secrets w id body pre l)).
Proof.
  intros [Ht Hc]. unfold patch_device. destruct (negb _); [done|]. destruct body as [|[desc|]]; [done| |done]. destruct (negb _); [done|].
  destruct (recordMatch pre) as [|ms]; [done|]. unfold SetDescription.
  match goal with |- context [commit (update_mut id ?f) _ _] => set (g := f) end.
  assert (forall r r', g r = inr r' -> r' = set_updated (clock w 0) (set_description desc r)) as Hg.
  { intros r r'. unfold g. destruct (negb _); [done|]. case_decide; [done|]. by intros [= <-]. }
  assert (commits (update_mut id g) None (store l) (commit (update_mut id g) (saved w 0) (store l))) as Hcm.
  { apply update_commits; [apply Ht|]. by intros r r' ->%Hg. }
  destruct (commit _ _ _) as [[s found] e].
  assert (current None None (follow Secrets (clock w 0) s l)) as Hc1.
  { eapply (current_quiet _ id); [apply Ht|done|exact Hcm|]. intros m. apply update_quiet. by intros r r' ->%Hg. }
  destruct (no_change e); [done|]. destruct found; [by apply current_act|done].
Qed.

Lemma current_cancel w id l : follows l -> current None None (fst (cancel_code Secrets w id l)).
Proof.
  intros [Ht Hc]. unfold cancel_code. destruct (negb _); [done|]. unfold CancelCode.
  match goal with |- context [commit (update_mut id ?f) _ _] => set (g := f) end.
  assert (forall r r', g r = inr r' -> r' = set_updated (clock w 0) (set_code "" 0 r)) as Hg.
  { intros r r'. unfold g. case_decide; [done|]. by intros [= <-]. }
  assert (commits (update_mut id g) None (store l) (commit (update_mut id g) (saved w 0) (store l))) as Hcm.
  { apply update_commits; [apply Ht|]. by intros r r' ->%Hg. }
  destruct (commit _ _ _) as [[s found] e].
  assert (current None None (follow Secrets (clock w 0) s l)) as Hc1.
  { eapply (current_quiet _ id); [apply Ht|done|exact Hcm|]. intros m. apply update_quiet. by intros r r' ->%Hg. }
  destruct (no_change e); [done|]. destruct found; [by apply current_act|done].
Qed.

Lemma current_post_code w id l : follows l -> current None None (fst (post_code sha256hex Secrets w id l)).
Proof.
  intros [Ht Hc]. unfold post_code. destruct (negb _); [done|]. unfold MintCode.
  pose proof (mint_commits sha256hex id (randomCode (code_bytes w)) (clock w 0) (saved w 0) (store l) (t_solid None l Ht)) as Hcm.
  destruct (commit _ _ _) as [[s a] e].
  assert (current None None (follow Secrets (clock w 0) s l)) as Hc1.
  { eapply (current_quiet _ id); [apply Ht|done|exact Hcm|]. intros m. apply mint_quiet. }
  destruct e; [done|by apply current_act].
Qed.

Lemma current_set_config w id body pre l : follows l -> current None None (fst (set_config Secrets w id body pre l)).
Proof.
  intros [Ht Hc]. unfold set_config. destruct (negb _); [done|]. destruct body as [|[ssids|]]; [done| |done]. destruct (_ <? _); [done|].
  destruct (bad_ssid _); [done|]. destruct pre as [|v]; [done|]. unfold SetConfig.
  match goal with |- context [commit (config_mut id ?c ?p ?n) _ _] =>
    pose proof (config_commits id c p n (saved w 0) (store l) (t_solid None l Ht)) as Hcm;
    assert (forall m, snd (config_mut id c p n (store l)) = inr m -> m = devices (store l) \/ exists r r', devices (store l) !! id = Some r /\ alike r r'
      /\ (holdsSeat r = true -> holdsSeat r' = true) /\ m = <[id := r']> (devices (store l))) as Hq end.
  { intros m. unfold config_mut. destruct (devices (store l) !! id) as [r|]; [|done]. destruct (negb _); [done|].
    destruct (decide _); [done|]. intros [= <-]. right. exists r. eexists. split; [done|]. split; [|split; [|reflexivity]]; done. }
  destruct (commit _ _ _) as [[s [c ch]] e].
  assert (current None None (follow Secrets (clock w 0) s l)) as Hc1 by (eapply (current_quiet _ id); [apply Ht|done|exact Hcm|done]).
  destruct (no_change e); [done|]. destruct ch; [by do 2 apply current_act|done].
Qed.

Lemma current_licence now n l : follows l -> current None None (licence_changed Secrets now n l).
Proof.
  intros [Ht Hc]. unfold licence_changed. set (l0 := act _ l). change (store l) with (store l0).
  assert (current None None l0) as Hc0 by by apply current_act. destruct (t_solid None l Ht) as [Hi Hh Hg].
  change (store l) with (store l0) in *. pose proof (stepped_seats n (store l0) Hi Hh) as Hst.
  apply current_follow; try done.
  - split; [apply Hst|apply Hst|by rewrite devices_SetSeats].
  - rewrite devices_SetSeats. apply Hc.
  - intros d r r'. rewrite devices_SetSeats. congruence.
  - intros d _. apply quiet_same. by rewrite devices_SetSeats.
  - intros d _. apply quiet_same. by rewrite devices_SetSeats.
Qed.

(** *** A device that leaves *)

(** The device in force of a user, in the table and by its id. *)
Lemma active_indexed l d r : follows l -> active (store l) d = Some r ->
  exists ep, byUser (table l) !! Enroll.User r = Some ep /\ DeviceID ep = d /\ byDevice (table l) !! d = Some (Enroll.User r).
Proof.
  intros [Ht Hc] Ha. destruct (c_live _ _ _ Hc d r) as (ep&Hep&<-); [done|done|]. exists ep. split; [done|]. split; [done|].
  by apply (t_index _ _ Ht).
Qed.

(** Once the store has let a device go, the hook takes its user out. *)
Lemma current_forget now id u l : tied (Some id) l -> current (Some id) (Some u) l -> active (store l) id = None ->
  byDevice (table l) !! id = Some u -> (forall d r, active (store l) d = Some r -> Enroll.User r <> u) ->
  exists l', forget now id l = Some l' /\ current None None l'.
Proof.
  intros [H1 H2 H3 H4 H5 H6] [C1 C2 C3 C4 C5] Ha E Hu. unfold forget, LookupDevice. rewrite E. cbn.
  destruct (wf_devices _ H3 _ _ E) as (ep&Hep&Hd&Hne). rewrite Hep. cbn. eexists. split; [reflexivity|].
  assert (Registry.User (Registry.viewLocked now ep) = u) as ->.
  { rewrite <- (wf_user _ H3 _ _ Hep). unfold Registry.viewLocked. case_decide; [|done]. by destruct (negb _). }
  set (l1 := on_table (Registry.Deprovision u) l). assert (book_ok l1) as Hb1 by done.
  split.
  - done.
  - intros d r _ Hr. change (active (store l) d = Some r) in Hr. cbn. rewrite lookup_delete_ne by (by apply not_eq_sym, (Hu d r)).
    apply C2; [|done]. intros [= ->]. congruence.
  - intros v e _. cbn. intros [Hv He]%lookup_delete_Some. apply (C3 v e); [|done]. intros [= Ex].
    destruct (H4 v e He) as [_ Hb]. rewrite Ex in Hb. congruence.
  - apply (frame_delete_line u l1). done.
  - intros Hb v _ ln. change (store (delete_line u l1)) with (store l). rewrite (line_in_delete u v l1 Hb1).
    destruct (decide (v = u)) as [->|Hne'].
    + split; [done|]. intros (d&r&Hr&Er&_). by destruct (Hu d r Hr).
    + apply C5; [|congruence]. unfold delete_line in Hb. cbn in Hb. by apply fmap_is_Some in Hb.
Qed.

(** What a revoke or a purge writes: the device is not in force any more. *)
Definition puts_out (id : string) (mut : mut bool) (s : Store) : Prop := forall m, snd (mut s) = inr m ->
  (forall d, d <> id -> m !! d = devices s !! d) /\ (forall r, m !! id = Some r -> Revoked r = true /\ devices s !! id ≫= PBXLine_ = PBXLine_ r).

Lemma puts_out_after id mut s m : puts_out id mut s -> snd (mut s) = inr m -> active (after s m) id = None.
Proof.
  intros Hp E. destruct (Hp m E) as [_ Hm]. unfold active. rewrite devices_after. destruct (m !! id) as [r|]; [|done]. cbn.
  by destruct (Hm r eq_refl) as [-> _].
Qed.

Lemma current_out mut id x y now s a e l : solid (store l) -> current None None l -> commits mut (Some id) (store l) (s, a, e) -> puts_out id mut (store l) ->
  (x = Some id \/ active (store l) id = None) -> (forall r, active (store l) id = Some r -> y = Some (Enroll.User r)) ->
  current x y (follow Secrets now s l).
Proof.
  intros Hso Hc Hcm Hp Hx Hy. eapply (current_commit mut (Some id) id); [done| |exact Hcm|].
  { destruct Hc as [C1 C2 C3 C4 C5]. split; [done| | |done|]; [intros d r _; by apply C2|intros u ep _; by apply C3|intros Hb u _; by apply C5]. }
  intros m Em Hch. pose proof (puts_out_after id mut (store l) m Hp Em) as Ha. destruct (Hp m Em) as [Hd Hr]. split; [done|]. split.
  - intros d r lr Er El. destruct (decide (d = id)) as [->|Hne]; [|rewrite Hd in Er by done; by apply (c_read _ _ _ Hc d r)].
    destruct (Hr r Er) as [_ Hl]. rewrite El in Hl. destruct (devices (store l) !! id) as [r0|] eqn:E0; [|done]. by apply (c_read _ _ _ Hc id r0).
  - split.
    + intros Hne. destruct Hx as [->|Hn]; [done|]. unfold quiet_table. by rewrite Ha, Hn.
    + intros [Hn _]. destruct (active (store l) id) as [r|] eqn:E; [by destruct (Hn r eq_refl); symmetry; apply Hy|].
      unfold quiet_line, lined. rewrite Ha, E. split; [done|]. by intros [??].
Qed.

Lemma byDevice_follow now s l : stepped (store l) s -> solid s -> byDevice (table (follow Secrets now s l)) = byDevice (table l).
Proof. intros Hst Hs. by destruct (follow_spec Secrets now s l Hst) as ((_&_&F&_)&_); [by apply good_named, s_good|]. Qed.

(** A device that is not in force has no entry. *)
Lemma inactive_unindexed l id : follows l -> active (store l) id = None -> byDevice (table l) !! id = None.
Proof.
  intros [Ht Hc] Ha. destruct (byDevice (table l) !! id) as [u|] eqn:E; [|done]. exfalso.
  destruct (wf_devices _ (t_wf _ _ Ht) _ _ E) as (ep&Hep&Hd&_). destruct (c_force _ _ _ Hc u ep) as [r Hr]; [done|done|].
  rewrite Hd in Hr. congruence.
Qed.

(** After the write and the hook. *)
Lemma current_leave mut id now now' s a e l : follows l -> commits mut (Some id) (store l) (s, a, e) -> puts_out id mut (store l) ->
  (e = None \/ active (store l) id = None) ->
  exists l', forget now' id (follow Secrets now s l) = Some l' /\ current None None l'.
Proof.
  intros Hf Hcm Hp He. pose proof Hf as [Ht Hc]. pose proof (t_solid _ _ Ht) as Hso. pose proof Hcm as (_&Hst&Hs&Hm).
  pose proof (byDevice_follow now s l Hst Hs) as Eb. destruct (active (store l) id) as [r|] eqn:Ea.
  - destruct He as [->|]; [|done]. destruct Hm as (m&Em&Hch&Es). destruct (active_indexed l id r Hf Ea) as (ep&_&_&Hi).
    assert (store (follow Secrets now s l) = s) as Est by by apply store_follow.
    assert (active s id = None) as Hn by (rewrite Es; by eapply puts_out_after).
    eapply (current_forget now' id (Enroll.User r)).
    + by eapply tied_leave.
    + eapply (current_out mut id); [done|done|exact Hcm|done|by left|]. intros r0. congruence.
    + by rewrite Est.
    + by rewrite Eb.
    + rewrite Est. intros d r0 Hr0 Hu. assert (d <> id) as Hd by congruence. destruct (Hp m Em) as [Hsame _].
      rewrite Es in Hr0. apply active_Some in Hr0 as [Hr0 _]. rewrite devices_after, Hsame in Hr0 by done.
      apply active_Some in Ea as [Hr1 _]. apply Hd. destruct (s_inv _ Hso) as (_&_&Hq). by apply (Hq d id r0 r).
  - unfold forget, LookupDevice. rewrite Eb, (inactive_unindexed l id Hf Ea). cbn. eexists. split; [reflexivity|].
    eapply (current_out mut id); [done|done|exact Hcm|done|by right|]. intros r0. congruence.
Qed.

Lemma purge_out id s : puts_out id (purge_mut id) s.
Proof.
  intros m. unfold purge_mut. destruct (devices s !! id) eqn:E; intros [= <-].
  - split; [intros d Hd; by apply lookup_delete_ne|]. intros r'. by rewrite lookup_delete_eq.
  - split; [done|]. congruence.
Qed.

Lemma revoke_out id now s :
  puts_out id (update_mut id (fun r => if Revoked r then inl errNoChange else inr (set_updated now (set_seat_since 0 (set_revoked true r))))) s.
Proof.
  intros m. unfold update_mut. destruct (devices s !! id) as [r|] eqn:E; [|intros [= <-]; split; [done|congruence]].
  destruct (Revoked r); [done|]. intros [= <-]. split; [intros d Hd; by apply lookup_insert_ne|].
  intros r'. rewrite lookup_insert_eq. by intros [= <-].
Qed.

Lemma current_delete_device w id purge l l' a : follows l -> delete_device Secrets w id purge l = Some (l', a) -> current None None l'.
Proof.
  intros Hf. pose proof Hf as [Ht Hc]. unfold delete_device. destruct (negb _); [by intros [= <- _]|].
  destruct (if decide (purge = "") then _ else _) as [p|]; [|by intros [= <- _]]. pose proof (t_solid None l Ht) as Hso.
  assert (exists mut, let '(s, found, e) := if p then Purge id (saved w 0) (store l) else Revoke id (clock w 0) (saved w 0) (store l) in
    puts_out id mut (store l) /\ exists e0, commits mut (Some id) (store l) (s, found, e0) /\ (e <> None -> s = store l)
      /\ (e = None -> e0 = None \/ active (store l) id = None) /\ (found = false -> active (store l) id = None)) as [mut Hm].
  { destruct p.
    - exists (purge_mut id). unfold Purge. pose proof (purge_commits id (saved w 0) (store l) Hso) as Hcm.
      destruct (commit _ _ _) as [[s found] e]. split; [apply purge_out|]. exists e. split; [done|]. destruct Hcm as (->&_&_&He).
      split; [by destruct e|]. split; [auto|]. unfold purge_mut, active. by destruct (devices (store l) !! id).
    - eexists. unfold Revoke. pose proof (revoke_commits id (clock w 0) (saved w 0) (store l) Hso) as Hcm. cbn zeta in Hcm.
      pose proof (revoke_out id (clock w 0) (store l)) as Ho. set (mu := update_mut id _) in *.
      pose proof (commit_cases mu (saved w 0) (store l)) as Hcc.
      destruct (commit _ _ _) as [[s found] e]. split; [exact Ho|]. exists e. split; [exact Hcm|]. destruct Hcm as (->&_&_&He).
      split; [by destruct e|]. unfold active, no_change. split.
      + destruct (decide _) as [->|Hn]; [|by left]. intros _. right. destruct Hcc as [_ Hcc]. revert Hcc. unfold mu, update_mut.
        destruct (devices (store l) !! id) as [r|]; [|done]. destruct (Revoked r) eqn:Er; cbn; [by rewrite Er|].
        destruct (_ || _); by intros [_ ?].
      + unfold mu, update_mut. destruct (devices (store l) !! id) as [r|]; [|done]. by destruct (Revoked r). }
  destruct (if p then _ else _) as [[s found] e]. destruct Hm as (Hp&e0&Hcm&He&He0&Hn).
  destruct e as [e|]. { intros [= <- _]. rewrite He by done. by rewrite follow_same. }
  destruct found; cbn [negb].
  - destruct (current_leave mut id (clock w 0) (clock w 1) s true e0 l Hf Hcm Hp (He0 eq_refl)) as (l1&E&Hc1). unfold OnPurge, OnRevoke.
    rewrite E. destruct p; cbn; intros [= <- _]; by repeat apply current_act.
  - intros [= <- _]. specialize (Hn eq_refl). eapply (current_out mut id); [done|done|exact Hcm|done|by right|]. intros r0. congruence.
Qed.

(** *** A device's line *)

Lemma current_weaken id x y l : current None y l -> (x = None \/ x = Some id) -> current x y l.
Proof. intros [C1 C2 C3 C4 C5] _. split; [done| | |done|done]; [intros d r _; by apply C2|intros u ep _; by apply C3]. Qed.

Lemma current_but u y l : current y None l -> current y (Some u) l.
Proof. intros [C1 C2 C3 C4 C5]. split; [done..|]. intros Hb v _. by apply C5. Qed.

Lemma current_register now id l r : solid (store l) -> current None (Some (Enroll.User r)) l -> active (store l) id = Some r ->
  (is_Some (book l) -> registers (store l) id = None -> line_in l (Enroll.User r) = None) ->
  current None None (registerLine Secrets now id l).
Proof.
  intros Hs [C1 C2 C3 C4 C5] Ha Hn. destruct (registerLine_spec Secrets now id l) as (F&Et&L); [by apply good_named, s_good|].
  destruct F as (F1&_&_&_&F5&F6). split; rewrite ?F1, ?Et; [done..|by apply F6|]. intros Hb v _ ln.
  apply F5 in Hb. rewrite (L C4 Hb v). destruct (registers (store l) id) as [ln0|] eqn:El.
  - destruct (registers_owner _ _ _ El) as (r0&Ha0&Eu&_); [by eexists|]. assert (r0 = r) as -> by congruence.
    destruct (decide (v = PbxLine.User ln0)) as [->|Hne]; [|apply C5; [done|congruence]]. split.
    + intros [= <-]. exists id, r. by rewrite Eu.
    + intros (d&r2&Ha2&Eu2&Hl2). assert (d = id) as -> by (eapply (active_unique (store l)); [apply Hs|done|done|congruence]). congruence.
  - destruct (decide (v = Enroll.User r)) as [->|Hne]; [|apply C5; [done|congruence]]. rewrite Hn by done. split; [done|].
    intros (d&r2&Ha2&Eu2&Hl2). assert (d = id) as -> by (eapply (active_unique (store l)); [apply Hs|done..]). congruence.
Qed.

(** A line the new records do not want was not wanted before. *)
Lemma not_wanted s m id r r' ln : solid s -> change None s m -> readable m -> devices s !! id = Some r -> m !! id = Some r' ->
  Revoked r' = false -> (PBXLine_ r' = None -> PBXLine_ r = None) -> (holdsSeat r = true -> holdsSeat r' = true) ->
  registers (after s m) id = None -> ~ wants s (Enroll.User r) ln.
Proof.
  intros Hs Hc Hr Hd Hd' Hrv Hl Hh Hn (d&r0&Ha&Eu&Hw).
  assert (d = id) as ->. { apply active_Some in Ha as [E _]. destruct (s_inv _ Hs) as (_&_&Hq). by apply (Hq d id r0 r). }
  pose proof Ha as [Hx _]%active_Some. assert (r0 = r) as -> by congruence.
  destruct (registers_owner _ _ _ Hw) as (r1&_&_&[[u lr] Hli]&Hun); [by eexists|]. apply lined_Some in Hli as (r2&Ha2&El2&_).
  assert (r2 = r) as -> by congruence. assert (active (after s m) id = Some r') as Ha' by (apply active_Some; by rewrite devices_after).
  apply (registers_none (after s m) id r') in Hn as [Hn|Hn]; [| |by rewrite devices_after|exact Ha'].
  - unfold lined in Hn. rewrite Ha' in Hn. cbn in Hn. destruct (PBXLine_ r') as [lr'|]; [done|]. rewrite Hl in El2; done.
  - pose proof (seat_bits (after s m) id) as Hb. rewrite devices_after, Hd' in Hb. destruct Hb as [HL HU]. rewrite HU in Hn.
    apply andb_true_iff in Hn as [Hr1 Hr2]. rewrite Hr1, Hr2 in HL. cbn in HL.
    pose proof (seat_bits s id) as Hb. rewrite Hd in Hb. destruct Hb as [HL0 HU0]. rewrite HU0 in Hun.
    destruct (holdsSeat r) eqn:E1.
    + cbn in *. rewrite Hun in HL0. cbn in HL0. destruct (change_quiet None s m id r) as (?&_&_&HQ); [apply Hs|done..|].
      by rewrite HQ in HL.
    + erewrite entered_licensed in HL; try done. apply Hs.
Qed.

(** The line of a device after a write to it, before the hook. *)
Lemma line_unwanted now l s' id r : follows l -> stepped (store l) s' -> solid s' -> active s' id = Some r -> registers s' id = None ->
  (forall ln, ~ wants (store l) (Enroll.User r) ln) -> is_Some (book l) -> line_in (follow Secrets now s' l) (Enroll.User r) = None.
Proof.
  intros [Ht Hc] Hst Hs Ha Hn Hw Hb. destruct (follow_spec Secrets now s' l Hst) as (_&_&L); [by apply good_named, s_good|].
  destruct (L (c_good _ _ _ Hc) Hb (Enroll.User r)) as [(ln&(id'&_&HL&Hrg&Eu)&_)|(_&[[_ ->]|[_ ->]])]; [|done|].
  - destruct (registers_owner _ _ _ Hrg (Licensed_active _ _ HL)) as (r'&Ha'&Eu'&_).
    assert (id' = id) as -> by (eapply (active_unique s'); [apply Hs|done|done|congruence]). congruence.
  - destruct (line_in l (Enroll.User r)) as [ln|] eqn:E; [|done]. exfalso. by apply (Hw ln), (c_book _ _ _ Hc Hb).
Qed.

(** A sealed secret opens. *)
Context (box_opens : forall box d secret sealed, Secrets = Some box -> Seal box d secret = Some sealed -> Open_ box d sealed = Some secret).

Lemma book_follow now s l : stepped (store l) s -> solid s -> is_Some (book (follow Secrets now s l)) -> is_Some (book l).
Proof. intros Hst Hs Hb. destruct (follow_spec Secrets now s l Hst) as ((_&_&_&_&F&_)&_); [by apply good_named, s_good|]. by apply F in Hb. Qed.

Lemma current_set_line w id body pre l : follows l -> (forall r, devices (store l) !! id = Some r -> Revoked r = false) ->
  current None None (fst (set_line Secrets w id body pre l)).
Proof.
  intros Hf Hforce. pose proof Hf as [Ht Hc]. pose proof (t_solid _ _ Ht) as Hso.
  unfold set_line. destruct (negb _); [done|]. destruct body as [|i]; [done|]. destruct (line_fault i); [done|].
  destruct (Exists (store l) id) eqn:Ex; [|done]. cbn [negb]. destruct (recordMatch pre) as [|ms]; [done|].
  pose proof (set_line_cases Secrets id (in_DN i) (in_DigestUser i) (in_Secret i) ms (clock w 0) (saved w 0) (store l)) as Hs.
  destruct (SetPBXLine _ _ _ _ _ _ _ _ _) as [s rr]. destruct Hs as [[-> [e ->]]|(sealed&box&v&e&Hbox&Hseal&E&->)].
  { cbn. by rewrite follow_same. }
  set (lr := Enroll.mkLine _ _ _ _) in *.
  pose proof (line_commits id lr ms (clock w 0) (saved w 0) (store l) Hso) as Hcm. rewrite E in Hcm.
  destruct e as [e|]. { destruct Hcm as (_&_&_&->). cbn. by rewrite follow_same. }
  pose proof Hcm as (_&Hst&Hs&m&Em&Hch&Es). apply bool_decide_eq_true in Ex as [r Hr]. pose proof (Hforce r Hr) as Hrv.
  assert (m = <[id := set_updated (clock w 0) (Enroll.set_line (Some lr) r)]> (devices (store l))) as Emm.
  { revert Em. unfold line_mut. rewrite Hr. destruct (negb _); [done|]. by intros [= <-]. }
  set (r' := set_updated _ _) in Emm. set (l1 := follow Secrets (clock w 0) s l) in *.
  assert (store l1 = s) as Est by by apply store_follow.
  assert (readable m) as Hrm.
  { rewrite Emm. apply readable_insert; [apply Hc|]. cbn. intros lr' [= <-]. exists box, (in_Secret i). split; [done|]. cbn. by eapply box_opens. }
  assert (m !! id = Some r') as Hm by (rewrite Emm; apply lookup_insert_eq).
  assert (active s id = Some r') as Ha by (apply active_Some; by rewrite Es, devices_after).
  assert (current None (Some (Enroll.User r')) l1) as Hc1.
  { eapply (current_commit _ None id); [done|by apply current_but|exact Hcm|]. intros m' Em' _. assert (m' = m) as -> by congruence.
    split; [intros d Hd; rewrite Emm; by apply lookup_insert_ne|]. split; [done|]. split.
    - intros _. rewrite <- Es. unfold quiet_table. rewrite Ha. unfold active. rewrite Hr. cbn. by rewrite Hrv.
    - intros [_ Hn]. rewrite <- Es in Hn. by destruct (Hn r' Ha). }
  assert (exists cred, PBXCredential' Secrets (store l1) id = Some (inr cred)) as [cred ->].
  { rewrite Est. unfold PBXCredential'. rewrite Es, devices_after, Hm. cbn. unfold credential, lr. rewrite Hbox. cbn. rewrite (box_opens _ _ _ _ Hbox Hseal). eauto. }
  cbn [fst]. unfold OnPBXLine, pbxLineHook. cbn [book act]. set (l2 := act _ l1).
  assert (current None (Some (Enroll.User r')) l2) as Hc2 by by apply current_act.
  destruct (book l1) as [b|] eqn:Eb.
  - apply (current_register _ id l2 r'); [by rewrite <- Est in Hs|done|by rewrite <- Est in Ha|].
    change (store l2) with (store l1). rewrite Est. intros _ Hn. change (line_in l2) with (line_in l1).
    apply (line_unwanted _ l s id r'); [done..| |]; [|eapply (book_follow (clock w 0)); [done|done|]; fold l1; by rewrite Eb].
    intros ln. change (Enroll.User r') with (Enroll.User r). rewrite Es in Hn. by eapply (not_wanted (store l) m id r r').
  - destruct Hc2 as [C1 C2 C3 C4 C5]. split; [done..|]. change (book l2) with (book l1). rewrite Eb. by intros [??].
Qed.

Lemma current_unline u l : current None (Some u) l -> (forall ln, ~ wants (store l) u ln) -> current None None (delete_line u l).
Proof.
  intros [C1 C2 C3 C4 C5] Hn. split; [done..|by apply (frame_delete_line u l)|]. intros Hb v _ ln.
  unfold delete_line in Hb. cbn in Hb. apply fmap_is_Some in Hb. rewrite (line_in_delete u v l C4). change (store (delete_line u l)) with (store l).
  destruct (decide (v = u)) as [->|Hne]; [|apply C5; [done|congruence]]. split; [done|]. intros Hw. by destruct (Hn ln).
Qed.

Lemma no_line_unwanted s id r u ln : solid s -> active s id = Some r -> Enroll.User r = u -> PBXLine_ r = None -> ~ wants s u ln.
Proof.
  intros Hs Ha <- El (d&r2&Ha2&Eu2&Hl2). assert (d = id) as -> by (eapply (active_unique s); [apply Hs|done..]).
  destruct (registers_owner _ _ _ Hl2) as (r3&_&_&[[u lr] Hli]&_); [by eexists|]. apply lined_Some in Hli as (r4&Ha4&El4&_). congruence.
Qed.

(** The hook of a line that is gone. *)
Lemma current_unhook now id l : solid (store l) ->
  match active (store l) id with
  | Some r => current None (Some (Enroll.User r)) l /\ PBXLine_ r = None
  | None => current None None l
  end -> current None None (OnPBXLine Secrets now id None l).
Proof.
  intros Hs Hc. unfold OnPBXLine, pbxLineHook. set (e := Emitted _ _ _). change (book (act e l)) with (book l). change (store (act e l)) with (store l).
  destruct (UserFor (store l) id) as [u|] eqn:EU.
  - apply UserFor_active in EU as (r&Ha&<-). rewrite Ha in Hc. destruct Hc as [Hc El].
    assert (current None None (delete_line (Enroll.User r) (act e l))) as Hd.
    { apply current_unline; [by apply current_act|]. intros ln. by eapply no_line_unwanted. }
    destruct (book l) as [b|] eqn:Eb; [done|]. destruct Hd as [C1 C2 C3 _ _]. split; [done..| |].
    + unfold book_ok. change (book (act e l)) with (book l). by rewrite Eb.
    + change (book (act e l)) with (book l). rewrite Eb. by intros [??].
  - destruct (active (store l) id) as [r|] eqn:Ea.
    { assert (UserFor (store l) id = Some (Enroll.User r)) by (apply UserFor_active; eauto). congruence. }
    destruct (book l); by apply current_act.
Qed.

Lemma current_delete_pbx_line w id pre l : follows l -> current None None (fst (delete_pbx_line Secrets w id pre l)).
Proof.
  intros Hf. pose proof Hf as [Ht Hc]. pose proof (t_solid _ _ Ht) as Hso. unfold delete_pbx_line. destruct (negb _); [done|].
  destruct (recordMatch pre) as [|ms]; [done|]. unfold DeletePBXLine.
  match goal with |- context [commit (update_mut id ?f) _ _] => set (g := f) end.
  assert (forall r r', g r = inr r' -> r' = set_updated (clock w 0) (Enroll.set_line None r)) as Hg.
  { intros r r'. unfold g. destruct (negb _); [done|]. destruct (PBXLine_ r); [|done]. by intros [= <-]. }
  assert (forall r, g r = inl errNoChange -> PBXLine_ r = None) as Hg0.
  { intros r. unfold g. destruct (negb _); [done|]. by destruct (PBXLine_ r). }
  assert (commits (update_mut id g) None (store l) (commit (update_mut id g) (saved w 0) (store l))) as Hcm.
  { apply update_commits; [done|]. by intros r r' ->%Hg. }
  pose proof (commit_cases (update_mut id g) (saved w 0) (store l)) as Hcc.
  destruct (commit _ _ _) as [[s found] e]. destruct e as [er|].
  - destruct Hcm as (->&_&_&->). rewrite follow_same. unfold no_change. destruct (decide _) as [[= ->]|]; [|done].
    destruct Hcc as [_ Hcc]. revert Hcc. unfold update_mut. destruct (devices (store l) !! id) as [r|] eqn:Er; [|done].
    intros Hcc. assert (PBXLine_ r = None) as El.
    { destruct (g r) eqn:Eg; cbn in Hcc; [destruct Hcc as [_ [= <-]]; by apply Hg0|by destruct (_ || _); destruct Hcc as [_ ?]]. }
    replace (fst (match g r with inl e => (true, inl e) | inr r' => (true, inr (<[id:=r']> (devices (store l)))) end)) with true by (by destruct (g r)).
    cbn. apply current_unhook; [done|]. destruct (active (store l) id) as [r0|] eqn:Ea; [|done].
    apply active_Some in Ea as [Er0 _]. assert (r0 = r) as -> by congruence. split; [by apply current_but|done].
  - pose proof Hcm as (Ea&Hst&Hs&m&Em&Hch&Es). set (l1 := follow Secrets (clock w 0) s l).
    assert (store l1 = s) as Est by by apply store_follow. unfold update_mut in Em, Ea.
    destruct (devices (store l) !! id) as [r|] eqn:Er.
    + destruct (g r) as [|r'] eqn:Eg; [done|]. cbn in Ea, Em. subst found. injection Em as Em. pose proof (Hg r r' Eg) as Er'.
      assert (active s id = if Revoked r then None else Some r') as Ha.
      { unfold active. rewrite Es, devices_after, <- Em, lookup_insert_eq. cbn. by rewrite Er'. }
      cbn. apply current_unhook; [by rewrite Est|]. rewrite Est, Ha.
      assert (forall y, (Revoked r = false -> y = Some (Enroll.User r)) -> current None y l1) as Hcur.
      { intros y Hy. eapply (current_commit _ None id); [done| |exact Hcm|]; [destruct y; [by apply current_but|done]|].
        intros m' Em' _. unfold update_mut in Em'. rewrite Er, Eg in Em'. cbn in Em'. injection Em' as <-. rewrite Em, <- Es.
        split; [intros d Hd; rewrite <- Em; by apply lookup_insert_ne|]. split.
        { rewrite <- Em. apply readable_insert; [apply Hc|]. intros lr. by rewrite Er'. }
        split.
        - intros _. unfold quiet_table. rewrite Ha. unfold active. rewrite Er. cbn. rewrite Er'. by destruct (Revoked r).
        - intros [Hn _]. destruct (Revoked r) eqn:Erv.
          + unfold quiet_line, lined. rewrite Ha. unfold active. rewrite Er. cbn. rewrite Erv. split; [done|]. by intros [??].
          + exfalso. apply (Hn r); [by apply active_Some|]. symmetry. by apply Hy. }
      destruct (Revoked r); [by apply Hcur|]. split; [|by rewrite Er']. replace (Enroll.User r') with (Enroll.User r) by (by rewrite Er'). by apply Hcur.
    + cbn in Ea. subst found. cbn. eapply (current_quiet _ id); [done|done|exact Hcm|]. intros m'. unfold update_mut. rewrite Er.
      intros [= <-]. by left.
Qed.

(** *** Claims *)

Lemma claim_shape order want random now s m : snd (claim_mut sha256hex md5hex order want random now s) = inr m ->
  let c := fst (claim_mut sha256hex md5hex order want random now s) in
  exists r r', devices s !! cl_DeviceID c = Some r /\ m = <[cl_DeviceID c := r']> (devices s) /\ Enroll.User r = cl_User c
    /\ Enroll.User r' = Enroll.User r /\ Revoked r' = false /\ PBXLine_ r' = PBXLine_ r /\ holdsSeat r' = true.
Proof.
  unfold claim_mut. destruct (claim_find order (devices s) want now None) as [[d r]|] eqn:Ef; [|done].
  destruct (_ && negb (freeSeatLocked s)); [done|]. destruct random as [tok|]; [|done]. intros [= <-]. cbn.
  apply claim_find_sound in Ef as [Hx|(_&Hd&_)]; [done|]. exists r. eexists. split; [done|]. split; [reflexivity|].
  destruct (negb (holdsSeat r)); (split; [done|]); (split; [done|]); (split; [done|]); (split; [done|]).
  all: unfold holdsSeat; cbn; by rewrite bool_decide_eq_true_2 by apply sha256hex_nonempty.
Qed.

Lemma current_provision id y l r : tied None l -> current (Some id) y l -> active (store l) id = Some r ->
  current None y (OnIssue id (Enroll.User r) l).
Proof.
  intros Ht [C1 C2 C3 C4 C5] Ha. pose proof Ha as [Hd _]%active_Some. split; [done| | |done|done].
  - intros d r0 _ Ha0. change (active (store l) d = Some r0) in Ha0. cbn. destruct (decide (d = id)) as [->|Hne].
    + assert (r0 = r) as -> by congruence. rewrite lookup_insert_eq. by eexists.
    + rewrite lookup_insert_ne; [apply C2; [congruence|done]|]. intros Eu. apply Hne.
      eapply (active_unique (store l)); [apply (t_solid _ _ Ht)|done|done|done].
  - intros u ep _. cbn. intros [[<- <-]|[Hne Hu]]%lookup_insert_Some; cbn; [by eexists|]. apply (C3 u ep); [|done].
    intros [= Ex]. destruct (t_device _ _ Ht u ep Hu) as (r0&Hr0&Eu); [done|]. rewrite Ex in Hr0. congruence.
Qed.

Lemma current_enrol w src code l : follows l -> timely w -> current None None (fst (enrol sha256hex md5hex Secrets w src code l)).
Proof.
  intros [Ht Hc] Hw. unfold enrol. destruct (allow src (clock w 0) (lim l)) as [x allowed]. set (l0 := with_lim x l).
  assert (tied None l0) as Ht0 by (by apply (tied_ext None l)). assert (current None None l0) as Hc0 by (by apply (current_ext None None l)).
  destruct (negb allowed); [done|]. destruct code as [code|]; [|done].
  destruct (decide _); [done|]. unfold Claim. pose proof (t_solid _ _ Ht0) as Hso.
  set (want := hashToken sha256hex (NormalizeCode code)).
  pose proof (claim_commits sha256hex md5hex sha256hex_nonempty (order w) want (Server.token w) (clock w 1) (saved w 0) (store l0) Hso (Hw 1%nat)) as Hcm.
  destruct (commit _ _ _) as [[s c] e]. destruct e as [e|].
  { destruct Hcm as (_&_&_&->). rewrite follow_same. by destruct e. }
  pose proof (tied_commit Secrets _ (clock w 1) s c None l0 Ht0 Hcm) as Ht1. pose proof Hcm as (->&Hst&Hs&m&Em&Hch&Es). cbn [fst].
  destruct (claim_shape _ _ _ _ _ _ Em) as (r&r'&Hr&Emm&Eu&Eu'&Erv&El&Eh). set (c := fst _) in *. set (id := cl_DeviceID c) in *.
  set (l1 := follow Secrets (clock w 1) s l0) in *. assert (store l1 = s) as Est by by apply store_follow.
  assert (m !! id = Some r') as Hm by (rewrite Emm; apply lookup_insert_eq).
  assert (active s id = Some r') as Ha by (apply active_Some; by rewrite Es, devices_after).
  assert (readable m) as Hrm.
  { rewrite Emm. apply readable_insert; [apply Hc0|]. intros lr. rewrite El. by apply (c_read _ _ _ Hc0). }
  assert (current (Some id) (Some (Enroll.User r')) l1) as Hc1.
  { eapply (current_commit _ None id); [done| |exact Hcm|]; [apply current_but; by eapply current_weaken; [|right]|].
    intros m' Em' _. assert (m' = m) as -> by congruence. split; [intros d Hd; rewrite Emm; by apply lookup_insert_ne|]. split; [done|].
    split; [done|]. intros [_ Hn]. rewrite <- Es in Hn. by destruct (Hn r' Ha). }
  rewrite <- Est in Ha. unfold OnClaim. set (l2 := act (Emitted _ _ _) l1).
  assert (current None (Some (Enroll.User r')) (OnIssue id (Enroll.User r') l2)) as Hc2.
  { apply current_provision; [by apply tied_act|by apply current_act|done]. }
  rewrite <- Eu, <- Eu'. set (l3 := act (Disconnected id rotated) (OnIssue id (Enroll.User r') l2)).
  change (current None None (registerLine Secrets (clock w 2) id l3)).
  apply (current_register _ id l3 r'); [by rewrite <- Est in Hs|by apply current_act|done|].
  intros Hb Hn. change (line_in l3) with (line_in l1). change (store l3) with (store l1) in Hn. rewrite Est in *.
  apply (line_unwanted _ l0 s id r'); [by split|done|done|done|done| |].
  - intros ln. rewrite Eu'. rewrite Es in Hn. eapply (not_wanted (store l0) m id r r'); try done. by rewrite El.
  - eapply (book_follow (clock w 1) s l0); done.
Qed.

(** *** Devices created *)

Lemma issue_quiet id user tok now s m r : snd (issue_mut sha256hex md5hex id user tok now s) = inr m -> devices s !! id = Some r ->
  Revoked r = false ->
  m = devices s \/ exists r r', devices s !! id = Some r /\ alike r r' /\ (holdsSeat r = true -> holdsSeat r' = true) /\ m = <[id := r']> (devices s).
Proof.
  intros Hm Hd Hr. right. unfold issue_mut in Hm. rewrite Hd in Hm. destruct (decide _); [done|]. destruct (_ && negb (freeSeatLocked s)); [done|].
  injection Hm as <-. exists r. eexists. split; [done|]. split; [|split; [|reflexivity]]; destruct (_ && _); try done.
  all: intros _; unfold holdsSeat; cbn; by rewrite Hr, bool_decide_eq_true_2 by apply sha256hex_nonempty.
Qed.

Lemma issue_succeeds id user tok now s r : devices s !! id = Some r -> Enroll.User r = user -> freeSeatLocked s = true ->
  exists m, snd (issue_mut sha256hex md5hex id user tok now s) = inr m.
Proof.
  intros Hd Hu Hf. unfold issue_mut. rewrite Hd, Hf. rewrite decide_False by naive_solver. rewrite andb_false_r. by eexists.
Qed.

Lemma commit_saved {A} (mutate : mut A) s m s' a e : commit mutate true s = (s', a, e) -> snd (mutate s) = inr m -> e = None.
Proof. intros E Hm. pose proof (commit_cases mutate true s) as Hc. rewrite E, Hm in Hc. by destruct Hc as (_&_&?). Qed.

Lemma issue_token_succeeds id user tok now s r : devices s !! id = Some r -> Enroll.User r = user -> freeSeatLocked s = true ->
  id <> "" -> user <> "" -> (16 <= String.length tok)%nat ->
  exists s', IssueToken sha256hex md5hex id user tok None now true s = (s', inr tok).
Proof.
  intros Hd Hu Hf Hid Hne Hlen. unfold IssueToken. rewrite decide_False by naive_solver.
  rewrite decide_False by (intros ->; cbn in Hlen; lia). rewrite decide_False by lia.
  destruct (issue_succeeds id user tok now s r Hd Hu Hf) as [m Em]. destruct (commit _ true s) as [[s' u] e] eqn:E.
  rewrite (commit_saved _ _ _ _ _ _ E Em). by exists s'.
Qed.

Lemma issue_active id user tok now s m r : snd (issue_mut sha256hex md5hex id user tok now s) = inr m -> active s id = Some r ->
  exists r', active (after s m) id = Some r' /\ Enroll.User r' = user.
Proof.
  intros Hm [Hd Hr]%active_Some. pose proof (issue_user sha256hex md5hex id user tok now s m r Hm Hd) as Hu.
  destruct (issue_quiet id user tok now s m r Hm Hd Hr) as [->|(r0&r'&Hd0&(Hu'&Hr'&_)&_&->)].
  - exists r. split; [apply active_Some; by rewrite devices_after|done].
  - assert (r0 = r) as -> by congruence. exists r'. split; [|congruence]. apply active_Some. rewrite devices_after, lookup_insert_eq.
    split; [done|congruence].
Qed.

(** The rest of the handler: either the device was in the table already, or
    nothing fails. *)
Lemma current_issue_and_mint w i ex x id desc l r : tied None l -> current x None l -> timely w -> active (store l) id = Some r ->
  in_User i <> "" -> (in_Token i = "" -> Enroll.User r = in_User i) -> lower (in_User i) ->
  x = None \/ (x = Some id /\ (forall n, saved w n = true) /\ Enroll.User r = in_User i
              /\ (in_Token i <> "" -> (16 <= String.length (in_Token i))%nat /\ freeSeatLocked (store l) = true)) ->
  current None None (fst (issue_and_mint sha256hex md5hex Secrets w i ex id desc l)).
Proof.
  intros Ht Hc Hw Ha Hne Hu Hl Hx. unfold issue_and_mint. pose proof (t_solid _ _ Ht) as Hso. pose proof Ha as [Hd Hrv]%active_Some.
  assert (forall l1 tok r1, tied None l1 -> current x None l1 -> active (store l1) id = Some r1 -> Enroll.User r1 = in_User i ->
    current None None (fst (
      let '(s, rr) := MintCode sha256hex id (code_bytes w) (clock w 2) (saved w 2) (store l1) in
      let l := follow Secrets (clock w 2) s l1 in
      match rr with
      | inl e => (l, refuse (storeError e))
      | inr (code, expires) =>
          let l := if ex then l else act (Emitted "device_created" id "") l in
          let l := act (Emitted "code_issued" id "") l in
          (OnIssue id (in_User i) l, (done_with 201, OCreated id (in_User i) desc tok code expires))
      end))) as Hmint.
  { intros l1 tok r1 Ht1 Hc1 Ha1 Hu1. pose proof (t_solid _ _ Ht1) as Hso1. unfold MintCode.
    set (mu := mint_mut sha256hex id _ _).
    assert (commits mu None (store l1) (commit mu (saved w 2) (store l1))) as Hcm by by apply mint_commits.
    destruct (commit mu (saved w 2) (store l1)) as [[s a] e] eqn:E.
    assert (current x None (follow Secrets (clock w 2) s l1)) as Hc2.
    { eapply (current_quiet _ id); [done|done|exact Hcm|]. intros m. apply mint_quiet. }
    pose proof (tied_commit Secrets _ (clock w 2) s a e l1 Ht1 Hcm) as Ht2.
    pose proof Ha1 as [Hd1 Hrv1]%active_Some.
    assert (exists m, snd (mu (store l1)) = inr m) as [m Em] by (unfold mu, mint_mut; rewrite Hd1; by eexists).
    destruct e as [e|].
    { destruct Hx as [->|(_&Hsv&_)]; [done|]. rewrite Hsv in E. by pose proof (commit_saved _ _ _ _ _ _ E Em). }
    destruct Hcm as (_&Hst&Hs&m'&Em'&Hch&Es). assert (m' = m) as -> by congruence.
    assert (exists r2, active (store (follow Secrets (clock w 2) s l1)) id = Some r2 /\ Enroll.User r2 = in_User i) as (r2&Ha2&Hu2).
    { rewrite store_follow, Es by done. revert Em. unfold mu, mint_mut. rewrite Hd1. intros [= <-]. eexists. split; [|cbv beta].
      - apply active_Some. rewrite devices_after, lookup_insert_eq. by split.
      - exact Hu1. }
    cbn [fst]. rewrite <- Hu2.
    assert (forall l3, tied None l3 -> current x None l3 -> active (store l3) id = Some r2 -> current None None (OnIssue id (Enroll.User r2) l3)) as Hfin.
    { intros l3 Ht3 Hc3 Ha3. apply current_provision; [done| |done]. destruct Hx as [->|(->&_)]; [|done]. by eapply current_weaken; [|right]. }
    destruct ex; apply Hfin; try done; repeat (done || apply tied_act || apply current_act). }
  destruct (decide (in_Token i <> "")) as [Htok|Htok].
  2: { apply (Hmint l None r); [done..|]. apply Hu. by apply dec_stable. }
  pose proof (issue_token_cases sha256hex md5hex id (in_User i) (in_Token i) None (clock w 1) (saved w 1) (store l)) as Hi.
  destruct (IssueToken _ _ _ _ _ _ _ _ _) as [s rr] eqn:EI.
  assert (is_right rr = false -> x = None) as Hfail.
  { destruct Hx as [|(_&Hsv&Hui&Hok)]; [done|]. destruct (Hok Htok) as [Hlen Hfr]. rewrite Hsv in EI.
    destruct (issue_token_succeeds id (in_User i) (in_Token i) (clock w 1) (store l) r) as [s1 E1]; try done.
    - apply (g_id _ _ (s_good _ Hso _ _ Hd)).
    - rewrite E1 in EI. by injection EI as _ <-. }
  destruct Hi as [[-> [e ->]]|(tok&e&E&->)]; [rewrite follow_same; by rewrite Hfail in Hc|].
  pose proof (issue_commits sha256hex md5hex sha256hex_nonempty id (in_User i) tok (clock w 1) (saved w 1) (store l) Hso
    (Hw 1%nat) (g_id _ _ (s_good _ Hso _ _ Hd)) Hne Hl) as Hcm. rewrite E in Hcm.
  assert (current x None (follow Secrets (clock w 1) s l)) as Hc1.
  { eapply (current_quiet _ id); [done|done|exact Hcm|]. intros m Em. by eapply issue_quiet. }
  destruct e as [e|]; [by rewrite Hfail in Hc1|]. pose proof (tied_commit Secrets _ (clock w 1) s tt None l Ht Hcm) as Ht1.
  destruct Hcm as (_&Hst&Hs&m&Em&Hch&Es). destruct (issue_active _ _ _ _ _ _ _ Em Ha) as (r1&Ha1&Hu1).
  apply (Hmint _ _ r1); [done|done| |done]. by rewrite store_follow, Es.
Qed.

Lemma no_seat_left_free s : no_seat_left s = false -> freeSeatLocked s = true.
Proof.
  unfold no_seat_left, Seats, freeSeatLocked. destruct (Z.eqb_spec (seats s) NoSeatLimit) as [E|Hn]; [done|].
  rewrite bool_decide_eq_true_2 by done. cbn. rewrite Z.leb_gt, Z.ltb_lt. done.
Qed.

Lemma create_shape id user desc now s m : snd (create_mut id user desc now s) = inr m ->
  m = <[id := new_record user desc now now]> (devices s) /\ devices s !! id = None.
Proof.
  unfold create_mut. destruct (bool_decide (is_Some _)) eqn:Eb; [done|]. destruct (userTakenLocked _ _ _); [done|]. intros [= <-].
  split; [done|]. by apply bool_decide_eq_false, eq_None_not_Some in Eb.
Qed.

(** A new device takes no seat. *)
Lemma created_free s m id user desc now : solid s -> change None s m -> snd (create_mut id user desc now s) = inr m ->
  freeSeatLocked s = true -> freeSeatLocked (after s m) = true.
Proof.
  intros Hs Hc Hm Hf. destruct (create_shape id user desc now s m Hm) as [Em Hd]. assert (inv (after s m)) as Hi by (unfold after; apply inv_fireSeats; by eapply inv_written; [apply Hs|]).
  rewrite freeSeat_iff in Hf |- *. rewrite used_size in Hf |- * by (apply Hi || apply Hs).
  assert (seats (after s m) = seats s) as -> by (unfold after; by rewrite seats_fireSeats).
  assert (holding (devices (after s m)) = holding (devices s)) as ->; [|done].
  rewrite devices_after, Em. apply map_eq. intros k. rewrite !lookup_holding. destruct (decide (k = id)) as [->|Hne].
  - by rewrite lookup_insert_eq, Hd.
  - by rewrite lookup_insert_ne.
Qed.

Lemma current_post_device w body l l' a : follows l -> timely w -> Forall (fun d => d <> "") (ids w) ->
  (forall i, body = inr i -> lower (in_User i) /\ forall r, devices (store l) !! in_DeviceID i = Some r -> Revoked r = false) ->
  (forall n, saved w n = true) ->
  post_device sha256hex md5hex Secrets w body l = Some (l', a) -> current None None l'.
Proof.
  intros [Ht Hc] Hw Hids Hb Hsv. unfold post_device. destruct body as [|i]; [by intros [= <- _]|]. destruct (Hb i eq_refl) as [Hl Hforce].
  pose proof (t_solid _ _ Ht) as Hso. destruct (device_fault i) eqn:Ef; [by intros [= <- _]|].
  assert (in_User i <> "") as Hne by (intros E; unfold device_fault in Ef; by rewrite decide_True in Ef).
  set (ex := bool_decide (in_DeviceID i <> "") && _).
  destruct (ex && bool_decide (in_Token i = "")) eqn:E1; [by intros [= <- _]|].
  destruct (bool_decide (in_Token i <> "") && negb ex && no_seat_left (store l)) eqn:E2; [by intros [= <- _]|].
  destruct ex eqn:Eex.
  - intros [= E]. apply andb_true_iff in Eex as [_ [r Hr]%bool_decide_eq_true].
    apply (f_equal fst) in E. cbn in E. rewrite <- E. eapply (current_issue_and_mint w i true None _ _ _ r); try done; [| |by left].
    + apply active_Some. split; [done|by apply Hforce].
    + intros Hx. by rewrite Hx, bool_decide_eq_true_2 in E1.
  - unfold Create. rewrite decide_False by done. destruct (if decide (in_DeviceID i = "") then _ else _) as [id|] eqn:Eid; [|done]. cbn.
    assert (id <> "") as Hid.
    { destruct (decide (in_DeviceID i = "")) as [|Hn]; [|by injection Eid as <-].
      revert Eid. clear - Hids. induction Hids as [|d ds Hd _ IH]; [done|]. cbn. destruct (devices (store l) !! d); [done|]. by intros [= <-]. }
    pose proof (create_commits id (in_User i) (in_Description i) (clock w 0) (saved w 0) (store l) Hso Hid Hne Hl) as Hcm.
    destruct (commit _ (saved w 0) (store l)) as [[s u] e] eqn:E. pose proof (tied_commit Secrets _ (clock w 0) s u e l Ht Hcm) as Ht1.
    destruct e as [e|]; cbn. { intros [= <- _]. destruct Hcm as (_&_&_&->). by rewrite follow_same. }
    intros [= E3]. apply (f_equal fst) in E3. cbn in E3. rewrite <- E3.
    pose proof Hcm as (_&Hst&Hs&m&Hm&Hch&Es).
    destruct (create_shape _ _ _ _ _ _ Hm) as [Emm Hd].
    set (r := new_record _ _ _ _) in Emm. assert (active s id = Some r) as Ha.
    { apply active_Some. by rewrite Es, devices_after, Emm, lookup_insert_eq. }
    assert (current (Some id) None (follow Secrets (clock w 0) s l)) as Hc1.
    { eapply (current_commit _ None id); [done|by eapply current_weaken; [|right]|exact Hcm|]. intros m' Em' _.
      assert (m' = m) as -> by congruence. split; [intros d Hne'; rewrite Emm; by apply lookup_insert_ne|]. split.
      { rewrite Emm. apply readable_insert; [apply Hc|done]. }
      split; [done|]. intros _. rewrite <- Es. unfold quiet_line, lined. rewrite Ha. unfold active. rewrite Hd. cbn. split; [done|]. by intros [??]. }
    eapply (current_issue_and_mint w i false (Some id) id _ _ r); try done.
    + by rewrite store_follow.
    + right. split; [done|]. split; [done|]. split; [done|]. intros Htok. rewrite bool_decide_eq_true_2 in E2 by done. cbn in E2.
      split.
      * unfold device_fault in Ef. rewrite decide_False in Ef by done. destruct (UserRe _); [|done]. destruct (_ && negb (DeviceIDRe _)); [done|].
        destruct (Clean _ 120); [|done]. rewrite bool_decide_eq_true_2, andb_true_l in Ef by done.
        destruct (Nat.ltb_spec (String.length (in_Token i)) 16); [done|lia].
      * rewrite store_follow, Es by done. eapply created_free; [done|done|exact Hm|]. by apply no_seat_left_free.
Qed.

(** *** REGISTERs, and everything *)

Context (cfg : AppLeg.Config) (is_ipv6 : text -> bool) (IsDigest : text -> bool) (ParseCredentials : text -> option SipAuth.Credentials).
Context (Hmm : MinExpires cfg <= MaxExpires cfg) (Hmin : - 2 ^ 31 <= MinExpires cfg) (Hmax : MaxExpires cfg < 2 ^ 31).

Abbreviation serve := (serve sha256hex md5hex Secrets cfg is_ipv6 IsDigest ParseCredentials).
Abbreviation serve_all := (serve_all sha256hex md5hex Secrets cfg is_ipv6 IsDigest ParseCredentials).

(** A REGISTER removes no entry. *)
Lemma register_keeps now req (l : Live) rg a :
  AppLeg.outcome cfg is_ipv6 md5hex IsDigest ParseCredentials (store_secret (store l)) now req (leg l) rg a ->
  forall u ep, byUser (table l) !! u = Some ep -> exists ep', byUser rg !! u = Some ep' /\ DeviceID ep' = DeviceID ep.
Proof.
  intros Ho u ep Hu. inversion Ho as [? _|? ? _ _ _|user c Hs _ E1|user c n ep1 reg' Hs _ _ _ Hep Hby]; subst.
  1, 2: by eauto.
  - change (AppLeg.reg (leg l)) with (table l). rewrite Unregister_lookup. case_decide; [|by eauto]. subst u. rewrite Hu. cbn. by eexists.
  - change (AppLeg.reg (leg l)) with (table l) in *. rewrite Hby. destruct (decide (u = to_string user)) as [->|Hne].
    + rewrite lookup_insert_eq. assert (ep1 = ep) as -> by congruence. by eexists.
    + rewrite lookup_insert_ne by done. by eexists.
Qed.

Lemma current_register_event nonce now req l l' : follows l -> serve (EvRegister nonce now req) l = Some l' -> current None None l'.
Proof.
  intros [Ht [C1 C2 C3 C4 C5]]. cbn [Server.serve].
  destruct (onRegister_spec cfg is_ipv6 md5hex IsDigest ParseCredentials (store_secret (store l)) nonce now req (leg l) (t_wf _ _ Ht) Hmm Hmin Hmax)
    as (st&a&E&Hwf&Ho). rewrite E. cbn. intros [= <-]. split; [done| | |done|done].
  - intros d r _ Ha. destruct (C2 d r) as (ep&Hep&<-); [done|done|]. by apply (register_keeps now req l _ a Ho) in Hep.
  - intros u ep _ Hep. destruct (register_contacts md5hex cfg is_ipv6 IsDigest ParseCredentials now req l _ a Ht Ho u ep Hep) as (ep0&E0&->&_).
    by eapply C3.
Qed.

(** What a history must not do: fail to write the file while a device is being
    created, give a token to a revoked device, or set a line on one. *)
Definition tidy (e : event) (l : Live) : Prop :=
  match e with
  | EvPostDevice w (inr i) => (forall n, saved w n = true) /\ forall r, devices (store l) !! in_DeviceID i = Some r -> Revoked r = false
  | EvSetLine _ id _ _ => forall r, devices (store l) !! id = Some r -> Revoked r = false
  | _ => True
  end.

Fixpoint tidy_all (es : list event) (l : Live) : Prop :=
  match es with [] => True | e :: es => tidy e l /\ forall l', serve e l = Some l' -> tidy_all es l' end.

Lemma follows_serve e l l' : follows l -> proper e -> tidy e l -> serve e l = Some l' -> follows l'.
Proof.
  intros Hf Hp Hti Hse. split; [by eapply (tied_serve sha256hex md5hex Secrets sha256hex_nonempty); try apply Hf|].
  destruct e as [w body|w id purge|w id body pre|w id|w id|w id body pre|w id body pre|w id pre|w src code|now n|nonce now req];
    cbn [Server.serve] in Hse.
  - destruct (post_device _ _ _ w body l) as [[l1 a]|] eqn:E; [|done]. injection Hse as <-. destruct Hp as (?&?&Hl).
    destruct body as [x|i]; [cbn in E; injection E as <- _; apply Hf|]. destruct Hti as [Hsv Hfo].
    eapply current_post_device; try done. intros i' [= <-]. split; [by apply Hl|done].
  - destruct (delete_device _ w id purge l) as [[l1 a]|] eqn:E; [|done]. injection Hse as <-. by eapply current_delete_device.
  - injection Hse as <-. by apply current_patch.
  - injection Hse as <-. by apply current_cancel.
  - injection Hse as <-. by apply current_post_code.
  - injection Hse as <-. by apply current_set_config.
  - injection Hse as <-. by apply current_set_line.
  - injection Hse as <-. by apply current_delete_pbx_line.
  - injection Hse as <-. by apply current_enrol.
  - injection Hse as <-. by apply current_licence.
  - by eapply current_register_event.
Qed.

Lemma follows_serve_all es : forall l l', follows l -> Forall proper es -> tidy_all es l -> serve_all es l = Some l' -> follows l'.
Proof.
  induction es as [|e es IH]; intros l l' Hf Hp Hti; cbn; [by intros [= <-]|]. apply Forall_cons in Hp as [Hp Hps].
  destruct Hti as [Hti Htis]. destruct (serve e l) as [l1|] eqn:E; [|done]. cbn. apply IH; [|done|by apply Htis]. by eapply follows_serve.
Qed.

(** *** Start *)

Abbreviation boot := (boot (B := B) Secrets).

Lemma provision_all_entries ds now s : forall r u ep, byUser (provision_all ds r) !! u = Some ep ->
  (forall d, d ∈ ds -> d ∈ Devices s now) ->
  (exists ep0, byUser r !! u = Some ep0 /\ DeviceID ep = DeviceID ep0) \/ exists r', active s (DeviceID ep) = Some r' /\ Enroll.User r' = u.
Proof.
  induction ds as [|d ds IH]; intros r u ep Hu Hds; [by left; exists ep|]. cbn in Hu.
  destruct (IH _ u ep Hu) as [(ep0&E0&->)|]; [intros d' Hd'; apply Hds; by right| |by right].
  destruct (d_Revoked d) eqn:Er; [by left; eauto|]. cbn in E0. apply lookup_insert_Some in E0 as [[<- <-]|[_ E0]]; [|by left; eauto].
  right. destruct (elem_of_Devices s now d (Hds d ltac:(by left))) as (r'&Hr'&Ed). exists r'. cbn. split; [|by rewrite Ed].
  apply active_Some. split; [done|]. by rewrite Ed in Er.
Qed.

Lemma provision_all_domain ds : forall r u, is_Some (byUser r !! u) -> is_Some (byUser (provision_all ds r) !! u).
Proof.
  induction ds as [|d ds IH]; intros r u Hu; [done|]. cbn. apply IH. destruct (d_Revoked d); [done|]. cbn.
  apply lookup_insert_is_Some. destruct (decide (d_User d = u)); [by left|by right].
Qed.

Lemma provision_all_live ds d : forall r, d ∈ ds -> d_Revoked d = false -> is_Some (byUser (provision_all ds r) !! d_User d).
Proof.
  induction ds as [|d' ds IH]; intros r Hd Hr; [by apply not_elem_of_nil in Hd|]. apply elem_of_cons in Hd as [<-|Hd]; cbn; [|by apply IH].
  apply provision_all_domain. rewrite Hr. cbn. by rewrite lookup_insert_eq.
Qed.

(** The lines a start registers. *)
Lemma in_unlicensed s d r : inv s -> devices s !! d = Some r -> (d ∈ unlicensed s <-> unlic s d = true).
Proof.
  intros Hi Hd. pose proof (seat_bits s d) as Hb. rewrite Hd in Hb. destruct Hb as [_ ->]. rewrite andb_true_iff, bool_decide_eq_true.
  split; [|by intros [_ ?]]. intros Hu. split; [|done]. destruct (holdsSeat r) eqn:E; [done|]. by destruct (not_unlicensed s d r Hi Hd E).
Qed.

Definition credential_for (s : Store) (d : string) (r : record) (c : Enroll.PBXCredential) : Prop :=
  active s d = Some r /\ unlic s d = false /\ exists lr, PBXLine_ r = Some lr /\ credential Secrets d (Enroll.User r) lr = inr c.

(** The walk of [PBXCredentials]. *)
Definition walked (s : Store) (kr : string * record) : option Enroll.PBXCredential :=
  let '(id, r) := kr in
  if decide (Revoked r = true \/ id ∈ unlicensed s) then None
  else l ← PBXLine_ r; match credential Secrets id (Enroll.User r) l with inr c => Some c | inl _ => None end.

Lemma PBXCredentials_walked s : fst (PBXCredentials Secrets s) ≡ₚ omap (walked s) (map_to_list (devices s)).
Proof.
  unfold PBXCredentials. cbn [fst]. rewrite merge_sort_Permutation.
  induction (map_to_list (devices s)) as [|[id r] l IH]; [done|]. cbn. unfold walked at 1.
  destruct (decide _); [done|]. destruct (PBXLine_ r) as [lr|]; [|done]. cbn. destruct (credential Secrets id (Enroll.User r) lr); [done|].
  by constructor.
Qed.

Lemma walked_spec s d r c : inv s -> devices s !! d = Some r -> walked s (d, r) = Some c <-> credential_for s d r c.
Proof.
  intros Hi Hd. unfold walked, credential_for. rewrite active_Some. pose proof (in_unlicensed s d r Hi Hd) as Hu.
  destruct (decide _) as [Hx|Hx].
  - split; [done|]. intros ([_ Hr]&Hun&_). destruct Hx as [|Hx]; [congruence|]. apply Hu in Hx. congruence.
  - assert (Revoked r = false) as -> by (destruct (Revoked r); [exfalso; auto|done]).
    assert (unlic s d = false) as -> by (destruct (unlic s d); [exfalso; apply Hx; right; by apply Hu|done]).
    destruct (PBXLine_ r) as [lr|]; cbn; [|split; [done|by intros (_&_&?&?&_)]].
    destruct (credential Secrets d (Enroll.User r) lr) as [e|c'] eqn:Ec; split.
    + done.
    + intros (_&_&lr'&[= <-]&?). congruence.
    + intros [= <-]. split; [done|]. split; [done|]. by exists lr.
    + intros (_&_&lr'&[= <-]&?). congruence.
Qed.

Lemma elem_of_credentials s c : inv s -> c ∈ fst (PBXCredentials Secrets s) <-> exists d r, credential_for s d r c.
Proof.
  intros Hi. rewrite PBXCredentials_walked, list_elem_of_omap. split.
  - intros ([d r]&Hd%elem_of_map_to_list&Hw). exists d, r. by apply walked_spec.
  - intros (d&r&Hc). pose proof Hc as [[Hd _]%active_Some _]. exists (d, r). split; [by apply elem_of_map_to_list|]. by apply walked_spec.
Qed.

Lemma credential_user d u lr c : credential Secrets d u lr = inr c -> p_User c = u.
Proof. unfold credential. destruct Secrets as [box|]; [|done]. destruct (Open_ _ _ _); [|done]. by intros [= <-]. Qed.

Lemma credentials_users s : inv s -> NoDup (map p_User (fst (PBXCredentials Secrets s))).
Proof.
  intros Hi. change (map ?f ?l) with (f <$> l). rewrite PBXCredentials_walked. destruct Hi as (_&_&Hu).
  assert (forall d r, (d, r) ∈ map_to_list (devices s) -> devices s !! d = Some r) as Hl by (intros d r; apply elem_of_map_to_list).
  pose proof (NoDup_fst_map_to_list (devices s)) as Hn. induction (map_to_list (devices s)) as [|[d r] l IH]; [constructor|].
  cbn in Hn. apply NoDup_cons in Hn as [Hd Hn]. cbn -[walked]. specialize (IH (fun d r H => Hl d r (list_elem_of_further _ _ _ H)) Hn).
  destruct (walked s (d, r)) as [c|] eqn:Ew; [|done]. cbn -[walked]. apply NoDup_cons. split; [|done].
  assert (forall d r c, walked s (d, r) = Some c -> p_User c = Enroll.User r) as Huser.
  { intros d1 r1 c1. unfold walked. destruct (decide _); [done|]. destruct (PBXLine_ r1); [|done]. cbn.
    destruct (credential _ _ _ _) eqn:Ec; [done|]. intros [= <-]. by eapply credential_user. }
  intros (c2&Eu&([d2 r2]&Hin&Ew2)%list_elem_of_omap)%list_elem_of_fmap. rewrite (Huser _ _ _ Ew), (Huser _ _ _ Ew2) in Eu.
  apply Hd, list_elem_of_fmap. exists (d2, r2). split; [|done]. cbn. apply (Hu d d2 r r2); [apply Hl; left|apply Hl; by right|done].
Qed.

Lemma find_by_user (ls : list Line) u ln : NoDup (map PbxLine.User ls) ->
  find (fun l => bool_decide (PbxLine.User l = u)) ls = Some ln <-> ln ∈ ls /\ PbxLine.User ln = u.
Proof.
  intros Hn. split.
  - intros Hf. apply find_some in Hf as [Hi%list_elem_of_In Hu%bool_decide_eq_true]. done.
  - intros [Hi Hu]. induction Hi as [ln ls|ln l' ls Hi IH]; cbn in *; [by rewrite bool_decide_eq_true_2|].
    apply NoDup_cons in Hn as [Hl Hn]. rewrite bool_decide_eq_false_2; [by apply IH|]. intros E. apply Hl. rewrite E, <- Hu.
    by apply (list_elem_of_fmap_2 PbxLine.User).
Qed.

(** The lines a start gives its manager are the wanted ones. *)
Lemma start_lines now s b u ln : inv s -> named (devices s) -> readable (devices s) -> lb_good b ->
  lb_get (lb_set (linesFrom (fst (PBXCredentials Secrets s))) now b) u = Some ln <-> wants s u ln.
Proof.
  intros Hi Hnm Hr Hb. set (cs := fst (PBXCredentials Secrets s)).
  assert (map PbxLine.User (linesFrom cs) = map p_User cs) as Eu by (unfold linesFrom; rewrite map_map; by apply map_ext).
  assert (NoDup (map PbxLine.User (linesFrom cs))) as Hnd by (rewrite Eu; by apply credentials_users).
  rewrite lb_get_set; [|done|done|].
  2: { rewrite Eu. intros (c&E&Hc)%list_elem_of_fmap. apply elem_of_credentials in Hc as (d&r&[Hd _]%active_Some&_&lr&_&Hcr); [|done].
       rewrite (credential_user _ _ _ _ Hcr) in E. by eapply Hnm. }
  rewrite fmap_Some. split.
  - intros (l0&(Hl0&Hu)%find_by_user&->); [|done]. unfold linesFrom in Hl0. apply list_elem_of_fmap in Hl0 as (c&->&Hc).
    apply elem_of_credentials in Hc as (d&r&Ha&Hun&lr&El&Hcr); [|done]. exists d, r. split; [done|].
    split; [by rewrite <- (credential_user _ _ _ _ Hcr)|]. rewrite (registers_lined s d r), Hun by done. unfold lined. rewrite Ha. cbn.
    rewrite El. cbn. by rewrite Hcr.
  - intros (d&r&Ha&Eur&Hl). rewrite (registers_lined s d r) in Hl by done. destruct (unlic s d) eqn:Hun; [done|]. unfold lined in Hl.
    rewrite Ha in Hl. cbn in Hl. destruct (PBXLine_ r) as [lr|] eqn:El; [|done]. cbn in Hl.
    destruct (credential Secrets d (Enroll.User r) lr) as [|c] eqn:Ec; [done|]. injection Hl as <-. exists (line_of_credential c). split; [|done].
    apply find_by_user; [done|]. split; [|by rewrite <- Eur, <- (credential_user _ _ _ _ Ec)].
    apply (list_elem_of_fmap_2 line_of_credential), elem_of_credentials; [done|]. exists d, r. split; [done|]. split; [done|]. by exists lr.
Qed.

Lemma elem_of_Devices_live s now d r : devices s !! d = Some r -> Enroll.viewLocked s now d r ∈ Devices s now.
Proof.
  intros Hd. unfold Devices. rewrite merge_sort_Permutation. change (map ?f ?l) with (f <$> l). apply list_elem_of_fmap.
  exists (d, r). split; [done|]. by apply elem_of_map_to_list.
Qed.

Lemma follows_boot now auth lines limit s : inv s -> good (devices s) -> readable (devices s) -> is_Some auth ->
  (forall b, lines = Some b -> lb_good b) -> follows (boot now auth lines limit s).
Proof.
  intros Hi Hg Hr Ha Hlines. pose proof (tied_boot Secrets now auth lines limit s Hi Hg Ha) as Ht. split; [done|].
  split; [done| | | |].
  - intros d r _ Hact. change (active s d = Some r) in Hact. pose proof Hact as [Hd Hrv]%active_Some.
    destruct (provision_all_live (Devices s now) (Enroll.viewLocked s now d r) Registry.New) as [ep Hep]; [by apply elem_of_Devices_live|done|].
    cbn [d_User Enroll.viewLocked] in Hep. exists ep. split; [exact Hep|].
    destruct (provision_all_entries (Devices s now) now s Registry.New _ ep Hep) as [(ep0&E0&_)|(r'&Ha'&Eu)]; [done|by cbn in E0; rewrite lookup_empty in E0|].
    by eapply (active_unique s).
  - intros u ep _ Hep. change (byUser (provision_all (Devices s now) Registry.New) !! u = Some ep) in Hep.
    destruct (provision_all_entries (Devices s now) now s Registry.New u ep Hep) as [(ep0&E0&_)|(r'&Ha'&Eu)]; [done|by cbn in E0; rewrite lookup_empty in E0|].
    by eexists.
  - intros b. cbn. destruct lines as [b0|]; [|done]. intros [= <-]. by apply lb_set_good, Hlines.
  - intros [b Hb] u _ ln. unfold line_in, Server.boot in *. cbn [book store] in *. destruct lines as [b0|]; [|done].
    apply (start_lines now s b0 u ln); [done|by apply good_named|done|by apply Hlines].
Qed.

(** Two servers that follow stores with the same records and seats agree. *)
Lemma follows_agree l1 l2 : follows l1 -> follows l2 -> devices (store l1) = devices (store l2) -> unlicensed (store l1) = unlicensed (store l2) ->
  (forall u, DeviceID <$> byUser (table l1) !! u = DeviceID <$> byUser (table l2) !! u)
  /\ byDevice (table l1) = byDevice (table l2)
  /\ (is_Some (book l1) -> is_Some (book l2) -> forall u, line_in l1 u = line_in l2 u).
Proof.
  assert (forall l1 l2 u ep, follows l1 -> follows l2 -> devices (store l1) = devices (store l2) -> byUser (table l1) !! u = Some ep ->
    exists ep', byUser (table l2) !! u = Some ep' /\ DeviceID ep' = DeviceID ep) as Hhalf.
  { intros l1' l2' u ep [T1 C1] [T2 C2] Ed Hu. destruct (c_force _ _ _ C1 u ep) as [r Hr]; [done|done|].
    destruct (t_device _ _ T1 u ep Hu) as (r'&Hr'&<-); [done|]. pose proof Hr as [Hr0 Hrv]%active_Some. assert (r' = r) as -> by congruence.
    apply (c_live _ _ _ C2 (DeviceID ep) r); [done|]. unfold active. by rewrite <- Ed, Hr0; cbn; rewrite Hrv. }
  intros F1 F2 Ed Eun.
  assert (forall u, DeviceID <$> byUser (table l1) !! u = DeviceID <$> byUser (table l2) !! u) as Huser.
  { intros u. destruct (byUser (table l1) !! u) as [ep|] eqn:E1.
    - destruct (Hhalf l1 l2 u ep F1 F2 Ed E1) as (ep'&->&E). cbn. by rewrite E.
    - destruct (byUser (table l2) !! u) as [ep|] eqn:E2; [|done]. destruct (Hhalf l2 l1 u ep F2 F1 (eq_sym Ed) E2) as (ep'&E&_). congruence. }
  assert (forall (l : Live) d u, follows l -> byDevice (table l) !! d = Some u <-> DeviceID <$> byUser (table l) !! u = Some d) as Hdev.
  { intros l d u [T _]. split.
    - intros Hd. destruct (wf_devices _ (t_wf _ _ T) _ _ Hd) as (ep&->&<-&_). done.
    - destruct (byUser (table l) !! u) as [ep|] eqn:E; [|done]. intros [= <-]. by apply (t_index _ _ T). }
  split; [done|]. split.
  - apply map_eq. intros d. apply option_eq. intros u. rewrite !Hdev by done. by rewrite Huser.
  - intros H1 H2 u. apply option_eq. intros ln. destruct F1 as [_ C1], F2 as [_ C2].
    rewrite (c_book _ _ _ C1 H1 u), (c_book _ _ _ C2 H2 u) by done. unfold wants.
    assert (forall d, registers (store l1) d = registers (store l2) d) as Er.
    { intros d. unfold ServerSeats.registers, PBXCredential', SeatState. by rewrite Ed, Eun. }
    unfold active. rewrite Ed. split; intros (d&r&?&?&Hl); exists d, r; [by rewrite <- Er|by rewrite Er].
Qed.

(** C4: A server that has been used is as one that has just started over its
    store. After any tidy history (devices created, given tokens, revoked,
    purged, claimed, edited, their lines set and removed, licences changed,
    REGISTERs of anyone), the location table has the same users with the same
    devices, the device index is the same, and the exchange is asked for the
    same lines, as if the server were restarted: those of the devices in force
    that are enrolled with a seat or not enrolled yet. In particular no hook
    misses a change and none is left over. *)
Theorem a_used_server_is_as_a_restarted_one now auth lines limit s es l now' auth' lines' limit' :
  inv s -> good (devices s) -> readable (devices s) -> is_Some auth -> is_Some auth' ->
  (forall b, lines = Some b -> lb_good b) -> (forall b, lines' = Some b -> lb_good b) ->
  Forall proper es -> tidy_all es (boot now auth lines limit s) -> serve_all es (boot now auth lines limit s) = Some l ->
  let l' := boot now' auth' lines' limit' (store l) in
  (forall u, DeviceID <$> byUser (table l) !! u = DeviceID <$> byUser (table l') !! u)
  /\ byDevice (table l) = byDevice (table l')
  /\ (is_Some (book l) -> is_Some lines' -> forall u, line_in l u = line_in l' u).
Proof.
  intros Hi Hg Hr Ha Ha' Hb Hb' Hp Hti E l'.
  pose proof (follows_serve_all es _ l (follows_boot now auth lines limit s Hi Hg Hr Ha Hb) Hp Hti E) as Hf.
  assert (follows l') as Hf'.
  { pose proof Hf as [Ht Hc]. destruct (t_solid _ _ Ht) as [Hi' _ Hg']. by apply follows_boot; [| |apply Hc|..]. }
  destruct (follows_agree l l' Hf Hf') as (H1&H2&H3); [done|done|]. split; [done|]. split; [done|]. intros Hbl Hl. apply H3; [done|].
  unfold l'. cbn. by apply fmap_is_Some.
Qed.

End restart.
