(* ===== verification/ServerExample.v ===== *)
(** The server of Server at work: a small installation, the witnesses of its two
    properties, and what its modelling has found. *)

From S2P Require Import Prelude Text Limiter Registry SipAuth AppLeg AppLegProps PbxLine LineBook Enroll EnrollSeats EnrollProps Admin Server ServerSeats ServerProps ServerRestart.
Open Scope Z_scope.

(** ** An installation

    One enrolled phone, ten seats, lines mode. The digests are stand-ins and the
    box leaves a secret as it is. *)

Definition plain_box : Box := mkBox (fun _ secret => Some secret) (fun _ sealed => Some sealed).
Definition installed : Store := Twin.before.
Definition nonces : option Authenticator := Some (newNonce (T "n0") 10 (SipAuth.New (T "dialler"))).
Definition boot_at (now : Z) (s : Store) : Live (B := Manager) := Server.boot (Some plain_box) now nonces (Some PbxLine.New) 5 s.
Definition started : Live (B := Manager) := boot_at 3 installed.

(** What each handler draws: the clock at [t], and which files are written. *)
Definition draws (t : Z) (ok : nat -> bool) : Draws :=
  mkDraws (fun n => t + Z.of_nat n) ok ["dev_X"] (Some "a new token, long enough") [1; 2; 3; 4; 5; 6; 7; 8] ["phone1"; "phone2"].
Definition fine (t : Z) : Draws := draws t (fun _ => true).

Definition runs (es : list event) (l : Live (B := Manager)) : option (Live (B := Manager)) :=
  serve_all example_sha Twin.stand_in (Some plain_box) Twin.cfg (fun _ => false) (fun _ => true) Twin.parse es l.

Definition add (id user token : string) : answer + DeviceIn := inr (mkDeviceIn id user "" token).
Definition a_line : answer + LineIn := inr (mkLineIn "201" "u201" "s201").

(** The phone registers; a second device is created with a line; the licence
    runs out and comes back; the first phone is revoked. *)
Definition busy_day : list event :=
  [EvSetLine (fine 12) "phone1" a_line (inr None); EvRegister [] 20 Twin.refresh;
   EvPostDevice (fine 30) (add "phone2" "ann" ""); EvSetLine (fine 40) "phone2" a_line (inr None);
   EvLicence 50 0; EvLicence 60 4; EvDeleteDevice (fine 70) "phone1" ""].
Definition morning : list event := take 4 busy_day.

Definition after_morning : Live (B := Manager) := default started (runs morning started).
Definition after_day : Live (B := Manager) := default started (runs busy_day started).

Example morning_state :
  (Registry.Contact <$> byUser (table after_morning) !! "bob") = Some "sip:bob@10.0.0.1:4001;transport=tls"
  /\ (DeviceID <$> byUser (table after_morning) !! "ann") = Some "phone2"
  /\ (PbxLine.DN <$> line_in after_morning "bob") = Some "201".
Proof. split; [|split]; vm_compute; reflexivity. Qed.

Example day_state :
  byUser (table after_day) !! "bob" = None /\ line_in after_day "bob" = None /\ (PbxLine.DN <$> line_in after_day "ann") = Some "201"
  /\ Disconnected "phone1" "licence expired" ∈ did after_day.
Proof. split; [|split; [|split]]; [vm_compute; reflexivity..|]. apply list_elem_of_In. vm_compute. tauto. Qed.

(** ** Witnesses *)

Lemma installed_records d r : devices installed !! d = Some r -> d = "phone1" /\ r = Twin.bob.
Proof.
  intros E. change (({[ "phone1" := Twin.bob ]} : records) !! d = Some r) in E. by apply lookup_singleton_Some in E as [<- <-].
Qed.

Lemma installed_inv : inv installed.
Proof.
  split; [split; [by vm_compute|right; vm_compute; discriminate]|]. split.
  - intros d r [-> ->]%installed_records. discriminate.
  - intros d1 d2 r1 r2 [-> ->]%installed_records [-> ->]%installed_records. done.
Qed.

Lemma installed_good : good (devices installed).
Proof. intros d r [-> ->]%installed_records. split; [done|done|by vm_compute|done]. Qed.

Lemma installed_readable : readable (Some plain_box) (devices installed).
Proof. intros d r lr [-> ->]%installed_records. done. Qed.

Lemma fine_timely t : 0 < t -> timely (fine t).
Proof. intros Ht n. cbn. lia. Qed.

Lemma busy_day_proper : Forall proper busy_day.
Proof.
  repeat constructor; try (apply fine_timely; lia); [discriminate|].
  intros i [= <-]. by vm_compute.
Qed.

Lemma only_a_seated_device_is_reachable_witness :
  serve_all example_sha Twin.stand_in (Some plain_box) Twin.cfg (fun _ => false) (fun _ => true) Twin.parse morning
    (Server.boot (Some plain_box) 3 nonces (Some PbxLine.New) 5 installed) = Some after_morning
  /\ exists ep, byUser (table after_morning) !! "bob" = Some ep /\ Registry.Contact ep <> ""
     /\ exists r, devices (store after_morning) !! DeviceID ep = Some r /\ Enroll.User r = "bob" /\ Revoked r = false
                  /\ Licensed (store after_morning) (DeviceID ep) = true.
Proof.
  assert (serve_all example_sha Twin.stand_in (Some plain_box) Twin.cfg (fun _ => false) (fun _ => true) Twin.parse morning
    (Server.boot (Some plain_box) 3 nonces (Some PbxLine.New) 5 installed) = Some after_morning) as E.
  { unfold after_morning, runs, started, boot_at. destruct (serve_all _ _ _ _ _ _ _ morning _) eqn:E; [done|]. vm_compute in E. discriminate. }
  split; [exact E|]. destruct (byUser (table after_morning) !! "bob") as [ep|] eqn:Eb; [|vm_compute in Eb; discriminate].
  exists ep. assert (Registry.Contact ep <> "") as Hc by (vm_compute in Eb; injection Eb as <-; discriminate). split; [done|]. split; [exact Hc|].
  apply (proj1 (only_a_seated_device_is_reachable example_sha Twin.stand_in (Some plain_box) example_sha_nonempty Twin.cfg (fun _ => false)
    (fun _ => true) Twin.parse ltac:(by vm_compute) ltac:(by vm_compute) ltac:(by vm_compute) 3 nonces (Some PbxLine.New) 5 installed morning after_morning
    installed_inv installed_good ltac:(by eexists) ltac:(apply Forall_take, busy_day_proper) E) "bob" ep Eb Hc).
Defined.

Lemma every_event_is_answered_witness :
  is_Some (serve example_sha Twin.stand_in (Some plain_box) Twin.cfg (fun _ => false) (fun _ => true) Twin.parse
    (EvDeleteDevice (fine 70) "phone1" "1") after_morning).
Proof.
  destruct (every_event_is_answered example_sha Twin.stand_in (Some plain_box) example_sha_nonempty Twin.cfg (fun _ => false)
    (fun _ => true) Twin.parse ltac:(by vm_compute) ltac:(by vm_compute) ltac:(by vm_compute) 3 nonces (Some PbxLine.New) 5 installed morning after_morning
    (EvDeleteDevice (fine 70) "phone1" "1") installed_inv installed_good ltac:(by eexists) ltac:(apply Forall_take, busy_day_proper) I
    ltac:(unfold after_morning, runs, started, boot_at; destruct (serve_all _ _ _ _ _ _ _ morning _) eqn:E; [done|]; vm_compute in E; discriminate))
    as [Hs|(w&i&Hd&_)]; [exact Hs|discriminate Hd].
Defined.

(** A check of [tidy_all] that evaluates. *)
Definition in_force (id : string) (l : Live (B := Manager)) : bool :=
  match devices (store l) !! id with Some r => negb (Revoked r) | None => true end.

Fixpoint tidyb (es : list event) (l : Live (B := Manager)) : bool :=
  match es with
  | [] => true
  | e :: es => match e with
               | EvPostDevice _ (inr i) => in_force (in_DeviceID i) l
               | EvSetLine _ id _ _ => in_force id l
               | _ => true
               end
               && match runs [e] l with Some l' => tidyb es l' | None => true end
  end.

Lemma tidyb_sound es : forall l, (forall w i, EvPostDevice w (inr i) ∈ es -> forall n, saved w n = true) -> tidyb es l = true ->
  tidy_all example_sha Twin.stand_in (Some plain_box) Twin.cfg (fun _ => false) (fun _ => true) Twin.parse es l.
Proof.
  induction es as [|e es IH]; intros l Hw; [done|]. cbn [tidyb]. intros [He Hes]%andb_true_iff. split.
  - assert (forall id r, in_force id l = true -> devices (store l) !! id = Some r -> Revoked r = false) as Hf.
    { intros id r Hid E. unfold in_force in Hid. rewrite E in Hid. by apply negb_true_iff in Hid. }
    destruct e as [w [x|i]| | | | | |w id body pre| | | |]; try done; cbn.
    + split; [by apply (Hw w i); left|]. intros r. by apply Hf.
    + intros r. by apply Hf.
  - intros l' E. unfold runs in Hes. cbn [serve_all] in Hes. rewrite E in Hes. cbn in Hes. apply IH; [|done]. intros w i Hi. apply (Hw w i). by right.
Qed.

Lemma plain_box_opens (box : Box) (d secret sealed : string) :
  Some plain_box = Some box -> Seal box d secret = Some sealed -> Open_ box d sealed = Some secret.
Proof. intros [= <-] [= <-]. done. Qed.

Lemma busy_day_saved w i : EvPostDevice w (inr i) ∈ busy_day -> forall n, saved w n = true.
Proof.
  intros Hi n. unfold busy_day in Hi. rewrite !elem_of_cons in Hi.
  destruct Hi as [Hi|[Hi|[Hi|[Hi|[Hi|[Hi|[Hi|Hi]]]]]]]; try discriminate Hi; [by injection Hi as -> _|by apply not_elem_of_nil in Hi].
Qed.

Lemma busy_day_tidy : tidy_all example_sha Twin.stand_in (Some plain_box) Twin.cfg (fun _ => false) (fun _ => true) Twin.parse busy_day
  (Server.boot (Some plain_box) 3 nonces (Some PbxLine.New) 5 installed).
Proof. apply tidyb_sound; [apply busy_day_saved|]. vm_compute. reflexivity. Qed.

Lemma a_used_server_is_as_a_restarted_one_witness :
  serve_all example_sha Twin.stand_in (Some plain_box) Twin.cfg (fun _ => false) (fun _ => true) Twin.parse busy_day
    (Server.boot (Some plain_box) 3 nonces (Some PbxLine.New) 5 installed) = Some after_day
  /\ byDevice (table after_day) = byDevice (table (boot_at 80 (store after_day)))
  /\ forall u, line_in after_day u = line_in (boot_at 80 (store after_day)) u.
Proof.
  assert (serve_all example_sha Twin.stand_in (Some plain_box) Twin.cfg (fun _ => false) (fun _ => true) Twin.parse busy_day
    (Server.boot (Some plain_box) 3 nonces (Some PbxLine.New) 5 installed) = Some after_day) as E.
  { unfold after_day, runs, started, boot_at. destruct (serve_all _ _ _ _ _ _ _ busy_day _) eqn:E; [done|]. vm_compute in E. discriminate. }
  split; [exact E|].
  assert (forall b : Manager, Some PbxLine.New = Some b -> lb_good b) as Hb by (intros b [= <-]; apply filed_New).
  destruct (a_used_server_is_as_a_restarted_one example_sha Twin.stand_in (Some plain_box) example_sha_nonempty plain_box_opens Twin.cfg
    (fun _ => false) (fun _ => true) Twin.parse ltac:(by vm_compute) ltac:(by vm_compute) ltac:(by vm_compute) 3 nonces (Some PbxLine.New) 5
    installed busy_day after_day 80 nonces (Some PbxLine.New) 5 installed_inv installed_good installed_readable
    (ex_intro _ _ eq_refl) (ex_intro _ _ eq_refl) Hb Hb busy_day_proper busy_day_tidy E) as (_&H2&H3).
  split; [exact H2|]. apply H3; [|by eexists]. destruct (book after_day) as [b|] eqn:Eb; [by eexists|]. vm_compute in Eb. discriminate.
Defined.

(** ** Findings *)

(** A line set on a revoked device is registered on the exchange, and deleting
    it leaves it there: the hook of a deletion looks for a user that only a
    device in force has. A restart would drop it. *)
Lemma line_on_a_revoked_device :
  let es := [EvDeleteDevice (fine 12) "phone1" ""; EvSetLine (fine 20) "phone1" a_line (inr None); EvDeleteLine (fine 30) "phone1" (inr None)] in
  exists l, runs es started = Some l /\ PBXLine' (store l) "phone1" = None
    /\ (PbxLine.DN <$> line_in l "bob") = Some "201" /\ line_in (boot_at 40 (store l)) "bob" = None.
Proof. eexists. split; [by vm_compute|]. split; [by vm_compute|]. split; by vm_compute. Qed.

(** Giving a revoked device a token by the admin API puts its user back in the
    location table, and leaves it revoked: a call to it waits for a phone that
    cannot connect, where after a restart it is unknown at once. *)
Lemma token_for_a_revoked_device :
  let es := [EvDeleteDevice (fine 12) "phone1" ""; EvPostDevice (fine 20) (add "phone1" "bob" "a fixed token of bob")] in
  exists l, runs es started = Some l /\ UserFor (store l) "phone1" = None
    /\ (DeviceID <$> byUser (table l) !! "bob") = Some "phone1" /\ byUser (table (boot_at 40 (store l))) !! "bob" = None.
Proof. eexists. split; [by vm_compute|]. split; [by vm_compute|]. split; by vm_compute. Qed.

(** When the file cannot be written for the code of a device that was just
    created, the request fails, and the device is in the store but not in the
    location table: a call to its user is answered as to an unknown one until
    its code is claimed or the server restarts. *)
Lemma half_created_device :
  let w := draws 12 (fun n => (n <? 2)%nat) in
  let st := mkStore true (Realm_ installed) (devices installed) None (seats installed) (used installed) ∅ false [] in
  exists l a, post_device example_sha Twin.stand_in (Some plain_box) w (add "phone2" "ann" "") (boot_at 3 st) = Some (l, a)
    /\ a_status (fst a) = 500 /\ UserFor (store l) "phone2" = Some "ann" /\ byUser (table l) !! "ann" = None.
Proof. eexists _, _. split; [by vm_compute|]. split; [by vm_compute|]. split; by vm_compute. Qed.

(** A device that is revoked is first told it has no licence seat: the seat
    callback runs inside the revocation, before its own hook. *)
Lemma revoked_is_told_no_seat :
  exists l, runs [EvDeleteDevice (fine 12) "phone1" ""] started = Some l
    /\ did l = [Disconnected "phone1" "no licence seat"; Emitted "seat_lost" "phone1" ""; Disconnected "phone1" rotated; Emitted "device_revoked" "phone1" ""].
Proof. eexists. split; by vm_compute. Qed.
