(* ===== verification/Transfer.v ===== *)
(** A bridged call (src/server/internal/b2bua/transfer.go): its two legs, the
    relay between them, hold music, transfers completed here or by the PBX, and
    the wait for its end; and the view of it status.go gives.

    - A [sys] is the call and the goroutines that work on it: the one that waits
      for its end, one for each REFER, one for each referrer being let go. A step
      is a stretch of one goroutine up to where it next waits, or something the
      parties do; steps interleave freely.
    - A leg is its place in [legs]; its [done] is the end of its dialog's context,
      [bye] that we have asked it to end (BYE, CANCEL), [closed] its session's
      Close. A channel is its place in [chans], closed or not.
    - A pump is its source and its sink; what it does to packets is in Pump.
    - Arguments of the steps: what the SIP stack, the parties and the timers
      answer. Logging is left out. [qualifyLegs] is in Qualify. *)

From S2P Require Import Prelude Text Net Registry Routing Trunk Call.
Open Scope Z_scope.

(** ** Data *)

Record Codec := mkCodec { Name : string; PayloadType : Z; SampleRate : Z; SampleDur : Z; NumChannels : Z }.

#[export] Instance codec_eq_dec : EqDecision Codec.
Proof. solve_decision. Defined.

(** The zero value, before an answer. *)
Definition no_codec : Codec := mkCodec "" 0 0 0 0.

Definition sameCodec (x y : Codec) : bool :=
  bool_decide (Name x = Name y) && (SampleRate x =? SampleRate y) && (NumChannels x =? NumChannels y).

Record callLeg := mkLeg {
  trunk : bool; codec : Codec; party : text;
  up : bool; done : bool; bye : bool; closed : bool }.

Inductive clip := Music | Ringback | Busy.

#[export] Instance clip_eq_dec : EqDecision clip.
Proof. solve_decision. Defined.

(** A clip playing to a leg, in the codec it was encoded for. *)
Record player := mkPlayer { p_clip : clip; p_to : nat; p_codec : Codec }.

(** The players that run, each with its number; [holdStop] stops one of them. *)
Record playing := mkPlaying { holdStop : option nat; heldBy : option nat; players : list (nat * player); played : nat }.

Record bridgedCall := mkCall {
  legs : list callLeg; a : nat; b : option nat;
  pumps : list (nat * nat); relaying : bool;
  hold : playing;
  swapped : bool; gone : bool;
  chans : list bool; handing : option nat; offload : option nat; offloaded : bool;
  woken : list string }.

Definition with_legs x c := mkCall x (a c) (b c) (pumps c) (relaying c) (hold c) (swapped c) (gone c) (chans c) (handing c) (offload c) (offloaded c) (woken c).
Definition with_parties x y c := mkCall (legs c) x y (pumps c) (relaying c) (hold c) (swapped c) (gone c) (chans c) (handing c) (offload c) (offloaded c) (woken c).
Definition with_relay x y c := mkCall (legs c) (a c) (b c) x y (hold c) (swapped c) (gone c) (chans c) (handing c) (offload c) (offloaded c) (woken c).
Definition with_hold x c := mkCall (legs c) (a c) (b c) (pumps c) (relaying c) x (swapped c) (gone c) (chans c) (handing c) (offload c) (offloaded c) (woken c).
Definition with_swapped x c := mkCall (legs c) (a c) (b c) (pumps c) (relaying c) (hold c) x (gone c) (chans c) (handing c) (offload c) (offloaded c) (woken c).
Definition with_gone x c := mkCall (legs c) (a c) (b c) (pumps c) (relaying c) (hold c) (swapped c) x (chans c) (handing c) (offload c) (offloaded c) (woken c).
Definition with_chans x c := mkCall (legs c) (a c) (b c) (pumps c) (relaying c) (hold c) (swapped c) (gone c) x (handing c) (offload c) (offloaded c) (woken c).
Definition with_handing x c := mkCall (legs c) (a c) (b c) (pumps c) (relaying c) (hold c) (swapped c) (gone c) (chans c) x (offload c) (offloaded c) (woken c).
Definition with_offload x y c := mkCall (legs c) (a c) (b c) (pumps c) (relaying c) (hold c) (swapped c) (gone c) (chans c) (handing c) x y (woken c).
Definition with_woken x c := mkCall (legs c) (a c) (b c) (pumps c) (relaying c) (hold c) (swapped c) (gone c) (chans c) (handing c) (offload c) (offloaded c) x.

(** ** Legs and channels *)

Definition is_done (l : nat) (c : bridgedCall) : bool := match legs c !! l with Some x => done x | None => false end.
Definition codec_of (l : nat) (c : bridgedCall) : option Codec := codec <$> legs c !! l.
Definition on_leg (f : callLeg -> callLeg) (l : nat) (c : bridgedCall) : bridgedCall := with_legs (alter f l (legs c)) c.

(** [Hangup], and whether the BYE was answered; [Close]; the dialog's end. *)
Definition Hangup (ok : bool) : nat -> bridgedCall -> bridgedCall :=
  on_leg (fun x => mkLeg (trunk x) (codec x) (party x) (up x) (done x || ok) true (closed x)).
Definition Close : nat -> bridgedCall -> bridgedCall :=
  on_leg (fun x => mkLeg (trunk x) (codec x) (party x) (up x) (done x) (bye x) true).
Definition leave : nat -> bridgedCall -> bridgedCall :=
  on_leg (fun x => mkLeg (trunk x) (codec x) (party x) (up x) true (bye x) (closed x)).
Definition set_codec (k : Codec) : nat -> bridgedCall -> bridgedCall :=
  on_leg (fun x => mkLeg (trunk x) k (party x) (up x) (done x) (bye x) (closed x)).
Definition answered_leg : nat -> bridgedCall -> bridgedCall :=
  on_leg (fun x => mkLeg (trunk x) (codec x) (party x) true (done x) (bye x) (closed x)).
Definition hangup_live (ok : bool) (l : nat) (c : bridgedCall) : bridgedCall := if is_done l c then c else Hangup ok l c.

Definition make_chan (c : bridgedCall) : bridgedCall * nat := (with_chans (chans c ++ [false]) c, length (chans c)).
Definition close_chan (ch : nat) (c : bridgedCall) : bridgedCall := with_chans (<[ch := true]> (chans c)) c.
Definition is_closed (ch : nat) (c : bridgedCall) : bool := bool_decide (chans c !! ch = Some true).

(** The other party of [from]. *)
Definition opposite (from : nat) (c : bridgedCall) : option nat := if decide (Some from = b c) then Some (a c) else b c.

(** ** Hold music *)

(** [moh.Clip]: is there such a clip for a codec? *)
Definition Clip (codec : string) : bool := bool_decide (ToLower (T codec) ∈ [T "pcmu"; T "pcma"; T "g722"; T "opus"]).

Definition stopHoldLocked (c : bridgedCall) : bridgedCall :=
  let h := hold c in
  with_hold (mkPlaying None None (match holdStop h with Some n => filter (fun p => p.1 <> n) (players h) | None => players h end) (played h)) c.

Definition playLocked (from : nat) (k : clip) (c : bridgedCall) : bridgedCall * bool :=
  let c := stopHoldLocked c in
  let feed := if decide (Some from = b c) then 1%nat else 0%nat in
  match opposite from c with
  | None => (c, false)
  | Some other =>
      if (length (pumps c) <=? feed)%nat then (c, false) else
      match codec_of other c with
      | None => (c, false)
      | Some kc =>
          if negb (Clip (Name kc)) then (c, false) else
          let h := hold c in
          (with_hold (mkPlaying (Some (played h)) (heldBy h) (players h ++ [(played h, mkPlayer k other kc)]) (S (played h))) c, true)
      end
  end.

Definition hold_by (by_ : nat) (c : bridgedCall) : bridgedCall :=
  with_hold (mkPlaying (holdStop (hold c)) (Some by_) (players (hold c)) (played (hold c))) c.

Definition setHeld (by_ : nat) (held : bool) (c : bridgedCall) : bridgedCall :=
  if negb held then if decide (heldBy (hold c) = Some by_) then stopHoldLocked c else c else
  if decide (heldBy (hold c) = Some by_) then c else
  let '(c, ok) := playLocked by_ Music c in if ok : bool then hold_by by_ c else c.

(** ** The relay *)

(** [ok]: the pumps could be made. *)
Definition startLocked (ok : bool) (c : bridgedCall) : bridgedCall * bool :=
  let c := stopHoldLocked c in
  if negb ok then (with_relay [] true c, false) else
  match b c with
  | None => (with_relay [(a c, a c)] true c, true)
  | Some y => (with_relay [(a c, y); (y, a c)] true c, true)
  end.

Definition newBridgedCall (x y : callLeg) : bridgedCall :=
  mkCall [x; y] 0 (Some 1%nat) [] false (mkPlaying None None [] 0) false false [] None None false [].

(** ** Goroutines *)

(** What woke the wait: the first leg's end, the second's, or a silent party. *)
Inductive why := AEnded | BEnded | Silent.

Inductive wait_pc :=
  | WLook
  | WSelect (x : nat) (y : option nat)
  | WOffload (w : why) (x : nat) (y : option nat)                 (* awaitOffload *)
  | WOffloading (ch : nat) (w : why) (x : nat) (y : option nat)
  | WHandover (w : why) (x : nat) (y : option nat)                (* awaitHandover *)
  | WHanding (ch : nat)
  | WHangup (w : why) (x : nat) (y : option nat)
  | WStop
  | WOver.

Inductive terr := ErrEcho | ErrParse | Err404 | Err403 | Err488 | ErrDestination | ErrDialog | ErrInvite | ErrAck | ErrRelay.

Inductive transfer_pc :=
  | TRefer                                (* our REFER to the PBX is out *)
  | TOutcome                              (* its outcome is awaited *)
  | TFinish                               (* finishOffload: the referrer is let go *)
  | TRelease                              (* finishOffload: then the remaining party *)
  | TDecided                              (* completed here *)
  | TLook                                 (* the target is looked up and woken *)
  | TInviting (leg : nat)
  | TBusy (leg : nat)
  | TAnswered (leg : nat) (k : Codec)
  | TMoving (leg : nat)
  | TBridging (leg : option nat)
  | TReferrer                             (* the referrer is let go after the answer *)
  | TClosing                              (* the deferred function *)
  | TSettling
  | TDone.

Record transfer := mkTransfer {
  from : nat; other : nat; decision : Decision_;
  pc : transfer_pc;
  ours : nat;                             (* its own [handing] *)
  origA : nat; origB : option nat;
  released : bool; handed : bool; result : option terr }.

Definition with_pc x t := mkTransfer (from t) (other t) (decision t) x (ours t) (origA t) (origB t) (released t) (handed t) (result t).
Definition with_released t := mkTransfer (from t) (other t) (decision t) (pc t) (ours t) (origA t) (origB t) true (handed t) (result t).
Definition with_handed t := mkTransfer (from t) (other t) (decision t) (pc t) (ours t) (origA t) (origB t) (released t) true (result t).
Definition failed e t := mkTransfer (from t) (other t) (decision t) TClosing (ours t) (origA t) (origB t) (released t) (handed t) (Some e).

Record sys := mkSys {
  call : bridgedCall;
  waiter : wait_pc;
  transfers : list transfer;
  releases : list (nat * bool);           (* a referrer being let go, and whether it is over *)
  did : list act }.

(** ** The wait for the end *)

Section steps.
Context (srv : Server) (parses : text -> bool).

Definition on_call (f : bridgedCall -> bridgedCall) (s : sys) : sys := mkSys (f (call s)) (waiter s) (transfers s) (releases s) (did s).
Definition with_waiter (w : wait_pc) (s : sys) : sys := mkSys (call s) w (transfers s) (releases s) (did s).

(** The select: [None] is the signal of a swap. *)
Definition wait_woken (w : option why) (s : sys) : option sys :=
  match waiter s with
  | WSelect x y =>
      match w with
      | None => if swapped (call s) then Some (with_waiter WLook (on_call (with_swapped false) s)) else None
      | Some AEnded => if is_done x (call s) then Some (with_waiter (WOffload AEnded x y) s) else None
      | Some BEnded => match y with
                       | Some y' => if is_done y' (call s) then Some (with_waiter (WOffload BEnded x y) s) else None
                       | None => None
                       end
      | Some Silent => if gone (call s) then Some (with_waiter (WOffload Silent x y) s) else None
      end
  | _ => None
  end.

Definition hang_up_rest (ok1 ok2 : bool) (w : why) (x : nat) (y : option nat) (c : bridgedCall) : bridgedCall :=
  let hang_y ok c := match y with Some y => Hangup ok y c | None => c end in
  match w with
  | AEnded => hang_y ok2 c
  | BEnded => Hangup ok1 x c
  | Silent => hang_y ok2 (Hangup ok1 x c)
  end.

(** Their first halves; the second follow the channel's end. *)
Definition awaitOffload (w : why) (x : nat) (y : option nat) (c : bridgedCall) : wait_pc :=
  match offload c with None => WHandover w x y | Some ch => WOffloading ch w x y end.
Definition awaitHandover (w : why) (x : nat) (y : option nat) (c : bridgedCall) : wait_pc :=
  match handing c with None => WHangup w x y | Some ch => WHanding ch end.

(** [ok1], [ok2]: the answers to our BYEs. [None]: it is waiting, or over. *)
Definition wait_step (ok1 ok2 : bool) (s : sys) : option sys :=
  let c := call s in
  match waiter s with
  | WLook => Some (with_waiter (WSelect (a c) (b c)) s)
  | WSelect _ _ => None
  | WOffload w x y => Some (with_waiter (awaitOffload w x y c) s)
  | WOffloading ch w x y => if is_closed ch c then Some (with_waiter (if offloaded c then WStop else WHandover w x y) s) else None
  | WHandover w x y => Some (with_waiter (awaitHandover w x y c) s)
  | WHanding ch => if is_closed ch c then Some (with_waiter WLook (on_call (with_handing None) s)) else None
  | WHangup w x y => Some (with_waiter WStop (on_call (hang_up_rest ok1 ok2 w x y) s))
  | WStop => Some (mkSys (with_relay (pumps c) false c) WOver (transfers s) (releases s)
                         (did s ++ (if has_waker srv then map ForgetWake (woken c) else [])))
  | WOver => None
  end.

(** ** A transfer *)

Definition shouldOffload (remaining : nat) (target : Target) (c : bridgedCall) : bool :=
  match legs c !! remaining with Some x => trunk x && bool_decide (target = Routing.Trunk) | None => false end.

(** [transfer], up to where it first waits: a REFER from a party's leg. *)
Definition refer (f : nat) (d : Decision_) (s : sys) : option sys :=
  let c := call s in
  match legs c !! f with
  | Some x =>
      if negb (up x) || done x then None else
      let new t := Some (mkSys c (waiter s) (transfers s ++ [t]) (releases s) (did s)) in
      let begin o p e := mkTransfer f o d p 0 0 None false false e in
      match opposite f c with
      | None => new (begin f TDone (Some ErrEcho))
      | Some o =>
          if shouldOffload o (target d) c then
            match cfg_trunk srv with
            | None => new (begin o TDecided None)
            | Some t => new (begin o (if parses (URI t (User_ d)) then TRefer else TDone)
                                   (if parses (URI t (User_ d)) then None else Some ErrParse))
            end
          else new (begin o TDecided None)
      end
  | None => None
  end.

Definition referOutcome (code : Z) : bool * bool :=
  if code <? 200 then (false, false) else if code <? 300 then (true, true) else (true, false).

Definition handsOver (status : Z) : bool := (180 <=? status) && (status <? 200).

Definition beginOffload (c : bridgedCall) : bridgedCall := let '(c, ch) := make_chan c in with_offload (Some ch) (offloaded c) c.

Definition endOffload (succeeded : bool) (c : bridgedCall) : bridgedCall :=
  let c := with_offload (offload c) succeeded c in
  match offload c with Some ch => close_chan ch c | None => c end.

(** [finishOffload] up to the NOTIFY. *)
Definition finishOffload (c : bridgedCall) : bridgedCall := with_relay (pumps c) false c.

(** What the destination's resolution and the dial come to. *)
Record dial := mkDial { flow_alive : bool; wait_ : wake_wait; dialog_ok : bool }.

(** [transferDestination]: the address and whether it is the trunk's. *)
Definition transferDestination (d : Decision_) (o : dial) (c : bridgedCall) : bridgedCall * list act * option (text * bool) :=
  let parsed u t := if parses u : bool then Some (u, t : bool) else None in
  match target d with
  | Routing.Trunk => match cfg_trunk srv with None => (c, [], None) | Some t => (c, [], parsed (URI t (User_ d)) true) end
  | _ =>
      let ep := default (mkEndpoint "" "" "" 0) (Endpoint_ d) in
      let stale := Registered_ d && negb (cfg_keep srv) && negb (flow_alive o) in
      let dropped := if stale then [Unregister (User ep)] else [] in
      if Registered_ d && negb stale then (c, dropped, parsed (T (Contact ep)) false) else
      let '(tr, r) := wakeAndWaitFrom srv false ep (wait_ o) (mkTrace [] false) in
      match r with
      | None => (c, dropped ++ out tr, None)
      | Some ep' => (with_woken (woken c ++ [DeviceID ep]) c, dropped ++ out tr, parsed (T (Contact ep')) false)
      end
  end.

Definition legParty (l : nat) (c : bridgedCall) : text := match legs c !! l with Some x => party x | None => [] end.

Definition with_transfer (i : nat) (t : transfer) (f : bridgedCall -> bridgedCall) (s : sys) : sys :=
  mkSys (f (call s)) (waiter s) (<[i := t]> (transfers s)) (releases s) (did s).

(** Up to the INVITE. *)
Definition look (i : nat) (t : transfer) (o : dial) (s : sys) : sys :=
  let c := call s in
  match target (decision t) with
  | Routing.Unknown => with_transfer i (failed Err404 t) id s
  | Routing.Echo => with_transfer i (with_pc (TBridging None) t) id s
  | _ =>
      let '(c, acts, r) := transferDestination (decision t) o c in
      let s := mkSys c (waiter s) (transfers s) (releases s) (did s ++ acts) in
      match r with
      | None => with_transfer i (failed ErrDestination t) id s
      | Some (dst, tr) =>
          if negb (dialog_ok o) then with_transfer i (failed ErrDialog t) id s else
          match calleeInvite (cfg_lines srv) (cfg_default_line srv) (cfg_pbx_domain srv) (cfg_external srv) (cfg_trunk srv) tr
                             (legParty (other t) c) with
          | None => with_transfer i (failed Err403 t) id s
          | Some who =>
              let s := mkSys c (waiter s) (transfers s) (releases s) (did s ++ [Invite dst tr who]) in
              with_transfer i (with_pc (TInviting (length (legs c))) t)
                (fun c => with_legs (legs c ++ [mkLeg tr no_codec dst false false false false]) c) s
          end
      end
  end.

(** A response of the target. *)
Definition rings (i : nat) (t : transfer) (status : Z) (s : sys) : sys :=
  if negb (handsOver status) || released t then s else
  mkSys (fst (playLocked (from t) Ringback (call s))) (waiter s) (<[i := with_released t]> (transfers s))
        (releases s ++ [(from t, false)]) (did s).

(** The INVITE has failed. *)
Definition refused (i : nat) (t : transfer) (leg : nat) (s : sys) : sys :=
  let s := on_call (fun c => Close leg (Hangup true leg c)) s in
  if negb (released t) then with_transfer i (failed ErrInvite t) id s
  else with_transfer i (with_pc (TBusy leg) t) (fun c => fst (playLocked (from t) Busy c)) s.

Definition busy_over (i : nat) (t : transfer) (ok : bool) (s : sys) : sys :=
  with_transfer i (failed ErrInvite (with_handed t)) (fun c => hangup_live ok (other t) (stopHoldLocked c)) s.

(** Our ACK, and the codec of the answer. *)
Definition acked (i : nat) (t : transfer) (leg : nat) (k : Codec) (ok : bool) (s : sys) : sys :=
  if negb ok then with_transfer i (failed ErrAck t) (fun c => Close leg (leave leg c)) s else
  let same := match codec_of (other t) (call s) with Some ko => sameCodec k ko | None => false end in
  with_transfer i (with_pc (if same then TBridging (Some leg) else TMoving leg) t) (set_codec k leg) s.

(** [renegotiateCodec]: the codec the re-INVITE settled on, if it was answered. *)
Definition moved (i : nat) (t : transfer) (leg : nat) (got : option Codec) (ok : bool) (s : sys) : sys :=
  match got, codec_of leg (call s) with
  | Some k, Some kl =>
      if sameCodec k kl then with_transfer i (with_pc (TBridging (Some leg)) t) (set_codec k (other t)) s
      else with_transfer i (failed Err488 t) (fun c => Close leg (Hangup ok leg c)) s
  | _, _ => with_transfer i (failed Err488 t) (fun c => Close leg (Hangup ok leg c)) s
  end.

(** The legs are swapped and the pumps started. *)
Definition bridge_legs (i : nat) (t : transfer) (leg : option nat) (ok : bool) (s : sys) : sys :=
  let c := call s in
  let c := if decide (from t = a c) then with_parties (other t) leg c else with_parties (a c) leg c in
  let '(c, started) := startLocked ok c in
  if negb started then with_transfer i (failed ErrRelay t) (fun _ => c) s else
  let t := with_handed t in
  with_transfer i (with_pc (if released t then TClosing else TReferrer) t) (fun _ => with_swapped true c) s.

(** The end of [releaseReferrer]: it has left, or is hung up. *)
Definition let_go (ok : bool) (l : nat) (c : bridgedCall) : bridgedCall := Close l (hangup_live ok l c).

(** The deferred function, under the lock. [held]: the referrer's leg is on hold. *)
Definition settle (t : transfer) (held : bool) (c : bridgedCall) : bridgedCall :=
  if handed t || bool_decide (a c <> origA t) || bool_decide (b c <> origB t) then c else
  let c := stopHoldLocked c in
  if released t then c else
  if held then let '(c, ok) := playLocked (from t) Music c in if ok : bool then hold_by (from t) c else c else c.

(** ** The system *)

Inductive event :=
  | EHeld (l : nat) (held : bool)                  (* a party re-INVITEs *)
  | ELeaves (l : nat)                              (* a party's dialog ends *)
  | ESilent                                        (* qualifyLegs closes [gone] *)
  | ERefer (f : nat) (d : Decision_)
  | EWoken (w : option why)
  | EWait (ok1 ok2 : bool)
  | EReleased (n : nat) (ok : bool)                (* releaseReferrer in its own goroutine *)
  | EReferred (i : nat) (ok : bool)                (* the answer to our REFER *)
  | EOutcome (i : nat) (code : Z)
  | EMoved (i : nat)                               (* the PBX hung our leg up *)
  | ETimeout (i : nat)
  | EHand (i : nat)
  | ELook (i : nat) (o : dial)
  | ERings (i : nat) (status : Z)
  | ERefused (i : nat)
  | EAnswered (i : nat) (k : Codec)
  | EAcked (i : nat) (ok : bool)
  | ECodec (i : nat) (got : option Codec) (ok : bool)
  | EBridge (i : nat) (ok : bool)
  | EProceed (i : nat) (ok held : bool).           (* the steps that take no answer but a BYE's *)

(** A transfer's turn; [None]: it does not wait for that. *)
Definition transfer_step (e : event) (i : nat) (t : transfer) (s : sys) : option sys :=
  match e, pc t with
  | EReferred _ ok, TRefer => Some (with_transfer i (with_pc (if ok then TOutcome else TDecided) t) (if ok then beginOffload else id) s)
  | EOutcome _ code, TOutcome =>
      let '(final, ok) := referOutcome code in
      Some (if negb final then s else
            if negb ok then with_transfer i (with_pc TDecided t) (endOffload false) s
            else with_transfer i (with_pc TFinish t) finishOffload s)
  | EMoved _, TOutcome => if is_done (other t) (call s) then Some (with_transfer i (with_pc TFinish t) finishOffload s) else None
  | ETimeout _, TOutcome => Some (with_transfer i (with_pc TDecided t) (endOffload false) s)
  | EHand _, TDecided =>
      let c := fst (playLocked (from t) Music (call s)) in
      let '(c, ch) := make_chan c in
      Some (with_transfer i (mkTransfer (from t) (other t) (decision t) TLook ch (a c) (b c) (released t) (handed t) (result t))
                          (fun _ => with_handing (Some ch) c) s)
  | ELook _ o, TLook => Some (look i t o s)
  | ERings _ status, TInviting _ => Some (rings i t status s)
  | ERefused _, TInviting leg => Some (refused i t leg s)
  | EAnswered _ k, TInviting leg =>
      if is_done (other t) (call s) then None else Some (with_transfer i (with_pc (TAnswered leg k) t) (answered_leg leg) s)
  | EAcked _ ok, TAnswered leg k => Some (acked i t leg k ok s)
  | ECodec _ got ok, TMoving leg => Some (moved i t leg got ok s)
  | EBridge _ ok, TBridging leg => Some (bridge_legs i t leg ok s)
  | EProceed _ ok _, TBusy _ => Some (busy_over i t ok s)
  | EProceed _ ok _, TFinish => Some (with_transfer i (with_pc TRelease t) (let_go ok (from t)) s)
  | EProceed _ ok _, TRelease => Some (with_transfer i (with_pc TDone t) (fun c => endOffload true (let_go ok (other t) c)) s)
  | EProceed _ ok _, TReferrer => Some (with_transfer i (with_pc TClosing t) (let_go ok (from t)) s)
  | EProceed _ _ _, TClosing => Some (with_transfer i (with_pc TSettling t) (close_chan (ours t)) s)
  | EProceed _ _ held, TSettling => Some (with_transfer i (with_pc TDone t) (settle t held) s)
  | _, _ => None
  end.

(** The transfer an event is for. *)
Definition whose (e : event) : option nat :=
  match e with
  | EReferred i _ | EOutcome i _ | EMoved i | ETimeout i | EHand i | ELook i _ | ERings i _ | ERefused i | EAnswered i _
  | EAcked i _ | ECodec i _ _ | EBridge i _ | EProceed i _ _ => Some i
  | _ => None
  end.

(** [None]: the event cannot happen now. *)
Definition step (e : event) (s : sys) : option sys :=
  match e with
  | EHeld l held => if decide (l < 2)%nat then Some (on_call (setHeld l held) s) else None
  | ELeaves l => match legs (call s) !! l with
                 | Some x => if up x then Some (on_call (leave l) s) else None
                 | None => None
                 end
  | ESilent => Some (on_call (with_gone true) s)
  | ERefer f d => refer f d s
  | EWoken w => wait_woken w s
  | EWait ok1 ok2 => wait_step ok1 ok2 s
  | EReleased n ok =>
      match releases s !! n with
      | Some (l, false) => Some (mkSys (let_go ok l (call s)) (waiter s) (transfers s) (<[n := (l, true)]> (releases s)) (did s))
      | _ => None
      end
  | _ => i ← whose e; t ← transfers s !! i; transfer_step e i t s
  end.

Fixpoint run (es : list event) (s : sys) : option sys :=
  match es with [] => Some s | e :: es => s' ← step e s; run es s' end.

End steps.

(** The call as [bridge] leaves it: both legs answered in one codec, the relay
    started. *)
Definition bridged (trunk_a trunk_b : bool) (k : Codec) (party_a party_b : text) : sys :=
  let leg t p := mkLeg t k p true false false false in
  mkSys (fst (startLocked true (newBridgedCall (leg trunk_a party_a) (leg trunk_b party_b)))) WLook [] [] [].

(** ** What the status shows *)

Inductive shown := Bridged | Held (by_ : nat) | Handing.

Definition view (c : bridgedCall) : shown :=
  match handing c, heldBy (hold c) with
  | Some _, _ => Handing
  | None, Some l => Held l
  | None, None => Bridged
  end.
