(* ===== verification/TransferProps.v ===== *)
(** The bridged call of Transfer: hold music, the codecs of the two legs, and the
    release of everyone when the call is over. *)

From S2P Require Import Prelude Text Net Registry Routing Trunk Call Transfer.
Open Scope Z_scope.

(** ** Frames

    What a section under the lock leaves as it was. *)

Lemma playLocked_frame f k c : exists h, fst (playLocked f k c) = with_hold h c.
Proof.
  unfold playLocked. destruct (opposite f _) as [o|]; cbn; [|by eexists]. destruct (_ <=? _)%nat; cbn; [by eexists|].
  destruct (codec_of o _); cbn; [|by eexists]. destruct (Clip _); cbn; by eexists.
Qed.

Lemma setHeld_frame l held c : exists h, setHeld l held c = with_hold h c.
Proof.
  assert (exists h, c = with_hold h c) as Hid by (exists (hold c); by destruct c).
  unfold setHeld. destruct held; cbn [negb]; destruct (decide _); try done; [|by eexists].
  pose proof (playLocked_frame l Music c) as [h E]. destruct (playLocked l Music c) as [c' ok]. cbn in E. subst c'. destruct ok; by eexists.
Qed.

Lemma settle_frame t held c : exists h, settle t held c = with_hold h c.
Proof.
  assert (exists h, c = with_hold h c) as Hid by (exists (hold c); by destruct c).
  unfold settle. destruct (_ || _ || _); [done|]. destruct (released t); [by eexists|]. destruct held; [|by eexists].
  pose proof (playLocked_frame (from t) Music (stopHoldLocked c)) as [h E]. destruct (playLocked _ _ _) as [c' ok]. cbn in E. subst c'.
  destruct ok; by eexists.
Qed.

(** ** Hold music *)

(** The pumps of the current legs, or none. *)
Definition pumps_ok (c : bridgedCall) : Prop :=
  pumps c = [] \/ pumps c = match b c with None => [(a c, a c)] | Some y => [(a c, y); (y, a c)] end.

Definition silent (h : playing) : Prop := holdStop h = None /\ heldBy h = None /\ players h = [].

(** One player, that can be stopped, on a stream of the relay. *)
Definition plays (c : bridgedCall) (n : nat) (p : player) : Prop :=
  holdStop (hold c) = Some n /\ players (hold c) = [(n, p)]
  /\ (exists src, (src, p_to p) ∈ pumps c) /\ Clip (Name (p_codec p)) = true
  /\ (forall l, heldBy (hold c) = Some l -> p_clip p = Music /\ opposite l c = Some (p_to p)).

Definition one_player (c : bridgedCall) : Prop := pumps_ok c /\ (silent (hold c) \/ exists n p, plays c n p).

(** Nothing else of the call matters to it. *)
Definition same_stream (c c' : bridgedCall) : Prop := a c' = a c /\ b c' = b c /\ pumps c' = pumps c /\ hold c' = hold c.

Lemma one_player_same c c' : same_stream c c' -> one_player c -> one_player c'.
Proof. unfold one_player, pumps_ok, plays, opposite. intros (Ea&Eb&Ep&Eh). by rewrite Ea, Eb, Ep, Eh. Qed.

Lemma stopHold_silent c : one_player c -> silent (hold (stopHoldLocked c)).
Proof.
  intros [_ [(E1&E2&E3)|(n&p&E1&E3&_)]]; unfold stopHoldLocked, silent; cbn; rewrite E1, E3; (split; [done|]); (split; [done|]); [done|].
  rewrite filter_cons_False; [done|]. cbn. intros Hn. by apply Hn.
Qed.

Lemma stopHold_one c : one_player c -> one_player (stopHoldLocked c).
Proof. intros Hc. split; [apply Hc|]. left. by apply stopHold_silent. Qed.

Lemma playLocked_one f k c : one_player c ->
  let '(c', ok) := playLocked f k c in one_player c' /\ heldBy (hold c') = None
  /\ (ok = true -> exists n p, plays c' n p /\ p_clip p = k /\ opposite f c' = Some (p_to p)).
Proof.
  intros Hc. pose proof (stopHold_silent c Hc) as (E1&E2&E3). pose proof (stopHold_one c Hc) as Hs. unfold playLocked.
  set (c0 := stopHoldLocked c) in *. destruct (opposite f c0) as [o|] eqn:Eo; [|done].
  destruct (_ <=? _)%nat eqn:El; [done|]. destruct (codec_of o c0) as [kc|]; [|done]. destruct (Clip (Name kc)) eqn:Ec; cbn [negb]; [|done].
  set (c' := with_hold _ c0). assert (plays c' (played (hold c0)) (mkPlayer k o kc)) as Hp.
  { split; [done|]. split; [unfold c'; cbn [with_hold hold players]; by rewrite E3|].
    split; [|split; [done|unfold c'; cbn [with_hold hold heldBy]; by rewrite E2]].
    destruct Hs as [Hp _]. unfold pumps_ok, opposite in *. cbn in *. apply Nat.leb_gt in El.
    destruct Hp as [Hp|Hp]; rewrite Hp in *; [cbn in El; lia|].
    destruct (decide (Some f = b c)) as [Eb|Eb].
    - injection Eo as <-. rewrite <- Eb. exists f. set_solver.
    - rewrite Eo. exists (a c). set_solver. }
  split; [split; [apply Hs|right; by eexists _, _]|]. split; [done|]. intros _. by eexists _, _.
Qed.

Lemma hold_by_one f c : (exists n p, plays c n p /\ p_clip p = Music /\ opposite f c = Some (p_to p)) -> pumps_ok c -> one_player (hold_by f c).
Proof.
  intros (n&p&(E1&E2&E3&E4&_)&Em&Eo) Hp. split; [done|]. right. exists n, p. split; [done|]. split; [done|]. split; [done|]. split; [done|].
  intros l [= <-]. done.
Qed.

Lemma setHeld_one l held c : one_player c -> one_player (setHeld l held c).
Proof.
  intros Hc. unfold setHeld. destruct held; cbn [negb]; destruct (decide _); try done; [|by apply stopHold_one].
  pose proof (playLocked_one l Music c Hc) as H. destruct (playLocked l Music c) as [c' ok]. destruct H as (H1&_&H2). destruct ok; [|done].
  apply hold_by_one; [by apply H2|apply H1].
Qed.

Lemma settle_one t held c : one_player c -> one_player (settle t held c).
Proof.
  intros Hc. unfold settle. destruct (_ || _ || _); [done|]. pose proof (stopHold_one c Hc) as Hs. destruct (released t); [done|].
  destruct held; [|done]. pose proof (playLocked_one (from t) Music _ Hs) as H. destruct (playLocked _ Music _) as [c' ok].
  destruct H as (H1&_&H2). destruct ok; [|done]. apply hold_by_one; [by apply H2|apply H1].
Qed.

Lemma play_one f k c : one_player c -> one_player (fst (playLocked f k c)).
Proof. intros Hc. pose proof (playLocked_one f k c Hc) as H. destruct (playLocked f k c). apply H. Qed.

Lemma startLocked_one ok c : silent (hold (stopHoldLocked c)) -> one_player (fst (startLocked ok c)).
Proof.
  intros Hs. unfold startLocked. destruct ok; cbn [negb]; [|by split; [left|left]]. change (b (stopHoldLocked c)) with (b c).
  destruct (b c) as [y|] eqn:Eb; (split; [right; cbn; by rewrite Eb|by left]).
Qed.

Lemma endOffload_same ok c : same_stream c (endOffload ok c).
Proof. unfold endOffload. cbn. by destruct (offload c). Qed.

Lemma hangup_live_same ok l c : same_stream c (hangup_live ok l c).
Proof. unfold hangup_live. by destruct (is_done l c). Qed.

Lemma hang_up_rest_same ok1 ok2 w x y c : same_stream c (hang_up_rest ok1 ok2 w x y c).
Proof. by destruct w, y. Qed.

Lemma let_go_same ok l c : same_stream c (let_go ok l c).
Proof. apply (hangup_live_same ok l c). Qed.

Lemma destination_same srv parses d o c : same_stream c (transferDestination srv parses d o c).1.1.
Proof.
  unfold transferDestination. destruct (target d); try (destruct (cfg_trunk srv); done);
    (destruct (_ && negb _); [done|]); destruct (wakeAndWaitFrom _ _ _ _ _) as [tr [r|]]; done.
Qed.

Section hold.
Context (srv : Server) (parses : text -> bool).
Abbreviation step := (step srv parses).
Abbreviation run := (run srv parses).

Lemma look_one i t o s : one_player (call s) -> one_player (call (look srv parses i t o s)).
Proof.
  intros Hc. unfold look. destruct (target (decision t)); try done;
    pose proof (one_player_same _ _ (destination_same srv parses (decision t) o (call s)) Hc) as Hd;
    destruct (transferDestination _ _ _ _ _) as [[c' acts] r]; cbn in Hd; (destruct r as [[dst tr]|]; [|done]);
    (destruct (dialog_ok o); [|done]); cbn; (destruct (calleeInvite _ _ _ _ _ _ _); [|done]); by apply (one_player_same c').
Qed.

Lemma transfer_one e i t s s' : one_player (call s) -> transfer_step srv parses e i t s = Some s' -> one_player (call s').
Proof.
  intros Hc. destruct e; destruct (pc t) eqn:Ep; cbn [transfer_step]; rewrite ?Ep; try done.
  - destruct ok; intros [= <-]; by apply (one_player_same (call s)).
  - destruct (referOutcome code) as [fin ok]. destruct fin, ok; intros [= <-]; try done; cbn [negb call with_transfer];
      apply (one_player_same (call s)); try done; apply endOffload_same.
  - destruct (is_done _ _); [|done]. intros [= <-]. by apply (one_player_same (call s)).
  - intros [= <-]. apply (one_player_same (call s)); [apply endOffload_same|done].
  - intros [= <-]. cbn. apply (one_player_same (fst (playLocked (from t) Music (call s)))); [done|by apply play_one].
  - intros [= <-]. by apply look_one.
  - intros [= <-]. unfold rings. destruct (_ || _); [done|]. cbn. by apply play_one.
  - intros [= <-]. unfold refused. destruct (released t); cbn; [|by apply (one_player_same (call s))].
    apply play_one. by apply (one_player_same (call s)).
  - destruct (is_done _ _); [done|]. intros [= <-]. by apply (one_player_same (call s)).
  - intros [= <-]. unfold acked. destruct ok; cbn; by apply (one_player_same (call s)).
  - intros [= <-]. unfold moved. destruct got as [k|], (codec_of leg (call s)); try (by apply (one_player_same (call s))).
    destruct (sameCodec _ _); by apply (one_player_same (call s)).
  - intros [= <-]. unfold bridge_legs. set (c1 := if decide _ then _ else _). pose proof (startLocked_one ok c1) as Hs.
    assert (silent (hold (stopHoldLocked c1))) as H0 by (pose proof (stopHold_silent _ Hc) as H0; unfold c1; by destruct (decide _)).
    specialize (Hs H0). destruct (startLocked ok c1) as [c2 started]. cbn in Hs. destruct started; by apply (one_player_same c2).
  - intros [= <-]. cbn. apply (one_player_same (call s)); [apply let_go_same|done].
  - intros [= <-]. cbn. apply (one_player_same (let_go ok (other t) (call s))); [apply endOffload_same|].
    apply (one_player_same (call s)); [apply let_go_same|done].
  - intros [= <-]. unfold busy_over. cbn. apply (one_player_same (stopHoldLocked (call s))); [apply hangup_live_same|by apply stopHold_one].
  - intros [= <-]. cbn. apply (one_player_same (call s)); [apply let_go_same|done].
  - intros [= <-]. by apply (one_player_same (call s)).
  - intros [= <-]. cbn. by apply settle_one.
Qed.

Lemma step_one e s s' : one_player (call s) -> step e s = Some s' -> one_player (call s').
Proof.
  intros Hc Hs. assert ((exists i t, whose e = Some i /\ transfer_step srv parses e i t s = Some s') \/ whose e = None) as [(i&t&_&Ht)|He].
  { destruct (whose e) as [i|] eqn:Ei; [|by right]. left. exists i. destruct e; try done; cbn in Hs; cbn in Ei; injection Ei as ->;
      (destruct (transfers s !! i) as [t|]; [|done]); by exists t. }
  { by eapply transfer_one. }
  destruct e; try done; cbn in Hs.
  - destruct (decide _); [|done]. injection Hs as <-. by apply setHeld_one.
  - destruct (legs (call s) !! l) as [x|]; [|done]. destruct (up x); [|done]. injection Hs as <-. by apply (one_player_same (call s)).
  - injection Hs as <-. by apply (one_player_same (call s)).
  - unfold refer in Hs. destruct (legs (call s) !! f) as [x|]; [|done]. destruct (_ || _); [done|].
    destruct (opposite f _) as [o|]; [destruct (shouldOffload _ _ _); [destruct (cfg_trunk srv)|]|]; by injection Hs as <-.
  - unfold wait_woken in Hs. destruct (waiter s); try done. destruct w as [[]|].
    + destruct (is_done _ _); [|done]. by injection Hs as <-.
    + destruct y; [|done]. destruct (is_done _ _); [|done]. by injection Hs as <-.
    + destruct (gone _); [|done]. by injection Hs as <-.
    + destruct (swapped _); [|done]. injection Hs as <-. by apply (one_player_same (call s)).
  - unfold wait_step in Hs. destruct (waiter s); try done; try (destruct (is_closed _ _); [|done]); injection Hs as <-; try done; cbn.
    apply (one_player_same (call s)); [apply hang_up_rest_same|done].
  - destruct (releases s !! n) as [[l []]|]; try done. injection Hs as <-. cbn. apply (one_player_same (call s)); [apply let_go_same|done].
Qed.

Lemma run_one es : forall s s', one_player (call s) -> run es s = Some s' -> one_player (call s').
Proof.
  induction es as [|e es IH]; intros s s' Hc; cbn; [by intros [= <-]|]. destruct (step e s) as [s1|] eqn:E; [|done]. apply IH. by eapply step_one.
Qed.

(** Whatever the parties, the PBX and the timers do, and however the
    goroutines of a call interleave, at most one clip plays in it, so no stream
    is ever fed by two players; it can always be stopped, plays on a stream of
    the current relay, in a codec it was encoded for; and while a party is shown
    as holding the call, it is the music, to the party opposite. *)
Theorem never_two_players ta tb k pa pb es s : run es (bridged ta tb k pa pb) = Some s ->
  silent (hold (call s)) \/ exists n p, plays (call s) n p.
Proof. intros E. apply (run_one es) in E; [apply E|]. apply startLocked_one. done. Qed.

End hold.
