(* ===== verification/TransferEnd.v ===== *)
(** The end of a bridged call of Transfer: the invariant of its goroutines while
    transfers come one at a time, the codecs of its legs, and the release of
    everyone who was in it. *)

From S2P Require Import Prelude Text Net Registry Routing Trunk Call Transfer TransferProps.
Open Scope Z_scope.

(** ** Order

    A REFER comes from a party of the call we have not hung up on, while no other
    transfer is in progress; a transfer does not begin to be completed here when
    the wait has already decided to end the call; the relay can be started. *)

Definition idle (s : sys) : Prop := Forall (fun t => pc t = TDone) (transfers s).

Definition deciding (w : wait_pc) : bool :=
  match w with WHanding _ | WHangup _ _ _ | WStop | WOver => true | _ => false end.

Definition orderly (e : event) (s : sys) : Prop :=
  match e with
  | ERefer f _ => (f = a (call s) \/ b (call s) = Some f) /\ idle s
                  /\ forall x, legs (call s) !! f = Some x -> bye x = false
  | EHand _ => deciding (waiter s) = false
  | EBridge _ ok => ok = true
  | _ => True
  end.

Fixpoint orderly_run (srv : Server) (parses : text -> bool) (es : list event) (s : sys) : Prop :=
  match es with
  | [] => True
  | e :: es => orderly e s /\ forall s', step srv parses e s = Some s' -> orderly_run srv parses es s'
  end.

(** ** The invariant *)

Definition isup (l : nat) (c : bridgedCall) : Prop := exists x, legs c !! l = Some x /\ up x = true.

(** It has left, or we have asked it to. *)
Definition said (l : nat) (c : bridgedCall) : Prop := exists x, legs c !! l = Some x /\ (done x = true \/ bye x = true).

Definition in_play (l : nat) (c : bridgedCall) : Prop := l = a c \/ b c = Some l.
Definition everyone_said (c : bridgedCall) : Prop := forall l, in_play l c -> said l c.
Definition same_codecs (x y : nat) (c : bridgedCall) : Prop :=
  exists k k', codec_of x c = Some k /\ codec_of y c = Some k' /\ sameCodec k k' = true.
Definition opened (ch : nat) (c : bridgedCall) : Prop := chans c !! ch = Some false.
Definition shut (ch : nat) (c : bridgedCall) : Prop := chans c !! ch = Some true.

Definition well_formed (c : bridgedCall) : Prop :=
  (a c < length (legs c))%nat /\ forall y, b c = Some y -> (y < length (legs c))%nat /\ y <> a c.

Definition offloading (p : transfer_pc) : bool := match p with TOutcome | TFinish | TRelease => true | _ => false end.
Definition handing_over (p : transfer_pc) : bool :=
  match p with TLook | TInviting _ | TBusy _ | TAnswered _ _ | TMoving _ | TBridging _ | TReferrer | TClosing => true | _ => false end.
Definition before_swap (p : transfer_pc) : bool :=
  match p with TReferrer | TClosing | TSettling | TDone => false | _ => true end.
Definition new_leg (p : transfer_pc) : option nat :=
  match p with TInviting l | TAnswered l _ | TMoving l | TBridging (Some l) => Some l | _ => None end.

Definition paired (t : transfer) (c : bridgedCall) : Prop :=
  (from t = a c /\ b c = Some (other t)) \/ (b c = Some (from t) /\ other t = a c).

(** A leg whose release is this transfer's business. *)
Definition pend (t : transfer) (l : nat) : Prop :=
  match pc t with
  | TAnswered x _ | TMoving x | TBridging (Some x) => l = x
  | TReferrer => l = from t
  | _ => False
  end.

(** A transfer in progress. *)
Record own (c : bridgedCall) (w : wait_pc) (rel : list (nat * bool)) (t : transfer) : Prop := {
  o_running : pc t <> TDone;
  o_from : (from t < length (legs c))%nat;
  o_paired : before_swap (pc t) = true -> paired t c;
  o_leg : forall l, new_leg (pc t) = Some l -> (l < length (legs c))%nat /\ ~ in_play l c;
  o_handing : handing_over (pc t) = true ->
    handing c = Some (ours t) /\ opened (ours t) c
    /\ match w with WHangup _ _ _ | WStop | WOver => False | WHanding ch => ch = ours t | _ => True end;
  o_offload : offloading (pc t) = true -> exists ch, offload c = Some ch /\ opened ch c;
  o_release : pc t = TRelease -> said (from t) c;
  o_released : released t = true -> said (from t) c \/ (from t, false) ∈ rel;
  o_offloaded : offloaded c = false;
}.

Definition why_ok (w : why) (x : nat) (y : option nat) (c : bridgedCall) : Prop :=
  match w with
  | AEnded => is_done x c = true
  | BEnded => exists y', y = Some y' /\ is_done y' c = true
  | Silent => True
  end.

(** What the wait knows of the legs. *)
Definition snapshot (c : bridgedCall) (w : wait_pc) : Prop :=
  let current x y := x = a c /\ y = b c in
  match w with
  | WLook => True
  | WSelect x y => current x y \/ (swapped c = true /\ handing c <> None)
  | WOffload k x y | WHandover k x y => (current x y /\ why_ok k x y c) \/ handing c <> None
  | WOffloading ch k x y => ((current x y /\ why_ok k x y c) \/ handing c <> None) /\ (shut ch c \/ offload c = Some ch)
  | WHanding ch => shut ch c \/ handing c = Some ch
  | WHangup k x y => current x y /\ why_ok k x y c
  | WStop => everyone_said c
  | WOver => everyone_said c /\ relaying c = false
  end.

Record good (c : bridgedCall) (w : wait_pc) (rel : list (nat * bool)) (ot : option transfer) : Prop := {
  g_wf : well_formed c;
  g_own : forall t, ot = Some t -> own c w rel t;
  g_snap : snapshot c w;
  g_up : forall l, isup l c -> in_play l c \/ said l c \/ (l, false) ∈ rel \/ exists t, ot = Some t /\ pend t l;
  g_handing : forall ch, handing c = Some ch -> shut ch c \/ exists t, ot = Some t /\ handing_over (pc t) = true /\ ours t = ch;
  g_offload : forall ch, offload c = Some ch -> shut ch c \/ exists t, ot = Some t /\ offloading (pc t) = true;
  g_offloaded : offloaded c = true -> everyone_said c;
  g_rel : Forall (fun p => (p.1 < length (legs c))%nat) rel;
}.

(** The one transfer in progress. *)
Definition current (ts : list transfer) (ot : option (nat * transfer)) : Prop :=
  (forall i t, ts !! i = Some t -> pc t = TDone \/ ot = Some (i, t)) /\ (forall i t, ot = Some (i, t) -> ts !! i = Some t).

(** The two legs that are, or are about to be, joined. *)
Definition joined (c : bridgedCall) (ot : option transfer) : option (nat * nat) :=
  match ot with
  | Some t => match pc t with TBridging (Some l) => Some (other t, l) | _ => pair (a c) <$> b c end
  | None => pair (a c) <$> b c
  end.

Definition codecs_ok (c : bridgedCall) (ot : option transfer) : Prop :=
  forall x y, joined c ot = Some (x, y) -> same_codecs x y c.

Definition inv (s : sys) : Prop := exists ot, current (transfers s) ot /\ good (call s) (waiter s) (releases s) (snd <$> ot).

(** ** Legs *)

(** A leg has not come up, and has only come nearer its end. *)
Definition ageing (x x' : callLeg) : Prop :=
  (up x' = true -> up x = true) /\ (done x = true -> done x' = true) /\ (bye x = true -> bye x' = true).

Definition aged (c c' : bridgedCall) : Prop :=
  c' = with_legs (legs c') c /\ length (legs c') = length (legs c)
  /\ forall l x, legs c !! l = Some x -> exists x', legs c' !! l = Some x' /\ ageing x x'.

Lemma aged_refl c : aged c c.
Proof. split; [by destruct c|]. split; [done|]. intros l x Hx. by exists x. Qed.

Lemma aged_trans c c1 c2 : aged c c1 -> aged c1 c2 -> aged c c2.
Proof.
  intros (E1&L1&H1) (E2&L2&H2). split; [rewrite E2; cbn; rewrite E1; done|]. split; [congruence|].
  intros l x Hx. destruct (H1 l x Hx) as (x1&Hx1&?&?&?). destruct (H2 l x1 Hx1) as (x2&Hx2&?&?&?).
  exists x2. split; [done|]. split; [by auto|split; by auto].
Qed.

Lemma aged_on_leg f l c : (forall x, ageing x (f x)) -> aged c (on_leg f l c).
Proof.
  intros Hf. split; [done|]. split; [apply length_alter|]. intros l' x Hx. unfold on_leg. cbn. destruct (decide (l' = l)) as [->|Hne].
  - exists (f x). rewrite list_lookup_alter, decide_True, Hx by done. split; [done|apply Hf].
  - exists x. by rewrite list_lookup_alter, decide_False by done.
Qed.

Lemma aged_Hangup ok l c : aged c (Hangup ok l c).
Proof. apply aged_on_leg. intros x. split; [done|]. cbn. split; [by intros ->|done]. Qed.

Lemma aged_Close l c : aged c (Close l c).
Proof. apply aged_on_leg. done. Qed.

Lemma aged_leave l c : aged c (leave l c).
Proof. apply aged_on_leg. done. Qed.

Lemma aged_set_codec k l c : aged c (set_codec k l c).
Proof. apply aged_on_leg. done. Qed.

Lemma aged_hangup_live ok l c : aged c (hangup_live ok l c).
Proof. unfold hangup_live. destruct (is_done l c); [apply aged_refl|apply aged_Hangup]. Qed.

Lemma aged_let_go ok l c : aged c (let_go ok l c).
Proof. eapply aged_trans; [apply aged_hangup_live|apply aged_Close]. Qed.

Lemma aged_rest ok1 ok2 w x y c : aged c (hang_up_rest ok1 ok2 w x y c).
Proof.
  destruct w, y; cbn; try apply aged_refl; try apply aged_Hangup. eapply aged_trans; apply aged_Hangup.
Qed.

Lemma said_leg f l c : (l < length (legs c))%nat -> (forall x, done (f x) = true \/ bye (f x) = true) -> said l (on_leg f l c).
Proof.
  intros [x Hx]%lookup_lt_is_Some_2 Hf. exists (f x). unfold on_leg. cbn. rewrite list_lookup_alter, decide_True, Hx by done. by split.
Qed.

Lemma said_Hangup ok l c : (l < length (legs c))%nat -> said l (Hangup ok l c).
Proof. intros Hl. apply said_leg; [done|]. intros x. by right. Qed.

Lemma said_done l c : is_done l c = true -> said l c.
Proof. unfold is_done, said. destruct (legs c !! l) as [x|]; [|done]. intros Hd. exists x. by split; [|left]. Qed.

Lemma said_aged l c c' : aged c c' -> said l c -> said l c'.
Proof. intros (_&_&H) (x&Hx&Hd). destruct (H l x Hx) as (x'&Hx'&_&?&?). exists x'. split; [done|]. naive_solver. Qed.

Lemma done_aged l c c' : aged c c' -> is_done l c = true -> is_done l c' = true.
Proof.
  unfold is_done. intros (_&_&H). destruct (legs c !! l) as [x|] eqn:Hx; [|done]. destruct (H l x Hx) as (x'&->&_&?&_). auto.
Qed.

Lemma isup_aged l c c' : aged c c' -> isup l c' -> isup l c.
Proof.
  intros (_&El&H) (x'&Hx'&Hu). pose proof (lookup_lt_Some _ _ _ Hx') as Hl. rewrite El in Hl. apply lookup_lt_is_Some_2 in Hl as [x Hx].
  destruct (H l x Hx) as (x1&Hx1&Hu1&_). rewrite Hx' in Hx1. injection Hx1 as <-. exists x. auto.
Qed.

Lemma said_let_go ok l c : (l < length (legs c))%nat -> said l (let_go ok l c).
Proof.
  intros Hl. eapply said_aged; [apply aged_Close|]. unfold hangup_live. destruct (is_done l c) eqn:Ed; [by apply said_done|by apply said_Hangup].
Qed.

(** ** Frames of the invariant *)

Lemma own_aged c c' w rel t : aged c c' -> own c w rel t -> own c' w rel t.
Proof.
  intros Ha [H1 H0 H2 H3 H5 H6 H7 H8 H9]. pose proof Ha as (E&El&_). rewrite E in *. split; try done.
  - cbn. rewrite E in El. cbn in El. lia.
  - intros l Hl. cbn. rewrite E in El. cbn in El. destruct (H3 l Hl). split; [lia|done].
  - intros Hp. eapply said_aged; [done|]. by apply H7.
  - intros Hp. destruct (H8 Hp); [left; by eapply said_aged|by right].
Qed.

Lemma good_aged c c' w rel ot : aged c c' -> good c w rel ot -> good c' w rel ot.
Proof.
  intros Ha [H1 H2 H3 H4 H5 H6 H7 H8]. pose proof Ha as (E&El&_). 
  assert (everyone_said c -> everyone_said c') as Hs by (intros Hc l Hl; rewrite E in Hl; eapply said_aged; [done|]; by apply Hc).
  assert (forall k x y, why_ok k x y c -> why_ok k x y c') as Hw.
  { intros [] x y; cbn; [by apply done_aged|intros (y'&->&Hy); exists y'; split; [done|by eapply done_aged]|done]. }
  assert (a c' = a c /\ b c' = b c /\ handing c' = handing c /\ offload c' = offload c /\ chans c' = chans c /\ swapped c' = swapped c
    /\ offloaded c' = offloaded c /\ relaying c' = relaying c) as (Ea&Eb&Eh&Eo&Ec&Es&Ed&Er) by (rewrite E; done).
  split.
  - unfold well_formed in *. rewrite Ea, Eb, El. done.
  - intros t Ht. eapply own_aged; [done|]. by apply H2.
  - unfold snapshot, shut in *. rewrite Ea, Eb, Eh, Eo, Ec, Es, Er. destruct w; naive_solver.
  - intros l Hl. destruct (H4 l (isup_aged _ _ _ Ha Hl)) as [Hi|[Hi|[Hi|Hi]]]; [|right; left; by eapply said_aged|by right; right; left|by right; right; right].
    left. unfold in_play in *. by rewrite Ea, Eb.
  - intros ch. unfold shut. rewrite Eh, Ec. apply H5.
  - intros ch. unfold shut. rewrite Eo, Ec. apply H6.
  - rewrite Ed. auto.
  - by rewrite El.
Qed.

Lemma good_hold h c w rel ot : good c w rel ot -> good (with_hold h c) w rel ot.
Proof. intros [H1 H2 H3 H4 H5 H6 H7 H8]. split; try done. intros t Ht. destruct (H2 t Ht). by split. Qed.

Lemma good_chans L c w rel ot : (forall ch v, chans c !! ch = Some v -> L !! ch = Some v) -> good c w rel ot -> good (with_chans L c) w rel ot.
Proof.
  intros HL [H1 H2 H3 H4 H5 H6 H7 H8].
  assert (forall ch, shut ch c -> shut ch (with_chans L c)) as Hs by (intros ch; apply HL).
  split; try done.
  - intros t Ht. destruct (H2 t Ht) as [O1 O0 O2 O3 O5 O6 O7 O8 O9]. split; try done.
    + intros Hp. destruct (O5 Hp) as (?&Ho&?). split; [done|]. split; [by apply HL|done].
    + intros Hp. destruct (O6 Hp) as (ch&?&Ho). exists ch. split; [done|by apply HL].
  - destruct w; cbn in *; try done; naive_solver.
  - intros ch Hc. destruct (H5 ch Hc); [left; by apply Hs|by right].
  - intros ch Hc. destruct (H6 ch Hc); [left; by apply Hs|by right].
Qed.

Lemma good_make_chan c w rel ot : good c w rel ot -> good (with_chans (chans c ++ [false]) c) w rel ot.
Proof. apply good_chans. intros ch v. apply lookup_app_l_Some. Qed.

(** The transfer has moved on, or is over. *)
Lemma good_change c w rel t ot : good c w rel (Some t) -> (forall t', ot = Some t' -> own c w rel t') ->
  (forall l, pend t l -> in_play l c \/ said l c \/ (l, false) ∈ rel \/ exists t', ot = Some t' /\ pend t' l) ->
  (handing_over (pc t) = true -> shut (ours t) c \/ exists t', ot = Some t' /\ handing_over (pc t') = true /\ ours t' = ours t) ->
  (offloading (pc t) = true -> (forall ch, offload c = Some ch -> shut ch c) \/ exists t', ot = Some t' /\ offloading (pc t') = true) ->
  good c w rel ot.
Proof.
  intros [H1 H2 H3 H4 H5 H6 H7 H8] Ho Hp Hh Hf. split; try done.
  - intros l Hl. destruct (H4 l Hl) as [?|[?|[?|(t0&[= <-]&Hl')]]]; [by left|by right; left|by right; right; left|by apply Hp].
  - intros ch E. destruct (H5 ch E) as [?|(t0&[= <-]&Hb&<-)]; [by left|by apply Hh].
  - intros ch E. destruct (H6 ch E) as [?|(t0&[= <-]&Hb)]; [by left|]. destruct (Hf Hb) as [Hs|Hs]; [left; by apply Hs|by right].
Qed.

(** A referrer is to be let go. *)
Lemma good_releases x c w rel ot : (x.1 < length (legs c))%nat -> good c w rel ot -> good c w (rel ++ [x]) ot.
Proof.
  intros Hx [H1 H2 H3 H4 H5 H6 H7 H8]. split; try done.
  - intros t Ht. destruct (H2 t Ht) as [O1 O0 O2 O3 O5 O6 O7 O8 O9]. split; try done. intros Hr. destruct (O8 Hr); [by left|right; set_solver].
  - intros l Hl. destruct (H4 l Hl) as [?|[?|[?|?]]]; [by left|by right; left|right; right; left; set_solver|by right; right; right].
  - apply Forall_app. split; [done|by apply Forall_singleton].
Qed.

Definition still (t : transfer) : option transfer := match pc t with TDone => None | _ => Some t end.

Lemma current_set ts i t t' : current ts (Some (i, t)) -> current (<[i := t']> ts) (pair i <$> still t').
Proof.
  intros [H1 H2]. pose proof (H2 i t eq_refl) as Hi. split.
  - intros j u. rewrite list_lookup_insert. destruct (decide _) as [[<- _]|Hne].
    + intros [= <-]. unfold still. destruct (pc t'); auto.
    + intros Hj. destruct (H1 j u Hj) as [?|[= <- <-]]; [by left|]. destruct Hne. split; [done|by eapply lookup_lt_Some].
  - intros j u Hs. unfold still in Hs. destruct (pc t') eqn:Ep; cbn in Hs; try done; injection Hs as <- <-;
      rewrite list_lookup_insert, decide_True by (split; [done|by eapply lookup_lt_Some]); done.
Qed.

Lemma inv_transfer c w ts rel l i t t' : current ts (Some (i, t)) -> good c w rel (still t') -> inv (mkSys c w (<[i := t']> ts) rel l).
Proof.
  intros Hc Hg. exists (pair i <$> still t'). split; [by eapply current_set|]. cbn. destruct (still t'); done.
Qed.

Lemma good_own c w rel t : good c w rel (Some t) -> own c w rel t.
Proof. intros H. by apply (g_own _ _ _ _ H). Qed.

(** ** The transfer's steps *)

Lemma good_endOffload ok c w rel t p : good c w rel (Some t) -> offloading (pc t) = true -> ok = false \/ everyone_said c ->
  (p = TDecided /\ ok = false \/ p = TDone) -> good (endOffload ok c) w rel (still (with_pc p t)).
Proof.
  intros Hg Hp Hok Hpc. destruct (good_own _ _ _ _ Hg) as [O1 O0 O2 O3 O5 O6 O7 O8 O9]. destruct (O6 Hp) as (ch&Ech&Eop).
  destruct Hg as [H1 H2 H3 H4 H5 H6 H7 H8]. unfold endOffload. cbn [with_offload offload]. rewrite Ech.
  assert (handing_over (pc t) = false /\ (forall l, ~ pend t l) /\ (forall l, pc t <> TBridging l) /\ before_swap (pc t) = true) as (Eh&Epd&Eb&Ebs)
    by (revert Hp; unfold pend; clear; destruct (pc t); naive_solver).
  set (c' := close_chan ch _). assert (forall n, shut n c -> shut n c') as Hs.
  { intros n Hn. unfold shut, c'. cbn. rewrite list_lookup_insert. destruct (decide _); [done|apply Hn]. }
  assert (shut ch c') as Hch by (unfold shut, c'; cbn; rewrite list_lookup_insert, decide_True; [done|split; [done|by eapply lookup_lt_Some]]).
  split; try done.
  - intros t' Ht'. destruct Hpc as [[-> ->]| ->]; [|done]. injection Ht' as <-. split; try done. by intros _; apply O2.
  - unfold snapshot in *. change (a c') with (a c). change (b c') with (b c). destruct w; try done; try naive_solver;
      change (is_done ?l c') with (is_done l c); unfold why_ok in *; naive_solver.
  - intros l Hl. destruct (H4 l Hl) as [?|[?|[?|(t0&[= <-]&Hl')]]]; [by left|by right; left|by right; right; left|by apply Epd in Hl'].
  - intros n E. destruct (H5 n E) as [?|(t0&[= <-]&Hb&_)]; [left; by apply Hs|congruence].
  - intros n E. left. assert (Some ch = Some n) as [= <-] by exact E. done.
  - cbn. intros ->. destruct Hok as [?|Hok]; [done|]. apply Hok.
Qed.

Lemma good_beginOffload c w rel t : good c w rel (Some t) -> pc t = TRefer -> good (beginOffload c) w rel (Some (with_pc TOutcome t)).
Proof.
  intros Hg Hp. apply good_make_chan in Hg. destruct (good_own _ _ _ _ Hg) as [O1 O0 O2 O3 O5 O6 O7 O8 O9].
  unfold beginOffload, make_chan. set (c1 := with_chans _ c) in *. rewrite Hp in *.
  assert (opened (length (chans c)) c1) as Hop by (unfold opened, c1; cbn; by rewrite lookup_app_r, Nat.sub_diag by lia).
  destruct Hg as [H1 H2 H3 H4 H5 H6 H7 H8]. split; try done.
  - intros t' [= <-]. split; try done. intros _. by eexists.
  - unfold snapshot in *. destruct w; try done. cbn [with_offload offload]. destruct H3 as [H3 [Hs|Hs]]; (split; [exact H3|]); [by left|].
    destruct (H6 _ Hs) as [?|(t0&[= <-]&Hb)]; [by left|]. by rewrite Hp in Hb.
  - intros l Hl. destruct (H4 l Hl) as [?|[?|[?|(t0&[= <-]&Hl')]]]; [by left|by right; left|by right; right; left|].
    unfold pend in Hl'. by rewrite Hp in Hl'.
  - intros n E. destruct (H5 n E) as [?|(t0&[= <-]&Hb&_)]; [by left|]. by rewrite Hp in Hb.
  - intros n E. right. by eexists.
Qed.

Lemma good_hand h c w rel t : good c w rel (Some t) -> pc t = TDecided -> deciding w = false ->
  good (with_handing (Some (length (chans c))) (with_chans (chans c ++ [false]) (with_hold h c))) w rel
       (Some (mkTransfer (from t) (other t) (decision t) TLook (length (chans c)) (a c) (b c) (released t) (handed t) (result t))).
Proof.
  intros Hg Hp Hw. apply (good_hold h), good_make_chan in Hg. cbn [chans with_hold] in Hg.
  destruct (good_own _ _ _ _ Hg) as [O1 O0 O2 O3 O5 O6 O7 O8 O9]. rewrite Hp in *. set (c1 := with_chans _ _) in *.
  assert (opened (length (chans c)) c1) as Hop by (unfold opened, c1; cbn; by rewrite lookup_app_r, Nat.sub_diag by lia).
  destruct Hg as [H1 H2 H3 H4 H5 H6 H7 H8]. split; try done.
  - intros t' [= <-]. split; try done. intros _. split; [done|]. split; [done|]. by destruct w.
  - unfold snapshot in *. destruct w; try done; cbn [with_handing handing].
    + destruct H3 as [?|[? _]]; [by left|by right].
    + by right.
    + split; [by right|apply H3].
    + by right.
  - intros l Hl. destruct (H4 l Hl) as [?|[?|[?|(t0&[= <-]&Hl')]]]; [by left|by right; left|by right; right; left|].
    unfold pend in Hl'. by rewrite Hp in Hl'.
  - intros n [= <-]. right. by eexists.
  - intros n E. destruct (H6 n E) as [?|(t0&[= <-]&Hb)]; [by left|]. by rewrite Hp in Hb.
Qed.

(** A transfer goes on with the same legs and the same channels. *)
Lemma good_pc c w rel t t' : good c w rel (Some t) -> still t' = Some t' ->
  from t' = from t -> other t' = other t -> ours t' = ours t -> (released t' = true -> released t = true) ->
  (before_swap (pc t') = true -> before_swap (pc t) = true) ->
  (forall l, new_leg (pc t') = Some l -> new_leg (pc t) = Some l) ->
  handing_over (pc t') = handing_over (pc t) -> (offloading (pc t') = offloading (pc t)) ->
  (pc t' = TRelease -> said (from t) c) ->
  (forall l, pend t l -> said l c \/ pend t' l) ->
  good c w rel (Some t').
Proof.
  intros Hg Hs Ef Eo Eu Hr Hb Hn Eh Ef' Hrel Hp. destruct (good_own _ _ _ _ Hg) as [O1 O0 O2 O3 O5 O6 O7 O8 O9].
  apply (good_change c w rel t); [done|..].
  - intros u [= <-]. split; rewrite ?Ef, ?Eo, ?Eu, ?Eh, ?Ef'; try done.
    + intros E. unfold still in Hs. by rewrite E in Hs.
    + unfold paired in *. rewrite Ef, Eo. auto.
    + auto.
    + auto.
  - intros l Hl. destruct (Hp l Hl); [by right; left|]. right. right. right. by exists t'.
  - rewrite <- Eh. intros Hh. right. by exists t'.
  - rewrite <- Ef'. intros Hh. right. by exists t'.
Qed.

Lemma good_append x c w rel ot : up x = false -> good c w rel ot -> good (with_legs (legs c ++ [x]) c) w rel ot.
Proof.
  intros Hx [H1 H2 H3 H4 H5 H6 H7 H8]. set (c' := with_legs _ c).
  assert (forall l y, legs c !! l = Some y -> legs c' !! l = Some y) as Hl by (intros l y; apply lookup_app_l_Some).
  assert (forall l, said l c -> said l c') as Hs by (intros l (y&?&?); exists y; auto).
  assert (forall l, is_done l c = true -> is_done l c' = true) as Hd.
  { intros l. unfold is_done. destruct (legs c !! l) as [y|] eqn:E; [|done]. by rewrite (Hl l y E). }
  assert (forall k y z, why_ok k y z c -> why_ok k y z c') as Hw.
  { intros [] y z; cbn; [by apply Hd|intros (y'&->&Hy); exists y'; auto|done]. }
  assert (length (legs c') = S (length (legs c))) as El by (unfold c'; cbn; rewrite length_app; cbn; lia).
  split.
  - destruct H1 as [Ha Hb]. unfold well_formed. rewrite El. split; [cbn; lia|]. intros y Hy. destruct (Hb y Hy). split; [lia|done].
  - intros t Ht. destruct (H2 t Ht) as [O1 O0 O2 O3 O5 O6 O7 O8 O9]. split; try done; rewrite ?El; auto.
    + intros l E. destruct (O3 l E). split; [lia|done].
    + intros Hr. destruct (O8 Hr); auto.
  - unfold snapshot in *. destruct w; try done; cbn [with_legs a b handing offload chans relaying] in *; unfold everyone_said in *; naive_solver.
  - intros l (y&Hy&Hu). unfold c' in Hy. cbn in Hy. apply lookup_app_Some in Hy as [Hy|[_ Hy]].
    + destruct (H4 l ltac:(by exists y)) as [?|[?|[?|?]]]; [by left|right; left; auto|by right; right; left|by right; right; right].
    + destruct (l - length (legs c))%nat; [|done]. cbn in Hy. injection Hy as <-. congruence.
  - done.
  - done.
  - intros E l Hi. apply Hs. by apply H7.
  - rewrite El. eapply Forall_impl; [exact H8|]. cbn. lia.
Qed.

Lemma good_failed e c w rel t : good c w rel (Some t) -> handing_over (pc t) = true ->
  (forall l, pend t l -> said l c) -> good c w rel (Some (failed e t)).
Proof.
  intros Hg Hh Hp. apply (good_pc _ _ _ _ _ Hg); try done; [by destruct (pc t)|by left; apply Hp].
Qed.

(** The INVITE is out. *)
Lemma good_invite x c w rel t : up x = false -> good c w rel (Some t) -> pc t = TLook ->
  good (with_legs (legs c ++ [x]) c) w rel (Some (with_pc (TInviting (length (legs c))) t)).
Proof.
  intros Hx Hg Hp. pose proof (g_wf _ _ _ _ Hg) as [Ha Hb]. apply (good_append x) in Hg; [|done]. set (c' := with_legs _ c) in *.
  destruct (good_own _ _ _ _ Hg) as [O1 O0 O2 O3 O5 O6 O7 O8 O9]. rewrite Hp in *. apply (good_change c' w rel t); [done|..].
  - intros u [= <-]. split; try done. intros l [= <-]. split; [unfold c'; cbn; rewrite length_app; cbn; lia|].
    intros [E|E]; [unfold c' in E; cbn in E; lia|]. destruct (Hb _ E). lia.
  - unfold pend. by rewrite Hp.
  - right. by eexists.
  - by rewrite Hp.
Qed.

(** It is answered: the new leg is up. *)
Lemma good_answered k leg c w rel t : good c w rel (Some t) -> pc t = TInviting leg ->
  good (answered_leg leg c) w rel (Some (with_pc (TAnswered leg k) t)).
Proof.
  intros Hg Hp. set (c' := answered_leg leg c).
  assert (forall l x, legs c !! l = Some x -> exists x', legs c' !! l = Some x' /\ done x' = done x /\ bye x' = bye x /\ codec x' = codec x
    /\ (up x' = up x \/ l = leg)) as Hl.
  { intros l x Hx. unfold c', answered_leg, on_leg. cbn. rewrite list_lookup_alter. case_decide as E; [subst l|]; rewrite Hx; cbn; eexists;
      (split; [done|]); cbn; naive_solver. }
  assert (length (legs c') = length (legs c)) as El by apply length_alter.
  assert (forall l, is_done l c' = is_done l c /\ codec_of l c' = codec_of l c) as Hd.
  { intros l. unfold is_done, codec_of. destruct (legs c !! l) as [x|] eqn:E.
    - destruct (Hl l x E) as (x'&->&?&_&Ec&_). cbn. by rewrite Ec.
    - apply lookup_ge_None in E. by rewrite (proj2 (lookup_ge_None (legs c') l)) by lia. }
  assert (forall l, said l c -> said l c') as Hs.
  { intros l (x&Hx&Hxd). destruct (Hl l x Hx) as (x'&Hx'&?&?&_). exists x'. naive_solver. }
  assert (forall k y z, why_ok k y z c -> why_ok k y z c') as Hw.
  { intros [] y z; cbn; [by rewrite (proj1 (Hd y))| |done]. intros (y'&->&Hy). exists y'. by rewrite (proj1 (Hd y')). }
  destruct (good_own _ _ _ _ Hg) as [O1 O0 O2 O3 O5 O6 O7 O8 O9]. rewrite Hp in *.
  destruct Hg as [H1 H2 H3 H4 H5 H6 H7 H8]. split.
  - unfold well_formed. rewrite El. exact H1.
  - intros u [= <-]. split; try done; rewrite ?El; [done|by intros l [= <-]; apply O3|]. intros Hr. destruct (O8 Hr); auto.
  - unfold snapshot in *. destruct w; try done; change (a c') with (a c); change (b c') with (b c); change (handing c') with (handing c);
      change (offload c') with (offload c); unfold everyone_said in *; naive_solver.
  - intros l Hl'. destruct (decide (l = leg)) as [->|Hne].
    { right. right. right. by eexists. }
    destruct (H4 l) as [?|[?|[?|(u&[= <-]&Hu)]]]; [|by left|by right; left; auto|by right; right; left|].
    + destruct Hl' as (x'&Hx'&Hu'). pose proof (lookup_lt_Some _ _ _ Hx') as Hlt. rewrite El in Hlt. apply lookup_lt_is_Some_2 in Hlt as [x Hx].
      destruct (Hl l x Hx) as (x1&Hx1&_&_&_&[E|E]); [|done]. exists x. split; [done|]. rewrite Hx' in Hx1. injection Hx1 as <-. congruence.
    + unfold pend in Hu. by rewrite Hp in Hu.
  - intros n E. destruct (H5 n E) as [?|(u&[= <-]&_&?)]; [by left|]. right. by eexists.
  - intros n E. destruct (H6 n E) as [?|(u&[= <-]&Hb)]; [by left|]. by rewrite Hp in Hb.
  - intros E l Hi. apply Hs. by apply H7.
  - by rewrite El.
Qed.

(** It is in progress in [s]. *)
Abbreviation mine i t s := (current (transfers s) (Some (i, t)) /\ good (call s) (waiter s) (releases s) (Some t)).

Section turns.
Context (srv : Server) (parses : text -> bool).

Lemma good_destination d o c w rel ot : good c w rel ot -> good (transferDestination srv parses d o c).1.1 w rel ot.
Proof.
  intros Hg. assert (forall x, good (with_woken x c) w rel ot) as Hw.
  { intros x. destruct Hg as [H1 H2 H3 H4 H5 H6 H7 H8]. split; try done. intros t Ht. destruct (H2 t Ht). by split. }
  unfold transferDestination. destruct (target d); try (destruct (cfg_trunk srv); done);
    (destruct (_ && negb _); [done|]); (destruct (wakeAndWaitFrom _ _ _ _ _) as [tr [r|]]; [apply Hw|done]).
Qed.

Lemma inv_look i t o s : current (transfers s) (Some (i, t)) -> good (call s) (waiter s) (releases s) (Some t) -> pc t = TLook ->
  inv (look srv parses i t o s).
Proof.
  intros Hc Hg Hp.
  assert (forall e c l, good c (waiter s) (releases s) (Some t) -> inv (mkSys c (waiter s) (<[i := failed e t]> (transfers s)) (releases s) l)) as Hf.
  { intros e c l Hgc. eapply inv_transfer; [done|]. apply good_failed; [done|by rewrite Hp|unfold pend; by rewrite Hp]. }
  unfold look. destruct (target (decision t)).
  3: { eapply inv_transfer; [done|]. apply (good_pc _ _ _ t); try done; rewrite ?Hp; try done; unfold pend; by rewrite ?Hp. }
  3: { by apply Hf. }
  all: pose proof (good_destination (decision t) o _ _ _ _ Hg) as Hd; destruct (transferDestination _ _ _ _ _) as [[c acts] r]; cbn in Hd;
    (destruct r as [[dst tr]|]; [|by apply Hf]); (destruct (dialog_ok o); [|by apply Hf]); cbn [negb call];
    (destruct (calleeInvite _ _ _ _ _ _ _); [|by apply Hf]); (eapply inv_transfer; [done|]); by apply good_invite.
Qed.

Lemma play_good f k c w rel ot : good c w rel ot -> good (fst (playLocked f k c)) w rel ot.
Proof. intros Hg. destruct (playLocked_frame f k c) as [h ->]. by apply good_hold. Qed.

Lemma inv_rings i t leg status s : mine i t s -> pc t = TInviting leg -> inv (rings i t status s).
Proof.
  intros [Hc Hg] Hp. unfold rings. destruct (_ || released t) eqn:E; [by exists (Some (i, t))|]. eapply inv_transfer; [done|].
  assert (still (with_released t) = Some (with_released t)) as -> by (unfold still; cbn; by rewrite Hp).
  apply (good_releases (from t, false)), (play_good (from t) Ringback) in Hg; [|apply (o_from _ _ _ _ (good_own _ _ _ _ Hg))].
  destruct (good_own _ _ _ _ Hg) as [O1 O0 O2 O3 O5 O6 O7 O8 O9]. apply (good_change _ _ _ t); [done|..].
  - intros u [= <-]. split; try done. intros _. right. cbn. set_solver.
  - intros l Hl. right. right. right. by exists (with_released t).
  - right. by exists (with_released t).
  - intros Hh. cbn. rewrite Hp in Hh. done.
Qed.

Lemma inv_refused i t leg s : mine i t s -> pc t = TInviting leg -> inv (refused i t leg s).
Proof.
  intros [Hc Hg] Hp. unfold refused. assert (good (Close leg (Hangup true leg (call s))) (waiter s) (releases s) (Some t)) as Hg'.
  { eapply good_aged; [|done]. eapply aged_trans; [apply aged_Hangup|apply aged_Close]. }
  destruct (released t) eqn:Er; cbn [negb]; (eapply inv_transfer; [done|]).
  - apply (play_good (from t) Busy) in Hg'. apply (good_pc _ _ _ t); try done; unfold pend; by rewrite Hp.
  - apply good_failed; [done|by rewrite Hp|unfold pend; by rewrite Hp].
Qed.

Lemma sameCodec_sym x y : sameCodec x y = sameCodec y x.
Proof. unfold sameCodec. f_equal; [f_equal; [by apply bool_decide_ext|apply Z.eqb_sym]|apply Z.eqb_sym]. Qed.

Lemma inv_answered i t leg k s : mine i t s -> pc t = TInviting leg ->
  inv (with_transfer i (with_pc (TAnswered leg k) t) (answered_leg leg) s).
Proof. intros [Hc Hg] Hp. eapply inv_transfer; [done|]. by apply good_answered. Qed.

Lemma inv_acked i t leg k ok s : mine i t s -> pc t = TAnswered leg k -> inv (acked i t leg k ok s).
Proof.
  intros [Hc Hg] Hp. destruct (o_leg _ _ _ _ (good_own _ _ _ _ Hg) leg) as [Hl Hn]; [by rewrite Hp|]. unfold acked. destruct ok; cbn [negb].
  - eapply inv_transfer; [done|]. eapply good_aged; [apply (aged_set_codec k leg)|]. destruct (match codec_of _ _ with Some _ => _ | None => _ end);
      apply (good_pc _ _ _ t); try done; rewrite ?Hp; try done; unfold pend; rewrite ?Hp; by right.
  - eapply inv_transfer; [done|]. assert (aged (call s) (Close leg (leave leg (call s)))) as Ha by (eapply aged_trans; [apply aged_leave|apply aged_Close]).
    apply good_failed; [by eapply good_aged|by rewrite Hp|]. unfold pend. rewrite Hp. intros l ->.
    eapply said_aged; [apply aged_Close|]. apply said_leg; [done|by left].
Qed.

Lemma inv_moved i t leg got ok s : mine i t s -> pc t = TMoving leg -> inv (moved i t leg got ok s).
Proof.
  intros [Hc Hg] Hp. destruct (o_leg _ _ _ _ (good_own _ _ _ _ Hg) leg) as [Hl Hn]; [by rewrite Hp|].
  assert (inv (with_transfer i (failed Err488 t) (fun c => Close leg (Hangup ok leg c)) s)) as Hf.
  { eapply inv_transfer; [done|]. apply good_failed; [eapply good_aged; [|done]; eapply aged_trans; [apply aged_Hangup|apply aged_Close]|by rewrite Hp|].
    unfold pend. rewrite Hp. intros l ->. eapply said_aged; [apply aged_Close|]. by apply said_Hangup. }
  unfold moved. destruct got as [k|]; [|done]. destruct (codec_of leg (call s)) as [kl|]; [|done]. destruct (sameCodec k kl); [|done].
  eapply inv_transfer; [done|]. eapply good_aged; [apply (aged_set_codec k (other t))|].
  apply (good_pc _ _ _ t); try done; rewrite ?Hp; try done; unfold pend; rewrite ?Hp; by right.
Qed.

(** The swap. *)
Lemma bridged_parties t c : well_formed c -> paired t c ->
  (if decide (from t = a c) then other t else a c) = other t.
Proof. intros [Ha Hb] [[E1 E2]|[E1 E2]]; case_decide as E; done. Qed.

Lemma good_bridged h c w rel t leg : good c w rel (Some t) -> pc t = TBridging leg ->
  let t' := with_handed t in let x := other t in
  good (with_swapped true (with_relay match leg with None => [(x, x)] | Some y => [(x, y); (y, x)] end true
         (with_hold h (with_parties x leg c)))) w rel (Some (with_pc (if released t then TClosing else TReferrer) t')).
Proof.
  intros Hg Hp. destruct (good_own _ _ _ _ Hg) as [O1 O0 O2 O3 O5 O6 O7 O8 O9]. rewrite Hp in *. specialize (O2 eq_refl).
  destruct (O5 eq_refl) as (Eh&Eop&Hw). destruct Hg as [[Ha Hb] H2 H3 H4 H5 H6 H7 H8]. cbn zeta. set (c' := with_swapped _ _).
  assert (In_other : in_play (other t) c) by (destruct O2 as [[? ?]|[? ?]]; [by right|left; congruence]).
  assert (forall l, in_play l c -> l = from t \/ l = other t) as Hin.
  { intros l [->|E]; destruct O2 as [[E1 E2]|[E1 E2]]; [by left|by right; rewrite E2 in *|right; congruence|left; congruence]. }
  split.
  - split; cbn.
    + destruct In_other as [->|E]; [done|by apply Hb].
    + intros y ->. destruct (O3 y eq_refl) as [Hy Hn]. split; [done|]. by intros ->.
  - intros u [= <-]. split; try done; cbn [with_pc with_handed pc ours released]; destruct (released t) eqn:Er; try done.
  - unfold snapshot. change (handing c') with (handing c). rewrite Eh. destruct w; try done.
    + by right.
    + by right.
    + split; [by right|apply H3].
    + by right.
    + right. by rewrite Hw.
  - intros l Hl. destruct (H4 l Hl) as [Hi|[?|[?|(u&[= <-]&Hu)]]]; [|by right; left|by right; right; left|].
    + destruct (Hin l Hi) as [->| ->]; [|by left; left]. destruct (released t) eqn:Er.
      * destruct (O8 eq_refl); [by right; left|by right; right; left].
      * right. right. right. by eexists.
    + unfold pend in Hu. rewrite Hp in Hu. destruct leg as [y|]; [|done]. subst l. left. by right.
  - intros n E. right. exists (with_pc (if released t then TClosing else TReferrer) (with_handed t)). split; [done|]. split; [by destruct (released t)|].
    change (handing c = Some n) in E. rewrite Eh in E. by injection E.
  - intros n E. destruct (H6 n E) as [?|(u&[= <-]&Hb')]; [by left|]. by rewrite Hp in Hb'.
  - change (offloaded c') with (offloaded c). congruence.
  - exact H8.
Qed.

Definition swapped_call (t : transfer) (leg : option nat) (c : bridgedCall) : bridgedCall :=
  with_swapped true (with_relay match leg with None => [(other t, other t)] | Some y => [(other t, y); (y, other t)] end true
         (with_hold (hold (stopHoldLocked c)) (with_parties (other t) leg c))).

Lemma bridge_shape i t leg s : mine i t s -> pc t = TBridging leg ->
  bridge_legs i t leg true s = with_transfer i (with_pc (if released t then TClosing else TReferrer) (with_handed t)) (fun _ => swapped_call t leg (call s)) s.
Proof.
  intros [Hc Hg] Hp.
  assert ((if decide (from t = a (call s)) then with_parties (other t) leg (call s) else with_parties (a (call s)) leg (call s))
    = with_parties (other t) leg (call s)) as E.
  { pose proof (bridged_parties t (call s) (g_wf _ _ _ _ Hg)) as Hb. case_decide; [done|]. rewrite Hb; [done|].
    apply (o_paired _ _ _ _ (good_own _ _ _ _ Hg)). by rewrite Hp. }
  unfold bridge_legs. rewrite E. unfold startLocked. cbn [negb]. change (b (stopHoldLocked (with_parties (other t) leg (call s)))) with leg.
  by destruct leg.
Qed.

Lemma inv_bridge i t leg s : mine i t s -> pc t = TBridging leg -> inv (bridge_legs i t leg true s).
Proof.
  intros Hm Hp. rewrite bridge_shape by done. destruct Hm as [Hc Hg]. eapply inv_transfer; [done|].
  pose proof (good_bridged (hold (stopHoldLocked (call s))) _ _ _ t leg Hg Hp) as Hb. unfold still.
  cbn [with_pc pc with_handed released] in *. destruct (released t); exact Hb.
Qed.

(** The releases, the deferred function. *)
Lemma good_let_go ok l c w rel ot : good c w rel ot -> good (let_go ok l c) w rel ot.
Proof. apply good_aged, aged_let_go. Qed.

Lemma inv_finish i t ok s : mine i t s -> pc t = TFinish -> inv (with_transfer i (with_pc TRelease t) (let_go ok (from t)) s).
Proof.
  intros [Hc Hg] Hp. pose proof (o_from _ _ _ _ (good_own _ _ _ _ Hg)) as Hf. eapply inv_transfer; [done|].
  apply (good_pc _ _ _ t); try done; rewrite ?Hp; try done; [by apply good_let_go|by intros _; apply said_let_go|]. unfold pend. by rewrite Hp.
Qed.

Lemma inv_release i t ok s : mine i t s -> pc t = TRelease ->
  inv (with_transfer i (with_pc TDone t) (fun c => endOffload true (let_go ok (other t) c)) s).
Proof.
  intros [Hc Hg] Hp. eapply inv_transfer; [done|]. destruct (good_own _ _ _ _ Hg) as [O1 O0 O2 O3 O5 O6 O7 O8 O9]. rewrite Hp in *.
  apply good_endOffload; [by apply good_let_go|by rewrite Hp| |by right]. right. specialize (O7 eq_refl). destruct (g_wf _ _ _ _ Hg) as [Ha Hb].
  assert (aged (call s) (let_go ok (other t) (call s))) as Hag by apply aged_let_go.
  intros l Hl. pose proof Hag as (E&_). rewrite E in Hl.
  destruct (O2 eq_refl) as [[E1 E2]|[E1 E2]]; destruct Hl as [->|El]; cbn [with_legs a b] in *.
  - rewrite <- E1. by eapply said_aged.
  - rewrite E2 in El. injection El as <-. apply said_let_go. by apply Hb.
  - rewrite <- E2. apply said_let_go. by rewrite E2.
  - rewrite E1 in El. injection El as <-. by eapply said_aged.
Qed.

Lemma inv_referrer i t ok s : mine i t s -> pc t = TReferrer -> inv (with_transfer i (with_pc TClosing t) (let_go ok (from t)) s).
Proof.
  intros [Hc Hg] Hp. pose proof (o_from _ _ _ _ (good_own _ _ _ _ Hg)) as Hf. eapply inv_transfer; [done|].
  apply (good_pc _ _ _ t); try done; rewrite ?Hp; try done; [by apply good_let_go|]. unfold pend. rewrite Hp. intros l ->. left. by apply said_let_go.
Qed.

Lemma inv_busy i t leg ok s : mine i t s -> pc t = TBusy leg -> inv (busy_over i t ok s).
Proof.
  intros [Hc Hg] Hp. eapply inv_transfer; [done|]. assert (good (hangup_live ok (other t) (stopHoldLocked (call s))) (waiter s) (releases s) (Some t)) as Hg'
    by (eapply good_aged; [apply aged_hangup_live|by apply good_hold]).
  apply (good_pc _ _ _ t); try done; rewrite ?Hp; try done; unfold pend; by rewrite Hp.
Qed.

Lemma inv_closing i t s : mine i t s -> pc t = TClosing -> inv (with_transfer i (with_pc TSettling t) (close_chan (ours t)) s).
Proof.
  intros [Hc Hg] Hp. eapply inv_transfer; [done|]. destruct (good_own _ _ _ _ Hg) as [O1 O0 O2 O3 O5 O6 O7 O8 O9]. rewrite Hp in *.
  destruct (O5 eq_refl) as (Eh&Eop&Hw). cbn. set (c' := close_chan _ _). assert (forall n, shut n (call s) -> shut n c') as Hs.
  { intros n Hn. unfold shut, c'. cbn. rewrite list_lookup_insert. destruct (decide _); [done|apply Hn]. }
  assert (shut (ours t) c') as Ho by (unfold shut, c'; cbn; rewrite list_lookup_insert, decide_True; [done|split; [done|by eapply lookup_lt_Some]]).
  destruct Hg as [H1 H2 H3 H4 H5 H6 H7 H8]. split; try done.
  - intros u [= <-]. by split.
  - unfold snapshot in *. change (handing c') with (handing (call s)). change (offload c') with (offload (call s)).
    destruct (waiter s); try done; unfold why_ok in *; naive_solver.
  - intros l Hl. destruct (H4 l Hl) as [?|[?|[?|(u&[= <-]&Hu)]]]; [by left|by right; left|by right; right; left|].
    unfold pend in Hu. by rewrite Hp in Hu.
  - intros n E. left. change (handing (call s) = Some n) in E. rewrite Eh in E. by injection E as <-.
  - intros n E. destruct (H6 n E) as [?|(u&[= <-]&Hb)]; [left; by apply Hs|]. by rewrite Hp in Hb.
Qed.

Lemma inv_settling i t held s : mine i t s -> pc t = TSettling -> inv (with_transfer i (with_pc TDone t) (settle t held) s).
Proof.
  intros [Hc Hg] Hp. eapply inv_transfer; [done|]. destruct (settle_frame t held (call s)) as [h ->]. apply good_hold. cbn.
  apply (good_change _ _ _ t); [done|done|unfold pend; by rewrite Hp|by rewrite Hp|by rewrite Hp].
Qed.

Lemma good_relay ps c w rel t : good c w rel (Some t) -> (pc t = TOutcome) -> good (with_relay ps false c) w rel (Some (with_pc TFinish t)).
Proof.
  intros Hg Hp. assert (good (with_relay ps false c) w rel (Some t)) as Hg'.
  { destruct Hg as [H1 H2 H3 H4 H5 H6 H7 H8]. split; try done; [intros u Hu; destruct (H2 u Hu); by split|].
    destruct w; try done. split; [apply H3|done]. }
  apply (good_pc _ _ _ t); try done; rewrite ?Hp; try done; unfold pend; by rewrite Hp.
Qed.

(** A turn of the transfer in progress. *)
Lemma inv_turn e i t s s' : mine i t s -> orderly e s -> transfer_step srv parses e i t s = Some s' -> inv s'.
Proof.
  intros Hm Ho. pose proof Hm as [Hc Hg]. destruct e; destruct (pc t) eqn:Ep; cbn [transfer_step]; rewrite ?Ep; try done.
  - destruct ok; intros [= <-]; (eapply inv_transfer; [done|]); [by apply good_beginOffload|].
    apply (good_pc _ _ _ t); try done; rewrite ?Ep; try done. unfold pend. by rewrite Ep.
  - assert (good (endOffload false (call s)) (waiter s) (releases s) (still (with_pc TDecided t))) as He
      by (apply good_endOffload; [done|by rewrite Ep|by left|by left]).
    destruct (referOutcome code) as [fin ok]. destruct fin, ok; cbn [negb]; intros [= <-]; try (by exists (Some (i, t)));
      (eapply inv_transfer; [done|]); [by apply (good_relay _)|done].
  - destruct (is_done _ _); [|done]. intros [= <-]. eapply inv_transfer; [done|]. by apply (good_relay _).
  - intros [= <-]. eapply inv_transfer; [done|]. apply good_endOffload; [done|by rewrite Ep|by left|by left].
  - intros [= <-]. eapply inv_transfer; [done|]. destruct (playLocked_frame (from t) Music (call s)) as [h ->]. exact (good_hand h _ _ _ _ Hg Ep Ho).
  - intros [= <-]. by apply inv_look.
  - intros [= <-]. by eapply inv_rings.
  - intros [= <-]. by apply inv_refused.
  - destruct (is_done _ _); [done|]. intros [= <-]. by apply inv_answered.
  - intros [= <-]. by apply inv_acked.
  - intros [= <-]. by apply inv_moved.
  - cbn in Ho. subst ok. intros [= <-]. by apply inv_bridge.
  - intros [= <-]. by apply inv_finish.
  - intros [= <-]. by apply inv_release.
  - intros [= <-]. by eapply inv_busy.
  - intros [= <-]. by apply inv_referrer.
  - intros [= <-]. by apply inv_closing.
  - intros [= <-]. by apply inv_settling.
Qed.

(** ** The wait *)

Lemma good_waiter w' c w rel ot : good c w rel ot -> snapshot c w' ->
  (forall t, ot = Some t -> handing_over (pc t) = true ->
     match w' with WHangup _ _ _ | WStop | WOver => False | WHanding ch => ch = ours t | _ => True end) ->
  good c w' rel ot.
Proof.
  intros [H1 H2 H3 H4 H5 H6 H7 H8] Hs Hw. split; try done. intros t Ht. destruct (H2 t Ht) as [O1 O0 O2 O3 O5 O6 O7 O8 O9]. split; try done.
  intros Hh. destruct (O5 Hh) as (?&?&_). split; [done|]. split; [done|]. by apply Hw.
Qed.

Lemma good_swapped c w w' rel ot : good c w rel ot -> (match w with WSelect _ _ => True | _ => False end) -> w' = WLook -> good (with_swapped false c) w' rel ot.
Proof.
  intros [H1 H2 H3 H4 H5 H6 H7 H8] Hw ->. split; try done. intros t Ht. destruct (H2 t Ht) as [O1 O0 O2 O3 O5 O6 O7 O8 O9]. split; try done.
  intros Hh. destruct (O5 Hh) as (?&?&_). done.
Qed.

Lemma not_handing c w rel ot : good c w rel ot -> handing c = None -> forall t, ot = Some t -> handing_over (pc t) = true -> False.
Proof. intros Hg Hn t Ht Hh. destruct (o_handing _ _ _ _ (g_own _ _ _ _ Hg t Ht) Hh) as [E _]. congruence. Qed.

Lemma inv_woken k s s' : inv s -> wait_woken k s = Some s' -> inv s'.
Proof.
  intros (ot&Hc&Hg). unfold wait_woken. destruct (waiter s) as [|x y| | | | | | |] eqn:Ew; try done. pose proof (g_snap _ _ _ _ Hg) as Hs. cbn in Hs.
  assert (forall w, why_ok w x y (call s) -> inv (with_waiter (WOffload w x y) s)) as Hk.
  { intros w Hw. exists ot. split; [done|]. cbn. apply (good_waiter _ _ (WSelect x y)); [done| |done]. cbn. destruct Hs as [?|[_ ?]]; [by left|by right]. }
  destruct k as [[]|].
  - destruct (is_done x _) eqn:E; [|done]. intros [= <-]. by apply Hk.
  - destruct y as [y|]; [|done]. destruct (is_done y _) eqn:E; [|done]. intros [= <-]. apply Hk. by exists y.
  - destruct (gone _); [|done]. intros [= <-]. by apply Hk.
  - destruct (swapped _); [|done]. intros [= <-]. exists ot. split; [done|]. by apply (good_swapped _ (WSelect x y)).
Qed.

Lemma rest_said ok1 ok2 k c : well_formed c -> why_ok k (a c) (b c) c -> everyone_said (hang_up_rest ok1 ok2 k (a c) (b c) c).
Proof.
  intros [Ha Hb] Hk l Hl. pose proof (aged_rest ok1 ok2 k (a c) (b c) c) as Hag. pose proof Hag as (E&_). rewrite E in Hl. cbn in Hl.
  destruct Hl as [->|El]; cbn [with_legs a b] in *.
  - destruct k; cbn in Hk |- *.
    + eapply said_aged; [apply (aged_rest ok1 ok2 AEnded (a c) (b c) c)|]. by apply said_done.
    + by apply said_Hangup.
    + destruct (b c) as [y|]; [|by apply said_Hangup]. eapply said_aged; [apply aged_Hangup|]. by apply said_Hangup.
  - destruct (Hb l El) as [Hlt _]. rewrite El in *. destruct k; cbn in Hk |- *.
    + by apply said_Hangup.
    + destruct Hk as (y&[= <-]&Hd). eapply said_aged; [apply aged_Hangup|]. by apply said_done.
    + apply said_Hangup. cbn. by rewrite length_alter.
Qed.

Lemma inv_wait ok1 ok2 s s' : inv s -> wait_step srv ok1 ok2 s = Some s' -> inv s'.
Proof.
  intros (ot&Hc&Hg). unfold wait_step, awaitOffload, awaitHandover. destruct (waiter s) as [| |k x y|ch k x y|k x y|ch|k x y| |] eqn:Ew; try done;
    pose proof (g_snap _ _ _ _ Hg) as Hs; cbn in Hs.
  - intros [= <-]. exists ot. split; [done|]. cbn. apply (good_waiter _ _ WLook); [done|by left|done].
  - intros [= <-]. exists ot. split; [done|]. cbn. apply (good_waiter _ _ (WOffload k x y)); [done| |by destruct (offload _)].
    destruct (offload (call s)) as [ch|] eqn:Eo; [|done]. split; [done|by right].
  - destruct (is_closed ch _); [|done]. intros [= <-]. exists ot. split; [done|]. cbn. apply (good_waiter _ _ (WOffloading ch k x y)); [done|..].
    + destruct (offloaded (call s)) eqn:Eo; [by apply (g_offloaded _ _ _ _ Hg)|apply Hs].
    + intros t Ht Hh. pose proof (o_offloaded _ _ _ _ (g_own _ _ _ _ Hg t Ht)) as ->. done.
  - intros [= <-]. exists ot. split; [done|]. cbn. apply (good_waiter _ _ (WHandover k x y)); [done|..].
    + destruct (handing (call s)) as [ch|] eqn:Eh; [by right|]. destruct Hs as [?|?]; done.
    + intros t Ht Hh. destruct (handing (call s)) as [ch|] eqn:Eh; [|by eapply (not_handing _ _ _ _ Hg)].
      destruct (o_handing _ _ _ _ (g_own _ _ _ _ Hg t Ht) Hh) as [E _]. congruence.
  - destruct (is_closed ch _) eqn:Ecl; [|done]. intros [= <-]. exists ot. split; [done|]. cbn. apply bool_decide_eq_true in Ecl.
    assert (forall t, snd <$> ot = Some t -> handing_over (pc t) = true -> False) as Hn.
    { intros t Ht Hh. destruct (o_handing _ _ _ _ (g_own _ _ _ _ Hg t Ht) Hh) as (_&Hop&->). unfold opened in Hop. congruence. }
    destruct Hg as [H1 H2 H3 H4 H5 H6 H7 H8]. split; try done.
    intros t Ht. destruct (H2 t Ht) as [O1 O0 O2 O3 O5 O6 O7 O8 O9]. split; try done. intros Hh. by destruct (Hn t).
  - intros [= <-]. exists ot. split; [done|]. cbn. destruct Hs as [[-> ->] Hk].
    apply (good_waiter _ _ (WHangup k (a (call s)) (b (call s)))); [eapply good_aged; [apply aged_rest|done]|by apply rest_said; [apply Hg|]|].
    intros t Ht Hh. by destruct (o_handing _ _ _ _ (g_own _ _ _ _ Hg t Ht) Hh) as (_&_&?).
  - intros [= <-]. exists ot. split; [done|]. cbn. destruct Hg as [H1 H2 H3 H4 H5 H6 H7 H8]. split; try done.
    intros t Ht. destruct (H2 t Ht) as [O1 O0 O2 O3 O5 O6 O7 O8 O9]. split; try done.
Qed.
(** ** The rest *)

Lemma inv_refer f d s s' : inv s -> orderly (ERefer f d) s -> refer srv parses f d s = Some s' -> inv s'.
Proof.
  intros (ot&Hc&Hg) (Hf&Hi&Hbye). unfold refer. destruct (legs (call s) !! f) as [x|] eqn:Ex; [|done]. specialize (Hbye x eq_refl).
  destruct (negb (up x) || done x) eqn:Eud; [done|]. apply orb_false_iff in Eud as [_ Ed].
  assert (ot = None) as ->.
  { destruct ot as [[i t]|]; [|done]. pose proof (proj2 Hc i t eq_refl) as Ht. destruct (o_running _ _ _ _ (good_own _ _ _ _ Hg)).
    exact (proj1 (Forall_lookup _ _) Hi i t Ht). }
  assert (forall t, pc t = TDone -> inv (mkSys (call s) (waiter s) (transfers s ++ [t]) (releases s) (did s))) as Hdone.
  { intros t Ht. exists None. split; [|done]. split; [|done]. intros i u. cbn [transfers]. rewrite lookup_app_Some, list_lookup_singleton_Some.
    intros [Hu|(_&_&<-)]; [by apply Hc in Hu|by left]. }
  assert (forall o p e, opposite f (call s) = Some o -> p = TRefer \/ p = TDecided ->
    inv (mkSys (call s) (waiter s) (transfers s ++ [mkTransfer f o d p 0 0 None false false e]) (releases s) (did s))) as Hnew.
  { intros o p e Eo Hp. set (t := mkTransfer f o d p 0 0 None false false e). exists (Some (length (transfers s), t)). split.
    - split.
      + intros i u. cbn [transfers]. rewrite lookup_app_Some, list_lookup_singleton_Some. intros [Hu|(Hle&Hz&<-)]; [destruct (proj1 Hc i u Hu); [by left|done]|].
        right. assert (i = length (transfers s)) as -> by lia. done.
      + intros i u [= <- <-]. cbn [transfers]. by rewrite lookup_app_r, Nat.sub_diag by lia.
    - cbn. pose proof (g_wf _ _ _ _ Hg) as [Ha Hb]. destruct Hg as [H1 H2 H3 H4 H5 H6 H7 H8]. split; try done.
      + intros u [= <-]. split; try done; cbn [pc t from other released]; try (by destruct Hp as [-> | ->]).
        * by eapply lookup_lt_Some.
        * intros _. unfold paired. unfold opposite in Eo. cbn. destruct Hf as [->|Ef]; case_decide as E; try congruence; [|by left|by right; split; congruence].
          by destruct (Hb (a (call s))).
        * destruct (offloaded (call s)) eqn:Eoff; [|done]. destruct (H7 eq_refl f) as (y&Hy&Hs); [by destruct Hf; [left|right]|].
          rewrite Ex in Hy. injection Hy as <-. destruct Hs; congruence.
      + intros l Hl. destruct (H4 l Hl) as [?|[?|[?|(u&?&_)]]]; [by left|by right; left|by right; right; left|done].
      + intros n E. destruct (H5 n E) as [?|(u&?&_)]; [by left|done].
      + intros n E. destruct (H6 n E) as [?|(u&?&_)]; [by left|done]. }
  destruct (opposite f (call s)) as [o|] eqn:Eo; [|intros [= <-]; by apply Hdone].
  destruct (shouldOffload _ _ _); [|intros [= <-]; apply Hnew; auto]. destruct (cfg_trunk srv) as [tr|]; [|intros [= <-]; apply Hnew; auto].
  destruct (parses _); intros [= <-]; [apply Hnew; auto|by apply Hdone].
Qed.

Lemma inv_released n ok l s : inv s -> releases s !! n = Some (l, false) ->
  inv (mkSys (let_go ok l (call s)) (waiter s) (transfers s) (<[n := (l, true)]> (releases s)) (did s)).
Proof.
  intros (ot&Hc&Hg) Hn. exists ot. split; [done|]. cbn. pose proof (proj1 (Forall_lookup _ _) (g_rel _ _ _ _ Hg) n _ Hn) as Hl. cbn in Hl.
  apply (good_let_go ok l) in Hg. set (c' := let_go ok l (call s)) in *. assert (said l c') as Hs by by apply said_let_go.
  assert (forall x, (x, false) ∈ releases s -> said x c' \/ (x, false) ∈ <[n := (l, true)]> (releases s)) as Hr.
  { intros x [k Hk]%list_elem_of_lookup. destruct (decide (k = n)) as [->|Hne].
    - rewrite Hn in Hk. injection Hk as ->. by left.
    - right. apply list_elem_of_lookup. exists k. by rewrite list_lookup_insert_ne. }
  destruct Hg as [H1 H2 H3 H4 H5 H6 H7 H8]. split; try done.
  - intros t Ht. destruct (H2 t Ht) as [O1 O0 O2 O3 O5 O6 O7 O8 O9]. split; try done. intros Hrel. destruct (O8 Hrel) as [?|?]; [by left|auto].
  - intros x Hx. destruct (H4 x Hx) as [?|[?|[Hx'|?]]]; [by left|by right; left| |by right; right; right].
    destruct (Hr x Hx'); [by right; left|by right; right; left].
  - apply Forall_insert; [done|]. exact (proj1 (Forall_lookup _ _) H8 n _ Hn).
Qed.

Lemma xfer_inv_step e s s' : inv s -> orderly e s -> step srv parses e s = Some s' -> inv s'.
Proof.
  intros Hinv Ho. pose proof Hinv as (ot&Hc&Hg). destruct e; cbn [step whose]; try (
    rewrite ?option_bind_eq; cbn; destruct (transfers s !! _) as [t|] eqn:Et; [|done]; cbn; intros Hs;
    (destruct (proj1 Hc _ _ Et) as [Ed| ->]; [by (cbn in Hs; rewrite Ed in Hs)|]); by eapply inv_turn).
  - destruct (decide _); [|done]. intros [= <-]. exists ot. split; [done|]. cbn. destruct (setHeld_frame l held (call s)) as [h ->]. by apply good_hold.
  - destruct (legs (call s) !! l) as [x|]; [|done]. destruct (up x); [|done]. intros [= <-]. exists ot. split; [done|]. by eapply good_aged; [apply aged_leave|].
  - intros [= <-]. exists ot. split; [done|]. cbn. destruct Hg as [H1 H2 H3 H4 H5 H6 H7 H8]. split; try done. intros t Ht. destruct (H2 t Ht). by split.
  - intros Hs. by eapply inv_refer.
  - by apply inv_woken.
  - by apply inv_wait.
  - destruct (releases s !! n) as [[l []]|] eqn:En; try done. intros [= <-]. by apply inv_released.
Qed.

Lemma inv_run es : forall s s', inv s -> orderly_run srv parses es s -> run srv parses es s = Some s' -> inv s'.
Proof.
  induction es as [|e es IH]; intros s s' Hi; cbn; [by intros _ [= <-]|]. intros [Ho Hr]. destruct (step srv parses e s) as [s1|] eqn:E; [|done].
  cbn. apply IH; [by eapply xfer_inv_step|by apply Hr].
Qed.

Lemma inv_bridged ta tb k pa pb : inv (bridged ta tb k pa pb).
Proof.
  exists None. split; [done|]. split; try done.
  - split; [cbn; lia|]. intros y [= <-]. cbn. lia.
  - intros l (x&Hx&_). left. destruct l as [|[|l]]; [by left|by right|done].
Qed.

End turns.

(** ** Codecs *)

Lemma sameCodec_refl x : sameCodec x x = true.
Proof. unfold sameCodec. by rewrite bool_decide_eq_true_2, !Z.eqb_refl. Qed.


(** The legs of a transfer about to join them share a codec; with none, those of
    the call do. *)
Definition codecs (s : sys) : Prop :=
  (forall i t l, transfers s !! i = Some t -> pc t = TBridging (Some l) -> same_codecs (other t) l (call s))
  /\ ((forall i t l, transfers s !! i = Some t -> pc t <> TBridging (Some l)) ->
      forall y, b (call s) = Some y -> same_codecs (a (call s)) y (call s)).

Definition kept (c c' : bridgedCall) : Prop :=
  a c' = a c /\ b c' = b c /\ forall l k, codec_of l c = Some k -> codec_of l c' = Some k.

Lemma codecs_kept_trans c c1 c2 : kept c c1 -> kept c1 c2 -> kept c c2.
Proof. intros (E1&E2&H) (E1'&E2'&H'). split; [congruence|]. split; [congruence|]. auto. Qed.

Lemma codecs_kept_same x y c c' : kept c c' -> same_codecs x y c -> same_codecs x y c'.
Proof. intros (_&_&H) (k&k'&E&E'&Es). exists k, k'. auto. Qed.

Lemma kept_on_leg f l c : (forall x, codec (f x) = codec x) -> kept c (on_leg f l c).
Proof.
  intros Hf. split; [done|]. split; [done|]. intros l' k. unfold codec_of, on_leg. cbn. rewrite list_lookup_alter. case_decide as E; [subst l'|done].
  destruct (legs c !! l); cbn; [by rewrite Hf|done].
Qed.

Lemma kept_hangup_live ok l c : kept c (hangup_live ok l c).
Proof. unfold hangup_live. destruct (is_done l c); [done|]. by apply kept_on_leg. Qed.

Lemma kept_let_go ok l c : kept c (let_go ok l c).
Proof. eapply codecs_kept_trans; [apply kept_hangup_live|by apply kept_on_leg]. Qed.

Lemma kept_play f k c : kept c (fst (playLocked f k c)).
Proof. destruct (playLocked_frame f k c) as [h ->]. done. Qed.

Lemma kept_endOffload ok c : kept c (endOffload ok c).
Proof. unfold endOffload. cbn. by destruct (offload c). Qed.

Lemma kept_rest ok1 ok2 k x y c : kept c (hang_up_rest ok1 ok2 k x y c).
Proof.
  destruct k, y; cbn; try done; try by apply kept_on_leg. eapply codecs_kept_trans; by apply kept_on_leg.
Qed.

Lemma codecs_keep c w ts rel l s : codecs s -> kept (call s) c -> ts = transfers s -> codecs (mkSys c w ts rel l).
Proof.
  intros [H1 H2] Hk ->. split; cbn.
  - intros i t x Ht Hp. eapply codecs_kept_same; [done|]. by eapply H1.
  - intros Hn y Hy. pose proof Hk as (Ea&Eb&_). rewrite Ea. eapply codecs_kept_same; [done|]. apply H2; [done|congruence].
Qed.

Definition not_joining (t : transfer) : Prop := forall l, pc t <> TBridging (Some l).

Lemma codecs_turn c w rel d i t t' s : codecs s -> transfers s !! i = Some t -> not_joining t -> not_joining t' -> kept (call s) c ->
  codecs (mkSys c w (<[i := t']> (transfers s)) rel d).
Proof.
  intros [H1 H2] Hi Hn Hn' Hk. assert (forall j u l, <[i := t']> (transfers s) !! j = Some u -> pc u = TBridging (Some l) -> transfers s !! j = Some u) as Hu.
  { intros j u l. rewrite list_lookup_insert. case_decide; [intros [= <-] E; by apply Hn' in E|done]. }
  split; cbn.
  - intros j u l Hj Hp. eapply codecs_kept_same; [done|]. eapply H1; [by eapply Hu|done].
  - intros Hno y Hy. pose proof Hk as (Ea&Eb&_). rewrite Ea. eapply codecs_kept_same; [done|]. apply H2; [|congruence].
    intros j u l Hj E. destruct (decide (j = i)) as [->|Hne].
    + assert (u = t) as -> by congruence. by apply Hn in E.
    + apply (Hno j u l); [by rewrite list_lookup_insert_ne|done].
Qed.

(** The turn that makes a transfer join its legs. *)
Lemma codecs_join c w rel d i t leg s : (forall j u, transfers s !! j = Some u -> pc u = TDone \/ j = i) -> (i < length (transfers s))%nat ->
  pc t = TBridging (Some leg) -> same_codecs (other t) leg c -> codecs (mkSys c w (<[i := t]> (transfers s)) rel d).
Proof.
  intros Hone Hi Hp Hs. split; cbn.
  - intros j u l. rewrite list_lookup_insert. case_decide as E; [intros [= <-]; rewrite Hp; by intros [= <-]|].
    intros Hj Hpu. destruct (Hone j u Hj) as [Hd| ->]; [congruence|]. by destruct E.
  - intros Hno. exfalso. apply (Hno i t leg); [|done]. by rewrite list_lookup_insert, decide_True.
Qed.

Section codecs.
Context (srv : Server) (parses : text -> bool).

Lemma kept_append x c : kept c (with_legs (legs c ++ [x]) c).
Proof.
  split; [done|]. split; [done|]. intros l k. unfold codec_of. cbn. intros (y&Hy&->)%fmap_Some. by rewrite (lookup_app_l_Some _ _ _ _ Hy).
Qed.

Lemma kept_destination d o c : kept c (transferDestination srv parses d o c).1.1.
Proof.
  unfold transferDestination. destruct (target d); try (destruct (cfg_trunk srv); done);
    (destruct (_ && negb _); [done|]); (destruct (wakeAndWaitFrom _ _ _ _ _) as [tr [r|]]; done).
Qed.

Lemma codecs_look i t o s : codecs s -> transfers s !! i = Some t -> pc t = TLook -> codecs (look srv parses i t o s).
Proof.
  intros Hc Hi Hp. assert (not_joining t) as Hn by (intros l; by rewrite Hp).
  unfold look. destruct (target (decision t)).
  3: by eapply codecs_turn.
  3: by eapply codecs_turn.
  all: pose proof (kept_destination (decision t) o (call s)) as Hk; destruct (transferDestination _ _ _ _ _) as [[c acts] r]; cbn in Hk;
    (destruct r as [[dst tr]|]; [|by apply (codecs_turn _ _ _ _ i t _ s)]); (destruct (dialog_ok o); [|by apply (codecs_turn _ _ _ _ i t _ s)]); cbn [negb call];
    (destruct (calleeInvite _ _ _ _ _ _ _); [|by apply (codecs_turn _ _ _ _ i t _ s)]); (apply (codecs_turn _ _ _ _ i t _ s); [done|done|done|done|]);
    eapply codecs_kept_trans; [done|apply kept_append].
Qed.

Lemma codec_set k l c : (l < length (legs c))%nat -> codec_of l (set_codec k l c) = Some k.
Proof.
  intros [x Hx]%lookup_lt_is_Some_2. unfold codec_of, set_codec, on_leg. cbn. by rewrite list_lookup_alter, decide_True, Hx by done.
Qed.

Lemma codec_set_ne k l l' c : l <> l' -> codec_of l' (set_codec k l c) = codec_of l' c.
Proof. intros Hne. unfold codec_of, set_codec, on_leg. cbn. by rewrite list_lookup_alter, decide_False. Qed.

Lemma in_play_other t c : paired t c -> in_play (other t) c.
Proof. intros [[E1 E2]|[E1 E2]]; [by right|by left]. Qed.

(** A leg that is not in the call has changed codec. *)
Lemma codecs_away leg k i t p rel w d s : codecs s -> current (transfers s) (Some (i, t)) -> not_joining t -> not_joining (with_pc p t) ->
  (forall x, in_play x (call s) -> codec_of x (set_codec k leg (call s)) = codec_of x (call s)) ->
  codecs (mkSys (set_codec k leg (call s)) w (<[i := with_pc p t]> (transfers s)) rel d).
Proof.
  intros [H1 H2] Hcur Hn Hn' Hx. pose proof (proj2 Hcur i t eq_refl) as Hi.
  assert (forall j u l, transfers s !! j = Some u -> pc u <> TBridging (Some l)) as Hno.
  { intros j u l Hj E. destruct (proj1 Hcur j u Hj) as [Hd|[= -> ->]]; [congruence|]. by apply Hn in E. }
  split; cbn.
  - intros j u l. rewrite list_lookup_insert. case_decide; [intros [= <-] E; by apply Hn' in E|]. intros Hj E. by destruct (Hno j u l Hj).
  - intros _ y Hy. destruct (H2 Hno y Hy) as (q&q'&E&E'&Es). exists q, q'. rewrite !Hx by first [by left|by right]. done.
Qed.

Lemma codecs_acked i t leg k ok s : codecs s -> mine i t s -> pc t = TAnswered leg k -> codecs (acked i t leg k ok s).
Proof.
  intros Hc [Hcur Hg] Hp. pose proof (proj2 Hcur i t eq_refl) as Hi. assert (not_joining t) as Hn by (intros l; by rewrite Hp).
  pose proof (good_own _ _ _ _ Hg) as Ho. destruct (o_leg _ _ _ _ Ho leg) as [Hl Hnp]; [by rewrite Hp|].
  pose proof (in_play_other _ _ (o_paired _ _ _ _ Ho ltac:(by rewrite Hp))) as Hoth.
  unfold acked. destruct ok; cbn [negb].
  2: { eapply codecs_turn; try done. eapply codecs_kept_trans; by apply kept_on_leg. }
  assert (forall x, in_play x (call s) -> codec_of x (set_codec k leg (call s)) = codec_of x (call s)) as Hx
    by (intros x Hx; apply codec_set_ne; by intros ->).
  destruct (codec_of (other t) (call s)) as [ko|] eqn:Eo; [destruct (sameCodec k ko) eqn:Es|].
  - eapply codecs_join; [|by eapply lookup_lt_Some|done|].
    + intros j u Hj. destruct (proj1 Hcur j u Hj) as [?|[= -> ->]]; auto.
    + exists ko, k. rewrite Hx by done. split; [done|]. split; [by apply codec_set|]. by rewrite sameCodec_sym.
  - apply (codecs_away leg); [done..|exact Hx].
  - apply (codecs_away leg); [done..|exact Hx].
Qed.

Lemma codecs_moved i t leg got ok s : codecs s -> mine i t s -> pc t = TMoving leg -> codecs (moved i t leg got ok s).
Proof.
  intros Hc [Hcur Hg] Hp. pose proof (proj2 Hcur i t eq_refl) as Hi. assert (not_joining t) as Hn by (intros l; by rewrite Hp).
  pose proof (good_own _ _ _ _ Hg) as Ho. destruct (o_leg _ _ _ _ Ho leg) as [Hl Hnp]; [by rewrite Hp|].
  pose proof (in_play_other _ _ (o_paired _ _ _ _ Ho ltac:(by rewrite Hp))) as Hoth.
  assert (codecs (with_transfer i (failed Err488 t) (fun c => Close leg (Hangup ok leg c)) s)) as Hf.
  { eapply codecs_turn; try done. eapply codecs_kept_trans; by apply kept_on_leg. }
  unfold moved. destruct got as [k|]; [|done]. destruct (codec_of leg (call s)) as [kl|] eqn:El; [|done]. destruct (sameCodec k kl) eqn:Es; [|done].
  eapply codecs_join; [|by eapply lookup_lt_Some|done|].
  - intros j u Hj. destruct (proj1 Hcur j u Hj) as [?|[= -> ->]]; auto.
  - exists k, kl. split; [|rewrite codec_set_ne; [done|intros E; apply Hnp; by rewrite <- E]]. apply codec_set. destruct (g_wf _ _ _ _ Hg) as [Ha Hb].
    destruct Hoth as [->|E]; [done|by apply Hb].
Qed.

Lemma codecs_bridge i t leg s : codecs s -> mine i t s -> pc t = TBridging leg -> codecs (bridge_legs i t leg true s).
Proof.
  intros [H1 H2] [Hcur Hg] Hp. pose proof (proj2 Hcur i t eq_refl) as Hi. rewrite (bridge_shape i t leg s) by done.
  assert (not_joining (with_pc (if released t then TClosing else TReferrer) (with_handed t))) as Hn by (intros l; cbn; by destruct (released t)).
  split; cbn.
  - intros j u l. rewrite list_lookup_insert. case_decide as E; [intros [= <-] Eu; by apply Hn in Eu|].
    intros Hj Hpu. destruct (proj1 Hcur j u Hj) as [Hd|[= -> ->]]; [congruence|]. destruct E. split; [done|by eapply lookup_lt_Some].
  - intros _ y ->. destruct (H1 i t y Hi Hp) as (k&k'&E1&E2&Es). by exists k, k'.
Qed.

Lemma codecs_turns e i t s s' : codecs s -> mine i t s -> orderly e s -> transfer_step srv parses e i t s = Some s' -> codecs s'.
Proof.
  intros Hc Hm Ho. pose proof Hm as [Hcur Hg]. pose proof (proj2 Hcur i t eq_refl) as Hi. destruct e; destruct (pc t) eqn:Ep; cbn [transfer_step]; rewrite ?Ep; try done;
    assert (not_joining t \/ exists leg, pc t = TBridging leg) as Hn by (rewrite Ep; unfold not_joining; rewrite Ep; try (by left); right; by eexists);
    (destruct Hn as [Hn|[leg' Hn]]; [|rewrite Ep in Hn; try done]).
  - intros [= <-]. eapply codecs_turn; try done; by destruct ok.
  - destruct (referOutcome code) as [fin ok]. destruct fin, ok; cbn [negb]; intros [= <-]; try done; eapply codecs_turn; try done; apply kept_endOffload.
  - destruct (is_done _ _); [|done]. intros [= <-]. by eapply codecs_turn.
  - intros [= <-]. eapply codecs_turn; try done. apply kept_endOffload.
  - intros [= <-]. eapply codecs_turn; try done. apply (kept_play (from t) Music (call s)).
  - intros [= <-]. by apply codecs_look.
  - intros [= <-]. unfold rings. destruct (_ || _); [done|]. eapply codecs_turn; try done. apply kept_play.
  - intros [= <-]. assert (kept (call s) (Close leg (Hangup true leg (call s)))) as Hk by (eapply codecs_kept_trans; by apply kept_on_leg).
    unfold refused. destruct (released t); cbn [negb]; apply (codecs_turn _ _ _ _ i t _ s); try done. eapply codecs_kept_trans; [done|apply kept_play].
  - destruct (is_done _ _); [done|]. intros [= <-]. eapply codecs_turn; try done. by apply kept_on_leg.
  - intros [= <-]. by apply codecs_acked.
  - intros [= <-]. by apply codecs_moved.
  - cbn in Ho. subst ok. intros [= <-]. by apply codecs_bridge.
  - cbn in Ho. subst ok. intros [= <-]. by apply codecs_bridge.
  - intros [= <-]. eapply codecs_turn; try done. apply kept_let_go.
  - intros [= <-]. eapply codecs_turn; try done. eapply codecs_kept_trans; [apply kept_let_go|apply kept_endOffload].
  - intros [= <-]. eapply codecs_turn; try done. apply (kept_hangup_live ok (other t) (stopHoldLocked (call s))).
  - intros [= <-]. eapply codecs_turn; try done. apply kept_let_go.
  - intros [= <-]. by eapply codecs_turn.
  - intros [= <-]. eapply codecs_turn; try done. cbn. destruct (settle_frame t held (call s)) as [h ->]. done.
Qed.
End codecs.
