(* ===== verification/TransferOver.v ===== *)
(** What holds of a bridged call of Transfer while transfers come one at a time,
    its witnesses, and what its modelling has found. *)

From S2P Require Import Prelude Text Net Registry Routing Trunk Call Transfer TransferProps TransferEnd.
Open Scope Z_scope.

Section over.
Context (srv : Server) (parses : text -> bool).
Abbreviation step := (step srv parses).
Abbreviation run := (run srv parses).
Abbreviation orderly_run := (orderly_run srv parses).

(** ** Codecs *)

Lemma codecs_step e s s' : inv s -> codecs s -> orderly e s -> step e s = Some s' -> codecs s'.
Proof.
  intros (ot&Hcur&Hg) Hc Ho. destruct e; cbn [Transfer.step whose]; try (
    cbn; destruct (transfers s !! _) as [t|] eqn:Et; [|done]; cbn; intros Hs;
    (destruct (proj1 Hcur _ _ Et) as [Ed| ->]; [by (cbn in Hs; rewrite Ed in Hs)|]); by eapply (codecs_turns srv parses)).
  - destruct (decide _); [|done]. intros [= <-]. apply (codecs_keep _ _ _ _ _ s); [done| |done]. cbn.
    by destruct (setHeld_frame l held (call s)) as [h ->].
  - destruct (legs (call s) !! l) as [x|]; [|done]. destruct (up x); [|done]. intros [= <-].
    apply (codecs_keep _ _ _ _ _ s); [done| |done]. by apply kept_on_leg.
  - intros [= <-]. by apply (codecs_keep _ _ _ _ _ s).
  - assert (forall t, not_joining t -> codecs (mkSys (call s) (waiter s) (transfers s ++ [t]) (releases s) (did s))) as Hnew.
    { intros t Hn. destruct Hc as [H1 H2]. split; cbn.
      - intros i u l. rewrite lookup_app_Some, list_lookup_singleton_Some. intros [Hu|(_&_&<-)] Hp; [by eapply H1|by apply Hn in Hp].
      - intros Hno. apply H2. intros i u l Hu. apply (Hno i u l). by apply lookup_app_l_Some. }
    unfold refer. destruct (legs (call s) !! f) as [x|]; [|done]. destruct (_ || _); [done|].
    destruct (opposite f _) as [o|]; [|intros [= <-]; by apply Hnew].
    destruct (shouldOffload _ _ _); [|intros [= <-]; by apply Hnew]. destruct (cfg_trunk srv); [|intros [= <-]; by apply Hnew].
    destruct (parses _); intros [= <-]; by apply Hnew.
  - unfold wait_woken. destruct (waiter s) as [|x y| | | | | | |]; try done. destruct w as [[]|].
    + destruct (is_done _ _); [|done]. intros [= <-]. by apply (codecs_keep _ _ _ _ _ s).
    + destruct y; [|done]. destruct (is_done _ _); [|done]. intros [= <-]. by apply (codecs_keep _ _ _ _ _ s).
    + destruct (gone _); [|done]. intros [= <-]. by apply (codecs_keep _ _ _ _ _ s).
    + destruct (swapped _); [|done]. intros [= <-]. by apply (codecs_keep _ _ _ _ _ s).
  - unfold wait_step. destruct (waiter s); try done; try (destruct (is_closed _ _); [|done]); intros [= <-];
      apply (codecs_keep _ _ _ _ _ s); try done. apply kept_rest.
  - destruct (releases s !! n) as [[l []]|]; try done. intros [= <-]. apply (codecs_keep _ _ _ _ _ s); [done|apply kept_let_go|done].
Qed.

Lemma codecs_run es : forall s s', inv s -> codecs s -> orderly_run es s -> run es s = Some s' -> codecs s'.
Proof.
  induction es as [|e es IH]; intros s s' Hi Hc; cbn; [by intros _ [= <-]|]. intros [Ho Hr]. destruct (step e s) as [s1|] eqn:E; [|done].
  cbn. apply IH; [by eapply xfer_inv_step|by eapply codecs_step|by apply Hr].
Qed.

(** C35: The relay copies encoded audio, so the two legs it joins must have one
    codec. In every run where a REFER comes from a party of the call that was not hung up
    on and while no other transfer is in progress, no transfer begins to be completed
    here after the wait has decided to end the call, and the relay can be started:
    whoever transfers whom to a phone, the PBX or the echo, and whatever codec each
    target answers with, the two legs of the relay are those of the call and share a
    codec, except while a transfer whose target has answered is between the remaining
    party's move to the new codec, if one is needed, and the swap. *)
Theorem relayed_legs_share_a_codec ta tb k pa pb es s x y :
  orderly_run es (bridged ta tb k pa pb) -> run es (bridged ta tb k pa pb) = Some s ->
  (x, y) ∈ pumps (call s) -> (forall i t leg, transfers s !! i = Some t -> pc t <> TBridging (Some leg)) ->
  in_play x (call s) /\ in_play y (call s)
  /\ exists kx ky, codec_of x (call s) = Some kx /\ codec_of y (call s) = Some ky /\ sameCodec kx ky = true.
Proof.
  intros Ho Hr Hin Hno. pose proof (inv_run srv parses es _ _ (inv_bridged ta tb k pa pb) Ho Hr) as (ot&_&Hg).
  assert (codecs (bridged ta tb k pa pb)) as Hc0.
  { split; [done|]. intros _ y' [= <-]. exists k, k. split; [done|]. split; [done|]. apply sameCodec_refl. }
  pose proof (codecs_run es _ _ (inv_bridged ta tb k pa pb) Hc0 Ho Hr) as [_ Hc]. specialize (Hc Hno).
  assert (pumps_ok (call s)) as Hp by (apply (run_one srv parses es) in Hr; [apply Hr|by apply startLocked_one]).
  destruct (g_wf _ _ _ _ Hg) as [Ha Hb]. destruct Hp as [Hp|Hp]; rewrite Hp in Hin; [by apply elem_of_nil in Hin|].
  destruct (b (call s)) as [z|] eqn:Ez.
  - destruct (Hc z eq_refl) as (q&q'&E&E'&Es). apply elem_of_cons in Hin as [[= -> ->]|[= -> ->]%list_elem_of_singleton].
    + split; [by left|]. split; [by right|]. by exists q, q'.
    + split; [by right|]. split; [by left|]. exists q', q. by rewrite sameCodec_sym.
  - apply list_elem_of_singleton in Hin as [= -> ->]. split; [by left|]. split; [by left|].
    apply lookup_lt_is_Some_2 in Ha as [z Hz]. exists (codec z), (codec z). unfold codec_of. rewrite Hz. split; [done|]. split; [done|]. apply sameCodec_refl.
Qed.

(** ** The end *)

(** Nothing but the wait has anything to do, and someone has left. *)
Record ready (s : sys) : Prop := {
  r_idle : idle s;
  r_releases : Forall (fun p => p.2 = true) (releases s);
  r_ended : is_done (a (call s)) (call s) = true \/ (exists y, b (call s) = Some y /\ is_done y (call s) = true) \/ gone (call s) = true;
}.

Definition wait_event (e : event) : Prop := match e with EWoken _ | EWait _ _ => True | _ => False end.

Definition can (ok1 ok2 : bool) (n : nat) (s : sys) : Prop :=
  exists es s', Forall (fun e => (exists w, e = EWoken w) \/ e = EWait ok1 ok2) es /\ (length es <= n)%nat
  /\ run es s = Some s' /\ waiter s' = WOver /\ transfers s' = transfers s /\ releases s' = releases s.

Lemma can_wait ok1 ok2 n s s' : wait_step srv ok1 ok2 s = Some s' -> transfers s' = transfers s -> releases s' = releases s ->
  can ok1 ok2 n s' -> can ok1 ok2 (S n) s.
Proof.
  intros Hs Et Er (es&s2&H1&H2&H3&H4&H5&H6). exists (EWait ok1 ok2 :: es), s2. split; [constructor; [by right|done]|]. split; [cbn; lia|].
  split; [cbn; by rewrite Hs|]. split; [done|]. split; congruence.
Qed.

Lemma can_woken ok1 ok2 n s s' w : wait_woken w s = Some s' -> transfers s' = transfers s -> releases s' = releases s ->
  can ok1 ok2 n s' -> can ok1 ok2 (S n) s.
Proof.
  intros Hs Et Er (es&s2&H1&H2&H3&H4&H5&H6). exists (EWoken w :: es), s2. split; [constructor; [left; by eexists|done]|]. split; [cbn; lia|].
  split; [cbn; by rewrite Hs|]. split; [done|]. split; congruence.
Qed.

Lemma can_more ok1 ok2 n m s : can ok1 ok2 n s -> (n <= m)%nat -> can ok1 ok2 m s.
Proof. intros (es&s2&H1&H2&H3) Hm. exists es, s2. split; [done|]. split; [lia|done]. Qed.

(** What a wait needs to get to the end. *)
Record calm (c : bridgedCall) : Prop := {
  c_handing : forall ch, handing c = Some ch -> shut ch c;
  c_offload : forall ch, offload c = Some ch -> shut ch c;
  c_ended : is_done (a c) c = true \/ (exists y, b c = Some y /\ is_done y c = true) \/ gone c = true;
}.

Lemma over_stop ok1 ok2 s : waiter s = WStop -> can ok1 ok2 1 s.
Proof.
  intros Hw. eapply can_wait; [unfold wait_step; rewrite Hw; done|done|done|]. eexists [], _. split; [done|]. split; [done|]. split; [done|]. done.
Qed.

Lemma over_hangup ok1 ok2 s k x y : waiter s = WHangup k x y -> can ok1 ok2 2 s.
Proof. intros Hw. eapply can_wait; [unfold wait_step; rewrite Hw; done|done|done|]. by apply over_stop. Qed.

(** From where the handover is asked about, and from the top, when none is set. *)
Lemma over_decided ok1 ok2 s k x y : waiter s = WHandover k x y -> handing (call s) = None -> can ok1 ok2 3 s.
Proof.
  intros Hw Hh. eapply can_wait; [unfold wait_step, awaitHandover; rewrite Hw, Hh; done|done|done|]. by eapply over_hangup.
Qed.

Lemma over_offload ok1 ok2 n s k x y : waiter s = WOffload k x y -> calm (call s) -> (1 <= n)%nat ->
  (forall s', call s' = call s -> waiter s' = WHandover k x y -> transfers s' = transfers s -> releases s' = releases s -> can ok1 ok2 n s') ->
  can ok1 ok2 (S (S n)) s.
Proof.
  intros Hw Hc Hn Hk. destruct (offload (call s)) as [ch|] eqn:Eo.
  - eapply can_wait; [unfold wait_step, awaitOffload; rewrite Hw, Eo; done|done|done|].
    assert (is_closed ch (call s) = true) as Hcl by (apply bool_decide_eq_true; by apply (c_offload _ Hc)).
    eapply can_wait; [unfold wait_step; cbn; rewrite Hcl; done|done|done|]. destruct (offloaded (call s)).
    + eapply can_more; [by apply over_stop|done].
    + by apply Hk.
  - eapply can_wait; [unfold wait_step, awaitOffload; rewrite Hw, Eo; done|done|done|]. eapply can_more; [by apply Hk|lia].
Qed.

(** The party that has left wakes the select. *)
Lemma woken_now s : waiter s = WSelect (a (call s)) (b (call s)) -> calm (call s) ->
  exists k, wait_woken (Some k) s = Some (with_waiter (WOffload k (a (call s)) (b (call s))) s).
Proof.
  intros Hw Hc. destruct (c_ended _ Hc) as [Hd|[(y&Ey&Hd)|Hd]].
  - exists AEnded. unfold wait_woken. rewrite Hw. by rewrite Hd.
  - exists BEnded. unfold wait_woken. rewrite Hw, Ey. by rewrite Hd.
  - exists Silent. unfold wait_woken. rewrite Hw. by rewrite Hd.
Qed.

Lemma over_select ok1 ok2 n s : waiter s = WSelect (a (call s)) (b (call s)) -> calm (call s) -> (1 <= n)%nat ->
  (forall k s', call s' = call s -> waiter s' = WHandover k (a (call s)) (b (call s)) -> transfers s' = transfers s -> releases s' = releases s -> can ok1 ok2 n s') ->
  can ok1 ok2 (3 + n) s.
Proof.
  intros Hw Hc Hn Hk. destruct (woken_now s Hw Hc) as (k&E). eapply can_woken; [exact E|done|done|].
  eapply over_offload; [done|done|done|]. intros s' Ec Ew Et Er. by eapply Hk.
Qed.

Lemma over_look ok1 ok2 n s : waiter s = WLook -> calm (call s) -> (1 <= n)%nat ->
  (forall k s', call s' = call s -> waiter s' = WHandover k (a (call s)) (b (call s)) -> transfers s' = transfers s -> releases s' = releases s -> can ok1 ok2 n s') ->
  can ok1 ok2 (4 + n) s.
Proof.
  intros Hw Hc Hn Hk. eapply can_wait; [unfold wait_step; rewrite Hw; done|done|done|]. by eapply over_select.
Qed.

Lemma over_plain ok1 ok2 s : waiter s = WLook -> calm (call s) -> handing (call s) = None -> can ok1 ok2 7 s.
Proof. intros Hw Hc Hh. apply (over_look _ _ 3); [done|done|lia|]. intros k s' Ec Ew _ _. eapply over_decided; [done|by rewrite Ec]. Qed.

Lemma over_handing ok1 ok2 s ch : waiter s = WHanding ch -> shut ch (call s) -> calm (call s) -> can ok1 ok2 8 s.
Proof.
  intros Hw Hs [C1 C2 C3]. assert (is_closed ch (call s) = true) as Hcl by by apply bool_decide_eq_true.
  eapply can_wait; [unfold wait_step; rewrite Hw, Hcl; done|done|done|]. by apply over_plain.
Qed.

Lemma over_handover ok1 ok2 s k x y : waiter s = WHandover k x y -> calm (call s) -> can ok1 ok2 9 s.
Proof.
  intros Hw Hc. destruct (handing (call s)) as [ch|] eqn:Eh; [|eapply can_more; [by eapply over_decided|lia]].
  eapply can_wait; [unfold wait_step, awaitHandover; rewrite Hw, Eh; done|done|done|]. eapply over_handing; [done|by apply (c_handing _ Hc)|done].
Qed.

Lemma over_all ok1 ok2 s : snapshot (call s) (waiter s) -> calm (call s) -> can ok1 ok2 14 s.
Proof.
  intros Hs Hc. destruct (waiter s) as [|x y|k x y|ch k x y|k x y|ch|k x y| |] eqn:Hw; cbn in Hs.
  - eapply can_more; [apply (over_look _ _ 9); [done|done|lia|]|lia]. intros k s' Ec Ew _ _. eapply over_handover; [done|by rewrite Ec].
  - destruct Hs as [[-> ->]|[Hsw Hh]].
    + eapply can_more; [apply (over_select _ _ 9); [done|done|lia|]|lia]. intros k s' Ec Ew _ _. eapply over_handover; [done|by rewrite Ec].
    + eapply (can_woken _ _ 13 _ _ None); [unfold wait_woken; rewrite Hw, Hsw; done|done|done|].
      destruct Hc as [C1 C2 C3]. apply (over_look _ _ 9); [done|done|lia|]. intros k s' Ec Ew _ _. eapply over_handover; [done|by rewrite Ec].
  - eapply can_more; [eapply (over_offload _ _ 9); [done|done|lia|]|lia]. intros s' Ec Ew _ _. eapply over_handover; [done|by rewrite Ec].
  - assert (is_closed ch (call s) = true) as Hcl.
    { apply bool_decide_eq_true. destruct Hs as [_ [?|?]]; [done|by apply (c_offload _ Hc)]. }
    eapply (can_more _ _ 10); [|lia]. eapply can_wait; [unfold wait_step; rewrite Hw, Hcl; done|done|done|]. destruct (offloaded (call s)).
    + eapply can_more; [by apply over_stop|lia].
    + by eapply over_handover.
  - eapply can_more; [by eapply over_handover|lia].
  - eapply can_more; [eapply over_handing; [done| |done]|lia]. destruct Hs; [done|by apply (c_handing _ Hc)].
  - eapply can_more; [by eapply over_hangup|lia].
  - eapply can_more; [by apply over_stop|lia].
  - eexists [], s. split; [done|]. split; [cbn; lia|]. done.
Qed.

Lemma wait_orderly es : forall s, Forall (fun e => wait_event e) es -> orderly_run es s.
Proof. induction es as [|e es IH]; intros s He; [done|]. apply Forall_cons in He as [He Hes]. split; [by destruct e|]. intros s' _. by apply IH. Qed.

(** C1: Nobody is left behind. Take a run where a REFER comes from a party of the call
    that was not hung up on and while no other transfer is in progress, no transfer
    begins to be completed here after the wait has decided to end the call, and the relay
    of each transfer can be started. Once no transfer and no release is in progress and a
    party has left or has been found silent, the wait alone brings the call to its end in
    at most fourteen of its steps, whether or not the others answer their BYE: the relay
    is stopped, and every leg that was ever answered, the transferred targets
    and the referrers included, has left or has been hung up on. *)
Theorem nobody_is_left_behind ta tb k pa pb es s (ok1 ok2 : bool) :
  orderly_run es (bridged ta tb k pa pb) -> run es (bridged ta tb k pa pb) = Some s -> ready s ->
  exists es' s', Forall (fun e => (exists w, e = EWoken w) \/ e = EWait ok1 ok2) es' /\ (length es' <= 14)%nat /\ run es' s = Some s'
  /\ waiter s' = WOver /\ relaying (call s') = false
  /\ forall l x, legs (call s') !! l = Some x -> up x = true -> done x = true \/ bye x = true.
Proof.
  intros Ho Hr Hq. pose proof (inv_run srv parses es _ _ (inv_bridged ta tb k pa pb) Ho Hr) as Hi. pose proof Hi as (ot&Hcur&Hg).
  assert (forall ot' s', idle s' -> current (transfers s') ot' -> good (call s') (waiter s') (releases s') (snd <$> ot') -> ot' = None) as Hidle.
  { intros [[i t]|] s' Hid Hc' Hg'; [|done]. destruct (o_running _ _ _ _ (good_own _ _ _ _ Hg')).
    exact (proj1 (Forall_lookup _ _) Hid i t (proj2 Hc' i t eq_refl)). }
  pose proof (Hidle ot s (r_idle _ Hq) Hcur Hg) as ->.
  assert (calm (call s)) as Hc.
  { split; [| |apply Hq].
    - intros ch E. by destruct (g_handing _ _ _ _ Hg ch E) as [?|(t&?&_)].
    - intros ch E. by destruct (g_offload _ _ _ _ Hg ch E) as [?|(t&?&_)]. }
  destruct (over_all ok1 ok2 s (g_snap _ _ _ _ Hg) Hc) as (es'&s'&Hes&Hn&Hr'&Hw&Et&Er). exists es', s'.
  assert (Forall wait_event es') as Hev by (eapply Forall_impl; [exact Hes|]; cbn; intros e [[w ->]| ->]; done).
  split; [done|]. split; [done|]. split; [done|]. split; [done|].
  destruct (inv_run srv parses es' s s' Hi (wait_orderly es' s Hev) Hr') as (ot'&Hcur'&Hg').
  assert (idle s') as Hid by (unfold idle; rewrite Et; apply Hq). pose proof (Hidle ot' s' Hid Hcur' Hg') as ->.
  pose proof (g_snap _ _ _ _ Hg') as Hs. rewrite Hw in Hs. destruct Hs as [Hs Hrel]. split; [done|]. intros l x Hx Hu.
  assert (said l (call s')) as (x'&Hx'&Hd).
  { destruct (g_up _ _ _ _ Hg' l) as [?|[?|[Hin|(t&?&_)]]]; [by exists x|by apply Hs|done| |done].
    rewrite Er in Hin. by pose proof (proj1 (Forall_forall _ _) (r_releases _ Hq) _ Hin). }
  rewrite Hx in Hx'. by injection Hx' as <-.
Qed.

End over.

(** ** A call *)

Definition opus : Codec := mkCodec "opus" 96 48000 20000000 2.
Definition g722 : Codec := mkCodec "G722" 9 8000 20000000 1.

Definition pbx : Trunk.Trunk := mkTrunk (T "pbx.example") 5060 (T "tcp").
Definition srv : Server := mkServer (Some pbx) TrunkSRTPOff false None [] [] (T "sip.example") true.
Definition bob : Endpoint := mkEndpoint "bob" "phone1" "sip:bob@10.0.0.1:4000;transport=tls" 900.
Definition to_bob : Decision_ := mkDecision Local (T "bob") (Some bob) true.
Definition to_pbx : Decision_ := mkDecision Routing.Trunk (T "200") None false.
Definition easy : dial := mkDial true (mkWakeWait 1 (inl bob)) true.

Definition an_app_call : sys := bridged false false opus (T "sip:alice@sip.example") (T "sip:carol@sip.example").
Definition a_pbx_call : sys := bridged false true g722 (T "sip:alice@sip.example") (T "sip:201@pbx.example").

Definition plays_out (es : list event) (s : sys) : option sys := run srv (fun _ => true) es s.

(** A transfer from the caller up to the target's answer, and to its end. *)
Definition to_the_answer (i : nat) (k : Codec) : list event :=
  [EHand i; ELook i easy; ERings i 180; EAnswered i k; EAcked i true].

(** Alice holds, transfers carol to bob, who answers with another codec, and is
    let go; then carol leaves. *)
Definition a_transfer : list event :=
  [EWait true true; EHeld 0 true; ERefer 0 to_bob] ++ to_the_answer 0 g722 ++
  [ECodec 0 (Some g722) true; EBridge 0 true; EReleased 0 true; EProceed 0 true false; EProceed 0 true false; ELeaves 1].

Definition transferred : sys := default an_app_call (plays_out a_transfer an_app_call).

Example transferred_state :
  a (call transferred) = 1%nat /\ b (call transferred) = Some 2%nat /\ pumps (call transferred) = [(1, 2); (2, 1)]%nat
  /\ codec_of 1 (call transferred) = Some g722 /\ is_done 0 (call transferred) = true.
Proof. by vm_compute. Qed.

Lemma transferred_runs : run srv (fun _ => true) a_transfer an_app_call = Some transferred.
Proof. unfold transferred, plays_out. destruct (run srv _ a_transfer an_app_call) eqn:E; [done|]. vm_compute in E. discriminate. Qed.

(** A check of [orderly_run] that evaluates. *)
Definition orderlyb (e : event) (s : sys) : bool :=
  match e with
  | ERefer f _ => (bool_decide (f = a (call s)) || bool_decide (b (call s) = Some f))
                  && forallb (fun t => match pc t with TDone => true | _ => false end) (transfers s)
                  && match legs (call s) !! f with Some x => negb (bye x) | None => true end
  | EHand _ => negb (deciding (waiter s))
  | EBridge _ ok => ok
  | _ => true
  end.

Fixpoint orderly_runb (es : list event) (s : sys) : bool :=
  match es with
  | [] => true
  | e :: es => orderlyb e s && match step srv (fun _ => true) e s with Some s' => orderly_runb es s' | None => true end
  end.

Lemma orderlyb_sound e s : orderlyb e s = true -> orderly e s.
Proof.
  destruct e; try done; cbn.
  - rewrite !andb_true_iff, orb_true_iff, !bool_decide_eq_true, forallb_forall. intros [[H1 H2] H3]. split; [done|]. split.
    + apply Forall_forall. intros t Ht%list_elem_of_In%H2. by destruct (pc t).
    + intros x Hx. rewrite Hx in H3. by apply negb_true_iff in H3.
  - by intros ?%negb_true_iff.
Qed.

Lemma orderly_runb_sound es : forall s, orderly_runb es s = true -> orderly_run srv (fun _ => true) es s.
Proof.
  induction es as [|e es IH]; intros s; [done|]. cbn [orderly_runb]. intros [H1%orderlyb_sound H2]%andb_true_iff. split; [done|].
  intros s' E. rewrite E in H2. by apply IH.
Qed.

Lemma a_transfer_orderly : orderly_run srv (fun _ => true) a_transfer an_app_call.
Proof. apply orderly_runb_sound. by vm_compute. Qed.

Lemma transferred_ready : ready transferred.
Proof. split; [vm_compute; by repeat constructor|vm_compute; by repeat constructor|left; by vm_compute]. Qed.

(** ** Witnesses *)

Lemma relayed_legs_share_a_codec_witness :
  exists kx ky, codec_of 1 (call transferred) = Some kx /\ codec_of 2 (call transferred) = Some ky /\ sameCodec kx ky = true.
Proof.
  apply (relayed_legs_share_a_codec srv (fun _ => true) false false opus (T "sip:alice@sip.example") (T "sip:carol@sip.example")
    a_transfer transferred 1 2 a_transfer_orderly transferred_runs).
  - vm_compute. left.
  - intros i t l. vm_compute. by destruct i as [|[|i]]; intros [= <-].
Defined.

Lemma nobody_is_left_behind_witness :
  exists es' s', Forall (fun e => (exists w, e = EWoken w) \/ e = EWait true false) es' /\ (length es' <= 14)%nat
  /\ run srv (fun _ => true) es' transferred = Some s' /\ waiter s' = WOver /\ relaying (call s') = false
  /\ forall l x, legs (call s') !! l = Some x -> up x = true -> done x = true \/ bye x = true.
Proof.
  exact (nobody_is_left_behind srv (fun _ => true) false false opus (T "sip:alice@sip.example") (T "sip:carol@sip.example")
    a_transfer transferred true false a_transfer_orderly transferred_runs transferred_ready).
Defined.

(** Alice holds, then transfers: the music of the transfer takes over. *)
Definition a_hold : list event := [EHeld 0 true; ERefer 0 to_bob; EHand 0].
Definition holding : sys := default an_app_call (plays_out a_hold an_app_call).

Lemma never_two_players_witness :
  length (players (hold (call holding))) = 1%nat
  /\ (silent (hold (call holding)) \/ exists n p, plays (call holding) n p).
Proof.
  split; [by vm_compute|].
  apply (never_two_players srv (fun _ => true) false false opus (T "sip:alice@sip.example") (T "sip:carol@sip.example") a_hold holding).
  vm_compute. reflexivity.
Defined.

(** ** Findings *)

(** The wait of a call one party of which has left: from the top, and past a
    handover that is over. *)
Definition to_the_end (k : why) : list event := [EWait true true; EWoken (Some k); EWait true true; EWait true true; EWait true true; EWait true true].

(** A party that holds the call and hangs up leaves the music playing: the end of
    the call stops the relay and not the player, which goes on writing to a leg
    that is gone. *)
Lemma music_outlives_the_call :
  exists s, plays_out ([EHeld 0 true; ELeaves 0] ++ to_the_end AEnded) an_app_call = Some s
    /\ waiter s = WOver /\ is_done 0 (call s) = true /\ is_done 1 (call s) = true /\ players (hold (call s)) = [(0%nat, mkPlayer Music 1 opus)].
Proof. eexists. split; [by vm_compute|]. by vm_compute. Qed.

(** After a transfer that was refused before it rang, the call stands and is shown
    as being handed over for the rest of its time, a later hold included. *)
Lemma refused_transfer_shows_handing :
  exists s, plays_out [EWait true true; ERefer 0 to_bob; EHand 0; ELook 0 easy; ERefused 0; EProceed 0 true false; EProceed 0 true false; EHeld 1 true] an_app_call = Some s
    /\ pc <$> head (transfers s) = Some TDone /\ a (call s) = 0%nat /\ b (call s) = Some 1%nat
    /\ heldBy (hold (call s)) = Some 1%nat /\ view (call s) = Handing.
Proof. eexists. split; [by vm_compute|]. by vm_compute. Qed.

(** Two REFERs of one party in flight: the second target takes the place of the
    first, which has answered, is in no call, and is never hung up on. *)
Lemma second_refer_orphans_the_first :
  exists s, plays_out ([ERefer 0 to_bob; ERefer 0 to_bob] ++ to_the_answer 0 opus ++ to_the_answer 1 opus
      ++ [EBridge 0 true; EBridge 1 true; EReleased 0 true; EReleased 1 true]
      ++ [EProceed 0 true false; EProceed 0 true false; EProceed 1 true false; EProceed 1 true false; ELeaves 1]
      ++ [EWait true true; EWoken (Some AEnded); EWait true true; EWait true true; EWait true true]
      ++ to_the_end AEnded) an_app_call = Some s
    /\ waiter s = WOver /\ idle s /\ b (call s) = Some 3%nat
    /\ legs (call s) !! 2%nat = Some (mkLeg false opus (T (Contact bob)) true false false false).
Proof. eexists. split; [by vm_compute|]. split; [by vm_compute|]. split; [vm_compute; by repeat constructor|]. by vm_compute. Qed.

(** The PBX accepts the transfer and then fails it, and the referrer hung up on
    the acceptance: the wait, released by the failure, ends the call before the
    transfer is taken over here, and the remaining party is hung up on. *)
Lemma failed_offload_loses_the_call :
  exists s, plays_out ([EWait true true; ERefer 0 to_pbx; EReferred 0 true; ELeaves 0; EWoken (Some AEnded); EWait true true]
      ++ [EOutcome 0 486; EWait true true; EWait true true; EWait true true]) a_pbx_call = Some s
    /\ pc <$> head (transfers s) = Some TDecided /\ waiter s = WStop /\ is_done 1 (call s) = true.
Proof. eexists. split; [by vm_compute|]. by vm_compute. Qed.

(** A transferred target's session is not closed when the call ends: its RTP
    ports are not given back. *)
Lemma target_session_is_never_closed :
  exists s, plays_out ([EWoken None; EWait true true; EWoken (Some AEnded); EWait true true; EWait true true; EWait true true] ++ to_the_end AEnded)
                      transferred = Some s
    /\ waiter s = WOver /\ closed <$> legs (call s) !! 0%nat = Some true /\ closed <$> legs (call s) !! 2%nat = Some false
    /\ is_done 2 (call s) = true.
Proof. eexists. split; [by vm_compute|]. by vm_compute. Qed.

(** Both parties hold, and one releases: the other still holds, and nothing plays. *)
Lemma double_hold_ends_in_silence :
  exists s, plays_out [EHeld 0 true; EHeld 1 true; EHeld 1 false] an_app_call = Some s
    /\ heldBy (hold (call s)) = None /\ players (hold (call s)) = [].
Proof. eexists. split; [by vm_compute|]. by vm_compute. Qed.

(** The referrer hangs up right after its REFER, before the transfer is marked as being
    handed over: the wait decides to end the call, the transfer goes on all the same, and
    its relay runs after the wait has stopped the relay of the call for good. *)
Lemma late_transfer_relays_for_nobody :
  exists s, plays_out ([EWait true true; ERefer 0 to_bob; ELeaves 0; EWoken (Some AEnded); EWait true true; EWait true true]
      ++ to_the_answer 0 opus ++ [EWait true false; EWait true true; EBridge 0 true]) an_app_call = Some s
    /\ waiter s = WOver /\ relaying (call s) = true /\ length (pumps (call s)) = 2%nat.
Proof. eexists. split; [by vm_compute|]. by vm_compute. Qed.
