(* ===== verification/Moh.v ===== *)
(** The clips played to a party that cannot hear the other side
    (src/server/internal/moh/moh.go): the file format, what is loaded when the program
    starts, and which clip a codec gets.

    A byte is a [Z] from 0 to 255; what is embedded under a name is an argument. *)

From S2P Require Import Prelude Text.
From S2P Require Base64 Transfer.
Open Scope Z_scope.

(** One payload of 20 ms each, in playing order. *)
Definition Frames : Type := list (list Z).

Inductive load_error := PastTheEnd (frame : nat) | NoFrames.

(** The loop; [i] bytes are read, [n] frames taken, and the fuel is the bytes left. *)
Fixpoint load_loop (fuel : nat) (b : list Z) (n : nat) : load_error + Frames :=
  match fuel, b with
  | S fuel, hi :: lo :: b =>
      let len := Z.to_nat (hi * 256 + lo) in
      if decide (length b < len)%nat then inl (PastTheEnd n) else
      match load_loop fuel (drop len b) (S n) with inl e => inl e | inr out => inr (take len b :: out) end
  | _, _ => inr []
  end.

Definition load (b : list Z) : load_error + Frames :=
  match load_loop (length b) b 0 with inl e => inl e | inr [] => inl NoFrames | inr out => inr out end.

Definition codecs : list string := ["pcmu"; "pcma"; "g722"; "opus"].
Definition clip_names : list string := ["music"; "ringback"; "busy"].

Definition key (clip codec : string) : string := to_string (T clip ++ T "-" ++ T codec).

(** The bodies of [init]'s loops; [None] is the panic. *)
Definition load_clip (files : string -> option (list Z)) (clips : option (gmap string Frames)) (k : string) : option (gmap string Frames) :=
  m ← clips; b ← files (to_string (T k ++ T ".bin")); match load b with inl _ => None | inr f => Some (<[k := f]> m) end.

Definition init (files : string -> option (list Z)) : option (gmap string Frames) :=
  foldl (load_clip files) (Some ∅) (clip ← clip_names; key clip <$> codecs).

Definition Clip (clips : gmap string Frames) (name codec : string) : option Frames := clips !! key name (to_lower codec).

(** Twenty milliseconds a frame. *)
Definition Seconds20ms (f : Frames) : Z := zlen f.

(** ** The format *)

(** What tools/gen_moh.py writes: each frame after its length. *)
Definition file_of (f : Frames) : list Z := concat (map (fun x => zlen x / 256 :: zlen x mod 256 :: x) f).

Lemma load_loop_file f : Forall (fun x => zlen x < 65536) f -> forall fuel n tl, (length tl < 2)%nat -> (length (file_of f) + length tl <= fuel)%nat ->
  load_loop fuel (file_of f ++ tl) n = inr f.
Proof.
  induction 1 as [|x f Hx _ IH]; intros fuel n tl Htl Hf.
  - cbn. destruct fuel as [|fuel]; [done|]. destruct tl as [|? [|? tl]]; [done..|cbn in Htl; lia].
  - unfold file_of in *. cbn [map concat] in *. rewrite <- app_assoc. cbn [app].
    destruct fuel as [|fuel]; [cbn in Hf; lia|]. cbn [load_loop]. cbv zeta.
    replace (zlen x / 256 * 256 + zlen x mod 256) with (zlen x) by (rewrite (Z.div_mod (zlen x) 256) at 1; lia).
    unfold zlen in *. rewrite Nat2Z.id. rewrite decide_False by (rewrite length_app; lia). rewrite drop_app_length, take_app_length.
    rewrite IH; [done|done|]. cbn in Hf. rewrite !length_app in *. lia.
Qed.

(** ** Every codec has every clip *)

Lemma load_nonempty b f : load b = inr f -> f <> [].
Proof. unfold load. destruct (load_loop _ _ _) as [|[|]]; [done..|]. by intros [= <-]. Qed.

Lemma load_loop_inv fuel : forall b n f, (length b <= fuel)%nat -> Forall Base64.is_byte b -> load_loop fuel b n = inr f ->
  Forall (fun x => zlen x < 65536) f /\ exists tl, (length tl < 2)%nat /\ b = file_of f ++ tl.
Proof.
  induction fuel as [|fuel IH]; intros b n f Hl Hb H.
  - destruct b; [|cbn in Hl; lia]. injection H as <-. split; [done|]. exists []. split; [cbn; lia|done].
  - destruct b as [|hi [|lo b]]; [injection H as <-; split; [done|]; eexists; (split; [|reflexivity]); cbn; lia..|].
    cbn [load_loop] in H. cbv zeta in H. case_decide as Hd; [done|]. apply Forall_cons in Hb as [Hhi Hb]. apply Forall_cons in Hb as [Hlo Hb].
    unfold Base64.is_byte in Hhi, Hlo. set (len := Z.to_nat (hi * 256 + lo)) in *.
    destruct (load_loop fuel (drop len b) (S n)) as [|out] eqn:E; [done|]. injection H as <-.
    destruct (IH (drop len b) (S n) out) as [Ho (tl&Ht&He)]; [rewrite length_drop; cbn in Hl; lia|by apply Forall_drop|done|].
    assert (zlen (take len b) = hi * 256 + lo) as Hz by (unfold zlen; rewrite length_take; lia).
    split; [constructor; [lia|done]|]. exists tl. split; [done|]. unfold file_of. cbn [map concat]. rewrite Hz, <- app_assoc. cbn [app].
    fold (file_of out). rewrite <- He, take_drop.
    f_equal; [|f_equal]; Z.to_euclidean_division_equations; lia.
Qed.

(** A file loads, as its frames, exactly when it is some frames written one after the
    other, with at most a byte over. *)
Lemma load_exactly b f : Forall Base64.is_byte b ->
  load b = inr f <-> f <> [] /\ Forall (fun x => zlen x < 65536) f /\ exists tl, (length tl < 2)%nat /\ b = file_of f ++ tl.
Proof.
  intros Hb. split.
  - intros H. split; [by eapply load_nonempty|]. unfold load in H. destruct (load_loop _ _ _) as [|out] eqn:E; [done|].
    assert (out = f) as -> by (destruct out; [done|]; by injection H). by apply (load_loop_inv (length b) b 0 f).
  - intros (Hn&Hf&tl&Ht&->). unfold load. rewrite load_loop_file by (done || rewrite length_app; lia). by destruct f.
Qed.

Lemma T_to_lower s : T (to_lower s) = ToLower (T s).
Proof. induction s as [|c s IH]; [done|]. change (lower_ascii c :: T (to_lower s) = lower_ascii c :: ToLower (T s)). by rewrite IH. Qed.

Lemma T_inj s t : T s = T t -> s = t.
Proof. intros H. by rewrite <- (to_string_T s), H, to_string_T. Qed.

Lemma key_inj name name' c c' : name ∈ clip_names -> name' ∈ clip_names -> key name c = key name' c' -> name = name' /\ c = c'.
Proof.
  assert (forall n, n ∈ clip_names -> "-"%char ∉ T n) as Hd.
  { intros n Hn. unfold clip_names in Hn. rewrite !elem_of_cons in Hn.
    destruct Hn as [->|[->|[->|Hn]]]; [..|by apply elem_of_nil in Hn]; by apply (bool_decide_unpack _). }
  intros Hn Hn' He. unfold key in He. apply (f_equal T) in He. rewrite !T_to_string in He.
  pose proof (Cut_app (T name) "-"%char (T c) (Hd _ Hn)) as H1. pose proof (Cut_app (T name') "-"%char (T c') (Hd _ Hn')) as H2.
  cbn [T String.list_ascii_of_string app] in He, H1, H2. fold (T name) in *. fold (T name') in *.
  change (T name ++ "-"%char :: T c = T name' ++ "-"%char :: T c') in He. rewrite He, H2 in H1. injection H1 as Ha Hb.
  split; by apply T_inj.
Qed.

(** Once the program runs, a leg has a clip, of a frame at least, exactly where
    Transfer takes it to have one. *)
Lemma every_codec_has_its_clips files clips name codec : init files = Some clips -> name ∈ clip_names ->
  (forall f, Clip clips name codec = Some f -> f <> []) /\ (is_Some (Clip clips name codec) <-> Transfer.Clip codec = true).
Proof.
  unfold init. set (keys := clip ← clip_names; key clip <$> codecs).
  assert (forall ks m m', foldl (load_clip files) (Some m) ks = Some m' -> map_Forall (fun _ f => f <> []) m ->
    map_Forall (fun _ f => f <> []) m' /\ dom m' = dom m ∪ list_to_set ks) as H.
  { induction ks as [|k ks IH]; intros m m'; cbn [foldl]; [intros [= <-] Hm; split; [done|set_solver]|]. intros Hc Hm.
    destruct (load_clip files (Some m) k) as [m1|] eqn:E; [|exfalso; revert Hc; clear; induction ks; done].
    unfold load_clip in E. cbn [mbind option_bind] in E. destruct (files _) as [b|]; [|done]. cbn [mbind option_bind] in E.
    destruct (load b) as [|f] eqn:El; [done|]. injection E as <-.
    apply IH in Hc as [H1 H2]; [|apply map_Forall_insert_2; [by eapply load_nonempty|done]]. split; [done|].
    rewrite H2, dom_insert_L. cbn [list_to_set]. set_solver. }
  intros Hi Hname. apply H in Hi as [Hne Hdom]; [|by apply map_Forall_empty]. rewrite dom_empty_L, union_empty_l_L in Hdom. split.
  - intros f Hf. by apply (Hne (key name (to_lower codec))).
  - unfold Clip, Transfer.Clip. rewrite <- elem_of_dom, Hdom, elem_of_list_to_set, bool_decide_eq_true. unfold keys.
    rewrite list_elem_of_bind, <- T_to_lower. change (?x ∈ [T "pcmu"; T "pcma"; T "g722"; T "opus"]) with (x ∈ T <$> codecs). rewrite list_elem_of_fmap. split.
    + intros (n&Hk&Hn). apply list_elem_of_fmap in Hk as (c&Hk&Hc). apply key_inj in Hk as [_ ->]; eauto.
    + intros (c&Hc&Hin). apply T_inj in Hc as ->. exists name. split; [|done]. apply list_elem_of_fmap. eauto.
Qed.
