(* ===== verification/Relay.v ===== *)
(** The goroutines that write one leg's stream (src/server/internal/b2bua/b2bua.go:
    pump.run and playHold; src/server/internal/b2bua/transfer.go: startLocked,
    playLocked and stopHoldLocked, as far as they start and cancel them), over the pump
    of Pump.

    - A leg has one writer and the pumps that have fed it, the last one current.  A pump
      has its reading goroutine and the players started on it; every load and store of
      its flag, every pass of its lock and every look at a context is a step, and the
      steps of different goroutines come in any order.
    - Arguments of the steps: what a read gave, whether the transport took a packet, the
      clock and the random numbers.  The byte-copy path, the counters of the log lines
      and the pacing by the ticker are left out. *)

From S2P Require Import Prelude Pump.
Open Scope Z_scope.

(** ** A pump's goroutines *)

Inductive read_error := Timeout | SourceClosed | OtherError.
Inductive why := Cancelled | DestinationClosed | SourceEnded | Broken.

(** The reader of [run]: blocked in its read; a packet in hand, past the look at the
    flag, with the error that came beside it; ended. *)
Inductive at_reader := Reading | InHand (payload : list Z) (h : header) (e : option read_error) | Ended (w : why).

(** A player: asked for, in its loop with the marker and the count of the next frame,
    gone. *)
Inductive at_player := Asked | Playing (marker : bool) (n : nat) | Left_.

Record player := mkPlayer { frames : list (list Z); pc : at_player; stopped : bool }.

Record relay := mkRelay {
  pm : pump; localOnly : bool; reader : at_reader; cancelled : bool; players : list player;
  n_read : Z; n_written : Z; n_errs : Z }.

Definition new_relay (p : pump) : relay := mkRelay p false Reading false [] 0 0 0.

Record leg := mkLeg { wr : writer; relays : list relay }.

Definition set_reader (x : at_reader) (r : relay) : relay := mkRelay (pm r) (localOnly r) x (cancelled r) (players r) (n_read r) (n_written r) (n_errs r).
Definition set_flag (x : bool) (r : relay) : relay := mkRelay (pm r) x (reader r) (cancelled r) (players r) (n_read r) (n_written r) (n_errs r).
Definition set_players (x : list player) (r : relay) : relay := mkRelay (pm r) (localOnly r) (reader r) (cancelled r) x (n_read r) (n_written r) (n_errs r).
Definition set_pump (x : pump) (r : relay) : relay := mkRelay x (localOnly r) (reader r) (cancelled r) (players r) (n_read r) (n_written r) (n_errs r).
Definition count (a b c : Z) (r : relay) : relay := mkRelay (pm r) (localOnly r) (reader r) (cancelled r) (players r) (n_read r + a) (n_written r + b) (n_errs r + c).
Definition cancel (r : relay) : relay := mkRelay (pm r) (localOnly r) (reader r) true (players r) (n_read r) (n_written r) (n_errs r).

(** What a read's error does, once its packet is dealt with. *)
Definition after_error (e : option read_error) : at_reader :=
  match e with None | Some Timeout => Reading | Some SourceClosed => Ended SourceEnded | Some OtherError => Ended Broken end.

Inductive outcome := Sent | Closed | Failed.

Definition is_sent (o : outcome) : bool := match o with Sent => true | _ => false end.

Section relaying.
Context (c : Codec).

(** The read of [run], up to the look at the flag. *)
Definition read (got : option (list Z * header)) (e : option read_error) (r : relay) : relay :=
  if cancelled r then set_reader (Ended Cancelled) r else
  match got with
  | None => set_reader (after_error e) r
  | Some (payload, h) => let r := count 1 0 0 r in if localOnly r then r else set_reader (InHand payload h e) r
  end.

(** The forwarding of the packet in hand. *)
Definition pass_on (o : outcome) (now random : Z) (payload : list Z) (h : header) (e : option read_error) (r : relay) (w : writer) : relay * writer :=
  let '(p, w, _) := forward c (is_sent o) payload h now random (pm r) w in
  let r := set_pump p r in
  (match o with
   | Sent => set_reader (after_error e) (count 0 1 0 r)
   | Failed => set_reader (after_error e) (count 0 0 1 r)
   | Closed => set_reader (Ended DestinationClosed) r
   end, w).

(** [stopHoldLocked]: the one player that is not cancelled yet is. *)
Definition stop_players (r : relay) : relay := set_players (map (fun x => mkPlayer (frames x) (pc x) true) (players r)) r.

(** [playLocked], with the clip there. *)
Definition play (f : list (list Z)) (r : relay) : relay := let r := stop_players r in set_players (players r ++ [mkPlayer f Asked false]) r.

Inductive happening :=
  | Read (k : nat) (got : option (list Z * header)) (e : option read_error)
  | PassOn (k : nat) (o : outcome) (now random : Z)
  | Play (f : list (list Z)) | StopPlaying
  | Begin (k i : nat) | Frame (k i : nat) (ok : bool) (random : Z) | Leave (k i : nat)
  | Replace | HangUp.

(** The change of pump [k]. *)
Definition at_relay (k : nat) (f : relay -> option (relay * writer)) (s : leg) : option leg :=
  r ← relays s !! k; '(r', w) ← f r; Some (mkLeg w (<[k := r']> (relays s))).

Definition at_last (s : leg) : nat := pred (length (relays s)).

(** [startLocked] on the leg: the current pump and what it plays are cancelled, and the
    new one takes its numbers. *)
Definition replace (s : leg) : option leg :=
  r ← relays s !! at_last s;
  Some (mkLeg (wr s) (<[at_last s := stop_players (cancel r)]> (relays s) ++ [new_relay (inheritTimeline true (pm r) new_pump)])).

Definition take_step (x : happening) (s : leg) : option leg :=
  match x with
  | Read k got e => at_relay k (fun r => match reader r with Reading => Some (read got e r, wr s) | _ => None end) s
  | PassOn k o now random => at_relay k (fun r =>
      match reader r with
      | InHand payload h e => Some (pass_on o now random payload h e r (wr s))
      | _ => None
      end) s
  | Play f => at_relay (at_last s) (fun r => match f with [] => None | _ => Some (play f r, wr s) end) s
  | StopPlaying => at_relay (at_last s) (fun r => Some (stop_players r, wr s)) s
  | Begin k i => at_relay k (fun r =>
      x ← players r !! i;
      match pc x with
      | Asked => Some (set_flag true (set_players (<[i := mkPlayer (frames x) (Playing true 0) (stopped x)]> (players r)) r), wr s)
      | _ => None
      end) s
  | Frame k i ok random => at_relay k (fun r =>
      x ← players r !! i;
      match pc x with
      | Playing marker n =>
          f ← frames x !! (n `mod` length (frames x))%nat;
          let '(p, w, _) := writeLocal c ok f marker random (pm r) (wr s) in
          Some (set_pump p (set_players (<[i := mkPlayer (frames x) (Playing false (S n)) (stopped x)]> (players r)) r), w)
      | _ => None
      end) s
  | Leave k i => at_relay k (fun r =>
      x ← players r !! i;
      match pc x, stopped x with
      | Playing _ _, true => Some (set_flag false (set_players (<[i := mkPlayer (frames x) Left_ true]> (players r)) r), wr s)
      | _, _ => None
      end) s
  | Replace => replace s
  | HangUp => at_relay (at_last s) (fun r => Some (stop_players (cancel r), wr s)) s
  end.

Fixpoint happens (xs : list happening) (s : leg) : option leg :=
  match xs with [] => Some s | x :: xs => s' ← take_step x s; happens xs s' end.

Definition begun (w : writer) : leg := mkLeg w [new_relay new_pump].
End relaying.

(** ** What reaches the far end

    What the step hands to the writer, as an event of Pump's sequential run. *)
Definition in_hand (r : relay) : bool := match reader r with InHand _ _ _ => true | _ => false end.
Definition gone (x : player) : bool := match pc x with Left_ => true | _ => false end.
Definition playing (x : player) : bool := match pc x with Playing _ _ => true | _ => false end.

Definition write_of (x : happening) (s : leg) : list event :=
  match x with
  | PassOn k o now random =>
      match reader <$> relays s !! k with Some (InHand payload h _) => [EForward (is_sent o) payload h now random] | _ => [] end
  | Frame k i ok random =>
      match relays s !! k ≫= fun r => players r !! i with
      | Some y => match pc y with
                  | Playing marker n => match frames y !! (n `mod` length (frames y))%nat with Some f => [ELocal ok f marker random] | None => [] end
                  | _ => []
                  end
      | None => []
      end
  | Replace => [EReplace]
  | _ => []
  end.

Fixpoint writes (c : Codec) (xs : list happening) (s : leg) : list event :=
  match xs with
  | [] => []
  | x :: xs => match take_step c x s with Some s' => write_of x s ++ writes c xs s' | None => [] end
  end.

(** The goroutines that were cancelled return in time: a player that was cancelled writes
    no further frame and is gone before another of its pump begins, and a pump has no
    packet in hand, read and not yet written, when it is replaced.  Nothing is asked of
    the others. *)
Definition in_time (x : happening) (s : leg) : Prop :=
  match x with
  | Frame k i _ _ => forall r y, relays s !! k = Some r -> players r !! i = Some y -> stopped y = false
  | Begin k i => forall r j y, relays s !! k = Some r -> players r !! j = Some y -> j <> i -> stopped y = true -> gone y = true
  | Replace => forall r, relays s !! at_last s = Some r -> in_hand r = false
  | _ => True
  end.

Fixpoint all_in_time (c : Codec) (xs : list happening) (s : leg) : Prop :=
  match xs with [] => True | x :: xs => in_time x s /\ forall s', take_step c x s = Some s' -> all_in_time c xs s' end.

(** The players of a pump: the flag is up exactly while one plays, only the last asked
    for is not cancelled, and one that plays is the only one. *)
Record alone (r : relay) : Prop := {
  al_flag : localOnly r = existsb playing (players r);
  al_last : forall i x, players r !! i = Some x -> stopped x = false -> S i = length (players r);
  al_one : forall i x j y, players r !! i = Some x -> playing x = true -> players r !! j = Some y -> j <> i ->
             playing y = false /\ (stopped x = false -> gone y = true);
}.

Definition silenced (r : relay) : Prop := cancelled r = true /\ in_hand r = false /\ forall i x, players r !! i = Some x -> stopped x = true.

Record good (s : leg) : Prop := {
  good_some : relays s <> [];
  good_old : forall k r, relays s !! k = Some r -> k <> at_last s -> silenced r;
  good_alone : forall k r, relays s !! k = Some r -> alone r;
}.

Lemma at_last_lookup s : relays s <> [] -> exists r, relays s !! at_last s = Some r.
Proof. intros H. apply lookup_lt_is_Some. unfold at_last. destruct (relays s); [done|]. cbn. lia. Qed.

(** What a step of one pump has to give for the leg to stay good and its wire to follow
    the sequential run. *)
Lemma good_at_relay c k f d s s' : good s -> at_relay k f s = Some s' ->
  (forall r r' w, relays s !! k = Some r -> f r = Some (r', w) ->
     (alone r -> alone r') /\ (k <> at_last s -> silenced r -> silenced r' /\ w = wr s /\ d = [])
     /\ (k = at_last s -> (pm r', w) = Pump.run c d (pm r, wr s))) ->
  good s' /\ forall r, relays s !! at_last s = Some r ->
    exists r', relays s' !! at_last s' = Some r' /\ (pm r', wr s') = Pump.run c d (pm r, wr s).
Proof.
  intros [Gn Go Ga] Hs Hf. unfold at_relay in Hs. destruct (relays s !! k) as [r|] eqn:Er; [|done]. cbn in Hs.
  destruct (f r) as [[r' w]|] eqn:Ef; [|done]. cbn in Hs. injection Hs as <-. destruct (Hf r r' w eq_refl Ef) as (Hal&Hold&Hlast).
  assert (length (<[k := r']> (relays s)) = length (relays s)) as Hlen by apply length_insert.
  assert (at_last (mkLeg w (<[k := r']> (relays s))) = at_last s) as Hat by (unfold at_last; cbn [relays]; by rewrite Hlen).
  split; [constructor|]; cbn [relays wr]; rewrite ?Hat.
  - intros H. apply (f_equal length) in H. rewrite Hlen in H. by destruct (relays s).
  - intros k' r1 [(<-&<-&_)|[Hk H]]%list_lookup_insert_Some Hne; [|by eapply Go]. apply Hold; [done|]. by eapply Go.
  - intros k' r1 [(<-&<-&_)|[Hk H]]%list_lookup_insert_Some; [|by eapply Ga]. apply Hal. by eapply Ga.
  - intros r1 H1. destruct (decide (k = at_last s)) as [->|Hne].
    + exists r'. rewrite list_lookup_insert_eq by (by eapply lookup_lt_Some). split; [done|]. rewrite H1 in Er. injection Er as ->. by apply Hlast.
    + destruct (Hold Hne (Go k r Er Hne)) as (_&->&->). exists r1. by rewrite list_lookup_insert_ne.
Qed.

(** Players that play, are gone and are cancelled as before, or are cancelled now. *)
Lemma alone_same r r' : localOnly r' = localOnly r -> length (players r') = length (players r) ->
  (forall i x', players r' !! i = Some x' -> exists x, players r !! i = Some x
     /\ playing x' = playing x /\ gone x' = gone x /\ (stopped x' = stopped x \/ stopped x' = true)) ->
  alone r -> alone r'.
Proof.
  intros Hl Hlen Hp [H1 H2 H3]. assert (playing <$> players r' = playing <$> players r) as Hm.
  { apply list_eq_same_length with (length (players r)); rewrite ?length_fmap; [done|done|]. intros i b b' _ Hb Hb'.
    rewrite list_lookup_fmap in Hb, Hb'. destruct (players r' !! i) as [x'|] eqn:E; [|done]. destruct (Hp i x' E) as (x&Hx&Hpl&_).
    rewrite Hx in Hb'. injection Hb as <-. injection Hb' as <-. done. }
  assert (forall l, existsb playing l = existsb id (playing <$> l)) as He by (induction l as [|y l IH]; cbn; [done|by rewrite IH]).
  constructor.
  - by rewrite Hl, H1, He, <- Hm, <- He.
  - intros i x' Hx' Hs. destruct (Hp i x' Hx') as (x&Hx&_&_&[Hst|Hst]); [|congruence]. rewrite Hlen. eapply H2; [exact Hx|congruence].
  - intros i x' j y' Hx' Hpl Hy' Hj. destruct (Hp i x' Hx') as (x&Hx&Px&_&Sx). destruct (Hp j y' Hy') as (y&Hy&Py&Gy&_).
    destruct (H3 i x j y Hx ltac:(congruence) Hy Hj) as [Hn Hg]. split; [congruence|]. intros Hs. rewrite Gy. apply Hg.
    destruct Sx as [Sx|Sx]; congruence.
Qed.

Lemma stopped_lookup l i x : map (fun x => mkPlayer (frames x) (pc x) true) l !! i = Some x ->
  stopped x = true /\ exists y, l !! i = Some y /\ pc x = pc y.
Proof.
  intros H. change (((fun x => mkPlayer (frames x) (pc x) true) <$> l) !! i = Some x) in H. rewrite list_lookup_fmap in H.
  destruct (l !! i) as [y|]; [|done]. injection H as <-. eauto.
Qed.

Lemma alone_stop r r' : localOnly r' = localOnly r -> players r' = players (stop_players r) -> alone r -> alone r'.
Proof.
  intros Hl Hp. apply alone_same; [done|by rewrite Hp; cbn; rewrite length_map|]. intros i x' Hx. rewrite Hp in Hx. apply stopped_lookup in Hx as (Hs&y&Hy&Ep).
  exists y. unfold playing, gone. rewrite Ep. auto.
Qed.

Lemma alone_frame r r' : localOnly r' = localOnly r -> players r' = players r -> alone r -> alone r'.
Proof. intros Hl Hp. apply alone_same; [done|by rewrite Hp|]. intros i x Hx. rewrite Hp in Hx. eauto 6. Qed.

Lemma alone_next r r' i x x' : localOnly r' = localOnly r -> players r' = <[i := x']> (players r) -> players r !! i = Some x ->
  playing x' = playing x -> gone x' = gone x -> stopped x' = stopped x -> alone r -> alone r'.
Proof.
  intros Hl Hp Hx P G S. apply alone_same; [done|by rewrite Hp, length_insert|]. intros j y Hy. rewrite Hp in Hy.
  apply list_lookup_insert_Some in Hy as [(<-&<-&_)|[_ Hy]]; eauto 7.
Qed.

Lemma existsb_lookup {A} (f : A -> bool) l i x : l !! i = Some x -> f x = true -> existsb f l = true.
Proof. intros Hx Hf. apply existsb_exists. exists x. split; [|done]. apply list_elem_of_In. by eapply list_elem_of_lookup_2. Qed.

Lemma alone_play f r : alone r -> alone (play f r).
Proof.
  intros [H1 H2 H3]. unfold play. set (n := mkPlayer f Asked false). constructor; cbn [players set_players stop_players localOnly].
  - rewrite existsb_app, H1. cbn. rewrite orb_false_r. clear. induction (players r) as [|y l IH]; [done|]. cbn. rewrite <- IH. done.
  - intros i x Hx Hs. rewrite length_app. cbn. apply lookup_app_Some in Hx as [Hx|[Hle Hx]].
    + apply stopped_lookup in Hx as [Ht _]. congruence.
    + apply list_lookup_singleton_Some in Hx as [Hx _]. lia.
  - intros i x j y Hx Hp Hy Hj. apply lookup_app_Some in Hx as [Hx|[_ Hx]];
      [|apply list_lookup_singleton_Some in Hx as [_ <-]; done].
    apply stopped_lookup in Hx as (Hs&x0&Hx&Ex). split; [|congruence].
    apply lookup_app_Some in Hy as [Hy|[_ Hy]]; [|by apply list_lookup_singleton_Some in Hy as [_ <-]].
    apply stopped_lookup in Hy as (_&y0&Hy&Ey). destruct (H3 i x0 j y0 Hx) as [Hn _]; [|done|done|].
    + unfold playing in *. by rewrite <- Ex.
    + unfold playing in *. by rewrite Ey.
Qed.

Lemma alone_begin r i x : alone r -> players r !! i = Some x -> pc x = Asked ->
  (forall j y, players r !! j = Some y -> j <> i -> stopped y = true -> gone y = true) ->
  alone (set_flag true (set_players (<[i := mkPlayer (frames x) (Playing true 0) (stopped x)]> (players r)) r)).
Proof.
  intros [H1 H2 H3] Hx Ea Hg. set (x' := mkPlayer _ _ _). assert (gone x = false) as Gx by (unfold gone; by rewrite Ea).
  assert (forall j y, players r !! j = Some y -> j <> i -> playing y = false) as Hn.
  { intros j y Hy Hj. destruct (playing y) eqn:Ep; [|done]. destruct (H3 j y i x Hy Ep Hx ltac:(done)) as [_ Hs].
    destruct (stopped y) eqn:Es; [|by rewrite (Hs eq_refl) in Gx]. specialize (Hg j y Hy Hj Es). unfold gone, playing in *. by destruct (pc y). }
  assert (<[i := x']> (players r) !! i = Some x') as Hi by (apply list_lookup_insert_eq; by eapply lookup_lt_Some).
  constructor; cbn [players set_players set_flag localOnly].
  - symmetry. by eapply existsb_lookup.
  - intros j y Hy Hs. rewrite length_insert. apply list_lookup_insert_Some in Hy as [(<-&<-&_)|[_ Hy]]; by eapply H2.
  - intros j y k z Hy Hp Hz Hk. apply list_lookup_insert_Some in Hy as [(<-&<-&_)|[Hj Hy]]; [|by rewrite (Hn j y Hy) in Hp].
    rewrite list_lookup_insert_ne in Hz by done. split; [by eapply Hn|]. cbn. intros Hs. destruct (stopped z) eqn:Ez; [by eapply Hg|].
    pose proof (H2 i x Hx Hs). pose proof (H2 k z Hz Ez). lia.
Qed.

Lemma alone_leave r i x : alone r -> players r !! i = Some x -> playing x = true ->
  alone (set_flag false (set_players (<[i := mkPlayer (frames x) Left_ true]> (players r)) r)).
Proof.
  intros [H1 H2 H3] Hx Hp.
  assert (forall j y, <[i := mkPlayer (frames x) Left_ true]> (players r) !! j = Some y -> playing y = false) as Hn.
  { intros j y Hy. apply list_lookup_insert_Some in Hy as [(_&<-&_)|[Hj Hy]]; [done|]. by apply (H3 i x j y Hx Hp Hy). }
  constructor; cbn [players set_players set_flag localOnly].
  - symmetry. apply not_true_is_false. intros (y&Hy&Py)%existsb_exists. apply list_elem_of_In, list_elem_of_lookup in Hy as [j Hj].
    by rewrite (Hn j y Hj) in Py.
  - intros j y Hy Hs. rewrite length_insert. apply list_lookup_insert_Some in Hy as [(_&<-&_)|[_ Hy]]; [done|by eapply H2].
  - intros j y k z Hy Py. by rewrite (Hn j y Hy) in Py.
Qed.

Lemma silenced_stop r r' : in_hand r' = in_hand r -> cancelled r' = true -> players r' = players (stop_players r) -> silenced r -> silenced r'.
Proof. intros Hh Hc Hp (_&H2&_). split; [done|]. split; [congruence|]. intros i x Hx. rewrite Hp in Hx. by apply stopped_lookup in Hx as [Hs _]. Qed.

Lemma silenced_at r r' i x x' : in_hand r' = in_hand r -> cancelled r' = cancelled r -> players r' = <[i := x']> (players r) ->
  players r !! i = Some x -> (stopped x = true -> stopped x' = true) -> silenced r -> silenced r'.
Proof.
  intros Hh Hc Hp Hx Hs (H1&H2&H3). split; [congruence|]. split; [congruence|]. intros j y Hy. rewrite Hp in Hy.
  apply list_lookup_insert_Some in Hy as [(<-&<-&_)|[_ Hy]]; eauto.
Qed.

Lemma read_frame got e r : pm (read got e r) = pm r /\ localOnly (read got e r) = localOnly r /\ players (read got e r) = players r
  /\ (silenced r -> silenced (read got e r)).
Proof.
  unfold read. destruct (cancelled r) eqn:Ec.
  - do 3 (split; [done|]). intros (_&_&H). split; [done|]. by split.
  - assert (~ silenced r) as Hn by (intros [H _]; congruence). destruct got as [[payload h]|]; [|by destruct e as [[]|]].
    cbv zeta. cbn [localOnly count]. destruct (localOnly r) eqn:E; cbn; rewrite ?E; done.
Qed.

Lemma pass_on_step c o now random payload h e r w r' w' : pass_on c o now random payload h e r w = (r', w') ->
  (pm r', w') = Pump.run c [EForward (is_sent o) payload h now random] (pm r, w) /\ localOnly r' = localOnly r /\ players r' = players r.
Proof. unfold pass_on, Pump.run. cbn [foldl Pump.step]. destruct (forward _ _ _ _ _ _ _ _) as [[p w1] b]. destruct o; intros [= <- <-]; done. Qed.

Lemma good_replace c s s' : good s -> in_time Replace s -> replace s = Some s' ->
  good s' /\ forall r, relays s !! at_last s = Some r ->
    exists r', relays s' !! at_last s' = Some r' /\ (pm r', wr s') = Pump.run c [EReplace] (pm r, wr s).
Proof.
  intros [Gn Go Ga] Hin. cbn [in_time] in Hin. unfold replace. destruct (relays s !! at_last s) as [r|] eqn:Er; [|done]. cbn. intros [= <-].
  set (n := new_relay _). set (l := <[at_last s := _]> (relays s)). assert (length l = length (relays s)) as Hl by apply length_insert.
  assert (at_last (mkLeg (wr s) (l ++ [n])) = length (relays s)) as Hat by (unfold at_last; cbn [relays]; rewrite length_app, Hl; cbn; lia).
  split; [constructor|]; cbn [relays wr]; rewrite ?Hat.
  - by destruct l.
  - intros k r1 H Hk. apply lookup_app_Some in H as [H|[Hle H]]; [|apply list_lookup_singleton_Some in H as [H _]; lia].
    apply list_lookup_insert_Some in H as [(_&<-&_)|[Hne H]]; [|by eapply Go]. split; [done|]. split; [exact (Hin r eq_refl)|].
    intros i x Hx. by apply stopped_lookup in Hx as [Hs _].
  - intros k r1 H. apply lookup_app_Some in H as [H|[Hle H]].
    + apply list_lookup_insert_Some in H as [(_&<-&_)|[Hne H]]; [|by eapply Ga]. apply (alone_stop r); [done|done|by eapply Ga].
    + apply list_lookup_singleton_Some in H as [_ <-]. constructor; [done|..]; intros i x; by destruct i.
  - intros r1 [= <-]. exists n. rewrite lookup_app_r by lia. by rewrite Hl, Nat.sub_diag.
Qed.

Lemma good_step c x s s' : good s -> in_time x s -> take_step c x s = Some s' ->
  good s' /\ forall r, relays s !! at_last s = Some r ->
    exists r', relays s' !! at_last s' = Some r' /\ (pm r', wr s') = Pump.run c (write_of x s) (pm r, wr s).
Proof.
  intros G Hw Hs. destruct x as [k got e|k o now random|f| |k i|k i ok random|k i| |]; cbn [take_step] in Hs; cbn [in_time] in Hw;
    try (by eapply good_replace);
    (eapply good_at_relay; [exact G|exact Hs|]); intros r r' w Er Ef; clear Hs; cbn beta in Ef; cbn [write_of]; rewrite ?Er; cbn [fmap option_fmap option_map mbind option_bind].
  - destruct (reader r); [|done..]. injection Ef as <- <-. destruct (read_frame got e r) as (Hp&Hl&Hh&Hsil).
    split; [by apply alone_frame|]. split; [auto|]. intros _. by rewrite Hp.
  - destruct (reader r) as [|payload h e|] eqn:Erd; [done| |done]. injection Ef as Ef. apply pass_on_step in Ef as (Hp&Hl&Hh).
    split; [by apply alone_frame|]. split; [|done]. intros _ (_&H&_). unfold in_hand in H. by rewrite Erd in H.
  - destruct f as [|f0 f]; [done|]. injection Ef as <- <-. split; [apply alone_play|]. by split.
  - injection Ef as <- <-. split; [by apply alone_stop|]. by split.
  - destruct (players r !! i) as [x|] eqn:Ex; [|done]. cbn [mbind option_bind] in Ef. destruct (pc x) eqn:Ep; [|done..]. injection Ef as <- <-.
    split; [intros Ha; apply alone_begin; [done|done|done|by eauto]|]. split; [|done]. intros _ Hr. split; [|done].
    by eapply (silenced_at r); [| | |exact Ex| |exact Hr].
  - destruct (players r !! i) as [x|] eqn:Ex; [|done]. cbn [mbind option_bind] in Ef |- *. destruct (pc x) as [|m n|] eqn:Ep; [done| |done].
    destruct (frames x !! _) as [f|] eqn:Ey; [|done]. cbn [mbind option_bind] in Ef. destruct (writeLocal _ _ _ _ _ _ _) as [[p w1] b] eqn:E. injection Ef as <- <-.
    split; [apply (alone_next r _ i x (mkPlayer (frames x) (Playing false (S n)) (stopped x))); [done|done|done|unfold playing; by rewrite Ep|unfold gone; by rewrite Ep|done]|].
    split; [intros _ (_&_&Hr); specialize (Hr i x Ex); specialize (Hw r x Er Ex); congruence|]. intros _. unfold Pump.run. cbn [foldl Pump.step]. by rewrite E.
  - destruct (players r !! i) as [x|] eqn:Ex; [|done]. cbn [mbind option_bind] in Ef. destruct (pc x) as [|m n|] eqn:Ep; [done| |done].
    destruct (stopped x); [|done]. injection Ef as <- <-. split; [intros Ha; apply alone_leave; [done|done|unfold playing; by rewrite Ep]|].
    split; [|done]. intros _ Hr. split; [|done]. by eapply (silenced_at r); [| | |exact Ex| |exact Hr].
  - injection Ef as <- <-. split; [by apply (alone_stop r)|]. by split.
Qed.

Lemma good_begun w : good (begun w).
Proof.
  assert (forall k r, relays (begun w) !! k = Some r -> k = 0%nat /\ r = new_relay new_pump) as H by (intros [|[]] r Hk; [by injection Hk as <-|done..]).
  constructor.
  - done.
  - intros k r Hk Hne. by apply H in Hk as [-> _].
  - intros k r Hk. apply H in Hk as [_ ->]. constructor; [done|..]; intros i x; by destruct i.
Qed.

Lemma good_happens c xs : forall s s', good s -> all_in_time c xs s -> happens c xs s = Some s' ->
  good s' /\ forall r, relays s !! at_last s = Some r ->
    exists r', relays s' !! at_last s' = Some r' /\ (pm r', wr s') = Pump.run c (writes c xs s) (pm r, wr s).
Proof.
  induction xs as [|x xs IH]; intros s s' G Hw Hs; [injection Hs as <-; eauto|]. cbn in Hw, Hs. destruct Hw as [Hx Hw].
  destruct (take_step c x s) as [s1|] eqn:E; [|done]. cbn in Hs. destruct (good_step c x s s1 G Hx E) as [G1 H1].
  destruct (IH s1 s' G1 (Hw s1 eq_refl) Hs) as [G' H']. split; [done|]. intros r Hr. destruct (H1 r Hr) as (r1&Hr1&E1).
  destruct (H' r1 Hr1) as (r'&Hr'&E'). exists r'. split; [done|]. rewrite E'. cbn [writes]. rewrite E. unfold Pump.run. rewrite foldl_app.
  unfold Pump.run in E1. by rewrite <- E1.
Qed.

(** The step writes nothing, or it is a write of the current pump: its reader's, or a
    frame of the player asked for last. *)
Definition from_current (x : happening) (s s' : leg) : Prop :=
  match x with
  | PassOn k _ _ _ => k = at_last s
  | Frame k i _ _ => k = at_last s /\ exists r, relays s !! k = Some r /\ S i = length (players r)
  | _ => wr s' = wr s
  end.

Lemma good_source c x s s' : good s -> in_time x s -> take_step c x s = Some s' -> from_current x s s'.
Proof.
  intros [_ Go Ga] Hw Hs. destruct x as [k got e|k o now random|f| |k i|k i ok random|k i| |]; cbn [take_step in_time from_current] in *;
    unfold at_relay, replace in Hs; destruct (relays s !! _) as [r|] eqn:Er; try done; cbn [mbind option_bind] in Hs.
  - destruct (reader r); [by injection Hs as <-|done..].
  - destruct (decide (k = at_last s)) as [|Hne]; [done|]. destruct (Go k r Er Hne) as (_&Hh&_). unfold in_hand in Hh. by destruct (reader r).
  - destruct f; [done|]. by injection Hs as <-.
  - by injection Hs as <-.
  - destruct (players r !! i) as [y|]; [|done]. cbn in Hs. destruct (pc y); [|done..]. by injection Hs as <-.
  - destruct (players r !! i) as [y|] eqn:Ey; [|done]. pose proof (Hw r y eq_refl Ey) as Hy. split.
    + destruct (decide (k = at_last s)) as [|Hne]; [done|]. destruct (Go k r Er Hne) as (_&_&H). rewrite (H i y Ey) in Hy. done.
    + exists r. split; [done|]. by apply (al_last _ (Ga k r Er) i y).
  - destruct (players r !! i) as [y|]; [|done]. cbn in Hs. destruct (pc y); [done| |done]. destruct (stopped y); [|done]. by injection Hs as <-.
  - by injection Hs as <-.
  - by injection Hs as <-.
Qed.


(** ** What the code does not wait for *)

Definition frame_of (n : Z) : list Z := [n].
Definition packet_from_phone (k : nat) (n : Z) : list happening :=
  [Read k (Some (frame_of n, from_phone n)) None; PassOn k Sent (ms (20 * n)) 41].

Definition wire (xs : list happening) : option (list (Z * list Z)) :=
  (fun s => map (fun q => (p_seq q, p_payload q)) (sent (wr s))) <$> happens pcma xs (begun fresh_writer).

(** A hold becomes a transfer: the second player raises the flag before the first, which
    is cancelled and not waited for, lowers it.  From then on every packet that arrives
    is relayed between the frames of the second clip, for as long as it plays. *)
Definition overlapping : list happening :=
  packet_from_phone 0 0
  ++ [Play [[100]]; Begin 0 0; Frame 0 0 true 0; Play [[200]]; Begin 0 1; Leave 0 0]
  ++ packet_from_phone 0 1 ++ [Frame 0 1 true 0] ++ packet_from_phone 0 2 ++ [Frame 0 1 true 0].

Lemma two_players_let_the_relay_through :
  wire overlapping = Some [(41, [0]); (42, [100]); (43, [1]); (44, [200]); (45, [2]); (46, [200])]
  /\ exists s, happens pcma overlapping (begun fresh_writer) = Some s /\ forall r, relays s !! 0%nat = Some r ->
       localOnly r = false /\ exists x, players r !! 1%nat = Some x /\ playing x = true /\ stopped x = false.
Proof.
  split; [by vm_compute|]. destruct (happens pcma overlapping (begun fresh_writer)) as [s|] eqn:E; [|by vm_compute in E].
  exists s. split; [done|]. intros r Hr. vm_compute in E. injection E as <-. injection Hr as <-. split; [done|]. by eexists.
Qed.

(** A transfer replaces the pumps while a packet is in hand: the new pump has taken over
    the numbers, and the old one sends its packet under the number that the new one has
    just used. *)
Definition overtaken : list happening :=
  packet_from_phone 0 0 ++ [Read 0 (Some (frame_of 1, from_phone 1)) None; Replace]
  ++ packet_from_phone 1 7 ++ [PassOn 0 Sent (ms 30) 41].

Lemma a_packet_in_hand_repeats_a_number : wire overtaken = Some [(41, [0]); (42, [7]); (42, [1])].
Proof. by vm_compute. Qed.

(** A clip and another after it, a transfer, and the party again, with what is cancelled
    back in time. *)
Definition in_turn : list happening :=
  packet_from_phone 0 0
  ++ [Play [[100]]; Begin 0 0; Frame 0 0 true 0; Play [[200]]; Leave 0 0; Begin 0 1; Read 0 (Some (frame_of 1, from_phone 1)) None;
      Frame 0 1 true 0; Replace; Read 0 None (Some Timeout); Leave 0 1]
  ++ packet_from_phone 1 2 ++ packet_from_phone 1 3.

Fixpoint all_in_timeb (c : Codec) (xs : list happening) (s : leg) : bool :=
  match xs with
  | [] => true
  | x :: xs =>
      match x with
      | Frame k i _ _ => match relays s !! k ≫= fun r => players r !! i with Some y => negb (stopped y) | None => true end
      | Begin k i => match relays s !! k with
                     | Some r => forallb (fun y => negb (stopped y) || gone y) (take i (players r) ++ drop (S i) (players r))
                     | None => true
                     end
      | Replace => match relays s !! at_last s with Some r => negb (in_hand r) | None => true end
      | _ => true
      end && match take_step c x s with Some s' => all_in_timeb c xs s' | None => true end
  end.

Lemma all_in_timeb_sound c xs : forall s, all_in_timeb c xs s = true -> all_in_time c xs s.
Proof.
  induction xs as [|x xs IH]; intros s H; [done|]. cbn in H |- *. apply andb_true_iff in H as [Hx H]. split.
  - destruct x; try done; cbn [in_time].
    + intros r j y Hr Hy Hj Hs. rewrite Hr, forallb_forall in Hx. specialize (Hx y). rewrite Hs in Hx. apply Hx, list_elem_of_In, elem_of_app.
      destruct (decide (j < i)%nat) as [Hlt|Hge]; [left; apply (list_elem_of_lookup_2 _ j); by rewrite lookup_take_lt|].
      right. apply (list_elem_of_lookup_2 _ (j - S i)). rewrite lookup_drop. by replace (S i + (j - S i))%nat with j by lia.
    + intros r y Hr Hy. rewrite Hr in Hx. cbn in Hx. rewrite Hy in Hx. by apply negb_true_iff.
    + intros r Hr. rewrite Hr in Hx. by apply negb_true_iff.
  - intros s' Hs. rewrite Hs in H. by apply IH.
Qed.

Definition after_turns : leg := default (begun fresh_writer) (happens pcma in_turn (begun fresh_writer)).

