(* ===== verification/Qualify.v ===== *)
(** Whether the far ends answer (src/server/internal/b2bua): the OPTIONS probe of
    the trunk (qualify.go), the OPTIONS asked of each party of a bridged call
    (qualifyLegs of transfer.go), and what status.go reports of the trunk and of
    the calls.

    A tick of either loop is a step; what the probe gave and the times it took are
    arguments.  Logging is left out. *)

From S2P Require Import Prelude Text Trunk Transfer.
Open Scope Z_scope.

(** ** The trunk *)

(** What the qualifier last found. *)
Record trunkState := mkTrunk { up_ : bool; since : Z; lastErr : string }.

Definition no_trunk_state : trunkState := mkTrunk false 0 "".

(** [err]: the error's text, or none. *)
Definition set (up : bool) (err : option string) (now : Z) (t : trunkState) : trunkState :=
  mkTrunk up (if negb (eqb (up_ t) up) || is_zero (since t) then now else since t) (default (lastErr t) err).

(** The loop between ticks: [dead], and what it has done: the state kept for the
    status, what it told of it, how often it dropped the pooled connection. *)
Record qualifier := mkQualifier { dead : bool; trunk_ : trunkState; told : list (bool * option string); drops : Z }.

(** [q.state]. *)
Definition state (up : bool) (err : option string) (now : Z) (q : qualifier) : qualifier :=
  mkQualifier (dead q) (set up err now (trunk_ q)) (told q ++ [(up, err)]) (drops q).

(** One tick: the probe's error or none, and when it ended. *)
Definition probed (err : option string) (now : Z) (q : qualifier) : qualifier :=
  match err with
  | Some e =>
      let q := if dead q then q else state false (Some e) now q in
      mkQualifier true (trunk_ q) (told q) (drops q + 1)
  | None =>
      let q := if dead q then state true None now q else q in
      mkQualifier false (trunk_ q) (told q) (drops q)
  end.

(** [startTrunkQualify]: the trunk is up until the probe says otherwise. *)
Definition start (now : Z) : qualifier := mkQualifier false (set true None now no_trunk_state) [] 0.

(** [run]: the ticks until the context ends. *)
Definition run (ticks : list (option string * Z)) (q : qualifier) : qualifier := foldl (fun q x => probed (fst x) (snd x) q) q ticks.

Record TrunkStatus := mkTrunkStatus { Configured : bool; Qualify : string; Since : Z; LastError : string }.

(** [TrunkStatus]; [transport]: the trunk's, if one is configured. *)
Definition trunk_status (transport : option text) (interval : Z) (t : trunkState) : TrunkStatus :=
  match transport with
  | None => mkTrunkStatus false "" 0 ""
  | Some tr =>
      if (interval <=? 0) || negb (reliableTransport tr) then mkTrunkStatus true "off" 0 ""
      else mkTrunkStatus true (if up_ t then "up" else "down") (since t) (lastErr t)
  end.

(** ** The parties of a call *)

Definition byeTimeout : Z := 5 * ns_second.

Definition interval (timeout : Z) : Z := Z.max (Z.quot timeout 4) 100000000.
Definition probe (timeout : Z) : Z := Z.min (Z.quot (interval timeout) 2) byeTimeout.

(** What asking one leg gave: when it was asked, whether it answered, and when that
    was known. *)
Record asking := mkAsking { leg : nat; asked : Z; answers : bool; known : Z }.

Inductive verdict := Watching (answered : gmap nat Z) | Gone (leg : nat).

(** The legs of one tick, in order. *)
Fixpoint ask (timeout : Z) (xs : list asking) (answered : gmap nat Z) : verdict :=
  match xs with
  | [] => Watching answered
  | x :: xs =>
      let answered := match answered !! leg x with Some _ => answered | None => <[leg x := asked x]> answered end in
      if answers x then ask timeout xs (<[leg x := known x]> answered)
      else match answered !! leg x with
           | Some t => if timeout <? known x - t then Gone (leg x) else ask timeout xs answered
           | None => Watching answered
           end
  end.

(** A tick: the legs there are, asked; then the legs that are not there forgotten. *)
Definition tick (timeout : Z) (xs : list asking) (answered : gmap nat Z) : verdict :=
  match ask timeout xs answered with
  | Gone l => Gone l
  | Watching m => Watching (filter (fun kt => kt.1 ∈ map leg xs) m)
  end.

(** [qualifyLegs]: its ticks, in order. *)
Fixpoint qualifyLegs (timeout : Z) (ticks : list (list asking)) (answered : gmap nat Z) : verdict :=
  match ticks with
  | [] => Watching answered
  | xs :: ticks => match tick timeout xs answered with Gone l => Gone l | Watching m => qualifyLegs timeout ticks m end
  end.

(** ** What is shown of the calls *)

Record LegView := mkLegView { lv_Leg : string; lv_User : string; lv_URI : text; lv_Codec : string; lv_SRTP : bool }.

(** [uriUser] and the SRTP state of a leg come from the SIP stack. *)
Definition leg_view (uriUser : text -> string) (srtp : nat -> bool) (l : nat) (c : bridgedCall) : option LegView :=
  (fun x => mkLegView (if Transfer.trunk x then "trunk" else "app") (if Transfer.trunk x then "" else uriUser (party x)) (party x) (Name (codec x)) (srtp l))
  <$> legs c !! l.

Record CallView := mkCallView {
  cv_CallID : string; cv_State : string; cv_Since : Z; cv_HeldBy : option nat; cv_A : option LegView; cv_B : option LegView; cv_Stats : option (nat * nat) }.

(** [view]; the counters shown are those of the two pumps, by their places. *)
Definition view (uriUser : text -> string) (srtp : nat -> bool) (id : string) (since : Z) (c : bridgedCall) : CallView :=
  let '(st, by_) := match handing c, heldBy (hold c) with
                    | Some _, _ => ("handing", None)
                    | None, Some l => ("held", Some l)
                    | None, None => ("bridged", None)
                    end in
  mkCallView id st since by_ (leg_view uriUser srtp (a c) c) (y ← b c; leg_view uriUser srtp y c)
    (if decide (length (pumps c) = 2%nat) then Some (0%nat, 1%nat) else None).

(** The registry of the calls carried. *)
Record liveCalls := mkLive { bridged : gmap string (Z * bridgedCall); waiting : gmap string Z }.

Definition trackBridged (id : string) (since : Z) (c : bridgedCall) (l : liveCalls) : liveCalls := mkLive (<[id := (since, c)]> (bridged l)) (waiting l).
Definition untrackBridged (id : string) (l : liveCalls) : liveCalls := mkLive (delete id (bridged l)) (waiting l).
Definition trackWaiting (id : string) (since : Z) (l : liveCalls) : liveCalls := mkLive (bridged l) (<[id := since]> (waiting l)).
Definition untrackWaiting (id : string) (l : liveCalls) : liveCalls := mkLive (bridged l) (delete id (waiting l)).

Definition earlier (x y : CallView) : Prop := cv_Since x <= cv_Since y.

#[export] Instance earlier_dec x y : Decision (earlier x y).
Proof. unfold earlier. apply _. Defined.

(** [Calls]. *)
Definition Calls (uriUser : text -> string) (srtp : string -> nat -> bool) (l : liveCalls) : list CallView :=
  merge_sort earlier (map (fun x => view uriUser (srtp x.1) x.1 (fst x.2) (snd x.2)) (map_to_list (bridged l)))
  ++ merge_sort earlier (map (fun x => mkCallView x.1 "waiting_wake" x.2 None None None None) (map_to_list (waiting l))).

(** ** The trunk's state *)

(** The probes that found something else than the one before, [up] being what was
    found before the first. *)
Fixpoint changes (up : bool) (ticks : list (option string * Z)) : list (bool * Z) :=
  match ticks with
  | [] => []
  | (err, now) :: ticks =>
      let ok := match err with None => true | Some _ => false end in
      if eqb ok up then changes up ticks else (ok, now) :: changes ok ticks
  end.

Definition failed (x : option string * Z) : bool := match fst x with Some _ => true | None => false end.

Lemma set_changes up err now t : is_zero (since t) = false -> eqb (up_ t) up = false -> since (set up err now t) = now.
Proof. intros Hz He. unfold set. simpl. by rewrite He. Qed.

(** The loop from any moment between ticks. *)
Lemma run_from ticks : forall q, up_ (trunk_ q) = negb (dead q) -> is_zero (since (trunk_ q)) = false -> Forall (fun x => 0 < snd x) ticks ->
  let q' := run ticks q in let cs := changes (negb (dead q)) ticks in
  up_ (trunk_ q') = negb (dead q') /\ negb (dead q') = default (negb (dead q)) (fst <$> last cs) /\
  since (trunk_ q') = default (since (trunk_ q)) (snd <$> last cs) /\
  map fst (told q') = map fst (told q) ++ map fst cs /\ drops q' = drops q + zlen (List.filter failed ticks).
Proof.
  induction ticks as [|[err now] ticks IH]; intros q Hup Hz Ht; simpl.
  - rewrite app_nil_r. repeat split; [done | unfold zlen; simpl; lia].
  - apply Forall_cons in Ht as [Hn Ht]. simpl in Hn.
    destruct (IH (probed err now q)) as (H1 & H2 & H3 & H4 & H5); [| | done|].
    + destruct err, q as [[] t tl d]; simpl in *; done.
    + destruct err, q as [[] [u sn le] tl d]; simpl in *; subst; simpl; try done; unfold is_zero; apply Z.eqb_neq; lia.
    + unfold run in *. simpl. rewrite H1. split; [done|]. rewrite H2, H3, H4, H5.
      destruct err, q as [[] [u sn le] tl d]; simpl in *; subst u; simpl; rewrite ?last_cons, ?map_app; simpl;
        try (destruct (last (changes _ ticks)) as [[]|]; simpl);
        repeat split; rewrite <- ?app_assoc; try done; unfold zlen; simpl; lia.
Qed.

(** ** The parties *)

Definition misses (l : nat) (xs : list asking) : Prop := exists x, x ∈ xs /\ leg x = l /\ answers x = false.

(** The ticks are [interval] apart; the legs of a tick are asked one after the
    other, each for at most [probe]. *)
Definition on_time (timeout from : Z) (xs : list asking) : Prop :=
  Forall (fun x => from <= asked x <= from + probe timeout /\ asked x <= known x <= asked x + probe timeout) xs.

Fixpoint on_schedule (timeout from : Z) (ticks : list (list asking)) : Prop :=
  match ticks with
  | [] => True
  | xs :: ticks => NoDup (map leg xs) /\ on_time timeout from xs /\ on_schedule timeout (from + interval timeout) ticks
  end.

Lemma interval_bounds timeout : 400000000 <= timeout -> 4 * interval timeout <= timeout < 5 * interval timeout - probe timeout /\ 0 <= 2 * probe timeout <= interval timeout.
Proof.
  intros H. unfold probe, interval, byeTimeout, ns_second. rewrite !Z.quot_div_nonneg by lia.
  rewrite (Z.max_l (timeout / 4)) by (apply Z.div_le_lower_bound; lia).
  pose proof (Z.div_mod timeout 4 ltac:(lia)). pose proof (Z.mod_pos_bound timeout 4 ltac:(lia)).
  pose proof (Z.div_mod (timeout / 4) 2 ltac:(lia)). pose proof (Z.mod_pos_bound (timeout / 4) 2 ltac:(lia)).
  assert (100000000 <= timeout / 4) by (apply Z.div_le_lower_bound; lia). lia.
Qed.

(** What one tick leaves for a leg. *)
Definition heard (x : asking) (m : gmap nat Z) : Z := if answers x then known x else default (asked x) (m !! leg x).

Lemma ask_cases timeout xs : forall m, NoDup (map leg xs) ->
  match ask timeout xs m with
  | Gone l => exists x, x ∈ xs /\ leg x = l /\ answers x = false /\ timeout < known x - heard x m
  | Watching m' => (forall x, x ∈ xs -> m' !! leg x = Some (heard x m) /\ (answers x = false -> known x - heard x m <= timeout))
                   /\ (forall l, l ∉ map leg xs -> m' !! l = m !! l)
  end.
Proof.
  induction xs as [|x xs IH]; intros m Hnd; simpl.
  - split; [intros x Hx; by apply elem_of_nil in Hx | done].
  - simpl in Hnd. apply NoDup_cons in Hnd as [Hx Hnd].
    assert (Hoff : forall m0, (forall l, l <> leg x -> m0 !! l = m !! l) -> forall y, y ∈ xs -> heard y m0 = heard y m).
    { intros m0 H0 y Hy. unfold heard. rewrite H0; [done|]. intros He. apply Hx. rewrite <- He. apply list_elem_of_fmap. eauto. }
    assert (Hgo : forall m0, (forall l, l <> leg x -> m0 !! l = m !! l) -> m0 !! leg x = Some (heard x m) -> (answers x = false -> known x - heard x m <= timeout) ->
      match ask timeout xs m0 with
      | Gone l => exists y, y ∈ x :: xs /\ leg y = l /\ answers y = false /\ timeout < known y - heard y m
      | Watching m' => (forall y, y ∈ x :: xs -> m' !! leg y = Some (heard y m) /\ (answers y = false -> known y - heard y m <= timeout))
                   /\ (forall l, l ∉ leg x :: map leg xs -> m' !! l = m !! l)
      end).
    { intros m0 H0 H1 H2. specialize (IH m0 Hnd). destruct (ask timeout xs m0) as [m'|l].
      - destruct IH as [Ha Hb]. split.
        + intros y Hy. apply elem_of_cons in Hy as [->|Hy]; [by rewrite Hb | rewrite <- (Hoff m0) by done; auto].
        + intros l Hl. apply not_elem_of_cons in Hl as [Hl1 Hl2]. rewrite Hb by done. by apply H0.
      - destruct IH as (y & Hy & He & Hay & Ht). exists y. rewrite <- (Hoff m0) by done. split; [by apply elem_of_cons; right | done]. }
    set (m1 := match m !! leg x with Some _ => m | None => <[leg x:=asked x]> m end).
    assert (Hm1 : forall l, l <> leg x -> m1 !! l = m !! l) by (intros l Hl; subst m1; destruct (m !! leg x); by rewrite ?lookup_insert_ne).
    assert (Hm2 : m1 !! leg x = Some (default (asked x) (m !! leg x))) by (subst m1; destruct (m !! leg x) eqn:E; by rewrite ?lookup_insert_eq, ?E).
    destruct (answers x) eqn:Ea.
    + apply Hgo; [intros l Hl; by rewrite lookup_insert_ne, Hm1 | rewrite lookup_insert_eq; unfold heard; by rewrite Ea | done].
    + rewrite Hm2. destruct (timeout <? known x - default (asked x) (m !! leg x)) eqn:Et.
      * exists x. split; [by apply elem_of_cons; left|]. unfold heard. rewrite Ea. repeat split; lia.
      * apply Hgo; [done | unfold heard; by rewrite Ea | unfold heard; rewrite Ea; lia].
Qed.

Lemma tick_cases timeout xs m : NoDup (map leg xs) ->
  match tick timeout xs m with
  | Gone l => exists x, x ∈ xs /\ leg x = l /\ answers x = false /\ timeout < known x - heard x m
  | Watching m' => (forall x, x ∈ xs -> answers x = false -> known x - heard x m <= timeout)
                   /\ (forall l t, m' !! l = Some t <-> exists x, x ∈ xs /\ leg x = l /\ t = heard x m)
  end.
Proof.
  intros Hnd. pose proof (ask_cases timeout xs m Hnd) as H. unfold tick. destruct (ask timeout xs m) as [m'|l]; [|done].
  destruct H as [Ha Hb]. split; [intros x Hx; by apply Ha|]. intros l t. rewrite map_lookup_filter_Some. simpl. split.
  - intros [Hl Hin]. apply list_elem_of_fmap in Hin as (x & -> & Hx). exists x. destruct (Ha x Hx) as [Hh _]. rewrite Hh in Hl. by simplify_eq.
  - intros (x & Hx & <- & ->). split; [by apply Ha|]. apply list_elem_of_fmap. eauto.
Qed.

(** What is remembered before the tick at [from], of the ticks [past]: a leg has
    missed every ask since the time it is remembered with. *)
Definition remembers (timeout from : Z) (past : list (list asking)) (m : gmap nat Z) : Prop :=
  forall l t, m !! l = Some t -> exists p ms, past = p ++ ms /\ Forall (misses l) ms /\ from <= t + interval timeout * (zlen ms + 1) /\ t <= from.

Lemma remembers_nil timeout from : remembers timeout from [] ∅.
Proof. intros l t H. done. Qed.

Lemma heard_bounds timeout from past m x xs : 400000000 <= timeout -> remembers timeout from past m -> on_time timeout from xs -> x ∈ xs ->
  exists p ms, past = p ++ ms /\ Forall (misses (leg x)) ms /\ heard x m <= from + 2 * probe timeout /\
    (answers x = true -> from <= heard x m) /\ (answers x = false -> from <= heard x m + interval timeout * (zlen ms + 1) /\ heard x m <= from + probe timeout).
Proof.
  intros Ht Hr Ho Hx. destruct (interval_bounds _ Ht) as [Hi Hp].
  unfold on_time in Ho. rewrite Forall_forall in Ho. specialize (Ho x Hx).
  unfold heard. destruct (answers x); [exists past, []; rewrite app_nil_r; repeat split; try done; lia|].
  destruct (m !! leg x) as [t|] eqn:E; simpl; [|exists past, []; rewrite app_nil_r; repeat split; try done; unfold zlen; simpl; lia].
  destruct (Hr _ _ E) as (p & ms & -> & Hm & H1 & H2). exists p, ms. repeat split; try done; lia.
Qed.

Lemma remembers_tick timeout from past xs m m' : 400000000 <= timeout -> NoDup (map leg xs) -> on_time timeout from xs ->
  remembers timeout from past m -> tick timeout xs m = Watching m' -> remembers timeout (from + interval timeout) (past ++ [xs]) m'.
Proof.
  intros Ht Hnd Ho Hr Hw. destruct (interval_bounds _ Ht) as [Hi Hp]. pose proof (tick_cases timeout xs m Hnd) as H. rewrite Hw in H.
  destruct H as [_ H]. intros l t Hl. apply H in Hl as (x & Hx & <- & ->).
  destruct (heard_bounds _ _ _ _ _ _ Ht Hr Ho Hx) as (p & ms & -> & Hm & H1 & H2 & H3). destruct (answers x) eqn:Ea.
  - exists ((p ++ ms) ++ [xs]), []. rewrite app_nil_r. specialize (H2 eq_refl). repeat split; try done; unfold zlen; simpl; lia.
  - destruct (H3 eq_refl) as [H4 H5]. exists p, (ms ++ [xs]). rewrite app_assoc. split; [done|]. split; [|].
    + apply Forall_app. split; [done|]. repeat constructor. by exists x.
    + replace (zlen (ms ++ [xs])) with (zlen ms + 1) by (unfold zlen; rewrite length_app; simpl; lia). lia.
Qed.

Lemma gone_missed timeout ticks : 400000000 <= timeout -> forall from past m l, on_schedule timeout from ticks -> remembers timeout from past m ->
  qualifyLegs timeout ticks m = Gone l -> exists p ms q, past ++ ticks = p ++ ms ++ q /\ 4 <= zlen ms /\ Forall (misses l) ms.
Proof.
  intros Ht. destruct (interval_bounds _ Ht) as [Hi Hp].
  induction ticks as [|xs ticks IH]; intros from past m l Hs Hr Hg; simpl in *; [done|].
  destruct Hs as (Hnd & Ho & Hs). pose proof (tick_cases timeout xs m Hnd) as Hc. destruct (tick timeout xs m) as [m'|l'] eqn:E.
  - destruct (IH _ _ _ _ Hs (remembers_tick _ _ _ _ _ _ Ht Hnd Ho Hr E) Hg) as (p & ms & q & H & Hrest). exists p, ms, q. by rewrite <- H, <- app_assoc.
  - simplify_eq. destruct Hc as (x & Hx & <- & Ha & Hk).
    destruct (heard_bounds _ _ _ _ _ _ Ht Hr Ho Hx) as (p & ms & -> & Hm & _ & _ & H3). destruct (H3 Ha) as [H4 H5].
    unfold on_time in Ho. rewrite Forall_forall in Ho. specialize (Ho x Hx).
    exists p, (ms ++ [xs]), ticks. rewrite <- !app_assoc. split; [done|]. split.
    + unfold zlen in *. rewrite length_app. simpl. nia.
    + apply Forall_app. split; [done|]. repeat constructor. by exists x.
Qed.

(** A leg that misses every ask, heard of at [s] or before, or asked for the first
    time by then. *)
Lemma silent_gone timeout l s ticks : forall from m, on_schedule timeout from ticks -> Forall (misses l) ticks -> ticks <> [] ->
  default (from + probe timeout) (m !! l) <= s -> timeout < from + interval timeout * (zlen ticks - 1) - s ->
  exists l', qualifyLegs timeout ticks m = Gone l'.
Proof.
  induction ticks as [|xs ticks IH]; intros from m Hs Hm Hne Hb Ht; [done|]. simpl in Hs. destruct Hs as (Hnd & Ho & Hs).
  apply Forall_cons in Hm as [(x & Hx & <- & Ha) Hm]. simpl.
  pose proof (tick_cases timeout xs m Hnd) as Hc. destruct (tick timeout xs m) as [m'|l'] eqn:E; [|eauto].
  destruct Hc as [Hk Hl]. specialize (Hk x Hx Ha).
  unfold on_time in Ho. rewrite Forall_forall in Ho. specialize (Ho x Hx).
  assert (Hh : heard x m <= s) by (unfold heard; rewrite Ha; destruct (m !! leg x); simpl in *; lia).
  destruct ticks as [|ys ticks]; [unfold zlen in Ht; simpl in Ht; lia|].
  apply (IH (from + interval timeout)); [done..| | unfold zlen in *; simpl in *; lia].
  assert (Hm' : m' !! leg x = Some (heard x m)) by (apply Hl; eauto). by rewrite Hm'.
Qed.

Lemma qualify_app timeout pre ticks : forall m,
  qualifyLegs timeout (pre ++ ticks) m = match qualifyLegs timeout pre m with Gone l => Gone l | Watching m' => qualifyLegs timeout ticks m' end.
Proof. induction pre as [|xs pre IH]; intros m; simpl; [done|]. destruct (tick timeout xs m); [apply IH | done]. Qed.

Lemma schedule_app timeout pre ticks : forall from, on_schedule timeout from (pre ++ ticks) ->
  on_schedule timeout from pre /\ on_schedule timeout (from + interval timeout * zlen pre) ticks.
Proof.
  induction pre as [|xs pre IH]; intros from H; simpl in *; [split; [done | by replace (from + _ * zlen []) with from by (unfold zlen; simpl; lia)]|].
  destruct H as (H1 & H2 & H3). apply IH in H3 as [H3 H4]. split; [done|].
  replace (from + interval timeout * zlen (xs :: pre)) with (from + interval timeout + interval timeout * zlen pre) by (unfold zlen; simpl; lia). done.
Qed.

Lemma watching_remembers timeout ticks : 400000000 <= timeout -> forall from past m m', on_schedule timeout from ticks -> remembers timeout from past m ->
  qualifyLegs timeout ticks m = Watching m' -> remembers timeout (from + interval timeout * zlen ticks) (past ++ ticks) m'.
Proof.
  intros Ht. induction ticks as [|xs ticks IH]; intros from past m m' Hs Hr Hw; simpl in *.
  - simplify_eq. rewrite app_nil_r. by replace (from + _ * zlen []) with from by (unfold zlen; simpl; lia).
  - destruct Hs as (H1 & H2 & H3). destruct (tick timeout xs m) as [m1|] eqn:E; [|done].
    pose proof (IH _ _ _ _ H3 (remembers_tick _ _ _ _ _ _ Ht H1 H2 Hr E) Hw) as H. rewrite <- app_assoc in H.
    replace (from + interval timeout * zlen (xs :: ticks)) with (from + interval timeout + interval timeout * zlen ticks) by (unfold zlen; simpl; lia). done.
Qed.

Lemma silence_ends timeout from pre ms rest l : 400000000 <= timeout -> on_schedule timeout from (pre ++ ms ++ rest) -> Forall (misses l) ms -> 6 <= zlen ms ->
  exists l', qualifyLegs timeout (pre ++ ms ++ rest) ∅ = Gone l'.
Proof.
  intros Ht Hs Hm Hn. destruct (interval_bounds _ Ht) as [Hi Hp]. apply schedule_app in Hs as [Hs1 Hs]. apply schedule_app in Hs as [Hs2 _].
  rewrite qualify_app. destruct (qualifyLegs timeout pre ∅) as [m|] eqn:E; [|eauto].
  pose proof (watching_remembers _ _ Ht _ _ _ _ Hs1 (remembers_nil _ _) E) as Hr. rewrite qualify_app.
  destruct (silent_gone timeout l (from + interval timeout * zlen pre + probe timeout) ms _ m Hs2) as [l' H].
  - done.
  - intros ->. unfold zlen in Hn. simpl in Hn. lia.
  - destruct (m !! l) as [t|] eqn:El; simpl; [|lia]. destruct (Hr _ _ El) as (_ & _ & _ & _ & _ & H). lia.
  - nia.
  - rewrite H. eauto.
Qed.

(** ** What holds *)

(** C29: A party is declared gone only after it has missed at least four asks in a
    row, so that a lost packet or three end no call; and a party that misses six
    asks in a row ends the call, whatever it and the other party did before. *)
Theorem the_silent_are_gone_and_nobody_else timeout from ticks (Ht : 400000000 <= timeout) (Hs : on_schedule timeout from ticks) :
  (forall l, qualifyLegs timeout ticks ∅ = Gone l -> exists p ms q, ticks = p ++ ms ++ q /\ 4 <= zlen ms /\ Forall (misses l) ms)
  /\ (forall l p ms q, ticks = p ++ ms ++ q -> 6 <= zlen ms -> Forall (misses l) ms -> exists l', qualifyLegs timeout ticks ∅ = Gone l').
Proof.
  split.
  - intros l H. by apply (gone_missed timeout ticks Ht from [] ∅ l Hs (remembers_nil _ _)).
  - intros l p ms q -> Hn Hm. by apply (silence_ends timeout from p ms q l).
Qed.

(** What the status shows of the trunk is what the last probe found, and when
    that began; the admin hook is told each change once, in order; and the pooled
    connection is dropped once for each probe that was not answered. *)
Theorem the_status_is_the_last_probe now ticks tr every (Hn : 0 < now) (Ht : Forall (fun x => 0 < snd x) ticks) (He : 0 < every) (Hr : reliableTransport tr = true) :
  let q := run ticks (start now) in let st := trunk_status (Some tr) every (trunk_ q) in
  Qualify st = (if default false (failed <$> last ticks) then "down" else "up")%string
  /\ Since st = default now (snd <$> last (changes true ticks))
  /\ map fst (told q) = map fst (changes true ticks)
  /\ drops q = zlen (List.filter failed ticks).
Proof.
  intros q st.
  destruct (run_from ticks (start now)) as (H1 & H2 & H3 & H4 & H5); [done | simpl; unfold is_zero; by apply Z.eqb_neq; lia | done|]. fold q in H1, H2, H3, H4, H5. simpl in *.
  assert (Hd : dead q = default false (failed <$> last ticks)).
  { subst q. destruct ticks as [|x ticks _] using rev_ind; [done|]. rewrite last_snoc. unfold run. rewrite foldl_app. by destruct x as [[]]. }
  subst st. unfold trunk_status. rewrite Hr. replace (every <=? 0) with false by lia. simpl. rewrite H1, H3, H4, H5, Hd.
  repeat split. by destruct (default false _).
Qed.

(** ** Examples *)

Definition sec (n : Z) : Z := n * ns_second.

(** Leg 0 answers at once; leg 1 answers the first ask only. *)
Definition half_silent : list (list asking) :=
  map (fun k => let t := sec (15 * k) in [mkAsking 0 t true (t + 20); mkAsking 1 (t + 20) (k =? 0) (if k =? 0 then t + 40 else t + 20 + sec 5)]) [0; 1; 2; 3; 4; 5; 6].

#[export] Instance on_schedule_dec timeout from ticks : Decision (on_schedule timeout from ticks).
Proof. revert from. induction ticks as [|xs ticks IH]; intros from; simpl; [apply _|]. pose proof (IH (from + interval timeout)). unfold on_time. apply _. Defined.

Lemma half_silent_schedule : on_schedule (sec 60) 0 half_silent.
Proof. apply (bool_decide_eq_true_1 _). vm_compute. reflexivity. Qed.

Lemma the_silent_are_gone_and_nobody_else_witness :
  qualifyLegs (sec 60) half_silent ∅ = Gone 1 /\
  (exists p ms q, half_silent = p ++ ms ++ q /\ 4 <= zlen ms /\ Forall (misses 1) ms) /\
  (exists l', qualifyLegs (sec 60) half_silent ∅ = Gone l').
Proof.
  destruct (the_silent_are_gone_and_nobody_else (sec 60) 0 half_silent ltac:(vm_compute; discriminate) half_silent_schedule) as [H1 H2].
  assert (H : qualifyLegs (sec 60) half_silent ∅ = Gone 1) by (vm_compute; reflexivity).
  split; [exact H|]. split; [exact (H1 1%nat H)|].
  apply (H2 1%nat (take 1 half_silent) (drop 1 half_silent) []); [by rewrite app_nil_r, take_drop | vm_compute; discriminate|].
  repeat constructor; (eexists; split; [apply elem_of_cons; right; apply elem_of_cons; left; reflexivity | split; reflexivity]).
Defined.

(** A call of two answering parties is never dropped: none missed four asks. *)
Example both_answer : exists m, qualifyLegs (sec 60) (map (fun k => [mkAsking 0 (sec (15 * k)) true (sec (15 * k) + 20); mkAsking 1 (sec (15 * k) + 20) (negb (k =? 2)) (sec (15 * k) + sec 2)]) [0; 1; 2; 3; 4; 5; 6; 7]) ∅ = Watching m.
Proof. eexists. vm_compute. reflexivity. Qed.

Definition an_outage : list (option string * Z) :=
  [(None, sec 10); (Some "dial tcp: connection refused"%string, sec 20); (Some "i/o timeout"%string, sec 30); (None, sec 40)].

Lemma the_status_is_the_last_probe_witness :
  let st := trunk_status (Some (T "TLS")) (sec 10) (trunk_ (run an_outage (start (sec 1)))) in
  (Qualify st = "up" /\ Since st = sec 40)%string /\ map fst (told (run an_outage (start (sec 1)))) = [false; true] /\ drops (run an_outage (start (sec 1))) = 2.
Proof.
  destruct (the_status_is_the_last_probe (sec 1) an_outage (T "TLS") (sec 10)) as (H1 & H2 & H3 & H4);
    [vm_compute; reflexivity | repeat constructor | vm_compute; reflexivity | vm_compute; reflexivity |].
  split; [split|split]; [exact H1 | exact H2 | exact H3 | exact H4].
Defined.

(** The error shown is the first of an outage, not the last the qualifier found, and
    it stays after the trunk is back. *)
Theorem the_first_failure_is_kept :
  LastError (trunk_status (Some (T "TLS")) (sec 10) (trunk_ (run an_outage (start (sec 1))))) = "dial tcp: connection refused"%string.
Proof. vm_compute. reflexivity. Qed.

(** A trunk whose first probe is answered is told of to nobody. *)
Theorem the_first_success_is_not_told : told (run [(None, sec 10)] (start (sec 1))) = [].
Proof. reflexivity. Qed.
