(* ===== verification/Console.v ===== *)
(** The operator's console: the login sessions of
    src/server/internal/adminui/session.go and the front door of
    src/server/internal/adminui/server.go (routes, auth, login, replay, logout,
    and the one-time keys its pages stash and take).

    A request keeps its URI parsed: what RequestURI prints and NewRequest reads
    back is the pair of path segments and query.  A form is the list of its
    key/value pairs; only the order under one key matters to its readers.  The
    clock is read once per request, and what crypto/rand gives is an argument.
    What a handler asks of the call server is in ConsoleApi; here a handler
    that runs is its answer [Ran], with what the session store gave it. *)

From S2P Require Import Prelude Text.
Open Scope Z_scope.

(** ** Sessions *)

Abbreviation form := (list (string * string)).

(** [url.Values.Get]. *)
Definition form_get (f : form) (k : string) : string := default "" (snd <$> find (fun kv => bool_decide (fst kv = k)) f).

Record uri := mkUri { u_segs : list string; u_query : form }.

Record session := mkSession { csrf : string; expires : Z }.

Record Pending := mkPending { p_Method : string; p_Path : uri; p_Form : form; p_expires : Z }.

Record Sessions := mkSessions { password : string; sessions : gmap string session; pending : gmap string Pending }.

#[global] Instance uri_eq_dec : EqDecision uri.
Proof. solve_decision. Defined.

Definition SessionLife : Z := 12 * ns_hour.
Definition PendingLife : Z := 15 * ns_minute.
Definition Username : string := "admin".

Definition NewSessions (pw : string) : Sessions := mkSessions pw ∅ ∅.

Definition sweepLocked (now : Z) (s : Sessions) : Sessions :=
  mkSessions (password s) (filter (fun ks => after (expires ks.2) now = true) (sessions s))
    (filter (fun kp => after (p_expires kp.2) now = true) (pending s)).

Definition Login (username pass : string) (now : Z) (id token : string) (s : Sessions) : Sessions * option string :=
  let userOK := bool_decide (username = Username) in
  let passOK := negb (bool_decide (password s = "")) && bool_decide (password s = pass) in
  if negb userOK || negb passOK then (s, None)
  else
    let s := sweepLocked now s in
    (mkSessions (password s) (<[id := mkSession token (now + SessionLife)]> (sessions s)) (pending s), Some id).

Definition Logout (id : string) (s : Sessions) : Sessions := mkSessions (password s) (delete id (sessions s)) (pending s).

Definition Check (id : string) (now : Z) (s : Sessions) : Sessions * option string :=
  match sessions s !! id with
  | Some se =>
      if after (expires se) now
      then (mkSessions (password s) (<[id := mkSession (csrf se) (now + SessionLife)]> (sessions s)) (pending s), Some (csrf se))
      else (Logout id s, None)
  | None => (Logout id s, None)
  end.

Definition CSRFMatches (id token : string) (now : Z) (s : Sessions) : Sessions * bool :=
  let '(s, c) := Check id now s in
  (s, match c with Some c => negb (bool_decide (token = "")) && bool_decide (c = token) | None => false end).

Definition Stash (method : string) (path : uri) (f : form) (now : Z) (key : string) (s : Sessions) : Sessions * string :=
  let s := sweepLocked now s in
  (mkSessions (password s) (sessions s) (<[key := mkPending method path f (now + PendingLife)]> (pending s)), key).

Definition Take (key : string) (now : Z) (s : Sessions) : Sessions * option Pending :=
  let s' := mkSessions (password s) (sessions s) (delete key (pending s)) in
  match pending s !! key with
  | Some p => if after (p_expires p) now then (s', Some p) else (s', None)
  | None => (s', None)
  end.

(** ** Requests and routes *)

Inductive body := Plain (f : form) | Multipart (f : form) (files : list string) | Broken.

(** [q_parsed]: r.Form has been filled in before the handler starts. *)
Record request := mkRequest { q_method : string; q_uri : uri; q_cookie : string; q_body : body; q_parsed : bool }.

(** r.Form after ParseMultipartForm: the values of the body and of the query. *)
Definition parsed_form (q : request) : form :=
  match q_body q with
  | Plain f => f ++ u_query (q_uri q)
  | Multipart f _ => u_query (q_uri q) ++ f
  | Broken => u_query (q_uri q)
  end.

(** r.Form as it stands, nil until something parses the body; r.FormValue parses it. *)
Definition Form (q : request) : form := if q_parsed q then parsed_form q else [].
Definition FormValue (q : request) (k : string) : string := form_get (parsed_form q) k.

Definition parse (q : request) : request := mkRequest (q_method q) (q_uri q) (q_cookie q) (q_body q) true.

(** What ParseForm alone leaves: a multipart body is not read. *)
Definition plain_form (q : request) : form :=
  match q_body q with Plain f => f ++ u_query (q_uri q) | _ => u_query (q_uri q) end.

Inductive handler :=
  | server | clients | newClient | createClient | client | codePage | mintCode | cancelCode | setDescription | revoke | purge
  | setConfig | setLine | deleteLine | addContact | uploadCSV | copyDirectory | downloadCSV | editContact | diagFile | deleteDiag
  | deleteAllDiag | calls | diagnostics | setLog | licence | setLicence.

#[global] Instance handler_eq_dec : EqDecision handler.
Proof. solve_decision. Defined.

Inductive target := Static | LoginPage | LoginPost | LogoutPost | Moved | Guarded (h : handler).

Inductive seg := L (s : string) | W.

Definition routes : list (string * list seg * target) := [
  ("GET", [L "login"], LoginPage); ("POST", [L "login"], LoginPost); ("POST", [L "logout"], LogoutPost);
  ("GET", [], Moved); ("GET", [L "fleet"], Moved); ("GET", [L "devices"], Moved); ("GET", [L "devices"; W], Moved);
  ("GET", [L "server"], Guarded server); ("GET", [L "clients"], Guarded clients); ("GET", [L "clients"; L "new"], Guarded newClient);
  ("POST", [L "clients"], Guarded createClient); ("GET", [L "clients"; W], Guarded client);
  ("GET", [L "clients"; W; L "code"], Guarded codePage); ("POST", [L "clients"; W; L "code"], Guarded mintCode);
  ("POST", [L "clients"; W; L "code"; L "cancel"], Guarded cancelCode);
  ("POST", [L "clients"; W; L "description"], Guarded setDescription); ("POST", [L "clients"; W; L "revoke"], Guarded revoke);
  ("POST", [L "clients"; W; L "purge"], Guarded purge); ("POST", [L "clients"; W; L "config"], Guarded setConfig);
  ("POST", [L "clients"; W; L "line"], Guarded setLine); ("POST", [L "clients"; W; L "line"; L "delete"], Guarded deleteLine);
  ("POST", [L "clients"; W; L "directory"], Guarded addContact);
  ("POST", [L "clients"; W; L "directory"; L "upload"], Guarded uploadCSV);
  ("POST", [L "clients"; W; L "directory"; L "copy"], Guarded copyDirectory);
  ("GET", [L "clients"; W; L "directory.csv"], Guarded downloadCSV); ("POST", [L "clients"; W; L "directory"; W], Guarded editContact);
  ("GET", [L "clients"; W; L "diag"; W], Guarded diagFile); ("POST", [L "clients"; W; L "diag"; W; L "delete"], Guarded deleteDiag);
  ("POST", [L "clients"; W; L "diag"; L "delete-all"], Guarded deleteAllDiag);
  ("GET", [L "calls"], Guarded calls); ("GET", [L "diagnostics"], Guarded diagnostics); ("POST", [L "diagnostics"; L "log"], Guarded setLog);
  ("GET", [L "licence"], Guarded licence); ("POST", [L "licence"], Guarded setLicence)].

(** How http.ServeMux reads them: a GET route answers HEAD too, a wildcard takes
    one segment that is not empty, and the more specific of two routes wins. *)
Definition method_fits (pat m : string) : bool := bool_decide (pat = m) || (bool_decide (pat = "GET") && bool_decide (m = "HEAD")).

Fixpoint segs_fit (ps : list seg) (ss : list string) : bool :=
  match ps, ss with
  | [], [] => true
  | L p :: ps, s :: ss => bool_decide (p = s) && segs_fit ps ss
  | W :: ps, s :: ss => negb (bool_decide (s = "")) && segs_fit ps ss
  | _, _ => false
  end.

Fixpoint more_specific (ps qs : list seg) : bool :=
  match ps, qs with
  | L _ :: ps, W :: qs => true
  | W :: ps, L _ :: qs => false
  | _ :: ps, _ :: qs => more_specific ps qs
  | _, _ => false
  end.

Definition better (r : string * list seg * target) (best : option (string * list seg * target)) : option (string * list seg * target) :=
  match best with
  | None => Some r
  | Some b => if more_specific (snd (fst r)) (snd (fst b)) then Some r else best
  end.

Definition is_static (ss : list string) : bool := match ss with s :: _ :: _ => bool_decide (s = "static") | _ => false end.

Definition dispatch (method : string) (u : uri) : option target :=
  if is_static (u_segs u) then if method_fits "GET" method then Some Static else None
  else snd <$> foldr better None (filter (fun r => method_fits (fst (fst r)) method && segs_fit (snd (fst r)) (u_segs u)) routes).

(** ** Answers *)

(** What the world gives one request: the time, what crypto/rand gives, and what
    the call server's answer left the handler with: the one-time value it then
    stashes for the page it redirects to, and whether codePage found the device. *)
Record env := mkEnv { now : Z; draw1 : string; draw2 : string; draw3 : string; leaves : option (string * form); found : bool }.

Inductive answer :=
  | Asset | NotMatched | Restarts | MovedTo | Home | LoggedOut
  | ToLogin (next : uri)
  | ShowLogin (resume next : string)
  | BadForm | Forbidden
  | Ran (h : handler) (q : request) (taken : option Pending)
  | SignedIn (id : string) (then_ : answer)
  | To (next : string).

(** The value of a [{id}] or [{cid}] in the path. *)
Definition path_id (q : request) : string := default "" (u_segs (q_uri q) !! 1%nat).

(** The pages that show a flash, the writes that render one of them on an error,
    and the writes that leave a flash when the call server accepted them. *)
Definition reads_flash (h : handler) : bool := match h with clients | client | diagnostics | licence => true | _ => false end.
Definition rerenders_flash (h : handler) : bool := match h with setLog | setLicence => true | _ => false end.
Definition leaves_code (h : handler) : bool := match h with createClient | mintCode => true | _ => false end.
Definition leaves_flash (h : handler) : bool :=
  match h with
  | cancelCode | setDescription | revoke | purge | setConfig | setLine | deleteLine | addContact | uploadCSV | editContact | deleteDiag
  | deleteAllDiag | setLog | setLicence => true
  | _ => false
  end.

Definition take_if (key : string) (now : Z) (s : Sessions) : Sessions * option Pending := if decide (key = "") then (s, None) else Take key now s.

(** [flashFor]. *)
Definition flashFor (q : request) (now : Z) (s : Sessions) : Sessions * option Pending :=
  let '(s, p) := take_if (form_get (u_query (q_uri q)) "flash") now s in
  (s, p ← p; if decide (p_Method p = "FLASH") then Some p else None).

(** [redirectToCode]. *)
Definition stash_code (id : string) (f : form) (e : env) (s : Sessions) : Sessions := fst (Stash "CODE" (mkUri [id] []) f (now e) (draw1 e) s).

Definition stash_flash (f : form) (e : env) (s : Sessions) : Sessions := fst (Stash "FLASH" (mkUri [] []) f (now e) (draw1 e) s).

(** [codePage]'s own reading of its key. *)
Definition code_taken (q : request) (e : env) (s : Sessions) : Sessions * option Pending :=
  let '(s, p) := take_if (form_get (u_query (q_uri q)) "k") (now e) s in
  (s, p ← p; if decide (p_Method p = "CODE" /\ p_Path p = mkUri [path_id q] []) then Some p else None).

(** A handler that runs, as the session store sees it. *)
Definition handle (h : handler) (q : request) (e : env) (s : Sessions) : Sessions * answer :=
  if decide (h = codePage) then
    if found e then let '(s, p) := code_taken q e s in (s, Ran h q p) else (s, Ran h q None)
  else if reads_flash h then let '(s, p) := flashFor q (now e) s in (s, Ran h q p)
  else match leaves e with
       | Some (id, f) =>
           if leaves_code h then (stash_code id f e s, Ran h q None)
           else if leaves_flash h then (stash_flash f e s, Ran h q None)
           else (s, Ran h q None)
       | None => if rerenders_flash h then let '(s, p) := flashFor q (now e) s in (s, Ran h q p) else (s, Ran h q None)
       end.

Definition is_get (q : request) : bool := bool_decide (q_method q = "GET").
Definition broken (q : request) : bool := match q_body q with Broken => true | _ => false end.

(** What a stash keeps of the body: r.Form, or the values alone of a multipart one. *)
Definition stashed_form (q : request) : form := match q_body q with Multipart f _ => f | _ => parsed_form q end.

Definition auth (h : handler) (replayed : bool) (q : request) (e : env) (s : Sessions) : Sessions * answer :=
  let '(s, c) := Check (q_cookie q) (now e) s in
  match c with
  | None =>
      if is_get q then (s, ToLogin (q_uri q))
      else if broken q then (s, BadForm)
      else let '(s, key) := Stash (q_method q) (q_uri q) (stashed_form q) (now e) (draw1 e) s in (s, ShowLogin key "")
  | Some _ =>
      if negb (is_get q) && negb replayed then
        if broken q then (s, BadForm)
        else
          let '(s, ok) := CSRFMatches (q_cookie q) (FormValue q "csrf") (now e) s in
          if ok then handle h (parse q) e s else (s, Forbidden)
      else handle h q e s
  end.

Definition loginPage (q : request) (e : env) (s : Sessions) : Sessions * answer :=
  let '(s, c) := Check (q_cookie q) (now e) s in
  match c with Some _ => (s, Home) | None => (s, ShowLogin "" (form_get (u_query (q_uri q)) "next")) end.

Definition logout (q : request) (s : Sessions) : Sessions * answer := (Logout (q_cookie q) s, LoggedOut).

(** Where a login goes on to. *)
Definition safe_next (next : string) : string :=
  if bool_decide (next = "") || negb (has_prefix "/" next) || has_prefix "//" next then "/clients" else next.

(** The form a stash gives back, submitted again under the new session. *)
Definition replay_request (id : string) (p : Pending) : request := mkRequest (p_Method p) (p_Path p) id (Plain (p_Form p)) false.

(** The replay draws its own keys. *)
Definition drawn (e : env) : env := mkEnv (now e) (draw3 e) (draw2 e) (draw3 e) (leaves e) (found e).

(** The mux, [replayed] when a login submits a stashed form again: its target is
    never the login itself ([Restarts] marks that branch, which no run reaches). *)
Definition replay (id : string) (p : Pending) (e : env) (s : Sessions) : Sessions * answer :=
  let q := replay_request id p in
  match dispatch (q_method q) (q_uri q) with
  | Some (Guarded h) => auth h true q e s
  | Some Static => (s, Asset)
  | Some LoginPage => loginPage q e s
  | Some LogoutPost => logout q s
  | Some Moved => (s, MovedTo)
  | Some LoginPost => (s, Restarts)
  | None => (s, NotMatched)
  end.

Definition creds (q : request) : string * string := (to_string (TrimSpace (T (form_get (plain_form q) "username"))), form_get (plain_form q) "password").

Definition login (q : request) (e : env) (s : Sessions) : Sessions * answer :=
  let f := plain_form q in
  let '(s, r) := Login (fst (creds q)) (snd (creds q)) (now e) (draw1 e) (draw2 e) s in
  match r with
  | None => (s, ShowLogin (form_get f "resume") (form_get f "next"))
  | Some id =>
      let '(s, p) := take_if (form_get f "resume") (now e) s in
      match p with
      | Some p => let '(s, a) := replay id p (drawn e) s in (s, SignedIn id a)
      | None => (s, SignedIn id (To (safe_next (form_get f "next"))))
      end
  end.

Definition serve (q : request) (e : env) (s : Sessions) : Sessions * answer :=
  match dispatch (q_method q) (q_uri q) with
  | Some (Guarded h) => auth h false q e s
  | Some Static => (s, Asset)
  | Some LoginPage => loginPage q e s
  | Some LoginPost => login q e s
  | Some LogoutPost => logout q s
  | Some Moved => (s, MovedTo)
  | None => (s, NotMatched)
  end.

(** ** Histories *)

Definition entry : Type := request * env * answer.

Inductive runs (pw : string) : list entry -> Sessions -> Prop :=
  | runs_start : runs pw [] (NewSessions pw)
  | runs_serve tr s q e s' a : runs pw tr s -> serve q e s = (s', a) -> runs pw (tr ++ [(q, e, a)]) s'.

(** The entry is a login that opened session [id]. *)
Definition opens (id : string) (x : entry) : Prop := exists a, snd x = SignedIn id a.
(** It came with the cookie of the session, or opened it. *)
Definition uses (id : string) (x : entry) : Prop := q_cookie (fst (fst x)) = id \/ opens id x.
Definition closes (id : string) (x : entry) : Prop := snd x = LoggedOut /\ q_cookie (fst (fst x)) = id.
(** It signed in and gave back the form stashed under [key]. *)
Definition resumes (key : string) (x : entry) : Prop := key <> "" /\ (exists id, opens id x) /\ form_get (plain_form (fst (fst x))) "resume" = key.

Definition right_creds (pw : string) (q : request) : Prop := pw <> "" /\ creds q = (Username, pw).

(** In the history [tr] the operator signed in and got session [id] with the form
    token [tok], has not signed out of it since, and last used it [ago]. *)
Definition signed_in (pw : string) (tr : list entry) (id tok : string) (last : Z) : Prop :=
  exists pre q e a post, tr = pre ++ (q, e, SignedIn id a) :: post /\ right_creds pw q /\ draw2 e = tok
    /\ Forall (fun x => ~ closes id x) post
    /\ exists x, x ∈ (q, e, SignedIn id a) :: post /\ uses id x /\ now (snd (fst x)) = last.

(** In [tr] the request [q] was submitted at [at_] without a session, was kept under
    [key], and has not been given back since. *)
Definition kept_form (tr : list entry) (key : string) (q : request) (at_ : Z) : Prop :=
  exists pre e post, tr = pre ++ (q, e, ShowLogin key "") :: post /\ now e = at_ /\ draw1 e = key
    /\ (exists h, dispatch (q_method q) (q_uri q) = Some (Guarded h)) /\ q_method q <> "GET"
    /\ Forall (fun x => ~ resumes key x) post.

Definition sess_ok (pw : string) (tr : list entry) (id : string) (se : session) : Prop :=
  exists last, signed_in pw tr id (csrf se) last /\ expires se = last + SessionLife.

Definition pend_ok (tr : list entry) (key : string) (p : Pending) : Prop :=
  p_Method p = "FLASH" \/ p_Method p = "CODE"
  \/ exists q at_, kept_form tr key q at_ /\ p_Method p = q_method q /\ p_Path p = q_uri q /\ p_Form p = stashed_form q
     /\ p_expires p = at_ + PendingLife.

Record inv (pw : string) (tr : list entry) (s : Sessions) : Prop := {
  inv_password : password s = pw;
  inv_sessions : forall id se, sessions s !! id = Some se -> sess_ok pw tr id se;
  inv_pending : forall key p, pending s !! key = Some p -> pend_ok tr key p;
}.

(** ** What one request does to the store *)

Definition one_time (p : Pending) : Prop := p_Method p = "FLASH" \/ p_Method p = "CODE".

(** Nothing was added but what a page left for the next one. *)
Record less (s s' : Sessions) : Prop := {
  less_password : password s' = password s;
  less_sessions : forall id se, sessions s' !! id = Some se -> sessions s !! id = Some se;
  less_pending : forall key p, pending s' !! key = Some p -> pending s !! key = Some p \/ one_time p;
}.

Lemma less_refl s : less s s.
Proof. split; auto. Qed.

Lemma less_trans s1 s2 s3 : less s1 s2 -> less s2 s3 -> less s1 s3.
Proof.
  intros [P1 S1 Q1] [P2 S2 Q2]. split; [congruence|auto|]. intros key p [Hp|Hp]%Q2; [|by right]. by apply Q1.
Qed.

Lemma less_sweep now s : less s (sweepLocked now s).
Proof.
  split; [done| |]; cbn.
  - intros id se [He _]%map_lookup_filter_Some. done.
  - intros key p [He _]%map_lookup_filter_Some. by left.
Qed.

Lemma less_Logout id s : less s (Logout id s).
Proof. split; [done| |by left]. cbn. intros id' se [_ He]%lookup_delete_Some. done. Qed.

Lemma less_stash m u f now key s : m = "FLASH" \/ m = "CODE" -> less s (fst (Stash m u f now key s)).
Proof.
  intros Hm. unfold Stash. cbn. split; [done| |]; cbn.
  - apply (less_sweep now s).
  - intros k p [[<- <-]|[_ Hp]]%lookup_insert_Some; [by right|]. by apply (less_sweep now s).
Qed.

Lemma Take_fields key now s : fst (Take key now s) = mkSessions (password s) (sessions s) (delete key (pending s)).
Proof. unfold Take. destruct (pending s !! key) as [p|]; [|done]. by destruct (after _ _). Qed.

Lemma less_take_if key now s : less s (fst (take_if key now s)).
Proof.
  unfold take_if. destruct (decide _); [apply less_refl|]. rewrite Take_fields. split; [done|by cbn|].
  cbn. intros k p [_ Hp]%lookup_delete_Some. by left.
Qed.

Lemma less_flashFor q now s : less s (fst (flashFor q now s)).
Proof. unfold flashFor. pose proof (less_take_if (form_get (u_query (q_uri q)) "flash") now s). by destruct (take_if _ _ _). Qed.

Lemma less_code q e s : less s (fst (code_taken q e s)).
Proof. unfold code_taken. pose proof (less_take_if (form_get (u_query (q_uri q)) "k") (now e) s). by destruct (take_if _ _ _). Qed.

Ltac ran := do 2 eexists; split; [reflexivity|]; first [apply less_refl | assumption | match goal with H : forall _ _ _, _ -> less _ _ |- _ => apply H; by auto end].

Lemma handle_spec h q e s : exists s' t, handle h q e s = (s', Ran h q t) /\ less s s'.
Proof.
  pose proof (less_flashFor q (now e) s) as Hf. pose proof (less_code q e s) as Hc.
  assert (forall m u f, m = "FLASH" \/ m = "CODE" -> less s (fst (Stash m u f (now e) (draw1 e) s))) as Hs by (intros; by apply less_stash).
  unfold handle. destruct (flashFor q (now e) s) as [s1 p1], (code_taken q e s) as [s2 p2]. cbn [fst] in *.
  destruct (decide (h = codePage)); [destruct (found e); ran|]. destruct (reads_flash h); [ran|].
  destruct (leaves e) as [[id f]|]; [destruct (leaves_code h); [ran|]; destruct (leaves_flash h); ran|].
  destruct (rerenders_flash h); ran.
Qed.

Definition refreshed (id tok : string) (now : Z) (s : Sessions) : Sessions :=
  mkSessions (password s) (<[id := mkSession tok (now + SessionLife)]> (sessions s)) (pending s).

Lemma Check_cases id now s :
  (exists tok ex, sessions s !! id = Some (mkSession tok ex) /\ now < ex /\ Check id now s = (refreshed id tok now s, Some tok))
  \/ Check id now s = (Logout id s, None).
Proof.
  unfold Check. destruct (sessions s !! id) as [[tok ex]|]; [|by right]. unfold after. cbn.
  destruct (Z.ltb_spec now ex); [|by right]. left. exists tok, ex. done.
Qed.

Lemma Check_refreshed id tok now s : Check id now (refreshed id tok now s) = (refreshed id tok now s, Some tok).
Proof.
  unfold Check, refreshed. cbn. rewrite lookup_insert_eq. cbn. unfold after.
  rewrite (proj2 (Z.ltb_lt now (now + SessionLife))) by (unfold SessionLife, ns_hour, ns_minute, ns_second; lia).
  by rewrite insert_insert_eq.
Qed.

(** The front door, on every branch. *)
Inductive admitted (h : handler) (replayed : bool) (q : request) (e : env) (s : Sessions) : Sessions * answer -> Prop :=
  | ad_login : less s (Logout (q_cookie q) s) -> is_get q = true -> admitted h replayed q e s (Logout (q_cookie q) s, ToLogin (q_uri q))
  | ad_bad s' : less s s' \/ (exists tok ex, sessions s !! q_cookie q = Some (mkSession tok ex) /\ s' = refreshed (q_cookie q) tok (now e) s) ->
      admitted h replayed q e s (s', BadForm)
  | ad_stash : is_get q = false ->
      admitted h replayed q e s (fst (Stash (q_method q) (q_uri q) (stashed_form q) (now e) (draw1 e) (Logout (q_cookie q) s)), ShowLogin (draw1 e) "")
  | ad_forbidden tok ex : sessions s !! q_cookie q = Some (mkSession tok ex) ->
      admitted h replayed q e s (refreshed (q_cookie q) tok (now e) s, Forbidden)
  | ad_ran tok ex s' q' t : sessions s !! q_cookie q = Some (mkSession tok ex) -> now e < ex ->
      less (refreshed (q_cookie q) tok (now e) s) s' ->
      ((is_get q = true \/ replayed = true) /\ q' = q) \/ (q' = parse q /\ FormValue q "csrf" = tok /\ tok <> "") ->
      admitted h replayed q e s (s', Ran h q' t).

Lemma auth_admitted h replayed q e s : admitted h replayed q e s (auth h replayed q e s).
Proof.
  unfold auth. destruct (Check_cases (q_cookie q) (now e) s) as [(tok&ex&Hs&Hex&->)| ->].
  - destruct (is_get q) eqn:Hg; cbn [negb andb].
    { destruct (handle_spec h q e (refreshed (q_cookie q) tok (now e) s)) as (s'&t&->&Hl). eapply ad_ran; eauto. }
    destruct replayed; cbn [negb andb].
    { destruct (handle_spec h q e (refreshed (q_cookie q) tok (now e) s)) as (s'&t&->&Hl). eapply ad_ran; eauto. }
    destruct (broken q); [apply ad_bad; right; eauto|]. unfold CSRFMatches. rewrite Check_refreshed.
    destruct (decide (FormValue q "csrf" = "")) as [E|E]; [rewrite bool_decide_eq_true_2 by done; cbn; by eapply ad_forbidden|].
    rewrite (bool_decide_eq_false_2 (FormValue q "csrf" = "")) by done. cbn [negb andb].
    destruct (decide (tok = FormValue q "csrf")) as [Ht|Ht];
      [rewrite bool_decide_eq_true_2 by done|rewrite bool_decide_eq_false_2 by done; by eapply ad_forbidden].
    destruct (handle_spec h (parse q) e (refreshed (q_cookie q) tok (now e) s)) as (s'&t&->&Hl).
    eapply ad_ran; [done|done|done|]. right. rewrite Ht. auto.
  - pose proof (less_Logout (q_cookie q) s). destruct (is_get q) eqn:Hg; [by apply ad_login|].
    destruct (broken q); [by apply ad_bad; left|]. apply (ad_stash h replayed q e s Hg).
Qed.

Lemma auth_replayed h q e s tok ex : sessions s !! q_cookie q = Some (mkSession tok ex) -> now e < ex ->
  exists s' t, auth h true q e s = (s', Ran h q t) /\ less (refreshed (q_cookie q) tok (now e) s) s'.
Proof.
  intros Hs Hex. unfold auth, Check. rewrite Hs. cbn. unfold after. rewrite (proj2 (Z.ltb_lt _ _)) by done.
  rewrite andb_false_r. apply handle_spec.
Qed.

Lemma dispatch_method m u t : dispatch m u = Some t -> m = "GET" \/ m = "HEAD" \/ m = "POST".
Proof.
  unfold dispatch. intros H.
  destruct (decide (m = "GET")) as [|Hg]; [by left|]. destruct (decide (m = "HEAD")) as [|Hh]; [by right; left|].
  destruct (decide (m = "POST")) as [|Hp]; [by right; right|]. exfalso.
  assert (method_fits "GET" m = false) as Eg.
  { unfold method_fits. rewrite (bool_decide_eq_false_2 ("GET" = m)), (bool_decide_eq_false_2 (m = "HEAD")) by congruence. by rewrite andb_false_r. }
  assert (method_fits "POST" m = false) as Ep by (unfold method_fits; rewrite (bool_decide_eq_false_2 ("POST" = m)) by congruence; done).
  assert (filter (fun r => method_fits (fst (fst r)) m && segs_fit (snd (fst r)) (u_segs u)) routes = []) as En.
  { assert (forallb (fun r => bool_decide (fst (fst r) = "GET") || bool_decide (fst (fst r) = "POST")) routes = true) as Hr by (vm_compute; done).
    clear H. induction routes as [|r rs IH]; [done|]. cbn [forallb] in Hr. apply andb_prop in Hr as [[Er|Er]%orb_prop Hr];
      apply bool_decide_eq_true_1 in Er; idtac; (rewrite filter_cons_False; [exact (IH Hr)|]); rewrite Er, ?Eg, ?Ep; exact (fun H => H). }
  rewrite Eg, En in H. by destruct (is_static _).
Qed.

(** What an entry [x] may have changed. *)
Record effect (pw : string) (s : Sessions) (x : entry) (s' : Sessions) : Prop := {
  ef_password : password s' = password s;
  ef_sessions : forall id se, sessions s' !! id = Some se ->
    (~ closes id x /\ (sessions s !! id = Some se
        \/ exists ex, sessions s !! id = Some (mkSession (csrf se) ex) /\ uses id x /\ expires se = now (snd (fst x)) + SessionLife))
    \/ (opens id x /\ right_creds pw (fst (fst x)) /\ csrf se = draw2 (snd (fst x)) /\ expires se = now (snd (fst x)) + SessionLife);
  ef_pending : forall key p, pending s' !! key = Some p ->
    (~ resumes key x /\ pending s !! key = Some p) \/ one_time p
    \/ (let q := fst (fst x) in snd x = ShowLogin key "" /\ draw1 (snd (fst x)) = key /\ q_method q <> "GET"
        /\ (exists h, dispatch (q_method q) (q_uri q) = Some (Guarded h))
        /\ p = mkPending (q_method q) (q_uri q) (stashed_form q) (now (snd (fst x)) + PendingLife));
}.

Lemma Forall_snoc {A} (P : A -> Prop) l x : Forall P l -> P x -> Forall P (l ++ [x]).
Proof. intros. apply Forall_app. auto. Qed.

Lemma signed_in_snoc pw tr x id tok last : ~ closes id x -> signed_in pw tr id tok last -> signed_in pw (tr ++ [x]) id tok last.
Proof.
  intros Hc (pre&q&e&a&post& ->&Hr&Ht&Hf&y&Hy&Hu&Hn). exists pre, q, e, a, (post ++ [x]).
  split; [by rewrite <- app_assoc|]. do 2 (split; [done|]). split; [by apply Forall_snoc|]. exists y. split; [|done].
  rewrite app_comm_cons. apply elem_of_app. by left.
Qed.

Lemma signed_in_used pw tr x id tok last : ~ closes id x -> uses id x -> signed_in pw tr id tok last ->
  signed_in pw (tr ++ [x]) id tok (now (snd (fst x))).
Proof.
  intros Hc Hx (pre&q&e&a&post& ->&Hr&Ht&Hf&_). exists pre, q, e, a, (post ++ [x]).
  split; [by rewrite <- app_assoc|]. do 2 (split; [done|]). split; [by apply Forall_snoc|]. exists x. split; [|done].
  rewrite app_comm_cons. apply elem_of_app. right. by apply list_elem_of_singleton.
Qed.

Lemma pend_ok_snoc tr x key p : ~ resumes key x -> pend_ok tr key p -> pend_ok (tr ++ [x]) key p.
Proof.
  intros Hx [?|[?|(q&at_&(pre&e&post& ->&Hn&Hd&Hg&Hm&Hf)&Hp)]]; [by left|by right; left|]. right; right. exists q, at_.
  split; [|done]. exists pre, e, (post ++ [x]). split; [by rewrite <- app_assoc|]. repeat split; [done|done|done|done|by apply Forall_snoc].
Qed.

Lemma inv_effect pw tr s x s' : inv pw tr s -> effect pw s x s' -> inv pw (tr ++ [x]) s'.
Proof.
  intros [Ip Is Iq] [Ep Es Eq]. split; [congruence| |].
  - intros id se [[Hc [Ho|(ex&Ho&Hu&He)]]|((a&Ha)&Hr&Ht&He)]%Es.
    + destruct (Is _ _ Ho) as (last&Hl&He). exists last. split; [by apply signed_in_snoc|done].
    + destruct (Is _ _ Ho) as (last&Hl&_). eexists. split; [by eapply signed_in_used|done].
    + destruct x as [[q e] a0]. cbn [fst snd] in *. subst a0. exists (now e). split; [|done].
      exists tr, q, e, a, []. do 3 (split; [done|]). split; [constructor|].
      exists (q, e, SignedIn id a). split; [by apply list_elem_of_singleton|]. split; [|done]. right. by exists a.
  - intros key p [[Hr Ho]|[Ho|(Ha&Hd&Hm&Hg& ->)]]%Eq.
    + by apply pend_ok_snoc, Iq.
    + destruct Ho; [by left|by right; left].
    + destruct x as [[q e] a0]. cbn [fst snd] in *. subst a0. right; right. exists q, (now e). split; [|done].
      exists tr, e, []. do 2 (split; [done|]). do 3 (split; [done|]). constructor.
Qed.

(** An entry that neither signs in nor out. *)
Definition quiet (x : entry) : Prop := snd x <> LoggedOut /\ forall id a, snd x <> SignedIn id a.

Lemma quiet_closes id x : quiet x -> ~ closes id x.
Proof. intros [H _] [E _]. done. Qed.

Lemma quiet_resumes key x : quiet x -> ~ resumes key x.
Proof. intros [_ H] (_&(id&a&E)&_). by eapply H. Qed.

Lemma effect_less pw s x s' : quiet x -> less s s' -> effect pw s x s'.
Proof.
  intros Hq [Hp Hs Hk]. split; [done| |].
  - intros id se H%Hs. left. split; [by apply quiet_closes|by left].
  - intros key p [H|H]%Hk; [left; split; [by apply quiet_resumes|done]|by right; left].
Qed.

Lemma effect_refreshed pw s x s' tok ex : quiet x -> let q := fst (fst x) in
  sessions s !! q_cookie q = Some (mkSession tok ex) -> less (refreshed (q_cookie q) tok (now (snd (fst x))) s) s' -> effect pw s x s'.
Proof.
  intros Hq q Hs [Lp Ls Lk]. split; [done| |].
  - intros id se H%Ls. cbn in H. left. split; [by apply quiet_closes|].
    apply lookup_insert_Some in H as [[<- <-]|[_ H]]; [|by left]. right. exists ex. split; [done|]. split; [by left|done].
  - intros key p [H|H]%Lk; [left; split; [by apply quiet_resumes|done]|by right; left].
Qed.

Lemma effect_auth pw h q e s s' a : dispatch (q_method q) (q_uri q) = Some (Guarded h) -> auth h false q e s = (s', a) ->
  effect pw s (q, e, a) s'.
Proof.
  intros Hd Ha. pose proof (auth_admitted h false q e s) as H. rewrite Ha in H. inversion H as [Hl Hg|s0 Hb|Hg|tok ex Hs|tok ex s0 q' t Hs Hex Hl Hor]; subst; clear H.
  - apply effect_less; [done|apply less_Logout].
  - destruct Hb as [Hl|(tok&ex&Hs& ->)]; [by apply effect_less|]. eapply effect_refreshed; [done|done|apply less_refl].
  - split; [done| |]; cbn.
    + intros id se [Hs _]%map_lookup_filter_Some. left. split; [by intros [? _]|]. left. by apply (less_Logout (q_cookie q) s).
    + intros key p [[<- <-]|[_ [Hp _]%map_lookup_filter_Some]]%lookup_insert_Some.
      * right; right. split; [done|]. split; [done|]. split; [|by eauto]. intros E. unfold is_get in Hg. by rewrite bool_decide_eq_true_2 in Hg.
      * left. split; [|done]. intros (_&(id&b&?)&_). done.
  - eapply effect_refreshed; [done|done|apply less_refl].
  - eapply effect_refreshed; [done|done|done].
Qed.

Lemma Login_cases u p now id tok s : 
  (Login u p now id tok s = (s, None) /\ ~ (password s <> "" /\ u = Username /\ p = password s))
  \/ (password s <> "" /\ u = Username /\ p = password s /\ exists s', Login u p now id tok s = (s', Some id)
      /\ s' = refreshed id tok now (sweepLocked now s)).
Proof.
  unfold Login. destruct (decide (u = Username)) as [Hu|Hu];
    [rewrite bool_decide_eq_true_2 by done|rewrite bool_decide_eq_false_2 by done; left; split; [done|tauto]].
  destruct (decide (password s = "")) as [He|He];
    [rewrite bool_decide_eq_true_2 by done; left; split; [done|tauto]|rewrite (bool_decide_eq_false_2 (password s = "")) by done].
  destruct (decide (password s = p)) as [Hp|Hp];
    [rewrite bool_decide_eq_true_2 by done|rewrite bool_decide_eq_false_2 by done; left; split; [done|]].
  - right. do 3 (split; [done|]). eexists. split; reflexivity.
  - intros (_&_&E). by apply Hp.
Qed.

(** A stashed form is only ever given back to the handler it was meant for. *)
Lemma replay_cases tr id p e s tok ex key : pend_ok tr key p -> sessions s !! id = Some (mkSession tok ex) -> now e < ex ->
  (one_time p /\ replay id p e s = (s, NotMatched))
  \/ exists h s' t, dispatch (p_Method p) (p_Path p) = Some (Guarded h) /\ ~ one_time p
     /\ replay id p e s = (s', Ran h (replay_request id p) t) /\ less (refreshed id tok (now e) s) s'.
Proof.
  intros Hp Hs Hex. unfold replay. cbn [q_method q_uri replay_request].
  assert (forall m, p_Method p = m -> m <> "GET" -> m <> "HEAD" -> m <> "POST" -> dispatch (p_Method p) (p_Path p) = None) as Hn.
  { intros m E Hg Hh Hpo. destruct (dispatch _ _) as [t|] eqn:Ed; [|done]. destruct (dispatch_method _ _ _ Ed) as [?|[?|?]]; congruence. }
  destruct Hp as [E|[E|(q&at_&(pre&e0&post&_&_&_&(h&Hd)&_&_)&Em&Eu&_)]].
  - left. split; [by left|]. by rewrite (Hn "FLASH").
  - left. split; [by right|]. by rewrite (Hn "CODE").
  - right. rewrite Em, Eu, Hd. destruct (auth_replayed h (replay_request id p) e s tok ex Hs Hex) as (s'&t&Ha&Hl).
    exists h, s', t. split; [done|]. split; [|done].
    intros [E|E]; (destruct (dispatch_method _ _ _ Hd) as [?|[?|?]]; congruence).
Qed.

Lemma take_if_spec key now s : let '(s', p) := take_if key now s in
  password s' = password s /\ sessions s' = sessions s
  /\ (forall k x, pending s' !! k = Some x -> pending s !! k = Some x /\ (key = "" \/ k <> key))
  /\ (forall x, p = Some x <-> key <> "" /\ pending s !! key = Some x /\ now < p_expires x).
Proof.
  unfold take_if. destruct (decide (key = "")) as [->|Hk].
  { split; [done|]. split; [done|]. split; [by auto|]. intros x. split; [done|]. by intros []. }
  assert (forall k x, delete key (pending s) !! k = Some x -> pending s !! k = Some x /\ (key = "" \/ k <> key)) as Hd
    by (intros k x [Hne Hx]%lookup_delete_Some; auto).
  unfold Take, after. destruct (pending s !! key) as [y|] eqn:E.
  - destruct (Z.ltb_spec now (p_expires y)); (split; [done|]); (split; [done|]); (split; [done|]); intros x; split.
    + intros [= ->]. done.
    + intros (_&[= ->]&_). done.
    + done.
    + intros (_&[= ->]&?). lia.
  - split; [done|]. split; [done|]. split; [done|]. intros x. split; [done|]. by intros (_&?&_).
Qed.

Lemma effect_login pw tr q e s s' a : inv pw tr s -> login q e s = (s', a) -> effect pw s (q, e, a) s'.
Proof.
  intros [Ip _ Iq]. unfold login.
  destruct (Login_cases (fst (creds q)) (snd (creds q)) (now e) (draw1 e) (draw2 e) s) as [[-> _]|(Hne&Hu&Hp&s1&->&E1)].
  { intros [= <- <-]. apply effect_less; [done|apply less_refl]. }
  assert (right_creds pw q) as Hr by (split; [congruence|]; rewrite (surjective_pairing (creds q)); congruence).
  pose proof (take_if_spec (form_get (plain_form q) "resume") (now e) s1) as Ht.
  destruct (take_if _ _ _) as [s2 p]. destruct Ht as (Pp&Ps&Pk&Pt).
  assert (sessions s2 = <[draw1 e := mkSession (draw2 e) (now e + SessionLife)]> (sessions (sweepLocked (now e) s))) as E2 by (by rewrite Ps, E1).
  (* what follows from the store the login leaves *)
  assert (forall s' b, less s2 s' -> effect pw s (q, e, SignedIn (draw1 e) b) s') as Hdone.
  { intros s3 b [Lp Ls Lk]. split; [rewrite Lp, Pp, E1; done| |].
    - intros id se H%Ls. rewrite E2 in H. apply lookup_insert_Some in H as [[<- <-]|[_ [H _]%map_lookup_filter_Some]].
      + right. split; [by exists b|done].
      + left. split; [by intros [? _]|by left].
    - intros k x [H|H]%Lk; [|by right; left]. apply Pk in H as [H Hk]. left. split.
      + intros (Hn&_&E). cbn in E. destruct Hk; congruence.
      + rewrite E1 in H. cbn in H. by apply map_lookup_filter_Some in H as [H _]. }
  destruct p as [p|].
  - destruct (proj1 (Pt p) eq_refl) as (_&Hin&_). rewrite E1 in Hin. cbn in Hin. apply map_lookup_filter_Some in Hin as [Hin _].
    destruct (replay_cases tr (draw1 e) p (drawn e) s2 (draw2 e) (now e + SessionLife) _ (Iq _ _ Hin)) as [[_ ->]|(h&s3&t&_&_&->&Hl)].
    + rewrite E2. apply lookup_insert_eq.
    + unfold SessionLife, ns_hour, ns_minute, ns_second. cbn. lia.
    + intros [= <- <-]. apply Hdone, less_refl.
    + intros [= <- <-]. apply Hdone. destruct Hl as [Lp Ls Lk]. split; [done| |done].
      intros id se H%Ls. cbn in H. rewrite E2, insert_insert_eq in H. by rewrite E2.
  - intros [= <- <-]. apply Hdone, less_refl.
Qed.

Lemma effect_serve pw tr q e s s' a : inv pw tr s -> serve q e s = (s', a) -> effect pw s (q, e, a) s'.
Proof.
  intros Hi. unfold serve. destruct (dispatch _ _) as [[| | | | |h]|] eqn:Hd.
  - intros [= <- <-]. apply effect_less; [done|apply less_refl].
  - unfold loginPage. destruct (Check_cases (q_cookie q) (now e) s) as [(tok&ex&Hs&Hex&->)| ->].
    + intros [= <- <-]. eapply effect_refreshed; [done|done|apply less_refl].
    + intros [= <- <-]. apply effect_less; [done|apply less_Logout].
  - by apply effect_login with tr.
  - intros [= <- <-]. split; [done| |].
    + intros id se H. cbn in H. apply lookup_delete_Some in H as [Hne H]. left. split; [|by left]. by intros [_ E].
    + intros key p H. left. split; [|done]. by intros (_&(id&b&?)&_).
  - intros [= <- <-]. apply effect_less; [done|apply less_refl].
  - by apply effect_auth.
  - intros [= <- <-]. apply effect_less; [done|apply less_refl].
Qed.

Lemma inv_runs pw tr s : runs pw tr s -> inv pw tr s.
Proof.
  induction 1 as [|tr s q e s' a _ IH Hs].
  - split; [done| |]; cbn; intros ? ?; by rewrite lookup_empty.
  - eapply inv_effect; [done|]. by eapply effect_serve.
Qed.

Lemma login_not_ran q e s s' h q' t : login q e s <> (s', Ran h q' t).
Proof.
  unfold login. destruct (Login _ _ _ _ _ _) as [s1 [id|]]; [|done]. destruct (take_if _ _ _) as [s2 [p|]]; [|done].
  by destruct (replay _ _ _ _).
Qed.

(** A login that runs a handler gives back a form that was kept. *)
Lemma login_ran pw tr q e s s' id h q' t : inv pw tr s -> login q e s = (s', SignedIn id (Ran h q' t)) ->
  right_creds pw q /\ exists qs at_, kept_form tr (form_get (plain_form q) "resume") qs at_ /\ now e < at_ + PendingLife
    /\ q_method q' = q_method qs /\ q_uri q' = q_uri qs /\ q_body q' = Plain (stashed_form qs).
Proof.
  intros [Ip _ Iq]. unfold login.
  destruct (Login_cases (fst (creds q)) (snd (creds q)) (now e) (draw1 e) (draw2 e) s) as [[-> _]|(Hne&Hu&Hp&s1&->&E1)]; [done|].
  pose proof (take_if_spec (form_get (plain_form q) "resume") (now e) s1) as Ht.
  destruct (take_if _ _ _) as [s2 [p|]]; [|done]. destruct Ht as (_&Ps&_&Pt). destruct (proj1 (Pt p) eq_refl) as (_&Hin&Hlt).
  rewrite E1 in Hin. cbn in Hin. apply map_lookup_filter_Some in Hin as [Hin _]. pose proof (Iq _ _ Hin) as Hok.
  destruct (replay_cases tr (draw1 e) p (drawn e) s2 (draw2 e) (now e + SessionLife) _ Hok) as [[_ ->]|(h1&s3&t1&_&Hnot&->&_)];
    [by rewrite Ps, E1; apply lookup_insert_eq|unfold SessionLife, ns_hour, ns_minute, ns_second; cbn; lia|done|].
  intros [= _ _ _ <- _]. split; [split; [congruence|]; rewrite (surjective_pairing (creds q)); congruence|].
  destruct Hok as [?|[?|(qs&at_&Hk&Em&Eu&Ef&Ee)]]; [destruct Hnot; by left|destruct Hnot; by right|].
  exists qs, at_. split; [done|]. split; [lia|]. cbn. by rewrite Em, Eu, Ef.
Qed.

(** ** What may run *)

(** C18: Nothing an operator's browser can ask for runs without the operator: a
    page or a write is served directly only under a session the right user name
    and password opened earlier in the history, that has not been signed out of
    and was last used less than twelve hours ago, and a write only when its form
    carries that session's token; a form served from inside a login was submitted
    earlier, less than fifteen minutes ago, under the key the login names, by a
    request of the same method, path and values, and no login since has given it
    back. *)
Theorem nothing_runs_without_the_operator pw tr s q e s' a h q' t : runs pw tr s -> serve q e s = (s', a) ->
  (a = Ran h q' t ->
     exists tok last, signed_in pw tr (q_cookie q) tok last /\ now e < last + SessionLife
       /\ (q_method q <> "GET" -> tok <> "" /\ FormValue q "csrf" = tok))
  /\ (forall id, a = SignedIn id (Ran h q' t) ->
     right_creds pw q /\ exists qs at_, kept_form tr (form_get (plain_form q) "resume") qs at_ /\ now e < at_ + PendingLife
       /\ q_method q' = q_method qs /\ q_uri q' = q_uri qs /\ q_body q' = Plain (stashed_form qs)).
Proof.
  intros Hr Hs. pose proof (inv_runs _ _ _ Hr) as Hi. revert Hs. unfold serve.
  destruct (dispatch _ _) as [[| | | | |h0]|] eqn:Hd; try by intros [= <- <-].
  - unfold loginPage. destruct (Check _ _ _) as [? []]; by intros [= <- <-].
  - intros Hl. split; [intros ->; by apply login_not_ran in Hl|]. intros id ->. by eapply login_ran.
  - pose proof (auth_admitted h0 false q e s) as Had. intros Ha. rewrite Ha in Had. split; [|by intros id ->; inversion Had].
    intros ->. inversion Had as [| | | |tok ex s0 q0 t0 Hin Hex Hl Hor]; subst. destruct (inv_sessions _ _ _ Hi _ _ Hin) as (last&Hsig&He).
    cbn in He, Hsig. exists tok, last. split; [done|]. split; [lia|]. intros Hg. destruct Hor as [[[Hg'|?] _]|(_&?&?)]; [|done|done].
    unfold is_get in Hg'. by apply bool_decide_eq_true_1 in Hg'.
Qed.

(** ** A form kept until its login *)

(** The entry neither draws nor names [key], and comes before [by_]. *)
Definition leaves_alone (key : string) (by_ : Z) (q : request) (e : env) : Prop :=
  form_get (plain_form q) "resume" = "" /\ form_get (u_query (q_uri q)) "flash" <> key /\ form_get (u_query (q_uri q)) "k" <> key
  /\ draw1 e <> key /\ now e < by_.

Definition keeps (key : string) (p : Pending) (s s' : Sessions) : Prop := pending s !! key = Some p -> pending s' !! key = Some p.

Lemma keeps_sweep key p now s : now < p_expires p -> keeps key p s (sweepLocked now s).
Proof.
  intros Hn Hs. cbn. apply map_lookup_filter_Some. split; [done|]. cbn. unfold after. by apply Z.ltb_lt.
Qed.

Lemma keeps_stash key p m u f now k s : now < p_expires p -> k <> key -> keeps key p s (fst (Stash m u f now k s)).
Proof. intros Hn Hk Hs. unfold Stash. cbn. rewrite lookup_insert_ne by done. by apply (keeps_sweep key p now s). Qed.

Lemma keeps_take key p k now s : k <> key -> keeps key p s (fst (take_if k now s)).
Proof. intros Hk Hs. unfold take_if. destruct (decide _); [done|]. rewrite Take_fields. cbn. by rewrite lookup_delete_ne. Qed.

Lemma keeps_check key p id now s : keeps key p s (fst (Check id now s)).
Proof. intros Hs. unfold Check. destruct (sessions s !! id); [|done]. by destruct (after _ _). Qed.

Lemma keeps_handle key p h q e s : leaves_alone key (p_expires p) q e -> keeps key p s (fst (handle h q e s)).
Proof.
  intros (_&Hf&Hk&Hd&Hn) Hs. unfold handle.
  assert (pending (fst (flashFor q (now e) s)) !! key = Some p) as H1.
  { unfold flashFor. pose proof (keeps_take key p _ (now e) s Hf Hs). by destruct (take_if _ _ _). }
  assert (pending (fst (code_taken q e s)) !! key = Some p) as H2.
  { unfold code_taken. pose proof (keeps_take key p _ (now e) s Hk Hs). by destruct (take_if _ _ _). }
  assert (forall m u f, pending (fst (Stash m u f (now e) (draw1 e) s)) !! key = Some p) as H3 by (intros; by apply keeps_stash).
  destruct (flashFor _ _ _), (code_taken _ _ _). unfold stash_code, stash_flash.
  destruct (decide (h = codePage)); [by destruct (found e)|]. destruct (reads_flash h); [done|].
  destruct (leaves e) as [[id f]|]; [destruct (leaves_code h); [apply H3|]; destruct (leaves_flash h); [apply H3|done]|].
  by destruct (rerenders_flash h).
Qed.

Lemma keeps_auth key p h q e s : leaves_alone key (p_expires p) q e -> keeps key p s (fst (auth h false q e s)).
Proof.
  intros Hl Hs. pose proof Hl as (_&_&_&Hd&Hn). unfold auth. pose proof (keeps_check key p (q_cookie q) (now e) s Hs) as Hc.
  destruct (Check _ _ _) as [s1 [tok|]].
  - destruct (negb (is_get q) && negb false); [|by apply keeps_handle]. destruct (broken q); [done|].
    unfold CSRFMatches. pose proof (keeps_check key p (q_cookie q) (now e) s1 Hc) as Hc2. destruct (Check _ _ _) as [s2 c].
    destruct (match c with Some c => _ | None => _ end); [|done]. apply (keeps_handle key p h (parse q)); [|done]. exact Hl.
  - destruct (is_get q); [done|]. destruct (broken q); [done|].
    pose proof (keeps_stash key p (q_method q) (q_uri q) (stashed_form q) (now e) (draw1 e) s1 Hn Hd Hc) as Hst. by destruct (Stash _ _ _ _ _ _).
Qed.

Lemma keeps_serve key p q e s : leaves_alone key (p_expires p) q e -> keeps key p s (fst (serve q e s)).
Proof.
  intros Hl Hs. pose proof Hl as (Hr&_&_&Hd&Hn). unfold serve. destruct (dispatch _ _) as [[| | | | |h]|]; try done.
  - unfold loginPage. pose proof (keeps_check key p (q_cookie q) (now e) s Hs). by destruct (Check _ _ _) as [? []].
  - unfold login. rewrite Hr.
    destruct (Login_cases (fst (creds q)) (snd (creds q)) (now e) (draw1 e) (draw2 e) s) as [[-> _]|(_&_&_&s1&->&->)]; [done|].
    unfold take_if. rewrite decide_True by done. by apply (keeps_sweep key p (now e) s).
  - by apply keeps_auth.
Qed.

(** The requests of [evs], served in order. *)
Fixpoint play (evs : list (request * env)) (s : Sessions) : list entry * Sessions :=
  match evs with
  | [] => ([], s)
  | (q, e) :: evs => let '(s', a) := serve q e s in let '(tr, s'') := play evs s' in ((q, e, a) :: tr, s'')
  end.

Lemma keeps_play key p evs : forall s, Forall (fun x => leaves_alone key (p_expires p) (fst x) (snd x)) evs -> keeps key p s (snd (play evs s)).
Proof.
  induction evs as [|[q e] evs IH]; intros s Hf; [by intros ?|]. apply Forall_cons in Hf as [Hx Hf]. intros Hs. cbn.
  pose proof (keeps_serve key p q e s Hx Hs) as Hk. destruct (serve q e s) as [s' a]. specialize (IH s' Hf Hk). by destruct (play evs s').
Qed.

(** What is submitted on an expired session is not lost: whatever other
    requests come in between, a right login that names the key of the form within
    fifteen minutes runs the handler the form was for, with the method, path and
    values it was submitted with. *)
Theorem an_expired_form_is_applied q0 e0 s s1 h key evs q e :
  dispatch (q_method q0) (q_uri q0) = Some (Guarded h) -> key <> "" ->
  serve q0 e0 s = (s1, ShowLogin key "") ->
  Forall (fun x => leaves_alone key (now e0 + PendingLife) (fst x) (snd x)) evs ->
  password (snd (play evs s1)) <> "" -> creds q = (Username, password (snd (play evs s1))) ->
  dispatch (q_method q) (q_uri q) = Some LoginPost -> form_get (plain_form q) "resume" = key -> now e < now e0 + PendingLife ->
  exists s' q' t, serve q e (snd (play evs s1)) = (s', SignedIn (draw1 e) (Ran h q' t))
    /\ q_method q' = q_method q0 /\ q_uri q' = q_uri q0 /\ parsed_form q' = stashed_form q0 ++ u_query (q_uri q0).
Proof.
  intros Hd Hkey Hs Hevs Hpw Hcr Hd' Hres Hlt.
  assert (pending s1 !! key = Some (mkPending (q_method q0) (q_uri q0) (stashed_form q0) (now e0 + PendingLife))) as Hp.
  { unfold serve in Hs. rewrite Hd in Hs. pose proof (auth_admitted h false q0 e0 s) as Had. rewrite Hs in Had.
    inversion Had; subst. cbn. by rewrite lookup_insert_eq. }
  apply (keeps_play _ (mkPending (q_method q0) (q_uri q0) (stashed_form q0) (now e0 + PendingLife)) evs s1 Hevs) in Hp. set (s2 := snd (play evs s1)) in *. unfold serve. rewrite Hd'. unfold login. rewrite Hcr. cbn [fst snd].
  destruct (Login_cases Username (password s2) (now e) (draw1 e) (draw2 e) s2) as [[_ Hn]|(_&_&_&s3&->&E3)]; [by destruct Hn|].
  rewrite Hres. pose proof (take_if_spec key (now e) s3) as Ht. destruct (take_if _ _ _) as [s4 p]. destruct Ht as (_&Ps&_&Pt).
  rewrite (proj2 (Pt (mkPending (q_method q0) (q_uri q0) (stashed_form q0) (now e0 + PendingLife)))).
  2: { split; [done|]. split; [|done]. rewrite E3. cbn. apply map_lookup_filter_Some. split; [done|]. cbn. unfold after. by apply Z.ltb_lt. }
  unfold replay. cbn [q_method q_uri replay_request p_Method p_Path]. rewrite Hd.
  destruct (auth_replayed h (replay_request (draw1 e) (mkPending (q_method q0) (q_uri q0) (stashed_form q0) (now e0 + PendingLife)))
    (drawn e) s4 (draw2 e) (now e + SessionLife)) as (s5&t&->&_).
  { by rewrite Ps, E3; apply lookup_insert_eq. }
  { unfold SessionLife, ns_hour, ns_minute, ns_second. cbn. lia. }
  by eexists _, _, t.
Qed.

(** ** Examples *)

Lemma play_runs pw evs : forall tr s, runs pw tr s -> runs pw (tr ++ fst (play evs s)) (snd (play evs s)).
Proof.
  induction evs as [|[q e] evs IH]; intros tr s Hr; cbn; [by rewrite app_nil_r|].
  destruct (serve q e s) as [s' a] eqn:Hs. pose proof (IH _ _ (runs_serve pw tr s q e s' a Hr Hs)) as H.
  destruct (play evs s') as [tr' s'']. cbn in *. by rewrite <- app_assoc in H.
Qed.

Definition at_time (t : Z) (d1 d2 : string) : env := mkEnv (t * ns_minute) d1 d2 "third" None false.
Definition post (ss : list string) (cookie : string) (f : form) : request := mkRequest "POST" (mkUri ss []) cookie (Plain f) false.
Definition sign_in (f : form) : request := post ["login"] "" ([("username", " admin"); ("password", "hunter2")] ++ f).
Definition revoking (cookie : string) (f : form) : request := post ["clients"; "dev_1"; "revoke"] cookie f.

(** The operator's session has expired; a form submitted on it is applied after the login. *)
Definition an_evening : list (request * env) := [
  (sign_in [], at_time 0 "s1" "t1");
  (revoking "s1" [("csrf", "t1")], at_time 719 "f1" "");
  (revoking "s1" [("csrf", "t1")], at_time 1439 "f2" "");
  (mkRequest "GET" (mkUri ["clients"] []) "s1" (Plain []) false, at_time 1441 "f3" "")].

Definition evening : list entry * Sessions := play an_evening (NewSessions "hunter2").

Example evening_answers : map snd (fst evening) = [
  SignedIn "s1" (To "/clients");
  Ran revoke (parse (revoking "s1" [("csrf", "t1")])) None;
  ShowLogin "f2" "";
  ToLogin (mkUri ["clients"] [])].
Proof. vm_compute. reflexivity. Qed.

Definition last_login : request := sign_in [("resume", "f2")].

Lemma nothing_runs_without_the_operator_witness :
  serve last_login (at_time 1450 "s2" "t2") (snd evening)
    = (fst (serve last_login (at_time 1450 "s2" "t2") (snd evening)),
       SignedIn "s2" (Ran revoke (replay_request "s2" (mkPending "POST" (mkUri ["clients"; "dev_1"; "revoke"] []) [("csrf", "t1")] 0)) None))
  /\ right_creds "hunter2" last_login
  /\ exists qs at_, kept_form (fst evening) "f2" qs at_ /\ 1450 * ns_minute < at_ + PendingLife.
Proof.
  assert (serve last_login (at_time 1450 "s2" "t2") (snd evening)
    = (fst (serve last_login (at_time 1450 "s2" "t2") (snd evening)),
       SignedIn "s2" (Ran revoke (replay_request "s2" (mkPending "POST" (mkUri ["clients"; "dev_1"; "revoke"] []) [("csrf", "t1")] 0)) None))) as Hs
    by (rewrite (surjective_pairing (serve _ _ _)) at 1; f_equal; vm_compute; reflexivity).
  split; [exact Hs|].
  pose proof (nothing_runs_without_the_operator "hunter2" (fst evening) (snd evening) last_login (at_time 1450 "s2" "t2") _ _
    revoke (replay_request "s2" (mkPending "POST" (mkUri ["clients"; "dev_1"; "revoke"] []) [("csrf", "t1")] 0)) None
    (play_runs "hunter2" an_evening [] _ (runs_start "hunter2")) Hs) as [_ H].
  destruct (H "s2" eq_refl) as (Hc&qs&at_&Hk&Hlt&_). split; [exact Hc|]. exists qs, at_. split; [exact Hk|exact Hlt].
Defined.

Lemma an_expired_form_is_applied_witness :
  let s := snd (play (firstn 2 an_evening) (NewSessions "hunter2")) in
  let q0 := revoking "s1" [("csrf", "t1")] in
  exists s' q' t, serve last_login (at_time 1450 "s2" "t2") (snd (play [nth 3 an_evening (last_login, at_time 0 "" "")] (fst (serve q0 (at_time 1439 "f2" "") s))))
    = (s', SignedIn "s2" (Ran revoke q' t))
    /\ q_method q' = "POST" /\ q_uri q' = q_uri q0 /\ parsed_form q' = [("csrf", "t1")].
Proof.
  apply (an_expired_form_is_applied (revoking "s1" [("csrf", "t1")]) (at_time 1439 "f2" "") (snd (play (firstn 2 an_evening) (NewSessions "hunter2"))) _
    revoke "f2" [nth 3 an_evening (last_login, at_time 0 "" "")] last_login (at_time 1450 "s2" "t2")).
  - vm_compute. reflexivity.
  - discriminate.
  - rewrite (surjective_pairing (serve _ _ _)). f_equal.
  - constructor; [|by constructor]. vm_compute. repeat split; discriminate.
  - vm_compute. discriminate.
  - vm_compute. reflexivity.
  - vm_compute. reflexivity.
  - reflexivity.
  - vm_compute. reflexivity.
Defined.

(** A form of another site, submitted by a browser that has no session or does not
    send its cookie across sites, is kept like one of the operator's own and applied
    by the login page the browser is then shown: no token of any session is in it. *)
Lemma a_foreign_form_is_applied :
  map snd (fst (play [(revoking "" [], at_time 0 "f1" ""); (sign_in [("resume", "f1")], at_time 1 "s1" "t1")] (NewSessions "hunter2")))
  = [ShowLogin "f1" "";
     SignedIn "s1" (Ran revoke (replay_request "s1" (mkPending "POST" (mkUri ["clients"; "dev_1"; "revoke"] []) [] 0)) None)].
Proof. vm_compute. reflexivity. Qed.

(** A browser reads a backslash as a slash: this next page is on another site. *)
Lemma next_can_leave_the_site : safe_next "/\evil.example/" = "/\evil.example/".
Proof. reflexivity. Qed.
