(* ===== verification/Csv.v ===== *)
(** A directory as a CSV file (src/server/internal/adminui/csv.go): what
    [WriteCSV] writes and [ReadCSV] reads, over the parts of Go's encoding/csv
    and unicode they use. White space is Unicode's; letter case is ASCII's. *)

From S2P Require Import Prelude Text Net Admin Directory.
Open Scope Z_scope.

(** ** Unicode white space *)

Definition IsSpace (r : Z) : bool :=
  ((9 <=? r) && (r <=? 13)) || (r =? 32) || (r =? 133) || (r =? 160) || (r =? 5760) || ((8192 <=? r) && (r <=? 8202))
  || (r =? 8232) || (r =? 8233) || (r =? 8239) || (r =? 8287) || (r =? 12288).

Definition first_rune (s : text) : Z * nat := DecodeRune (map byte_z s).

(** [utf8.DecodeLastRune]: from the last byte back to a byte that starts a rune. *)
Definition starts (c : Ascii.ascii) : bool := negb (is_cont (byte_z c)).

Definition last_start (r : text) : nat :=
  match r with
  | _ :: b :: r => if starts b then 2 else
      match r with
      | c :: r => if starts c then 3 else
          match r with d :: _ => if starts d then 4 else 5 | [] => 3 end
      | [] => 2
      end
  | _ => 1
  end%nat.

Definition last_rune (s : text) : Z * nat :=
  match rev s with
  | [] => (RuneError, 0%nat)
  | a :: r =>
      if byte_z a <? 128 then (byte_z a, 1%nat)
      else
        let k := Nat.min (last_start (a :: r)) (length s) in
        let '(r, w) := first_rune (drop (length s - k) s) in
        if decide (w = k) then (r, w) else (RuneError, 1%nat)
  end.

Fixpoint trim_left_n (n : nat) (s : text) : text :=
  match n, s with
  | S n, _ :: _ => let '(r, w) := first_rune s in if IsSpace r then trim_left_n n (drop w s) else s
  | _, _ => s
  end.

Fixpoint trim_right_n (n : nat) (s : text) : text :=
  match n, s with
  | S n, _ :: _ => let '(r, w) := last_rune s in if IsSpace r then trim_right_n n (take (length s - w) s) else s
  | _, _ => s
  end.

Definition TrimLeftSpace (s : text) : text := trim_left_n (length s) s.
Definition TrimSpaceU (s : text) : text := let s := TrimLeftSpace s in trim_right_n (length s) s.

(** ** encoding/csv *)

Definition comma : Ascii.ascii := ","%char.
Definition dquote : Ascii.ascii := Ascii.ascii_of_N 34.
Definition nl : Ascii.ascii := Ascii.ascii_of_N 10.
Definition cr : Ascii.ascii := Ascii.ascii_of_N 13.

Definition fieldNeedsQuotes (f : text) : bool :=
  if decide (f = []) then false
  else if decide (f = T "\.") then true
  else if existsb (fun c => bool_decide (c = nl \/ c = cr \/ c = dquote \/ c = comma)) f then true
  else IsSpace (fst (first_rune f)).

(** A field between quotes, each quote of its own doubled. *)
Fixpoint escape (f : text) : text :=
  match f with
  | [] => []
  | c :: f => if decide (c = dquote) then dquote :: dquote :: escape f else c :: escape f
  end.

Definition write_field (f : text) : text := if fieldNeedsQuotes f then dquote :: escape f ++ [dquote] else f.

Fixpoint write_fields (fs : list text) : text :=
  match fs with
  | [] => []
  | [f] => write_field f
  | f :: fs => write_field f ++ comma :: write_fields fs
  end.

Definition write_record (fs : list text) : text := write_fields fs ++ [nl].

(** The input up to and including its first newline. *)
Fixpoint cutline (s : text) : text * text :=
  match s with
  | [] => ([], [])
  | a :: s => if decide (a = nl) then ([a], s) else let '(l, r) := cutline s in (a :: l, r)
  end.

(** [Reader.readLine]: a carriage return before the newline, or at the very end, is dropped. *)
Definition drop_cr (l : text) : text :=
  match rev l with
  | a :: b :: r => if decide (a = nl /\ b = cr) then rev (a :: r) else if decide (a = cr) then rev (b :: r) else l
  | [a] => if decide (a = cr) then [] else l
  | [] => l
  end.

Definition readLine (s : text) : option (text * text) :=
  match s with [] => None | _ => let '(l, r) := cutline s in Some (drop_cr l, r) end.

Definition is_nl_only (l : text) : bool := bool_decide (l = [] \/ l = [nl]).
Definition strip_nl (l : text) : text := match rev l with a :: r => if decide (a = nl) then rev r else l | [] => l end.

Inductive csv_error := ErrBareQuote | ErrQuote.

Definition cons_field (f : text) (r : csv_error + list text * text) : csv_error + list text * text :=
  match r with inl e => inl e | inr (fs, rest) => inr (f :: fs, rest) end.

(** The fields of a record from the middle of its line: [None] is a field's start,
    [Some buf] the inside of a quoted one; [rest] is the input after the line. *)
Fixpoint parse_fields (fuel : nat) (inside : option text) (line rest : text) : csv_error + list text * text :=
  match fuel with
  | O => inl ErrQuote
  | S fuel =>
      match inside with
      | None =>
          match TrimLeftSpace line with
          | a :: l =>
              if decide (a = dquote) then parse_fields fuel (Some []) l rest
              else match Cut (a :: l) comma with
                   | Some (f, l') => if decide (dquote ∈ f) then inl ErrBareQuote else cons_field f (parse_fields fuel None l' rest)
                   | None => let f := strip_nl (a :: l) in if decide (dquote ∈ f) then inl ErrBareQuote else inr ([f], rest)
                   end
          | [] => inr ([[]], rest)
          end
      | Some buf =>
          match Cut line dquote with
          | Some (b, l) =>
              let buf := buf ++ b in
              match l with
              | c :: l' =>
                  if decide (c = dquote) then parse_fields fuel (Some (buf ++ [dquote])) l' rest
                  else if decide (c = comma) then cons_field buf (parse_fields fuel None l' rest)
                  else if is_nl_only l then inr ([buf], rest) else inl ErrQuote
              | [] => inr ([buf], rest)
              end
          | None =>
              match line with
              | [] => inl ErrQuote
              | _ => let '(l, r) := default ([], []) (readLine rest) in parse_fields fuel (Some (buf ++ line)) l r
              end
          end
      end
  end.

(** [Reader.Read]: [None] at the end of the input. *)
Fixpoint Read (fuel : nat) (s : text) : option (csv_error + list text * text) :=
  match fuel with
  | O => None
  | S fuel =>
      match readLine s with
      | None => None
      | Some (l, r) => if is_nl_only l then Read fuel r else Some (parse_fields (S (length l + length r)) None l r)
      end
  end.

(** ** WriteCSV and ReadCSV *)

Definition MaxCSVBytes : Z := 4194304.

Definition mode_text (m : Mode) : text := match m with ModeLocal => T "local" | ModeTrunk => T "trunk" | ModeOther => T "other" end.
Definition mode_of (t : text) : Mode := if decide (t = T "local") then ModeLocal else if decide (t = T "trunk") then ModeTrunk else ModeOther.

Definition header : list text := [T "display_name"; T "uri"; T "mode"; T "favourite"].

Definition contact_record (c : Contact) : list text :=
  [T (DisplayName c); T (URI c); mode_text (Mode_ c); if Favourite c then T "true" else T "false"].

Definition WriteCSV (cs : list Contact) : text := write_record header ++ concat (map (fun c => write_record (contact_record c)) cs).

Inductive read_error :=
  | TooBig | Empty | BadLine (line : Z) (e : csv_error) | NoColumn (name : string) | NoURI (line : Z) | BadMode (line : Z) | BadFavourite (line : Z).

Definition BOM : text := map Ascii.ascii_of_N [239; 187; 191]%N.

(** The columns the header names; a name that comes twice is the later one's. *)
Definition columns (hs : list text) : list (text * nat) := rev (imap (fun i h => (ToLower (TrimSpaceU h), i)) hs).
Definition col (cols : list (text * nat)) (name : string) : option nat := snd <$> find (fun c => bool_decide (fst c = T name)) cols.

Definition get (cols : list (text * nat)) (rec : list text) (name : string) : text :=
  match col cols name with Some i => default [] (TrimSpaceU <$> rec !! i) | None => [] end.

Definition read_contact (cols : list (text * nat)) (line : Z) (rec : list text) : read_error + Contact :=
  let uri := get cols rec "uri" in
  let mode := mode_of (ToLower (get cols rec "mode")) in
  let c fav := inr (mkContact "" (to_string (get cols rec "display_name")) (to_string uri) mode fav 0 0 false) in
  if decide (uri = []) then inl (NoURI line)
  else if decide (mode = ModeOther) then inl (BadMode line)
  else let f := ToLower (get cols rec "favourite") in
       if decide (f ∈ [[]; T "false"; T "0"; T "no"]) then c false
       else if decide (f ∈ [T "true"; T "1"; T "yes"]) then c true
       else inl (BadFavourite line).

Fixpoint read_rows (fuel : nat) (cols : list (text * nat)) (line : Z) (s : text) : read_error + list Contact :=
  match fuel with
  | O => inl Empty
  | S fuel =>
      match Read (S (length s)) s with
      | None => inr []
      | Some (inl e) => inl (BadLine line e)
      | Some (inr (rec, rest)) =>
          if decide (rec = [[]]) then read_rows fuel cols (line + 1) rest
          else match read_contact cols line rec with
               | inl e => inl e
               | inr c => match read_rows fuel cols (line + 1) rest with inl e => inl e | inr cs => inr (c :: cs) end
               end
      end
  end.

Definition missing (cols : list (text * nat)) : option string :=
  find (fun need => bool_decide (col cols need = None)) ["display_name"; "uri"; "mode"].

Definition ReadCSV (raw : text) : read_error + list Contact :=
  if MaxCSVBytes <? zlen raw then inl TooBig
  else
    let raw := TrimPrefix raw BOM in
    match Read (S (length raw)) raw with
    | None => inl Empty
    | Some (inl e) => inl (BadLine 1 e)
    | Some (inr (hs, rest)) =>
        let cols := columns hs in
        match missing cols with
        | Some need => inl (NoColumn need)
        | None => read_rows (S (length rest)) cols 2 rest
        end
    end.

(** ** Lines and fields *)

Lemma cutline_line a s : nl ∉ a -> cutline (a ++ nl :: s) = (a ++ [nl], s).
Proof.
  induction a as [|c a IH]; cbn [cutline app]; intros Ha; [by rewrite decide_True|]. apply not_elem_of_cons in Ha as [Hc Ha].
  rewrite decide_False by done. by rewrite IH.
Qed.

Lemma cutline_app a s : nl ∉ a -> cutline (a ++ s) = (a ++ fst (cutline s), snd (cutline s)).
Proof.
  induction a as [|c a IH]; cbn [cutline app]; intros Ha; [by destruct (cutline s)|]. apply not_elem_of_cons in Ha as [Hc Ha].
  rewrite decide_False by done. by rewrite IH.
Qed.

Lemma cutline_cons c s : c <> nl -> cutline (c :: s) = (c :: fst (cutline s), snd (cutline s)).
Proof. intros Hc. cbn. rewrite decide_False by done. by destruct (cutline s). Qed.

Lemma cutline_parts s : s = fst (cutline s) ++ snd (cutline s).
Proof. induction s as [|c s IH]; [done|]. cbn. destruct (decide _); [done|]. destruct (cutline s). cbn in *. by rewrite <- IH. Qed.

Lemma cutline_nonempty s : s <> [] -> fst (cutline s) <> [].
Proof. destruct s as [|c s]; [done|]. cbn. destruct (decide _); [done|]. by destruct (cutline s). Qed.

Lemma drop_cr_id l : cr ∉ l -> drop_cr l = l.
Proof.
  intros Hl. unfold drop_cr. assert (forall c, c ∈ rev l -> c <> cr) as Hr by (intros c Hc ->; apply Hl; by apply elem_of_rev).
  destruct (rev l) as [|a [|b r]]; [done| |].
  - by rewrite decide_False by (apply Hr; left).
  - rewrite decide_False by (intros [_ E]; revert E; apply Hr; right; left). by rewrite decide_False by (apply Hr; left).
Qed.

Lemma readLine_plain s : s <> [] -> cr ∉ s -> readLine s = Some (cutline s).
Proof.
  intros Hs Hc. unfold readLine. destruct s as [|a s]; [done|]. rewrite (cutline_parts (a :: s)) in Hc.
  destruct (cutline (a :: s)) as [l r]. rewrite drop_cr_id; [done|]. intros E. apply Hc, elem_of_app. by left.
Qed.

Lemma escape_cr f c : c ∈ escape f -> c ∈ f.
Proof.
  induction f as [|d f IH]; [done|]. cbn [escape]. destruct (decide (d = dquote)) as [->|]; rewrite !elem_of_cons; [|by intros [?|?]; auto].
  intros [?|[?|?]]; auto.
Qed.

(** A byte of a quoted field goes to the buffer. *)
Lemma parse_inside fuel buf c l r : c <> dquote -> l <> [] ->
  parse_fields fuel (Some buf) (c :: l) r = parse_fields fuel (Some (buf ++ [c])) l r.
Proof.
  intros Hc Hl. destruct fuel as [|fuel]; [done|]. cbn [parse_fields Cut]. rewrite decide_False by done.
  assert (forall b, (buf ++ [c]) ++ b = buf ++ c :: b) as Ha by (intros b; by rewrite <- app_assoc).
  destruct (Cut l dquote) as [[b l']|]; cbn [mbind option_bind].
  - by rewrite Ha.
  - destruct l; [done|]. by rewrite Ha.
Qed.

Lemma parse_close fuel buf l r : parse_fields (S fuel) (Some buf) (dquote :: comma :: l) r = cons_field buf (parse_fields fuel None l r).
Proof. transitivity (cons_field (buf ++ []) (parse_fields fuel None l r)); [reflexivity|]. by rewrite app_nil_r. Qed.

(** From within a quoted field to the field after it. *)
Lemma parse_quoted t : cr ∉ t -> forall f buf fuel, cr ∉ f ->
  (length (escape f) + length t + 2 <= fuel)%nat ->
  let s := escape f ++ dquote :: comma :: t in
  exists fuel', (length t < fuel')%nat
    /\ parse_fields fuel (Some buf) (fst (cutline s)) (snd (cutline s))
       = cons_field (buf ++ f) (parse_fields fuel' None (fst (cutline t)) (snd (cutline t))).
Proof.
  intros Ht. induction f as [|c f IH]; intros buf fuel Hf Hfuel; cbn [escape app].
  { rewrite cutline_cons by done. cbn [fst snd]. rewrite cutline_cons by done. cbn [fst snd].
    destruct fuel as [|fuel]; [cbn in Hfuel; lia|]. exists fuel. split; [cbn in Hfuel; lia|]. rewrite parse_close, app_nil_r. done. }
  apply not_elem_of_cons in Hf as [Hc Hf]. destruct (decide (c = dquote)) as [->|Hq].
  { cbn [app length] in *. rewrite cutline_cons by done. cbn [fst snd]. rewrite cutline_cons by done. cbn [fst snd].
    destruct fuel as [|fuel]; [lia|]. cbn [escape length] in Hfuel. rewrite decide_True in Hfuel by done. cbn [length] in Hfuel.
    destruct (IH (buf ++ [dquote]) fuel Hf ltac:(lia)) as (fuel'&Hlt&E). exists fuel'. split; [done|].
    transitivity (parse_fields fuel (Some ((buf ++ []) ++ [dquote])) (fst (cutline (escape f ++ dquote :: comma :: t))) (snd (cutline (escape f ++ dquote :: comma :: t)))); [done|].
    rewrite app_nil_r, E. by rewrite <- app_assoc. }
  cbn [escape length] in Hfuel. rewrite decide_False in Hfuel by done. cbn [length app] in *. set (s := escape f ++ dquote :: comma :: t) in *.
  assert (s <> []) as Hs by (unfold s; by destruct (escape f)).
  destruct (decide (c = nl)) as [->|Hn].
  - cbn [cutline]. rewrite decide_True by done. cbn [fst snd]. destruct fuel as [|fuel]; [lia|].
    destruct (IH (buf ++ [nl]) fuel Hf ltac:(lia)) as (fuel'&Hlt&E). exists fuel'. split; [done|].
    cbn [parse_fields]. change (Cut [nl] dquote) with (@None (text * text)). cbv iota beta.
    rewrite readLine_plain; [|done|].
    2: { unfold s. intros [Hi|Hi]%elem_of_app; [by apply escape_cr in Hi|]. apply elem_of_cons in Hi as [?|Hi]; [done|].
         apply elem_of_cons in Hi as [?|Hi]; [done|]. done. }
    cbn [default id]. destruct (cutline s) as [l r]. cbn [fst snd] in *.
    rewrite E. by rewrite <- app_assoc.
  - rewrite cutline_cons by done. cbn [fst snd]. destruct (IH (buf ++ [c]) fuel Hf ltac:(lia)) as (fuel'&Hlt&E). exists fuel'. split; [done|].
    rewrite <- app_assoc in E. cbn [app] in E. rewrite <- E. apply parse_inside; [done|]. by apply cutline_nonempty.
Qed.

Lemma trim_left_here s : IsSpace (fst (first_rune s)) = false -> TrimLeftSpace s = s.
Proof. intros H. unfold TrimLeftSpace. destruct s as [|c s]; [done|]. cbn [length trim_left_n]. destruct (first_rune _). cbn in H. by rewrite H. Qed.

(** A comma after a field does not change what its first rune is taken for. *)
Lemma first_rune_comma f l : f <> [] -> IsSpace (fst (first_rune f)) = false -> IsSpace (fst (first_rune (f ++ comma :: l))) = false.
Proof.
  assert (is_cont (byte_z comma) = false) as Hc by reflexivity. unfold first_rune. intros Hf. rewrite map_app. cbn [map].
  destruct f as [|a [|b [|c [|d f]]]]; [done| | | |]; cbn [map app DecodeRune]; rewrite ?Hc, ?andb_false_r; cbn [andb].
  - destruct (byte_z a <? 128); [done|]. intros _. destruct (map byte_z l) as [|x [|y m]]; rewrite ?andb_false_r; cbn [andb]; reflexivity.
  - destruct (byte_z a <? 128); [done|]. destruct (_ && _ && _); [done|]. intros _.
    destruct (map byte_z l) as [|x m]; rewrite ?andb_false_r; cbn [andb]; reflexivity.
  - destruct (byte_z a <? 128); [done|]. destruct (_ && _ && _); [done|]. destruct (_ && _ && _); [done|].
    intros _. rewrite ?andb_false_r; cbn [andb]; reflexivity.
  - done.
Qed.

(** From the start of a written field to the next one. *)
Lemma parse_field t f fuel : cr ∉ f -> cr ∉ t -> let s := write_field f ++ comma :: t in
  (length s < fuel)%nat ->
  exists fuel', (length t < fuel')%nat
    /\ parse_fields fuel None (fst (cutline s)) (snd (cutline s))
       = cons_field f (parse_fields fuel' None (fst (cutline t)) (snd (cutline t))).
Proof.
  intros Hf Ht. cbn zeta. unfold write_field. destruct (fieldNeedsQuotes f) eqn:Hq; intros Hfuel.
  - rewrite <- app_comm_cons, <- app_assoc in *. cbn [app length] in *. rewrite cutline_cons by done. cbn [fst snd].
    rewrite length_app in Hfuel. cbn [length] in Hfuel. destruct fuel as [|fuel]; [lia|].
    destruct (parse_quoted t Ht f [] fuel Hf ltac:(lia)) as (fuel'&Hlt&E). exists fuel'. split; [done|]. etransitivity; [|exact E]. reflexivity.
  - assert (f = [] \/ f <> [] /\ Forall (fun c => ~ (c = nl \/ c = cr \/ c = dquote \/ c = comma)) f /\ IsSpace (fst (first_rune f)) = false) as Hcl.
    { unfold fieldNeedsQuotes in Hq. destruct (decide (f = [])) as [|Hne]; [by left|right]. split; [done|].
      destruct (decide (f = T "\.")); [done|]. destruct (existsb _ f) eqn:Hex; [done|]. split; [|done].
      apply Forall_forall. intros c Hc Hbad. apply not_true_iff_false in Hex. apply Hex, existsb_exists. exists c. split; [by apply list_elem_of_In|].
      by apply bool_decide_eq_true_2. }
    assert (forall c, c = nl \/ c = dquote \/ c = comma -> c ∉ f) as Hno.
    { intros c Hc Hi. destruct Hcl as [->|(_&Hall&_)]; [by apply elem_of_nil in Hi|].
      apply (proj1 (Forall_forall _ _) Hall c Hi). destruct Hc as [?|[?|?]]; auto. }
    assert (nl ∉ f) as Hn by auto. assert (comma ∉ f) as Hcm by auto. assert (dquote ∉ f) as Hdq by auto.
    rewrite cutline_app, cutline_cons by done. cbn [fst snd]. destruct fuel as [|fuel]; [lia|]. rewrite length_app in Hfuel. cbn [length] in Hfuel.
    exists fuel. split; [lia|]. cbn [parse_fields]. rewrite trim_left_here.
    2: { destruct Hcl as [->|(Hne&_&Hsp)]; [reflexivity|]. by apply first_rune_comma. }
    pose proof (Cut_app f comma (fst (cutline t)) Hcm) as Hcut. destruct f as [|a f]; cbn [app] in *; rewrite Hcut.
    + by rewrite decide_False, decide_False by (first [done | by apply not_elem_of_nil]).
    + rewrite decide_False by (intros ->; apply Hdq; left). by rewrite decide_False.
Qed.

Lemma parse_last fuel v t : v = T "true" \/ v = T "false" \/ v = T "favourite" ->
  parse_fields (S fuel) None (fst (cutline (v ++ nl :: t))) (snd (cutline (v ++ nl :: t))) = inr ([v], t).
Proof. intros [-> | [-> | ->]]; reflexivity. Qed.

Lemma cr_field f : cr ∉ f -> cr ∉ write_field f.
Proof.
  intros Hx. unfold write_field. destruct (fieldNeedsQuotes f); [|done]. intros [Hi|[Hi|Hi]%elem_of_app]%elem_of_cons; [done| |].
  - by apply escape_cr in Hi.
  - by apply list_elem_of_singleton in Hi.
Qed.

Lemma cr_app (a b : text) c : cr ∉ a -> cr ∉ b -> c <> cr -> cr ∉ a ++ c :: b.
Proof. intros Ha Hb Hc [Hi|[Hi|Hi]%elem_of_cons]%elem_of_app; congruence. Qed.

Lemma Read_record f g h v t fuel : cr ∉ f -> cr ∉ g -> cr ∉ h -> cr ∉ t -> v = T "true" \/ v = T "false" \/ v = T "favourite" ->
  Read (S fuel) (write_record [f; g; h; v] ++ t) = Some (inr ([f; g; h; v], t)).
Proof.
  intros Hf Hg Hh Ht Hv. unfold write_record. cbn [write_fields].
  assert (write_field v = v) as -> by (destruct Hv as [-> | [-> | ->]]; reflexivity).
  assert (cr ∉ v) as Hcv by (destruct Hv as [-> | [-> | ->]]; by apply (bool_decide_unpack _)).
  set (s3 := v ++ nl :: t). set (s2 := write_field h ++ comma :: s3). set (s1 := write_field g ++ comma :: s2).
  assert (cr ∉ s3) as H3 by (by apply cr_app). assert (cr ∉ s2) as H2 by (apply cr_app; auto using cr_field). assert (cr ∉ s1) as H1 by (apply cr_app; auto using cr_field).
  replace (_ ++ t) with (write_field f ++ comma :: s1) by (unfold s1, s2, s3; rewrite <- !app_assoc; cbn; rewrite <- !app_assoc; cbn; by rewrite <- !app_assoc).
  assert (cr ∉ write_field f ++ comma :: s1) as H0 by (apply cr_app; auto using cr_field). set (s := write_field f ++ comma :: s1) in *.
  assert (s <> []) as Hne by (unfold s; by destruct (write_field f)).
  cbn [Read]. rewrite readLine_plain by done. rewrite (surjective_pairing (cutline s)).
  assert (is_nl_only (fst (cutline s)) = false) as ->.
  { apply bool_decide_eq_false_2. intros [E|E]; [by apply (cutline_nonempty s)|].
    destruct s as [|a s'] eqn:Es; [done|]. assert (a <> nl) as Ha.
    { unfold s in Es. unfold write_field in Es. destruct (fieldNeedsQuotes f) eqn:Hq; [by injection Es as <- _|].
      destruct f as [|b f']; [by injection Es as <- _|]. injection Es as <- _. intros ->. unfold fieldNeedsQuotes in Hq.
      destruct (decide _); [done|]. by destruct (decide _). }
    rewrite cutline_cons in E by done. cbn in E. by injection E. }
  assert (length s = length (fst (cutline s)) + length (snd (cutline s)))%nat as Hlen by (rewrite (cutline_parts s) at 1; apply length_app).
  destruct (parse_field s1 f (S (length (fst (cutline s)) + length (snd (cutline s)))) Hf H1 ltac:(fold s; lia)) as (n1&Hn1&E1). fold s in E1. rewrite E1.
  destruct (parse_field s2 g n1 Hg H2 Hn1) as (n2&Hn2&E2). fold s1 in E2. rewrite E2.
  destruct (parse_field s3 h n2 Hh H3 Hn2) as (n3&Hn3&E3). fold s2 in E3. rewrite E3.
  destruct n3 as [|n3]; [lia|]. pose proof (parse_last n3 v t Hv) as E4. fold s3 in E4. by rewrite E4.
Qed.

(** ** The round trip *)

(** What the file form of a contact carries. *)
Definition file_form (c : Contact) : Contact := mkContact "" (DisplayName c) (URI c) (Mode_ c) (Favourite c) 0 0 false.

(** A contact the file form is faithful to. *)
Record portable (c : Contact) : Prop := {
  po_mode : Mode_ c = ModeLocal \/ Mode_ c = ModeTrunk;
  po_uri : URI c <> "";
  po_name : TrimSpaceU (T (DisplayName c)) = T (DisplayName c);
  po_trimmed : TrimSpaceU (T (URI c)) = T (URI c);
  po_cr : (cr ∉ T (DisplayName c)) /\ (cr ∉ T (URI c));
}.

Definition file_columns : list (text * nat) := columns header.

Lemma favourite_text (b : bool) : let v := if b then T "true" else T "false" in v = T "true" \/ v = T "false" \/ v = T "favourite".
Proof. destruct b; auto. Qed.

Lemma mode_no_cr m : m = ModeLocal \/ m = ModeTrunk -> cr ∉ mode_text m.
Proof. intros [-> | ->]; by apply (bool_decide_unpack _). Qed.

Lemma read_back c line : portable c -> read_contact file_columns line (contact_record c) = inr (file_form c).
Proof.
  intros [Hm Hu Hn Ht _]. unfold read_contact, get.
  change (col file_columns "display_name") with (Some 0%nat). change (col file_columns "uri") with (Some 1%nat).
  change (col file_columns "mode") with (Some 2%nat). change (col file_columns "favourite") with (Some 3%nat).
  unfold contact_record. cbn [lookup list_lookup fmap option_fmap option_map default id]. rewrite Hn, Ht, !to_string_T.
  rewrite decide_False by (intros E; apply Hu; rewrite <- (to_string_T (URI c)), E; done).
  unfold file_form. destruct Hm as [-> | ->], (Favourite c); reflexivity.
Qed.

Lemma cr_records cs : Forall portable cs -> cr ∉ concat (map (fun c => write_record (contact_record c)) cs).
Proof.
  induction 1 as [|c cs [Hm _ _ _ [Hn Hu]] _ IH]; [by apply not_elem_of_nil|]. cbn [map concat]. intros [Hi|Hi]%elem_of_app; [|done].
  revert Hi. pose proof (mode_no_cr _ Hm) as Hm'. unfold write_record, contact_record. cbn [write_fields]. rewrite <- !app_assoc. cbn [app].
  rewrite <- !app_assoc. cbn [app]. rewrite <- !app_assoc.
  assert (cr ∉ (if Favourite c then T "true" else T "false")) as Hf by (destruct (Favourite c); by apply (bool_decide_unpack _)).
  repeat (apply cr_app; [by apply cr_field| |done]). by apply not_elem_of_nil.
Qed.

Lemma Read_contact c t fuel : portable c -> cr ∉ t ->
  Read (S fuel) (write_record (contact_record c) ++ t) = Some (inr (contact_record c, t)).
Proof. intros [Hm _ _ _ [Hn Hu]] Ht. apply Read_record; [done|done|by apply mode_no_cr|done|apply favourite_text]. Qed.

Lemma read_rows_back cs : forall line fuel, Forall portable cs -> (length cs < fuel)%nat ->
  read_rows fuel file_columns line (concat (map (fun c => write_record (contact_record c)) cs)) = inr (map file_form cs).
Proof.
  induction cs as [|c cs IH]; intros line fuel Hp Hfuel; (destruct fuel as [|fuel]; [cbn in Hfuel; lia|]); [done|].
  apply Forall_cons in Hp as [Hc Hp]. cbn [map concat read_rows].
  rewrite Read_contact by (done || by apply cr_records). rewrite decide_False by done. rewrite read_back by done. rewrite IH by (done || cbn in Hfuel; lia). done.
Qed.

Lemma rows_long cs : (length cs <= length (concat (map (fun c => write_record (contact_record c)) cs)))%nat.
Proof.
  induction cs as [|c cs IH]; [done|]. cbn [map concat length]. rewrite length_app. unfold write_record at 1. rewrite length_app. cbn [length]. lia.
Qed.

(** A directory survives its file: reading back what was written of contacts
    whose names and addresses are trimmed and hold no carriage return, quotes,
    commas and line breaks in them included, gives every contact in order with its
    name, address, mode and favourite mark, and never an error while the file is
    within the limit. *)
Theorem csv_roundtrip cs : Forall portable cs -> zlen (WriteCSV cs) <= MaxCSVBytes -> ReadCSV (WriteCSV cs) = inr (map file_form cs).
Proof.
  intros Hp Hlen. unfold ReadCSV. rewrite (proj2 (Z.ltb_ge _ _)) by done.
  assert (TrimPrefix (WriteCSV cs) BOM = WriteCSV cs) as -> by reflexivity. unfold WriteCSV at 2.
  change (write_record header) with (write_record [T "display_name"; T "uri"; T "mode"; T "favourite"]).
  rewrite Read_record; [|by apply (bool_decide_unpack _)|by apply (bool_decide_unpack _)|by apply (bool_decide_unpack _)|by apply cr_records|].
  2: { right; right. reflexivity. }
  cbn [missing]. apply read_rows_back; [done|]. pose proof (rows_long cs). lia.
Qed.

(** ** Examples *)

Definition entry (name uri : string) (m : Mode) (fav : bool) : Contact := mkContact "ct_1" name uri m fav 4 7 false.

(** A name with a comma, one with quotes of its own, and one of two lines. *)
Definition some_contacts : list Contact := [
  entry "Ann, sales" "sip:12@example.org" ModeLocal true;
  entry (to_string ([dquote] ++ T "Bob" ++ [dquote] ++ T " B.")) "tel:+44 20" ModeTrunk false;
  entry (to_string (T "Front" ++ [nl] ++ T "desk")) "sip:1@x" ModeLocal false;
  entry "" "sip:2@x" ModeLocal false].

Lemma csv_roundtrip_witness : zlen (WriteCSV some_contacts) = 165
  /\ ReadCSV (WriteCSV some_contacts) = inr (map file_form some_contacts).
Proof.
  split; [vm_compute; reflexivity|]. apply csv_roundtrip.
  - unfold some_contacts. repeat (constructor; [split;
      [ first [left; reflexivity | right; reflexivity] | discriminate | vm_compute; reflexivity | vm_compute; reflexivity
      | split; apply (bool_decide_unpack _); vm_compute; exact I ] |]). constructor.
  - vm_compute. discriminate.
Defined.

(** The fault is in the third line of this file; blank lines are not counted. *)
Definition faulty_file : text := T "display_name,uri,mode" ++ [nl; nl] ++ T "Ann,,local" ++ [nl].

Lemma line_numbers_skip_blank_lines : ReadCSV faulty_file = inl (NoURI 2) /\ nth 2 (Split faulty_file nl) [] = T "Ann,,local".
Proof. split; vm_compute; reflexivity. Qed.
