(* ===== verification/DirApi.v ===== *)
(** The address-book API (src/server/internal/directory/handler.go): the
    handlers of a device for its own directory and of the operator for every
    one, over the store of Directory and the front door of Admin.

    A body is what reading it gave: the refusal of the strict decoder, or the
    value.  [draw i] is what the i-th contact of a list draws: the order in
    which the store ranges over its map, and a fresh id. *)

From S2P Require Import Prelude Text Admin Directory.
Open Scope Z_scope.

Inductive shown := ONothing | OList (version : Z) (cs : list Contact) | ODelta (version since : Z) (cs : list Contact)
  | OContact (c : Contact) | OResult (r : ReplaceResult).

Definition reply : Type := answer * shown.
Definition refuse (a : answer) : reply := (a, ONothing).
Definition ok (o : shown) : reply := (done_with 200, o).

Definition maxContacts : Z := 5000.
Definition maxDisplayName : Z := 120.
Definition maxURI : Z := 256.
Definition replaceBodyLimit : Z := 4194304.
Definition contactBodyLimit : Z := 65536.

(** What one write draws and meets. *)
Record draws := mkDraws { at_ : Z; draw : nat -> list string * string; saved : bool }.

(** ** Validation *)

Definition blank (c : Ascii.ascii) : bool := bool_decide (c = " "%char \/ c = Ascii.ascii_of_N 9).

Definition in_prefix (prefix : text) (name : string) : string := to_string (if decide (prefix = []) then T name else prefix ++ T "." ++ T name).

(** [None]: the contact passes. *)
Definition validateContact (c : Contact) (prefix : text) : option answer :=
  if decide (URI c = "") then Some (WriteFieldError 400 "missing" (in_prefix prefix "uri"))
  else if negb (Clean (URI c) maxURI) || existsb blank (T (URI c)) then Some (WriteFieldError 400 "invalid" (in_prefix prefix "uri"))
  else if decide (Mode_ c = ModeOther) then Some (WriteFieldError 400 "invalid" (in_prefix prefix "mode"))
  else if negb (Clean (DisplayName c) maxDisplayName) then Some (WriteFieldError 400 "invalid" (in_prefix prefix "display_name"))
  else None.

Definition nth_prefix (i : Z) : text := T "contacts[" ++ Itoa i ++ T "]".

(** The loop over the list; [seen] are the addresses before it, in lower case. *)
Fixpoint list_fault (i : Z) (seen : gset string) (cs : list Contact) : option answer :=
  match cs with
  | [] => None
  | c :: cs =>
      match validateContact c (nth_prefix i) with
      | Some a => Some a
      | None =>
          if decide (to_lower (URI c) ∈ seen) then Some (WriteFieldError 400 "invalid" (in_prefix (nth_prefix i) "uri"))
          else list_fault (i + 1) ({[to_lower (URI c)]} ∪ seen) cs
      end
  end.

(** [storeError]. *)
Definition storeError (e : dir_error) : answer :=
  match e with ErrVersionMismatch => PreconditionFailed | ErrInvalid => WriteError 400 "invalid" | _ => StoreError end.

(** [versionMatch]. *)
Definition versionMatch (ifmatch : text) : answer + list Z :=
  match IfMatchInt ifmatch with inl a => inl a | inr None => inr [] | inr (Some v) => inr [v] end.

(** ** The operator's handlers *)

Section admin.
Context (adminToken : text) (known : string -> bool).

(** [None]: the request goes on to its handler. *)
Definition guarded (authorization : text) (id : string) : option answer :=
  if decide (adminToken = []) then Some (WriteError 401 "unauthorized")
  else if negb (BearerMatches authorization adminToken) then Some (WriteError 401 "unauthorized")
  else if negb (DeviceIDRe id) || negb (known id) then Some NotFound
  else None.

Definition get_directory (authorization : text) (id : string) (s : Store) : reply :=
  match guarded authorization id with
  | Some a => refuse a
  | None => let '(cs, v) := Contacts s id in ok (OList v cs)
  end.

Definition drawing (w : draws) (cs : list Contact) : list (Contact * list string * string) :=
  imap (fun i c => (c, fst (draw w i), snd (draw w i))) cs.

Definition replace_reply (r : dir_error + ReplaceResult) : reply := match r with inl e => refuse (storeError e) | inr r => ok (OResult r) end.

(** PUT of a whole directory; [body] holds [None] when contacts is absent. *)
Definition put_directory (w : draws) (authorization : text) (id dry_run : string) (ifmatch : text) (body : answer + option (list Contact))
    (s : Store) : Store * reply :=
  match guarded authorization id with
  | Some a => (s, refuse a)
  | None =>
      match body with
      | inl a => (s, refuse a)
      | inr None => (s, refuse (WriteFieldError 400 "missing" "contacts"))
      | inr (Some cs) =>
          if maxContacts <? zlen cs then (s, refuse (WriteFieldError 400 "invalid" "contacts")) else
          match list_fault 0 ∅ cs with
          | Some a => (s, refuse a)
          | None =>
              if decide (dry_run = "") then
                match versionMatch ifmatch with
                | inl a => (s, refuse a)
                | inr pre =>
                    let '(s, r) := Replace (at_ w) id (drawing w cs) (mkOpts pre "admin") (saved w) s in
                    (s, replace_reply r)
                end
              else if decide (dry_run = "1" \/ dry_run = "true") then (s, replace_reply (DryRun (at_ w) id (drawing w cs) s))
              else (s, refuse (WriteFieldError 400 "invalid" "dry_run"))
          end
      end
  end.

Definition with_id (id : string) (c : Contact) : Contact :=
  if decide (id = "") then c else mkContact id (DisplayName c) (URI c) (Mode_ c) (Favourite c) (Version c) (UpdatedAt c) (Deleted c).

(** [adminUpsert]: POST with [cid] empty, PUT of one contact with it. *)
Definition adminUpsert (w : draws) (id cid : string) (ifmatch : text) (body : answer + Contact) (s : Store) : Store * reply :=
  match body with
  | inl a => (s, refuse a)
  | inr c =>
      match validateContact c [] with
      | Some a => (s, refuse a)
      | None =>
          match versionMatch ifmatch with
          | inl a => (s, refuse a)
          | inr pre =>
              let '(s, r) := Upsert (fst (draw w 0)) (snd (draw w 0)) (at_ w) id (with_id cid c) (mkOpts pre "admin") (saved w) s in
              (s, match r with inl e => refuse (storeError e) | inr c => ok (OContact c) end)
          end
      end
  end.

Definition post_contact (w : draws) (authorization : text) (id : string) (ifmatch : text) (body : answer + Contact) (s : Store) : Store * reply :=
  match guarded authorization id with Some a => (s, refuse a) | None => adminUpsert w id "" ifmatch body s end.

Definition put_contact (w : draws) (authorization : text) (id cid : string) (ifmatch : text) (body : answer + Contact) (s : Store) : Store * reply :=
  match guarded authorization id with
  | Some a => (s, refuse a)
  | None => if negb (ContactIDRe cid) then (s, refuse NotFound) else adminUpsert w id cid ifmatch body s
  end.

Definition delete_contact (w : draws) (authorization : text) (id cid : string) (ifmatch : text) (s : Store) : Store * reply :=
  match guarded authorization id with
  | Some a => (s, refuse a)
  | None =>
      if negb (ContactIDRe cid) then (s, refuse NotFound) else
      match versionMatch ifmatch with
      | inl a => (s, refuse a)
      | inr pre =>
          let '(s, r) := Delete (at_ w) id cid (mkOpts pre "admin") (saved w) s in
          (s, match r with inl e => refuse (storeError e) | inr true => refuse (done_with 204) | inr false => refuse NotFound end)
      end
  end.

(** ** The device's handlers

    [device] is the caller's, verified before; answers are plain text, so only
    their status is kept. *)

(** [strconv.ParseInt] with its error dropped: 0 on a bad number, the nearest
    int64 on one out of range. *)
Definition parse_since (t : string) : Z :=
  let '(neg, digits) := match t with
    | String "-"%char t => (true, t) | String "+"%char t => (false, t) | _ => (false, t) end in
  match digits with
  | EmptyString => 0
  | _ => match digits_val 0 digits with
         | None => 0
         | Some n => let z := if neg then - n else n in Z.max (- 2 ^ 63) (Z.min (2 ^ 63 - 1) z)
         end
  end.

Definition device_get (device since : string) (s : Store) : reply :=
  let since := Z.max 0 (parse_since since) in
  let '(cs, v) := Changes s device since in ok (ODelta v since cs).

(** [deviceUpsert]; [body] is [None] for bad JSON. *)
Definition deviceUpsert (w : draws) (device id : string) (body : option Contact) (s : Store) : Store * reply :=
  match body with
  | None => (s, refuse (done_with 400))
  | Some c =>
      let '(s, r) := Upsert (fst (draw w 0)) (snd (draw w 0)) (at_ w) device (with_id id c) (mkOpts [] "device") (saved w) s in
      (s, match r with
          | inl ErrInvalid => refuse (done_with 400)
          | inl _ => refuse (done_with 500)
          | inr c => ok (OContact c)
          end)
  end.

Definition device_delete (w : draws) (device id : string) (s : Store) : Store * reply :=
  let '(s, r) := Delete (at_ w) device id (mkOpts [] "device") (saved w) s in
  (s, match r with inl _ => refuse (done_with 500) | inr true => refuse (done_with 204) | inr false => refuse (done_with 404) end).
End admin.

(** ** What a valid list is *)

Lemma list_fault_None cs : forall i seen, list_fault i seen cs = None ->
  Forall (fun c => exists p, validateContact c p = None) cs /\ NoDup (map (fun c => to_lower (URI c)) cs)
  /\ Forall (fun c => to_lower (URI c) ∉ seen) cs.
Proof.
  induction cs as [|c cs IH]; intros i seen; [intros _; repeat constructor|]. cbn [list_fault map].
  destruct (validateContact _ _) eqn:Hv; [done|]. case_decide as Hs; [done|]. intros H. destruct (IH _ _ H) as (H1&H2&H3).
  split; [constructor; eauto|]. split; [|constructor; [done|]].
  - constructor; [|done]. intros (d&Ed&Hd)%list_elem_of_fmap. apply (proj1 (Forall_forall _ _) H3 d Hd). rewrite <- Ed. set_solver.
  - eapply Forall_impl; [exact H3|]. cbn. set_solver.
Qed.

Lemma validateContact_validate c p : validateContact c p = None -> validate c = true.
Proof.
  unfold validateContact, validate. case_decide as Hu; [done|]. destruct (negb _ || _); [done|]. case_decide as Hm; [done|]. intros _.
  rewrite bool_decide_eq_true_2 by done. destruct (Mode_ c); [|done|done]; apply bool_decide_eq_true_2; auto.
Qed.

Lemma contacts_drawing w cs : contacts_of (drawing w cs) = cs.
Proof.
  unfold contacts_of, drawing.
  assert (forall g : nat -> Contact -> Contact * list string * string, (forall i c, fst (fst (g i c)) = c) ->
    map (fun x => fst (fst x)) (imap g cs) = cs) as H; [|by apply H].
  induction cs as [|c cs IH]; intros g Hg; [done|]. cbn. rewrite Hg. f_equal. apply IH. intros i d. apply Hg.
Qed.

Lemma validate_drawing w cs i : list_fault i ∅ cs = None -> forallb (fun x => validate (fst (fst x))) (drawing w cs) = true.
Proof.
  intros H. apply list_fault_None in H as (H&_&_). apply forallb_forall. intros x Hx%list_elem_of_In.
  assert (fst (fst x) ∈ contacts_of (drawing w cs)) as Hc by (by apply (list_elem_of_fmap_2 (fun x => fst (fst x)))).
  rewrite contacts_drawing in Hc. destruct (proj1 (Forall_forall _ _) H _ Hc) as (p&Hp). by eapply validateContact_validate.
Qed.

Lemma device_id_ok id : DeviceIDRe id = true -> checkDeviceID id = true /\ id <> "".
Proof.
  intros H. destruct (names_stay_inside id (or_introl H)) as (_&Hne&Hd&Hdd). split; [|done].
  unfold checkDeviceID. rewrite (bool_decide_eq_false_2 _ Hd), (bool_decide_eq_false_2 _ Hdd), !orb_false_r.
  apply negb_true_iff, not_true_iff_false. intros Hs.
  assert (forall s, has_slash s = true -> "/"%char ∈ T s \/ "\"%char ∈ T s) as Hsl.
  { induction s as [|c s IH]; [done|]. cbn [has_slash]. intros [Hc|Hc]%orb_prop.
    - apply bool_decide_eq_true in Hc as [->| ->]; cbn; [left|right]; left.
    - destruct (IH Hc); cbn; [left|right]; by right. }
  destruct (Hsl id Hs) as [Hi|Hi]; unfold DeviceIDRe in H; (destruct (T id) as [|c t]; [done|]);
    apply andb_prop in H as [[Ha _]%andb_prop Ht]; (apply elem_of_cons in Hi as [<-|Hi]; [done|]);
    (apply list_elem_of_In in Hi; rewrite forallb_forall in Ht; by apply Ht in Hi).
Qed.

(** ** Counting *)

(** The contacts live at [u]. *)
Definition live_map (u : string) (m : gmap string Contact) : gmap string Contact := filter (fun kc => live_at u kc.2 = true) m.

Lemma live_map_same u m m' : same_live u m m' -> live_map u m' = live_map u m.
Proof.
  intros H. apply map_eq. intros k. apply option_eq. intros c. unfold live_map. rewrite !map_lookup_filter_Some. cbn.
  specialize (H k c). naive_solver.
Qed.

Definition only {A} (l : list A) : option A := match l with [x] => Some x | _ => None end.

Lemma only_perm {A} (l l' : list A) : l ≡ₚ l' -> only l = only l'.
Proof.
  intros H. pose proof (Permutation_length H) as Hl. destruct l as [|a [|b l]]; destruct l' as [|a' [|b' l']]; try done.
  by apply Permutation_singleton_inj in H as ->.
Qed.

Lemma liveByURILocked_map st u : liveByURILocked st u = only (map_to_list (live_map u (Contacts_ st))).*2.
Proof.
  unfold liveByURILocked, live_map. rewrite filter_map_snd. apply (only_perm _ _).
  f_equiv. symmetry. apply map_to_list_filter.
Qed.

Definition same_as (c s : Contact) : bool :=
  bool_decide (DisplayName s = DisplayName c) && bool_decide (Mode_ s = Mode_ c) && eqb (Favourite s) (Favourite c).

(** What one contact of a list adds to the counts of added and of changed. *)
Definition verdict (m : gmap string Contact) (c : Contact) : Z * Z :=
  let l := live_map (URI c) m in
  if match only (map_to_list l).*2 with Some s => same_as c s | None => false end then (0, 0)
  else if decide (l = ∅) then (1, 0) else (0, 1).

Definition tally (m : gmap string Contact) (cs : list Contact) : Z * Z :=
  foldr (fun c t => (fst (verdict m c) + fst t, snd (verdict m c) + snd t)) (0, 0) cs.

Lemma replace_one c order newid now v st : ids_ok st -> draws_ok [(c, order, newid)] now v st ->
  let '(_, a, ch) := replace_loop [(c, order, newid)] now v st 0 0 in (a, ch) = verdict (Contacts_ st) c.
Proof.
  intros Hst (Ho&Hnew&_&_). cbn [replace_loop]. set (c0 := mkContact "" _ _ _ _ _ _ _). unfold verdict.
  change (URI c0) with (URI c). rewrite liveByURILocked_map. set (l := live_map (URI c) (Contacts_ st)).
  change (match only (map_to_list l).*2 with Some s => same_as c s | None => false end)
    with (match only (map_to_list l).*2 with
          | Some s => bool_decide (DisplayName s = DisplayName c) && bool_decide (Mode_ s = Mode_ c) && eqb (Favourite s) (Favourite c)
          | None => false end).
  cbn [DisplayName Mode_ Favourite c0].
  destruct (match only (map_to_list l).*2 with Some s => _ | None => false end); [done|].
  pose proof (upsertLocked_lookup order newid now st c0 v Hst Ho Hnew eq_refl) as H.
  destruct (upsertLocked _ _ _ _ _ _) as [[st' out] e]. destruct H as (_&_&He). destruct e.
  - destruct He as (x&Hx&Hl). rewrite decide_False; [done|]. intros E.
    assert (l !! ID out = Some x) as Hin by (by apply map_lookup_filter_Some). by rewrite E, lookup_empty in Hin.
  - destruct He as [_ Hno]. rewrite decide_True; [done|]. apply map_empty. intros k. apply map_lookup_filter_None. right.
    intros x Hx. cbn. specialize (Hno k x Hx). cbn in Hno. by rewrite Hno.
Qed.

Lemma verdict_same m m' c : same_live (URI c) m m' -> verdict m' c = verdict m c.
Proof. intros H. unfold verdict. by rewrite (live_map_same _ _ _ H). Qed.

Lemma tally_same m m' cs : Forall (fun c => same_live (URI c) m m') cs -> tally m' cs = tally m cs.
Proof. unfold tally. induction 1 as [|c cs H _ IH]; [done|]. cbn [foldr]. by rewrite IH, (verdict_same m m' c H). Qed.

Lemma replace_tally cs : forall now v st, ids_ok st -> 0 < v -> draws_ok cs now v st ->
  NoDup (map (fun c => to_lower (URI c)) (contacts_of cs)) ->
  let '(_, a, ch) := replace_loop cs now v st 0 0 in (a, ch) = tally (Contacts_ st) (contacts_of cs).
Proof.
  induction cs as [|x cs IH]; intros now v st Hst Hv Hd Hnd; [done|].
  apply draws_ok_cons in Hd as [Hx Hd]. destruct x as [[c o] n]. pose proof (replace_one c o n now v st Hst Hx) as H0.
  pose proof (replace_step (c, o, n) now v st Hst Hv Hx) as H1. change ((c, o, n) :: cs) with ([(c, o, n)] ++ cs). rewrite replace_loop_app.
  destruct (replace_loop [(c, o, n)] now v st 0 0) as [[st1 a1] ch1]. destruct H1 as (Hv1&Hc1&_&Hs1). cbn [fst] in Hd, Hs1.
  pose proof (replace_loop_counts cs now v st1 a1 ch1) as Hn.
  assert (ids_ok st1) as Hst1 by (eapply ids_ok_changed; [done| |done]; rewrite Hv1; apply Hst).
  cbn [contacts_of map app] in Hnd. apply NoDup_cons in Hnd as [Hni Hnd]. fold (contacts_of cs) in *.
  specialize (IH now v st1 Hst1 Hv Hd Hnd). destruct (replace_loop cs now v st1 0 0) as [[st' a'] ch']. destruct Hn as [-> _].
  cbn [contacts_of map app tally foldr fst]. fold (contacts_of cs). fold (tally (Contacts_ st) (contacts_of cs)). rewrite <- H0.
  rewrite <- (tally_same (Contacts_ st) (Contacts_ st1)), <- IH; [done|].
  apply Forall_forall. intros d Hdin. apply Hs1. unfold equal_fold. apply bool_decide_eq_false_2. intros E. apply Hni.
  change (to_lower (URI (fst (fst (c, o, n))))) with (to_lower (URI c)). cbn in E. rewrite <- E. by apply (list_elem_of_fmap_2 (fun c => to_lower (URI c))).
Qed.

(** The contacts a list leaves out. *)
Definition left_out (m : gmap string Contact) (cs : list Contact) : gmap string Contact :=
  filter (fun kc => Deleted kc.2 = false /\ last_at (URI kc.2) cs = None) m.

Lemma left_out_same m m' cs : (forall u, last_at u cs = None -> same_live u m m') -> left_out m' cs = left_out m cs.
Proof.
  intros H. apply map_eq. intros k. apply option_eq. intros c. unfold left_out. rewrite !map_lookup_filter_Some. cbn.
  assert (Deleted c = false -> live_at (URI c) c = true) as Hl by (unfold live_at, equal_fold; intros ->; by rewrite bool_decide_eq_true_2).
  split; intros (Hk&Hd&Hu); (split; [|done]); by apply (H (URI c) Hu k c (Hl Hd)).
Qed.

Lemma removed_count cs m :
  length (filter (fun c => dropped (list_to_set (map (fun x => to_lower (URI (fst (fst x)))) cs)) c = true) (map_to_list m).*2)
  = size (left_out m (contacts_of cs)).
Proof.
  rewrite filter_map_snd, length_fmap, <- (length_map_to_list (left_out _ _)). unfold left_out.
  rewrite (Permutation_length (map_to_list_filter _ _)). f_equal. apply list_filter_iff. intros [k c]. cbn. unfold dropped.
  pose proof (elem_of_kept (URI c) cs) as Hk. rewrite andb_true_iff, negb_true_iff, bool_decide_eq_true. rewrite Hk.
  split; intros [Hd Hu]; (split; [done|]); [by apply dec_stable|by intros ?].
Qed.

(** The counts of a reconcile do not depend on what it draws. *)
Definition counts (m : gmap string Contact) (cs : list Contact) : Z * Z * Z := (tally m cs, Z.of_nat (size (left_out m cs))).

Lemma replaceLocked_counts st cs now : ids_ok st -> draws_ok cs now (st_Version st + 1) st ->
  NoDup (map (fun c => to_lower (URI c)) (contacts_of cs)) ->
  let '(_, res, _) := replaceLocked st cs now in (Added res, Changed res, Removed res) = counts (Contacts_ st) (contacts_of cs).
Proof.
  intros Hst Hd Hnd. unfold replaceLocked, counts. assert (0 < st_Version st + 1) as Hv by (destruct Hst; lia).
  pose proof (replace_tally cs now _ st Hst Hv Hd Hnd) as Ht. pose proof (replace_loop_spec cs now _ st Hst Hv Hd) as Hs.
  destruct (replace_loop cs now (st_Version st + 1) st 0 0) as [[st1 a] ch]. destruct Hs as (_&_&Hu). cbn [Added Changed Removed].
  rewrite removed_count, (left_out_same (Contacts_ st) (Contacts_ st1)), <- Ht; [done|].
  intros u Hn. specialize (Hu u). by rewrite Hn in Hu.
Qed.

(** ** The reconcile, whole *)

(** The live contacts of [m] are those of [cs]. *)
Definition lists (cs : list Contact) (m : gmap string Contact) : Prop :=
  (forall c, c ∈ cs -> one_live (URI c) c m)
  /\ forall k x, m !! k = Some x -> Deleted x = false -> exists c, c ∈ cs /\ equal_fold (URI x) (URI c) = true.

Lemma last_at_in cs c : NoDup (map (fun c => to_lower (URI c)) cs) -> c ∈ cs -> last_at (URI c) cs = Some c.
Proof.
  induction cs as [|d cs IH]; intros Hnd Hc; [by apply elem_of_nil in Hc|]. cbn [map] in Hnd. apply NoDup_cons in Hnd as [Hni Hnd].
  cbn [last_at]. apply elem_of_cons in Hc as [<-|Hc]; [|by rewrite IH].
  assert (last_at (URI c) cs = None) as ->.
  { apply last_at_None, Forall_forall. intros e He. apply bool_decide_eq_false_2. intros E. apply Hni. rewrite E.
    by apply (list_elem_of_fmap_2 (fun c => to_lower (URI c))). }
  unfold equal_fold. by rewrite bool_decide_eq_true_2.
Qed.

Lemma last_at_Some u cs c : last_at u cs = Some c -> c ∈ cs /\ equal_fold u (URI c) = true.
Proof.
  induction cs as [|d cs IH]; [done|]. cbn [last_at]. destruct (last_at u cs) as [e|] eqn:E.
  - intros [= ->]. destruct (IH eq_refl). split; [by right|done].
  - destruct (equal_fold u (URI d)) eqn:Ef; [|done]. intros [= <-]. split; [by left|done].
Qed.

Lemma lists_last_at cs m : NoDup (map (fun c => to_lower (URI c)) cs) ->
  (forall u, match last_at u cs with
             | Some d => one_live u d m
             | None => forall k c, m !! k = Some c -> live_at u c = false
             end) -> lists cs m.
Proof.
  intros Hnd H. split.
  - intros c Hc. specialize (H (URI c)). by rewrite (last_at_in cs c Hnd Hc) in H.
  - intros k x Hx Hd. specialize (H (URI x)). destruct (last_at (URI x) cs) as [c|] eqn:E; [exists c; by apply last_at_Some|].
    specialize (H k x Hx). unfold live_at, equal_fold in H. rewrite Hd in H. by rewrite bool_decide_eq_true_2 in H.
Qed.

Lemma Replace_ok cs now d wo ok s s' res : store_ok s -> draws_ok cs now (st_Version (stateLocked s d) + 1) (stateLocked s d) ->
  NoDup (map (fun c => to_lower (URI c)) (contacts_of cs)) -> Replace now d cs wo ok s = (s', inr res) ->
  checkAll (pre wo) (stateLocked s d) = true /\ r_Version res = VersionOf s' d
  /\ (Added res, Changed res, Removed res) = counts (Contacts_ (stateLocked s d)) (contacts_of cs)
  /\ lists (contacts_of cs) (Contacts_ (stateLocked s' d)) /\ forall d', d' <> d -> stateLocked s' d' = stateLocked s d'.
Proof.
  intros Hs Hdr Hnd Hre. pose proof (replace_makes_the_list cs now d wo ok s s' res Hs Hdr Hre) as (Hu&Hv&_&_).
  pose proof (state_ok_ids _ (stateLocked_ok s d Hs)) as Hst. pose proof (replaceLocked_counts _ cs now Hst Hdr Hnd) as Hc.
  rewrite VersionOf_eq. split; [|split; [done|split; [|split]]].
  - unfold Replace, replace_begin in Hre. case_decide; [done|]. destruct (negb (forallb _ cs)); [done|].
    destruct (negb (checkDeviceID d)); [done|]. by destruct (checkAll _ _).
  - unfold Replace, replace_begin in Hre. case_decide; [done|]. destruct (negb (forallb _ cs)); [done|].
    destruct (negb (checkDeviceID d)); [done|]. destruct (negb (checkAll _ _)); [done|].
    destruct (replaceLocked _ _ _) as [[st1 r] any]. destruct any; [|by injection Hre as <- <-].
    destruct (finish_write _ _ _) as [s1 []]; [|done]. by injection Hre as <- <-.
  - by apply lists_last_at.
  - intros d' Hne. pose proof (replace_outcome now d cs wo ok s Hs Hdr) as Ho. cbn [run] in Ho. rewrite Hre in Ho.
    destruct Ho as [_ [(E&_)|(_&_&_&st'&(Ed&_)&_)]]; [done|]. unfold stateLocked. rewrite Ed. cbn [op_device]. by rewrite lookup_insert_ne.
Qed.

Lemma Replace_err cs now d wo ok s s' e : store_ok s -> draws_ok cs now (st_Version (stateLocked s d) + 1) (stateLocked s d) ->
  d <> "" -> checkDeviceID d = true -> forallb (fun x => validate (fst (fst x))) cs = true ->
  Replace now d cs wo ok s = (s', inl e) ->
  same_content s s' /\ (e = ErrVersionMismatch /\ checkAll (pre wo) (stateLocked s d) = false \/ e = ErrWrite /\ ok = false).
Proof.
  intros Hs Hdr Hne Hid Hval Hre. split.
  - pose proof (replace_outcome now d cs wo ok s Hs Hdr) as Ho. cbn [run] in Ho. rewrite Hre in Ho.
    destruct Ho as [_ [?|(?&_)]]; done.
  - unfold Replace, replace_begin in Hre. rewrite decide_False, Hval, Hid in Hre by done. cbn [negb] in Hre.
    destruct (checkAll _ _); cbn [negb] in Hre; [right|left; by injection Hre as <- <-].
    destruct (replaceLocked _ _ _) as [[st1 r] any]. destruct any; [|done]. unfold finish_write in Hre. cbn [persistent with_devices] in Hre.
    destruct ok; [done|]. destruct (_ || _); [done|]. by injection Hre as <- <-.
Qed.

(** At the version a reader saw, the contacts are those it saw. *)
Lemma version_is_content ops s d : store_ok s -> runs_draws ops s -> VersionOf (runs ops s) d = VersionOf s d ->
  Contacts_ (stateLocked (runs ops s) d) = Contacts_ (stateLocked s d).
Proof.
  intros Hs Hd. destruct (runs_grown ops s Hs Hd) as [Hs' Hg]. rewrite !VersionOf_eq. intros E. apply map_eq. intros k.
  destruct (proj2 (Hg d) k) as [->|(c&Hc&Hlt)]; [done|]. pose proof (proj2 (stateLocked_ok _ d Hs') k c Hc) as (_&_&?). lia.
Qed.

(** ** A whole directory put *)

Lemma guarded_refuses token known authz id a : guarded token known authz id = Some a -> 300 <= a_status a.
Proof.
  unfold guarded. case_decide; [by intros [= <-]|]. destruct (negb (BearerMatches _ _)); [by intros [= <-]|].
  by destruct (negb (DeviceIDRe id) || negb (known id)); intros [= <-].
Qed.

Lemma guarded_device token known authz id : guarded token known authz id = None -> DeviceIDRe id = true.
Proof.
  unfold guarded. case_decide; [done|]. destruct (negb (BearerMatches _ _)); [done|]. by destruct (DeviceIDRe id).
Qed.

Lemma validateContact_refuses c p a : validateContact c p = Some a -> 300 <= a_status a.
Proof.
  unfold validateContact. case_decide; [by intros [= <-]|]. destruct (negb _ || _); [by intros [= <-]|].
  case_decide; [by intros [= <-]|]. by destruct (negb _); intros [= <-].
Qed.

Lemma list_fault_refuses cs : forall i seen a, list_fault i seen cs = Some a -> 300 <= a_status a.
Proof.
  induction cs as [|c cs IH]; intros i seen a; [done|]. cbn [list_fault]. destruct (validateContact _ _) as [x|] eqn:E.
  - intros [= <-]. by eapply validateContact_refuses.
  - case_decide; [by intros [= <-] | apply IH].
Qed.

Lemma versionMatch_refuses ifm a : versionMatch ifm = inl a -> 300 <= a_status a.
Proof.
  unfold versionMatch, IfMatchInt. destruct (IfMatch ifm) as [v|]; [|done]. destruct (Atoi v) as [n|]; [|by intros [= <-]].
  by destruct (n <? 0); [intros [= <-]|].
Qed.

Lemma storeError_refuses e : 300 <= a_status (storeError e).
Proof. by destruct e. Qed.

(** A dry run changes nothing. *)
Lemma put_dry_keeps token known w authz id ifm body s : fst (put_directory token known w authz id "1" ifm body s) = s.
Proof.
  unfold put_directory. destruct (guarded _ _ _ _); [done|]. destruct body as [|[cs|]]; [done| |done].
  destruct (maxContacts <? zlen cs); [done|]. destruct (list_fault 0 ∅ cs); [done|]. by vm_compute (decide ("1" = "")).
Qed.

(** A put that is answered as done has made the list of the device, and touched no
    other; one that is not has changed nothing. *)
Lemma put_outcome token known w authz id ifm cs s : store_ok s ->
  draws_ok (drawing w cs) (at_ w) (st_Version (stateLocked s id) + 1) (stateLocked s id) ->
  let '(s', r) := put_directory token known w authz id "" ifm (inr (Some cs)) s in
  (exists res, r = ok (OResult res) /\ lists cs (Contacts_ (stateLocked s' id)) /\ (forall d, d <> id -> stateLocked s' d = stateLocked s d) /\ store_ok s')
  \/ (300 <= a_status (fst r) /\ same_content s s').
Proof.
  intros Hs Hd. unfold put_directory. destruct (guarded _ _ _ _) as [a|] eqn:Hg; [right; split; [by eapply guarded_refuses | done]|].
  destruct (maxContacts <? zlen cs); [by right|]. destruct (list_fault 0 ∅ cs) as [a|] eqn:Hlf; [right; split; [by eapply list_fault_refuses | done]|].
  rewrite decide_True by done. destruct (versionMatch ifm) as [a|l] eqn:Hv; [right; split; [by eapply versionMatch_refuses | done]|].
  pose proof (validate_drawing w cs 0 Hlf) as Hval. apply list_fault_None in Hlf as (_&Hnd&_).
  destruct (device_id_ok id (guarded_device _ _ _ _ Hg)) as [Hck Hne].
  destruct (Replace _ _ _ _ _ _) as [s2 [e|res]] eqn:Hre.
  - right. apply Replace_err in Hre as [Hsame _]; [|done..]. split; [apply storeError_refuses | done].
  - left. exists res. split; [done|].
    assert (store_ok s2) as Hok.
    { pose proof (replace_outcome (at_ w) id (drawing w cs) (mkOpts l "admin") (saved w) s Hs Hd) as Ho. cbn [run] in Ho. rewrite Hre in Ho.
      by apply outcome_grown in Ho as [? _]. }
    apply Replace_ok in Hre as (_&_&_&Hl&Ho); [|done|done|by rewrite contacts_drawing]. by rewrite contacts_drawing in Hl.
Qed.

(** A result is answered with a 200. *)
Lemma put_result_ok token known w authz id dry ifm body s a r :
  snd (put_directory token known w authz id dry ifm body s) = (a, OResult r) -> a = done_with 200.
Proof.
  unfold put_directory. destruct (guarded _ _ _ _); [done|]. destruct body as [|[cs|]]; [done| |done]. destruct (maxContacts <? zlen cs); [done|].
  destruct (list_fault 0 ∅ cs); [done|]. case_decide.
  - destruct (versionMatch ifm); [done|]. destruct (Replace _ _ _ _ _ _) as [s2 [e|res]]; [done|]. by intros [= <- _].
  - case_decide; [|done]. destruct (DryRun _ _ _ _) as [e|res]; [done|]. by intros [= <- _].
Qed.

(** ** The preview *)

(** What the preview showed is what the upload does, or nothing: after a dry
    run of a list of contacts, and any upserts, deletes and replaces on any
    devices, sending the list with the version the dry run answered as its
    precondition either is refused because the directory has moved on, or fails
    because the file cannot be written or the device is gone, with nothing changed; or it adds, changes
    and removes exactly as many contacts as were shown, the live contacts of the
    device are then those of the list, one each, and no other device's changed. *)
Theorem the_preview_is_what_happens token known known1 w0 w1 authz id ifm0 ifm cs ops s v a ch rm :
  store_ok s -> runs_draws ops s ->
  draws_ok (drawing w0 cs) (at_ w0) (st_Version (stateLocked s id) + 1) (stateLocked s id) ->
  let s1 := runs ops s in
  draws_ok (drawing w1 cs) (at_ w1) (st_Version (stateLocked s1 id) + 1) (stateLocked s1 id) ->
  snd (put_directory token known w0 authz id "1" ifm0 (inr (Some cs)) s) = ok (OResult (mkResult v a ch rm)) ->
  IfMatchInt ifm = inr (Some v) ->
  let '(s2, r) := put_directory token known1 w1 authz id "" ifm (inr (Some cs)) s1 in
  (r = ok (OResult (mkResult (VersionOf s2 id) a ch rm)) /\ VersionOf s1 id = v /\ lists cs (Contacts_ (stateLocked s2 id))
     /\ forall d, d <> id -> stateLocked s2 d = stateLocked s1 d)
  \/ (r = refuse PreconditionFailed /\ VersionOf s1 id <> v /\ same_content s1 s2)
  \/ (r = refuse StoreError /\ saved w1 = false /\ same_content s1 s2)
  \/ (r = refuse NotFound /\ known1 id = false /\ s2 = s1).
Proof.
  intros Hs Hops Hd0 s1 Hd1 Hdry Hif. destruct (runs_grown ops s Hs Hops) as [Hs1 _]. fold s1 in Hs1.
  unfold put_directory in *. unfold guarded in *. destruct (decide (token = [])); [done|]. destruct (negb (BearerMatches _ _)); [done|].
  destruct (DeviceIDRe id) eqn:Hid; [|done]. destruct (negb (known id)); [done|]. cbn [negb orb] in *.
  destruct (known1 id) eqn:Hk1; cbn [negb]; [|by repeat right].
  destruct (maxContacts <? zlen cs); [done|]. destruct (list_fault 0 ∅ cs) as [x|] eqn:Hlf; [done|].
  pose proof (validate_drawing w0 cs 0 Hlf) as Hv0. pose proof (validate_drawing w1 cs 0 Hlf) as Hv1.
  apply list_fault_None in Hlf as (_&Hnd&_). destruct (device_id_ok id Hid) as [Hck Hne].
  destruct (decide ("1" = "")); [done|]. destruct (decide ("1" = "1" \/ _)) as [_|Hn]; [|by destruct Hn; left].
  cbn [snd] in Hdry. unfold DryRun in Hdry. rewrite decide_False, Hv0 in Hdry by done. cbn [negb] in Hdry.
  pose proof (replaceLocked_counts _ (drawing w0 cs) (at_ w0) (state_ok_ids _ (stateLocked_ok s id Hs)) Hd0) as Hc0.
  rewrite contacts_drawing in Hc0. specialize (Hc0 Hnd). destruct (replaceLocked _ _ _) as [[st0 r0] any0].
  injection Hdry as <- <- <- <-. rewrite decide_True by done. unfold versionMatch. rewrite Hif. rewrite <- (VersionOf_eq s id) in *.
  destruct (Replace _ _ _ _ _ _) as [s2 [e|res]] eqn:Hre.
  - apply Replace_err in Hre as [Hsame He]; [|done|done|done|done|done]. destruct He as [[-> Hpre]|[-> Hsv]].
    + right; left. split; [done|]. split; [|done]. intros E. cbn in Hpre. rewrite andb_true_r in Hpre. apply Z.eqb_neq in Hpre.
      rewrite <- VersionOf_eq in Hpre. congruence.
    + right; right; left. done.
  - apply Replace_ok in Hre; [|done|done|by rewrite contacts_drawing]. rewrite contacts_drawing in Hre. destruct Hre as (Hpre&Hrv&Hc1&Hl&Ho).
    cbn in Hpre. rewrite andb_true_r in Hpre. apply Z.eqb_eq in Hpre. rewrite <- VersionOf_eq in Hpre. symmetry in Hpre.
    left. split; [|done].
    pose proof (version_is_content ops s id Hs Hops Hpre) as Hvc. fold s1 in Hvc. rewrite Hvc, <- Hc0 in Hc1. destruct res as [rv ra rc rr]. cbn in *.
    injection Hc1 as -> -> ->. by rewrite Hrv.
Qed.

(** ** Examples *)

Definition new_list : list Contact := [example_contact "" "Bea" "sip:bea@pbx" 0; example_contact "" "Ann" "sip:ANN@pbx" 0].

(** Each contact of the list is matched against the contacts there are then. *)
Definition no_draw : list string * string := ([], "").
Definition draw_all (o0 o1 : list string) : nat -> list string * string := fun i => nth i [(o0, "ct_8"); (o1, "ct_9")] no_draw.

Definition after_first (s : Store) (now : Z) : state :=
  let st := stateLocked s "dev" in
  fst (fst (replace_loop [(example_contact "" "Bea" "sip:bea@pbx" 0, (map_to_list (Contacts_ st)).*1, "ct_8")] now (st_Version st + 1) st 0 0)).

Definition draws_at (s : Store) (now : Z) : draws :=
  mkDraws now (draw_all (map_to_list (Contacts_ (stateLocked s "dev"))).*1 (map_to_list (Contacts_ (after_first s now))).*1) true.

Lemma draws_at_ok s now : let st := stateLocked s "dev" in Contacts_ st !! "ct_8" = None -> Contacts_ (after_first s now) !! "ct_9" = None ->
  draws_ok (drawing (draws_at s now) new_list) now (st_Version st + 1) st.
Proof.
  intros st H8 H9. cbn [drawing new_list imap draws_ok]. split; [apply Permutation_refl|]. split; [discriminate|]. split; [exact H8|].
  split; [apply Permutation_refl|]. split; [discriminate|]. split; [exact H9|]. exact I.
Qed.

Definition front_door : text := T "Bearer secret".

Lemma the_preview_is_what_happens_witness :
  snd (put_directory (T "secret") (fun _ => true) (draws_at example_store 20) front_door "dev" "1" [] (inr (Some new_list)) example_store)
    = ok (OResult (mkResult 2 1 1 0))
  /\ let s1 := runs (firstn 1 example_ops) example_store in
     let '(s2, r) := put_directory (T "secret") (fun _ => true) (draws_at s1 30) front_door "dev" "" (T "2") (inr (Some new_list)) s1 in
     r = ok (OResult (mkResult 3 1 1 0)) /\ lists new_list (Contacts_ (stateLocked s2 "dev")).
Proof.
  assert (snd (put_directory (T "secret") (fun _ => true) (draws_at example_store 20) front_door "dev" "1" [] (inr (Some new_list)) example_store)
    = ok (OResult (mkResult 2 1 1 0))) as Hdry by (vm_compute; reflexivity).
  split; [exact Hdry|]. set (s1 := runs (firstn 1 example_ops) example_store).
  assert (runs_draws (firstn 1 example_ops) example_store) as Hops by (split; [apply (proj1 example_runs_draws)|exact I]).
  pose proof (the_preview_is_what_happens (T "secret") (fun _ => true) (fun _ => true) (draws_at example_store 20) (draws_at s1 30) front_door "dev" [] (T "2") new_list
    (firstn 1 example_ops) example_store 2 1 1 0 example_store_ok Hops
    (draws_at_ok example_store 20 ltac:(vm_compute; reflexivity) ltac:(vm_compute; reflexivity))
    (draws_at_ok s1 30 ltac:(vm_compute; reflexivity) ltac:(vm_compute; reflexivity)) Hdry ltac:(vm_compute; reflexivity)) as H.
  cbv zeta. fold s1 in H. destruct (put_directory _ _ (draws_at s1 30) _ _ _ _ _ _) as [s2 r] eqn:E.
  assert (r = ok (OResult (mkResult 3 1 1 0))) as Hr by (apply (f_equal snd) in E; cbn [snd] in E; rewrite <- E; vm_compute; reflexivity).
  split; [exact Hr|]. destruct H as [(_&_&Hl&_)|[(Hr'&_)|[(Hr'&_)|(Hr'&_)]]]; [exact Hl| | |]; exfalso; rewrite Hr in Hr'; discriminate Hr'.
Defined.

(** A phone's contact is taken with any name; the list that shows it to the
    operator is then refused when it is sent back as it is. *)
Definition phone_contact : Contact := example_contact "" (to_string (T "Front" ++ [Ascii.ascii_of_N 10] ++ T "desk")) "sip:1@pbx" 0.

Definition no_books : Store := mkStore true ∅ ∅ [].

Lemma listed_but_not_accepted :
  let '(s, r) := deviceUpsert (draws_at no_books 20) "dev" "" (Some phone_contact) no_books in
  a_status (fst r) = 200
  /\ match snd (get_directory (T "secret") (fun _ => true) front_door "dev" s) with
     | OList v cs => snd (put_directory (T "secret") (fun _ => true) (draws_at s 30) front_door "dev" "" (T "1") (inr (Some cs)) s)
                     = refuse (WriteFieldError 400 "invalid" "contacts[0].display_name")
     | _ => False
     end.
Proof. vm_compute. split; reflexivity. Qed.
