(* ===== verification/LogLevel.v ===== *)
(** The log level and the SIP trace switch (src/server/internal/loglevel):
    the controller with its generation, the timer that reverts it, and the
    handler of /v1/admin/log.

    A timer that has fired runs its function on a goroutine of its own, which
    may take the controller's lock later, after other calls: [fired] are the
    generations of those still to run.  The generation is a [Z]: wrapping its
    uint64 takes 2^64 calls. *)

From S2P Require Import Prelude Text Admin.
Open Scope Z_scope.

Definition LevelDebug : Z := -4.
Definition LevelInfo : Z := 0.
Definition LevelWarn : Z := 4.
Definition LevelError : Z := 8.

Definition MaxForSeconds : Z := 3600.
Definition PutLimit : Z := 1024.

Inductive log_error := ErrBadLevel | ErrForSecondsRequired | ErrForSecondsRange.

Definition levelName (l : Z) : string :=
  if l <=? LevelDebug then "debug" else if l <=? LevelInfo then "info" else if l <=? LevelWarn then "warn" else "error".

Definition parseLevel (s : string) : option Z :=
  if decide (s = "debug") then Some LevelDebug
  else if decide (s = "info") then Some LevelInfo
  else if decide (s = "warn") then Some LevelWarn
  else if decide (s = "error") then Some LevelError
  else None.

(** [timer]: when the pending timer fires and for which generation, until it does. *)
Record Controller := mkController {
  level : Z; trace : bool; startup_level : Z; startup_trace : bool;
  until : Z; timer : option (Z * Z); gen : Z; fired : list Z }.

Definition New (lvl : Z) (tr : bool) : Controller := mkController lvl tr lvl tr 0 None 0 [].

Record View := mkView { v_Level : string; v_SIPTrace : bool; v_Until : option Z; v_startup_Level : string; v_startup_SIPTrace : bool }.

Definition viewLocked (c : Controller) : View :=
  mkView (levelName (level c)) (trace c) (if is_zero (until c) then None else Some (until c)) (levelName (startup_level c)) (startup_trace c).

Definition cancelLocked (c : Controller) : Controller :=
  mkController (level c) (trace c) (startup_level c) (startup_trace c) 0 None (gen c + 1) (fired c).

Definition with_values (l : Z) (t : bool) (c : Controller) : Controller :=
  mkController l t (startup_level c) (startup_trace c) (until c) (timer c) (gen c) (fired c).

Definition revertLocked (c : Controller) : Controller :=
  let c := cancelLocked c in with_values (startup_level c) (startup_trace c) c.

Definition Set_ (lvl : option string) (sipTrace : option bool) (forSeconds : option Z) (now : Z) (c : Controller) : Controller * option log_error :=
  match (match lvl with Some s => parseLevel s | None => Some (level c) end) with
  | None => (c, Some ErrBadLevel)
  | Some newLevel =>
      let newTrace := default (trace c) sipTrace in
      if (match forSeconds with Some n => (n <? 1) || (MaxForSeconds <? n) | None => false end) then (c, Some ErrForSecondsRange)
      else if (match forSeconds with Some _ => false | None => (newLevel =? LevelDebug) || newTrace end) then (c, Some ErrForSecondsRequired)
      else
        let c := cancelLocked (with_values newLevel newTrace c) in
        match forSeconds with
        | None => (c, None)
        | Some n =>
            let d := n * ns_second in
            (mkController (level c) (trace c) (startup_level c) (startup_trace c) (now + d) (Some (now + d, gen c)) (gen c) (fired c), None)
        end
  end.

Definition expire (g : Z) (c : Controller) : Controller := if g =? gen c then revertLocked c else c.

(** PUT /v1/admin/log: the refusal of the body, or its three fields. *)
Definition put (body : answer + (option string * option bool * option Z)) (now : Z) (c : Controller) : Controller * answer * option View :=
  match body with
  | inl a => (c, a, None)
  | inr (lvl, tr, secs) =>
      let '(c, e) := Set_ lvl tr secs now c in
      match e with
      | None => (c, done_with 200, Some (viewLocked c))
      | Some ErrBadLevel => (c, WriteFieldError 400 "invalid" "level", None)
      | Some ErrForSecondsRequired => (c, WriteFieldError 400 "missing" "for_seconds", None)
      | Some ErrForSecondsRange => (c, WriteFieldError 400 "invalid" "for_seconds", None)
      end
  end.

(** ** Runs *)

(** The pending timer fires. *)
Definition fire (c : Controller) : Controller :=
  match timer c with
  | None => c
  | Some (_, g) => mkController (level c) (trace c) (startup_level c) (startup_trace c) (until c) None (gen c) (fired c ++ [g])
  end.

Definition ran (i : nat) (c : Controller) : Controller :=
  mkController (level c) (trace c) (startup_level c) (startup_trace c) (until c) (timer c) (gen c) (delete i (fired c)).

(** One step at the time [t]: a call, a timer that is due, a fired timer's function
    taking the lock. *)
Inductive step (t : Z) (c : Controller) : Controller -> Prop :=
  | step_put body c' a v : put body t c = (c', a, v) -> step t c c'
  | step_fire d g : timer c = Some (d, g) -> d <= t -> step t c (fire c)
  | step_expire i g : fired c !! i = Some g -> step t c (expire g (ran i c)).

(** The controller at the time [t]. *)
Inductive reachable (lvl : Z) (tr : bool) : Z -> Controller -> Prop :=
  | re_start t : 0 < t -> reachable lvl tr t (New lvl tr)
  | re_wait t t' c : reachable lvl tr t c -> t <= t' -> reachable lvl tr t' c
  | re_step t c c' : reachable lvl tr t c -> step t c c' -> reachable lvl tr t c'.

(** Every timer function that has fired runs, in order. *)
Definition drain (c : Controller) : Controller :=
  foldl (fun c g => expire g c) (mkController (level c) (trace c) (startup_level c) (startup_trace c) (until c) (timer c) (gen c) []) (fired c).

(** ** The bound *)

Definition hour : Z := MaxForSeconds * ns_second.

Record inv (lvl : Z) (tr : bool) (t : Z) (c : Controller) : Prop := {
  i_clock : 0 < t;
  i_startup : startup_level c = lvl /\ startup_trace c = tr;
  i_level : level c = lvl \/ LevelDebug <= level c;
  i_fired : Forall (fun g => g <= gen c) (fired c);
  i_timer : forall d g, timer c = Some (d, g) -> g = gen c /\ until c = d /\ d <> 0 /\ gen c ∉ fired c;
  i_armed : until c <> 0 -> (timer c = Some (until c, gen c) \/ gen c ∈ fired c) /\ until c <= t + hour;
  i_due : gen c ∈ fired c -> until c <> 0 /\ until c <= t;
  i_quiet : until c = 0 -> (level c <= LevelDebug -> level c = lvl) /\ (trace c = true -> tr = true);
}.

Lemma log_inv_wait lvl tr t t' c : t <= t' -> inv lvl tr t c -> inv lvl tr t' c.
Proof.
  intros Ht [H1 H2 Hl H3 H4 H5 H6 H7]. split; try done; [lia| |]; intros H; [destruct (H5 H)|destruct (H6 H)]; (split; [done|lia]).
Qed.

Lemma fresh_gen c : Forall (fun g => g <= gen c) (fired c) -> gen c + 1 ∉ fired c.
Proof. intros H Hi. pose proof (proj1 (Forall_forall _ _) H _ Hi). cbn in *. lia. Qed.

Lemma fired_up c : Forall (fun g => g <= gen c) (fired c) -> Forall (fun g => g <= gen c + 1) (fired c).
Proof. intros H. eapply Forall_impl; [exact H|]. cbn. lia. Qed.

Lemma parseLevel_level s l : parseLevel s = Some l -> LevelDebug <= l.
Proof. unfold parseLevel. repeat (case_decide; [by intros [= <-]|]). done. Qed.

Lemma log_inv_Set lvl tr t c l tr' secs : inv lvl tr t c -> inv lvl tr t (fst (Set_ l tr' secs t c)).
Proof.
  intros Hi. pose proof Hi as [H1 H2 Hlv H3 H4 H5 H6 H7]. unfold Set_.
  destruct (match l with Some s => parseLevel s | None => Some (level c) end) as [nl|] eqn:Hnl; [|done].
  assert (nl = lvl \/ LevelDebug <= nl) as Hnew.
  { destruct l as [s|]; [right; by eapply parseLevel_level|]. injection Hnl as <-. done. }
  pose proof (fresh_gen c H3) as Hf. pose proof (fired_up c H3) as Hle. destruct secs as [n|]; cbn [fst].
  - destruct ((n <? 1) || (MaxForSeconds <? n)) eqn:Hr; [done|]. apply orb_false_iff in Hr as [Hr1%Z.ltb_ge Hr2%Z.ltb_ge].
    assert (0 < n * ns_second <= hour) as Hb by (unfold hour, ns_second; lia).
    split; cbn; [done|done|done|done| | | |].
    + intros d g [= <- <-]. split; [done|]. split; [done|]. split; [lia|done].
    + intros _. split; [by left|lia].
    + intros Hin. by apply Hf in Hin.
    + intros E. lia.
  - destruct ((nl =? LevelDebug) || default (trace c) tr') eqn:Hr; [done|]. apply orb_false_iff in Hr as [Hr1%Z.eqb_neq Hr2].
    split; cbn; try done. intros _. split; [|by rewrite Hr2]. intros Hl. destruct Hnew; [done|lia].
Qed.

Lemma log_inv_expire lvl tr t c i g : inv lvl tr t c -> fired c !! i = Some g -> inv lvl tr t (expire g (ran i c)).
Proof.
  intros [H1 H2 Hlv H3 H4 H5 H6 H7] Hg. unfold expire. cbn [gen ran].
  assert (forall x, x ∈ delete i (fired c) -> x ∈ fired c) as Hsub by (intros x Hx; eapply elem_of_submseteq; [exact Hx|]; apply sublist_submseteq, sublist_delete).
  assert (forall P : Z -> Prop, Forall P (fired c) -> Forall P (delete i (fired c))) as Hfd.
  { intros P HP. apply Forall_forall. intros x Hx. apply (proj1 (Forall_forall _ _) HP), Hsub, Hx. }
  destruct (Z.eqb_spec g (gen c)) as [->|Hne].
  - destruct H2 as [<- <-]. split; cbn; try done; [by left|by apply Hfd, fired_up|intros Hin; by apply Hsub, (fresh_gen c H3) in Hin].
  - split; cbn; try done; [by apply Hfd| | |].
    + intros d g' Ht. destruct (H4 d g' Ht) as (?&?&?&Hn). do 3 (split; [done|]). intros Hin. by apply Hn, Hsub.
    + intros Hu. destruct (H5 Hu) as [[?|Hin] ?]; (split; [|done]); [by left|right].
      apply list_elem_of_lookup in Hin as (j&Hj). assert (j <> i) as Hji by congruence.
      apply list_elem_of_lookup. destruct (decide (j < i)%nat).
      * exists j. by rewrite list_lookup_delete_lt.
      * exists (j - 1)%nat. rewrite list_lookup_delete_ge by lia. by replace (S (j - 1)) with j by lia.
    + intros Hin. by apply H6, Hsub.
Qed.

Lemma log_inv_fire lvl tr t c d g : inv lvl tr t c -> timer c = Some (d, g) -> d <= t -> inv lvl tr t (fire c).
Proof.
  intros [H1 H2 Hlv H3 H4 H5 H6 H7] Ht Hd. unfold fire. rewrite Ht. destruct (H4 d g Ht) as (->&Hu&Hz&Hn).
  split; cbn; try done.
  - apply Forall_app. split; [done|]. by repeat constructor.
  - intros H. destruct (H5 H) as [_ ?]. split; [|done]. right. apply elem_of_app. right. by left.
  - intros _. subst d. done.
Qed.

Lemma log_inv_step lvl tr t c c' : inv lvl tr t c -> step t c c' -> inv lvl tr t c'.
Proof.
  intros Hi [body c1 a v Hp|d g Ht Hd|i g Hg].
  - unfold put in Hp. destruct body as [x|[[l s] n]]; [by injection Hp as <- _ _|].
    pose proof (log_inv_Set lvl tr t c l s n Hi) as Hs. destruct (Set_ l s n t c) as [c2 [[]|]]; by injection Hp as <- _ _.
  - by eapply log_inv_fire.
  - by apply log_inv_expire.
Qed.

Lemma log_inv_reachable lvl tr t c : reachable lvl tr t c -> inv lvl tr t c.
Proof.
  induction 1 as [t Ht|t t' c _ IH Hle|t c c' _ IH Hs].
  - split; cbn; try done; [by left|]. intros Hin. by apply elem_of_nil in Hin.
  - by eapply log_inv_wait.
  - by eapply log_inv_step.
Qed.

(** Once the current generation is among the fired, running them all reverts. *)
Lemma drain_reverts gs : forall c, gen c ∈ gs -> Forall (fun g => g <= gen c) gs ->
  let c' := foldl (fun c g => expire g c) c gs in level c' = startup_level c /\ trace c' = startup_trace c /\ until c' = 0.
Proof.
  assert (forall gs c, Forall (fun g => g < gen c) gs -> foldl (fun c g => expire g c) c gs = c) as Hstale.
  { clear. induction gs as [|g gs IH]; intros c H; [done|]. apply Forall_cons in H as [Hg H]. cbn [foldl]. unfold expire at 2.
    rewrite (proj2 (Z.eqb_neq g (gen c))) by lia. by apply IH. }
  induction gs as [|g gs IH]; intros c Hin Hle; [by apply elem_of_nil in Hin|]. apply Forall_cons in Hle as [Hg Hle]. cbn [foldl].
  assert (expire g c = if g =? gen c then revertLocked c else c) as -> by done. destruct (Z.eqb_spec g (gen c)) as [->|Hne].
  - rewrite Hstale; [done|]. cbn. eapply Forall_impl; [exact Hle|]. cbn. lia.
  - apply elem_of_cons in Hin as [?|Hin]; [congruence|]. by apply IH.
Qed.

(** Debug logging and the SIP trace never outlive their bound, and no setting is
    cut short: whatever calls and timers came before, in any order and with any
    delay, a level of debug or a trace that the server did not start with has a
    time at most an hour ahead, and once that time has come and the timer functions
    then due have run, the startup values are back; and a timer function changes the
    values only when the time of the latest setting has come. *)
Theorem debug_is_bounded lvl tr t c : reachable lvl tr t c ->
  (level c <= LevelDebug /\ level c <> lvl \/ trace c = true /\ tr = false ->
     until c <> 0 /\ until c <= t + hour
     /\ forall t', reachable lvl tr t' c -> until c <= t' -> let c' := drain (fire c) in level c' = lvl /\ trace c' = tr /\ until c' = 0)
  /\ (forall i g, fired c !! i = Some g -> let c' := expire g (ran i c) in
        level c' = level c /\ trace c' = trace c /\ until c' = until c \/ until c <> 0 /\ until c <= t).
Proof.
  intros Hr. pose proof (log_inv_reachable _ _ _ _ Hr) as Hi. pose proof Hi as [H1 [Hsl Hst] Hlv H3 H4 H5 H6 H7]. split.
  - intros Hd. assert (until c <> 0) as Hu by (intros E; destruct (H7 E) as [Ha Hb]; destruct Hd as [[Hx Hy]|[Hx Hy]]; [auto|rewrite Hb in Hy; done]).
    split; [done|]. destruct (H5 Hu) as [Hw Hle]. split; [done|]. intros t' Hr' Ht'. unfold drain.
    assert (level (fire c) = level c /\ startup_level (fire c) = lvl /\ startup_trace (fire c) = tr /\ gen (fire c) = gen c
      /\ gen c ∈ fired (fire c) /\ Forall (fun g => g <= gen c) (fired (fire c))) as (_&E1&E2&E3&E4&E5).
    { unfold fire. destruct (timer c) as [[d g]|] eqn:Ht.
      - destruct (H4 d g eq_refl) as (->&_&_&_). cbn. do 4 (split; [done|]). split; [apply elem_of_app; right; by left|].
        apply Forall_app. split; [done|]. by repeat constructor.
      - do 4 (split; [done|]). split; [|done]. by destruct Hw. }
    pose proof (drain_reverts (fired (fire c)) (mkController (level (fire c)) (trace (fire c)) (startup_level (fire c)) (startup_trace (fire c))
      (until (fire c)) (timer (fire c)) (gen (fire c)) [])) as Hdr. cbn [gen startup_level startup_trace] in Hdr. rewrite E3, E1, E2 in Hdr.
    rewrite E1, E2, E3. by apply Hdr.
  - intros i g Hg. unfold expire. cbn [gen ran]. destruct (Z.eqb_spec g (gen c)) as [->|Hne]; [|by left]. right. apply H6.
    by eapply list_elem_of_lookup_2.
Qed.

(** ** Examples *)

(** Debug for ten seconds is extended to a minute just as its timer fires: the
    timer's function comes too late and does nothing. *)
Definition debug_for (n : Z) : answer + (option string * option bool * option Z) := inr (Some "debug", None, Some n).
Definition first_set : Controller := fst (fst (put (debug_for 10) 1 (New LevelInfo false))).
Definition second_set : Controller := fst (fst (put (debug_for 60) (10 * ns_second + 1) (fire first_set))).

Lemma second_reachable : reachable LevelInfo false (11 * ns_second) second_set.
Proof.
  apply (re_wait _ _ (10 * ns_second + 1)); [|vm_compute; discriminate].
  eapply re_step; [|eapply (step_put _ _ (debug_for 60)); rewrite (surjective_pairing (put _ _ _)); rewrite (surjective_pairing (fst (put _ _ _))); reflexivity].
  eapply re_step; [|eapply (step_fire _ _ (10 * ns_second + 1) 1); [vm_compute; reflexivity|lia]].
  apply (re_wait _ _ 1); [|vm_compute; discriminate].
  eapply re_step; [|eapply (step_put _ _ (debug_for 10)); rewrite (surjective_pairing (put _ _ _)); rewrite (surjective_pairing (fst (put _ _ _))); reflexivity].
  apply re_start. lia.
Qed.

Lemma debug_is_bounded_witness :
  level second_set = LevelDebug /\ fired second_set = [1] /\ level (expire 1 (ran 0 second_set)) = LevelDebug
  /\ until second_set = 70 * ns_second + 1 /\ until second_set <= 11 * ns_second + hour
  /\ level (drain (fire second_set)) = LevelInfo.
Proof.
  pose proof (debug_is_bounded LevelInfo false (11 * ns_second) second_set second_reachable) as [H _].
  destruct H as (_&Hb&Hd); [left; split; [vm_compute; discriminate|vm_compute; discriminate]|].
  do 4 (split; [vm_compute; reflexivity|]). split; [exact Hb|].
  apply (Hd (70 * ns_second + 1)); [|vm_compute; discriminate].
  apply (re_wait _ _ (11 * ns_second)); [exact second_reachable|vm_compute; discriminate].
Defined.
