(* ===== verification/Diag.v ===== *)
(** Diagnostics from the phones (src/server/internal/diag): uploads into one
    directory per device, the operator's listing, download and deletion, and
    the sweeper that prunes old files.

    The file system is the directory [dir]: a device's name to what is there.
    A regular file has an identity (its inode), a modification time and its
    bytes; a symbolic link may lead to a regular file anywhere.  Failures of the
    operating system are arguments.  ReadDir's order does not matter to the
    sweep, which is therefore a filter of the map. *)

From S2P Require Import Prelude Text Net Admin.
Open Scope Z_scope.

(** ** Names *)

Definition MaxBytes : Z := 8388608.
Definition MaxList : Z := 1000.

Definition name_char (c : Ascii.ascii) : bool := alnum c || one_of "-_." c.

Fixpoint trim_dots (s : text) : text := match s with c :: s' => if decide (c = "."%char) then trim_dots s' else s | [] => [] end.

(** [clean]: what a header value leaves of itself in a path. *)
Definition clean (s : text) : text :=
  let out := rev (trim_dots (rev (trim_dots (List.filter name_char (TrimSpace s))))) in
  if 80 <? zlen out then take 80 out else out.

Definition has_suffix (s suf : text) : bool := has_prefix_t (rev suf) (rev s).

Definition ext (kind name : text) : text :=
  if has_suffix name (T ".ips") || bool_decide (kind = T "ips") then T ".ips"
  else if bool_decide (kind = T "metrickit") || has_suffix name (T ".json") then T ".json"
  else if has_suffix kind (T "log") then T ".log"
  else T ".txt".

(** ** The stamp that leads a name: "20060102T150405.000Z" *)

(** The date of a number of days since January 1 of year 1. *)
Definition civil (days : Z) : Z * Z * Z :=
  let z := days + 306 in
  let era := z / 146097 in
  let doe := z mod 146097 in
  let yoe := (doe - doe / 1460 + doe / 36524 - doe / 146096) / 365 in
  let doy := doe - (365 * yoe + yoe / 4 - yoe / 100) in
  let mp := (5 * doy + 2) / 153 in
  let d := doy - (153 * mp + 2) / 5 + 1 in
  let m := if mp <? 10 then mp + 3 else mp - 9 in
  (yoe + era * 400 + (if m <=? 2 then 1 else 0), m, d).

Definition leap (y : Z) : bool := (y mod 4 =? 0) && (negb (y mod 100 =? 0) || (y mod 400 =? 0)).
Definition days_in (m y : Z) : Z :=
  if m =? 2 then (if leap y then 29 else 28) else if (m =? 4) || (m =? 6) || (m =? 9) || (m =? 11) then 30 else 31.

(** [n] in [k] digits. *)
Fixpoint padded (k : nat) (n : Z) : text := match k with O => [] | S k => padded k (n / 10) ++ [digit (n mod 10)] end.

Definition stamp (t : Z) : text :=
  let s := t / ns_second in
  let '(y, m, d) := civil (s / 86400) in
  let r := s mod 86400 in
  padded 4 y ++ padded 2 m ++ padded 2 d ++ T "T" ++ padded 2 (r / 3600) ++ padded 2 (r / 60 mod 60) ++ padded 2 (r mod 60)
  ++ T "." ++ padded 3 (t mod ns_second / 1000000) ++ T "Z".

Definition digits_at (i n : nat) (s : text) : option Z := match digits_val 0 (to_string (take n (drop i s))) with Some v => Some v | None => None end.

(** [time.Parse(timeLayout, s)] succeeds. *)
Definition parses (s : text) : bool :=
  bool_decide (length s = 20%nat) && bool_decide (nth 8 s " "%char = "T"%char)
  && bool_decide (nth 15 s " "%char = "."%char \/ nth 15 s " "%char = ","%char) && bool_decide (nth 19 s " "%char = "Z"%char)
  && match digits_at 0 4 s, digits_at 4 2 s, digits_at 6 2 s, digits_at 9 2 s, digits_at 11 2 s, digits_at 13 2 s, digits_at 16 3 s with
     | Some y, Some mo, Some d, Some h, Some mi, Some se, Some _ =>
         (1 <=? mo) && (mo <=? 12) && (1 <=? d) && (d <=? days_in mo y) && (h <? 24) && (mi <? 60) && (se <? 60)
     | _, _, _, _, _, _, _ => false
     end.

(** [path.Ext] of a name without a slash. *)
Definition Ext (s : text) : text := match LastIndexByte s "."%char with Some i => drop i s | None => [] end.

Definition Kind (name : text) : text :=
  match Cut name "-"%char with
  | None => []
  | Some (st, rest) =>
      if parses st then
        let rest := take (length rest - length (Ext rest)) rest in
        match Cut rest "-"%char with Some (k, _) => k | None => rest end
      else []
  end.

Definition contentType (name : text) : string :=
  let e := ToLower (Ext name) in
  if bool_decide (e ∈ [T ".log"; T ".txt"; T ".ips"]) then "text/plain; charset=utf-8"
  else if bool_decide (e = T ".json") then "application/json"
  else "application/octet-stream".

(** ** Files *)

Record file := mkFile { ino : Z; mtime : Z; content : text }.

Inductive node := Regular (f : file) | Symlink (to : option file) | Folder.

(** What is under [dir]: a device's directory, or something else. *)
Inductive top := Dir (files : gmap string node) | NotDir.

Abbreviation fs := (gmap string top).

Definition files_of (d : fs) (device : string) : gmap string node := match d !! device with Some (Dir m) => m | _ => ∅ end.

Inductive os_error := NotExist | OtherFault.

(** [os.Lstat] of a file of the device. *)
Definition Lstat (d : fs) (device name : string) : option node := files_of d device !! name.

(** [os.Open], which follows a link: the file reached, or [None] for a directory. *)
Definition Open (d : fs) (device name : string) : os_error + option file :=
  match files_of d device !! name with
  | Some (Regular f) => inr (Some f)
  | Some (Symlink (Some f)) => inr (Some f)
  | Some Folder => inr None
  | Some (Symlink None) | None => inl NotExist
  end.

(** ** Uploads *)

Definition stored_name (now : Z) (kind name : text) : text :=
  let base := stamp now ++ T "-" ++ kind in
  let base := if decide (name = []) then base else base ++ T "-" ++ name in
  base ++ ext kind name.

(** [Store]; [inode] is the file's identity if it is a new one, [fault] whether
    the directory or the file cannot be made.  A write that fails half way, and
    leaves part of a file, is not modelled. *)
Definition Store (fault : bool) (inode now : Z) (device kind name body : text) (d : fs) : fs * option os_error :=
  let dev := to_string device in
  let n := to_string (stored_name now kind name) in
  if fault then (d, Some OtherFault) else
  match d !! dev with
  | Some NotDir => (d, Some OtherFault)
  | _ =>
      let files := files_of d dev in
      match files !! n with
      | Some Folder => (<[dev := Dir files]> d, Some OtherFault)
      | Some (Regular f) => (<[dev := Dir (<[n := Regular (mkFile (ino f) now body)]> files)]> d, None)
      | Some (Symlink (Some f)) => (<[dev := Dir (<[n := Symlink (Some (mkFile (ino f) now body))]> files)]> d, None)
      | Some (Symlink None) => (<[dev := Dir (<[n := Symlink (Some (mkFile inode now body))]> files)]> d, None)
      | None => (<[dev := Dir (<[n := Regular (mkFile inode now body)]> files)]> d, None)
      end
  end.

(** The upload handler behind its device check: the status. [body] is [None] when it
    is too large or unreadable. *)
Definition upload (fault : bool) (inode now : Z) (meth : string) (device kind name : text) (body : option text) (d : fs) : fs * Z :=
  if negb (bool_decide (meth = "POST")) then (d, 405) else
  let device := clean device in
  let kind := clean kind in
  let name := clean name in
  if decide (device = [] \/ kind = []) then (d, 400) else
  match body with
  | None => (d, 413)
  | Some b =>
      if MaxBytes <? zlen b then (d, 413) else
      let '(d, e) := Store fault inode now device kind name b d in
      (d, match e with Some _ => 500 | None => 204 end)
  end.

Definition Purge (fault : bool) (device : text) (d : fs) : fs * option os_error :=
  let device := clean device in
  if decide (device = []) then (d, None)
  else if fault then (d, Some OtherFault)
  else (delete (to_string device) d, None).

(** ** The operator's view *)

Record Entry := mkEntry { e_Name : string; e_Kind : text; e_Size : Z; e_At : Z }.

Definition newer (a b : string * file) : Prop := mtime (snd b) < mtime (snd a) \/ (mtime (snd a) = mtime (snd b) /\ String.le (fst b) (fst a)).

#[export] Instance newer_dec a b : Decision (newer a b).
Proof. unfold newer. apply _. Defined.

Definition regulars (m : gmap string node) : list (string * file) :=
  omap (fun kn => match snd kn with Regular f => Some (fst kn, f) | _ => None end) (map_to_list m).

Definition entry_of (r : string * file) : Entry := mkEntry (fst r) (Kind (T (fst r))) (zlen (content (snd r))) (mtime (snd r)).

(** [List]; [fault]: the directory or one of its files cannot be read. *)
Definition List_ (fault : bool) (d : fs) (device : string) : os_error + list Entry :=
  match d !! device with
  | None => inr []
  | Some NotDir => inl OtherFault
  | Some (Dir m) =>
      if fault then inl OtherFault
      else inr (map entry_of (take (Z.to_nat MaxList) (merge_sort newer (regulars m))))
  end.

Inductive served := SNone | SList (l : list Entry) | SFile (content_type : string) (body : text).

Definition reply : Type := answer * served.
Definition refuse (a : answer) : reply := (a, SNone).

Section admin.
Context (knownDevice : string -> bool).

Definition deviceID (id : string) : bool := DeviceIDRe id && knownDevice id.

(** [regular]. *)
Definition regular (fault : bool) (d : fs) (id name : string) : answer + file :=
  match Lstat d id name with
  | None => inl (if fault then StoreError else NotFound)
  | Some n => if fault then inl StoreError else match n with Regular f => inr f | _ => inl NotFound end
  end.

Definition list_files (fault : bool) (id : string) (d : fs) : reply :=
  if negb (deviceID id) then refuse NotFound
  else match List_ fault d id with inl _ => refuse StoreError | inr l => (done_with 200, SList l) end.

(** The download: [d'] is the file system when the file is opened, [faults] whether
    the look fails, and the opening or the look at what was opened. *)
Definition get_file (faults : bool * bool) (id name : string) (d d' : fs) : reply :=
  if negb (deviceID id) || negb (ValidDiagName name) then refuse NotFound
  else match regular (fst faults) d id name with
       | inl a => refuse a
       | inr info =>
           if snd faults then refuse StoreError else
           match Open d' id name with
           | inl NotExist => refuse NotFound
           | inl OtherFault => refuse StoreError
           | inr None => refuse NotFound
           | inr (Some f) => if bool_decide (ino info = ino f) then (done_with 200, SFile (contentType (T name)) (content f)) else refuse NotFound
           end
       end.

Definition remove (id name : string) (d : fs) : fs := <[id := Dir (delete name (files_of d id))]> d.

(** [gone]: what the removal met. *)
Definition delete_file (fault : bool) (gone : option os_error) (id name : string) (d : fs) : fs * reply :=
  if negb (deviceID id) || negb (ValidDiagName name) then (d, refuse NotFound)
  else match regular fault d id name with
       | inl a => (d, refuse a)
       | inr _ => match gone with
                  | Some NotExist => (d, refuse NotFound)
                  | Some OtherFault => (d, refuse StoreError)
                  | None => (remove id name d, refuse (done_with 204))
                  end
       end.

Definition delete_all (fault : bool) (id : string) (d : fs) : fs * reply :=
  if negb (deviceID id) then (d, refuse NotFound)
  else let '(d, e) := Purge fault (T id) d in
       (d, match e with Some _ => refuse StoreError | None => refuse (done_with 204) end).
End admin.

(** ** The sweep *)

(** A regular file last written before the cutoff. *)
Definition old (cutoff : Z) (n : node) : bool := match n with Regular f => before (mtime f) cutoff | _ => false end.

(** [stuck dev name]: the file cannot be looked at or removed; [unreadable dev]:
    the device's directory cannot be read. *)
Definition sweep_dir (stuck : string -> bool) (cutoff : Z) (m : gmap string node) : gmap string node * Z * bool :=
  let gone := filter (fun kn => old cutoff kn.2 = true /\ stuck kn.1 = false) m in
  (filter (fun kn => ~ (old cutoff kn.2 = true /\ stuck kn.1 = false)) m, Z.of_nat (size gone),
   bool_decide (map_Exists (fun k n => old cutoff n = true /\ stuck k = true) m)).

Definition swept_top (stuck : string -> string -> bool) (unreadable : string -> bool) (cutoff : Z) (dev : string) (t : top) : top :=
  match t with
  | Dir m => if unreadable dev then t else Dir (fst (fst (sweep_dir (stuck dev) cutoff m)))
  | NotDir => t
  end.

Definition swept_count (stuck : string -> string -> bool) (unreadable : string -> bool) (cutoff : Z) (dev : string) (t : top) : Z :=
  match t with Dir m => if unreadable dev then 0 else snd (fst (sweep_dir (stuck dev) cutoff m)) | NotDir => 0 end.

Definition swept_fault (stuck : string -> string -> bool) (unreadable : string -> bool) (cutoff : Z) (dev : string) (t : top) : bool :=
  match t with Dir m => unreadable dev || snd (sweep_dir (stuck dev) cutoff m) | NotDir => false end.

(** [Sweep]: the file system after it, how many it removed, and whether it returned
    an error. *)
Definition Sweep (fault : bool) (stuck : string -> string -> bool) (unreadable : string -> bool) (retain now : Z) (d : fs) : fs * Z * bool :=
  if retain <=? 0 then (d, 0, false) else
  if fault then (d, 0, true) else
  let cutoff := now - retain in
  (map_imap (fun dev t => Some (swept_top stuck unreadable cutoff dev t)) d,
   foldr (fun dt n => swept_count stuck unreadable cutoff (fst dt) (snd dt) + n) 0 (map_to_list d),
   existsb (fun dt => swept_fault stuck unreadable cutoff (fst dt) (snd dt)) (map_to_list d)).

(** ** Names that are safe and can be asked for *)

Lemma length_padded k : forall n, length (padded k n) = k.
Proof. induction k as [|k IH]; intros n; [done|]. cbn [padded]. rewrite length_app, IH. cbn. lia. Qed.

Lemma padded_digits k : forall n c, c ∈ padded k n -> is_digit c = true.
Proof.
  induction k as [|k IH]; intros n c; [by intros ?%elem_of_nil|]. cbn [padded]. intros [Hc|Hc]%elem_of_app; [by eapply IH|].
  apply list_elem_of_singleton in Hc as ->. apply digit_code, Z.mod_pos_bound. lia.
Qed.

Lemma length_stamp t : length (stamp t) = 20%nat.
Proof. unfold stamp. destruct (civil _) as [[y m] d]. rewrite !length_app, !length_padded. done. Qed.

Lemma digit_name_char c : is_digit c = true -> name_char c = true.
Proof.
  unfold is_digit, name_char, alnum, byte_z, ascii_code. intros H%bool_decide_eq_true. apply orb_true_iff. left. apply orb_true_iff. left.
  apply orb_true_iff. left. apply andb_true_iff. split; apply Z.leb_le; lia.
Qed.

Lemma stamp_chars t c : c ∈ stamp t -> name_char c = true.
Proof.
  unfold stamp. destruct (civil _) as [[y m] d]. rewrite !elem_of_app.
  intros Hc. decompose [or] Hc; first [by eapply digit_name_char, padded_digits | match goal with H : c ∈ T _ |- _ => apply list_elem_of_singleton in H as ->; reflexivity end].
Qed.

Lemma trim_dots_sub s c : c ∈ trim_dots s -> c ∈ s.
Proof. induction s as [|d s IH]; [done|]. cbn [trim_dots]. destruct (decide _); [|done]. intros Hc. right. auto. Qed.

Lemma clean_chars s c : c ∈ clean s -> name_char c = true.
Proof.
  unfold clean. set (out := rev _). intros H. assert (c ∈ out) as Hc.
  { destruct (80 <? zlen out); [|done]. eapply elem_of_submseteq; [exact H|]. apply sublist_submseteq, sublist_take. }
  unfold out in Hc. rewrite elem_of_rev in Hc. apply trim_dots_sub in Hc. rewrite elem_of_rev in Hc. apply trim_dots_sub in Hc.
  apply list_elem_of_In, filter_In in Hc as [_ Hc]. done.
Qed.

Lemma ext_chars kind name c : c ∈ ext kind name -> name_char c = true.
Proof.
  unfold ext. repeat case_match; intros Hc; (repeat apply elem_of_cons in Hc as [->|Hc]; try reflexivity; by apply elem_of_nil in Hc).
Qed.

Lemma length_ext kind name : (length (ext kind name) <= 5)%nat.
Proof. unfold ext. repeat case_match; cbn; lia. Qed.

Lemma stored_name_chars now kind name c : (forall c, c ∈ kind -> name_char c = true) -> (forall c, c ∈ name -> name_char c = true) ->
  c ∈ stored_name now kind name -> name_char c = true.
Proof.
  intros Hk Hn. unfold stored_name. intros [Hc|Hc]%elem_of_app; [|by eapply ext_chars]. case_decide.
  - rewrite !elem_of_app in Hc. destruct Hc as [Hc|[Hc|Hc]]; [by eapply stamp_chars|by apply list_elem_of_singleton in Hc as ->|auto].
  - rewrite !elem_of_app in Hc. destruct Hc as [[Hc|[Hc|Hc]]|[Hc|Hc]];
      [by eapply stamp_chars|by apply list_elem_of_singleton in Hc as ->|auto|by apply list_elem_of_singleton in Hc as ->|auto].
Qed.

Lemma stored_name_length now kind name : (length (stored_name now kind name) <= 27 + length kind + length name)%nat
  /\ (21 <= length (stored_name now kind name))%nat.
Proof.
  unfold stored_name. pose proof (length_ext kind name). case_decide; rewrite !length_app, length_stamp; cbn [length T String.list_ascii_of_string]; lia.
Qed.

Lemma name_char_class c : name_char c = true -> alnum c || one_of "._-" c = true.
Proof.
  unfold name_char. intros [H|H]%orb_prop; [by rewrite H|]. apply orb_true_iff. right. unfold one_of in *.
  apply bool_decide_eq_true in H. apply bool_decide_eq_true_2. cbn in H |- *. set_solver.
Qed.

Lemma stored_name_valid now kind name : (forall c, c ∈ kind -> name_char c = true) -> (forall c, c ∈ name -> name_char c = true) ->
  (length kind + length name <= 133)%nat -> ValidDiagName (to_string (stored_name now kind name)) = true.
Proof.
  intros Hk Hn Hlen. pose proof (stored_name_length now kind name) as [Hmax Hmin]. unfold ValidDiagName, DiagNameRe, matches. rewrite T_to_string.
  rewrite (proj2 (Nat.leb_le _ _)) by lia. rewrite (proj2 (Nat.leb_le (length _) 160)) by lia. cbn [andb].
  rewrite (proj2 (forallb_forall _ _)).
  2: { intros c Hc%list_elem_of_In. apply name_char_class. exact (stored_name_chars now kind name c Hk Hn Hc). }
  assert (forall s, length (T s) < 21 -> to_string (stored_name now kind name) <> s)%nat as Hne.
  { intros s Hs E. apply (f_equal T) in E. rewrite T_to_string in E. rewrite E in Hmin. lia. }
  rewrite (bool_decide_eq_true_2 (_ <> ".")), (bool_decide_eq_true_2 (_ <> "..")); [done| |]; apply Hne; cbn; lia.
Qed.

(** A device id is its own directory. *)
Lemma clean_device id : DeviceIDRe id = true -> clean (T id) = T id.
Proof.
  intros H. unfold DeviceIDRe in H. destruct (T id) as [|c t] eqn:E; [done|]. apply andb_prop in H as [[Ha Hlen%Nat.leb_le]%andb_prop Ht].
  assert (forall d, d ∈ c :: t -> alnum d || one_of "_-" d = true) as Hall.
  { intros d [<-|Hd]%elem_of_cons; [by rewrite Ha|]. rewrite forallb_forall in Ht. by apply Ht, list_elem_of_In. }
  assert (forall d, d ∈ c :: t -> is_space d = false /\ name_char d = true /\ d <> "."%char) as Hch.
  { intros d Hd%Hall. assert (name_char d = true) as Hnc.
    { unfold name_char. apply orb_prop in Hd as [->|Hd]; [done|]. apply orb_true_iff. right. unfold one_of in *.
      apply bool_decide_eq_true in Hd. apply bool_decide_eq_true_2. cbn in Hd |- *. set_solver. }
    split; [|split; [done|intros ->; done]]. apply not_true_is_false. intros Hs. unfold is_space in Hs. apply bool_decide_eq_true in Hs.
    clear -Hd Hs. unfold alnum, byte_z, one_of, ascii_code in *. rewrite !orb_true_iff, !andb_true_iff, !Z.leb_le, bool_decide_eq_true in Hd.
    destruct Hd as [Hd|Hd]; [lia|]. cbn in Hd. repeat apply elem_of_cons in Hd as [->|Hd]; [cbn in Hs; lia|cbn in Hs; lia|by apply elem_of_nil in Hd]. }
  unfold clean. rewrite TrimSpace_fix.
  2: { split; [intros d [= <-]; apply Hch; left|]. intros d Hd. apply Hch. by apply last_Some_elem_of. }
  assert (List.filter name_char (c :: t) = c :: t) as ->.
  { clear -Hch. induction (c :: t) as [|d l IH]; [done|]. cbn. destruct (Hch d ltac:(left)) as (_&->&_). f_equal. apply IH. intros e He. apply Hch. by right. }
  assert (forall l, (forall d, d ∈ l -> d <> "."%char) -> trim_dots l = l) as Htd.
  { intros [|d l] Hl; [done|]. cbn. by rewrite decide_False by (apply Hl; left). }
  rewrite (Htd (c :: t)) by (intros d Hd; by apply Hch). rewrite Htd by (intros d Hd; apply Hch; by apply elem_of_rev). rewrite rev_involutive.
  rewrite (proj2 (Z.ltb_ge _ _)); [done|]. unfold zlen. cbn [length]. lia.
Qed.

(** ** An upload and back *)

Lemma files_of_insert d dev m dev' : files_of (<[dev := Dir m]> d) dev' = if decide (dev' = dev) then m else files_of d dev'.
Proof. unfold files_of. destruct (decide _) as [->|]; [by rewrite lookup_insert_eq|by rewrite lookup_insert_ne]. Qed.

Lemma elem_of_regulars m n f : (n, f) ∈ regulars m <-> m !! n = Some (Regular f).
Proof.
  unfold regulars. rewrite list_elem_of_omap. split.
  - intros ([k x]&Hk&Hx). apply elem_of_map_to_list in Hk. cbn in Hx. destruct x; [|done|done]. by injection Hx as -> ->.
  - intros H. exists (n, Regular f). split; [by apply elem_of_map_to_list|done].
Qed.

(** What a phone uploads, the operator can read and remove: an upload whose kind
    and name are not too long, under a name not yet there, is accepted only if its
    bytes are then what a download of that name gives, with its size and kind in the
    listing of a device with at most a thousand files; deleting it brings back the
    files that were there before, and the upload itself touches no other file. *)
Theorem an_upload_can_be_read_back known fault inode now id kind name body d d' :
  DeviceIDRe id = true -> known id = true -> (length (clean kind) + length (clean name) <= 133)%nat ->
  let n := to_string (stored_name now (clean kind) (clean name)) in
  Lstat d id n = None -> upload fault inode now "POST" (T id) kind name (Some body) d = (d', 204) ->
  get_file known (false, false) id n d' d' = (done_with 200, SFile (contentType (T n)) body)
  /\ (zlen (regulars (files_of d' id)) <= MaxList ->
        exists l, list_files known false id d' = (done_with 200, SList l) /\ mkEntry n (Kind (T n)) (zlen body) now ∈ l)
  /\ (let '(d'', r) := delete_file known false None id n d' in
        r = refuse (done_with 204) /\ forall dev m, Lstat d'' dev m = Lstat d dev m)
  /\ forall dev m, (dev, m) <> (id, n) -> Lstat d' dev m = Lstat d dev m.
Proof.
  intros Hid Hkn Hlen n Hnew Hup.
  assert (ValidDiagName n = true) as Hval by (apply stored_name_valid; [intros c; apply clean_chars|intros c; apply clean_chars|done]).
  assert (d' = <[id := Dir (<[n := Regular (mkFile inode now body)]> (files_of d id))]> d) as ->.
  { unfold upload in Hup. rewrite bool_decide_eq_true_2, clean_device in Hup by done. cbn [negb] in Hup.
    destruct (decide (T id = [] \/ clean kind = [])); [done|]. destruct (MaxBytes <? zlen body); [done|]. unfold Store in Hup. rewrite to_string_T in Hup.
    fold n in Hup. unfold Lstat in Hnew. destruct fault; [done|]. destruct (d !! id) as [[m|]|]; [|done|]; rewrite Hnew in Hup; by injection Hup as <-. }
  set (f := mkFile inode now body). set (m := files_of d id).
  assert (forall dev, files_of (<[id := Dir (<[n := Regular f]> m)]> d) dev = if decide (dev = id) then <[n := Regular f]> m else files_of d dev) as Hfo
    by (intros dev; apply files_of_insert).
  assert (Lstat (<[id := Dir (<[n := Regular f]> m)]> d) id n = Some (Regular f)) as Hthere
    by (unfold Lstat; rewrite Hfo, decide_True by done; apply lookup_insert_eq).
  split; [|split; [|split]].
  - unfold get_file, deviceID, regular. rewrite Hid, Hkn, Hval, Hthere. cbn [negb orb andb fst snd]. unfold Open. unfold Lstat in Hthere. rewrite Hthere.
    by rewrite bool_decide_eq_true_2.
  - intros Hmax. unfold list_files, deviceID, List_. rewrite Hid, Hkn, lookup_insert_eq. cbn [negb andb]. eexists. split; [reflexivity|].
    rewrite Hfo, decide_True in Hmax by done. unfold zlen in Hmax. rewrite take_ge.
    2: { rewrite (Permutation_length (merge_sort_Permutation newer _)). lia. }
    apply list_elem_of_In, in_map_iff. exists (n, f). split; [done|]. apply list_elem_of_In. rewrite merge_sort_Permutation. apply elem_of_regulars, lookup_insert_eq.
  - unfold delete_file, deviceID, regular. rewrite Hid, Hkn, Hval, Hthere. cbn [negb orb andb]. split; [done|]. intros dev k. unfold remove, Lstat.
    rewrite files_of_insert, Hfo. destruct (decide (dev = id)) as [->|]; [|by rewrite Hfo, decide_False].
    rewrite decide_True by done. rewrite delete_insert_id by done. done.
  - intros dev k Hne. unfold Lstat. rewrite Hfo. destruct (decide (dev = id)) as [->|]; [|done]. rewrite lookup_insert_ne; [done|congruence].
Qed.

(** ** The sweep *)

Definition sum_over (f : string -> top -> Z) (d : fs) : Z := foldr (fun dt n => f (fst dt) (snd dt) + n) 0 (map_to_list d).

Lemma sum_over_imap f h d : sum_over f (map_imap (fun dev t => Some (h dev t)) d) = sum_over (fun dev t => f dev (h dev t)) d.
Proof.
  unfold sum_over. assert (map_to_list (map_imap (fun dev t => Some (h dev t)) d) ≡ₚ (fun dt => (fst dt, h (fst dt) (snd dt))) <$> map_to_list d) as Hp.
  { apply NoDup_Permutation; [apply NoDup_map_to_list| |].
    - apply (NoDup_fmap_1 fst). rewrite <- list_fmap_compose. apply NoDup_fst_map_to_list.
    - intros [k x]. rewrite elem_of_map_to_list, map_lookup_imap, list_elem_of_fmap. split.
      + destruct (d !! k) as [t|] eqn:E; [|done]. intros [= <-]. exists (k, t). split; [done|]. by apply elem_of_map_to_list.
      + intros ([k' t]&[= -> ->]&Ht). cbn in *. apply elem_of_map_to_list in Ht. by rewrite Ht. }
  rewrite (foldr_permutation_proper eq (fun dt n => f (fst dt) (snd dt) + n) 0 ltac:(cbn; intros; lia) _ _ Hp).
  clear Hp. induction (map_to_list d) as [|[k t] l IH]; [done|]. cbn. cbn in IH. lia.
Qed.

Lemma sum_over_add f g h d : (forall dev t, f dev t = g dev t + h dev t) -> sum_over f d = sum_over g d + sum_over h d.
Proof. intros H. unfold sum_over. induction (map_to_list d) as [|[k t] l IH]; [done|]. cbn. rewrite H, IH. lia. Qed.

(** The files of a file system. *)
Definition total (d : fs) : Z := sum_over (fun _ t => match t with Dir m => Z.of_nat (size m) | NotDir => 0 end) d.

Lemma size_split (P : string * node -> Prop) `{!forall x, Decision (P x)} (m : gmap string node) :
  Z.of_nat (size m) = Z.of_nat (size (filter (fun x => ~ P x) m)) + Z.of_nat (size (filter P m)).
Proof.
  rewrite <- (map_filter_union_complement P m) at 1. rewrite map_size_disj_union by apply map_disjoint_filter_complement. lia.
Qed.

(** The sweep removes what is too old, only that, and says how much: after it
    every name holds what it held, except regular files last written longer ago than
    the retention, which are gone unless they or their directory could not be
    handled; links and folders stay; the count is the number of files gone; when no
    error is returned no file older than the retention is left; and with no
    retention set nothing is removed. *)
Theorem the_sweep_takes_exactly_the_old fault stuck unreadable retain now d :
  let '(d', n, e) := Sweep fault stuck unreadable retain now d in
  (forall dev name, Lstat d' dev name = match Lstat d dev name with
     | Some (Regular f) =>
         if decide (0 < retain /\ fault = false /\ mtime f < now - retain /\ unreadable dev = false /\ stuck dev name = false)
         then None else Some (Regular f)
     | x => x
     end)
  /\ total d = total d' + n
  /\ (e = false -> 0 < retain -> forall dev name f, Lstat d' dev name = Some (Regular f) -> now - retain <= mtime f).
Proof.
  unfold Sweep. destruct (Z.leb_spec retain 0) as [Hr|Hr].
  { split; [|split; [lia|intros; lia]]. intros dev name. destruct (Lstat d dev name) as [[f| |]|]; try done. rewrite decide_False; [done|lia]. }
  destruct fault.
  { split; [|split; [lia|done]]. intros dev name. destruct (Lstat d dev name) as [[f| |]|]; try done. by rewrite decide_False by (by intros (_&?&_)). }
  set (cutoff := now - retain).
  assert (forall dev name, Lstat (map_imap (fun dev t => Some (swept_top stuck unreadable cutoff dev t)) d) dev name =
    match Lstat d dev name with
    | Some n => if decide (unreadable dev = false /\ old cutoff n = true /\ stuck dev name = false) then None else Some n
    | None => None end) as Hl.
  { intros dev name. unfold Lstat, files_of. rewrite map_lookup_imap. destruct (d !! dev) as [[m|]|]; cbn; [|done|done].
    destruct (unreadable dev); [destruct (m !! name); [by rewrite decide_False by (by intros [? _])|done]|]. cbn.
    destruct (m !! name) as [n|] eqn:En.
    - destruct (decide (false = false /\ old cutoff n = true /\ stuck dev name = false)) as [(_&Hy)|Hn].
      + apply map_lookup_filter_None. right. intros x Hx Hc. rewrite En in Hx. injection Hx as <-. by apply Hc.
      + apply map_lookup_filter_Some. split; [done|]. intros Hc. by apply Hn.
    - apply map_lookup_filter_None. by left. }
  split; [|split].
  - intros dev name. rewrite Hl. destruct (Lstat d dev name) as [[f| |]|]; [|by rewrite decide_False by (by intros (_&?&_))..|done].
    unfold old, before. destruct (Z.ltb_spec (mtime f) cutoff) as [Ho|Ho].
    + destruct (decide _) as [(?&_&?)|Hn]; [by rewrite decide_True|]. rewrite decide_False; [done|]. intros (_&_&_&?&?). by apply Hn.
    + rewrite !decide_False; [done|lia|]. by intros (_&?&_).
  - unfold total. rewrite sum_over_imap. fold (sum_over (swept_count stuck unreadable cutoff) d). apply sum_over_add.
    intros dev [m|]; [|done]. cbn. destruct (unreadable dev); [lia|]. cbn. apply size_split.
  - intros He _ dev name f Hf. rewrite Hl in Hf. destruct (Lstat d dev name) as [n|] eqn:En; [|done]. destruct (decide _) as [|Hn]; [done|]. injection Hf as ->.
    apply Z.nlt_ge. intros Hlt. fold cutoff in Hlt. assert (old cutoff (Regular f) = true) as Ho by (by apply Z.ltb_lt).
    apply not_true_iff_false in He. apply He. unfold Lstat, files_of in En. destruct (d !! dev) as [[m|]|] eqn:Ed; [|done|done].
    apply existsb_exists. exists (dev, Dir m). split; [by apply list_elem_of_In, elem_of_map_to_list|]. cbn.
    destruct (unreadable dev) eqn:Eu; [done|]. cbn. apply bool_decide_eq_true_2. exists name, (Regular f). split; [done|]. split; [done|].
    destruct (stuck dev name) eqn:Es; [done|]. by destruct Hn.
Qed.

(** ** Examples *)

(** One millisecond past noon on the first of October 2026, in nanoseconds since year 1. *)
Definition noon : Z := (739889 * 86400 + 43200) * ns_second + 1000000.

Example noon_stamp : to_string (stamp noon) = "20261001T120000.001Z" /\ parses (stamp noon) = true.
Proof. vm_compute. split; reflexivity. Qed.

Definition uploaded (kind name : string) : fs := fst (upload false 7 noon "POST" (T "dev_1") (T kind) (T name) (Some (T "boom")) ∅).

Lemma an_upload_can_be_read_back_witness :
  get_file (fun _ => true) (false, false) "dev_1" "20261001T120000.001Z-metrickit-crash.json" (uploaded "metrickit" "crash") (uploaded "metrickit" "crash")
  = (done_with 200, SFile "application/json" (T "boom")).
Proof.
  pose proof (an_upload_can_be_read_back (fun _ => true) false 7 noon "dev_1" (T "metrickit") (T "crash") (T "boom") ∅ (uploaded "metrickit" "crash")
    ltac:(vm_compute; reflexivity) eq_refl ltac:(vm_compute; lia) ltac:(vm_compute; reflexivity)) as H.
  assert (upload false 7 noon "POST" (T "dev_1") (T "metrickit") (T "crash") (Some (T "boom")) ∅ = (uploaded "metrickit" "crash", 204)) as Hup
    by (rewrite (surjective_pairing (upload _ _ _ _ _ _ _ _ _)); f_equal; vm_compute; reflexivity).
  destruct (H Hup) as [H1 _]. exact H1.
Defined.

(** Two names of the eighty characters [clean] lets through make a file the operator
    sees in the list and can neither download nor delete. *)
Definition eighty : string := to_string (replicate 80 "x"%char).

Lemma a_listed_file_out_of_reach :
  let d := uploaded eighty eighty in
  match list_files (fun _ => true) false "dev_1" d with
  | (_, SList [e]) => get_file (fun _ => true) (false, false) "dev_1" (e_Name e) d d = refuse NotFound
      /\ snd (delete_file (fun _ => true) false None "dev_1" (e_Name e) d) = refuse NotFound
  | _ => False
  end.
Proof. vm_compute. split; reflexivity. Qed.

(** The kind the uploads of the app carry is not the kind the list gives. *)
Lemma the_kind_is_cut :
  match list_files (fun _ => true) false "dev_1" (uploaded "app-log" "") with
  | (_, SList [e]) => e_Kind e = T "app"
  | _ => False
  end.
Proof. vm_compute. reflexivity. Qed.

(** Two uploads of one kind in one millisecond are one file. *)
Lemma the_second_upload_overwrites :
  let d := uploaded "metrickit" "" in
  let '(d', code) := upload false 8 noon "POST" (T "dev_1") (T "metrickit") [] (Some (T "bang")) d in
  code = 204 /\ map snd (regulars (files_of d' "dev_1")) = [mkFile 7 noon (T "bang")].
Proof. vm_compute. split; reflexivity. Qed.

(** A file replaced by a link between the look and the opening is not served. *)
Lemma a_swapped_link_is_refused :
  let name := "20261001T120000.001Z-metrickit.json" in
  let d := uploaded "metrickit" "" in
  let d' := <["dev_1" := Dir {[name := Symlink (Some (mkFile 1 0 (T "root:x:0:0")))]}]> d in
  get_file (fun _ => true) (false, false) "dev_1" name d d' = refuse NotFound.
Proof. vm_compute. reflexivity. Qed.
