(* ===== verification/FrontDoor.v ===== *)
(** What bounds the admin API (src/server/internal/admin/limit.go and chain.go):
    the token buckets, the cap on requests in flight, the cap on connections, the
    order of the chain, and the writer that turns plain 404s into the envelope.

    Tokens are counted exactly, in billionths; the rounding of the source's doubles
    is left out.  The clock readings, the order in which goroutines take a slot and
    the ends of connections are arguments or steps. *)

From S2P Require Import Prelude Text Net Admin.
Open Scope Z_scope.

(** ** The token buckets *)

Definition PerSourceRate : Z := 50.
Definition PerSourceBurst : Z := 100.
Definition GlobalRate : Z := 200.
Definition GlobalBurst : Z := 200.

(** One token. *)
Definition token : Z := ns_second.

Record bucket := mkBucket { b_tokens : Z; b_last : Z }.

Record RateLimiter := mkLimiter {
  sources : gmap string bucket; global : bucket; perRate : Z; perCap : Z; gRate : Z; gCap : Z; swept : Z }.

Definition with_buckets (m : gmap string bucket) (g : bucket) (l : RateLimiter) : RateLimiter :=
  mkLimiter m g (perRate l) (perCap l) (gRate l) (gCap l) (swept l).

Definition newRateLimiter (perRate perBurst gRate gBurst now : Z) : RateLimiter :=
  mkLimiter ∅ (mkBucket (gBurst * token) now) perRate perBurst gRate gBurst 0.

Definition NewRateLimiter (now : Z) : RateLimiter := newRateLimiter PerSourceRate PerSourceBurst GlobalRate GlobalBurst now.

Definition refill (b : bucket) (now rate capacity : Z) : bucket :=
  mkBucket (if after now (b_last b)
            then let t := b_tokens b + rate * (now - b_last b) in if capacity * token <? t then capacity * token else t
            else b_tokens b) now.

Definition sweepLocked (now : Z) (l : RateLimiter) : RateLimiter :=
  if now - swept l <? ns_second then l
  else mkLimiter (filter (fun kb => now - b_last kb.2 <= ns_minute) (sources l)) (global l) (perRate l) (perCap l) (gRate l) (gCap l) now.

Definition spend (b : bucket) : bucket := mkBucket (b_tokens b - token) (b_last b).

(** The request's own bucket [b] is found or made; both are filled and, if both can
    pay, pay. *)
Definition decide_on (src : string) (b : bucket) (now : Z) (l : RateLimiter) : RateLimiter * bool :=
  let b := refill b now (perRate l) (perCap l) in
  let g := refill (global l) now (gRate l) (gCap l) in
  if (b_tokens b <? token) || (b_tokens g <? token) then (with_buckets (<[src := b]> (sources l)) g l, false)
  else (with_buckets (<[src := spend b]> (sources l)) (spend g) l, true).

Definition Allow (src : string) (now : Z) (l : RateLimiter) : RateLimiter * bool :=
  match sources l !! src with
  | Some b => decide_on src b now l
  | None => decide_on src (mkBucket (perCap l * token) now) now (sweepLocked now l)
  end.

(** A history of requests, each with its source and time, and what each was answered. *)
Fixpoint log (allow : string -> Z -> RateLimiter -> RateLimiter * bool) (h : list (string * Z)) (l : RateLimiter) : list (string * Z * bool) :=
  match h with
  | [] => []
  | (src, now) :: h => let '(l, ok) := allow src now l in (src, now, ok) :: log allow h l
  end.

(** ** The limiter that never forgets *)

Definition Allow_all (src : string) (now : Z) (l : RateLimiter) : RateLimiter * bool :=
  decide_on src (default (mkBucket (perCap l * token) now) (sources l !! src)) now l.

Fixpoint ordered (from : Z) (h : list (string * Z)) : Prop :=
  match h with [] => True | (_, t) :: h => from <= t /\ ordered t h end.

(** A bucket that was not touched for a minute is as full as a new one. *)
Record same_buckets (now : Z) (l m : RateLimiter) : Prop := {
  sb_global : global l = global m;
  sb_rates : perRate l = perRate m /\ perCap l = perCap m /\ gRate l = gRate m /\ gCap l = gCap m;
  sb_kept : forall src b, sources l !! src = Some b -> sources m !! src = Some b;
  sb_gone : forall src b, sources l !! src = None -> sources m !! src = Some b -> ns_minute < now - b_last b;
  sb_paid : forall src b, sources m !! src = Some b -> 0 <= b_tokens b }.

Lemma same_later now now' l m : now <= now' -> same_buckets now l m -> same_buckets now' l m.
Proof. intros Hle [H1 H2 H3 H4 H5]. split; try done. intros src b Hl Hm. specialize (H4 _ _ Hl Hm). lia. Qed.

Lemma same_swept now l m : same_buckets now l m -> same_buckets now (sweepLocked now l) m.
Proof.
  intros [H1 H2 H3 H4 H5]. unfold sweepLocked. destruct (now - swept l <? ns_second); [done|]. split; try done; simpl.
  - intros src b [Hb _]%map_lookup_filter_Some. auto.
  - intros src b Hl Hm. apply map_lookup_filter_None in Hl as [Hl|Hl]; [eauto|].
    destruct (sources l !! src) as [b'|] eqn:E; [|eauto]. specialize (Hl _ eq_refl). simpl in Hl. apply H3 in E. simplify_eq. lia.
Qed.

Lemma refill_range b now rate cap : 0 <= b_tokens b -> 0 <= rate -> 0 <= cap -> 0 <= b_tokens (refill b now rate cap).
Proof.
  intros Hb Hr Hc. unfold refill, after, token, ns_second. simpl. destruct (Z.ltb_spec (b_last b) now); [|done].
  destruct (_ <? _); nia.
Qed.

Lemma refill_full b now rate cap : 0 <= b_tokens b -> 0 <= rate -> cap <= 60 * rate -> ns_minute < now - b_last b -> refill b now rate cap = mkBucket (cap * token) now.
Proof.
  intros Hb Hr Hc Ht. unfold refill, after. unfold ns_minute, token, ns_second in *. replace (b_last b <? now) with true by lia. f_equal.
  destruct (Z.ltb_spec (cap * 1000000000) (b_tokens b + rate * (now - b_last b))); nia.
Qed.

Lemma refill_now t now rate cap : refill (mkBucket t now) now rate cap = mkBucket t now.
Proof. unfold refill, after. simpl. by rewrite Z.ltb_irrefl. Qed.

(** Two limiters in this relation answer alike. *)
Lemma decide_same src b b' now l m : same_buckets now l m -> 0 <= perRate m -> 0 <= perCap m -> 0 <= b_tokens b ->
  refill b now (perRate l) (perCap l) = refill b' now (perRate m) (perCap m) ->
  snd (decide_on src b now l) = snd (decide_on src b' now m) /\
  same_buckets now (fst (decide_on src b now l)) (fst (decide_on src b' now m)).
Proof.
  intros [H1 (E1 & E2 & E3 & E4) H3 H4 H5] Hr Hc Hb Hrf. unfold decide_on. rewrite Hrf, H1, E3, E4.
  assert (Hp : 0 <= b_tokens (refill b' now (perRate m) (perCap m))) by (rewrite <- Hrf, E1, E2; by apply refill_range).
  set (c := refill b' now (perRate m) (perCap m)) in *. set (g := refill (global m) now (gRate m) (gCap m)).
  assert (Hall : forall x gx, 0 <= b_tokens x -> same_buckets now (with_buckets (<[src := x]> (sources l)) gx l) (with_buckets (<[src := x]> (sources m)) gx m)).
  { intros x gx Hx. split; simpl; try done.
    - intros s y. rewrite !lookup_insert_Some. intros [[-> ->]|[Hne Hy]]; [by left | right; auto].
    - intros s y Hl [[-> ->]|[Hne Hy]]%lookup_insert_Some; [by rewrite lookup_insert_eq in Hl|]. rewrite lookup_insert_ne in Hl by done. eauto.
    - intros s y [[-> ->]|[Hne Hy]]%lookup_insert_Some; [done | eauto]. }
  destruct (Z.ltb_spec (b_tokens c) token) as [?|Hge]; cbn [orb]; [split; [done | by apply Hall]|].
  destruct (b_tokens g <? token); (split; [done|]); apply Hall; [done|]. change (b_tokens (spend c)) with (b_tokens c - token). lia.
Qed.

Lemma Allow_same src now l m : same_buckets now l m -> 0 <= perRate m -> 0 <= perCap m -> perCap m <= 60 * perRate m ->
  snd (Allow src now l) = snd (Allow_all src now m) /\ same_buckets now (fst (Allow src now l)) (fst (Allow_all src now m)).
Proof.
  intros Hs Hr Hc H60. unfold Allow, Allow_all. pose proof Hs as [H1 (E1 & E2 & E3 & E4) H3 H4 H5].
  destruct (sources l !! src) as [b|] eqn:El.
  - rewrite (H3 _ _ El). simpl. apply decide_same; try done; [by eapply H5, H3 | by rewrite E1, E2].
  - apply decide_same; [by apply same_swept | done | done | simpl; unfold token, ns_second; rewrite E2; lia |].
    assert (perRate (sweepLocked now l) = perRate m /\ perCap (sweepLocked now l) = perCap m) as [-> ->]
      by (unfold sweepLocked; destruct (_ <? _); done).
    rewrite refill_now, E2. destruct (sources m !! src) as [b|] eqn:Em; simpl; [|by rewrite refill_now].
    symmetry. apply refill_full; [by eapply H5 | done | done | by eapply H4].
Qed.

Lemma rates_kept src b now l : let l' := fst (decide_on src b now l) in perRate l' = perRate l /\ perCap l' = perCap l /\ gRate l' = gRate l /\ gCap l' = gCap l.
Proof. unfold decide_on. destruct (_ || _); done. Qed.

Lemma log_same h : forall now l m, ordered now h -> same_buckets now l m -> 0 <= perRate m -> 0 <= perCap m -> perCap m <= 60 * perRate m ->
  log Allow h l = log Allow_all h m.
Proof.
  induction h as [|[src t] h IH]; intros now l m Ho Hs Hr Hc H60; simpl; [done|]. destruct Ho as [Ht Ho].
  destruct (Allow_same src t l m (same_later _ _ _ _ Ht Hs) Hr Hc H60) as [Ha Hs'].
  destruct (rates_kept src (default (mkBucket (perCap m * token) t) (sources m !! src)) t m) as (R1 & R2 & _).
  unfold Allow_all in *. destruct (Allow src t l) as [l' ok]. destruct (decide_on _ _ t m) as [m' ok']. simpl in *. subst ok'. f_equal.
  apply (IH t); try done; by rewrite ?R1, ?R2.
Qed.

(** ** How much a bucket pays *)

(** How many of those that [P] selects passed. *)
Definition counted (P : string -> bool) (seg : list (string * Z * bool)) : Z := zlen (List.filter (fun x => P (fst (fst x)) && snd x) seg).

Lemma counted_cons P x seg : counted P (x :: seg) = (if P (fst (fst x)) && snd x then 1 else 0) + counted P seg.
Proof. unfold counted, zlen. simpl. destruct (P _ && _); simpl; lia. Qed.

(** What a bucket holds at a time, [cap] if it does not exist. *)
Definition own (src : string) (now : Z) (l : RateLimiter) : bucket :=
  refill (default (mkBucket (perCap l * token) now) (sources l !! src)) now (perRate l) (perCap l).

Definition shared (now : Z) (l : RateLimiter) : bucket := refill (global l) now (gRate l) (gCap l).

(** Buckets that never hold more than their capacity or less than nothing, and were
    last filled by [now]. *)
Record sane (now : Z) (l : RateLimiter) : Prop := {
  sn_rates : 0 <= perRate l /\ 0 <= perCap l /\ 0 <= gRate l /\ 0 <= gCap l;
  sn_own : forall src b, sources l !! src = Some b -> 0 <= b_tokens b <= perCap l * token /\ b_last b <= now;
  sn_shared : 0 <= b_tokens (global l) <= gCap l * token /\ b_last (global l) <= now }.

Lemma refill_bounds b now rate cap : 0 <= b_tokens b <= cap * token -> 0 <= rate -> b_last b <= now ->
  0 <= b_tokens (refill b now rate cap) <= cap * token /\ b_tokens (refill b now rate cap) <= b_tokens b + rate * (now - b_last b).
Proof.
  intros Hb Hr Hl. unfold refill, after. simpl. destruct (Z.ltb_spec (b_last b) now); [|nia].
  destruct (Z.ltb_spec (cap * token) (b_tokens b + rate * (now - b_last b))); nia.
Qed.

Lemma refill_later b t now rate cap : 0 <= b_tokens b <= cap * token -> 0 <= rate -> b_last b <= t -> t <= now ->
  b_tokens (refill b now rate cap) <= b_tokens (refill b t rate cap) + rate * (now - t).
Proof.
  intros Hb Hr Hl Ht. unfold refill, after. simpl. destruct (Z.ltb_spec (b_last b) t), (Z.ltb_spec (b_last b) now); try lia;
    repeat match goal with |- context [Z.ltb ?a ?b] => destruct (Z.ltb_spec a b) end; nia.
Qed.

(** One request: what it costs its own bucket and the shared one, and that nobody
    else's changes. *)
Lemma allow_all_cost src now l : sane now l -> let '(l', ok) := Allow_all src now l in
  sane now l' /\ perRate l' = perRate l /\ perCap l' = perCap l /\ gRate l' = gRate l /\ gCap l' = gCap l
  /\ sources l' !! src = Some (mkBucket (b_tokens (own src now l) - (if ok then token else 0)) now)
  /\ global l' = mkBucket (b_tokens (shared now l) - (if ok then token else 0)) now
  /\ forall s, s <> src -> sources l' !! s = sources l !! s.
Proof.
  intros [(R1 & R2 & R3 & R4) Ho Hg]. unfold Allow_all, decide_on, own, shared.
  set (d := default (mkBucket (perCap l * token) now) (sources l !! src)).
  assert (Hd : 0 <= b_tokens d <= perCap l * token /\ b_last d <= now).
  { subst d. destruct (sources l !! src) as [b|] eqn:E; simpl; [by apply Ho in E|]. unfold token, ns_second. lia. }
  destruct (refill_bounds d now _ _ (proj1 Hd) R1 (proj2 Hd)) as [Hb _].
  destruct (refill_bounds (global l) now _ _ (proj1 Hg) R3 (proj2 Hg)) as [Hs _].
  set (b := refill d now (perRate l) (perCap l)) in *. set (g := refill (global l) now (gRate l) (gCap l)) in *.
  assert (b_last b = now /\ b_last g = now) as [Lb Lg] by done.
  assert (Hall : forall x y, 0 <= b_tokens x <= perCap l * token -> b_last x = now -> 0 <= b_tokens y <= gCap l * token -> b_last y = now ->
    sane now (with_buckets (<[src := x]> (sources l)) y l)).
  { intros x y Hx Lx Hy Ly. split; simpl; [done| |by rewrite Ly].
    intros s z [[-> ->]|[Hne Hz]]%lookup_insert_Some; [by rewrite Lx | by apply Ho in Hz]. }
  assert (Hfin : forall x y (ok : bool), x = mkBucket (b_tokens b - (if ok then token else 0)) now -> y = mkBucket (b_tokens g - (if ok then token else 0)) now ->
    0 <= b_tokens x -> 0 <= b_tokens y ->
    let l' := with_buckets (<[src := x]> (sources l)) y l in
    sane now l' /\ perRate l' = perRate l /\ perCap l' = perCap l /\ gRate l' = gRate l /\ gCap l' = gCap l
    /\ sources l' !! src = Some (mkBucket (b_tokens b - (if ok then token else 0)) now)
    /\ global l' = mkBucket (b_tokens g - (if ok then token else 0)) now
    /\ forall s, s <> src -> sources l' !! s = sources l !! s).
  { intros x y ok -> -> Hx Hy l'. subst l'. split; [apply Hall; simpl in *; destruct ok; unfold token, ns_second in *; lia|].
    repeat split; simpl; [by rewrite lookup_insert_eq|]. intros s Hne. by rewrite lookup_insert_ne. }
  clearbody b g. destruct b as [tb ?], g as [tg ?]. simpl in Lb, Lg. subst. unfold spend. cbn [b_tokens b_last] in *.
  destruct (Z.ltb_spec tb token) as [?|Hp1]; cbn [orb]; [apply (Hfin _ _ false); cbn [b_tokens]; rewrite ?Z.sub_0_r; done || lia|].
  destruct (Z.ltb_spec tg token) as [?|Hp2]; [apply (Hfin _ _ false) | apply (Hfin _ _ true)]; cbn [b_tokens]; rewrite ?Z.sub_0_r; done || lia.
Qed.

Lemma sane_later now now' l : now <= now' -> sane now l -> sane now' l.
Proof. intros Hle [H1 H2 H3]. split; [done| |lia]. intros src b Hb. apply H2 in Hb. lia. Qed.

Lemma own_later src from t l : sane from l -> from <= t -> b_tokens (own src t l) <= b_tokens (own src from l) + perRate l * (t - from).
Proof.
  intros [(R1 & R2 & _) Ho _] Ht. unfold own. destruct (sources l !! src) as [b|] eqn:E; cbn [from_option id].
  - apply Ho in E. apply refill_later; lia.
  - rewrite !refill_now. cbn [b_tokens]. nia.
Qed.

Lemma own_bounds src t l : sane t l -> 0 <= b_tokens (own src t l) <= perCap l * token.
Proof.
  intros [(R1 & R2 & _) Ho _]. unfold own. destruct (sources l !! src) as [b|] eqn:E; cbn [from_option id].
  - apply Ho in E. apply refill_bounds; lia.
  - rewrite refill_now. cbn [b_tokens]. unfold token, ns_second. lia.
Qed.

Definition is_source (src s : string) : bool := bool_decide (s = src).
Definition anyone (_ : string) : bool := true.

(** What passes from [from] to [to] is paid from what the buckets hold and get. *)
Lemma spent h : forall l from to, sane from l -> ordered from h -> Forall (fun x => snd x <= to) h -> from <= to ->
  (forall src, counted (is_source src) (log Allow_all h l) * token <= b_tokens (own src from l) + perRate l * (to - from))
  /\ counted anyone (log Allow_all h l) * token <= b_tokens (shared from l) + gRate l * (to - from).
Proof.
  induction h as [|[s t] h IH]; intros l from to Hs Ho Hu Hle; cbn [log].
  - pose proof Hs as [(R1 & R2 & R3 & R4) _ [Hg Hl]]. split.
    + intros src. pose proof (own_bounds src from l Hs). change (counted (is_source src) []) with 0.
      pose proof (Z.mul_nonneg_nonneg (perRate l) (to - from) R1 ltac:(lia)). lia.
    + destruct (refill_bounds (global l) from _ _ Hg R3 Hl) as [Hb _]. fold (shared from l) in Hb. change (counted anyone []) with 0.
      pose proof (Z.mul_nonneg_nonneg (gRate l) (to - from) R3 ltac:(lia)). lia.
  - destruct Ho as [Ht Ho]. apply Forall_cons in Hu as [Hto Hu]. simpl in Hto.
    pose proof (sane_later _ _ _ Ht Hs) as Hst. pose proof (allow_all_cost s t l Hst) as Hc. destruct (Allow_all s t l) as [l' ok].
    destruct Hc as (Hs' & E1 & E2 & E3 & E4 & Hsrc & Hgl & Hoth). destruct (IH l' t to Hs' Ho Hu Hto) as [IH1 IH2]. split.
    + intros src. specialize (IH1 src). rewrite counted_cons. cbn [fst snd]. pose proof (own_later src from t l Hs Ht) as Hlater. unfold is_source at 1.
      rewrite E1 in IH1. destruct (bool_decide_reflect (s = src)) as [->|Hne].
      * unfold own in IH1 at 1. rewrite Hsrc in IH1. cbn [from_option id] in IH1. rewrite refill_now in IH1. cbn [b_tokens] in IH1. destruct ok; cbn [andb] in *; nia.
      * unfold own in IH1 at 1. rewrite Hoth, E1, E2 in IH1 by done. fold (own src t l) in IH1. cbn [andb]. nia.
    + rewrite counted_cons. cbn [fst snd]. unfold shared in IH2 at 1. rewrite Hgl, refill_now, E3 in IH2. cbn [b_tokens] in IH2.
      pose proof Hs as [(R1 & R2 & R3 & R4) _ [Hg Hl]]. pose proof (refill_later (global l) from t _ _ Hg R3 Hl Ht) as Hlater.
      fold (shared t l) in Hlater. fold (shared from l) in Hlater. destruct ok; cbn [andb anyone] in *; nia.
Qed.

Lemma log_take allow n : forall h l, log allow (take n h) l = take n (log allow h l).
Proof. induction n as [|n IH]; intros [|[s t] h] l; simpl; try done. destruct (allow s t l). by rewrite IH. Qed.

Lemma log_times allow h : forall l, map (fun x => snd (fst x)) (log allow h l) = map snd h.
Proof. induction h as [|[s t] h IH]; intros l; simpl; [done|]. destruct (allow s t l). simpl. by rewrite IH. Qed.

Lemma ordered_take n : forall h from, ordered from h -> ordered from (take n h).
Proof. induction n as [|n IH]; intros [|[s t] h] from H; simpl in *; try done. naive_solver. Qed.

Lemma ordered_from h : forall from from', (forall x, head h = Some x -> from' <= snd x) -> ordered from h -> ordered from' h.
Proof. intros from from' Hh H. destruct h as [|[s t] h]; [done|]. simpl in *. split; [by apply (Hh (s, t)) | apply H]. Qed.

Lemma window h : forall l now pre seg post from to, sane now l -> ordered now h -> log Allow_all h l = pre ++ seg ++ post ->
  Forall (fun x => from <= snd (fst x) <= to) seg -> from <= to ->
  (forall src, counted (is_source src) seg * token <= perCap l * token + perRate l * (to - from))
  /\ counted anyone seg * token <= gCap l * token + gRate l * (to - from).
Proof.
  induction h as [|[s t] h IH]; intros l now pre seg post from to Hs Ho Hlog Hw Hle.
  - cbn [log] in Hlog. symmetry in Hlog. apply app_eq_nil in Hlog as [-> [-> ->]%app_eq_nil].
    pose proof Hs as [(R1 & R2 & R3 & R4) _ _]. change (counted anyone []) with 0. split; [intros src; change (counted (is_source src) []) with 0|];
      unfold token, ns_second; nia.
  - destruct pre as [|p pre].
    + (* the window opens now *)
      cbn [app] in Hlog. set (n := length seg).
      assert (Hseg : seg = log Allow_all (take n ((s, t) :: h)) l) by (rewrite log_take, Hlog; subst n; by rewrite take_app_length).
      destruct seg as [|x seg]; [pose proof Hs as [(R1 & R2 & R3 & R4) _ _]; split; [intros src|]; unfold counted, zlen; simpl; unfold token, ns_second; nia|].
      assert (Hx : from <= t <= to).
      { cbn [log] in Hlog. destruct (Allow_all s t l). injection Hlog as Hx _. apply Forall_cons in Hw as [Hw _]. by rewrite <- Hx in Hw. }
      assert (Hts : Forall (fun y => snd y <= to) (take n ((s, t) :: h))).
      { pose proof (log_times Allow_all (take n ((s, t) :: h)) l) as Ht. rewrite <- Hseg in Ht.
        apply Forall_forall. intros y Hy. assert (snd y ∈ map (fun x => snd (fst x)) (x :: seg)) as Hin by (rewrite Ht; apply list_elem_of_fmap; eauto).
        apply list_elem_of_fmap in Hin as (z & -> & Hz). rewrite Forall_forall in Hw. by apply Hw. }
      destruct Ho as [Hnow Ho]. pose proof (sane_later _ _ _ Hnow Hs) as Hst.
      assert (Hord : ordered t (take n ((s, t) :: h))) by (apply ordered_take; simpl; split; [lia | done]).
      destruct (spent _ l t to Hst Hord Hts ltac:(lia)) as [H1 H2]. rewrite <- Hseg in H1, H2.
      pose proof Hst as [(R1 & R2 & R3 & R4) _ [Hg Hl]]. split.
      * intros src. specialize (H1 src). pose proof (own_bounds src t l Hst). nia.
      * destruct (refill_bounds (global l) t _ _ Hg R3 Hl) as [Hb _]. fold (shared t l) in Hb. nia.
    + cbn [log] in Hlog. destruct Ho as [Hnow Ho]. pose proof (allow_all_cost s t l (sane_later _ _ _ Hnow Hs)) as Hc.
      destruct (Allow_all s t l) as [l' ok]. destruct Hc as (Hs' & E1 & E2 & E3 & E4 & _). injection Hlog as _ Hlog.
      rewrite <- E1, <- E2, <- E3, <- E4. by apply (IH l' t pre seg post).
Qed.

Lemma sane_new now r c gr gc : 0 <= r -> 0 <= c -> 0 <= gr -> 0 <= gc -> sane now (newRateLimiter r c gr gc now).
Proof. intros. split; [done| |]; simpl; [intros src b Hb; by rewrite lookup_empty in Hb | unfold token, ns_second; lia]. Qed.

Lemma same_new now r c gr gc : same_buckets now (newRateLimiter r c gr gc now) (newRateLimiter r c gr gc now).
Proof. split; try done; intros src b; by rewrite ?lookup_empty. Qed.

(** Forgetting an idle source changes nothing but the memory used: over any
    history in which time does not run back, the limiter that drops the sources of a
    minute ago answers every request as one that keeps every bucket for ever, as long
    as a minute fills a bucket. *)
Theorem forgetting_changes_nothing r c gr gc now h (Hr : 0 <= r) (Hc : 0 <= c <= 60 * r) (Ho : ordered now h) :
  log Allow h (newRateLimiter r c gr gc now) = log Allow_all h (newRateLimiter r c gr gc now).
Proof. apply (log_same h now); [done | apply same_new | simpl; lia..]. Qed.

(** Whatever comes in, in any stretch of time one address gets no more than a
    hundred requests and fifty a second past the limiter, and all of them together
    two hundred and two hundred a second. *)
Theorem rate_is_bounded now h pre seg post from to (Ho : ordered now h) (Hlog : log Allow h (NewRateLimiter now) = pre ++ seg ++ post)
    (Hw : Forall (fun x => from <= snd (fst x) <= to) seg) (Hle : from <= to) :
  (forall src, counted (is_source src) seg * ns_second <= 100 * ns_second + 50 * (to - from))
  /\ counted anyone seg * ns_second <= 200 * ns_second + 200 * (to - from).
Proof.
  unfold NewRateLimiter in Hlog. rewrite (log_same h now _ (newRateLimiter PerSourceRate PerSourceBurst GlobalRate GlobalBurst now)) in Hlog;
    [|done | apply same_new | by vm_compute..].
  apply (window h (newRateLimiter PerSourceRate PerSourceBurst GlobalRate GlobalBurst now) now pre seg post from to); try done.
Qed.

(** ** The chain *)

Definition MaxConnections : Z := 64.
Definition MaxInflight : Z := 4.
Definition InflightWait : Z := 2 * ns_second.

Definition sourceOf (RemoteAddr : text) : string := to_string (match SplitHostPort RemoteAddr with Some (host, _) => host | None => RemoteAddr end).

(** Where a request is: queued for a slot until a time, in its handler, answered by
    it, answered before it, or gone because its client left the queue. *)
Inductive place := Queued (till : Z) | Running | Served | Refused (a : answer) | Left.

Record request := mkRequest { q_source : text; q_authorization : text; q_place : place }.

(** [slots]: how many are in the channel. *)
Record door := mkDoor {
  limiter : RateLimiter; slots : Z; InFlight : Z; RejectedBusy : Z; RejectedRate : Z; requests : list request }.

Definition open_door (now : Z) : door := mkDoor (NewRateLimiter now) 0 0 0 0 [].

Definition busy : answer := WriteError 503 "busy".
Definition rate_limited : answer := WriteError 429 "rate_limited".

Section chain.
Context (adminToken : text).

Definition take_slot (d : door) : door := mkDoor (limiter d) (slots d + 1) (InFlight d + 1) (RejectedBusy d) (RejectedRate d) (requests d).
Definition give_slot (d : door) : door := mkDoor (limiter d) (slots d - 1) (InFlight d - 1) (RejectedBusy d) (RejectedRate d) (requests d).
Definition with_requests (l : list request) (d : door) : door := mkDoor (limiter d) (slots d) (InFlight d) (RejectedBusy d) (RejectedRate d) l.
Definition move (i : nat) (p : place) (d : door) : door :=
  with_requests (alter (fun q => mkRequest (q_source q) (q_authorization q) p) i (requests d)) d.

(** [Chain]: the limiter, the guard, the cap, the handler. *)
Definition arrive (src authorization : text) (now : Z) (d : door) : door :=
  let '(l, ok) := Allow (sourceOf src) now (limiter d) in
  let d := mkDoor l (slots d) (InFlight d) (RejectedBusy d) (RejectedRate d) (requests d) in
  let add p d := with_requests (requests d ++ [mkRequest src authorization p]) d in
  if negb ok then add (Refused rate_limited) (mkDoor (limiter d) (slots d) (InFlight d) (RejectedBusy d) (RejectedRate d + 1) (requests d))
  else match Bearer adminToken authorization with
       | Some a => add (Refused a) d
       | None => if slots d <? MaxInflight then add Running (take_slot d) else add (Queued (now + InflightWait)) d
       end.

Definition at_place (i : nat) (p : place) (d : door) : Prop := q_place <$> requests d !! i = Some p.

(** What happens at the time [t]; the timer, the slot and the client race for a
    request in the queue. *)
Inductive step (t : Z) (d : door) : door -> Prop :=
  | step_arrive src authz : step t d (arrive src authz t d)
  | step_take i till : at_place i (Queued till) d -> slots d < MaxInflight -> step t d (move i Running (take_slot d))
  | step_timeout i till : at_place i (Queued till) d -> till <= t ->
      step t d (move i (Refused busy) (mkDoor (limiter d) (slots d) (InFlight d) (RejectedBusy d + 1) (RejectedRate d) (requests d)))
  | step_leave i till : at_place i (Queued till) d -> step t d (move i Left d)
  | step_end i : at_place i Running d -> step t d (move i Served (give_slot d)).

Inductive reachable (from : Z) : Z -> door -> Prop :=
  | re_open : reachable from from (open_door from)
  | re_wait t t' d : reachable from t d -> t <= t' -> reachable from t' d
  | re_step t d d' : reachable from t d -> step t d d' -> reachable from t d'.

(** How many requests are at a place. *)
Definition many (P : place -> bool) (d : door) : Z := zlen (List.filter (fun q => P (q_place q)) (requests d)).

Definition running (p : place) : bool := match p with Running => true | _ => false end.
Definition refused (a : answer) (p : place) : bool := match p with Refused b => bool_decide (b = a) | _ => false end.
Definition admitted (p : place) : bool := match p with Refused a => bool_decide (a = busy) | _ => true end.

Lemma many_add P d q : many P (with_requests (requests d ++ [q]) d) = many P d + (if P (q_place q) then 1 else 0).
Proof. unfold many, zlen. simpl. rewrite List.filter_app, length_app. simpl. destruct (P (q_place q)); simpl; lia. Qed.

Lemma many_move P i p p' d : at_place i p d -> many P (move i p' d) = many P d - (if P p then 1 else 0) + (if P p' then 1 else 0).
Proof.
  unfold at_place, many, move, zlen. simpl. generalize (requests d). intros l H.
  revert i H. induction l as [|q l IH]; intros [|i] H; simpl in *; try done.
  - injection H as <-. destruct (P (q_place q)), (P p'); simpl; lia.
  - specialize (IH i H). unfold alter in IH. destruct (P (q_place q)); simpl; lia.
Qed.

Record holds (d : door) : Prop := {
  ho_slots : slots d = many running d /\ slots d <= MaxInflight;
  ho_stats : InFlight d = slots d /\ RejectedBusy d = many (refused busy) d /\ RejectedRate d = many (refused rate_limited) d;
  ho_token : Forall (fun q => admitted (q_place q) = true -> Bearer adminToken (q_authorization q) = None) (requests d) }.

Lemma Bearer_answer authz a : Bearer adminToken authz = Some a -> a = WriteError 401 "unauthorized".
Proof. unfold Bearer. destruct (decide _); [congruence|]. destruct (negb _); congruence. Qed.

Lemma token_move i p p' d : at_place i p d -> admitted p = true -> Forall (fun q => admitted (q_place q) = true -> Bearer adminToken (q_authorization q) = None) (requests d) ->
  Forall (fun q => admitted (q_place q) = true -> Bearer adminToken (q_authorization q) = None) (requests (move i p' d)).
Proof.
  unfold at_place. intros Hi Hp H. simpl. destruct (requests d !! i) as [q|] eqn:E; [|done]. injection Hi as Hq.
  rewrite Forall_forall in H |- *. intros x Hx. apply list_elem_of_lookup in Hx as [j Hj].
  destruct (decide (i = j)) as [<-|Hne].
  - rewrite list_lookup_alter_eq, E in Hj. simpl in Hj. injection Hj as <-. simpl. intros _. apply H; [by eapply list_elem_of_lookup_2 | by rewrite Hq].
  - rewrite list_lookup_alter_ne in Hj by done. apply H. by eapply list_elem_of_lookup_2.
Qed.

Definition one (b : bool) : Z := if b then 1 else 0.

Lemma many_same P d d' : requests d = requests d' -> many P d = many P d'.
Proof. unfold many. by intros ->. Qed.

(** A request that comes, and one that moves, with what it changes in the counters. *)
Lemma holds_add q d d' : holds d -> requests d' = requests d ++ [q] -> slots d' = slots d + one (running (q_place q)) -> slots d' <= MaxInflight ->
  InFlight d' = slots d' -> RejectedBusy d' = RejectedBusy d + one (refused busy (q_place q)) ->
  RejectedRate d' = RejectedRate d + one (refused rate_limited (q_place q)) ->
  (admitted (q_place q) = true -> Bearer adminToken (q_authorization q) = None) -> holds d'.
Proof.
  intros [[S1 S2] (T1 & T2 & T3) Ht] Hr Hs Hm Hi Hb Hrt Ha.
  assert (E : forall P, many P d' = many P d + one (P (q_place q))) by (intros P; rewrite (many_same P d' (with_requests (requests d ++ [q]) d)) by done; apply many_add).
  split; [rewrite E; lia | rewrite !E; lia|]. rewrite Hr. apply Forall_app. split; [done|]. by repeat constructor.
Qed.

Lemma holds_move i p p' d d' : holds d -> at_place i p d -> admitted p = true -> requests d' = requests (move i p' d) ->
  slots d' = slots d - one (running p) + one (running p') -> slots d' <= MaxInflight -> InFlight d' = slots d' ->
  RejectedBusy d' = RejectedBusy d - one (refused busy p) + one (refused busy p') ->
  RejectedRate d' = RejectedRate d - one (refused rate_limited p) + one (refused rate_limited p') -> holds d'.
Proof.
  intros [[S1 S2] (T1 & T2 & T3) Ht] Hat Hp Hr Hs Hm Hi Hb Hrt.
  assert (E : forall P, many P d' = many P d - one (P p) + one (P p')) by (intros P; rewrite (many_same P d' (move i p' d)) by done; by apply many_move).
  split; [rewrite E; lia | rewrite !E; lia|]. rewrite Hr. by apply (token_move i p).
Qed.

Lemma holds_step t d d' : holds d -> step t d d' -> holds d'.
Proof.
  intros Hd. pose proof Hd as [[S1 S2] (T1 & T2 & T3) Ht]. intros [src authz|i till Hi Hlt|i till Hi Hle|i till Hi|i Hi].
  - unfold arrive. destruct (Allow _ _ _) as [l ok].
    pose proof (fun p => holds_add (mkRequest src authz p) d) as Hadd. cbn [q_place q_authorization] in Hadd.
    destruct ok; cbn [negb]; [|by apply (Hadd (Refused rate_limited)); simpl; try lia].
    destruct (Bearer adminToken authz) as [a|] eqn:Eb.
    + pose proof (Bearer_answer _ _ Eb) as ->. by apply (Hadd (Refused (WriteError 401 "unauthorized"))); simpl; try lia.
    + cbn [slots]. destruct (Z.ltb_spec (slots d) MaxInflight) as [Hlt|Hge].
      * by apply (Hadd Running); simpl; try lia.
      * by apply (Hadd (Queued (t + InflightWait))); simpl; try lia.
  - by apply (holds_move i (Queued till) Running d); simpl; try lia.
  - by apply (holds_move i (Queued till) (Refused busy) d); simpl; try lia.
  - by apply (holds_move i (Queued till) Left d); simpl; try lia.
  - by apply (holds_move i Running Served d); simpl; try lia.
Qed.

Lemma holds_reachable from t d : reachable from t d -> holds d.
Proof. induction 1 as [|t t' d _ IH _|t d d' _ IH Hs]; [by repeat constructor | done | by eapply holds_step]. Qed.

(** C36: However requests come, wait, give up and end, never more than four are in a
    handler, and each of those carries the operator's token; no slot is lost, so
    that a request in the queue can always go on when no other is in a handler; and
    the counters shown are the requests in a handler and those refused. *)
Theorem the_front_door_holds from t d (Hr : reachable from t d) :
  many running d <= 4 /\ slots d = many running d
  /\ (forall i q, requests d !! i = Some q -> (q_place q = Running \/ q_place q = Served) -> adminToken <> [] /\ BearerMatches (q_authorization q) adminToken = true)
  /\ (many running d = 0 -> forall i till, at_place i (Queued till) d -> step t d (move i Running (take_slot d)))
  /\ InFlight d = many running d /\ RejectedBusy d = many (refused busy) d /\ RejectedRate d = many (refused rate_limited) d.
Proof.
  pose proof (holds_reachable from t d Hr) as [[S1 S2] (T1 & T2 & T3) Ht]. unfold MaxInflight in S2.
  split; [lia|]. split; [done|]. split; [|split; [|by rewrite T1]].
  - intros i q Hq Hp. rewrite Forall_forall in Ht. specialize (Ht q (list_elem_of_lookup_2 _ _ _ Hq)).
    assert (admitted (q_place q) = true) as Ha by (by destruct Hp as [-> | ->]). specialize (Ht Ha). unfold Bearer in Ht.
    destruct (decide (adminToken = [])); [done|]. by destruct (BearerMatches _ _).
  - intros H0 i till Hi. apply (step_take t d i till Hi). unfold MaxInflight. lia.
Qed.
End chain.

(** ** Connections *)

(** The channel of [n] places, the calls of Accept that hold a place and have no
    connection yet, and each connection with whether its place is still held. *)
Record limitListener := mkListener { sem : Z; accepting : Z; conns : list bool }.

Inductive conn_step (n : Z) (l : limitListener) : limitListener -> Prop :=
  | cs_begin : sem l < n -> conn_step n l (mkListener (sem l + 1) (accepting l + 1) (conns l))
  | cs_accepted : 0 < accepting l -> conn_step n l (mkListener (sem l) (accepting l - 1) (conns l ++ [true]))
  | cs_failed : 0 < accepting l -> conn_step n l (mkListener (sem l - 1) (accepting l - 1) (conns l))
  | cs_close (i : nat) (b : bool) : conns l !! i = Some b ->
      conn_step n l (if b then mkListener (sem l - 1) (accepting l) (<[i := false]> (conns l)) else l).

Inductive listening (n : Z) : limitListener -> Prop :=
  | li_new : listening n (mkListener 0 0 [])
  | li_step l l' : listening n l -> conn_step n l l' -> listening n l'.

Definition held (l : limitListener) : Z := zlen (List.filter (fun b => b) (conns l)).

Lemma held_insert i (cs : list bool) : cs !! i = Some true -> zlen (List.filter (fun b => b) (<[i := false]> cs)) = zlen (List.filter (fun b => b) cs) - 1.
Proof.
  revert i. unfold zlen. induction cs as [|b cs IH]; intros [|i] H; simpl in *; [done|done| |].
  - injection H as ->. simpl. lia.
  - specialize (IH i H). destruct b; simpl; lia.
Qed.

(** A connection closed more than once gives its place back once. *)
Lemma connections_are_bounded n l : 0 <= n -> listening n l -> held l + accepting l = sem l /\ sem l <= n /\ 0 <= accepting l.
Proof.
  intros Hn. induction 1 as [|l l' _ (IH1 & IH2 & IH3) Hs]; [done|]. destruct Hs as [Hlt|Ha|Ha|i b Hb]; unfold held in *; simpl.
  - lia.
  - unfold zlen in *. rewrite List.filter_app, length_app. simpl. lia.
  - lia.
  - destruct b; simpl; [|done]. rewrite held_insert by done. lia.
Qed.

(** ** Plain errors *)

(** What has gone to the client: the content type, the status, the body. *)
Inductive chunk := Bytes (b : text) | Envelope (code : string).

Record written := mkWritten { w_type : text; w_status : option Z; w_body : list chunk }.

Inductive write := SetType (t : text) | WriteHeader (code : Z) | Write (b : text).

(** net/http: the first status counts, and a body with none is 200. *)
Definition plain_write (x : write) (w : written) : written :=
  match x with
  | SetType t => mkWritten (match w_status w with None => t | Some _ => w_type w end) (w_status w) (w_body w)
  | WriteHeader c => mkWritten (w_type w) (match w_status w with None => Some c | s => s end) (w_body w)
  | Write b => mkWritten (w_type w) (match w_status w with None => Some 200 | s => s end) (w_body w ++ [Bytes b])
  end.

(** [errorWriter]: [swallow] and what it wrote. *)
Definition error_write (x : write) (sw : bool * written) : bool * written :=
  let '(swallow, w) := sw in
  match x with
  | SetType _ => (swallow, plain_write x w)
  | WriteHeader c =>
      if ((c =? 404) || (c =? 405)) && has_prefix_t (T "text/plain") (w_type w) then
        let w := plain_write (WriteHeader c) (plain_write (SetType (T "application/json")) w) in
        (true, mkWritten (w_type w) (w_status w) (w_body w ++ [Envelope (if c =? 405 then "method_not_allowed" else "not_found")]))
      else (swallow, plain_write x w)
  | Write _ => if swallow then sw else (swallow, plain_write x w)
  end.

Definition JSONErrors (xs : list write) : written := snd (foldl (fun sw x => error_write x sw) (false, mkWritten [] None []) xs).
Definition unwrapped (xs : list write) : written := foldl (fun w x => plain_write x w) (mkWritten [] None []) xs.

Definition plain_error (ct : text) (c : Z) : bool := ((c =? 404) || (c =? 405)) && has_prefix_t (T "text/plain") ct.

Lemma writes_swallowed bs : forall w, foldl (fun sw x => error_write x sw) (true, w) (map Write bs) = (true, w).
Proof. by induction bs. Qed.

Lemma writes_through bs : forall w, snd (foldl (fun sw x => error_write x sw) (false, w) (map Write bs)) = foldl (fun w x => plain_write x w) w (map Write bs).
Proof. induction bs as [|b bs IH]; intros w; simpl; [done|]. by rewrite IH. Qed.

(** A handler that sets its type, its status and then writes: a plain 404 or 405 is
    the envelope and nothing else, anything else goes through as it is. *)
Lemma plain_errors_become_envelopes ct c bs :
  JSONErrors (SetType ct :: WriteHeader c :: map Write bs)
  = if plain_error ct c then mkWritten (T "application/json") (Some c) [Envelope (if c =? 405 then "method_not_allowed" else "not_found")]
    else unwrapped (SetType ct :: WriteHeader c :: map Write bs).
Proof.
  unfold JSONErrors, unwrapped, plain_error. cbn [foldl error_write plain_write w_type w_status w_body].
  destruct (_ && _); [by rewrite writes_swallowed | apply writes_through].
Qed.

(** ** Examples *)

(** A flood of one address in one instant, and a request a minute and a bit later of
    another, when the first is forgotten, and of the first again. *)
Definition a_flood : list (string * Z) := replicate 102 ("10.0.0.1"%string, 1) ++ [("10.0.0.2"%string, 61 * ns_second); ("10.0.0.1"%string, 62 * ns_second)].

Lemma a_flood_ordered : ordered 1 a_flood.
Proof. vm_compute. repeat split; discriminate. Qed.

Lemma forgetting_changes_nothing_witness :
  log Allow a_flood (NewRateLimiter 1) = log Allow_all a_flood (NewRateLimiter 1)
  /\ map snd (drop 99 (log Allow a_flood (NewRateLimiter 1))) = [true; false; false; true; true].
Proof.
  split; [|vm_compute; reflexivity].
  apply (forgetting_changes_nothing PerSourceRate PerSourceBurst GlobalRate GlobalBurst 1 a_flood); [by vm_compute | vm_compute; split; discriminate | exact a_flood_ordered].
Defined.

Lemma rate_is_bounded_witness :
  let seg := take 102 (log Allow a_flood (NewRateLimiter 1)) in
  counted (is_source "10.0.0.1") seg = 100 /\ counted (is_source "10.0.0.1") seg * ns_second <= 100 * ns_second + 50 * (1 - 1).
Proof.
  intros seg. split; [vm_compute; reflexivity|].
  apply (rate_is_bounded 1 a_flood [] seg (drop 102 (log Allow a_flood (NewRateLimiter 1))) 1 1 a_flood_ordered);
    [symmetry; apply take_drop | | vm_compute; discriminate].
  apply (bool_decide_eq_true_1 _). vm_compute. reflexivity.
Defined.

Definition the_token : text := T "secret".
Definition bearer : text := T "Bearer secret".

Definition five_requests : door := fold_right (fun port d => arrive the_token (T "10.0.0.9:" ++ port) bearer 1 d) (open_door 1) [T "5"; T "4"; T "3"; T "2"; T "1"].

Lemma five_reachable : reachable the_token 1 1 five_requests.
Proof. unfold five_requests. cbn [fold_right]. do 5 (eapply re_step; [|apply step_arrive]). apply re_open. Qed.

Lemma the_front_door_holds_witness :
  map q_place (requests five_requests) = [Running; Running; Running; Running; Queued (1 + 2 * ns_second)]
  /\ many running five_requests <= 4 /\ InFlight five_requests = many running five_requests.
Proof.
  split; [vm_compute; reflexivity|].
  destruct (the_front_door_holds the_token 1 1 five_requests five_reachable) as (H1 & _ & _ & _ & H5 & _). split; [exact H1 | exact H5].
Defined.
