(* ===== verification/Status.v ===== *)
(** The operator's views of the live system (src/server/internal/status/status.go):
    one snapshot of what the enrolment store, the gateway, the location table, the
    line manager and the calls hold, and the three answers built from it.

    A source that is nil in the code is an empty one here.  What of the server's
    configuration is shown as it was given ([Info]) is its start and its trunk. *)

From S2P Require Import Prelude Text.
From S2P Require Wire Gateway GatewayStep GatewayProps Registry Enroll EnrollProps PbxLine Licence Admin Qualify.
Open Scope Z_scope.

#[local] Existing Instance Gateway.ClientKind_eq_dec.
#[local] Existing Instance PbxLine.State_eq_dec.

(** What the sources give when the snapshot is taken. *)
Record Deps := mkDeps {
  Devices : list Enroll.Device; Sessions : gmap string (list Gateway.SessionInfo); Endpoints : list Registry.Endpoint;
  Lines : list PbxLine.Status; Calls : list Qualify.CallView; Trunk : Qualify.TrunkStatus; Licence_ : option Licence.Summary }.

Record snapshot := mkSnap {
  at_ : Z; devices : list Enroll.Device; sessions : gmap string (list Gateway.SessionInfo);
  endpoints : gmap string Registry.Endpoint; lines : gmap string PbxLine.Status;
  calls : list Qualify.CallView; trunk : Qualify.TrunkStatus; licence : option Licence.Summary }.

(** A list as a Go map of it: of two elements with one key the later stays. *)
Definition by_key {A} (key : A -> string) (l : list A) : gmap string A := foldl (fun m x => <[key x := x]> m) ∅ l.

Definition take (now : Z) (d : Deps) : snapshot :=
  mkSnap now (Devices d) (Sessions d) (by_key Registry.User (Endpoints d)) (by_key PbxLine.st_User (Lines d)) (Calls d) (Trunk d) (Licence_ d).

(** ** The fleet *)

Record Session := mkSession { Since : Z; Addr : string; AppVersion : string }.
Record SIPStatus := mkSIP { Contact : string; ExpiresAt : Z }.
Record LineStatus := mkLine { State : PbxLine.State; l_Since : Z; l_ExpiresAt : Z; Realm : string; Error : string; Attempts : Z }.
Record CallRef := mkCallRef { CallID : string; c_Since : Z }.

Record DeviceStatus := mkDeviceStatus {
  DeviceID : string; User : string; Description : string; Revoked : bool; Enrolled : bool; Licensed : bool;
  Sessions_ : gmap string Session; SIP : option SIPStatus; Line : option LineStatus; Call : option CallRef }.

Record FleetView := mkFleet { At : Z; f_Trunk : Qualify.TrunkStatus; f_Licence : option Licence.Summary; f_Devices : list DeviceStatus }.

Definition kind_name (k : Wire.ClientKind) : string := match k with Wire.ClientApp => "app" | Wire.ClientExtension => "extension" end.

(** The calls an app leg is in, by its user. *)
Definition call_legs (c : Qualify.CallView) : list (string * CallRef) :=
  omap (fun leg => leg ← leg; if decide (Qualify.lv_Leg leg = "app" /\ Qualify.lv_User leg <> "")
                              then Some (Qualify.lv_User leg, mkCallRef (Qualify.cv_CallID c) (Qualify.cv_Since c)) else None)
       [Qualify.cv_A c; Qualify.cv_B c].

Definition onCall (cs : list Qualify.CallView) : gmap string CallRef := foldl (fun m x => <[fst x := snd x]> m) ∅ (concat (map call_legs cs)).

Definition sessions_of (l : list Gateway.SessionInfo) : gmap string Session :=
  foldl (fun m i => <[kind_name (Gateway.i_Kind i) := mkSession (Gateway.i_Since i) (Gateway.i_Addr i) (Gateway.i_AppVersion i)]> m) ∅ l.

Definition has_contact (ep : Registry.Endpoint) : bool := negb (bool_decide (Registry.Contact ep = "")).

Definition device_status (s : snapshot) (d : Enroll.Device) : DeviceStatus :=
  mkDeviceStatus (Enroll.d_DeviceID d) (Enroll.d_User d) (Enroll.d_Description d) (Enroll.d_Revoked d) (Enroll.d_Enrolled d) (Enroll.d_Licensed d)
    (sessions_of (default [] (sessions s !! Enroll.d_DeviceID d)))
    (ep ← endpoints s !! Enroll.d_User d; if has_contact ep then Some (mkSIP (Registry.Contact ep) (Registry.Expires ep)) else None)
    ((fun l => mkLine (PbxLine.st_State l) (PbxLine.st_Since l) (PbxLine.ExpiresAt l) (PbxLine.st_Realm l) (PbxLine.st_Error l) (PbxLine.Attempts l))
       <$> lines s !! Enroll.d_User d)
    (onCall (calls s) !! Enroll.d_User d).

Definition status (s : snapshot) : FleetView := mkFleet (at_ s) (trunk s) (licence s) (map (device_status s) (devices s)).

(** ** The server *)

Record Info := mkInfo { StartedAt : Z; i_Trunk : option text }.

Record Counts := mkCounts {
  n_Devices : Z; n_Enrolled : Z; n_Revoked : Z; AppOnline : Z; ExtensionOnline : Z; SIPRegistered : Z; LinesRegistered : Z; LinesFailed : Z; n_Calls : Z }.

Definition no_counts : Counts := mkCounts 0 0 0 0 0 0 0 0 0.
Definition one (b : bool) : Z := if b then 1 else 0.

Definition count_session (c : Counts) (i : Gateway.SessionInfo) : Counts :=
  mkCounts (n_Devices c) (n_Enrolled c) (n_Revoked c) (AppOnline c + one (bool_decide (Gateway.i_Kind i = Wire.ClientApp)))
    (ExtensionOnline c + one (bool_decide (Gateway.i_Kind i = Wire.ClientExtension))) (SIPRegistered c) (LinesRegistered c) (LinesFailed c) (n_Calls c).

Definition count_device (s : snapshot) (c : Counts) (d : Enroll.Device) : Counts :=
  let c := mkCounts (n_Devices c + 1) (n_Enrolled c + one (Enroll.d_Enrolled d)) (n_Revoked c + one (Enroll.d_Revoked d)) (AppOnline c) (ExtensionOnline c)
             (SIPRegistered c) (LinesRegistered c) (LinesFailed c) (n_Calls c) in
  let c := foldl count_session c (default [] (sessions s !! Enroll.d_DeviceID d)) in
  mkCounts (n_Devices c) (n_Enrolled c) (n_Revoked c) (AppOnline c) (ExtensionOnline c)
    (SIPRegistered c + one (match endpoints s !! Enroll.d_User d with Some ep => has_contact ep | None => false end))
    (LinesRegistered c) (LinesFailed c) (n_Calls c).

Definition line_in (states : list PbxLine.State) (s : snapshot) : Z :=
  Z.of_nat (size (filter (fun kl => PbxLine.st_State kl.2 ∈ states) (lines s))).

Definition counts (s : snapshot) : Counts :=
  let c := foldl (count_device s) no_counts (devices s) in
  mkCounts (n_Devices c) (n_Enrolled c) (n_Revoked c) (AppOnline c) (ExtensionOnline c) (SIPRegistered c)
    (line_in [PbxLine.StateRegistered] s) (line_in [PbxLine.StateRefused; PbxLine.StateRetrying] s) (zlen (calls s)).

Record ServerView := mkServer {
  UptimeSeconds : Z; v_Trunk : option (text * Qualify.TrunkStatus); v_Counts : Counts; v_Licence : option Licence.Summary }.

Definition server (info : Info) (s : snapshot) : ServerView :=
  mkServer (Z.quot (time_sub (at_ s) (StartedAt info)) ns_second) ((fun t => (t, trunk s)) <$> i_Trunk info) (counts s) (licence s).

(** ** The handler: one snapshot a second for all who ask *)

Inductive view := VStatus (v : FleetView) | VServer (v : ServerView) | VCalls (l : list Qualify.CallView).
Inductive route := GetStatus | GetServer | GetCalls.

Definition serve (info : Info) (r : route) (now : Z) (d : Deps) (snap : Admin.Snapshot snapshot) : Admin.Snapshot snapshot * view :=
  let '(snap, s, _) := Admin.Get (take now d) now snap in
  (snap, match r with GetStatus => VStatus (status s) | GetServer => VServer (server info s) | GetCalls => VCalls (calls s) end).

(** ** Maps of lists *)

Lemma by_key_other {A} (key : A -> string) l : forall (m : gmap string A) k, k ∉ map key l -> foldl (fun m x => <[key x := x]> m) m l !! k = m !! k.
Proof.
  induction l as [|x l IH]; intros m k Hk; simpl in *; [done|]. apply not_elem_of_cons in Hk as [Hk1 Hk2].
  rewrite IH by done. by rewrite lookup_insert_ne.
Qed.

Lemma by_key_lookup {A} (key : A -> string) (l : list A) k x : NoDup (map key l) -> by_key key l !! k = Some x <-> x ∈ l /\ key x = k.
Proof.
  unfold by_key. intros Hnd. enough (H : forall m : gmap string A, (foldl (fun m x => <[key x := x]> m) m l) !! k = Some x <-> ((x ∈ l /\ key x = k) \/ ((k ∉ map key l) /\ m !! k = Some x))).
  { rewrite H, lookup_empty. naive_solver. }
  induction l as [|y l IH]; intros m; simpl in *.
  - split; [intros H; right; split; [apply not_elem_of_nil | done] | intros [[H%elem_of_nil _]|[_ H]]; done].
  - apply NoDup_cons in Hnd as [Hy Hnd]. rewrite (IH Hnd), elem_of_cons, not_elem_of_cons. split.
    + intros [[Hx Hk]|[Hk Hx]]; [by left; split; [right|]|]. apply lookup_insert_Some in Hx as [[<- <-]|[Hne Hx]]; [by left; split; [left|] | by right].
    + intros [[[-> |Hx] Hk]|[[Hk1 Hk2] Hx]]; [|by left|].
      * right. subst k. split; [done|]. apply lookup_insert_eq.
      * right. split; [done|]. by rewrite lookup_insert_ne.
Qed.

Lemma kind_name_inj k k' : kind_name k = kind_name k' -> k = k'.
Proof. by destruct k, k'. Qed.

Lemma sessions_of_shown l k : is_Some (sessions_of l !! kind_name k) <-> k ∈ map Gateway.i_Kind l.
Proof.
  unfold sessions_of. enough (H : forall m : gmap string Session, is_Some (foldl (fun m i => <[kind_name (Gateway.i_Kind i) := mkSession (Gateway.i_Since i) (Gateway.i_Addr i) (Gateway.i_AppVersion i)]> m) m l !! kind_name k)
    <-> k ∈ map Gateway.i_Kind l \/ is_Some (m !! kind_name k)).
  { rewrite H, lookup_empty. split; [intros [?|[? ?]]; done | by left]. }
  induction l as [|i l IH]; intros m; simpl; [split; [by right | intros [H%elem_of_nil|H]; done]|].
  rewrite IH, elem_of_cons. destruct (decide (Gateway.i_Kind i = k)) as [<-|Hne].
  - rewrite lookup_insert_eq. split; [by left; left | by right].
  - rewrite lookup_insert_ne; [naive_solver|]. intros H%kind_name_inj. done.
Qed.

(** ** The counts *)

Definition count_if {A} (P : A -> bool) (l : list A) : Z := zlen (List.filter P l).

Lemma count_if_cons {A} (P : A -> bool) x l : count_if P (x :: l) = one (P x) + count_if P l.
Proof. unfold count_if, zlen, one. simpl. destruct (P x); simpl; lia. Qed.

Lemma count_if_map {A B} (f : A -> B) (P : B -> bool) l : count_if P (map f l) = count_if (fun x => P (f x)) l.
Proof. induction l as [|x l IH]; [done|]. simpl. by rewrite !count_if_cons, IH. Qed.

Definition shows (k : Wire.ClientKind) (d : DeviceStatus) : bool := bool_decide (is_Some (Sessions_ d !! kind_name k)).
Definition registered (d : DeviceStatus) : bool := match SIP d with Some _ => true | None => false end.

Definition of_kind (k : Wire.ClientKind) (i : Gateway.SessionInfo) : bool := bool_decide (Gateway.i_Kind i = k).

Lemma count_kind k l : NoDup (map Gateway.i_Kind l) -> count_if (of_kind k) l = one (bool_decide (k ∈ map Gateway.i_Kind l)).
Proof.
  induction l as [|i l IH]; intros Hnd; [by rewrite bool_decide_eq_false_2 by (apply not_elem_of_nil)|].
  simpl in Hnd. apply NoDup_cons in Hnd as [Hi Hnd]. rewrite count_if_cons, (IH Hnd). unfold of_kind. simpl.
  destruct (bool_decide_reflect (Gateway.i_Kind i = k)) as [<-|Hne].
  - rewrite (bool_decide_eq_false_2 _ Hi), bool_decide_eq_true_2 by (by left). done.
  - rewrite (bool_decide_ext (k ∈ Gateway.i_Kind i :: map Gateway.i_Kind l) (k ∈ map Gateway.i_Kind l)) by (rewrite elem_of_cons; naive_solver). done.
Qed.

Lemma count_sessions l : forall c, let c' := foldl count_session c l in
  n_Devices c' = n_Devices c /\ n_Enrolled c' = n_Enrolled c /\ n_Revoked c' = n_Revoked c /\ SIPRegistered c' = SIPRegistered c
  /\ AppOnline c' = AppOnline c + count_if (of_kind Wire.ClientApp) l /\ ExtensionOnline c' = ExtensionOnline c + count_if (of_kind Wire.ClientExtension) l.
Proof.
  induction l as [|i l IH]; intros c; [unfold count_if, zlen; simpl; lia|]. simpl. destruct (IH (count_session c i)) as (H1 & H2 & H3 & H4 & H5 & H6).
  rewrite !count_if_cons. unfold of_kind at 1 3. simpl in *. repeat split; try done; lia.
Qed.

Lemma count_devices s ds : Forall (fun d => NoDup (map Gateway.i_Kind (default [] (sessions s !! Enroll.d_DeviceID d)))) ds -> forall c,
  let c' := foldl (count_device s) c ds in let fs := map (device_status s) ds in
  n_Devices c' = n_Devices c + zlen fs /\ n_Enrolled c' = n_Enrolled c + count_if Enrolled fs /\ n_Revoked c' = n_Revoked c + count_if Revoked fs
  /\ SIPRegistered c' = SIPRegistered c + count_if registered fs /\ AppOnline c' = AppOnline c + count_if (shows Wire.ClientApp) fs
  /\ ExtensionOnline c' = ExtensionOnline c + count_if (shows Wire.ClientExtension) fs.
Proof.
  induction ds as [|d ds IH]; intros Hf c; [unfold count_if, zlen; simpl; lia|]. apply Forall_cons in Hf as [Hd Hf]. cbn [foldl map].
  destruct (IH Hf (count_device s c d)) as (H1 & H2 & H3 & H4 & H5 & H6). rewrite H1, H2, H3, H4, H5, H6, !count_if_cons.
  set (c0 := mkCounts (n_Devices c + 1) (n_Enrolled c + one (Enroll.d_Enrolled d)) (n_Revoked c + one (Enroll.d_Revoked d)) (AppOnline c) (ExtensionOnline c)
             (SIPRegistered c) (LinesRegistered c) (LinesFailed c) (n_Calls c)).
  destruct (count_sessions (default [] (sessions s !! Enroll.d_DeviceID d)) c0) as (K1 & K2 & K3 & K4 & K5 & K6).
  unfold count_device. fold c0. cbn [n_Devices n_Enrolled n_Revoked AppOnline ExtensionOnline SIPRegistered].
  rewrite K1, K2, K3, K4, K5, K6, !(count_kind _ _ Hd). unfold shows, registered. cbn [device_status Enrolled Revoked Sessions_ SIP].
  rewrite !(bool_decide_ext _ _ (sessions_of_shown _ _)). unfold c0. cbn [n_Devices n_Enrolled n_Revoked AppOnline ExtensionOnline SIPRegistered].
  assert (match (ep ← endpoints s !! Enroll.d_User d; if has_contact ep then Some (mkSIP (Registry.Contact ep) (Registry.Expires ep)) else None) with Some _ => true | None => false end
    = match endpoints s !! Enroll.d_User d with Some ep => has_contact ep | None => false end) as ->
    by (destruct (endpoints s !! Enroll.d_User d) as [ep|]; simpl; [by destruct (has_contact ep) | done]).
  unfold zlen. simpl length. repeat split; lia.
Qed.

(** ** What is shown is what there is *)

(** The sources as the server wires them. *)
Definition live (st : Enroll.Store) (g : Gateway.Gateway) (r : Registry.Registry) (lines : list PbxLine.Status) (cs : list Qualify.CallView)
    (tr : Qualify.TrunkStatus) (lic : option Licence.Summary) (now : Z) : Deps :=
  mkDeps (Enroll.Devices st now) (Gateway.Sessions g) (Registry.Endpoints now r) lines cs tr lic.

(** Every session in the gateway's table has its connection, of its kind. *)
Definition sessions_ok (g : Gateway.Gateway) : Prop :=
  forall d k sid, Gateway.get2 (Gateway.sessions g) d k = Some sid -> exists c, Gateway.conns g !! sid = Some c /\ Gateway.s_kind c = k.

(** The gateway keeps it so over every interleaving of its goroutines. *)
Lemma gateway_sessions_ok g ths : GatewayProps.inv g ths -> sessions_ok g.
Proof. intros Hi d k sid H. destruct (GatewayProps.i_slot _ _ Hi d k sid H) as (c & Hc & _ & Hk). eauto. Qed.

Lemma session_kinds g d : sessions_ok g ->
  let l := default [] (Gateway.Sessions g !! d) in
  NoDup (map Gateway.i_Kind l) /\ forall k, k ∈ map Gateway.i_Kind l <-> is_Some (Gateway.get2 (Gateway.sessions g) d k).
Proof.
  intros Hok. unfold Gateway.Sessions. rewrite lookup_fmap. unfold Gateway.get2.
  destruct (Gateway.sessions g !! d) as [kinds|] eqn:E; simpl; [|split; [constructor|]; intros k; split; [intros H%elem_of_nil | intros [? ?]]; done].
  assert (Hk : forall l, (forall k sid, (k, sid) ∈ l -> kinds !! k = Some sid) ->
    map Gateway.i_Kind (omap (fun sid => s ← Gateway.conns g !! sid; Some (Gateway.mkInfo (Gateway.s_kind s) (Gateway.since s) (Gateway.addr s) (Gateway.appVersion s))) l.*2) = l.*1).
  { induction l as [|[k sid] l IH]; intros Hl; [done|]. cbn [fmap list_fmap snd fst omap list_omap].
    destruct (Hok d k sid) as (c & Hc & Hkc); [unfold Gateway.get2; rewrite E; simpl; apply Hl; by left|]. rewrite Hc. simpl. rewrite Hkc. f_equal.
    apply IH. intros k' sid' Hin. apply Hl. by right. }
  rewrite Hk by (intros k sid; apply elem_of_map_to_list). split; [apply NoDup_fst_map_to_list|].
  intros k. rewrite list_elem_of_fmap. split.
  - intros ([k' sid] & -> & Hin). apply elem_of_map_to_list in Hin. by eexists.
  - intros [sid Hs]. exists (k, sid). split; [done|]. by apply elem_of_map_to_list.
Qed.

Lemma endpoints_lookup r now u : Registry.wf r -> by_key Registry.User (Registry.Endpoints now r) !! u = Registry.Lookup now u r.
Proof.
  intros Hr. assert (Hu : forall ep, Registry.User (Registry.viewLocked now ep) = Registry.User ep).
  { intros ep. unfold Registry.viewLocked. destruct (decide _); [|done]. by destruct (negb _). }
  assert (Hp : Registry.Endpoints now r ≡ₚ Registry.viewLocked now <$> (map_to_list (Registry.byUser r)).*2) by apply merge_sort_Permutation.
  assert (Hkeys : map Registry.User (Registry.Endpoints now r) ≡ₚ (map_to_list (Registry.byUser r)).*1).
  { transitivity (map Registry.User (Registry.viewLocked now <$> (map_to_list (Registry.byUser r)).*2)); [by apply Permutation_map|].
    assert (Hl : forall l, (forall k ep, (k, ep) ∈ l -> Registry.byUser r !! k = Some ep) -> map Registry.User (Registry.viewLocked now <$> l.*2) = l.*1).
    { induction l as [|[k ep] l IH]; intros Hin; [done|]. simpl. rewrite Hu. f_equal; [apply (Registry.wf_user _ Hr), Hin; by left | apply IH; intros; apply Hin; by right]. }
    by rewrite Hl by (intros k ep; apply elem_of_map_to_list). }
  assert (Hnd : NoDup (map Registry.User (Registry.Endpoints now r))) by (rewrite Hkeys; apply NoDup_fst_map_to_list).
  apply option_eq. intros ep. rewrite (by_key_lookup _ _ _ _ Hnd), Hp, list_elem_of_fmap. unfold Registry.Lookup. rewrite fmap_Some. split.
  - intros [(ep0 & -> & Hin) Hk]. apply list_elem_of_fmap in Hin as ([k ep1] & -> & Hin). apply elem_of_map_to_list in Hin. simpl in *.
    rewrite Hu, (Registry.wf_user _ Hr _ _ Hin) in Hk. subst. eauto.
  - intros (ep0 & H0 & ->). split; [|rewrite Hu; by apply (Registry.wf_user _ Hr)]. exists ep0. split; [done|].
    apply list_elem_of_fmap. exists (u, ep0). split; [done|]. by apply elem_of_map_to_list.
Qed.

(** What the operator is shown is what there is: the fleet view has an entry for
    each record of the enrolment store, with the store's own facts, a session of a
    kind exactly where the gateway's table has one, and a registration exactly where
    the location table has a contact that has not lapsed; and the counts of the
    server view are the numbers of such entries. *)
Theorem what_is_shown_is_what_there_is st g r lines cs tr lic now info : Registry.wf r -> sessions_ok g ->
  let s := take now (live st g r lines cs tr lic now) in let fs := f_Devices (status s) in let n := v_Counts (server info s) in
  (forall f, f ∈ fs <-> exists id rec, Enroll.devices st !! id = Some rec /\ f = device_status s (Enroll.viewLocked st now id rec))
  /\ zlen fs = Z.of_nat (size (Enroll.devices st))
  /\ (forall f k, f ∈ fs -> is_Some (Sessions_ f !! kind_name k) <-> is_Some (Gateway.get2 (Gateway.sessions g) (DeviceID f) k))
  /\ (forall f c e, f ∈ fs -> SIP f = Some (mkSIP c e) <-> c <> "" /\ exists dev, Registry.Lookup now (User f) r = Some (Registry.mkEndpoint (User f) dev c e))
  /\ n_Devices n = zlen fs /\ n_Enrolled n = count_if Enrolled fs /\ n_Revoked n = count_if Revoked fs
  /\ SIPRegistered n = count_if registered fs /\ AppOnline n = count_if (shows Wire.ClientApp) fs /\ ExtensionOnline n = count_if (shows Wire.ClientExtension) fs.
Proof.
  intros Hr Hg s fs n.
  assert (Hdev : forall d, d ∈ Enroll.Devices st now <-> exists id rec, Enroll.devices st !! id = Some rec /\ d = Enroll.viewLocked st now id rec).
  { intros d. unfold Enroll.Devices. rewrite merge_sort_Permutation, list_elem_of_fmap. split.
    - intros ([id rec] & -> & Hin). apply elem_of_map_to_list in Hin. eauto.
    - intros (id & rec & Hin & ->). exists (id, rec). split; [done|]. by apply elem_of_map_to_list. }
  assert (Hfs : forall f, f ∈ fs <-> exists d, f = device_status s d /\ d ∈ Enroll.Devices st now) by (intros f; apply list_elem_of_fmap).
  split; [intros f; rewrite Hfs; setoid_rewrite Hdev; naive_solver|]. split.
  { unfold fs, zlen, status. simpl. rewrite length_map. unfold Enroll.Devices. rewrite (Permutation_length (merge_sort_Permutation _ _)), length_map.
    by rewrite length_map_to_list. }
  split; [|split].
  - intros f k (d & -> & Hd)%Hfs. cbn [device_status Sessions_ DeviceID]. rewrite sessions_of_shown. by apply session_kinds.
  - intros f c e (d & -> & Hd)%Hfs. cbn [device_status SIP User]. change (endpoints s) with (by_key Registry.User (Registry.Endpoints now r)).
    rewrite (endpoints_lookup r now (Enroll.d_User d) Hr). unfold has_contact.
    assert (Hu : forall ep, Registry.Lookup now (Enroll.d_User d) r = Some ep -> Registry.User ep = Enroll.d_User d).
    { intros ep Hl. unfold Registry.Lookup in Hl. apply fmap_Some in Hl as (ep0 & H0 & ->).
      unfold Registry.viewLocked. rewrite <- (Registry.wf_user _ Hr _ _ H0). destruct (decide _); [|done]. by destruct (negb _). }
    destruct (Registry.Lookup now (Enroll.d_User d) r) as [[u dev c0 e0]|]; simpl; [|naive_solver].
    specialize (Hu _ eq_refl). simpl in Hu. subst u. destruct (bool_decide_reflect (c0 = "")) as [->|Hc]; simpl; naive_solver.
  - assert (Hf : Forall (fun d => NoDup (map Gateway.i_Kind (default [] (sessions s !! Enroll.d_DeviceID d)))) (Enroll.Devices st now))
      by (apply Forall_forall; intros d _; by apply session_kinds).
    destruct (count_devices s _ Hf no_counts) as (H1 & H2 & H3 & H4 & H5 & H6). repeat split; assumption.
Qed.

(** A handler answers from the snapshot of the last second, or from a new one. *)
Lemma served_within_a_second info r now d snap s : Admin.value snap = Some s -> Admin.at_ snap <= now < Admin.at_ snap + ns_second ->
  - 2 ^ 63 <= now - Admin.at_ snap ->
  serve info r now d snap = (snap, match r with GetStatus => VStatus (status s) | GetServer => VServer (server info s) | GetCalls => VCalls (calls s) end).
Proof.
  intros Hv Hn Hb. unfold serve, Admin.Get. rewrite Hv. unfold Admin.SnapshotTTL, time_sub. unfold ns_second in *.
  replace (1000000000 <=? _) with false; [done|]. symmetry. apply Z.leb_gt. lia.
Qed.

(** ** Examples *)

(** Three devices of the store of EnrollProps; Ann's phone is connected by its app and
    registered, Bo's registration has lapsed. *)
Definition some_table : Registry.Registry :=
  Registry.mkRegistry {[ "ann" := Registry.mkEndpoint "ann" "dev_a" "sip:ann@10.0.0.5" (200 * ns_second);
                         "bo" := Registry.mkEndpoint "bo" "dev_b" "sip:bo@10.0.0.6" (20 * ns_second) ]} ∅ ∅ 0 ∅ false [].

Lemma some_table_wf : Registry.wf some_table.
Proof.
  split; simpl.
  - intros u ep H. apply lookup_insert_Some in H as [[<- <-]|[_ H]]; [done|]. by apply lookup_singleton_Some in H as [<- <-].
  - intros d u H. by rewrite lookup_empty in H.
  - split; intros *; rewrite ?lookup_empty; done.
  - intros ch H. by apply elem_of_empty in H.
Qed.

Definition one_phone : Gateway.Gateway :=
  Gateway.mkGateway {[ "dev_a" := {[ Wire.ClientApp := 7 ]} ]} ∅ ∅ {[ 7 := Gateway.mkSession "dev_a" Wire.ClientApp 30 "10.0.0.5:50000" "1.4" false false ∅ [] ]} 0 [] [] [].

Lemma one_phone_ok : sessions_ok one_phone.
Proof.
  intros d k sid H. unfold Gateway.get2 in H. simpl in H. destruct (decide (d = "dev_a")) as [->|Hne].
  - rewrite lookup_singleton_eq in H. simpl in H. apply lookup_singleton_Some in H as [<- <-]. eexists. split; reflexivity.
  - by rewrite lookup_singleton_ne in H.
Qed.

Definition example_fleet : FleetView :=
  status (take (100 * ns_second) (live (EnrollProps.example_store 2) one_phone some_table [] [] (Qualify.mkTrunkStatus false "" 0 "") None (100 * ns_second))).

Lemma what_is_shown_is_what_there_is_witness :
  let n := v_Counts (server (mkInfo 0 None) (take (100 * ns_second) (live (EnrollProps.example_store 2) one_phone some_table [] [] (Qualify.mkTrunkStatus false "" 0 "") None (100 * ns_second)))) in
  zlen (f_Devices example_fleet) = 3 /\ SIPRegistered n = count_if registered (f_Devices example_fleet) /\ SIPRegistered n = 1
  /\ AppOnline n = count_if (shows Wire.ClientApp) (f_Devices example_fleet) /\ AppOnline n = 1.
Proof.
  destruct (what_is_shown_is_what_there_is (EnrollProps.example_store 2) one_phone some_table [] [] (Qualify.mkTrunkStatus false "" 0 "") None (100 * ns_second)
    (mkInfo 0 None) some_table_wf one_phone_ok) as (_ & H1 & _ & _ & _ & _ & _ & H2 & H3 & _).
  split; [exact H1|]. split; [exact H2|]. split; [vm_compute; reflexivity|]. split; [exact H3|]. vm_compute. reflexivity.
Defined.
