(* ===== verification/ConsoleApi.v ===== *)
(** What the operator's console asks of the call server
    (src/server/internal/adminui/client.go, clients.go, directory.go and the pages of
    server.go): the requests, what their failures are told as, and the handlers
    behind the front door of Console as programs of requests.

    - The call server is an argument: what it does with a request, given what the
      world gives it, and where it redirects one.  Whether a request arrives and its
      answer comes back is the world's too; a time-out is either.
    - The client is an http.Client as it comes, which follows redirects: a request
      that changes something is followed by a GET after a 301, 302 or 303.
    - A page is its data; a text shown is a constructor.  Values that are only shown
      are left out of what requests answer. *)

From S2P Require Import Prelude Text Directory Console.
From S2P Require Admin DirApi Csv Status Enroll Events.
Open Scope Z_scope.

(** ** Requests (client.go) *)

Inductive call :=
  | GetServer | GetStatus | GetDevices | GetLog | GetEvents (since limit : Z) | GetLicence | GetCalls
  | GetDevice (id : string) | GetDirectory (id : string) | GetDiag (id : string) | GetDiagFile (id name : string)
  | PutLicence (token : string) | PutLog (level : option string) (trace : bool) (for_seconds : option Z)
  | PostDevice (user description : string) | PatchDevice (id description ifMatch : string)
  | DeleteDevice (id : string) (all : bool) | PostCode (id : string) | DeleteCode (id : string)
  | PutConfig (id : string) (ssids : list string) (ifMatch : string)
  | PutLine (id dn digest_user secret ifMatch : string) | DeleteLine (id ifMatch : string)
  | PutDirectory (id : string) (cs : list Contact) (ifMatch : string) (dry_run : bool)
  | PostContact (id : string) (c : Contact) (ifMatch : string) | PutContact (id : string) (c : Contact) (ifMatch : string)
  | DeleteContact (id cid ifMatch : string) | DeleteDiag (id name : string).

(** The method, the path behind /v1/admin and the query. *)
Definition method_path (c : call) : string * list string * list (string * string) :=
  match c with
  | GetServer => ("GET", ["server"], []) | GetStatus => ("GET", ["status"], []) | GetDevices => ("GET", ["devices"], [])
  | GetLog => ("GET", ["log"], []) | GetLicence => ("GET", ["licence"], []) | GetCalls => ("GET", ["calls"], [])
  | GetEvents since limit => ("GET", ["events"],
      (if 0 <? limit then [("limit", to_string (Itoa limit))] else []) ++ (if 0 <? since then [("since", to_string (Itoa since))] else []))
  | GetDevice id => ("GET", ["devices"; id], []) | GetDirectory id => ("GET", ["devices"; id; "directory"], [])
  | GetDiag id => ("GET", ["devices"; id; "diag"], []) | GetDiagFile id name => ("GET", ["devices"; id; "diag"; name], [])
  | PutLicence _ => ("PUT", ["licence"], []) | PutLog _ _ _ => ("PUT", ["log"], [])
  | PostDevice _ _ => ("POST", ["devices"], []) | PatchDevice id _ _ => ("PATCH", ["devices"; id], [])
  | DeleteDevice id all => ("DELETE", ["devices"; id], if all then [("purge", "1")] else [])
  | PostCode id => ("POST", ["devices"; id; "enrol-code"], []) | DeleteCode id => ("DELETE", ["devices"; id; "enrol-code"], [])
  | PutConfig id _ _ => ("PUT", ["devices"; id; "config"], []) | PutLine id _ _ _ _ => ("PUT", ["devices"; id; "pbx-line"], [])
  | DeleteLine id _ => ("DELETE", ["devices"; id; "pbx-line"], [])
  | PutDirectory id _ _ dry => ("PUT", ["devices"; id; "directory"], if dry then [("dry_run", "1")] else [])
  | PostContact id _ _ => ("POST", ["devices"; id; "directory"], []) | PutContact id c _ => ("PUT", ["devices"; id; "directory"; ID c], [])
  | DeleteContact id cid _ => ("DELETE", ["devices"; id; "directory"; cid], [])
  | DeleteDiag id name => ("DELETE", ["devices"; id; "diag"] ++ (if bool_decide (name = "") then [] else [name]), [])
  end.

(** The If-Match a request carries, empty for none. *)
Definition if_match (c : call) : string :=
  match c with
  | PatchDevice _ _ m | PutConfig _ _ m | PutLine _ _ _ _ m | DeleteLine _ m | PostContact _ _ m | PutContact _ _ m | DeleteContact _ _ m => m
  | PutDirectory _ _ m dry => if dry then "" else m
  | _ => ""
  end.

(** A request that changes something at the call server, and the device it is about. *)
Definition is_write (c : call) : bool :=
  match c with PutDirectory _ _ _ dry => negb dry | _ => negb (bool_decide ((method_path c).1.1 = "GET")) end.

Definition device_of (c : call) : option string := match (method_path c).1.2 with d :: id :: _ => if decide (d = "devices") then Some id else None | _ => None end.

(** What a 2xx answer holds, as far as it is used. *)
Inductive value :=
  | VNone | VServer (local_domain : string) | VStatus (l : list Status.DeviceStatus) | VDevices (l : list Enroll.Device) | VDevice (d : Enroll.Device)
  | VDirectory (version : Z) (cs : list Contact) | VDiag (files : list string) | VEvents (numbers : list Z)
  | VCode (code : string) | VCreated (id code : string) | VReplace (r : ReplaceResult) | VFile (body : string) | VOther.

(** A JSON object. *)
Definition is_object (v : value) : bool := match v with VNone | VDevices _ | VDiag _ | VFile _ => false | _ => true end.

(** Whether the body of a 2xx answer can be read, where it is not used afterwards:
    some requests read an object, the deletes nothing.  [expect] reads the others. *)
Definition decodes (c : call) (v : value) : bool :=
  match c with
  | GetLog | GetLicence | PutLicence _ | PutLog _ _ _ | PatchDevice _ _ _ | PutConfig _ _ _ | PutLine _ _ _ _ _ | PostContact _ _ _ | PutContact _ _ _ => is_object v
  | GetCalls => match v with VOther => true | _ => false end
  | _ => true
  end.

Inductive error := Unreachable | Unauthorized | APIError (a : Admin.answer) | Undecodable.

Definition result : Type := error + value.

(** A call server: what it does with a request, given what the world gives it; the
    Location its answer carries, if any; and what the request that follows a redirect
    meets there, [elsewhere method location first] (anywhere, a Location being any
    URL), with the Location of that answer.  [first] is the request the client made,
    whose headers and body may go along. *)
Record CallServer (S W : Type) := mkCallServer {
  answers :> call -> W -> S -> S * (Admin.answer * value);
  location : call -> W -> S -> option string;
  elsewhere : string -> string -> call -> W -> S -> S * (Admin.answer * value) * option string }.
Arguments mkCallServer {S W}.
Arguments answers {S W}.
Arguments location {S W}.
Arguments elsewhere {S W}.

(** What becomes of a request: it never arrives, its answer is lost, or neither; then
    [next] becomes of the request that follows, where the answer redirects. *)
Inductive fate (W : Type) := NeverArrived | AnswerLost (w : W) | Delivered (w : W) (next : fate W).
Arguments NeverArrived {W}.
Arguments AnswerLost {W}.
Arguments Delivered {W}.

(** ** Failures as they are told (describe) *)

Inductive line :=
  | NotAnswering   (* ...; nothing was changed. *)
  | TokenRefused | ChangedBySomeoneElse | NotFound | Message (code field : string) | BadAnswer.

Definition describe (e : error) : line :=
  match e with
  | Unreachable => NotAnswering
  | Unauthorized => TokenRefused
  | APIError a => if Admin.a_status a =? 412 then ChangedBySomeoneElse else if Admin.a_status a =? 404 then NotFound else Message (Admin.a_code a) (Admin.a_field a)
  | Undecodable => BadAnswer
  end.

Definition isNotFound (e : error) : bool := match e with APIError a => Admin.a_status a =? 404 | _ => false end.

(** ** Pages *)

Record clientData := mkClientData {
  cd_Device : Enroll.Device; cd_Live : option Status.DeviceStatus; cd_Directory : Z * list Contact; cd_Diag : list string; cd_Others : list Enroll.Device; cd_domain : string }.

Record ClientRow := mkRow { row_device : Enroll.Device; row_live : option Status.DeviceStatus }.

Record clientsData := mkClientsData {
  Rows : list ClientRow; n_clients : Z; n_revoked : Z; n_online : Z; n_registered : Z; n_calls : Z; NoSeat : Z }.

Record diagnosticsData := mkDiagnostics { log_fault : option line; ev_rows : list Z; Uploads : list (Enroll.Device * Z * string) }.

Inductive data := DClient (d : clientData) | DClients (d : clientsData) | DServer (domain : string) | DLicence | DCalls | DDiagnostics (d : diagnosticsData).

(** What a page tells of what was submitted. *)
Inductive complaint :=
  | Failed (l : line) | ChooseCSV | FileUnreadable | BadCSV (e : Csv.read_error) | ConfirmPurge | ChooseTarget | UnknownAction | PasteLicence | WholeSeconds.

Inductive note :=
  | DescriptionSaved | RevokedNote | PurgedNote | WifiSaved | WifiCleared | LineSaved | LineRemoved | ContactAdded | ContactDeleted | ContactSaved
  | Replaced (r : ReplaceResult) | DiagDeleted | AllDiagDeleted | CodeCancelled | LicenceInstalled | LogUpdated.

Record view := mkView { shown : option data; banner : bool; lastAt : Z; told_fault : option complaint }.

Inductive page :=
  | Back (to : list string) (n : note)          (* a redirect that leaves a flash *)
  | Code (id code : string)                        (* a redirect that leaves a code *)
  | Shows (v : view)
  | NewClient (err : option complaint)
  | CodePage (d : option Enroll.Device) (err : option line)
  | UploadPreview (id : string) (r : ReplaceResult) (csv : string) (n : Z)
  | Copied (results : list (string * (error + ReplaceResult)))
  | CsvFile (body : string) | DiagFile (body : string) | BadGateway (l : line) | NotFoundPage.

(** ** Programs of requests *)

Section console.
Context {S W : Type} (serve : CallServer S W).

(** [fates]: of the requests to come, one each; [trace]: what was asked and what came
    back; [last]: the last good data of each page; [now]: the time. *)
Record world := mkWorld { srv : S; fates : list (fate W); trace : list (call * result); last_ : gmap string (Z * data); clock : Z }.

Definition M (A : Type) : Type := world -> world * A.
Definition ret {A} (a : A) : M A := fun w => (w, a).
Definition bind {A B} (m : M A) (k : A -> M B) : M B := fun w => let '(w, a) := m w in k a w.

(** The request that follows an answer with a Location: its method, and where to. *)
Definition redirectBehavior (method : string) (a : Admin.answer) (loc : option string) : option (string * string) :=
  l ← loc;
  if bool_decide (Admin.a_status a ∈ [301; 302; 303]) then Some (if bool_decide (method ∈ ["GET"; "HEAD"]) then method else "GET", l)
  else if bool_decide (Admin.a_status a ∈ [307; 308]) then Some (method, l)
  else None.

(** The requests that follow, while the answers redirect; after ten requests in all
    the client gives up. *)
Fixpoint follow (n : nat) (method loc : string) (c : call) (f : fate W) (s : S) : S * option (Admin.answer * value) :=
  match n, f with
  | O, _ | _, NeverArrived => (s, None)
  | _, AnswerLost x => (fst (fst (elsewhere serve method loc c x s)), None)
  | Datatypes.S n, Delivered x next =>
      let '(s, (a, v), loc) := elsewhere serve method loc c x s in
      match redirectBehavior method a loc with
      | Some (method, loc) => follow n method loc c next s
      | None => (s, Some (a, v))
      end
  end.

(** [http.Client.Do]: the last answer, none when one was not had. *)
Definition exchange (c : call) (f : fate W) (s : S) : S * option (Admin.answer * value) :=
  match f with
  | NeverArrived => (s, None)
  | AnswerLost x => (fst (serve c x s), None)
  | Delivered x next =>
      let '(s', (a, v)) := serve c x s in
      match redirectBehavior (method_path c).1.1 a (location serve c x s) with
      | Some (method, loc) => follow 9 method loc c next s'
      | None => (s', Some (a, v))
      end
  end.

(** [Client.do]. *)
Definition do (c : call) (f : fate W) (s : S) : S * result :=
  let '(s, answered) := exchange c f s in
  (s, match answered with
      | None => inl Unreachable
      | Some (a, v) =>
          if Admin.a_status a =? 401 then inl Unauthorized
          else if 300 <=? Admin.a_status a then inl (APIError a)
          else if decodes c v then inr v else inl Undecodable
      end).

Definition ask (c : call) : M result := fun w =>
  let '(s, r) := do c (default NeverArrived (head (fates w))) (srv w) in
  (mkWorld s (tail (fates w)) (trace w ++ [(c, r)]) (last_ w) (clock w), r).
End console.

Arguments mkWorld {S W}.
Arguments srv {S W}.
Arguments fates {S W}.
Arguments trace {S W}.
Arguments last_ {S W}.
Arguments clock {S W}.

Notation "'let*' x ':=' m 'in' k" := (bind m (fun x => k)) (at level 10, x name, m at level 100, k at level 200).

(** ** The handlers *)

Section handlers.
Context {S W : Type} (serve : CallServer S W).
Abbreviation M := (@M S W).
Abbreviation ask := (@ask S W serve).

(** A request whose answer should hold a certain thing. *)
Definition expect {A} (f : value -> option A) (c : call) : M (error + A) :=
  let* r := ask c in ret (match r with inl e => inl e | inr v => match f v with Some a => inr a | None => inl Undecodable end end).

(** The rest of a program that stops at the first error. *)
Definition andthen {A B} (m : M (error + A)) (k : A -> M (error + B)) : M (error + B) :=
  let* r := m in match r with inl e => ret (inl e) | inr a => k a end.

Notation "'let?' x ':=' m 'in' k" := (andthen m (fun x => k)) (at level 10, x name, m at level 100, k at level 200).

Definition Server := expect (fun v => match v with VServer d => Some d | _ => None end) GetServer.
Definition Status_ := expect (fun v => match v with VStatus l => Some l | _ => None end) GetStatus.
Definition Devices_ := expect (fun v => match v with VDevices l => Some l | _ => None end) GetDevices.
Definition Device (id : string) := expect (fun v => match v with VDevice d => Some d | _ => None end) (GetDevice id).
Definition Directory (id : string) := expect (fun v => match v with VDirectory n cs => Some (n, cs) | _ => None end) (GetDirectory id).
Definition Diag (id : string) := expect (fun v => match v with VDiag l => Some l | _ => None end) (GetDiag id).
Definition Events_ (since limit : Z) := expect (fun v => match v with VEvents l => Some l | _ => None end) (GetEvents since limit).
Definition ReplaceDirectory (id : string) (cs : list Contact) (ifMatch : string) (dry : bool) :=
  expect (fun v => match v with VReplace r => Some r | _ => None end) (PutDirectory id cs ifMatch dry).
Definition any (v : value) : option value := Some v.

(** *** Reading *)

(** [fetched]: the data, whether the banner is shown, and of when old data is. *)
Definition fetched (key : string) (r : error + data) : M (option data * bool * Z) := fun w =>
  match r with
  | inr d => (mkWorld (srv w) (fates w) (trace w) (<[key := (clock w, d)]> (last_ w)) (clock w), (Some d, false, 0))
  | inl Unreachable => (w, match last_ w !! key with Some (t, d) => (Some d, true, t) | None => (None, true, 0) end)
  | inl _ => (w, (None, false, 0))
  end.

(** The page of a read: what it shows, marked when it is old, or why not. *)
Definition page_of (key : string) (told : option complaint) (r : error + data) : M view :=
  let* g := fetched key r in
  ret (match g, r with
       | (None, false, t), inl e => mkView None false t (Some (Failed (describe e)))
       | (d, b, t), _ => mkView d b t told
       end).

Definition live_of (id : string) (l : list Status.DeviceStatus) : option Status.DeviceStatus := find (fun s => bool_decide (Status.DeviceID s = id)) (rev l).

Definition loadClient (id : string) : M (error + data) :=
  let? dev := Device id in let? st := Status_ in let? dir := Directory id in let? files := Diag id in let? all := Devices_ in let? dom := Server in
  ret (inr (DClient (mkClientData dev (live_of id st) dir files (filter (fun o => Enroll.d_DeviceID o <> id) all) dom))).

Definition renderClient (id : string) (told : option complaint) : M page :=
  let* r := loadClient id in
  let* v := page_of ("client:" ++ id) told r in
  ret (match r with
       | inl e => if isNotFound e then NotFoundPage else Shows v
       | inr _ => Shows v
       end).

Definition one (b : bool) : Z := if b then 1 else 0.
Definition with_live (P : Status.DeviceStatus -> bool) (r : ClientRow) : bool := match row_live r with Some s => P s | None => false end.
Definition is_some {A} (o : option A) : bool := match o with Some _ => true | None => false end.

Definition online (s : Status.DeviceStatus) : bool := is_some (Status.Sessions_ s !! "app") || is_some (Status.Sessions_ s !! "extension").
Definition no_seat (r : ClientRow) : bool :=
  Enroll.d_Enrolled (row_device r) && negb (Enroll.d_Revoked (row_device r)) && negb (with_live Status.Licensed r).

Definition row_le (a b : ClientRow) : Prop := String.le (Enroll.d_User (row_device a)) (Enroll.d_User (row_device b)).

#[export] Instance row_le_dec a b : Decision (row_le a b).
Proof. unfold row_le. apply _. Defined.

Definition count_rows (P : ClientRow -> bool) (rows : list ClientRow) : Z := foldl (fun n r => n + one (P r)) 0 rows.

Definition client_rows (devices : list Enroll.Device) (st : list Status.DeviceStatus) : clientsData :=
  let rows := map (fun d => mkRow d (live_of (Enroll.d_DeviceID d) st)) devices in
  mkClientsData (merge_sort row_le rows) (count_rows (fun _ => true) rows) (count_rows (fun r => Enroll.d_Revoked (row_device r)) rows)
    (count_rows (with_live online) rows) (count_rows (with_live (fun s => is_some (Status.SIP s))) rows)
    (count_rows (with_live (fun s => is_some (Status.Call s))) rows) (count_rows no_seat rows).

Definition loadClients : M (error + data) := let? devices := Devices_ in let? st := Status_ in ret (inr (DClients (client_rows devices st))).

Definition upload_le (a b : Enroll.Device * Z * string) : Prop := String.le (Enroll.d_User a.1.1) (Enroll.d_User b.1.1).

#[export] Instance upload_le_dec a b : Decision (upload_le a b).
Proof. unfold upload_le. apply _. Defined.

(** The uploads of each device in turn; a device whose list cannot be had is left out. *)
Fixpoint loadUploads (devices : list Enroll.Device) : M (error + list (Enroll.Device * Z * string)) :=
  match devices with
  | [] => ret (inr [])
  | d :: devices =>
      let* r := Diag (Enroll.d_DeviceID d) in
      match r with
      | inl Unreachable => ret (inl Unreachable)
      | inl _ | inr [] => loadUploads devices
      | inr (f :: files) => let? rest := loadUploads devices in ret (inr ((d, zlen (f :: files), f) :: rest))
      end
  end.

Definition loadDiagnostics : M (error + data) :=
  let* lv := expect any GetLog in
  match lv with
  | inl Unreachable => ret (inl Unreachable)
  | _ =>
      let? evs := Events_ 0 100 in let? devices := Devices_ in let? ups := loadUploads devices in
      ret (inr (DDiagnostics (mkDiagnostics (match lv with inl e => Some (describe e) | inr _ => None end) (rev evs) (merge_sort upload_le ups))))
  end.

Definition renderDiagnostics (told : option complaint) : M page :=
  let* r := loadDiagnostics in let* v := page_of "diagnostics" told r in ret (Shows v).

Definition renderLicence (told : option complaint) : M page :=
  let* r := expect any GetLicence in
  let* v := page_of "licence" told (match r with inl e => inl e | inr _ => inr DLicence end) in ret (Shows v).

Definition h_server : M page :=
  let* r := Server in let* v := page_of "server" None (match r with inl e => inl e | inr d => inr (DServer d) end) in ret (Shows v).
Definition h_clients : M page := let* r := loadClients in let* v := page_of "clients" None r in ret (Shows v).
Definition h_calls : M page :=
  let* r := expect any GetCalls in let* v := page_of "calls" None (match r with inl e => inl e | inr _ => inr DCalls end) in ret (Shows v).

Definition h_codePage (id : string) : M page :=
  let* r := Device id in
  match r with
  | inl e => ret (if isNotFound e then NotFoundPage else CodePage None (Some (describe e)))
  | inr d => let* _ := Server in ret (CodePage (Some d) None)
  end.

Definition h_downloadCSV (id : string) : M page :=
  let* r := Directory id in
  ret (match r with inl e => BadGateway (describe e) | inr (_, cs) => CsvFile (to_string (Csv.WriteCSV cs)) end).

(** [Client.DiagFile] has no case of its own for a 401. *)
Definition as_file_error (e : error) : error := match e with Unauthorized => APIError (Admin.WriteError 401 "unauthorized") | _ => e end.

Definition h_diagFile (id name : string) : M page :=
  let* r := expect (fun v => match v with VFile b => Some b | _ => None end) (GetDiagFile id name) in
  ret (match r with inl e => BadGateway (describe (as_file_error e)) | inr b => DiagFile b end).

(** *** Writing *)

(** A write of a client: its page with why not, or back to it with a note. *)
Definition submit (id : string) (c : call) (n : note) : M page :=
  let* r := ask c in
  match r with
  | inl e => renderClient id (Some (Failed (describe e)))
  | inr _ => ret (Back ["clients"; id] n)
  end.

Definition trim (s : string) : string := to_string (Csv.TrimSpaceU (T s)).

Definition h_cancelCode (id : string) : M page := submit id (DeleteCode id) CodeCancelled.
Definition h_setDescription (id : string) (q : request) : M page :=
  submit id (PatchDevice id (trim (FormValue q "description")) (FormValue q "updated_at")) DescriptionSaved.
Definition h_revoke (id : string) : M page := submit id (DeleteDevice id false) RevokedNote.
Definition h_setLine (id : string) (q : request) : M page :=
  submit id (PutLine id (trim (FormValue q "dn")) (trim (FormValue q "digest_user")) (FormValue q "secret") (FormValue q "updated_at")) LineSaved.
Definition h_deleteLine (id : string) (q : request) : M page := submit id (DeleteLine id (FormValue q "updated_at")) LineRemoved.
Definition h_deleteDiag (id name : string) : M page := submit id (DeleteDiag id name) DiagDeleted.
Definition h_deleteAllDiag (id : string) : M page := submit id (DeleteDiag id "") AllDiagDeleted.

Definition h_createClient (q : request) : M page :=
  let* r := expect (fun v => match v with VCreated id code => Some (id, code) | _ => None end) (PostDevice (trim (FormValue q "user")) (trim (FormValue q "description"))) in
  ret (match r with inl e => NewClient (Some (Failed (describe e))) | inr (id, code) => Code id code end).

Definition h_mintCode (id : string) : M page :=
  let* r := expect (fun v => match v with VCode code => Some code | _ => None end) (PostCode id) in
  match r with inl e => renderClient id (Some (Failed (describe e))) | inr code => ret (Code id code) end.

Definition h_purge (id : string) (q : request) : M page :=
  if bool_decide (FormValue q "confirm" = id) then
    let* r := ask (DeleteDevice id true) in
    match r with inl e => renderClient id (Some (Failed (describe e))) | inr _ => ret (Back ["clients"] PurgedNote) end
  else renderClient id (Some ConfirmPurge).

(** The pieces of a text between the characters [sep] selects. *)
Fixpoint pieces (sep : Ascii.ascii -> bool) (s : text) : list text :=
  match s with
  | [] => [[]]
  | c :: s => if sep c then [] :: pieces sep s else match pieces sep s with p :: ps => (c :: p) :: ps | [] => [[c]] end
  end.

Definition ssid_list (s : string) : list string :=
  filter (fun x => x <> "") (map (fun p => to_string (Csv.TrimSpaceU p)) (pieces (fun c => bool_decide (c = Csv.nl \/ c = Csv.comma)) (T s))).

Definition h_setConfig (id : string) (q : request) : M page :=
  let ssids := ssid_list (FormValue q "ssids") in
  submit id (PutConfig id ssids (FormValue q "config_version")) (if bool_decide (ssids = []) then WifiCleared else WifiSaved).

(** A bare number is an address at the server's domain. *)
Definition bareNumber (s : text) : bool := Admin.matches 32 (fun c => is_digit c || Admin.one_of "+*#" c) s.

Definition normaliseURI (uri domain : string) : string :=
  let uri := trim uri in
  if bareNumber (T uri) && negb (bool_decide (domain = "")) then "sip:" ++ uri ++ "@" ++ domain else uri.

Definition domain_of (r : error + string) : string := match r with inr d => d | inl _ => "" end.
Definition mode_of (s : string) : Mode := if bool_decide (s = "local") then ModeLocal else if bool_decide (s = "trunk") then ModeTrunk else ModeOther.

Definition contact_of (q : request) (cid domain : string) (fav : bool) : Contact :=
  mkContact cid (trim (FormValue q "display_name")) (normaliseURI (FormValue q "uri") domain) (mode_of (FormValue q "mode")) fav 0 0 false.

Definition h_addContact (id : string) (q : request) : M page :=
  let* sv := Server in
  submit id (PostContact id (contact_of q "" (domain_of sv) (bool_decide (FormValue q "favourite" = "on"))) (FormValue q "directory_version")) ContactAdded.

Definition h_editContact (id cid : string) (q : request) : M page :=
  let action := FormValue q "action" in
  let save fav := let* sv := Server in submit id (PutContact id (contact_of q cid (domain_of sv) fav) (FormValue q "directory_version")) ContactSaved in
  if bool_decide (action = "delete") then submit id (DeleteContact id cid (FormValue q "directory_version")) ContactDeleted
  else if bool_decide (action = "star") then save true
  else if bool_decide (action = "unstar") then save false
  else if bool_decide (action = "save") then save (bool_decide (FormValue q "favourite" = "on"))
  else renderClient id (Some UnknownAction).

(** The first file of a multipart form. *)
Definition FormFile (q : request) : option string := match q_body q with Multipart _ (f :: _) => Some f | _ => None end.

Definition with_uri (u : string) (c : Contact) : Contact := mkContact (ID c) (DisplayName c) u (Mode_ c) (Favourite c) (Version c) (UpdatedAt c) (Deleted c).

Definition upload_text (q : request) : complaint + string :=
  if bool_decide (FormValue q "stage" = "confirm") then inr (FormValue q "csv")
  else match FormFile q with
       | None => inl ChooseCSV
       | Some f => if Csv.MaxCSVBytes <? zlen (T f) then inl FileUnreadable else inr f
       end.

Definition h_uploadCSV (id : string) (q : request) : M page :=
  match upload_text q with
  | inl x => renderClient id (Some x)
  | inr csv =>
      let* sv := Server in
      match sv with
      | inl e => renderClient id (Some (Failed (describe e)))
      | inr domain =>
          match Csv.ReadCSV (T csv) with
          | inl e => renderClient id (Some (BadCSV e))
          | inr cs =>
              let cs := map (fun c => with_uri (normaliseURI (URI c) domain) c) cs in
              if bool_decide (FormValue q "stage" = "confirm") then
                let* r := ReplaceDirectory id cs (FormValue q "directory_version") false in
                match r with inl e => renderClient id (Some (Failed (describe e))) | inr r => ret (Back ["clients"; id] (Replaced r)) end
              else
                let* r := ReplaceDirectory id cs "" true in
                match r with
                | inl e => renderClient id (Some (Failed (describe e)))
                | inr r => let* _ := Device id in ret (UploadPreview id r csv (zlen cs))
                end
          end
      end
  end.

Definition form_values (f : form) (k : string) : list string := map snd (filter (fun kv => fst kv = k) f).

(** What a copy carries of a contact. *)
Definition copied (c : Contact) : Contact := mkContact "" (DisplayName c) (URI c) (Mode_ c) (Favourite c) 0 0 false.

Fixpoint copy_to (cs : list Contact) (targets : list string) : M (list (string * (error + ReplaceResult))) :=
  match targets with
  | [] => ret []
  | t :: targets => let* r := ReplaceDirectory t cs "" false in let* rest := copy_to cs targets in ret ((t, r) :: rest)
  end.

Definition h_copyDirectory (id : string) (q : request) : M page :=
  match form_values (Form q) "targets" with
  | [] => renderClient id (Some ChooseTarget)
  | targets =>
      let* src := Directory id in
      match src with
      | inl e => renderClient id (Some (Failed (describe e)))
      | inr (_, cs) => let* _ := Devices_ in let* rs := copy_to (map copied cs) targets in ret (Copied rs)
      end
  end.

Definition h_setLicence (q : request) : M page :=
  let tok := trim (FormValue q "licence") in
  if bool_decide (tok = "") then renderLicence (Some PasteLicence)
  else let* r := ask (PutLicence tok) in
       match r with inl e => renderLicence (Some (Failed (describe e))) | inr _ => ret (Back ["licence"] LicenceInstalled) end.

(** fmt.Sscanf with a d verb: a sign and digits, whatever follows. *)
Fixpoint leading_digits (s : text) : text := match s with c :: s => if is_digit c then c :: leading_digits s else [] | [] => [] end.

Definition Sscanf_d (s : text) : option Z :=
  let '(neg, s) := match s with c :: r => if bool_decide (c = "-"%char) then (true, r) else if bool_decide (c = "+"%char) then (false, r) else (false, s) | [] => (false, s) end in
  match leading_digits s with
  | [] => None
  | ds => n ← digits_val 0 (to_string ds); let n := if neg then - n else n in if (- 2 ^ 63 <=? n) && (n <? 2 ^ 63) then Some n else None
  end.

Definition for_seconds_of (s : string) : complaint + option Z :=
  let s := trim s in
  if bool_decide (s = "") then inr None
  else match Sscanf_d (T s) with Some n => if n <=? 0 then inl WholeSeconds else inr (Some n) | None => inl WholeSeconds end.

Definition h_setLog (q : request) : M page :=
  let l := FormValue q "level" in
  match for_seconds_of (FormValue q "for_seconds") with
  | inl x => renderDiagnostics (Some x)
  | inr secs =>
      let* r := ask (PutLog (if bool_decide (l = "") then None else Some l) (bool_decide (FormValue q "sip_trace" = "on")) secs) in
      match r with inl e => renderDiagnostics (Some (Failed (describe e))) | inr _ => ret (Back ["diagnostics"] LogUpdated) end
  end.

Definition path_part (n : nat) (q : request) : string := default "" (u_segs (q_uri q) !! n).

(** The handlers by the route that leads to them. *)
Definition handle_api (h : handler) (q : request) : M page :=
  let id := path_part 1 q in
  match h with
  | server => h_server | clients => h_clients | calls => h_calls | client => renderClient id None
  | newClient => ret (NewClient None) | codePage => h_codePage id | downloadCSV => h_downloadCSV id | diagFile => h_diagFile id (path_part 3 q)
  | diagnostics => renderDiagnostics None | licence => renderLicence None
  | createClient => h_createClient q | mintCode => h_mintCode id | cancelCode => h_cancelCode id
  | setDescription => h_setDescription id q | revoke => h_revoke id | purge => h_purge id q | setConfig => h_setConfig id q
  | setLine => h_setLine id q | deleteLine => h_deleteLine id q
  | addContact => h_addContact id q | editContact => h_editContact id (path_part 3 q) q
  | uploadCSV => h_uploadCSV id q | copyDirectory => h_copyDirectory id q
  | deleteDiag => h_deleteDiag id (path_part 3 q) | deleteAllDiag => h_deleteAllDiag id
  | setLog => h_setLog q | setLicence => h_setLicence q
  end.
End handlers.

(** ** What a form does *)

Section told.
Context {S W : Type} (serve : CallServer S W).
Abbreviation M := (@M S W).

Definition writes (tr : list (call * result)) : list (call * result) := List.filter (fun x => is_write (fst x)) tr.

(** The requests made while the call server goes from a state to another, each asked
    of it as it then was, and what came back. *)
Inductive exchanged : S -> list (call * result) -> S -> Prop :=
  | exchanged_nil s : exchanged s [] s
  | exchanged_cons c f s tr s' : exchanged (fst (do serve c f s)) tr s' -> exchanged s ((c, snd (do serve c f s)) :: tr) s'.

Lemma exchanged_app s tr s' tr' s'' : exchanged s tr s' -> exchanged s' tr' s'' -> exchanged s (tr ++ tr') s''.
Proof. induction 1; [done|]. intros H'. simpl. constructor. auto. Qed.

Lemma exchanged_at s tr s' x : exchanged s tr s' -> x ∈ tr ->
  exists tr1 tr2 s1 f, tr = tr1 ++ x :: tr2 /\ exchanged s tr1 s1 /\ snd x = snd (do serve (fst x) f s1) /\ exchanged (fst (do serve (fst x) f s1)) tr2 s'.
Proof.
  induction 1 as [s|c f s tr s' Hx IH]; [by intros ?%elem_of_nil|]. intros [->|Hin]%elem_of_cons.
  - exists [], tr, s, f. split; [done|]. split; [constructor | done].
  - destruct (IH Hin) as (tr1 & tr2 & s1 & f' & -> & H1 & H2 & H3). eexists (_ :: tr1), tr2, s1, f'. split; [done|]. by split; [constructor|].
Qed.

(** Between two states, the call server was asked [c], and told [v] as its answer to
    it, 2xx; or it answered with a redirect, and what was found there is [v], 2xx. *)
Definition took (s : S) (c : call) (v : value) (s' : S) : Prop :=
  exists tr tr' s1 s2 s3 x a v0, exchanged s tr s1 /\ serve c x s1 = (s2, (a, v0)) /\ exchanged s3 tr' s' /\
    (Admin.a_status a < 300 /\ v0 = v /\ s3 = s2
     \/ exists method loc next b, redirectBehavior (method_path c).1.1 a (location serve c x s1) = Some (method, loc)
          /\ follow serve 9 method loc c next s2 = (s3, Some (b, v)) /\ Admin.a_status b < 300).

Lemma told_took s tr s' c v : exchanged s tr s' -> (c, inr v) ∈ tr -> took s c v s'.
Proof.
  intros Hx Hin. destruct (exchanged_at _ _ _ _ Hx Hin) as (tr1 & tr2 & s1 & f & -> & H1 & Hr & H2). cbn [fst snd] in *.
  unfold do, exchange in *. destruct f as [|x|x next]; [done|done|]. destruct (serve c x s1) as [s2 [a v0]] eqn:E.
  destruct (redirectBehavior _ a _) as [[method loc]|] eqn:Er.
  - destruct (follow serve 9 method loc c next s2) as [s3 [[b v1]|]] eqn:Ef; [|done]. cbn [fst snd] in *. exists tr1, tr2, s1, s2, s3, x, a, v0.
    split; [done|]. split; [done|]. split; [done|]. right. exists method, loc, next, b. split; [done|].
    destruct (Admin.a_status b =? 401); [done|]. destruct (Z.leb_spec 300 (Admin.a_status b)); [done|]. destruct (decodes c v1); [|done]. by injection Hr as ->.
  - cbn [fst snd] in *. exists tr1, tr2, s1, s2, s2, x, a, v0. split; [done|]. split; [done|]. split; [done|]. left.
    destruct (Admin.a_status a =? 401); [done|]. destruct (Z.leb_spec 300 (Admin.a_status a)); [done|]. destruct (decodes c v0); [|done]. by injection Hr as ->.
Qed.

(** Whatever the world, a program asks [tr] and ends with [a] so that [Q]. *)
Definition does {A} (m : M A) (Q : list (call * result) -> A -> Prop) : Prop :=
  forall w, exists tr, trace (fst (m w)) = trace w ++ tr /\ exchanged (srv w) tr (srv (fst (m w))) /\ Q tr (snd (m w)).

Definition reads {A} (m : M A) : Prop := does m (fun tr _ => writes tr = []).

Lemma does_ret {A} (a : A) (Q : list (call * result) -> A -> Prop) : Q [] a -> does (ret a) Q.
Proof. intros H w. exists []. rewrite app_nil_r. split; [done|]. by split; [constructor|]. Qed.

Lemma does_bind {A B} (m : M A) (k : A -> M B) (P : list (call * result) -> A -> Prop) (Q : list (call * result) -> B -> Prop) :
  does m P -> (forall tr a, P tr a -> does (k a) (fun tr' b => Q (tr ++ tr') b)) -> does (bind m k) Q.
Proof.
  intros Hm Hk w. destruct (Hm w) as (tr & E & Hx & Hp). unfold bind. destruct (m w) as [w1 a]. simpl in *.
  destruct (Hk tr a Hp w1) as (tr' & E' & Hx' & Hq). exists (tr ++ tr'). split; [by rewrite E', E, <- app_assoc|]. split; [by eapply exchanged_app | done].
Qed.

Lemma does_mono {A} (m : M A) (P Q : list (call * result) -> A -> Prop) : does m P -> (forall tr a, P tr a -> Q tr a) -> does m Q.
Proof. intros Hm H w. destruct (Hm w) as (tr & E & Hx & Hp). eauto 6. Qed.

Lemma does_ask c : does (ask serve c) (fun tr r => tr = [(c, r)]).
Proof.
  intros w. unfold ask. pose proof (exchanged_cons c (default NeverArrived (head (fates w))) (srv w) []) as Hx.
  destruct (do _ _ _ _) as [s r]. simpl in *. exists [(c, r)]. split; [done|]. split; [apply Hx; constructor | done].
Qed.

Lemma writes_app tr tr' : writes (tr ++ tr') = writes tr ++ writes tr'.
Proof. apply List.filter_app. Qed.

Lemma reads_ret {A} (a : A) : reads (ret a).
Proof. by apply does_ret. Qed.

Lemma reads_bind {A B} (m : M A) (k : A -> M B) : reads m -> (forall a, reads (k a)) -> reads (bind m k).
Proof. intros Hm Hk. eapply does_bind; [exact Hm|]. intros tr a Ht. eapply does_mono; [apply Hk|]. intros tr' b. by rewrite writes_app, Ht. Qed.

Lemma reads_ask c : is_write c = false -> reads (ask serve c).
Proof. intros Hc. eapply does_mono; [apply does_ask|]. intros tr r ->. unfold writes. simpl. by rewrite Hc. Qed.

Lemma reads_expect {A} (f : value -> option A) c : is_write c = false -> reads (expect serve f c).
Proof. intros Hc. apply reads_bind; [by apply reads_ask|]. intros r. apply reads_ret. Qed.

Lemma reads_andthen {A B} (m : M (error + A)) (k : A -> M (error + B)) : reads m -> (forall a, reads (k a)) -> reads (andthen m k).
Proof. intros Hm Hk. apply reads_bind; [done|]. intros [e|a]; [apply reads_ret | apply Hk]. Qed.

Lemma reads_fetched key r : reads (@fetched S W key r).
Proof. intros w. exists []. rewrite app_nil_r. split; [by destruct r as [[]|]|]. split; [|done]. destruct r as [[]|]; constructor. Qed.

Lemma reads_page_of key told r : reads (@page_of S W key told r).
Proof. apply reads_bind; [apply reads_fetched|]. intros. apply reads_ret. Qed.
End told.

Create HintDb reading.
#[export] Hint Resolve reads_ret reads_page_of : reading.
#[export] Hint Extern 1 (reads _ (bind _ _)) => apply reads_bind; intros : reading.
#[export] Hint Extern 1 (reads _ (andthen _ _)) => apply reads_andthen; intros : reading.
#[export] Hint Extern 1 (reads _ (expect _ _ _)) => apply reads_expect; reflexivity : reading.
#[export] Hint Extern 1 (reads _ (ask _ _)) => apply reads_ask; reflexivity : reading.
#[export] Hint Extern 2 (reads _ (match ?x with _ => _ end)) => destruct x : reading.

(** A program that only reads. *)
Ltac reading := eauto 30 with reading.

Section forms.
Context {S W : Type} (serve : CallServer S W).
Abbreviation does := (does serve).
Abbreviation reads := (reads serve).

Lemma reads_renderClient id told : reads (renderClient serve id told).
Proof. unfold renderClient, loadClient, Device, Status_, Directory, Diag, Devices_, Server. reading. Qed.

Lemma reads_loadUploads ds : reads (loadUploads serve ds).
Proof. induction ds as [|d ds IH]; cbn [loadUploads]; unfold Diag; reading. Qed.
#[local] Hint Resolve reads_loadUploads reads_renderClient : reading.

Lemma reads_renderDiagnostics told : reads (renderDiagnostics serve told).
Proof. unfold renderDiagnostics, loadDiagnostics, Events_, Devices_. reading. Qed.

Lemma reads_renderLicence told : reads (renderLicence serve told).
Proof. unfold renderLicence. reading. Qed.
#[local] Hint Resolve reads_renderDiagnostics reads_renderLicence : reading.

(** The pages, which are served to a GET. *)
Definition is_page (h : handler) : bool :=
  match h with server | clients | newClient | client | codePage | downloadCSV | diagFile | calls | diagnostics | licence => true | _ => false end.

Lemma reads_pages h q : is_page h = true -> reads (handle_api serve h q).
Proof.
  destruct h; try discriminate; intros _; cbn [handle_api];
    unfold h_server, h_clients, h_codePage, h_downloadCSV, h_diagFile, h_calls, loadClients, Server, Devices_, Status_, Device, Directory; reading.
Qed.

Definition said_done (p : page) : bool := match p with Back _ _ | Code _ _ => true | _ => false end.

(** One write and its result, the page saying so only if it was accepted. *)
Definition one_write (P : call -> Prop) (tr : list (call * result)) (p : page) : Prop :=
  (exists c r, writes tr = [(c, r)] /\ P c /\ (said_done p = true -> exists v, r = inr v)) \/ (writes tr = [] /\ said_done p = false).

Definition never_done {A} (m : @M S W A) (f : A -> page) : Prop := does m (fun tr a => writes tr = [] /\ said_done (f a) = false).

Lemma renderClient_fails id told : does (renderClient serve id told) (fun tr p => writes tr = [] /\ said_done p = false).
Proof.
  intros w. destruct (reads_renderClient id told w) as (tr & E & Hx & Hw). exists tr. split; [done|]. split; [done|]. split; [done|].
  unfold renderClient, bind, ret. destruct (loadClient serve id w) as [w1 r]. destruct (page_of _ _ r w1) as [w2 v]. simpl. destruct r as [e|]; [by destruct (isNotFound e) | done].
Qed.

Lemma renderDiagnostics_fails told : does (renderDiagnostics serve told) (fun tr p => writes tr = [] /\ said_done p = false).
Proof.
  intros w. destruct (reads_renderDiagnostics told w) as (tr & E & Hx & Hw). exists tr. split; [done|]. split; [done|]. split; [done|].
  unfold renderDiagnostics, bind, ret. destruct (loadDiagnostics serve w) as [w1 r]. by destruct (page_of _ _ r w1) as [w2 v].
Qed.

Lemma renderLicence_fails told : does (renderLicence serve told) (fun tr p => writes tr = [] /\ said_done p = false).
Proof.
  intros w. destruct (reads_renderLicence told w) as (tr & E & Hx & Hw). exists tr. split; [done|]. split; [done|]. split; [done|].
  unfold renderLicence, bind, ret. destruct (expect serve any GetLicence w) as [w1 r]. by destruct (page_of _ _ _ w1) as [w2 v].
Qed.

Lemma one_write_none (m : @M S W page) P : does m (fun tr p => writes tr = [] /\ said_done p = false) -> does m (one_write P).
Proof. intros H. eapply does_mono; [exact H|]. intros tr p Hp. by right. Qed.

(** A program that reads, and then makes its one write. *)
Lemma one_write_after {A} (m : @M S W A) (k : A -> @M S W page) P : reads m -> (forall a, does (k a) (one_write P)) -> does (bind m k) (one_write P).
Proof.
  intros Hm Hk. eapply does_bind; [exact Hm|]. intros tr a Ht. eapply does_mono; [apply Hk|]. intros tr' p. unfold one_write. by rewrite writes_app, Ht.
Qed.

(** The write, then a page that reads if it failed. *)
Lemma one_write_then c (k : result -> @M S W page) (P : call -> Prop) : is_write c = true -> P c ->
  (forall r, does (k r) (fun tr p => writes tr = [] /\ (said_done p = true -> exists v, r = inr v))) -> does (bind (ask serve c) k) (one_write P).
Proof.
  intros Hc Hp Hk. eapply does_bind; [apply does_ask|]. intros tr r ->. eapply does_mono; [apply Hk|]. intros tr' p [Ht Hs]. left. exists c, r.
  rewrite writes_app, Ht. unfold writes. simpl. rewrite Hc. done.
Qed.

Lemma submit_one id c n (P : call -> Prop) : is_write c = true -> P c -> does (submit serve id c n) (one_write P).
Proof.
  intros Hc Hp. apply one_write_then; [done..|]. intros [e|v].
  - eapply does_mono; [apply renderClient_fails|]. intros tr p [H1 H2]. split; [done|]. by rewrite H2.
  - apply does_ret. split; [done | eauto].
Qed.

Lemma does_expect {A} (f : value -> option A) c : does (expect serve f c) (fun tr b => exists r, tr = [(c, r)] /\ forall a, b = inr a -> exists v, r = inr v).
Proof.
  eapply does_bind; [apply does_ask|]. intros tr r ->. apply does_ret. exists r. split; [done|]. intros a Ha. destruct r as [e|v]; [done | eauto].
Qed.

Lemma expect_one {A} (f : value -> option A) c (k : error + A -> @M S W page) (P : call -> Prop) : is_write c = true -> P c ->
  (forall r, does (k r) (fun tr p => writes tr = [] /\ (said_done p = true -> exists a, r = inr a))) -> does (bind (expect serve f c) k) (one_write P).
Proof.
  intros Hc Hp Hk. eapply does_bind; [apply does_expect|]. intros tr b (r & -> & Hr). eapply does_mono; [apply Hk|]. intros tr' p [Ht Hs]. left. exists c, r.
  rewrite writes_app, Ht. unfold writes. simpl. rewrite Hc. split; [done|]. split; [done|]. intros H. destruct (Hs H) as [a ->]. eauto.
Qed.

(** The device a form is about, and the version it was filled in against. *)
Definition about (h : handler) (q : request) : option string :=
  match h with createClient | setLog | setLicence => None | _ => Some (path_part 1 q) end.

Definition against (h : handler) (q : request) : string :=
  match h with
  | setDescription | setLine | deleteLine => FormValue q "updated_at"
  | setConfig => FormValue q "config_version"
  | addContact | editContact | uploadCSV => FormValue q "directory_version"
  | _ => ""
  end.

(** The request of the admin API a form is for: method, path and query. *)
Definition leads_to (h : handler) (q : request) : string * list string * list (string * string) :=
  let id := path_part 1 q in let part := path_part 3 q in
  match h with
  | createClient => ("POST", ["devices"], [])
  | mintCode => ("POST", ["devices"; id; "enrol-code"], []) | cancelCode => ("DELETE", ["devices"; id; "enrol-code"], [])
  | setDescription => ("PATCH", ["devices"; id], [])
  | revoke => ("DELETE", ["devices"; id], []) | purge => ("DELETE", ["devices"; id], [("purge", "1")])
  | setConfig => ("PUT", ["devices"; id; "config"], [])
  | setLine => ("PUT", ["devices"; id; "pbx-line"], []) | deleteLine => ("DELETE", ["devices"; id; "pbx-line"], [])
  | addContact => ("POST", ["devices"; id; "directory"], []) | uploadCSV => ("PUT", ["devices"; id; "directory"], [])
  | editContact => (if bool_decide (FormValue q "action" = "delete") then "DELETE" else "PUT", ["devices"; id; "directory"; part], [])
  | deleteDiag => ("DELETE", ["devices"; id; "diag"] ++ (if bool_decide (part = "") then [] else [part]), [])
  | deleteAllDiag => ("DELETE", ["devices"; id; "diag"], [])
  | setLog => ("PUT", ["log"], []) | setLicence => ("PUT", ["licence"], [])
  | _ => ("", [], [])
  end.

Lemma failing_page (m : @M S W page) {A B} (r : A + B) : does m (fun tr p => writes tr = [] /\ said_done p = false) ->
  does m (fun tr p => writes tr = [] /\ (said_done p = true -> exists v, r = inr v)).
Proof. intros H. eapply does_mono; [exact H|]. intros tr p [H1 H2]. split; [done|]. by rewrite H2. Qed.

Lemma forms_one h q : is_page h = false -> h <> copyDirectory ->
  does (handle_api serve h q) (one_write (fun c => (is_write c = true -> device_of c = about h q /\ if_match c = against h q /\ method_path c = leads_to h q))).
Proof.
  pose proof renderClient_fails as Hrc. pose proof renderDiagnostics_fails as Hrd. pose proof renderLicence_fails as Hrl.
  assert (Hret : forall A B (r : A + B) p v, r = inr v -> does (@ret S W page p) (fun tr p => writes tr = [] /\ (said_done p = true -> exists v, r = inr v))).
  { intros A B r p v ->. apply does_ret. eauto. }
  destruct h; try discriminate; intros _ Hne; try done; cbn [handle_api].
  - (* createClient *) apply expect_one; [done..|]. intros [e|[]]; [apply does_ret; by split | by eapply Hret].
  - (* mintCode *) apply expect_one; [done..|]. intros [e|]; [apply failing_page, Hrc | by eapply Hret].
  - by apply submit_one.
  - by apply submit_one.
  - by apply submit_one.
  - (* purge *) unfold h_purge. destruct (bool_decide _); [|apply one_write_none, Hrc]. apply one_write_then; [done..|]. intros [e|v]; [apply failing_page, Hrc | by eapply Hret].
  - by apply submit_one.
  - by apply submit_one.
  - by apply submit_one.
  - (* addContact *) apply one_write_after; [unfold Server; reading|]. intros sv. by apply submit_one.
  - (* uploadCSV *) unfold h_uploadCSV. destruct (upload_text q) as [x|csv]; [apply one_write_none, Hrc|].
    apply one_write_after; [unfold Server; reading|]. intros [e|dom]; [apply one_write_none, Hrc|]. destruct (Csv.ReadCSV _) as [e|cs]; [apply one_write_none, Hrc|].
    destruct (bool_decide _).
    + apply expect_one; [done..|]. intros [e|r]; [apply failing_page, Hrc | by eapply Hret].
    + apply one_write_after; [unfold ReplaceDirectory; reading|]. intros [e|r]; [apply one_write_none, Hrc|].
      apply one_write_after; [unfold Device; reading|]. intros _. apply does_ret. by right.
  - (* editContact *) unfold leads_to, h_editContact. destruct (bool_decide _); [by apply submit_one|].
    do 3 (destruct (bool_decide _); [apply one_write_after; [unfold Server; reading|]; intros sv; by apply submit_one|]). apply one_write_none, Hrc.
  - by apply submit_one.
  - by apply submit_one.
  - (* setLog *) unfold h_setLog. destruct (for_seconds_of _) as [x|secs]; [apply one_write_none, Hrd|]. apply one_write_then; [done..|].
    intros [e|v]; [apply failing_page, Hrd | by eapply Hret].
  - (* setLicence *) unfold h_setLicence. destruct (bool_decide _); [apply one_write_none, Hrl|]. apply one_write_then; [done..|].
    intros [e|v]; [apply failing_page, Hrl | by eapply Hret].
Qed.

(** What a copy writes: one replacement for each target, in order, each with its own
    result. *)
Lemma copy_to_writes cs ts : does (copy_to serve cs ts) (fun tr rs => writes tr = tr /\ map fst rs = ts /\
  Forall2 (fun x y => fst x = PutDirectory (fst y) cs "" false /\ (forall r, snd y = inr r -> snd x = inr (VReplace r))) tr rs).
Proof.
  induction ts as [|t ts IH]; cbn [copy_to]; [apply does_ret; by repeat constructor|].
  eapply (does_bind _ _ _ (fun tr (b : error + ReplaceResult) => exists r, tr = [(PutDirectory t cs "" false, r)] /\ forall a, b = inr a -> r = inr (VReplace a))).
  { eapply does_bind; [apply does_ask|]. intros tr r ->. apply does_ret. exists r. split; [done|]. intros a Ha. destruct r as [e|[]]; simplify_eq; done. }
  intros tr b (r & -> & Hr). eapply does_bind; [exact IH|]. intros tr' rs (H1 & H2 & H3). apply does_ret. rewrite app_nil_r. split; [|split].
  - unfold writes in *. simpl. by rewrite H1.
  - simpl. by rewrite H2.
  - constructor; [done | exact H3].
Qed.

(** A copy writes what was chosen, or ends on a page that is not of results. *)
Lemma copies_what_was_chosen q : does (h_copyDirectory serve (path_part 1 q) q) (fun tr p => writes tr = [] /\ (forall rs, p <> Copied rs) \/
  exists rs, p = Copied rs /\ map fst rs = form_values (Form q) "targets"
    /\ Forall2 (fun x y => method_path (fst x) = ("PUT", ["devices"; fst y; "directory"], []) /\ forall r, snd y = inr r -> snd x = inr (VReplace r)) (writes tr) rs).
Proof.
  assert (Hfail : forall x, does (renderClient serve (path_part 1 q) x) (fun tr p => writes tr = [] /\ (forall rs, p <> Copied rs))).
  { intros x w0. destruct (renderClient_fails (path_part 1 q) x w0) as (tr & E & Hx & Hw & _). exists tr. split; [done|]. split; [done|]. split; [done|].
    unfold renderClient, bind, ret. destruct (loadClient serve _ w0) as [w1 r]. destruct (page_of _ _ r w1) as [w2 v]. simpl. destruct r as [e|]; [by destruct (isNotFound e) | done]. }
  unfold h_copyDirectory. destruct (form_values (Form q) "targets") as [|t ts] eqn:Et; [eapply does_mono; [apply Hfail | by left]|].
  eapply does_bind; [unfold Directory; apply reads_expect; reflexivity|]. intros tr [e|[n cs]] Ht.
  - eapply does_mono; [apply Hfail|]. intros tr' p' [H1 H2]. left. by rewrite writes_app, Ht.
  - eapply does_bind; [unfold Devices_; apply reads_expect; reflexivity|]. intros tr1 all Ht1.
    eapply does_bind; [apply copy_to_writes|]. intros tr2 rs (H1 & H2 & H3). apply does_ret. right. exists rs. split; [done|]. split; [done|].
    rewrite app_nil_r, !writes_app, Ht, Ht1, H1. simpl. eapply Forall2_impl; [exact H3|]. intros [c r] [d b] [-> Hr]. done.
Qed.

Lemma write_of_trace tr x : x ∈ writes tr -> x ∈ tr /\ is_write (fst x) = true.
Proof. intros [H1 H2]%list_elem_of_In%List.filter_In. split; [by apply list_elem_of_In | done]. Qed.

(** C37: What the operator is told happened, happened, whatever the call server does
    and whichever requests or answers are lost: looking at a page asks the call server
    for nothing that changes anything; a form makes at most one write, the one it is
    for, about the client in its path and against the version it was filled in with;
    it goes on as done only if that write came back as done; a copy makes one write
    for each client chosen, in order, and shows as done those that came back so.  A
    write comes back as done only if the call server, asked it meanwhile, answered
    2xx itself, or redirected it and the place it was redirected to answered 2xx. *)
Theorem done_is_told_of_what_was_done h q (w : @world S W) :
  let w' := fst (handle_api serve h q w) in let p := snd (handle_api serve h q w) in
  exists tr, trace w' = trace w ++ tr /\ let ws := writes tr in
  (forall c v, (c, inr v) ∈ ws -> took serve (srv w) c v (srv w'))
  /\ (is_page h = true -> ws = [])
  /\ (h <> copyDirectory -> (length ws <= 1)%nat /\ (is_page h = false -> said_done p = true -> exists c v, ws = [(c, inr v)])
       /\ forall c r, (c, r) ∈ ws -> device_of c = about h q /\ if_match c = against h q /\ method_path c = leads_to h q)
  /\ (h = copyDirectory -> ws = [] /\ (forall rs, p <> Copied rs) \/
       exists rs, p = Copied rs /\ map fst rs = form_values (Form q) "targets"
         /\ Forall2 (fun x y => method_path (fst x) = ("PUT", ["devices"; fst y; "directory"], []) /\ forall r, snd y = inr r -> snd x = inr (VReplace r)) ws rs).
Proof.
  intros w' p. assert (Htook : forall tr, exchanged serve (srv w) tr (srv w') -> forall c v, (c, inr v) ∈ writes tr -> took serve (srv w) c v (srv w')).
  { intros tr Hx c v [Hin _]%write_of_trace. by eapply told_took. }
  destruct (is_page h) eqn:Hp; [|destruct (decide (h = copyDirectory)) as [->|Hne]].
  - destruct (reads_pages h q Hp w) as (tr & E & Hx & Hw). exists tr. split; [done|]. split; [by apply Htook|]. rewrite Hw. split; [done|]. split; [|by intros ->].
    intros _. split; [simpl; lia|]. split; [done|]. intros c r H%elem_of_nil. done.
  - destruct (copies_what_was_chosen q w) as (tr & E & Hx & Hq). exists tr. split; [exact E|]. split; [by apply Htook|]. split; [done|]. split; [done|]. intros _. exact Hq.
  - destruct (forms_one h q Hp Hne w) as (tr & E & Hx & Hq). exists tr. split; [exact E|]. split; [by apply Htook|]. split; [done|]. split; [|done]. intros _.
    destruct Hq as [(c & r & Hw & Hc & Hs)|[Hw Hs]].
    + destruct (write_of_trace tr (c, r)) as [_ Hwr]; [rewrite Hw; by left|]. rewrite Hw. split; [simpl; lia|].
      split; [intros _ H; destruct (Hs H) as [v ->]; eauto|]. intros c' r' Hin. apply list_elem_of_singleton in Hin. simplify_eq. by apply Hc.
    + rewrite Hw. split; [simpl; lia|]. split; [intros _ H; fold p in Hs; by rewrite Hs in H|]. intros c r H%elem_of_nil. done.
Qed.
End forms.

(** ** Old data is marked *)

(** A page shows what the call server has just answered, without a banner; or, with
    the banner and the time, what it answered last. *)
Lemma old_data_is_marked {S W} key told r (w : @world S W) : let '(w', v) := page_of key told r w in
  (forall d, shown v = Some d -> (r = inr d /\ banner v = false) \/ (r = inl Unreachable /\ banner v = true /\ last_ w !! key = Some (lastAt v, d)))
  /\ (r = inl Unreachable -> banner v = true)
  /\ last_ w' = match r with inr d => <[key := (clock w, d)]> (last_ w) | inl _ => last_ w end.
Proof.
  unfold page_of, bind, ret, fetched. destruct r as [[]|d]; simpl; try (split; [by intros d0 ?|done]).
  - destruct (last_ w !! key) as [[t d]|] eqn:E; simpl; (split; [|done]); intros d0 H; simplify_eq. by right.
  - split; [|done]. intros d0 H. simplify_eq. by left.
Qed.

(** ** The list of Wi-Fi networks *)

(** What the page puts in the box. *)
Fixpoint join (sep : Ascii.ascii) (ps : list text) : text :=
  match ps with [] => [] | [p] => p | p :: ps => p ++ sep :: join sep ps end.

Definition separator (c : Ascii.ascii) : bool := bool_decide (c = Csv.nl \/ c = Csv.comma).

Lemma pieces_plain p : forallb (fun c => negb (separator c)) p = true -> pieces separator p = [p].
Proof. induction p as [|c p IH]; [done|]. cbn [forallb pieces]. intros [Hc Hp]%andb_prop. destruct (separator c); [done|]. by rewrite IH. Qed.

Lemma pieces_join p s : forallb (fun c => negb (separator c)) p = true -> pieces separator (p ++ Csv.nl :: s) = p :: pieces separator s.
Proof.
  induction p as [|c p IH]; [done|]. cbn [forallb pieces app]. intros [Hc Hp]%andb_prop. destruct (separator c); [done|]. by rewrite IH.
Qed.

(** A name the box gives back as it was. *)
Definition boxable (x : string) : Prop := x <> "" /\ Csv.TrimSpaceU (T x) = T x /\ forallb (fun c => negb (separator c)) (T x) = true.

Lemma ssids_come_back l : Forall boxable l -> ssid_list (to_string (join Csv.nl (map T l))) = l.
Proof.
  intros Hl. unfold ssid_list. rewrite T_to_string. change (fun c => bool_decide (c = Csv.nl \/ c = Csv.comma)) with separator.
  destruct Hl as [|x l Hx Hl]; [reflexivity|].
  assert (Hp : pieces separator (join Csv.nl (map T (x :: l))) = map T (x :: l)).
  { clear -Hx Hl. revert x Hx. induction Hl as [|y l Hy Hl IH]; intros x (_ & _ & Hx); [by apply pieces_plain|].
    change (join Csv.nl (map T (x :: y :: l))) with (T x ++ Csv.nl :: join Csv.nl (map T (y :: l))). rewrite pieces_join by done. by rewrite (IH y Hy). }
  rewrite Hp. assert (Hall : Forall boxable (x :: l)) by (by constructor). clear Hp Hx Hl. induction Hall as [|z l' (Hz1 & Hz2 & Hz3) _ IH]; [done|].
  cbn [map]. rewrite Hz2, to_string_T, filter_cons_True by done. f_equal. apply IH.
Qed.

(** ** What modelling has found *)

(** A network with a comma in its name becomes two when the page is saved unchanged. *)
Lemma a_comma_splits_a_network : ssid_list (to_string (join Csv.nl (map T ["Cafe, upstairs"]))) = ["Cafe"; "upstairs"].
Proof. vm_compute. reflexivity. Qed.

(** The page of the latest hundred events asks for those after cursor 0: of more than a
    hundred it is given the oldest. *)
Lemma recent_events_are_the_oldest :
  let r := foldl (fun r i => r ← r; Events.Emit (D := unit) true i "call" "dev" "ann" None r) (Some (Events.New 200)) (seqZ 1 150) in
  (r ← r; '(evs, next, _) ← Events.Since 0 100 r; Some (map Events.ev_seq evs, next)) = Some (seqZ 1 100, 100).
Proof. vm_compute. reflexivity. Qed.

(** A copy left on an expired session is replayed without its targets. *)
Lemma a_replayed_copy_is_lost {S W} serve id (p : Pending) (w : @world S W) :
  handle_api serve copyDirectory (replay_request id p) w = renderClient serve (path_part 1 (replay_request id p)) (Some ChooseTarget) w.
Proof. reflexivity. Qed.

(** The admin API's mux redirects a path that is not clean to the clean one, here
    DELETE /v1/admin/devices/. to the list of devices, which a GET then reads. *)
Definition mux_redirects : CallServer Z unit := mkCallServer
  (fun c _ n => match c with
    | DeleteDevice id _ => if bool_decide (id = ".") then (n, (Admin.done_with 301, VNone)) else (n + 1, (Admin.done_with 204, VNone))
    | _ => (n, (Admin.done_with 200, VOther))
    end)
  (fun c _ _ => match c with DeleteDevice id _ => if bool_decide (id = ".") then Some "/v1/admin/devices" else None | _ => None end)
  (fun _ _ _ _ n => (n, (Admin.done_with 200, VDevices []), None)).

(** A write that was redirected is told as done, where all that was done is a read. *)
Lemma a_redirected_write_is_told_as_done :
  let w := mkWorld 0 [Delivered tt (Delivered tt NeverArrived)] [] ∅ 0 in
  let '(w', p) := h_revoke mux_redirects "." w in p = Back ["clients"; "."] RevokedNote /\ srv w' = 0.
Proof. vm_compute. done. Qed.

(** A write whose answer is lost has been made, and is told as one that changed nothing. *)
Lemma a_lost_answer_is_told_as_no_change {S W} (serve : CallServer S W) c x s :
  let '(s', r) := do serve c (AnswerLost x) s in s' = fst (serve c x s) /\ match r with inl e => describe e = NotAnswering | inr _ => False end.
Proof. done. Qed.

(** Ten minutes, typed where seconds are asked for, is ten seconds. *)
Lemma ten_minutes_is_ten_seconds : for_seconds_of "10m" = inr (Some 10).
Proof. vm_compute. reflexivity. Qed.
