(* ===== verification/ConsoleBooks.v ===== *)
(** The operator's console at work on the address books: the pages of ConsoleApi
    and the files of Csv over the address-book API of DirApi
    (src/server/internal/adminui/directory.go and client.go against
    src/server/internal/directory/handler.go).

    [BookServer] is what the console may rely on: a call server that answers a GET
    without changing a directory, and the requests for directories as DirApi does,
    and that redirects, by a 301, only a path that is not clean.
    The theorems are about any such server, whatever else it keeps and whichever
    requests or answers are lost; [book_serve] is one. *)

From S2P Require Import Prelude Text Directory Console ConsoleApi.
From S2P Require Admin DirApi Csv.
Open Scope Z_scope.

(** ** The If-Match the client sends *)

(** strconv.Quote: [other] quotes a text that is not all ASCII. *)
Definition hex_digit (n : Z) : Ascii.ascii := Ascii.ascii_of_N (Z.to_N (if n <? 10 then 48 + n else 87 + n)).

Definition escape (c : Ascii.ascii) : text :=
  let n := Admin.byte_z c in
  if bool_decide (c = Admin.quote \/ c = "\"%char) then ["\"%char; c]
  else if (32 <=? n) && (n <? 127) then [c]
  else match find (fun p => fst p =? n) [(7, "a"%char); (8, "b"%char); (12, "f"%char); (10, "n"%char); (13, "r"%char); (9, "t"%char); (11, "v"%char)] with
       | Some (_, l) => ["\"%char; l]
       | None => ["\"%char; "x"%char; hex_digit (n / 16); hex_digit (n mod 16)]
       end.

Definition Quote (other : text -> text) (s : string) : text :=
  if forallb (fun c => Admin.byte_z c <? 128) (T s) then Admin.quote :: concat (map escape (T s)) ++ [Admin.quote] else other (T s).

(** The header of a request, empty when it is not set. *)
Definition if_match_header (other : text -> text) (m : string) : text := if decide (m = "") then [] else Quote other m.

Lemma digit_plain c : is_digit c = true -> escape c = [c] /\ Admin.byte_z c < 128 /\ c <> Admin.quote /\ is_space c = false.
Proof. destruct c as [[] [] [] [] [] [] [] []]; vm_compute; try discriminate; intros _; repeat split; done. Qed.

Lemma Quote_digits other s : Forall (fun c => is_digit c = true) (T s) -> Quote other s = Admin.quote :: T s ++ [Admin.quote].
Proof.
  intros H. unfold Quote.
  assert (forallb (fun c => Admin.byte_z c <? 128) (T s) = true /\ concat (map escape (T s)) = T s) as [-> ->]; [|done].
  induction H as [|c l Hc _ [IH1 IH2]]; [done|]. destruct (digit_plain c Hc) as (He & Hb & _). cbn [forallb map concat]. rewrite IH1, IH2, He.
  split; [|done]. by apply Z.ltb_lt in Hb as ->.
Qed.

Lemma trim_quotes_digits s : s <> [] -> Forall (fun c => is_digit c = true) s -> Admin.trim_quotes (Admin.quote :: s ++ [Admin.quote]) = s ++ [Admin.quote].
Proof.
  intros Hne H. cbn [Admin.trim_quotes]. rewrite decide_True by done. destruct H as [|c l Hc _]; [done|]. cbn [app Admin.trim_quotes].
  destruct (digit_plain c Hc) as (_ & _ & Hq & _). by rewrite decide_False.
Qed.

(** A version comes through the header as the number it was. *)
Lemma version_header other v : 0 <= v < 2 ^ 63 -> Admin.IfMatchInt (if_match_header other (to_string (Itoa v))) = inr (Some v).
Proof.
  intros Hv. assert (Hd : Forall (fun c => is_digit c = true) (Itoa v)) by (apply Forall_forall; intros c; apply Itoa_digits; lia).
  assert (Hne : Itoa v <> []) by (apply Itoa_nonempty; lia). unfold if_match_header.
  rewrite decide_False by (intros E; apply Hne; rewrite <- (T_to_string (Itoa v)), E; done).
  rewrite Quote_digits by (by rewrite T_to_string). rewrite T_to_string. unfold Admin.IfMatchInt, Admin.IfMatch.
  set (q := Admin.quote :: Itoa v ++ [Admin.quote]).
  assert (TrimSpace q = q) as ->.
  { apply TrimSpace_fix. split; intros c Hc; [by injection Hc as <-|]. unfold q in Hc. rewrite app_comm_cons, last_snoc in Hc. by injection Hc as <-. }
  rewrite decide_False by (intros [E|E]; discriminate E).
  assert (TrimPrefix q (T "W/") = q) as -> by done. unfold q. rewrite trim_quotes_digits, rev_app_distr by done. cbn [rev app].
  assert (Admin.trim_quotes (Admin.quote :: rev (Itoa v)) = rev (Itoa v)) as ->.
  { cbn [Admin.trim_quotes]. rewrite decide_True by done. destruct (rev (Itoa v)) as [|c l] eqn:E; [done|]. cbn [Admin.trim_quotes].
    rewrite decide_False; [done|]. apply (digit_plain c). apply (proj1 (Forall_forall _ _) Hd). rewrite <- (rev_involutive (Itoa v)), E.
    apply list_elem_of_In, in_rev. rewrite rev_involutive. by left. }
  rewrite rev_involutive, Atoi_Itoa by done. by rewrite (proj2 (Z.ltb_ge v 0)) by lia.
Qed.

(** ** The server the console relies on *)

(** A part of a path that http.ServeMux leaves as it is: every id is one. *)
Definition clean (part : string) : Prop := part <> "" /\ part <> "." /\ part <> "..".

(** [drawn x s id cs]: what a put of [cs] draws; [body x cs]: what reading it gives,
    [carried] being what JSON makes of a contact. *)
Class BookServer {S W : Type} (serve : CallServer S W) := {
  books : S -> Store;
  local_domain : string;
  token : text;
  authz : text;
  known : S -> string -> bool;
  quote_other : text -> text;
  carried : Contact -> Contact;
  body : W -> list Contact -> Admin.answer + option (list Contact);
  drawn : W -> S -> string -> list Contact -> DirApi.draws;
  body_read : forall x cs, body x cs = inr (Some (map carried cs)) \/ exists a, body x cs = inl a /\ 300 <= Admin.a_status a;
  drawn_ok : forall x s id cs,
    draws_ok (DirApi.drawing (drawn x s id cs) cs) (DirApi.at_ (drawn x s id cs)) (st_Version (stateLocked (books s) id) + 1) (stateLocked (books s) id);
  reads_keep : forall c x s, is_write c = false -> books (fst (serve c x s)) = books s;
  gets_keep : forall l c x s, books (fst (fst (elsewhere serve "GET" l c x s))) = books s;
  clean_stays : forall c x s, Forall clean (method_path c).1.2 -> location serve c x s = None;
  redirects_to_a_get : forall c x s l, location serve c x s = Some l -> Admin.a_status (fst (snd (serve c x s))) = 301;
  server_domain : forall x s d, snd (snd (serve GetServer x s)) = VServer d -> d = local_domain;
  directory_got : forall x s id v cs, clean id -> snd (snd (serve (GetDirectory id) x s)) = VDirectory v cs -> (cs, v) = Contacts (books s) id;
  directory_put : forall x s id cs m (dry : bool), clean id ->
    let '(b, (a, o)) := DirApi.put_directory token (known s) (drawn x s id (map carried cs)) authz id (if dry : bool then "1" else "")
                          (if_match_header quote_other (if dry : bool then "" else m)) (body x cs) (books s) in
    (dry = false -> books (fst (serve (PutDirectory id cs m dry) x s)) = b)
    /\ fst (snd (serve (PutDirectory id cs m dry) x s)) = a
    /\ forall r, snd (snd (serve (PutDirectory id cs m dry) x s)) = VReplace r <-> o = DirApi.OResult r;
}.

(** ** What requests do to the books *)

Section books.
Context {S W : Type} (serve : CallServer S W) {B : BookServer serve}.
Abbreviation M := (@M S W).

(** A program that leaves every directory as it was. *)
Definition keeps {A} (m : M A) : Prop := forall w, books (srv (fst (m w))) = books (srv w).

Lemma keeps_ret {A} (a : A) : keeps (ret a).
Proof. done. Qed.

Lemma keeps_bind {A C} (m : M A) (k : A -> M C) : keeps m -> (forall a, keeps (k a)) -> keeps (bind m k).
Proof. intros Hm Hk w. unfold bind. specialize (Hm w). destruct (m w) as [w1 a]. by rewrite (Hk a w1). Qed.

Lemma follow_keeps n c : forall l f s, books (fst (follow serve n "GET" l c f s)) = books s.
Proof.
  induction n as [|n IH]; intros l f s; [done|]. cbn [follow]. destruct f as [|x|x next]; [done|by apply gets_keep|].
  pose proof (gets_keep l c x s) as H. destruct (elsewhere serve "GET" l c x s) as [[s' [a v]] loc]. cbn [fst] in H.
  destruct (redirectBehavior "GET" a loc) as [[m l']|] eqn:E; [|done]. assert (m = "GET") as ->; [|by rewrite IH].
  unfold redirectBehavior in E. destruct loc as [l0|]; [|done]. simpl in E. by repeat destruct (bool_decide _) in E; simplify_eq.
Qed.

Lemma do_keeps c f s : is_write c = false -> books (fst (do serve c f s)) = books s.
Proof.
  intros Hc. unfold do, exchange. destruct f as [|x|x next]; [done|by apply reads_keep|]. pose proof (reads_keep c x s Hc) as H.
  pose proof (redirects_to_a_get c x s) as Hg. destruct (serve c x s) as [s' [a v]]. cbn [fst snd] in *.
  destruct (location serve c x s) as [l|]; [|done]. specialize (Hg l eq_refl). unfold redirectBehavior. cbn [mbind option_bind]. rewrite Hg, bool_decide_eq_true_2 by (by left).
  assert ((if bool_decide ((method_path c).1.1 ∈ ["GET"; "HEAD"]) then (method_path c).1.1 else "GET") = "GET") as ->.
  { destruct c; first [discriminate Hc | vm_compute; reflexivity | by destruct dry_run]. }
  pose proof (follow_keeps 9 c l next s') as Hf. destruct (follow _ _ _ _ _ _ _) as [s'' [[b v']|]]; cbn [fst] in *; by rewrite Hf.
Qed.

(** A request whose path is clean is answered where it was asked. *)
Lemma do_clean c x next s : Forall clean (method_path c).1.2 ->
  do serve c (Delivered x next) s = let '(s', (a, v)) := serve c x s in
    (s', if Admin.a_status a =? 401 then inl Unauthorized else if 300 <=? Admin.a_status a then inl (APIError a) else if decodes c v then inr v else inl Undecodable).
Proof. intros Hc. unfold do, exchange. destruct (serve c x s) as [s' [a v]]. by rewrite (clean_stays c x s Hc). Qed.

Lemma clean_server : Forall clean ["server"].
Proof. by repeat constructor. Qed.

Lemma clean_directory id : clean id -> Forall clean ["devices"; id; "directory"].
Proof. intros H. by repeat constructor; try apply H. Qed.

Lemma keeps_ask c : is_write c = false -> keeps (ask serve c).
Proof. intros Hc w. unfold ask. pose proof (do_keeps c (default NeverArrived (head (fates w))) (srv w) Hc) as H. by destruct (do _ _ _ _) as [s r]. Qed.

Lemma keeps_expect {A} (f : value -> option A) c : is_write c = false -> keeps (expect serve f c).
Proof. intros Hc. apply keeps_bind; [by apply keeps_ask|]. intros r. apply keeps_ret. Qed.

Lemma keeps_andthen {A C} (m : M (error + A)) (k : A -> M (error + C)) : keeps m -> (forall a, keeps (k a)) -> keeps (andthen m k).
Proof. intros Hm Hk. apply keeps_bind; [done|]. intros [e|a]; [apply keeps_ret | apply Hk]. Qed.

Lemma keeps_page_of key told r : keeps (page_of key told r).
Proof. apply keeps_bind; [by intros w; destruct r as [[]|] | intros; apply keeps_ret]. Qed.
End books.

Create HintDb keeping.
#[export] Hint Resolve keeps_ret keeps_page_of : keeping.
#[export] Hint Extern 1 (keeps _ (bind _ _)) => apply keeps_bind; intros : keeping.
#[export] Hint Extern 1 (keeps _ (andthen _ _)) => apply keeps_andthen; intros : keeping.
#[export] Hint Extern 1 (keeps _ (expect _ _ _)) => apply keeps_expect; reflexivity : keeping.
#[export] Hint Extern 2 (keeps _ (match ?x with _ => _ end)) => destruct x : keeping.

(** A program of requests that change nothing. *)
Ltac keeping := eauto 30 with keeping.

Section console_books.
Context {S W : Type} (serve : CallServer S W) {B : BookServer serve}.
Abbreviation M := (@M S W).

Lemma keeps_renderClient id told : keeps serve (renderClient serve id told).
Proof. unfold renderClient, loadClient, Device, Status_, Directory, Diag, Devices_, Server. keeping. Qed.

Lemma keeps_Server : keeps serve (Server serve).
Proof. unfold Server. keeping. Qed.

(** The client's page as it is shown after a form that was not applied. *)
Lemma renderClient_page id told w : let '(w', p) := renderClient serve id told w in
  books (srv w') = books (srv w) /\ (p = NotFoundPage \/ exists v, p = Shows v).
Proof.
  pose proof (keeps_renderClient id told w) as Hk. destruct (renderClient serve id told w) as [w' p] eqn:E. split; [exact Hk|].
  unfold renderClient, bind, ret in E. destruct (loadClient serve id w) as [w1 r]. destruct (page_of _ _ r w1) as [w2 v]. injection E as _ <-.
  destruct r as [e|]; [destruct (isNotFound e)|]; eauto.
Qed.

Lemma Server_domain w d : snd (Server serve w) = inr d -> d = local_domain.
Proof.
  unfold Server, expect, bind, ret, ask. destruct (default NeverArrived (head (fates w))) as [|x|x next]; [done| |].
  { unfold do. simpl. by destruct (serve GetServer x (srv w)). }
  rewrite (do_clean serve) by apply clean_server.
  pose proof (server_domain x (srv w)) as H. destruct (serve GetServer x (srv w)) as [s' [a v]]. cbn [fst snd] in *.
  destruct (Admin.a_status a =? 401); [done|]. destruct (300 <=? Admin.a_status a); [done|]. destruct v; try done. intros [= <-]. by apply H.
Qed.

Lemma Server_delivered w x next fs s' : fates w = Delivered x next :: fs -> serve GetServer x (srv w) = (s', (Admin.done_with 200, VServer local_domain)) ->
  let '(w1, r) := Server serve w in r = inr local_domain /\ srv w1 = s' /\ fates w1 = fs.
Proof.
  intros Hf Hs. unfold Server, expect, bind, ret, ask. rewrite Hf. change (default NeverArrived (head (Delivered x next :: fs))) with (Delivered x next). rewrite (do_clean serve) by apply clean_server. by rewrite Hs.
Qed.

Lemma Directory_read id w n cs : clean id -> snd (Directory serve id w) = inr (n, cs) -> (cs, n) = Contacts (books (srv w)) id.
Proof.
  intros Hid. unfold Directory, expect, bind, ret, ask. destruct (default NeverArrived (head (fates w))) as [|x|x next]; [done| |].
  { unfold do. simpl. by destruct (serve (GetDirectory id) x (srv w)). }
  rewrite (do_clean serve) by (by apply clean_directory). pose proof (fun v cs => directory_got x (srv w) id v cs Hid) as H. destruct (serve _ x (srv w)) as [s' [a v]]. cbn [fst snd] in *.
  destruct (Admin.a_status a =? 401); [done|]. destruct (300 <=? Admin.a_status a); [done|]. destruct v; try done. intros [= <- <-]. by apply H.
Qed.

(** *** A put of a directory *)

Definition book_of (s : S) (id : string) : gmap string Contact := Contacts_ (stateLocked (books s) id).

(** The directory of [id] is [cs], and the others are as they were. *)
Definition made (id : string) (cs : list Contact) (s s' : S) : Prop :=
  DirApi.lists cs (book_of s' id) /\ forall d, d <> id -> stateLocked (books s') d = stateLocked (books s) d.

(** What the API does with the list of a request that is not a dry run. *)
Definition put (x : W) (s : S) (id m : string) (cs : list Contact) : Store * DirApi.reply :=
  DirApi.put_directory token (known s) (drawn x s id (map carried cs)) authz id "" (if_match_header quote_other m) (body x cs) (books s).

Lemma put_answer x next s id m cs : clean id -> let '(b, (a, o)) := put x s id m cs in
  let '(s', r) := do serve (PutDirectory id cs m false) (Delivered x next) s in
  books s' = b /\ do serve (PutDirectory id cs m false) (AnswerLost x) s = (s', inl Unreachable)
  /\ (300 <= Admin.a_status a -> exists e, r = inl e) /\ (forall res, r = inr (VReplace res) <-> a = Admin.done_with 200 /\ o = DirApi.OResult res).
Proof.
  intros Hid. pose proof (directory_put x s id cs m false Hid) as H. cbn iota in H. unfold put. destruct (DirApi.put_directory _ _ _ _ _ _ _ _ _) as [b [a o]] eqn:E.
  rewrite (do_clean serve) by (by apply clean_directory). unfold do, exchange. destruct (serve _ x s) as [s' [a' v]]. cbn [fst snd] in *. destruct H as (Hb & -> & Hv). split; [by apply Hb|]. split; [done|]. split.
  - intros Ha. destruct (Admin.a_status a =? 401); [eauto|]. rewrite (proj2 (Z.leb_le _ _) Ha). eauto.
  - intros res. specialize (Hv res). split.
    + destruct (Admin.a_status a =? 401); [done|]. destruct (300 <=? Admin.a_status a); [done|]. intros [= ->]. pose proof (proj1 Hv eq_refl) as ->.
      split; [|done]. eapply DirApi.put_result_ok. by rewrite E.
    + intros [-> Ho]. by apply Hv in Ho as ->.
Qed.

(** A put makes the directory or changes nothing, and only one that made it comes back
    as done. *)
Lemma put_made x s id m cs : store_ok (books s) ->
  let '(b, r) := put x s id m cs in store_ok b /\
  ((exists res, r = DirApi.ok (DirApi.OResult res) /\ DirApi.lists (map carried cs) (Contacts_ (stateLocked b id))
      /\ forall d, d <> id -> stateLocked b d = stateLocked (books s) d)
   \/ (300 <= Admin.a_status (fst r) /\ same_content (books s) b)).
Proof.
  intros Hs. unfold put. destruct (body_read x cs) as [Hb|(a & Hb & Ha)]; rewrite Hb.
  - pose proof (DirApi.put_outcome token (known s) (drawn x s id (map carried cs)) authz id (if_match_header quote_other m) (map carried cs) (books s) Hs
      (drawn_ok x s id (map carried cs))) as H.
    destruct (DirApi.put_directory _ _ _ _ _ _ _ _ _) as [b r]. destruct H as [(res & -> & Hl & Ho & Hok)|[Ha Hsame]].
    + split; [done|]. left. by exists res.
    + split; [by apply Hsame|]. by right.
  - unfold DirApi.put_directory. destruct (DirApi.guarded _ _ _ _) as [g|] eqn:Hg; (split; [done|]); right; (split; [|apply same_content_refl]); [|done].
    by eapply DirApi.guarded_refuses.
Qed.

Lemma made_or_same f s id m cs : clean id -> store_ok (books s) ->
  let '(s', r) := do serve (PutDirectory id cs m false) f s in store_ok (books s') /\
  ((made id (map carried cs) s s' /\ ((exists res, r = inr (VReplace res)) \/ r = inl Unreachable))
   \/ (same_content (books s) (books s') /\ exists e, r = inl e)).
Proof.
  intros Hid Hs. destruct f as [|x|x next].
  - split; [done|]. right. split; [apply same_content_refl | eauto].
  - pose proof (put_answer x NeverArrived s id m cs Hid) as Ha. pose proof (put_made x s id m cs Hs) as Hm. destruct (put x s id m cs) as [b [a o]].
    destruct (do serve _ (Delivered x _) s) as [s' r]. destruct Ha as (<- & -> & _). destruct Hm as [Hok [(res & _ & Hl & Ho)|[_ Hsame]]]; (split; [done|]).
    + left. split; [by split | by right].
    + right. eauto.
  - pose proof (put_answer x next s id m cs Hid) as Ha. pose proof (put_made x s id m cs Hs) as Hm. destruct (put x s id m cs) as [b [a o]].
    destruct (do serve _ (Delivered x _) s) as [s' r]. destruct Ha as (<- & _ & Hr & Hv). destruct Hm as [Hok [(res & [= -> ->] & Hl & Ho)|[Ha Hsame]]]; (split; [done|]).
    + left. split; [by split|]. left. exists res. by apply Hv.
    + right. auto.
Qed.

Lemma Replace_made id cs m w : clean id -> store_ok (books (srv w)) ->
  let '(w1, r) := ReplaceDirectory serve id cs m false w in store_ok (books (srv w1)) /\
  (made id (map carried cs) (srv w) (srv w1) \/ (same_content (books (srv w)) (books (srv w1)) /\ exists e, r = inl e)).
Proof.
  intros Hid Hs. unfold ReplaceDirectory, expect, bind, ret, ask.
  pose proof (made_or_same (default NeverArrived (head (fates w))) (srv w) id m cs Hid Hs) as H.
  destruct (do serve _ _ _) as [s' r]. cbn [srv fst]. destruct H as [Hok [[Hm _]|[Hsame [e ->]]]]; (split; [done|]); [by left | eauto].
Qed.

(** *** A copy *)

Lemma copy_to_made cs targets : Forall clean targets -> forall w, store_ok (books (srv w)) ->
  let '(w', rs) := copy_to serve cs targets w in
  store_ok (books (srv w'))
  /\ (forall d, stateLocked (books (srv w')) d = stateLocked (books (srv w)) d \/ (d ∈ targets /\ DirApi.lists (map carried cs) (book_of (srv w') d)))
  /\ (forall t r, (t, inr r) ∈ rs -> DirApi.lists (map carried cs) (book_of (srv w') t)).
Proof.
  induction 1 as [|t targets Hid _ IH]; intros w Hs.
  { cbn [copy_to]. unfold ret. split; [done|]. split; [by left|]. intros t r H. by apply elem_of_nil in H. }
  cbn [copy_to]. unfold bind. pose proof (Replace_made t cs "" w Hid Hs) as H. destruct (ReplaceDirectory serve t cs "" false w) as [w1 r] eqn:Er.
  destruct H as [Hs1 H1]. specialize (IH w1 Hs1). destruct (copy_to serve cs targets w1) as [w' rs]. cbn [ret]. destruct IH as (Hs' & Hd & Hrs).
  assert (Ht : (exists e, r = inl e) \/ DirApi.lists (map carried cs) (book_of (srv w') t)).
  { destruct H1 as [[Hl _]|[_ He]]; [right | by left]. destruct (Hd t) as [E|[_ ?]]; [|done]. unfold book_of. by rewrite E. }
  split; [done|]. split.
  - intros d. destruct (Hd d) as [E|[Hin Hl]]; [|right; split; [by right | done]].
    destruct H1 as [[Hl Ho]|[[Hc _] _]]; [|left; by rewrite E, Hc]. destruct (decide (d = t)) as [->|Hne]; [|left; by rewrite E, Ho].
    right. split; [by left|]. unfold book_of. by rewrite E.
  - intros t' r' [E|Hin]%elem_of_cons; [|by eapply Hrs]. injection E as -> <-. by destruct Ht as [[e He]|Ht].
Qed.

(** A copy shown as done is one: after a directory is copied to the clients chosen,
    whichever requests or answers were lost, every client shown as done lists what the
    source did, one contact each; any other chosen client lists that too, its answer
    having been lost, or is as it was; and no client that was not chosen has changed.
    A page that is not of results has changed nothing.  No client has the id empty,
    "." or "..", which a path does not keep. *)
Theorem a_copy_shown_as_done_is_one id q (w : @world S W) : clean id -> Forall clean (form_values (Form q) "targets") -> store_ok (books (srv w)) ->
  let cs := map carried (map copied (fst (Contacts (books (srv w)) id))) in
  let '(w', p) := h_copyDirectory serve id q w in
  (forall rs t r, p = Copied rs -> (t, inr r) ∈ rs -> DirApi.lists cs (book_of (srv w') t))
  /\ (forall d, stateLocked (books (srv w')) d = stateLocked (books (srv w)) d
       \/ d ∈ form_values (Form q) "targets" /\ DirApi.lists cs (book_of (srv w') d))
  /\ ((forall rs, p <> Copied rs) -> books (srv w') = books (srv w)).
Proof.
  intros Hid Hts Hs cs. unfold h_copyDirectory.
  set (Q := fun (w0 : @world S W) (r : @world S W * page) => books (srv (fst r)) = books (srv w0) /\ forall rs, snd r <> Copied rs).
  assert (Hfail : forall w0 x, Q w0 (renderClient serve id x w0)).
  { intros w0 x. pose proof (renderClient_page id x w0) as H. unfold Q. destruct (renderClient serve id x w0) as [w' p].
    destruct H as [E [->|[v ->]]]; split; done. }
  assert (Hdone : forall w0 r, Q w0 r -> books (srv w0) = books (srv w) -> let '(w', p) := r in
    (forall rs t r, p = Copied rs -> (t, inr r) ∈ rs -> DirApi.lists cs (book_of (srv w') t))
    /\ (forall d, stateLocked (books (srv w')) d = stateLocked (books (srv w)) d
         \/ d ∈ form_values (Form q) "targets" /\ DirApi.lists cs (book_of (srv w') d))
    /\ ((forall rs, p <> Copied rs) -> books (srv w') = books (srv w))).
  { intros w0 [w' p] [E Hp] E0. cbn [fst snd] in *. rewrite E, E0. split; [intros rs t r Hc; by destruct (Hp rs)|]. split; [by left | done]. }
  destruct (form_values (Form q) "targets") as [|t0 ts]; [by apply (Hdone w); [apply Hfail|]|].
  unfold bind. pose proof (keeps_expect serve (fun v => match v with VDirectory n cs => Some (n, cs) | _ => None end) (GetDirectory id) eq_refl w) as Hk.
  pose proof (Directory_read id w) as Hr. unfold Directory in *. destruct (expect serve _ (GetDirectory id) w) as [w1 [e|[n cs0]]]; cbn [fst snd] in *; [by apply (Hdone w1)|].
  specialize (Hr n cs0 Hid eq_refl). assert (cs = map carried (map copied cs0)) as Hcs by (unfold cs; by rewrite <- Hr).
  pose proof (keeps_expect serve (fun v => match v with VDevices l => Some l | _ => None end) GetDevices eq_refl w1) as Hk2.
  unfold Devices_. destruct (expect serve _ GetDevices w1) as [w2 all]. cbn [fst] in Hk2.
  assert (books (srv w2) = books (srv w)) as E2 by congruence.
  pose proof (copy_to_made (map copied cs0) (t0 :: ts) Hts w2) as Hc. rewrite E2 in Hc. specialize (Hc Hs).
  destruct (copy_to serve _ _ w2) as [w3 rs]. cbn [ret]. rewrite <- Hcs in Hc. destruct Hc as (_ & Hd & Ht). split; [|split].
  - intros rs' t r [= <-] Hin. by eapply Ht.
  - exact Hd.
  - intros H. by destruct (H rs).
Qed.

(** *** An upload *)

(** The contacts of a file as they are sent. *)
Definition sent (cs : list Contact) : list Contact := map (fun c => with_uri (normaliseURI (URI c) local_domain) c) cs.

Definition dry (x : W) (s : S) (id : string) (cs : list Contact) : DirApi.reply :=
  snd (DirApi.put_directory token (known s) (drawn x s id (map carried cs)) authz id "1" [] (body x cs) (books s)).

Lemma dry_answer f s id cs r : clean id -> snd (do serve (PutDirectory id cs "" true) f s) = inr (VReplace r) ->
  exists x, dry x s id cs = DirApi.ok (DirApi.OResult r).
Proof.
  intros Hid. destruct f as [|x|x next]; [done| |].
  { unfold do, exchange. by destruct (serve _ x s). }
  rewrite (do_clean serve) by (by apply clean_directory). pose proof (directory_put x s id cs "" true Hid) as H. cbn iota in H. unfold dry.
  destruct (DirApi.put_directory _ _ _ _ _ _ _ _ _) as [b [a o]] eqn:E. destruct (serve _ x s) as [s' [a' v]]. cbn [fst snd] in *.
  destruct H as (_ & -> & Hv). cbn [snd]. destruct (Admin.a_status a =? 401); [done|]. destruct (300 <=? Admin.a_status a); [done|]. intros [= ->]. exists x.
  change (if_match_header quote_other "") with (@nil Ascii.ascii) in E. pose proof (proj1 (Hv r) eq_refl) as ->. rewrite E. cbn [snd]. unfold DirApi.ok. f_equal. apply (f_equal snd) in E. by eapply DirApi.put_result_ok.
Qed.

(** What the operator is shown was answered by a dry run on the books there were. *)
Lemma preview_read id q w r csv n : clean id -> FormValue q "stage" <> "confirm" -> snd (h_uploadCSV serve id q w) = UploadPreview id r csv n ->
  exists cs x s0, Csv.ReadCSV (T csv) = inr cs /\ n = zlen cs /\ books s0 = books (srv w) /\ dry x s0 id (sent cs) = DirApi.ok (DirApi.OResult r).
Proof.
  intros Hid Hst. unfold h_uploadCSV. assert (Hno : forall x w0, snd (renderClient serve id x w0) <> UploadPreview id r csv n).
  { intros x w0. pose proof (renderClient_page id x w0) as H. destruct (renderClient serve id x w0) as [w' p]. by destruct H as [_ [->|[v ->]]]. }
  destruct (upload_text q) as [x|csv0]; [intros H; by apply Hno in H|]. unfold bind at 1.
  pose proof (keeps_Server w) as Hk. pose proof (Server_domain w) as Hd. destruct (Server serve w) as [w1 [e|d]]; cbn [fst snd] in *; [intros H; by apply Hno in H|].
  rewrite (Hd d eq_refl). destruct (Csv.ReadCSV (T csv0)) as [e|cs] eqn:Er; [intros H; by apply Hno in H|].
  rewrite bool_decide_eq_false_2 by done. fold (sent cs). unfold ReplaceDirectory, expect, bind, ret, ask.
  pose proof (dry_answer (default NeverArrived (head (fates w1))) (srv w1) id (sent cs) r Hid) as Hdry. destruct (do serve _ _ (srv w1)) as [s' res]. cbn [snd] in Hdry.
  destruct res as [e|v]; [intros H; by apply Hno in H|]. destruct v; try (intros H; by apply Hno in H).
  destruct (Device serve id _) as [w2 dev]. cbn [snd]. intros [= -> <- <-]. destruct (Hdry eq_refl) as [x Hx].
  exists cs, x, (srv w1). split; [done|]. split; [|done]. unfold zlen, sent. by rewrite length_map.
Qed.

(** What the API does with a list shown before, sent with the version shown. *)
Lemma put_shown x x0 ops s0 s id cs v a ch rm : store_ok (books s0) -> Directory.runs_draws ops (books s0) -> books s = Directory.runs ops (books s0) -> 0 <= v < 2 ^ 63 ->
  dry x0 s0 id cs = DirApi.ok (DirApi.OResult (mkResult v a ch rm)) ->
  let '(b, r) := put x s id (to_string (Itoa v)) cs in
  (r = DirApi.ok (DirApi.OResult (mkResult (VersionOf b id) a ch rm)) /\ VersionOf (books s) id = v
     /\ DirApi.lists (map carried cs) (Contacts_ (stateLocked b id)) /\ forall d, d <> id -> stateLocked b d = stateLocked (books s) d)
  \/ (300 <= Admin.a_status (fst r) /\ same_content (books s) b
     /\ ~ (body x cs = inr (Some (map carried cs)) /\ known s id = true /\ DirApi.saved (drawn x s id (map carried cs)) = true /\ VersionOf (books s) id = v)).
Proof.
  intros Hs Hops Eb Hv Hdry. unfold put, dry in *.
  destruct (body_read x0 cs) as [Hb0|(e & Hb0 & _)]; rewrite Hb0 in Hdry.
  2: { unfold DirApi.put_directory in Hdry. by destruct (DirApi.guarded _ _ _ _). }
  destruct (body_read x cs) as [Hb|(e & Hb & He)]; rewrite Hb.
  2: { unfold DirApi.put_directory. destruct (DirApi.guarded _ _ _ _) as [g|] eqn:Hg; right; (split; [|split; [apply same_content_refl | by intros [? _]]]);
       [by eapply DirApi.guarded_refuses | done]. }
  pose proof (DirApi.the_preview_is_what_happens token (known s0) (known s) (drawn x0 s0 id (map carried cs)) (drawn x s id (map carried cs)) authz id []
    (if_match_header quote_other (to_string (Itoa v))) (map carried cs) ops (books s0) v a ch rm Hs Hops (drawn_ok x0 s0 id _)) as H.
  cbv zeta in H. rewrite <- Eb in H. specialize (H (drawn_ok x s id _) Hdry (version_header quote_other v Hv)).
  clear Hdry. destruct (DirApi.put_directory _ _ _ _ _ _ _ _ _) as [b r]. destruct H as [(-> & HV & Hl & Ho)|[(-> & HV & Hc)|[(-> & Hsv & Hc)|(-> & Hk & ->)]]].
  - by left.
  - right. split; [done|]. split; [done|]. by intros (_ & _ & _ & ?).
  - right. split; [done|]. split; [done|]. intros (_ & _ & Hsv' & _). congruence.
  - right. split; [done|]. split; [apply same_content_refl|]. intros (_ & Hk' & _). congruence.
Qed.

Definition applied (id : string) (v : Z) (cs : list Contact) (s s' : S) : Prop := VersionOf (books s) id = v /\ made id cs s s'.

Lemma confirm_put f x0 ops s0 s id cs v a ch rm : clean id -> store_ok (books s0) -> Directory.runs_draws ops (books s0) -> books s = Directory.runs ops (books s0) -> 0 <= v < 2 ^ 63 ->
  dry x0 s0 id cs = DirApi.ok (DirApi.OResult (mkResult v a ch rm)) ->
  let '(s', r) := do serve (PutDirectory id cs (to_string (Itoa v)) false) f s in
  (r = inr (VReplace (mkResult (VersionOf (books s') id) a ch rm)) /\ applied id v (map carried cs) s s')
  \/ ((exists e, r = inl e) /\ (same_content (books s) (books s') \/ applied id v (map carried cs) s s')
     /\ forall x, ~ ((exists next, f = Delivered x next) /\ body x cs = inr (Some (map carried cs)) /\ known s id = true
          /\ DirApi.saved (drawn x s id (map carried cs)) = true /\ VersionOf (books s) id = v)).
Proof.
  intros Hid Hs Hops Eb Hv Hdry. destruct f as [|x|x next].
  - right. split; [by eexists|]. split; [left; apply same_content_refl|]. by intros x [[? ?] _].
  - pose proof (put_answer x NeverArrived s id (to_string (Itoa v)) cs Hid) as Ha. pose proof (put_shown x x0 ops s0 s id cs v a ch rm Hs Hops Eb Hv Hdry) as Hp.
    destruct (put _ _ _ _ _) as [b [an o]]. destruct (do serve _ (Delivered x _) s) as [s' r]. destruct Ha as (<- & -> & _).
    right. split; [by eexists|]. split; [|by intros y [[? ?] _]]. destruct Hp as [(_ & HV & Hl & Ho)|(_ & Hc & _)]; [right | by left]. split; [done | by split].
  - pose proof (put_answer x next s id (to_string (Itoa v)) cs Hid) as Ha. pose proof (put_shown x x0 ops s0 s id cs v a ch rm Hs Hops Eb Hv Hdry) as Hp.
    destruct (put _ _ _ _ _) as [b [an o]]. destruct (do serve _ (Delivered x _) s) as [s' r]. destruct Ha as (<- & _ & Hr & Hres).
    destruct Hp as [([= -> ->] & HV & Hl & Ho)|(Hst & Hc & Hn)].
    + left. split; [by apply Hres|]. split; [done | by split].
    + right. split; [by apply Hr|]. split; [by left|]. intros y [[? [= <- _]] Hy]. by apply Hn.
Qed.

(** C38: What the operator confirmed is what was shown, or nothing.  After the preview of
    a file, and any upserts, deletes and replaces by anyone on any directories (no
    directory being purged in between), submitting the preview's form either ends on
    the page that says so, with exactly the counts shown, the client then listing the
    contacts of the file, one each, and no other client changed; or it is not told as
    done, and nothing was changed, or all of that was and the answer was lost.  It is
    done if both requests get through, the client is there still at the version shown,
    and the file can be written.  This is for an id a client can have, not empty, "."
    or "..", a version below 2^63, and with the letters of addresses folded as ASCII. *)
Theorem the_confirmed_upload_is_what_was_shown id q0 q1 (w0 w1 : @world S W) ops v a ch rm csv n :
  clean id -> store_ok (books (srv w0)) -> Directory.runs_draws ops (books (srv w0)) -> books (srv w1) = Directory.runs ops (books (srv w0)) -> 0 <= v < 2 ^ 63 ->
  FormValue q0 "stage" <> "confirm" -> snd (h_uploadCSV serve id q0 w0) = UploadPreview id (mkResult v a ch rm) csv n ->
  FormValue q1 "stage" = "confirm" -> FormValue q1 "csv" = csv -> FormValue q1 "directory_version" = to_string (Itoa v) ->
  exists cs, Csv.ReadCSV (T csv) = inr cs /\ n = zlen cs /\
  let bs := map carried (sent cs) in
  let '(w2, p) := h_uploadCSV serve id q1 w1 in
  ((p = Back ["clients"; id] (Replaced (mkResult (VersionOf (books (srv w2)) id) a ch rm)) /\ applied id v bs (srv w1) (srv w2))
   \/ (said_done p = false /\ (same_content (books (srv w1)) (books (srv w2)) \/ applied id v bs (srv w1) (srv w2))))
  /\ forall x0 x1 n0 n1 fs, fates w1 = Delivered x0 n0 :: Delivered x1 n1 :: fs ->
       let '(s', r) := serve GetServer x0 (srv w1) in r = (Admin.done_with 200, VServer local_domain) ->
       body x1 (sent cs) = inr (Some bs) -> known s' id = true ->
       DirApi.saved (drawn x1 s' id bs) = true -> VersionOf (books (srv w1)) id = v -> said_done p = true.
Proof.
  intros Hid Hs Hops Eb Hv Hst0 Hprev Hst1 Hcsv Hver.
  destruct (preview_read id q0 w0 _ _ _ Hid Hst0 Hprev) as (cs & x & s0 & Hread & Hn & E0 & Hdry). exists cs. split; [done|]. split; [done|]. cbn zeta.
  unfold h_uploadCSV, upload_text. rewrite bool_decide_eq_true_2, Hcsv by done. rewrite Hread.
  unfold bind at 1. pose proof (keeps_Server w1) as Hk. pose proof (Server_domain w1) as Hd.
  assert (Hnot : forall c w, books (srv w) = books (srv w1) -> let '(w2, p) := renderClient serve id c w in said_done p = false /\ books (srv w2) = books (srv w1)).
  { intros c w E. pose proof (renderClient_page id c w) as H. destruct (renderClient serve id c w) as [w2 p]. by destruct H as [-> [->|[y ->]]]. }
  assert (Hlive := Server_delivered w1). destruct (Server serve w1) as [w1' [e|d]]; cbn [fst snd] in *.
  - specialize (Hnot (Some (Failed (describe e))) w1' Hk). destruct (renderClient _ _ _ w1') as [w2 p]. destruct Hnot as [Hp E]. split.
    + right. split; [done|]. left. rewrite E. apply same_content_refl.
    + intros x0 x1 n0 n1 fs Hf. destruct (serve GetServer x0 (srv w1)) as [s' r] eqn:Es. intros -> . by destruct (Hlive x0 n0 _ s' Hf Es) as [? _].
  - rewrite (Hd d eq_refl). rewrite Hver. fold (sent cs). unfold ReplaceDirectory, expect, bind, ret, ask.
    assert (Eb' : books (srv w1') = Directory.runs ops (books s0)) by (by rewrite Hk, Eb, E0).
    rewrite <- E0 in Hs, Hops. pose proof (confirm_put (default NeverArrived (head (fates w1'))) x ops s0 (srv w1') id (sent cs) v a ch rm Hid Hs Hops Eb' Hv Hdry) as H.
    unfold applied, made in *. rewrite Hk in H. destruct (do serve _ _ (srv w1')) as [s' res]. destruct H as [[-> Ha]|[[e ->] [Hc Hl]]].
    + cbn [srv]. split; [by left|]. intros x0 x1 n0 n1 fs _. by destruct (serve GetServer x0 (srv w1)).
    + match goal with |- context [renderClient serve id ?c ?w] => pose proof (renderClient_page id c w) as Hp; destruct (renderClient serve id c w) as [w2 p] end.
      cbn [srv] in Hp. destruct Hp as [E Hp]. assert (said_done p = false) as Hnd by (by destruct Hp as [->|[y ->]]). unfold book_of in *. rewrite E. split; [by right|].
      intros x0 x1 n0 n1 fs Hf. destruct (serve GetServer x0 (srv w1)) as [s1 r] eqn:Es. intros -> Hb Hkn Hsv HV.
      destruct (Hlive x0 n0 _ s1 Hf Es) as (_ & E1 & Ef). exfalso. apply (Hl x1). rewrite Ef, E1. by split; [exists n1|].
Qed.
End console_books.

(** ** A server of address books *)

(** An id longer than every other. *)
Definition new_id (m : gmap string Contact) : string := String "c" (foldr String.append "" (map_to_list m).*1).

Lemma append_length a b : (String.length (String.append a b) = String.length a + String.length b)%nat.
Proof. induction a as [|c a IH]; [done|]. simpl. by rewrite IH. Qed.

Lemma new_id_new m : new_id m <> "" /\ m !! new_id m = None.
Proof.
  split; [done|]. apply eq_None_not_Some. intros [c Hc%elem_of_map_to_list%(list_elem_of_fmap_2 fst)]. cbn [fst] in Hc. unfold new_id in Hc.
  assert (forall k ks, k ∈ ks -> (String.length k <= String.length (foldr String.append "" ks))%nat) as H.
  { induction ks as [|j ks IH]; intros Hk; [by apply elem_of_nil in Hk|]. cbn [foldr]. rewrite append_length. apply elem_of_cons in Hk as [->|Hk]; [|specialize (IH Hk)]; lia. }
  apply H in Hc. simpl in Hc. lia.
Qed.

(** The order and the id each contact of a list draws, the contacts before it stored. *)
Fixpoint drawn_along (cs : list Contact) (now v : Z) (st : state) : list (list string * string) :=
  match cs with
  | [] => []
  | c :: cs =>
      let d := ((map_to_list (Contacts_ st)).*1, new_id (Contacts_ st)) in
      d :: drawn_along cs now v (fst (fst (replace_loop [(c, fst d, snd d)] now v st 0 0)))
  end.

Lemma drawn_along_ok cs now v : forall st, draws_ok (imap (fun i c => (c, fst (nth i (drawn_along cs now v st) ([], "")), snd (nth i (drawn_along cs now v st) ([], "")))) cs) now v st.
Proof.
  induction cs as [|c cs IH]; intros st; [done|]. cbn [drawn_along imap draws_ok nth fst snd]. destruct (new_id_new (Contacts_ st)) as [Hne Hno].
  split; [apply Permutation_refl|]. split; [done|]. split; [done|]. apply IH.
Qed.

Definition draw_for (x : Z * bool) (s : Store) (id : string) (cs : list Contact) : DirApi.draws :=
  let st := stateLocked s id in DirApi.mkDraws (fst x) (fun i => nth i (drawn_along cs (fst x) (st_Version st + 1) st) ([], "")) (snd x).

Definition value_of (o : DirApi.shown) : value :=
  match o with DirApi.OResult r => VReplace r | DirApi.OList v cs => VDirectory v cs | _ => VNone end.

Definition the_token : text := T "secret".
Definition the_header : text := T "Bearer secret".

(** [fst x] is the time of the request, [snd x] whether a file can be written then. *)
Definition book_answers (c : call) (x : Z * bool) (s : Store) : Store * (Admin.answer * value) :=
  match c with
  | GetServer => (s, (Admin.done_with 200, VServer "pbx"))
  | GetDirectory id => let '(a, o) := DirApi.get_directory the_token (fun _ => true) the_header id s in (s, (a, value_of o))
  | PutDirectory id cs m dry =>
      let '(b, (a, o)) := DirApi.put_directory the_token (fun _ => true) (draw_for x s id cs) the_header id (if dry then "1" else "")
                            (if_match_header (fun s => s) (if dry then "" else m)) (inr (Some cs)) s in
      (b, (a, value_of o))
  | _ => (s, (Admin.NotFound, VNone))
  end.

Definition book_serve : CallServer Store (Z * bool) :=
  mkCallServer book_answers (fun _ _ _ => None) (fun _ _ _ _ s => (s, (Admin.NotFound, VNone), None)).

#[export] Instance book_server : BookServer book_serve.
Proof.
  refine (Build_BookServer Store (Z * bool) book_serve (fun s => s) "pbx" the_token the_header (fun _ _ => true) (fun s => s) (fun c => c)
            (fun _ cs => inr (Some cs)) draw_for _ _ _ _ _ _ _ _ _).
  - intros x cs. left. by rewrite map_id.
  - intros x s id cs. apply drawn_along_ok.
  - intros c x s Hc. destruct c; try done; cbn [book_serve answers book_answers].
    + by destruct (DirApi.get_directory _ _ _ _ _) as [a o].
    + cbn [is_write] in Hc. destruct dry_run; [|done]. pose proof (DirApi.put_dry_keeps the_token (fun _ => true) (draw_for x s id cs) the_header id (if_match_header (fun s => s) "") (inr (Some cs)) s) as H.
      by destruct (DirApi.put_directory _ _ _ _ _ _ _ _ _) as [b [a o]].
  - done.
  - done.
  - done.
  - intros x s d [= <-]. done.
  - intros x s id v cs _. cbn [book_serve answers book_answers]. unfold DirApi.get_directory. destruct (DirApi.guarded _ _ _ _); [done|]. destruct (Contacts s id) as [cs0 v0]. by intros [= -> ->].
  - intros x s id cs m dry _. cbn [book_serve answers book_answers]. rewrite map_id. destruct (DirApi.put_directory _ _ _ _ _ _ _ _ _) as [b [a o]]. cbn [fst snd].
    split; [done|]. split; [done|]. intros r. destruct o; cbn; split; intros H; try discriminate H; by injection H as ->.
Defined.

(** ** Examples *)

Definition a_file : string := to_string (T "display_name,uri,mode" ++ [Csv.nl] ++ T "Bea,sip:bea@pbx,local" ++ [Csv.nl] ++ T "Ann,200,local" ++ [Csv.nl]).

Definition post_to (f : form) (files : list string) : request := mkRequest "POST" (mkUri ["clients"; "dev"; "directory"; "upload"] []) "" (Multipart f files) true.

Definition chosen_file : request := post_to [] [a_file].
Definition the_confirmation : request := post_to [("stage", "confirm"); ("csv", a_file); ("directory_version", "2")] [].

Definition console_at (t : Z) (s : Store) : @world Store (Z * bool) := mkWorld s (repeat (Delivered (t, true) NeverArrived) 3) [] ∅ t.

Definition console_before := console_at 20 example_store.
Definition console_later := console_at 30 (Directory.runs (firstn 1 example_ops) example_store).

Lemma the_confirmed_upload_is_what_was_shown_witness :
  let '(w, p) := h_uploadCSV book_serve "dev" the_confirmation console_later in
  p = Back ["clients"; "dev"] (Replaced (mkResult 3 2 0 2))
  /\ DirApi.lists [mkContact "" "Bea" "sip:bea@pbx" ModeLocal false 0 0 false; mkContact "" "Ann" "sip:200@pbx" ModeLocal false 0 0 false] (Contacts_ (stateLocked (srv w) "dev")).
Proof.
  assert (snd (h_uploadCSV book_serve "dev" chosen_file console_before) = UploadPreview "dev" (mkResult 2 2 0 2) a_file 2) as Hprev by (vm_compute; reflexivity).
  assert (Directory.runs_draws (firstn 1 example_ops) example_store) as Hops by (split; [apply (proj1 example_runs_draws)|exact I]).
  destruct (the_confirmed_upload_is_what_was_shown book_serve (B := book_server) "dev" chosen_file the_confirmation console_before console_later (firstn 1 example_ops) 2 2 0 2 a_file 2
    ltac:(repeat split; discriminate) example_store_ok Hops eq_refl ltac:(lia) ltac:(vm_compute; discriminate) Hprev ltac:(vm_compute; reflexivity) ltac:(vm_compute; reflexivity) ltac:(vm_compute; reflexivity))
    as (cs & Hr & _ & H).
  assert (cs = [mkContact "" "Bea" "sip:bea@pbx" ModeLocal false 0 0 false; mkContact "" "Ann" "200" ModeLocal false 0 0 false]) as ->.
  { assert (Csv.ReadCSV (T a_file) = inr [mkContact "" "Bea" "sip:bea@pbx" ModeLocal false 0 0 false; mkContact "" "Ann" "200" ModeLocal false 0 0 false]) as E by (vm_compute; reflexivity).
    rewrite E in Hr. by injection Hr as <-. }
  cbv zeta in H. destruct (h_uploadCSV book_serve "dev" the_confirmation console_later) as [w p] eqn:E.
  assert (p = Back ["clients"; "dev"] (Replaced (mkResult 3 2 0 2))) as Hp by (apply (f_equal snd) in E; cbn [snd] in E; rewrite <- E; vm_compute; reflexivity).
  split; [exact Hp|]. destruct H as [[(_ & _ & Hl & _)|[Hn _]] _]; [exact Hl|]. rewrite Hp in Hn. discriminate Hn.
Defined.

(** A copy to two clients, the second of whose answers is lost. *)
Definition the_copy : request := mkRequest "POST" (mkUri ["clients"; "dev"; "directory"; "copy"] []) "" (Plain [("targets", "dev2"); ("targets", "dev3")]) true.
Definition small_book : Store :=
  let st := mkState 1 1 {[ "ct_1" := example_contact "ct_1" "Ann" "sip:ann@pbx" 1 ]} in mkStore true {[ "dev" := st ]} {[ "dev" := st ]} [].

Lemma small_book_ok : store_ok small_book.
Proof.
  intros d st E. unfold small_book in E. cbn [devices] in E. apply lookup_singleton_Some in E as [<- <-].
  split; [done|]. cbn [Contacts_ st_Version]. intros k c [<- <-]%lookup_singleton_Some. done.
Qed.

Definition console_copying : @world Store (Z * bool) :=
  mkWorld small_book (repeat (Delivered (20, true) NeverArrived) 3 ++ [AnswerLost (21, true)]) [] ∅ 20.

Lemma a_copy_shown_as_done_is_one_witness :
  let '(w, p) := h_copyDirectory book_serve "dev" the_copy console_copying in
  p = Copied [("dev2", inr (mkResult 1 1 0 0)); ("dev3", inl Unreachable)]
  /\ DirApi.lists (map copied (fst (Contacts small_book "dev"))) (Contacts_ (stateLocked (srv w) "dev2")).
Proof.
  pose proof (a_copy_shown_as_done_is_one book_serve (B := book_server) "dev" the_copy console_copying ltac:(repeat split; discriminate) ltac:(repeat constructor; discriminate) small_book_ok) as H. cbv zeta in H.
  destruct (h_copyDirectory book_serve "dev" the_copy console_copying) as [w p] eqn:E.
  assert (p = Copied [("dev2", inr (mkResult 1 1 0 0)); ("dev3", inl Unreachable)]) as Hp by (apply (f_equal snd) in E; cbn [snd] in E; rewrite <- E; vm_compute; reflexivity).
  split; [exact Hp|]. destruct H as [H _]. rewrite map_id in H. apply (H _ "dev2" (mkResult 1 1 0 0) Hp). by left.
Defined.

(** ** What modelling has found *)

(** The client is purged while its preview is shown, provisioned again under the same
    id, and given one contact, then renamed: it is at the version shown. *)
Definition recreated_book : Store :=
  Directory.runs
    [(OpUpsert [] "ct_8" 22 "dev" (example_contact "" "Cy" "sip:cy@pbx" 0) (mkOpts [] "admin"), true);
     (OpUpsert ["ct_8"] "ct_9" 23 "dev" (example_contact "" "Cyd" "sip:cy@pbx" 0) (mkOpts [] "admin"), true)]
    (fst (Directory.Purge "dev" true example_store)).

(** Versions start again after a purge: the confirmation passes the version check and
    its counts are not those that were shown. *)
Lemma a_recreated_client_has_other_counts :
  snd (h_uploadCSV book_serve "dev" chosen_file console_before) = UploadPreview "dev" (mkResult 2 2 0 2) a_file 2
  /\ VersionOf recreated_book "dev" = 2
  /\ snd (h_uploadCSV book_serve "dev" the_confirmation (console_at 30 recreated_book)) = Back ["clients"; "dev"] (Replaced (mkResult 3 2 0 1)).
Proof. vm_compute. done. Qed.
