(* ===== verification/DirDisk.v ===== *)
(** The files of the address books (src/server/internal/directory/directory.go: Open,
    readState, write, writeFile, Purge and Migrate): what is on the disk while the
    writes of Directory run, and what a start finds there.

    - A disk maps the names in the store's directory to what they hold.  A file is
      blank, the JSON of a state, or bytes that are neither; marshalling a state and
      reading it back are inverse.
    - A write of a file fails before any of it, in the temporary file, or before the
      rename; a crash leaves the disk of one of these, or the whole write, and loses the
      memory.  Data reaching the medium is not modelled beyond the order of the calls. *)

From S2P Require Import Prelude Text Directory.
From S2P Require DirApi.
Open Scope Z_scope.

(** ** The disk *)

Inductive file_bytes := Blank | Junk | Json (st : state).
Inductive content := Sub | File (b : file_bytes).

(** [made]: the directory itself exists. *)
Record disk := mkDisk { made : bool; names : gmap string content }.

Definition no_disk : disk := mkDisk false ∅.

Definition json_suffix : text := T ".json".
Definition path (deviceID : string) : string := to_string (T deviceID ++ json_suffix).
Definition tmp_of (p : string) : string := to_string (T p ++ T ".tmp").

(** The name without the suffix, when it has it. *)
Definition strip_suffix (suf : text) (name : string) : option string :=
  let t := T name in let n := (length t - length suf)%nat in
  if decide (drop n t = suf) then Some (to_string (take n t)) else None.

(** ** Opening *)

Inductive open_error := ErrReadDir | ErrReadFile | ErrJSON | ErrNewerSchema.

(** [readState] of what the file held. *)
Definition readState (b : file_bytes) : open_error + state :=
  match b with
  | Junk => inl ErrJSON
  | Blank => inr (mkState schemaVersion 0 ∅)
  | Json st => if schemaVersion <? Schema st then inl ErrNewerSchema else inr (marshalled st)
  end.

(** The loop over the entries; [readable]: os.ReadFile of a name succeeds. *)
Fixpoint open_entries (readable : string -> bool) (es : list (string * content)) (ds : gmap string state) : open_error + gmap string state :=
  match es with
  | [] => inr ds
  | (_, Sub) :: es => open_entries readable es ds
  | (name, File b) :: es =>
      match strip_suffix json_suffix name with
      | None => open_entries readable es ds
      | Some id =>
          if negb (readable name) then inl ErrReadFile else
          match readState b with inl e => inl e | inr st => open_entries readable es (<[id := st]> ds) end
      end
  end.

Definition name_le (a b : string * content) : Prop := String.le (fst a) (fst b).

#[export] Instance name_le_dec a b : Decision (name_le a b).
Proof. unfold name_le. apply _. Defined.

(** The directory as os.ReadDir lists it. *)
Definition listing (k : disk) : list (string * content) := merge_sort name_le (map_to_list (names k)).

(** [persistent = false] is Open of the empty string. *)
Definition Open (persistent listed : bool) (readable : string -> bool) (k : disk) : open_error + Store :=
  if negb persistent then inr (mkStore false ∅ ∅ [])
  else if negb (made k) then inr (mkStore true ∅ ∅ [])
  else if negb listed then inl ErrReadDir
  else match open_entries readable (listing k) ∅ with inl e => inl e | inr ds => inr (mkStore true ds ds []) end.

(** ** Writing a file *)

Inductive fate := NotMarshalled | NoDirectory | TmpFailed | RenameFailed | Written.

#[export] Instance fate_eq_dec : EqDecision fate.
Proof. solve_decision. Defined.

Definition put_name (name : string) (c : content) (k : disk) : disk := mkDisk (made k) (<[name := c]> (names k)).

(** The disk after [write] of the state to the device's file, and its success. *)
Definition writeFile (f : fate) (deviceID : string) (st : state) (k : disk) : disk * bool :=
  match f with
  | NotMarshalled | NoDirectory => (k, false)
  | _ =>
      let k := mkDisk true (names k) in
      let tmp := tmp_of (path deviceID) in
      match f with
      | TmpFailed => (put_name tmp (File Junk) k, false)
      | _ =>
          let k := put_name tmp (File (Json st)) k in
          match f with
          | RenameFailed => (k, false)
          | _ => (mkDisk true (<[path deviceID := File (Json st)]> (delete tmp (names k))), true)
          end
      end
  end.

(** ** The store and its disk *)

(** The first section of an operation: the store, and the write to do. *)
Definition begin (o : op) (s : Store) : Store * option pending :=
  match o with
  | OpUpsert order newid now d c wo => let '(s', r) := upsert_begin order newid now d c wo s in (s', match r with inl _ => None | inr (p, _) => Some p end)
  | OpDelete now d id wo => let '(s', r) := delete_begin now d id wo s in (s', match r with inl _ => None | inr p => p end)
  | OpReplace now d cs wo => let '(s', r) := replace_begin now d cs wo s in (s', match r with inl _ => None | inr (_, p) => p end)
  end.

Lemma run_begin o ok s : persistent s = true ->
  fst (run o ok s) = match begin o s with (s', None) => s' | (s', Some p) => fst (finish_write ok p s') end.
Proof.
  intros Hp. destruct o as [order newid now d c wo|now d id wo|now d cs wo]; cbn [run begin].
  - unfold Upsert, upsert_begin. case_decide; [done|]. destruct (negb (validate c)); [done|]. destruct (negb (checkDeviceID d)); [done|].
    destruct (negb (checkAll _ _)); [done|]. destruct (upsertLocked _ _ _ _ _ _) as [[st out] e]. cbn [persistent with_devices].
    rewrite Hp, orb_false_r. by destruct ok.
  - unfold Delete, delete_begin. case_decide; [done|]. destruct (negb (checkDeviceID d)); [done|]. destruct (devices s !! d) as [st|]; [|done].
    destruct (negb (checkAll _ _)); [done|]. destruct (Contacts_ st !! id) as [c|]; [|done]. destruct (Deleted c); [done|].
    cbn [persistent with_devices]. rewrite Hp, orb_false_r. by destruct ok.
  - unfold Replace, replace_begin. case_decide; [done|]. destruct (negb (forallb _ _)); [done|]. destruct (negb (checkDeviceID d)); [done|].
    destruct (negb (checkAll _ _)); [done|]. destruct (replaceLocked _ _ _) as [[st res] any]. destruct any; [|done]. cbn [persistent with_devices].
    rewrite Hp, orb_false_r. by destruct ok.
Qed.

(** A write to do is of the operation's device, and memory holds it already. *)
Lemma begin_Some o s s' p : begin o s = (s', Some p) ->
  p_device p = op_device o /\ Schema (p_state p) = schemaVersion /\ devices s' !! op_device o = Some (p_state p).
Proof.
  destruct o as [order newid now d c wo|now d id wo|now d cs wo]; cbn [begin op_device].
  - unfold upsert_begin. case_decide; [done|]. destruct (negb (validate c)); [done|]. destruct (negb (checkDeviceID d)); [done|].
    destruct (negb (checkAll _ _)); [done|]. destruct (upsertLocked _ _ _ _ _ _) as [[st out] e]. intros [= <- <-]. cbn. by rewrite lookup_insert_eq.
  - unfold delete_begin. case_decide; [done|]. destruct (negb (checkDeviceID d)); [done|]. destruct (devices s !! d) as [st|]; [|done].
    destruct (negb (checkAll _ _)); [done|]. destruct (Contacts_ st !! id) as [c|]; [|done]. destruct (Deleted c); [done|].
    intros [= <- <-]. cbn. by rewrite lookup_insert_eq.
  - unfold replace_begin. case_decide; [done|]. destruct (negb (forallb _ _)); [done|]. destruct (negb (checkDeviceID d)); [done|].
    destruct (negb (checkAll _ _)); [done|]. destruct (replaceLocked _ _ _) as [[st res] any]. destruct any; [|done].
    intros [= <- <-]. cbn. by rewrite lookup_insert_eq.
Qed.

Lemma begin_persistent o s : persistent (fst (begin o s)) = persistent s.
Proof.
  destruct o as [order newid now d c wo|now d id wo|now d cs wo]; cbn [begin].
  - unfold upsert_begin. case_decide; [done|]. destruct (negb (validate c)); [done|]. destruct (negb (checkDeviceID d)); [done|].
    destruct (negb (checkAll _ _)); [done|]. by destruct (upsertLocked _ _ _ _ _ _) as [[st out] e].
  - unfold delete_begin. case_decide; [done|]. destruct (negb (checkDeviceID d)); [done|]. destruct (devices s !! d) as [st|]; [|done].
    destruct (negb (checkAll _ _)); [done|]. destruct (Contacts_ st !! id) as [c|]; [|done]. by destruct (Deleted c).
  - unfold replace_begin. case_decide; [done|]. destruct (negb (forallb _ _)); [done|]. destruct (negb (checkDeviceID d)); [done|].
    destruct (negb (checkAll _ _)); [done|]. by destruct (replaceLocked _ _ _) as [[st res] any].
Qed.

(** What happens to a server with a data directory: writes, each with the fate of its
    file; purges, [removed] as in [Purge]; the server stopping, or falling amid a write,
    and being started again. *)
Inductive event := Write (o : op) (f : fate) | Purged (deviceID : string) (removed : bool) | Restart | Crash (o : op) (f : fate).

(** A start that can read the directory; [None]: the server refuses to. *)
Definition reopen (k : disk) : option (Store * disk) :=
  match Open true true (fun _ => true) k with inl _ => None | inr s => Some (s, k) end.

Definition delete_name (name : string) (k : disk) : disk := mkDisk (made k) (delete name (names k)).

Definition step (e : event) (sk : Store * disk) : option (Store * disk) :=
  let '(s, k) := sk in
  match e with
  | Write o f =>
      match begin o s with
      | (s, None) => Some (s, k)
      | (s, Some p) => let '(k, ok) := writeFile f (p_device p) (p_state p) k in Some (fst (finish_write ok p s), k)
      end
  | Purged d removed => Some (fst (Purge d removed s), if checkDeviceID d && removed then delete_name (path d) k else k)
  | Restart => reopen k
  | Crash o f =>
      match begin o s with
      | (_, None) => reopen k
      | (_, Some p) => reopen (fst (writeFile f (p_device p) (p_state p) k))
      end
  end.

Fixpoint history (es : list event) (sk : Store * disk) : option (Store * disk) :=
  match es with [] => Some sk | e :: es => match step e sk with Some sk => history es sk | None => None end end.

(** Every operation draws a possible order and new ids when it is done. *)
Definition event_draws (e : event) (s : Store) : Prop :=
  match e with Write o _ | Crash o _ => op_draws o s | _ => True end.

Fixpoint history_draws (es : list event) (sk : Store * disk) : Prop :=
  match es with
  | [] => True
  | e :: es => event_draws e (fst sk) /\ match step e sk with Some sk => history_draws es sk | None => True end
  end.

(** ** What the disk holds *)

(** A directory without the mark of its file's format. *)
Definition book (st : state) : Z * gmap string Contact := (st_Version st, Contacts_ st).

Definition on_disk (k : disk) (deviceID : string) : state :=
  match names k !! path deviceID with
  | Some (File b) => match readState b with inr st => st | inl _ => empty_state end
  | _ => empty_state
  end.

Definition same_books (s s' : Store) : Prop := forall d, book (stateLocked s' d) = book (stateLocked s d).

(** The files are of this format, and hold what memory does. *)
Record kept (s : Store) (k : disk) : Prop := {
  kept_persistent : persistent s = true;
  kept_ok : store_ok s;
  kept_made : made k = false -> names k = ∅;
  kept_files : forall name c, names k !! name = Some c -> strip_suffix json_suffix name <> None ->
    exists st, c = File (Json st) /\ Schema st = schemaVersion;
  kept_books : forall d, book (on_disk k d) = book (stateLocked s d);
}.

Lemma strip_suffix_Some suf name t : strip_suffix suf name = Some t <-> T name = T t ++ suf.
Proof.
  unfold strip_suffix. split.
  - case_decide as H; [|done]. intros [= <-]. rewrite T_to_string. rewrite <- H at 2. by rewrite take_drop.
  - intros E. rewrite E, length_app. replace (length (T t) + length suf - length suf)%nat with (length (T t)) by lia.
    rewrite drop_app_length, decide_True, take_app_length, to_string_T by done. done.
Qed.

Lemma strip_path d : strip_suffix json_suffix (path d) = Some d.
Proof. apply strip_suffix_Some. unfold path. by rewrite T_to_string. Qed.

Lemma strip_suffix_path name d : strip_suffix json_suffix name = Some d -> name = path d.
Proof. intros H%strip_suffix_Some. unfold path. rewrite <- H. by rewrite to_string_T. Qed.

Lemma path_inj d d' : path d = path d' -> d = d'.
Proof. intros E. pose proof (strip_path d) as H. rewrite E, strip_path in H. by injection H. Qed.

(** The temporary file is not one that is opened. *)
Lemma strip_tmp p : strip_suffix json_suffix (tmp_of p) = None.
Proof.
  destruct (strip_suffix _ _) as [t|] eqn:E; [|done]. apply strip_suffix_Some in E. unfold tmp_of in E. rewrite T_to_string in E.
  apply (f_equal (@List.rev _)) in E. rewrite !rev_app_distr in E. cbn in E. by injection E.
Qed.

Lemma tmp_path d d' : tmp_of (path d) <> path d'.
Proof. intros E. pose proof (strip_tmp (path d)) as H. by rewrite E, strip_path in H. Qed.

Lemma marshalled_same st : Schema st = schemaVersion -> marshalled st = st.
Proof. destruct st. by intros [= ->]. Qed.

Lemma readState_current st : Schema st = schemaVersion -> readState (Json st) = inr st.
Proof. intros H. unfold readState. rewrite H, Z.ltb_irrefl. by rewrite marshalled_same. Qed.

Definition current (x : string * content) : Prop :=
  strip_suffix json_suffix (fst x) <> None -> exists st, snd x = File (Json st) /\ Schema st = schemaVersion.

Lemma open_entries_spec es : forall ds, NoDup es.*1 -> Forall current es ->
  exists ds', open_entries (fun _ => true) es ds = inr ds'
    /\ (forall d st, (path d, File (Json st)) ∈ es -> ds' !! d = Some st)
    /\ (forall d, path d ∉ es.*1 -> ds' !! d = ds !! d).
Proof.
  induction es as [|[name c] es IH]; intros ds Hnd Hc.
  { exists ds. split; [done|]. split; [|done]. intros d st H. by apply elem_of_nil in H. }
  apply Forall_cons in Hc as [Hx Hc]. rewrite fmap_cons in Hnd. apply NoDup_cons in Hnd as [Hn Hnd]. cbn [fst] in Hn.
  destruct (strip_suffix json_suffix name) as [d0|] eqn:Es.
  - unfold current in Hx. cbn [fst snd] in Hx. rewrite Es in Hx. destruct (Hx ltac:(done)) as (st & -> & Hsch). cbn [open_entries]. rewrite Es. cbn [negb].
    rewrite readState_current by done. destruct (IH (<[d0 := st]> ds) Hnd Hc) as (ds' & E & H1 & H2). exists ds'. split; [done|].
    apply strip_suffix_path in Es as ->. split.
    + intros d st' [Heq|Hin]%elem_of_cons; [|by apply H1]. injection Heq as Hp ->. apply path_inj in Hp as ->.
      rewrite H2 by done. by rewrite lookup_insert_eq.
    + intros d Hni. rewrite fmap_cons, not_elem_of_cons in Hni. destruct Hni as [Hne Hni]. rewrite H2 by done. rewrite lookup_insert_ne; [done|].
      intros Ed. by rewrite Ed in Hne.
  - assert (open_entries (fun _ => true) ((name, c) :: es) ds = open_entries (fun _ => true) es ds) as -> by (cbn [open_entries]; rewrite Es; by destruct c).
    assert (forall d, path d <> name) as Hne by (intros d E; by rewrite <- E, strip_path in Es).
    destruct (IH ds Hnd Hc) as (ds' & E & H1 & H2). exists ds'. split; [done|]. split.
    + intros d st [Heq|Hin]%elem_of_cons; [injection Heq as Hp _; by apply Hne in Hp | by apply H1].
    + intros d Hni. rewrite fmap_cons, not_elem_of_cons in Hni. destruct Hni as [_ Hni]. by apply H2.
Qed.

Lemma elem_of_listing name c k : (name, c) ∈ listing k <-> names k !! name = Some c.
Proof. unfold listing. rewrite merge_sort_Permutation. apply elem_of_map_to_list. Qed.

Lemma listing_names k : NoDup (listing k).*1.
Proof. unfold listing. rewrite merge_sort_Permutation. apply NoDup_fst_map_to_list. Qed.

(** A start finds what memory held. *)
Lemma kept_reopen s k : kept s k -> exists s', reopen k = Some (s', k) /\ same_books s s' /\ kept s' k.
Proof.
  intros [Hp Hok Hm Hf Hb]. unfold reopen, Open. cbn [negb].
  assert (Hdone : forall ds, (forall d, book (default empty_state (ds !! d)) = book (on_disk k d)) ->
    same_books s (mkStore true ds ds []) /\ kept (mkStore true ds ds []) k).
  { intros ds Hds. assert (same_books s (mkStore true ds ds [])) as Hs by (intros d; unfold stateLocked at 1; cbn [devices]; by rewrite Hds).
    split; [done|]. constructor; [done| |done|done|].
    - intros d st E. cbn [devices] in E. pose proof (stateLocked_ok s d Hok) as H. specialize (Hs d). unfold stateLocked at 1 in Hs. cbn [devices] in Hs.
      rewrite E in Hs. cbn in Hs. unfold book in Hs. injection Hs as Hv Hc. unfold state_ok in *. by rewrite Hv, Hc.
    - intros d. unfold stateLocked. cbn [devices]. by rewrite Hds. }
  destruct (made k) eqn:Em; cbn [negb].
  - destruct (open_entries_spec (listing k) ∅ (listing_names k)) as (ds & -> & H1 & H2).
    { apply Forall_forall. intros [name c] H%elem_of_listing Hs. cbn [fst snd] in *. by apply (Hf name). }
    eexists. split; [done|]. apply Hdone. intros d. unfold on_disk. destruct (names k !! path d) as [c|] eqn:E.
    + destruct (Hf (path d) c E ltac:(by rewrite strip_path)) as (st & -> & Hsch). rewrite (H1 d st) by (by apply elem_of_listing).
      cbn [default]. by rewrite readState_current.
    + rewrite H2; [done|]. intros ([name c] & Hn & Hin%elem_of_listing)%list_elem_of_fmap. cbn in Hn. subst name. by rewrite E in Hin.
  - eexists. split; [done|]. apply Hdone. intros d. unfold on_disk. by rewrite (Hm eq_refl), !lookup_empty.
Qed.

(** *** A write *)

Lemma on_disk_same k k' d : names k' !! path d = names k !! path d -> on_disk k' d = on_disk k d.
Proof. unfold on_disk. by intros ->. Qed.

Definition all_current (k : disk) : Prop := forall name c, names k !! name = Some c -> strip_suffix json_suffix name <> None ->
  exists st, c = File (Json st) /\ Schema st = schemaVersion.

Lemma put_tmp_current d c k : all_current k -> all_current (put_name (tmp_of (path d)) c k).
Proof.
  intros Hf name c' H Hs. cbn [put_name names] in H. apply lookup_insert_Some in H as [[<- _]|[_ H]]; [by rewrite strip_tmp in Hs | by apply (Hf name)].
Qed.

Lemma writeFile_spec f d st k : Schema st = schemaVersion -> (made k = false -> names k = ∅) -> all_current k ->
  let '(k', ok) := writeFile f d st k in
  (made k' = false -> names k' = ∅) /\ all_current k' /\ on_disk k' d = (if ok : bool then st else on_disk k d)
  /\ forall d', d' <> d -> on_disk k' d' = on_disk k d'.
Proof.
  intros Hsch Hm Hf. assert (Htmp : forall c d', on_disk (put_name (tmp_of (path d)) c (mkDisk true (names k))) d' = on_disk k d').
  { intros c d'. apply on_disk_same. cbn [put_name names]. apply lookup_insert_ne, tmp_path. }
  assert (Hcur : forall c, all_current (put_name (tmp_of (path d)) c (mkDisk true (names k)))) by (intros c; by apply put_tmp_current).
  destruct f; cbn [writeFile].
  1, 2: done.
  1, 2: split; [done|]; split; [apply Hcur|]; split; [apply Htmp | intros d' _; apply Htmp].
  split; [done|]. split; [|split].
  - intros name c H Hs. cbn [names] in H. apply lookup_insert_Some in H as [[<- <-]|[_ H]]; [by exists st|].
    apply lookup_delete_Some in H as [_ H]. cbn [put_name names] in H. apply lookup_insert_Some in H as [[<- _]|[_ H]]; [by rewrite strip_tmp in Hs | by apply (Hf name)].
  - unfold on_disk. cbn [names]. rewrite lookup_insert_eq. by rewrite readState_current.
  - intros d' Hne. apply on_disk_same. cbn [names put_name]. rewrite lookup_insert_ne by (intros E; apply path_inj in E; congruence).
    rewrite lookup_delete_ne by apply tmp_path. apply lookup_insert_ne, tmp_path.
Qed.

Lemma same_content_kept s s' k : kept s k -> same_content s s' -> persistent s' = persistent s -> kept s' k.
Proof.
  intros [Hp Hok Hm Hf Hb] (Hs & _ & _ & Hok') Hpe. constructor; [congruence|by apply Hok'|done|done|]. intros d. by rewrite Hs.
Qed.

Lemma failed_run o s : persistent s = true -> store_ok s -> op_draws o s -> same_content s (fst (run o false s)) /\ persistent (fst (run o false s)) = true.
Proof.
  intros Hp Hs Hd. pose proof (run_outcome o false s Hs Hd) as H. destruct (run o false s) as [s' done]. cbn [fst]. destruct H as [Hpe [H|(_ & [?|?] & _)]]; [|done|congruence].
  split; [done | congruence].
Qed.

Lemma done_run o s : store_ok s -> op_draws o s -> let s' := fst (run o true s) in
  store_ok s' /\ persistent s' = persistent s /\ forall d, d <> op_device o -> stateLocked s' d = stateLocked s d.
Proof.
  intros Hs Hd. pose proof (run_outcome o true s Hs Hd) as H. destruct (run o true s) as [s' dn]. cbn [fst].
  split; [by apply outcome_grown in H as [? _]|]. destruct H as [Hpe H]. split; [done|]. intros d Hne.
  destruct H as [(Hc & _)|(_ & _ & _ & st' & (E & _) & _)]; [apply Hc|]. unfold stateLocked. by rewrite E, lookup_insert_ne.
Qed.

Lemma kept_write o f s k : kept s k -> op_draws o s ->
  match begin o s with
  | (s1, None) => kept s1 k /\ same_books s s1
  | (s1, Some p) => let '(k', ok) := writeFile f (p_device p) (p_state p) k in
      kept (fst (finish_write ok p s1)) k' /\ same_books (if ok then fst (run o true s) else s) (fst (finish_write ok p s1))
  end.
Proof.
  intros Hk Hd. pose proof Hk as [Hp Hok Hm Hf Hb]. pose proof (failed_run o s Hp Hok Hd) as [Hsame Hpf]. pose proof (done_run o s Hok Hd) as (Hok1 & Hp1 & Ho1).
  rewrite run_begin in Hsame, Hpf by done. rewrite (run_begin o true) in Hok1, Hp1, Ho1 by done.
  destruct (begin o s) as [s1 [p|]] eqn:Eb.
  2: { split; [by eapply same_content_kept; [exact Hk|exact Hsame|congruence] | intros d; by rewrite (proj1 Hsame)]. }
  destruct (begin_Some o s s1 p Eb) as (Ed & Hsch & Hmem).
  pose proof (writeFile_spec f (p_device p) (p_state p) k Hsch Hm Hf) as Hw. destruct (writeFile f _ _ k) as [k' ok]. destruct Hw as (Hm' & Hf' & Hd1 & Hd2).
  rewrite run_begin, Eb by done. destruct ok.
  - split; [|done]. constructor; [congruence|done|done|done|]. intros d. destruct (decide (d = p_device p)) as [->|Hne].
    + rewrite Hd1. rewrite Ed. unfold stateLocked. cbn [finish_write fst devices]. by rewrite Hmem.
    + rewrite Hd2 by done. rewrite Ho1 by congruence. apply Hb.
  - split; [|intros d; by rewrite (proj1 Hsame)]. apply (same_content_kept s); [|done|congruence].
    constructor; [done|done|done|done|]. intros d. destruct (decide (d = p_device p)) as [->|Hne]; [rewrite Hd1 | rewrite Hd2 by done]; apply Hb.
Qed.

Lemma same_books_refl s : same_books s s.
Proof. done. Qed.

Lemma same_books_trans s1 s2 s3 : same_books s1 s2 -> same_books s2 s3 -> same_books s1 s3.
Proof. intros H1 H2 d. by rewrite H2. Qed.

(** The store an operation leaves when its file meets [f]. *)
Definition landed (o : op) (f : fate) (s : Store) : Store := match f with Written => fst (run o true s) | _ => s end.

Lemma writeFile_ok f d st k : snd (writeFile f d st k) = bool_decide (f = Written).
Proof. by destruct f. Qed.

Lemma write_step o f s k : kept s k -> op_draws o s ->
  exists s' k', step (Write o f) (s, k) = Some (s', k') /\ kept s' k' /\ same_books (landed o f s) s'.
Proof.
  intros Hk Hd. pose proof (kept_write o f s k Hk Hd) as H. pose proof (run_begin o true s (kept_persistent _ _ Hk)) as Hrun. cbn [step].
  destruct (begin o s) as [s1 [p|]].
  - pose proof (writeFile_ok f (p_device p) (p_state p) k) as Hok. destruct (writeFile f _ _ k) as [k' ok]. cbn [snd] in Hok. subst ok.
    eexists _, k'. split; [done|]. destruct H as [H1 H2]. split; [exact H1|]. unfold landed. by destruct f.
  - exists s1, k. split; [done|]. destruct H as [H1 H2]. split; [done|]. unfold landed. destruct f; try done. rewrite Hrun. apply same_books_refl.
Qed.

Lemma crash_step o f s k : kept s k -> op_draws o s ->
  exists s' k', step (Crash o f) (s, k) = Some (s', k') /\ kept s' k' /\ same_books (landed o f s) s'.
Proof.
  intros Hk Hd. destruct (write_step o f s k Hk Hd) as (s1 & k1 & Hs & Hk1 & Hb). cbn [step] in *.
  assert (Hre : exists s', reopen k1 = Some (s', k1) /\ same_books s1 s' /\ kept s' k1) by (by apply kept_reopen). destruct Hre as (s' & Hr & Hb' & Hk').
  destruct (begin o s) as [s2 [p|]].
  - destruct (writeFile f _ _ k) as [k2 ok]. injection Hs as <- <-. exists s', k2. split; [exact Hr|]. split; [done|]. by eapply same_books_trans.
  - injection Hs as <- <-. exists s', k. split; [exact Hr|]. split; [done|]. by eapply same_books_trans.
Qed.

Lemma delete_name_current name k : all_current k -> all_current (delete_name name k).
Proof. intros H n c E. cbn [delete_name names] in E. apply lookup_delete_Some in E as [_ E]. by apply H. Qed.

(** A purge takes the file with the book, and no other. *)
Lemma purge_step d removed s k : kept s k -> exists s' k', step (Purged d removed) (s, k) = Some (s', k') /\ kept s' k'
  /\ forall d', (d' <> d -> book (stateLocked s' d') = book (stateLocked s d')) /\ (d' = d -> removed = true -> checkDeviceID d = true -> stateLocked s' d' = empty_state).
Proof.
  intros [Hp Hok Hm Hf Hb]. cbn [step]. unfold Purge. destruct (checkDeviceID d) eqn:Hc; cbn [negb andb fst]; [|eexists _, _; split; [done|]; split; [by constructor|done]].
  rewrite Hp. destruct removed; cbn [negb andb fst]; [|eexists _, _; split; [done|]; split; [by constructor|done]].
  assert (Hother : forall d', d' <> d -> stateLocked (mkStore true (delete d (devices s)) (delete d (files s)) (calls s)) d' = stateLocked s d').
  { intros d' Hne. unfold stateLocked. cbn [devices]. by rewrite lookup_delete_ne. }
  assert (Hgone : stateLocked (mkStore true (delete d (devices s)) (delete d (files s)) (calls s)) d = empty_state).
  { unfold stateLocked. cbn [devices]. by rewrite lookup_delete_eq. }
  eexists _, _. split; [done|]. split; [constructor|].
  - done.
  - intros d' st E. cbn [devices] in E. apply lookup_delete_Some in E as [_ E]. by apply (Hok d').
  - intros E. cbn [delete_name made names] in *. by rewrite Hm, delete_empty.
  - by apply delete_name_current.
  - intros d'. destruct (decide (d' = d)) as [->|Hne].
    + rewrite Hgone. unfold on_disk, delete_name. cbn [names]. by rewrite lookup_delete_eq.
    + rewrite Hother by done. rewrite (on_disk_same k); [apply Hb|]. cbn [delete_name names]. apply lookup_delete_ne. intros E. by apply path_inj in E.
  - intros d'. split; [intros Hne; by rewrite Hother | intros -> _ _; exact Hgone].
Qed.

Lemma kept_step e s k : kept s k -> event_draws e s -> exists s' k', step e (s, k) = Some (s', k') /\ kept s' k'.
Proof.
  intros Hk Hd. destruct e as [o f|d removed| |o f].
  - destruct (write_step o f s k Hk Hd) as (s' & k' & H & Hk' & _). eauto.
  - destruct (purge_step d removed s k Hk) as (s' & k' & H & Hk' & _). eauto.
  - destruct (kept_reopen s k Hk) as (s' & H & _ & Hk'). eauto.
  - destruct (crash_step o f s k Hk Hd) as (s' & k' & H & Hk' & _). eauto.
Qed.

Lemma kept_history es : forall s k, kept s k -> history_draws es (s, k) -> exists s' k', history es (s, k) = Some (s', k') /\ kept s' k'.
Proof.
  induction es as [|e es IH]; intros s k Hk Hd; [eauto|]. cbn [history history_draws fst] in *. destruct Hd as [He Hes].
  destruct (kept_step e s k Hk He) as (s' & k' & E & Hk'). rewrite E in *. by apply IH.
Qed.

Definition first_start : Store * disk := (mkStore true ∅ ∅ [], no_disk).

Lemma kept_first : kept (fst first_start) no_disk.
Proof. constructor; [done| |done|done|done]. intros d st H. cbn in H. by apply lookup_empty_Some in H. Qed.

(** C14: No directory is lost to a restart or a crash.  After any history from an empty
    disk, of upserts, deletes and replaces with any of their files failing at any
    point, purges, restarts, and crashes amid a write, the server starts, and finds
    every device's directory, version and contacts and tombstones, as it was; a write
    whose file was written has happened, one whose file was not has not; and a crash
    amid a write leaves it done or undone, never half, and no other device touched. *)
Theorem no_book_is_lost es : history_draws es first_start -> exists s k, history es first_start = Some (s, k)
  /\ (exists s', step Restart (s, k) = Some (s', k) /\ same_books s s')
  /\ forall o f, op_draws o s ->
       (exists s' k', step (Write o f) (s, k) = Some (s', k') /\ same_books (landed o f s) s')
       /\ (exists s' k', step (Crash o f) (s, k) = Some (s', k') /\ same_books (landed o f s) s')
       /\ forall d, d <> op_device o -> stateLocked (landed o f s) d = stateLocked s d.
Proof.
  intros Hd. destruct (kept_history es _ _ kept_first Hd) as (s & k & E & Hk). exists s, k. split; [exact E|]. split.
  - destruct (kept_reopen s k Hk) as (s' & H & Hb & _). eauto.
  - intros o f Ho. split; [|split].
    + destruct (write_step o f s k Hk Ho) as (s' & k' & H & _ & Hb). eauto.
    + destruct (crash_step o f s k Hk Ho) as (s' & k' & H & _ & Hb). eauto.
    + intros d Hne. unfold landed. destruct f; try done. by apply done_run; [apply Hk| |].
Qed.

(** ** The migration of a global directory *)

(** The star a device has given a number, if it lists it once. *)
Definition favourite (s : Store) (deviceID uri : string) : bool :=
  match devices s !! deviceID with
  | None => false
  | Some st => match liveByURILocked st uri with Some c => Favourite c | None => false end
  end.

(** What goes into a device's list: by URI, its own star kept. *)
Definition migrated (star : bool) (c : Contact) : Contact :=
  mkContact "" (DisplayName c) (URI c) (Mode_ c) star (Version c) (UpdatedAt c) (Deleted c).

(** Each contact with the order and id its upsert draws, and whether its file is written. *)
Fixpoint migrate_into (deviceID : string) (live : list (Contact * list string * string * bool)) (now : Z) (s : Store) : Store * option dir_error :=
  match live with
  | [] => (s, None)
  | (c, order, newid, ok) :: live =>
      match Upsert order newid now deviceID (migrated (favourite s deviceID (URI c)) c) (mkOpts [] "server") ok s with
      | (s, inl e) => (s, Some e)
      | (s, inr _) => migrate_into deviceID live now s
      end
  end.

Inductive legacy := NoLegacy | StatFailed | Unreadable | Legacy (b : file_bytes).
Inductive migrate_error := StatError | LegacyError (e : open_error) | MigrateError (e : dir_error) | RenameError.

(** The devices in turn, each with what its upserts draw. *)
Fixpoint migrate_all (plan : list (string * list (list string * string * bool))) (live : list Contact) (now : Z) (s : Store) : Store * option dir_error :=
  match plan with
  | [] => (s, None)
  | (id, ds) :: plan =>
      match migrate_into id (zip_with (fun c x => (c, fst (fst x), snd (fst x), snd x)) live ds) now s with
      | (s, Some e) => (s, Some e)
      | (s, None) => migrate_all plan live now s
      end
  end.

(** The live contacts in the order of their versions; which of two of one version
    comes first is the sort's and the map's. *)
Definition legacy_order (st : state) (live : list Contact) : Prop :=
  live ≡ₚ filter (fun c => Deleted c = false) (map_to_list (Contacts_ st)).*2 /\ StronglySorted (fun a b => Version a <= Version b) live.

(** [Migrate]: the store, what is left of the legacy file, and the counts.  [live] is
    an order of the live contacts of what the file holds. *)
Definition Migrate (given : bool) (f : legacy) (live : list Contact) (plan : list (string * list (list string * string * bool))) (now : Z) (renamed : bool)
    (s : Store) : Store * legacy * (migrate_error + Z * Z) :=
  if negb given || bool_decide (plan = []) then (s, f, inr (0, 0)) else
  match f with
  | NoLegacy => (s, f, inr (0, 0))
  | StatFailed => (s, f, inl StatError)
  | Unreadable => (s, f, inl (LegacyError ErrReadFile))
  | Legacy b =>
      match readState b with
      | inl e => (s, f, inl (LegacyError e))
      | inr _ =>
          match migrate_all plan live now s with
          | (s, Some e) => (s, f, inl (MigrateError e))
          | (s, None) => if renamed then (s, NoLegacy, inr (zlen live, zlen plan)) else (s, f, inl RenameError)
          end
      end
  end.

(** *** What a device has then *)

Lemma Upsert_one_live order newid now d c wo ok s s' out : store_ok s -> is_order (Contacts_ (stateLocked s d)) order -> newid <> "" ->
  Contacts_ (stateLocked s d) !! newid = None -> ID c = "" -> Upsert order newid now d c wo ok s = (s', inr out) ->
  store_ok s' /\ (forall d', d' <> d -> stateLocked s' d' = stateLocked s d')
  /\ one_live (URI c) c (Contacts_ (stateLocked s' d))
  /\ forall u, equal_fold u (URI c) = false -> same_live u (Contacts_ (stateLocked s d)) (Contacts_ (stateLocked s' d)).
Proof.
  intros Hs Ho Hne Hno Hid Hup. pose proof (upsert_outcome order newid now d c wo ok s Hs (conj Ho Hne)) as Hout. cbn [run] in Hout. rewrite Hup in Hout.
  cbn [is_ok] in Hout. pose proof (outcome_grown _ _ _ _ _ Hs Hout) as [Hs' _]. split; [done|].
  pose proof (state_ok_ids _ (stateLocked_ok s d Hs)) as Hst. pose proof (upsertLocked_one_live order newid now (stateLocked s d) c 0 Hst Ho Hne Hid) as H1.
  unfold Upsert, upsert_begin in Hup. case_decide; [done|]. destruct (negb (validate c)); [done|]. destruct (negb (checkDeviceID d)); [done|].
  destruct (negb (checkAll _ _)); [done|]. destruct (upsertLocked _ _ _ _ _ _) as [[st' out'] e].
  unfold finish_write in Hup. cbn [persistent with_devices] in Hup. destruct (ok || negb (persistent s)); [|done]. injection Hup as <- <-.
  destruct H1 as [H1 H2]. match goal with |- context [stateLocked ?x _] => match x with s => fail 1 | _ => set (s1 := x) end end.
  assert (Ed : stateLocked s1 d = marshalled st') by (unfold s1, stateLocked; cbn [devices with_devices]; by rewrite lookup_insert_eq).
  rewrite Ed. cbn [marshalled Contacts_]. split; [|split; [exact H1 | by apply H2]].
  intros d' Hd'. unfold s1, stateLocked. cbn [devices with_devices]. by rewrite !lookup_insert_ne.
Qed.

Lemma favourite_live s d u : favourite s d u = match liveByURILocked (stateLocked s d) u with Some c => Favourite c | None => false end.
Proof.
  unfold favourite, stateLocked. destruct (devices s !! d); [done|]. cbn [default]. by rewrite DirApi.liveByURILocked_map.
Qed.

Lemma favourite_same s s' d u : same_live u (Contacts_ (stateLocked s d)) (Contacts_ (stateLocked s' d)) -> favourite s' d u = favourite s d u.
Proof. intros H. rewrite !favourite_live, !DirApi.liveByURILocked_map. by rewrite (DirApi.live_map_same _ _ _ H). Qed.

Lemma favourite_one s d u c : one_live u c (Contacts_ (stateLocked s d)) -> favourite s d u = Favourite c.
Proof.
  intros (k & x & E & Hl & (_ & _ & Hf) & Hu). rewrite favourite_live, DirApi.liveByURILocked_map.
  assert (DirApi.live_map u (Contacts_ (stateLocked s d)) = {[ k := x ]}) as ->.
  { apply map_eq. intros j. apply option_eq. intros y. unfold DirApi.live_map. rewrite map_lookup_filter_Some, lookup_singleton_Some. cbn. split.
    - intros [Ej Hj]. assert (j = k) as -> by (by eapply Hu). split; congruence.
    - intros [<- <-]. done. }
  rewrite map_to_list_singleton. by cbn.
Qed.

Lemma equal_fold_favourite s d u u' : equal_fold u u' = true -> favourite s d u = favourite s d u'.
Proof.
  intros Hf. rewrite !favourite_live, !DirApi.liveByURILocked_map.
  assert (DirApi.live_map u (Contacts_ (stateLocked s d)) = DirApi.live_map u' (Contacts_ (stateLocked s d))) as ->; [|done].
  apply map_eq. intros k. apply option_eq. intros x. unfold DirApi.live_map. rewrite !map_lookup_filter_Some. cbn. by rewrite (live_at_fold u u').
Qed.

(** The orders and ids drawn along the way are possible ones. *)
Fixpoint migrate_draws (deviceID : string) (live : list (Contact * list string * string * bool)) (now : Z) (s : Store) : Prop :=
  match live with
  | [] => True
  | (c, order, newid, ok) :: live =>
      is_order (Contacts_ (stateLocked s deviceID)) order /\ newid <> "" /\ Contacts_ (stateLocked s deviceID) !! newid = None
      /\ migrate_draws deviceID live now (fst (Upsert order newid now deviceID (migrated (favourite s deviceID (URI c)) c) (mkOpts [] "server") ok s))
  end.

Definition listed (live : list (Contact * list string * string * bool)) : list Contact := map (fun x => fst (fst (fst x))) live.

(** A device lists the last legacy contact of each address, with its own star, and is
    otherwise as it was. *)
Definition has_migrated (d : string) (live : list Contact) (s s' : Store) : Prop :=
  forall u, match last_at u live with
            | Some c => one_live u (migrated (favourite s d u) c) (Contacts_ (stateLocked s' d))
            | None => same_live u (Contacts_ (stateLocked s d)) (Contacts_ (stateLocked s' d))
            end.

Lemma migrate_into_spec d live now : forall s s', store_ok s -> migrate_draws d live now s -> migrate_into d live now s = (s', None) ->
  store_ok s' /\ (forall d', d' <> d -> stateLocked s' d' = stateLocked s d') /\ has_migrated d (listed live) s s'.
Proof.
  induction live as [|[[[c order] newid] ok] live IH]; intros s s' Hs Hd; cbn [migrate_into].
  { intros [= <-]. split; [done|]. split; [done|]. intros u. by cbn. }
  cbn [migrate_draws] in Hd. destruct Hd as (Ho & Hne & Hno & Hd). set (c' := migrated (favourite s d (URI c)) c) in *.
  destruct (Upsert order newid now d c' (mkOpts [] "server") ok s) as [s1 [e|out]] eqn:Eu; [done|]. cbn [fst] in Hd. intros Hm.
  destruct (Upsert_one_live order newid now d c' (mkOpts [] "server") ok s s1 out Hs Ho Hne Hno eq_refl Eu) as (Hs1 & Hother & H1 & H2).
  destruct (IH s1 s' Hs1 Hd Hm) as (Hs' & Hother' & Hl). split; [done|]. split; [intros d' Hn; by rewrite Hother', Hother by done|].
  intros u. specialize (Hl u). cbn [listed map last_at fst]. fold (listed live). change (URI c') with (URI c) in H1, H2.
  destruct (last_at u (listed live)) as [x|] eqn:El.
  - assert (favourite s1 d u = favourite s d u) as <-; [|done]. destruct (equal_fold u (URI c)) eqn:Ef.
    + rewrite (equal_fold_favourite s1 d u (URI c)), (equal_fold_favourite s d u (URI c)) by done. by rewrite (favourite_one s1 d (URI c) c').
    + by apply favourite_same, H2.
  - destruct (equal_fold u (URI c)) eqn:Ef.
    + apply (one_live_same u _ _ _ Hl). apply (one_live_fold (URI c) u); [by unfold equal_fold in *; rewrite bool_decide_eq_true in *|].
      by rewrite (equal_fold_favourite s d u (URI c)).
    + eapply same_live_trans; [by apply H2 | done].
Qed.

Definition with_draws (live : list Contact) (ds : list (list string * string * bool)) : list (Contact * list string * string * bool) :=
  zip_with (fun c x => (c, fst (fst x), snd (fst x), snd x)) live ds.

Lemma listed_with_draws live : forall ds, length ds = length live -> listed (with_draws live ds) = live.
Proof.
  unfold listed, with_draws. induction live as [|c live IH]; intros [|x ds] H; try done. cbn [zip_with map]. f_equal. apply IH. by injection H.
Qed.

Fixpoint plan_draws (plan : list (string * list (list string * string * bool))) (live : list Contact) (now : Z) (s : Store) : Prop :=
  match plan with
  | [] => True
  | (id, ds) :: plan => length ds = length live /\ migrate_draws id (with_draws live ds) now s
      /\ plan_draws plan live now (fst (migrate_into id (with_draws live ds) now s))
  end.

Lemma has_migrated_frame d live s0 s s1 s' : stateLocked s d = stateLocked s0 d -> stateLocked s' d = stateLocked s1 d ->
  has_migrated d live s s1 -> has_migrated d live s0 s'.
Proof.
  intros E E' H u. specialize (H u). rewrite E'. destruct (last_at u live) as [c|]; [|by rewrite <- E].
  assert (favourite s0 d u = favourite s d u) as ->; [|done]. by rewrite !favourite_live, E.
Qed.

Lemma migrate_all_spec live now plan : forall s s', store_ok s -> NoDup plan.*1 -> plan_draws plan live now s -> migrate_all plan live now s = (s', None) ->
  store_ok s' /\ (forall d, d ∈ plan.*1 -> has_migrated d live s s') /\ forall d, d ∉ plan.*1 -> stateLocked s' d = stateLocked s d.
Proof.
  induction plan as [|[id ds] plan IH]; intros s s' Hs Hnd Hd; cbn [migrate_all].
  { intros [= <-]. split; [done|]. split; [|done]. intros d H. by apply elem_of_nil in H. }
  cbn [plan_draws] in Hd. destruct Hd as (Hlen & Hd & Hds). rewrite fmap_cons in *. apply NoDup_cons in Hnd as [Hn Hnd]. cbn [fst] in *.
  fold (with_draws live ds). destruct (migrate_into id (with_draws live ds) now s) as [s1 [e|]] eqn:Em; [done|]. cbn [fst] in Hds. intros Ha.
  destruct (migrate_into_spec _ _ _ _ _ Hs Hd Em) as (Hs1 & Hother & Hl). rewrite listed_with_draws in Hl by done.
  destruct (IH s1 s' Hs1 Hnd Hds Ha) as (Hs' & Hall & Hrest). split; [done|]. split.
  - intros d [->|Hin]%elem_of_cons.
    + eapply has_migrated_frame; [| |exact Hl]; [done|]. by apply Hrest.
    + assert (d <> id) as Hne by (intros ->; done). eapply has_migrated_frame; [| |by apply Hall]; [by apply Hother | done].
  - intros d [Hne Hni]%not_elem_of_cons. by rewrite Hrest, Hother.
Qed.

(** A migration that ends gives every device the legacy contacts, and its file is not
    read again; one that fails leaves the file, for the next start. *)
Lemma a_migration_is_whole given f live plan now renamed s st b : store_ok s -> NoDup plan.*1 -> plan_draws plan live now s ->
  given = true -> plan <> [] -> f = Legacy b -> readState b = inr st -> legacy_order st live ->
  let '(s', f', r) := Migrate given f live plan now renamed s in
  match r with
  | inl _ => f' = f
  | inr (n, m) => f' = NoLegacy /\ n = zlen live /\ m = zlen plan /\ (forall d, d ∈ plan.*1 -> has_migrated d live s s')
      /\ forall d, d ∉ plan.*1 -> stateLocked s' d = stateLocked s d
  end.
Proof.
  intros Hs Hnd Hd -> Hne -> Hb _. unfold Migrate. cbn [negb orb]. rewrite bool_decide_eq_false_2, Hb by done.
  destruct (migrate_all plan live now s) as [s' [e|]] eqn:Em; [done|]. destruct (migrate_all_spec _ _ _ _ _ Hs Hnd Hd Em) as (_ & H1 & H2).
  by destruct renamed.
Qed.

(** ** Examples *)

Definition ann : Contact := mkContact "" "Ann" "sip:ann@pbx" ModeLocal true 0 0 false.

Definition a_history : list event :=
  [Write (OpUpsert [] "ct_1" 5 "dev" ann (mkOpts [] "admin")) Written; Crash (OpDelete 9 "dev" "ct_1" (mkOpts [1] "admin")) RenameFailed;
   Write (OpDelete 11 "dev" "ct_1" (mkOpts [] "device")) TmpFailed].

Lemma a_history_draws : history_draws a_history first_start.
Proof.
  split; [split; [apply Permutation_refl | discriminate]|].
  destruct (step _ first_start) as [sk|]; [|exact I]. split; [exact I|]. destruct (step _ sk) as [sk'|]; [|exact I]. split; [exact I|]. by destruct (step _ sk').
Qed.

Lemma no_book_is_lost_witness : exists s k s', history a_history first_start = Some (s, k) /\ step Restart (s, k) = Some (s', k)
  /\ book (stateLocked s' "dev") = (1, {[ "ct_1" := mkContact "ct_1" "Ann" "sip:ann@pbx" ModeLocal true 1 5 false ]}).
Proof.
  destruct (no_book_is_lost a_history a_history_draws) as (s & k & E & (s' & Hr & Hb) & _). exists s, k, s'. split; [exact E|]. split; [exact Hr|].
  rewrite (Hb "dev"). assert (option_map fst (history a_history first_start) = Some s) as Es by (by rewrite E).
  assert ((s0 ← option_map fst (history a_history first_start); Some (book (stateLocked s0 "dev")))
    = Some (1, {[ "ct_1" := mkContact "ct_1" "Ann" "sip:ann@pbx" ModeLocal true 1 5 false ]})) as Hv by (vm_compute; reflexivity).
  rewrite Es in Hv. exact (f_equal (default (0, ∅)) Hv).
Defined.

(** A migration run again, as after a crash before the rename, leaves the contacts and
    moves every device to a new version, which is sent to its phone. *)
Definition twice (s : Store) : Store :=
  let once s order := fst (migrate_into "dev" [(ann, order, "ct_1", true)] 7 s) in once (once s []) ["ct_1"].

Lemma migrating_again_moves_the_version :
  let once := fst (migrate_into "dev" [(ann, [], "ct_1", true)] 7 (fst first_start)) in
  VersionOf once "dev" = 1 /\ VersionOf (twice (fst first_start)) "dev" = 2
  /\ calls (twice (fst first_start)) = [("dev", 1, "server"); ("dev", 2, "server")].
Proof. vm_compute. repeat split. Qed.
