(* ===== verification/Secrets.v ===== *)
(** The key file, the sealed secrets and the install id
    (src/server/internal/secrets/secrets.go, src/server/internal/licence/installid.go):
    what a start finds and mints, and what sealing and opening give.

    - AES-GCM is an argument: [gcm] makes the cipher of a key, as aes.NewCipher and
      cipher.NewGCM do; what is assumed of it is [lawful].
    - rand.Read is an argument of each call: the bytes drawn, or [None].
    - os.WriteFile creates the file and writes it from its start, so a write that fails,
      or a crash in it, leaves any beginning of the bytes. *)

From S2P Require Import Prelude Text Base64.
From S2P Require Enroll.
Open Scope Z_scope.

(** ** A file minted at the first start *)

Inductive key_file := Absent | Unreadable | Holds (raw : text).

(** What becomes of the directory and of the file: not made, not opened, the first [n]
    bytes written before an error, or all of them, with the file closed or not. *)
Inductive write_fate := NoDir | NotOpened | Short (n : nat) | Full (closed : bool).

Definition written (w : write_fate) (f : key_file) (raw : text) : key_file * bool :=
  match w with
  | NoDir | NotOpened => (f, false)
  | Short n => (Holds (take n raw), false)
  | Full closed => (Holds raw, closed)
  end.

Inductive key_error := ErrDraw | ErrMkdir | ErrWrite | ErrRead | ErrNotHex | ErrKeyLength | ErrCipher | ErrNotID.

(** What one start draws and meets. *)
Record start := mkStart { drawn : option (list Z); fate : write_fate }.

Section minting.
Context {A : Type} (render : list Z -> text) (parse : text -> key_error + A) (made : list Z -> key_error + A).

Definition load_or_mint (x : start) (f : key_file) : key_file * (key_error + A) :=
  match f with
  | Absent =>
      match drawn x with
      | None => (f, inl ErrDraw)
      | Some b =>
          match fate x with
          | NoDir => (f, inl ErrMkdir)
          | w => match written w f (render b) with (f', true) => (f', made b) | (f', false) => (f', inl ErrWrite) end
          end
      end
  | Unreadable => (f, inl ErrRead)
  | Holds raw => (f, parse raw)
  end.

(** One start after another: what each returned, and the file in the end. *)
Fixpoint starts (xs : list start) (f : key_file) : list (key_error + A) * key_file :=
  match xs with
  | [] => ([], f)
  | x :: xs => let '(f, r) := load_or_mint x f in let '(rs, f) := starts xs f in (r :: rs, f)
  end.

(** What was minted reads back as what was used. *)
Context (fair : start -> Prop) (reads_back : forall x b, fair x -> drawn x = Some b -> parse (render b) = made b).

Lemma load_or_mint_settles x f f' r : fair x -> load_or_mint x f = (f', r) ->
  (f' = Absent /\ f = Absent /\ exists e, r = inl e) \/ (f' = Unreadable /\ exists e, r = inl e)
  \/ exists raw, f' = Holds raw /\ ((exists e, r = inl e) \/ r = parse raw).
Proof.
  intros Hx. unfold load_or_mint. destruct f as [| |raw]; [|intros [= <- <-]; right; left; eauto|intros [= <- <-]; right; right; eauto].
  destruct (drawn x) as [b|] eqn:Ed; [|intros [= <- <-]; left; eauto].
  destruct (fate x) as [| |n|[]]; intros [= <- <-]; [left; eauto|left; eauto|..]; right; right; eexists; split; try done; eauto.
  right. symmetry. by eapply reads_back.
Qed.

Lemma starts_settled xs : forall raw, starts xs (Holds raw) = (map (fun _ => parse raw) xs, Holds raw).
Proof. induction xs as [|x xs IH]; intros raw; [done|]. cbn [starts load_or_mint]. by rewrite IH. Qed.

(** Every start that succeeds returns the same value. *)
Lemma minted_once xs : Forall fair xs -> forall f a b, inr a ∈ fst (starts xs f) -> inr b ∈ fst (starts xs f) -> a = b.
Proof.
  induction 1 as [|x xs Hx _ IH]; intros f a b; [intros H; by apply elem_of_nil in H|]. cbn [starts].
  destruct (load_or_mint x f) as [f' r] eqn:E. pose proof (load_or_mint_settles _ _ _ _ Hx E) as H. specialize (IH f' a b).
  destruct (starts xs f') as [rs g] eqn:Es. cbn [fst] in IH |- *. rewrite !elem_of_cons. intros Ha Hb.
  destruct H as [(_&_&e&->)|[(_&e&->)|(raw&->&Hr)]].
  - destruct Ha as [?|Ha], Hb as [?|Hb]; try done. by apply IH.
  - destruct Ha as [?|Ha], Hb as [?|Hb]; try done. by apply IH.
  - rewrite starts_settled in Es. injection Es as <- <-.
    assert (forall c, inr c = r \/ inr c ∈ map (fun _ => parse raw) xs -> parse raw = inr c) as Hc.
    { intros c [<-|Hc]; [destruct Hr as [[e He]|He]; congruence|]. apply list_elem_of_fmap in Hc as (?&He&_). done. }
    apply Hc in Ha, Hb. congruence.
Qed.

(** Once the file is there, a start returns what it holds and leaves it. *)
Lemma minting_is_idempotent x x' f f' a : fair x -> load_or_mint x f = (f', inr a) -> load_or_mint x' f' = (f', inr a).
Proof.
  intros Hx H. apply load_or_mint_settles in H as [(_&_&e&He)|[(_&e&He)|(raw&->&[[e He]|He])]]; [done..| |done]. cbn. by rewrite <- He.
Qed.
End minting.

(** ** The box *)

(** A cipher: [aSeal nonce plaintext data], and [aOpen nonce ciphertext data]. *)
Record AEAD := mkAEAD {
  NonceSize : nat;
  aSeal : list Z -> list Z -> list Z -> list Z;
  aOpen : list Z -> list Z -> list Z -> option (list Z) }.

(** What is sealed are bytes, and it opens, under the same nonce and data, as what it
    was and as nothing else. *)
Class lawful (c : AEAD) : Prop := {
  aSeal_bytes n p d : Forall is_byte n -> Forall is_byte p -> Forall is_byte d -> Forall is_byte (aSeal c n p d);
  aOpen_bytes n e d p : aOpen c n e d = Some p -> Forall is_byte p;
  aOpen_aSeal n e d p : length n = NonceSize c -> (aOpen c n e d = Some p <-> Forall is_byte p /\ e = aSeal c n p d) }.

Definition keyPrefix : text := T "v1:".
Definition keySize : nat := 32.

Section sealing.
Context (gcm : list Z -> option AEAD).

Definition New (key : list Z) : key_error + AEAD :=
  if decide (length key <> keySize) then inl ErrKeyLength else
  match gcm key with None => inl ErrCipher | Some c => inr c end.

Definition key_text (key : list Z) : text := EncodeHex key ++ [char_of 10].

Definition key_of (raw : text) : key_error + AEAD :=
  match DecodeHex (TrimSpace raw) with None => inl ErrNotHex | Some key => New key end.

(** [OpenKey]; [drawn] is 32 bytes. *)
Definition OpenKey : start -> key_file -> key_file * (key_error + AEAD) := load_or_mint key_text key_of New.

Inductive seal_error := ErrNoKey | ErrNonce | ErrUnrecognised | ErrBase64 | ErrTooShort | ErrDecrypt.

Definition Seal (b : option AEAD) (nonce : option (list Z)) (label s : text) : seal_error + text :=
  match b with
  | None => inl ErrNoKey
  | Some c =>
      match nonce with
      | None => inl ErrNonce
      | Some n => inr (keyPrefix ++ Encode (n ++ aSeal c n (bytes s) (bytes label)))
      end
  end.

Definition Open (b : option AEAD) (label sealed : text) : seal_error + text :=
  match b with
  | None => inl ErrNoKey
  | Some c =>
      if negb (has_prefix_t keyPrefix sealed) then inl ErrUnrecognised else
      match Decode (TrimPrefix sealed keyPrefix) with
      | None => inl ErrBase64
      | Some raw =>
          let n := NonceSize c in
          if decide (length raw < n)%nat then inl ErrTooShort else
          match aOpen c (take n raw) (drop n raw) (bytes label) with None => inl ErrDecrypt | Some out => inr (of_bytes out) end
      end
  end.
End sealing.

(** ** The install id *)

Definition id_byte (c : Ascii.ascii) : bool := bool_decide (c ∈ alphabet).

(** [installIDGrammar]: a letter, a digit, a dash or an underscore is a character of
    the base64url alphabet. *)
Definition installIDGrammar (t : text) : bool := (8 <=? length t)%nat && (length t <=? 64)%nat && forallb id_byte t.

Definition id_text (b : list Z) : text := EncodeHex b ++ [char_of 10].

Definition id_of (raw : text) : key_error + text := let id := TrimSpace raw in if installIDGrammar id then inr id else inl ErrNotID.

(** [LoadOrCreateInstallID]; [drawn] is 16 bytes. *)
Definition LoadOrCreateInstallID : start -> key_file -> key_file * (key_error + text) :=
  load_or_mint id_text id_of (fun b => inr (EncodeHex b)).

(** ** The box of the store *)

(** The box that Enroll seals the secrets of lines with; [nonces] is what each call
    draws. *)
Definition box_of (c : AEAD) (nonces : string -> string -> option (list Z)) : Enroll.Box :=
  Enroll.mkBox
    (fun d s => match Seal (Some c) (nonces d s) (T d) (T s) with inl _ => None | inr t => Some (to_string t) end)
    (fun d t => match Open (Some c) (T d) (T t) with inl _ => None | inr s => Some (to_string s) end).

(** ** What was minted reads back *)

Lemma hex_line_trim bs : Forall is_byte bs -> TrimSpace (EncodeHex bs ++ [char_of 10]) = EncodeHex bs.
Proof.
  intros H. apply TrimSpace_snoc; [|done]. pose proof (EncodeHex_no_space bs H) as Hn.
  split; intros c Hc; apply Hn; [by apply head_Some_elem_of | by apply last_Some_elem_of].
Qed.

Definition draws (n : nat) (x : start) : Prop := forall b, drawn x = Some b -> Forall is_byte b /\ length b = n.

Lemma key_reads_back gcm x b : draws keySize x -> drawn x = Some b -> key_of gcm (key_text b) = New gcm b.
Proof. intros Hx Hb. apply Hx in Hb as [Hb _]. unfold key_of, key_text. by rewrite hex_line_trim, DecodeHex_EncodeHex. Qed.

Lemma hex_char_id v : 0 <= v < 16 -> id_byte (hex_char v) = true.
Proof.
  intros Hv. assert (forallb (fun v => id_byte (hex_char v)) (seqZ 0 16) = true) as H by (vm_compute; reflexivity).
  rewrite forallb_forall in H. apply H, list_elem_of_In, elem_of_seqZ. lia.
Qed.

Lemma EncodeHex_id bs : Forall is_byte bs -> Forall (fun c => id_byte c = true) (EncodeHex bs).
Proof.
  induction 1 as [|b bs Hb _ IH]; [constructor|]. unfold is_byte in Hb. cbn [EncodeHex].
  constructor; [|constructor; [|done]]; apply hex_char_id; Z.to_euclidean_division_equations; lia.
Qed.

Lemma grammar_of t : Forall (fun c => id_byte c = true) t -> (8 <= length t <= 64)%nat -> installIDGrammar t = true.
Proof.
  intros H Hl. unfold installIDGrammar. rewrite !andb_true_iff, !Nat.leb_le, forallb_forall. repeat split; try lia.
  intros c Hc. rewrite Forall_forall in H. apply H. by apply list_elem_of_In.
Qed.

Lemma id_reads_back x b : draws 16 x -> drawn x = Some b -> id_of (id_text b) = inr (EncodeHex b).
Proof.
  intros Hx Hb. apply Hx in Hb as [Hb Hl]. unfold id_of, id_text. rewrite hex_line_trim by done. cbv zeta.
  rewrite grammar_of; [done|by apply EncodeHex_id|]. rewrite EncodeHex_length. lia.
Qed.

(** ** What the box opens *)

Section boxes.
Context (c : AEAD) `{!lawful c}.

Lemma keyPrefix_prefix t : has_prefix_t keyPrefix (keyPrefix ++ t) = true /\ TrimPrefix (keyPrefix ++ t) keyPrefix = t.
Proof.
  assert (has_prefix_t keyPrefix (keyPrefix ++ t) = true) as H by (apply has_prefix_t_true; eauto).
  split; [done|]. unfold TrimPrefix. by rewrite H, drop_app_length.
Qed.

(** The box opens, for a label, exactly the texts that are the version and the base64
    of a nonce and of what the cipher seals under that nonce and that label. *)
Lemma Open_exactly label sealed s :
  Open (Some c) label sealed = inr s <->
  exists t n, sealed = keyPrefix ++ t /\ length n = NonceSize c /\ Decode t = Some (n ++ aSeal c n (bytes s) (bytes label)).
Proof.
  unfold Open. split.
  - destruct (has_prefix_t keyPrefix sealed) eqn:Ep; cbn [negb]; [|done]. apply has_prefix_t_true in Ep as [t ->].
    rewrite (proj2 (keyPrefix_prefix t)). destruct (Decode t) as [raw|] eqn:Ed; [|done]. cbv zeta. case_decide as Hl; [done|].
    destruct (aOpen c _ _ _) as [out|] eqn:Eo; [|done]. intros [= <-].
    assert (length (take (NonceSize c) raw) = NonceSize c) as Hn by (rewrite length_take; lia).
    apply aOpen_aSeal in Eo as [Ho He]; [|done]. exists t, (take (NonceSize c) raw). split; [done|]. split; [done|].
    rewrite Ed, bytes_of_bytes, <- He by done. by rewrite take_drop.
  - intros (t&n&->&Hn&Hd). destruct (keyPrefix_prefix t) as [-> ->]. rewrite Hd. cbn [negb]. cbv zeta.
    rewrite length_app. rewrite decide_False by lia. rewrite <- Hn, take_app_length, drop_app_length.
    rewrite (proj2 (aOpen_aSeal n _ _ (bytes s) Hn)); [by rewrite of_bytes_bytes|]. split; [apply bytes_are_bytes | done].
Qed.

Lemma Seal_opens n label s t : length n = NonceSize c -> Forall is_byte n ->
  Seal (Some c) (Some n) label s = inr t -> Open (Some c) label t = inr s.
Proof.
  intros Hn Hb [= <-]. apply Open_exactly. eexists _, n. split; [done|]. split; [done|]. apply Decode_Encode.
  apply Forall_app. split; [done|]. apply aSeal_bytes; [done|apply bytes_are_bytes..].
Qed.

(** What a store needs of its box. *)
Lemma box_of_opens nonces (box : Enroll.Box) (d secret sealed : string) :
  (forall d s n, nonces d s = Some n -> Forall is_byte n /\ length n = NonceSize c) ->
  Some (box_of c nonces) = Some box -> Enroll.Seal box d secret = Some sealed -> Enroll.Open_ box d sealed = Some secret.
Proof.
  intros Hn [= <-]. cbn [box_of Enroll.Seal Enroll.Open_]. destruct (Seal (Some c) (nonces d secret) (T d) (T secret)) as [|t] eqn:E; [done|]. intros [= <-].
  rewrite T_to_string. destruct (nonces d secret) as [n|] eqn:En; [|done]. destruct (Hn _ _ _ En) as [Hb Hl].
  by rewrite (Seal_opens n _ _ _ Hl Hb E), to_string_T.
Qed.
End boxes.

(** ** Across the starts of a server *)

Lemma New_gcm gcm key c : New gcm key = inr c -> gcm key = Some c.
Proof. unfold New. case_decide; [done|]. destruct (gcm key); [|done]. by intros [= ->]. Qed.

Lemma OpenKey_gcm gcm x f f' c : OpenKey gcm x f = (f', inr c) -> exists key, gcm key = Some c.
Proof.
  unfold OpenKey, load_or_mint, key_of. destruct f as [| |raw]; [|done|].
  - destruct (drawn x) as [b|]; [|done]. destruct (fate x) as [| |n|[]]; cbn [written]; try done. intros H. injection H as _ H. apply New_gcm in H. eauto.
  - destruct (DecodeHex _) as [key|]; [|done]. intros H. injection H as _ H. apply New_gcm in H. eauto.
Qed.

Lemma starts_gcm gcm xs : forall f c, inr c ∈ fst (starts key_text (key_of gcm) (New gcm) xs f) -> exists key, gcm key = Some c.
Proof.
  induction xs as [|x xs IH]; intros f c; [intros H; by apply elem_of_nil in H|]. cbn [starts].
  destruct (load_or_mint _ _ _ x f) as [f' r] eqn:E. specialize (IH f' c). destruct (starts _ _ _ xs f') as [rs g]. cbn [fst] in *.
  intros [H|H]%elem_of_cons; [|by apply IH]. subst r. by eapply (OpenKey_gcm gcm x f f').
Qed.

(** C15: a secret survives every restart: over any history of starts of the server,
    whatever failed or was cut short in them, what the box of one start seals for a
    device opens, for that device and with the box of any other start, as the secret it
    was; and it opens for another label only if the cipher seals the two alike. *)
Theorem a_secret_survives_restarts (gcm : list Z -> option AEAD) (xs : list start) (f : key_file) (c c' : AEAD) (n : list Z) (label s t : text) :
  (forall key a, gcm key = Some a -> lawful a) -> Forall (draws keySize) xs ->
  inr c ∈ fst (starts key_text (key_of gcm) (New gcm) xs f) -> inr c' ∈ fst (starts key_text (key_of gcm) (New gcm) xs f) ->
  length n = NonceSize c -> Forall is_byte n -> Seal (Some c) (Some n) label s = inr t ->
  Open (Some c') label t = inr s
  /\ forall label' s', Open (Some c') label' t = inr s' -> aSeal c n (bytes s) (bytes label) = aSeal c n (bytes s') (bytes label').
Proof.
  intros Hg Hx Hc Hc' Hn Hb Hs.
  assert (c' = c) as -> by (symmetry; by apply (minted_once _ _ _ _ (key_reads_back gcm) xs Hx f)).
  destruct (starts_gcm gcm xs f c Hc) as [key Hk]. specialize (Hg key c Hk). split; [by eapply Seal_opens|].
  intros label' s' Ho. apply Open_exactly in Ho as (t'&n'&Ht&Hn'&Hd); [|done]. unfold Seal in Hs.
  assert (keyPrefix ++ Encode (n ++ aSeal c n (bytes s) (bytes label)) = keyPrefix ++ t') as E by congruence. apply app_inv_head in E as <-.
  rewrite Decode_Encode in Hd by (apply Forall_app; split; [done|]; apply aSeal_bytes; [done|apply bytes_are_bytes..]).
  injection Hd as Hd. apply app_inj_1 in Hd as [Hd1 Hd]; [by subst n'|congruence].
Qed.

(** ** A first write cut short *)

Lemma starts_cut {A} render (parse : text -> key_error + A) made x xs b k : drawn x = Some b -> fate x = Short k ->
  starts render parse made (x :: xs) Absent = (inl ErrWrite :: map (fun _ => parse (take k (render b))) xs, Holds (take k (render b))).
Proof. intros Hb Hf. cbn [starts load_or_mint]. rewrite Hb, Hf. cbn [written]. by rewrite starts_settled. Qed.

Lemma hex_cut_trim bs k : Forall is_byte bs -> TrimSpace (take k (EncodeHex bs)) = take k (EncodeHex bs).
Proof.
  intros Hb. apply TrimSpace_fix.
  split; intros a Ha; apply (EncodeHex_no_space bs Hb), (subseteq_take k); [by apply head_Some_elem_of|by apply last_Some_elem_of].
Qed.

Lemma DecodeHex_length t : forall bs, DecodeHex t = Some bs -> length t = (2 * length bs)%nat.
Proof.
  enough (forall m t, (length t <= m)%nat -> forall bs, DecodeHex t = Some bs -> length t = (2 * length bs)%nat) as H by (intros bs; by apply (H (length t))).
  clear t. intros m. induction m as [|m IH]; intros [|a [|b t]] Hm bs; cbn [DecodeHex length] in *; try done; try (by intros [= <-]); [lia|].
  destruct (hex_val a); [|done]. destruct (hex_val b); [|done]. cbn. destruct (DecodeHex t) as [bs'|] eqn:E; [|done]. intros [= <-].
  cbn [length]. rewrite (IH t ltac:(lia) bs' E). lia.
Qed.

(** A key file whose first write was cut short is refused from then on. *)
Lemma a_key_cut_short_is_refused gcm key k : Forall is_byte key -> length key = keySize -> (k < 64)%nat ->
  exists e, key_of gcm (take k (key_text key)) = inl e.
Proof.
  intros Hb Hl Hk. unfold key_text. rewrite take_app_le by (rewrite EncodeHex_length; unfold keySize in *; lia).
  unfold key_of. rewrite hex_cut_trim by done. destruct (DecodeHex _) as [key'|] eqn:E; [|eauto]. unfold New. rewrite decide_True; [eauto|].
  apply DecodeHex_length in E. rewrite length_take, EncodeHex_length in E. unfold keySize in *. lia.
Qed.

(** an install id whose first write was cut short, after eight of its thirty-two
    characters or more, is not a damaged file: the start that wrote it fails, and every
    later one takes the part for the whole. *)
Theorem an_id_cut_short_is_taken (x : start) (xs : list start) (b : list Z) (k : nat) :
  draws 16 x -> drawn x = Some b -> fate x = Short k -> (8 <= k <= 32)%nat ->
  starts id_text id_of (fun b => inr (EncodeHex b)) (x :: xs) Absent
  = (inl ErrWrite :: map (fun _ => inr (take k (EncodeHex b))) xs, Holds (take k (EncodeHex b))).
Proof.
  intros Hx Hb Hf Hk. destruct (Hx b Hb) as [Hby Hl].
  assert (take k (id_text b) = take k (EncodeHex b)) as Ht by (unfold id_text; apply take_app_le; rewrite EncodeHex_length; lia).
  rewrite (starts_cut _ _ _ x xs b k Hb Hf), Ht. f_equal. f_equal. apply map_ext. intros _.
  unfold id_of. rewrite hex_cut_trim by done. cbv zeta. rewrite grammar_of; [done| |rewrite length_take, EncodeHex_length; lia].
  apply Forall_take. by apply EncodeHex_id.
Qed.

(** ** At a concrete cipher *)

(** It seals by appending the data. *)
Definition appending : AEAD := mkAEAD 12 (fun _ p d => p ++ d)
  (fun _ e d => let k := (length e - length d)%nat in
    if decide (drop k e = d /\ Forall is_byte (take k e)) then Some (take k e) else None).

#[export] Instance appending_lawful : lawful appending.
Proof.
  constructor; cbn.
  - intros n p d _ Hp Hd. by apply Forall_app.
  - intros n e d p. case_decide as H; [|done]. intros [= <-]. apply H.
  - intros n e d p _. case_decide as H.
    + split; [intros [= <-]|intros [Hp ->]].
      * split; [apply H|]. rewrite <- (proj1 H) at 2. by rewrite take_drop.
      * f_equal. apply take_app_length'. rewrite length_app. lia.
    + split; [done|]. intros [Hp ->]. exfalso. apply H.
      replace (length (p ++ d) - length d)%nat with (length p) by (rewrite length_app; lia).
      by rewrite drop_app_length, take_app_length.
Qed.

Definition demo_gcm (key : list Z) : option AEAD := Some appending.
Definition demo_start : start := mkStart (Some (replicate 32 7)) (Full true).

Lemma demo_draws v n f : 0 <= v < 256 -> draws n (mkStart (Some (replicate n v)) f).
Proof. intros Hv b [= <-]. split; [by apply Forall_replicate|by rewrite length_replicate]. Qed.

Lemma a_secret_survives_restarts_witness :
  let sealed := keyPrefix ++ Encode (replicate 12 1 ++ bytes (T "secret") ++ bytes (T "phone")) in
  Open (Some appending) (T "phone") sealed = inr (T "secret")
  /\ forall label' s', Open (Some appending) label' sealed = inr s' ->
       aSeal appending (replicate 12 1) (bytes (T "secret")) (bytes (T "phone")) = aSeal appending (replicate 12 1) (bytes s') (bytes label').
Proof.
  apply (a_secret_survives_restarts demo_gcm [demo_start; demo_start] Absent).
  - intros key a [= <-]. apply appending_lawful.
  - apply Forall_cons; split; [|apply Forall_singleton]; apply demo_draws; lia.
  - left.
  - left.
  - reflexivity.
  - apply Forall_replicate. unfold is_byte. lia.
  - reflexivity.
Defined.

Lemma an_id_cut_short_is_taken_witness :
  starts id_text id_of (fun b => inr (EncodeHex b)) [mkStart (Some (replicate 16 171)) (Short 9); demo_start] Absent
  = ([inl ErrWrite; inr (T "ababababa")], Holds (T "ababababa")).
Proof.
  apply (an_id_cut_short_is_taken (mkStart (Some (replicate 16 171)) (Short 9)) [demo_start] (replicate 16 171) 9);
    [apply demo_draws; lia|reflexivity|reflexivity|lia].
Defined.
