(* ===== verification/LicenceApi.v ===== *)
(** The licence resource of the admin API (src/server/internal/licence/handler.go):
    GET, PUT and POST of /v1/admin/licence over the manager of Licence and the front
    door of Admin.

    A body is what reading it gave: the refusal of the strict decoder, within
    [bodyLimit], or the token.  The clock is read by Install and again by the summary
    of its answer; a summary's seats in use are an argument. *)

From S2P Require Import Prelude Text Admin.
From S2P Require Import Licence.
Open Scope Z_scope.

Definition bodyLimit : Z := MaxLen + 256.

Inductive request := Get | Put (body : answer + text).

Definition reply : Type := answer * option Summary.

(** What a refusal is told as: the sentinel's own words are dropped in favour of the
    detail, except where the detail would say nothing. *)
Inductive reason_text := NotAToken | BadSignature | BadPayload | Detail.

Definition reason (e : err) : reason_text :=
  match e with ErrFormat => NotAToken | ErrSignature => BadSignature | ErrPayload => BadPayload | _ => Detail end.

(** The errors of Install that are the operator's: the others are the store's. *)
Definition refusal (e : err) : bool :=
  match e with ErrFormat | ErrSignature | ErrPayload | ErrWrongInstall | ErrExpired => true | _ => false end.

Section handling.
Context (json_decode : list Z -> option (Licence * bool)) (verify_sig : list Z -> text -> list Z -> bool) (PublicKey : list Z) (adminToken : text).

(** The whole handler: [now] and [later] are the clock of Install and of the summary,
    [used] the seats in use, and [stored] whether the file could be written. *)
Definition handle (authorization : text) (req : request) (now later used : Z) (stored : bool) (m : Manager) : Manager * reply :=
  match Admin.Bearer adminToken authorization with
  | Some a => (m, (a, None))
  | None =>
      match req with
      | Get => (m, (done_with 200, Some (Summarise m used later)))
      | Put (inl a) => (m, (a, None))
      | Put (inr tok) =>
          if decide (TrimSpace tok = []) then (m, (WriteFieldError 400 "missing" "licence", None)) else
          match Install json_decode verify_sig PublicKey tok now stored m with
          | (m, None) => (m, (done_with 200, Some (Summarise m used later)))
          | (m, Some e) => (m, (if refusal e then WriteFieldError 400 "invalid" "licence" else StoreError, None))
          end
      end
  end.

(** What Install refuses, and why. *)
Definition refused (tok : text) (now : Z) (m : Manager) : option err :=
  match verify json_decode verify_sig PublicKey (installID m) (TrimSpace tok) with
  | inl e => Some e
  | inr l => Check l (installID m) now
  end.

Lemma Parse_refusal tok e : Parse json_decode verify_sig PublicKey tok = inl e -> refusal e = true.
Proof.
  unfold Parse. case_decide; [by intros [= <-]|]. destruct (negb _); [by intros [= <-]|].
  destruct (Split _ _) as [|p [|s [|]]]; try by intros [= <-]. case_decide; [by intros [= <-]|].
  destruct (Base64.Decode p); [|by intros [= <-]]. destruct (Base64.Decode s); [|by intros [= <-]].
  case_decide; [by intros [= <-]|]. case_decide; [by intros [= <-]|]. destruct (negb _); [by intros [= <-]|].
  destruct (json_decode _) as [[lc [|]]|]; try by intros [= <-]. destruct (validate lc) eqn:Ev; [|done]. intros [= <-].
  unfold validate in Ev. repeat case_decide; try by injection Ev as <-. destruct (_ || _); [by injection Ev as <-|].
  destruct (negb _); [by injection Ev as <-|done].
Qed.

Lemma refused_refusal tok now m e : refused tok now m = Some e -> refusal e = true.
Proof.
  unfold refused, verify. destruct (Parse _ _ _ _) as [e'|l] eqn:Ep; [intros [= <-]; by apply Parse_refusal in Ep|].
  case_decide; [by intros [= <-]|]. unfold Check. case_decide; [by intros [= <-]|]. destruct (negb _); [by intros [= <-]|done].
Qed.

(** a PUT of a licence that is not blank, with the operator's token, takes effect exactly when it is
    answered 200.  It is answered 400, on the field of the token, exactly when the token
    is not a licence the vendor signed, is another server's, or has expired,
    whatever the state of the disk; 500 exactly when it is none of these, is not the
    token in force, and cannot be written.  A refused one leaves the manager and its file
    as they were, and after a 200 the summary shown and the token in force are the
    licence sent. *)
Theorem a_licence_put_is_applied_or_refused (req_token tok : text) (now later used : Z) (stored : bool) (m : Manager) :
  adminToken <> [] -> BearerMatches req_token adminToken = true -> TrimSpace tok <> [] ->
  let '(m', (a, shown)) := handle req_token (Put (inr tok)) now later used stored m in
  (refused tok now m <> None /\ a = WriteFieldError 400 "invalid" "licence" /\ m' = m /\ shown = None)
  \/ (refused tok now m = None /\ TrimSpace tok <> token m /\ stored = false /\ a = StoreError /\ m' = m /\ shown = None)
  \/ (refused tok now m = None /\ (stored = true \/ TrimSpace tok = token m) /\ a = done_with 200
      /\ token m' = TrimSpace tok /\ shown = Some (Summarise m' used later)
      /\ (TrimSpace tok <> token m -> exists l, lic m' = Some l /\ verify json_decode verify_sig PublicKey (installID m) (TrimSpace tok) = inr l
                                      /\ file m' = Some (TrimSpace tok ++ [ascii_of_N 10]))
      /\ (TrimSpace tok = token m -> m' = m)).
Proof.
  intros Ht Hb Hne. unfold handle, Bearer. rewrite decide_False by done. rewrite Hb. cbn [negb]. rewrite decide_False by done.
  pose proof (refused_refusal tok now m) as Hr. unfold refused in *. unfold Install, install_store.
  destruct (verify _ _ _ _ _) as [e|l] eqn:Ev.
  { left. specialize (Hr e eq_refl). rewrite Hr. done. }
  destruct (Check l _ now) as [e|] eqn:Ec.
  { left. specialize (Hr e eq_refl). rewrite Hr. done. }
  destruct (decide (TrimSpace tok = token m)) as [Et|Et].
  { right. right. do 5 (split; [by auto|]). by split. }
  destruct stored; cbn [negb]; [|by right; left].
  match goal with |- context [fire now ?x] => set (m1 := x) end.
  pose proof (fire_frame json_decode verify_sig PublicKey now m1) as [Hf _]. unfold installed in Hf. injection Hf as _ Hft Hfl Hff.
  right. right. split; [done|]. split; [by left|]. split; [done|].
  split; [by rewrite Hft|]. split; [done|]. split; [|done]. intros _. exists l. rewrite Hfl, Hff. done.
Qed.
End handling.

(** ** At a concrete licence *)

Definition demo_manager : Manager := Open demo_json (fun _ _ _ => true) demo_key (T "srv") NotExist 50.
Definition demo_put (tok : text) (stored : bool) : Manager * reply :=
  handle demo_json (fun _ _ _ => true) demo_key (T "secret") (T "Bearer secret") (Put (inr tok)) 60 70 3 stored demo_manager.

Lemma a_licence_put_is_applied_or_refused_witness :
  let '(m', (a, shown)) := demo_put (demo_token 7) true in
  (refused demo_json (fun _ _ _ => true) demo_key (demo_token 7) 60 demo_manager <> None /\ a = WriteFieldError 400 "invalid" "licence" /\ m' = demo_manager /\ shown = None)
  \/ (refused demo_json (fun _ _ _ => true) demo_key (demo_token 7) 60 demo_manager = None /\ TrimSpace (demo_token 7) <> token demo_manager /\ true = false /\ a = StoreError /\ m' = demo_manager /\ shown = None)
  \/ (refused demo_json (fun _ _ _ => true) demo_key (demo_token 7) 60 demo_manager = None /\ (true = true \/ TrimSpace (demo_token 7) = token demo_manager) /\ a = done_with 200
      /\ token m' = TrimSpace (demo_token 7) /\ shown = Some (Summarise m' 3 70)
      /\ (TrimSpace (demo_token 7) <> token demo_manager -> exists l, lic m' = Some l
            /\ verify demo_json (fun _ _ _ => true) demo_key (installID demo_manager) (TrimSpace (demo_token 7)) = inr l
            /\ file m' = Some (TrimSpace (demo_token 7) ++ [ascii_of_N 10]))
      /\ (TrimSpace (demo_token 7) = token demo_manager -> m' = demo_manager)).
Proof.
  apply (a_licence_put_is_applied_or_refused demo_json (fun _ _ _ => true) demo_key (T "secret") (T "Bearer secret") (demo_token 7) 60 70 3 true demo_manager).
  - discriminate.
  - reflexivity.
  - vm_compute. discriminate.
Defined.

(** An altered one, and one that cannot be written. *)
Example put_answers :
  map (fun x => fst (snd x)) [demo_put (demo_token 7) true; demo_put (demo_token 7) false; demo_put (T "DP1.x") true; demo_put (T "  ") true]
  = [done_with 200; StoreError; WriteFieldError 400 "invalid" "licence"; WriteFieldError 400 "missing" "licence"].
Proof. vm_compute. reflexivity. Qed.
