(* ===== verification/AdminApi.v ===== *)
(** The two HTTP listeners of the server as main.go puts them together
    (src/server/cmd/dialpark-server/main.go, with the route tables of
    src/server/internal/enroll/admin_handler.go and handler.go,
    src/server/internal/directory/handler.go, src/server/internal/diag/admin.go,
    src/server/internal/loglevel/loglevel.go, src/server/internal/status/status.go and
    src/server/internal/licence/handler.go): which handler a request reaches.

    - A path is its segments, cleaned and decoded, the last one empty after a final
      slash.
    - What the handlers do is in Server, DirApi, Diag, Events, LogLevel, Status and
      LicenceApi; the rate limit and the cap of the chain are in FrontDoor. *)

From S2P Require Import Prelude Text Admin.
Open Scope string_scope.

(** ** http.ServeMux *)

Inductive seg := L (s : string) | W | Rest.

(** A route, with the empty method for one of any method. *)
Record pattern := mkPattern { p_method : string; p_segs : list seg }.

(** A wildcard takes one segment that is not empty, a subtree all that follows its
    slash. *)
Fixpoint fits (ps : list seg) (ss : list string) : bool :=
  match ps, ss with
  | [], [] => true
  | Rest :: _, _ :: _ => true
  | L p :: ps, s :: ss => String.eqb p s && fits ps ss
  | W :: ps, s :: ss => negb (String.eqb "" s) && fits ps ss
  | _, _ => false
  end.

(** The more specific of two routes that fit a path. *)
Fixpoint more_specific (ps qs : list seg) : bool :=
  match ps, qs with
  | L _ :: ps, L _ :: qs | W :: ps, W :: qs => more_specific ps qs
  | L _ :: _, _ :: _ | W :: _, Rest :: _ => true
  | _, _ => false
  end.

Section mux.
Context {H : Type}.

Definition better (r : pattern * H) (best : option (pattern * H)) : option (pattern * H) :=
  match best with None => Some r | Some b => if more_specific (p_segs (fst r)) (p_segs (fst b)) then Some r else best end.

Definition by_method (m : string) (ss : list string) (table : list (pattern * H)) : option H :=
  snd <$> foldr better None (List.filter (fun r => String.eqb (p_method (fst r)) m && fits (p_segs (fst r)) ss) table).

(** The method's own routes, those of GET for HEAD, those of any method. *)
Definition find_route (m : string) (ss : list string) (table : list (pattern * H)) : option H :=
  match by_method m ss table with
  | Some h => Some h
  | None =>
      match (if String.eqb "HEAD" m then by_method "GET" ss table else None) with
      | Some h => Some h
      | None => by_method "" ss table
      end
  end.

Inductive routed := Found (h : H) | NotAllowed | Missing.

Definition route (m : string) (ss : list string) (table : list (pattern * H)) : routed :=
  match find_route m ss table with
  | Some h => Found h
  | None => if existsb (fun r => fits (p_segs (fst r)) ss) table then NotAllowed else Missing
  end.
End mux.
Arguments routed : clear implicits.

(** ** The routes *)

Inductive endpoint :=
  | Healthz | Whoami
  | GetServer | GetStatus | GetCalls | GetEvents | GetLog | PutLog | GetLicence | InstallLicence
  | ListDevices | PostDevice | GetDevice | PatchDevice | DeleteDevice | PostCode | DeleteCode
  | GetConfig | SetConfig | GetLine | SetLine | DeleteLine
  | GetBook | PutBook | PostContact | PutContact | DeleteContact
  | ListDiag | GetDiag | DeleteDiag | DeleteAllDiag
  (* of a device *)
  | Enrol | SyncBook | AddContact | EditContact | RemoveContact | Upload.

#[export] Instance endpoint_eq_dec : EqDecision endpoint.
Proof. solve_decision. Defined.

Definition at_ (m : string) (ss : list seg) {H} (h : H) : pattern * H := (mkPattern m ss, h).

Definition v1 (ss : list seg) : list seg := L "v1" :: ss.
Definition v1_admin (ss : list seg) : list seg := L "v1" :: L "admin" :: ss.
Definition devices (ss : list seg) : list seg := v1_admin (L "devices" :: ss).

(** The tables of the components' own muxes. *)
Definition enroll_mux : list (pattern * endpoint) := [
  at_ "POST" (devices []) PostDevice; at_ "GET" (devices []) ListDevices;
  at_ "DELETE" (devices [W]) DeleteDevice; at_ "GET" (devices [W]) GetDevice; at_ "PATCH" (devices [W]) PatchDevice;
  at_ "DELETE" (devices [W; L "enrol-code"]) DeleteCode; at_ "POST" (devices [W; L "enrol-code"]) PostCode;
  at_ "GET" (devices [W; L "config"]) GetConfig; at_ "PUT" (devices [W; L "config"]) SetConfig; at_ "POST" (devices [W; L "config"]) SetConfig;
  at_ "GET" (devices [W; L "pbx-line"]) GetLine; at_ "PUT" (devices [W; L "pbx-line"]) SetLine; at_ "POST" (devices [W; L "pbx-line"]) SetLine;
  at_ "DELETE" (devices [W; L "pbx-line"]) DeleteLine].

Definition directory_mux : list (pattern * endpoint) := [
  at_ "GET" (devices [W; L "directory"]) GetBook; at_ "PUT" (devices [W; L "directory"]) PutBook; at_ "POST" (devices [W; L "directory"]) PostContact;
  at_ "PUT" (devices [W; L "directory"; W]) PutContact; at_ "DELETE" (devices [W; L "directory"; W]) DeleteContact].

Definition diag_mux : list (pattern * endpoint) := [
  at_ "GET" (devices [W; L "diag"]) ListDiag; at_ "GET" (devices [W; L "diag"; W]) GetDiag;
  at_ "DELETE" (devices [W; L "diag"; W]) DeleteDiag; at_ "DELETE" (devices [W; L "diag"]) DeleteAllDiag].

Definition log_mux : list (pattern * endpoint) := [at_ "GET" (v1_admin [L "log"]) GetLog; at_ "PUT" (v1_admin [L "log"]) PutLog].

Definition status_mux : list (pattern * endpoint) := [
  at_ "GET" (v1_admin [L "status"]) GetStatus; at_ "GET" (v1_admin [L "server"]) GetServer; at_ "GET" (v1_admin [L "calls"]) GetCalls].

Definition licence_mux : list (pattern * endpoint) := [
  at_ "GET" (v1_admin [L "licence"]) GetLicence; at_ "PUT" (v1_admin [L "licence"]) InstallLicence; at_ "POST" (v1_admin [L "licence"]) InstallLicence].

(** What is mounted: a mux, a handler of any method, or one that takes its method only. *)
Inductive mount := Mux (table : list (pattern * endpoint)) | Any (e : endpoint) | Only (m : string) (e : endpoint).

(** [adminAPI]. *)
Definition adminAPI : list (pattern * mount) := [
  at_ "" (devices [W; L "directory"]) (Mux directory_mux); at_ "" (devices [W; L "directory"; W]) (Mux directory_mux);
  at_ "GET" (v1_admin [L "whoami"]) (Any Whoami);
  at_ "" (devices [W; L "diag"]) (Mux diag_mux); at_ "" (devices [W; L "diag"; W]) (Mux diag_mux);
  at_ "GET" (v1_admin [L "events"]) (Only "GET" GetEvents);
  at_ "GET" (v1_admin [L "log"]) (Mux log_mux); at_ "PUT" (v1_admin [L "log"]) (Mux log_mux);
  at_ "GET" (v1_admin [L "status"]) (Mux status_mux);
  at_ "GET" (v1_admin [L "licence"]) (Mux licence_mux); at_ "PUT" (v1_admin [L "licence"]) (Mux licence_mux); at_ "POST" (v1_admin [L "licence"]) (Mux licence_mux);
  at_ "GET" (v1_admin [L "server"]) (Mux status_mux); at_ "GET" (v1_admin [L "calls"]) (Mux status_mux);
  at_ "" (v1_admin [Rest]) (Mux enroll_mux)].

Definition directory_device_mux : list (pattern * endpoint) := [
  at_ "GET" (v1 [L "directory"]) SyncBook; at_ "POST" (v1 [L "directory"]) AddContact;
  at_ "PUT" (v1 [L "directory"; W]) EditContact; at_ "DELETE" (v1 [L "directory"; W]) RemoveContact].

(** [mux], the device listener. *)
Definition deviceAPI : list (pattern * mount) := [
  at_ "" (v1 [L "directory"]) (Mux directory_device_mux); at_ "" (v1 [L "directory"; Rest]) (Mux directory_device_mux);
  at_ "" (v1 [L "diag"]) (Only "POST" Upload);
  at_ "POST" (v1 [L "enrol"]) (Any Enrol); at_ "GET" [L "healthz"] (Any Healthz)].

Definition into (m : string) (ss : list string) (r : routed mount) : routed endpoint :=
  match r with
  | Found (Mux table) => route m ss table
  | Found (Any e) => Found e
  | Found (Only m' e) => if String.eqb m' m then Found e else NotAllowed
  | NotAllowed => NotAllowed
  | Missing => Missing
  end.

(** ** The listeners *)

(** A plain 404 or 405 of a mux, and the envelope [JSONErrors] makes of it; a path that
    lacks only the slash of a subtree is sent there. *)
Inductive outcome := Runs (e : endpoint) | Answers (a : answer) | Plain (status : Z) | Redirects.

Definition JSONErrors (r : routed endpoint) : outcome :=
  match r with Found e => Runs e | NotAllowed => Answers (WriteError 405 "method_not_allowed") | Missing => Answers NotFound end.

Definition plain (r : routed endpoint) : outcome :=
  match r with Found e => Runs e | NotAllowed => Plain 405 | Missing => Plain 404 end.

Definition device_request (m : string) (ss : list string) : outcome := plain (into m ss (route m ss deviceAPI)).

Inductive root := Live | Guarded.

(** [adminRoot]. *)
Definition adminRoot : list (pattern * root) := [at_ "GET" [L "healthz"] Live; at_ "" (v1_admin [Rest]) Guarded].

(** What is behind the rate limit of the chain, which FrontDoor has: the guard, and
    the muxes behind it. *)
Definition admin_request (adminToken authorization : text) (m : string) (ss : list string) : outcome :=
  match route m ss adminRoot with
  | Found Live => Runs Healthz
  | Found Guarded =>
      match Bearer adminToken authorization with
      | Some a => Answers a
      | None => JSONErrors (into m ss (route m ss adminAPI))
      end
  | NotAllowed => Plain 405
  | Missing => if decide (ss = ["v1"; "admin"]) then Redirects else Plain 404
  end.

(** ** The table the API documents (protocol/ADMIN-API.md, 5.12) *)

Definition documented : list (pattern * endpoint) := [
  at_ "GET" [L "healthz"] Healthz; at_ "GET" (v1_admin [L "whoami"]) Whoami; at_ "GET" (v1_admin [L "server"]) GetServer;
  at_ "GET" (v1_admin [L "status"]) GetStatus; at_ "GET" (v1_admin [L "events"]) GetEvents;
  at_ "GET" (v1_admin [L "log"]) GetLog; at_ "PUT" (v1_admin [L "log"]) PutLog; at_ "GET" (v1_admin [L "calls"]) GetCalls;
  at_ "GET" (devices []) ListDevices; at_ "POST" (devices []) PostDevice;
  at_ "GET" (devices [W]) GetDevice; at_ "PATCH" (devices [W]) PatchDevice; at_ "DELETE" (devices [W]) DeleteDevice;
  at_ "POST" (devices [W; L "enrol-code"]) PostCode; at_ "DELETE" (devices [W; L "enrol-code"]) DeleteCode;
  at_ "GET" (devices [W; L "config"]) GetConfig; at_ "PUT" (devices [W; L "config"]) SetConfig; at_ "POST" (devices [W; L "config"]) SetConfig;
  at_ "GET" (devices [W; L "pbx-line"]) GetLine; at_ "PUT" (devices [W; L "pbx-line"]) SetLine; at_ "POST" (devices [W; L "pbx-line"]) SetLine;
  at_ "DELETE" (devices [W; L "pbx-line"]) DeleteLine;
  at_ "GET" (devices [W; L "directory"]) GetBook; at_ "PUT" (devices [W; L "directory"]) PutBook; at_ "POST" (devices [W; L "directory"]) PostContact;
  at_ "PUT" (devices [W; L "directory"; W]) PutContact; at_ "DELETE" (devices [W; L "directory"; W]) DeleteContact;
  at_ "GET" (v1_admin [L "licence"]) GetLicence; at_ "PUT" (v1_admin [L "licence"]) InstallLicence; at_ "POST" (v1_admin [L "licence"]) InstallLicence;
  at_ "GET" (devices [W; L "diag"]) ListDiag; at_ "DELETE" (devices [W; L "diag"]) DeleteAllDiag;
  at_ "GET" (devices [W; L "diag"; W]) GetDiag; at_ "DELETE" (devices [W; L "diag"; W]) DeleteDiag].

(** A route of GET answers HEAD too, except that of the events, which looks again. *)
Definition method_serves (pat m : string) (e : endpoint) : bool :=
  String.eqb pat m || (String.eqb pat "GET" && String.eqb "HEAD" m && negb (bool_decide (e = GetEvents))).

Definition documents (m : string) (ss : list string) (e : endpoint) : bool :=
  existsb (fun r => bool_decide (snd r = e) && method_serves (p_method (fst r)) m e && fits (p_segs (fst r)) ss) documented.

(** ** Every path, by a finite number of them

    What a segment is compared with at its place, or nothing where there are wildcards;
    anything else stands for itself only by not being empty, and what follows it where
    it is compared, or follows the places listed, does not matter. *)
Definition words : list (list string) :=
  [["v1"; "healthz"]; ["admin"]; ["devices"; "whoami"; "server"; "status"; "events"; "log"; "calls"; "licence"]; [];
   ["enrol-code"; "config"; "pbx-line"; "directory"; "diag"]; []].

Definition stand_in (ws : list string) (s : string) : string := if existsb (String.eqb s) ws then s else if String.eqb "" s then "" else "*".

Definition ends (ws : list string) (s : string) : bool := match ws with [] => false | _ => negb (existsb (String.eqb s) ws) end.

Fixpoint reduced (ws : list (list string)) (ss : list string) : list string :=
  match ws, ss with
  | _, [] => []
  | [], _ :: _ => ["*"]
  | w :: ws, s :: ss => stand_in w s :: if ends w s then [] else reduced ws ss
  end.

(** The literals of a route are among the words of their places. *)
Fixpoint worded (ws : list (list string)) (ps : list seg) : bool :=
  match ps, ws with
  | [], _ => true
  | Rest :: _, _ => true
  | L p :: ps, w :: ws => existsb (String.eqb p) w && negb (String.eqb "*" p) && worded ws ps
  | W :: ps, [] :: ws => worded ws ps
  | W :: _, (_ :: _) :: _ => false
  | _ :: _, [] => false
  end.

Lemma stand_in_literal ws p s : existsb (String.eqb p) ws = true -> String.eqb "*" p = false -> String.eqb "" p = false \/ s <> "" ->
  String.eqb p (stand_in ws s) = String.eqb p s.
Proof.
  intros Hp Hstar Hne. unfold stand_in. destruct (existsb (String.eqb s) ws) eqn:Es; [done|].
  assert (String.eqb p s = false) as ->.
  { destruct (String.eqb_spec p s) as [->|]; [congruence|done]. }
  destruct (String.eqb_spec "" s) as [<-|]; [|by rewrite String.eqb_sym]. destruct Hne as [Hne|]; [by rewrite String.eqb_sym|done].
Qed.

Lemma stand_in_empty ws s : existsb (String.eqb "") ws = false -> String.eqb "" (stand_in ws s) = String.eqb "" s.
Proof.
  intros He. unfold stand_in. destruct (existsb (String.eqb s) ws) eqn:Es; [done|]. by destruct (String.eqb "" s).
Qed.

Lemma fits_reduced ps : forall ws ss, worded ws ps = true -> forallb (fun w => negb (existsb (String.eqb "") w)) ws = true ->
  fits ps (reduced ws ss) = fits ps ss.
Proof.
  induction ps as [|p ps IH]; intros [|w ws] [|s ss] Hw He; try done; cbn [forallb] in He; try apply andb_true_iff in He as [Hn He].
  - destruct p; done.
  - apply negb_true_iff in Hn. destruct p as [p| |]; [| |done]; cbn [reduced fits worded] in *.
    + apply andb_true_iff in Hw as [[Hp Hs]%andb_true_iff Hw]. apply negb_true_iff in Hs. rewrite stand_in_literal; [|done|done|left; destruct (String.eqb_spec "" p) as [<-|]; [congruence|done]].
      destruct (ends w s) eqn:E; [|by rewrite IH]. destruct (String.eqb_spec p s) as [->|]; [|done]. destruct w; [done|]. cbn [ends] in E. by rewrite Hp in E.
    + destruct w; [|done]. cbn [ends]. rewrite stand_in_empty by done. by rewrite IH.
Qed.

Definition places_ok : bool := forallb (fun w => negb (existsb (String.eqb "") w)) words.

Section reduction.
Context {H : Type} (table : list (pattern * H)).
Context (Hworded : forallb (fun r => worded words (p_segs (fst r))) table = true).

Lemma fits_reduced_in r ss : r ∈ table -> fits (p_segs (fst r)) (reduced words ss) = fits (p_segs (fst r)) ss.
Proof.
  intros Hr. apply fits_reduced; [|by vm_compute]. rewrite forallb_forall in Hworded. by apply Hworded, list_elem_of_In.
Qed.

Lemma by_method_reduced m ss : by_method m (reduced words ss) table = by_method m ss table.
Proof.
  unfold by_method. do 2 f_equal. apply List.filter_ext_in. intros r Hr. apply list_elem_of_In in Hr. by rewrite fits_reduced_in.
Qed.

Lemma route_reduced m ss : route m (reduced words ss) table = route m ss table.
Proof.
  unfold route, find_route. rewrite !by_method_reduced.
  replace (existsb (fun r => fits (p_segs (fst r)) (reduced words ss)) table) with (existsb (fun r => fits (p_segs (fst r)) ss) table); [done|].
  apply eq_true_iff_eq. rewrite !existsb_exists.
  split; intros (r&Hr&Hf); exists r; (split; [done|]); apply list_elem_of_In in Hr; [by rewrite fits_reduced_in|by rewrite <- fits_reduced_in].
Qed.
End reduction.

(** A method that no route names is as good as any other. *)
Definition methods : list string := ["GET"; "HEAD"; "POST"; "PUT"; "PATCH"; "DELETE"].
Definition method_of (m : string) : string := if existsb (String.eqb m) methods then m else "*".

Lemma method_of_eqb p m : existsb (String.eqb p) methods = true \/ p = "" -> m <> "" -> String.eqb p (method_of m) = String.eqb p m.
Proof.
  intros Hp Hm. unfold method_of. destruct (existsb (String.eqb m) methods) eqn:Em; [done|].
  assert (String.eqb p m = false) as ->.
  { destruct (String.eqb_spec p m) as [->|]; [|done]. destruct Hp; congruence. }
  destruct (String.eqb_spec p "*") as [->|]; [|done]. by destruct Hp as [Hp|Hp].
Qed.

Section methods_.
Context {H : Type} (table : list (pattern * H)).
Context (Hknown : forallb (fun r => existsb (String.eqb (p_method (fst r))) methods || String.eqb (p_method (fst r)) "") table = true).

Lemma by_method_known p m ss : m <> "" -> existsb (String.eqb p) methods = true \/ p = "" \/ p = m ->
  by_method (if String.eqb p m then method_of m else p) ss table = by_method p ss table.
Proof.
  intros Hm Hp. destruct (String.eqb_spec p m) as [->|]; [|done]. unfold by_method. do 2 f_equal. apply List.filter_ext_in.
  intros r Hr. f_equal. rewrite forallb_forall in Hknown. specialize (Hknown r Hr). apply method_of_eqb; [|done].
  apply orb_true_iff in Hknown as [Hk|Hk]; [by left|right]. by destruct (String.eqb_spec (p_method (fst r)) "").
Qed.

Lemma route_method m ss : m <> "" -> route (method_of m) ss table = route m ss table.
Proof.
  intros Hm. unfold route, find_route.
  assert (by_method (method_of m) ss table = by_method m ss table) as ->.
  { rewrite <- (by_method_known m m ss Hm) by auto. by rewrite String.eqb_refl. }
  by rewrite (method_of_eqb "HEAD" m) by auto.
Qed.
End methods_.

(** Where a request with the token goes. *)
Definition reach (m : string) (ss : list string) : routed endpoint :=
  match route m ss adminRoot with
  | Found Live => Found Healthz
  | Found Guarded => into m ss (route m ss adminAPI)
  | NotAllowed => NotAllowed
  | Missing => Missing
  end.

Definition tables_ok : bool :=
  let ok {H} (t : list (pattern * H)) := forallb (fun r => worded words (p_segs (fst r)) &&
    (existsb (String.eqb (p_method (fst r))) methods || String.eqb (p_method (fst r)) "")) t in
  ok adminRoot && ok adminAPI && ok documented
  && forallb (fun r => match snd r with Mux t => ok t | Any _ => true | Only m _ => existsb (String.eqb m) methods end) adminAPI.

Lemma route_stands {H} (t : list (pattern * H)) m ss : m <> "" ->
  forallb (fun r => worded words (p_segs (fst r)) && (existsb (String.eqb (p_method (fst r))) methods || String.eqb (p_method (fst r)) "")) t = true ->
  route (method_of m) (reduced words ss) t = route m ss t.
Proof.
  intros Hm Ht.
  assert (forallb (fun r => worded words (p_segs (fst r))) t = true /\
          forallb (fun r => existsb (String.eqb (p_method (fst r))) methods || String.eqb (p_method (fst r)) "") t = true) as [H1 H2].
  { rewrite !forallb_forall in *. split; intros r Hr; by apply Ht in Hr as [? ?]%andb_true_iff. }
  rewrite route_method by done. by apply route_reduced.
Qed.

Lemma route_found {H} (t : list (pattern * H)) m ss h : route m ss t = Found h -> exists p, (p, h) ∈ t.
Proof.
  assert (forall m' h, by_method m' ss t = Some h -> exists p, (p, h) ∈ t) as Hb.
  { intros m' h'. unfold by_method. set (l := List.filter _ t). assert (forall r, r ∈ l -> r ∈ t) as Hl.
    { intros r Hr. apply list_elem_of_In, List.filter_In in Hr as [Hr _]. by apply list_elem_of_In. }
    clearbody l. intros Hf. assert (exists r, foldr better None l = Some r /\ snd r = h') as (r&Hr&<-).
    { destruct (foldr better None l) as [r|]; [|done]. injection Hf as <-. eauto. }
    clear Hf. revert r Hr. induction l as [|x l IH]; intros r Hr; [done|]. cbn [foldr] in Hr. unfold better at 1 in Hr.
    destruct (foldr better None l) as [b|]; [destruct (more_specific _ _)|]; injection Hr as <-.
    - exists (fst x). destruct x. apply Hl. by left.
    - apply IH; [|done]. intros r Hr. apply Hl. by right.
    - exists (fst x). destruct x. apply Hl. by left. }
  unfold route, find_route. destruct (by_method m ss t) eqn:E1; [intros [= <-]; by eapply Hb|].
  destruct (String.eqb "HEAD" m); [destruct (by_method "GET" ss t) eqn:E2; [intros [= <-]; by eapply Hb|]|];
    destruct (by_method "" ss t) eqn:E3; try (intros [= <-]; by eapply Hb); by destruct (existsb _ _).
Qed.

Lemma reach_stands m ss : m <> "" -> reach (method_of m) (reduced words ss) = reach m ss.
Proof.
  intros Hm. assert (tables_ok = true) as Hok by (vm_compute; reflexivity).
  unfold tables_ok in Hok. apply andb_true_iff in Hok as [[[H1 H2]%andb_true_iff _]%andb_true_iff H4].
  unfold reach. rewrite route_stands by done. rewrite route_stands by done. destruct (route m ss adminRoot) as [[|]| |]; try done.
  destruct (route m ss adminAPI) as [mt| |] eqn:E; try done. apply route_found in E as [p Hp]. rewrite forallb_forall in H4.
  specialize (H4 (p, mt) ltac:(by apply list_elem_of_In)). cbn [snd] in H4. destruct mt as [t| |m' e]; cbn [into]; [by apply route_stands|done|].
  by rewrite method_of_eqb by auto.
Qed.

Lemma documents_stands m ss e : m <> "" -> documents (method_of m) (reduced words ss) e = documents m ss e.
Proof.
  intros Hm. assert (tables_ok = true) as Hok by (vm_compute; reflexivity).
  unfold tables_ok in Hok. apply andb_true_iff in Hok as [[_ H3]%andb_true_iff _]. rewrite forallb_forall in H3.
  assert (forall r, r ∈ documented -> method_serves (p_method (fst r)) (method_of m) e = method_serves (p_method (fst r)) m e
    /\ fits (p_segs (fst r)) (reduced words ss) = fits (p_segs (fst r)) ss) as H.
  { intros r Hr. apply list_elem_of_In, H3 in Hr. cbv beta in Hr. apply andb_true_iff in Hr as [Hw Hk]. split; [|by apply fits_reduced].
    unfold method_serves. rewrite (method_of_eqb "HEAD" m) by auto. f_equal. apply method_of_eqb; [|done].
    apply orb_true_iff in Hk as [Hk|Hk]; [by left|right]. by destruct (String.eqb_spec (p_method (fst r)) ""). }
  unfold documents. apply eq_true_iff_eq. rewrite !existsb_exists.
  split; intros (r&Hr&Hf); exists r; (split; [done|]); apply list_elem_of_In in Hr; destruct (H r Hr) as [E1 E2]; [by rewrite <- E1, <- E2|by rewrite E1, E2].
Qed.

(** Every list of stand-ins. *)
Fixpoint stand_ins (ws : list (list string)) : list (list string) :=
  match ws with
  | [] => [[]; ["*"]]
  | [] :: ws => [] :: flat_map (fun s => map (cons s) (stand_ins ws)) ["*"; ""]
  | w :: ws => [] :: ["*"] :: [""] :: flat_map (fun s => map (cons s) (stand_ins ws)) w
  end.

Lemma stand_in_cases w s : existsb (String.eqb s) w = true /\ stand_in w s = s \/ existsb (String.eqb s) w = false /\ (stand_in w s = "*" \/ stand_in w s = "").
Proof. unfold stand_in. destruct (existsb (String.eqb s) w); [by left|right]. destruct (String.eqb "" s); auto. Qed.

Lemma reduced_in ws : forall ss, reduced ws ss ∈ stand_ins ws.
Proof.
  induction ws as [|w ws IH]; intros [|s ss]; cbn [reduced]; [by left|by right; left|destruct w; by left|].
  destruct (stand_in_cases w s) as [[Hs ->]|[Hs Hst]].
  - destruct w as [|x w]; [done|]. unfold ends. rewrite Hs. cbn [negb stand_ins]. do 3 right. apply list_elem_of_In, in_flat_map. exists s.
    split; [|by apply in_map, list_elem_of_In]. apply existsb_exists in Hs as (y&Hy&Hs). by destruct (String.eqb_spec s y) as [->|].
  - destruct w as [|x w]; cbn [ends stand_ins].
    + right. apply list_elem_of_In, in_flat_map. exists (stand_in [] s). split; [destruct Hst as [->| ->]; [by left|by right; left]|by apply in_map, list_elem_of_In].
    + rewrite Hs. cbn [negb]. destruct Hst as [-> | ->]; [right; by left|do 2 right; by left].
Qed.

Lemma method_of_in m : method_of m ∈ "*" :: methods.
Proof.
  unfold method_of. destruct (existsb (String.eqb m) methods) eqn:E; [right|left].
  apply existsb_exists in E as (x&Hx&Hm). destruct (String.eqb_spec m x) as [->|]; [by apply list_elem_of_In|done].
Qed.

(** The documented endpoints of a request. *)
Definition documented_for (m : string) (ss : list string) : list endpoint :=
  map snd (List.filter (fun r => method_serves (p_method (fst r)) m (snd r) && fits (p_segs (fst r)) ss) documented).

Lemma documents_for m ss e : documents m ss e = true <-> e ∈ documented_for m ss.
Proof.
  unfold documents, documented_for. rewrite existsb_exists, list_elem_of_In, in_map_iff. split.
  - intros (r&Hr&[[He Hm]%andb_true_iff Hf]%andb_true_iff). apply bool_decide_eq_true in He. exists r. split; [done|].
    apply List.filter_In. split; [done|]. by rewrite He, Hm, Hf.
  - intros (r&He&Hr). apply List.filter_In in Hr as [Hr [Hm Hf]%andb_true_iff]. exists r. split; [done|].
    subst e. rewrite bool_decide_eq_true_2 by done. by rewrite Hm, Hf.
Qed.

Definition agrees (m : string) (ss : list string) : bool :=
  match reach m ss with
  | Found e => forallb (fun e' => bool_decide (e' = e)) (documented_for m ss) && negb (bool_decide (documented_for m ss = []))
  | _ => bool_decide (documented_for m ss = [])
  end.

Lemma agrees_everywhere : forallb (fun m => forallb (agrees m) (stand_ins words)) ("*" :: methods) = true.
Proof. vm_compute. reflexivity. Qed.

Lemma agrees_sound m ss e : agrees m ss = true -> reach m ss = Found e <-> documents m ss e = true.
Proof.
  unfold agrees. rewrite documents_for. destruct (reach m ss) as [e'| |].
  - intros [H1 H2]%andb_true_iff. rewrite forallb_forall in H1. apply negb_true_iff, bool_decide_eq_false in H2. split.
    + intros [= ->]. destruct (documented_for m ss) as [|x l]; [done|]. specialize (H1 x ltac:(by left)). apply bool_decide_eq_true in H1 as ->. by left.
    + intros He. apply list_elem_of_In, H1, bool_decide_eq_true in He. by subst.
  - intros ->%bool_decide_eq_true. split; [done|]. intros H. by apply elem_of_nil in H.
  - intros ->%bool_decide_eq_true. split; [done|]. intros H. by apply elem_of_nil in H.
Qed.

(** C39: nested as they are, the muxes of the admin listener are the one flat table that
    the API documents: a request with the token that the rate limit ahead of the guard
    has let through, of any method and any path, runs an endpoint exactly when the table has it at that method and path; a GET route answers
    HEAD too, but for the events. *)
Theorem the_muxes_are_the_documented_table (adminToken authorization : text) (m : string) (ss : list string) (e : endpoint) :
  m <> "" -> Bearer adminToken authorization = None ->
  admin_request adminToken authorization m ss = Runs e <-> documents m ss e = true.
Proof.
  intros Hm Hb. transitivity (reach m ss = Found e).
  - unfold admin_request, reach. destruct (route m ss adminRoot) as [[|]| |]; [split; congruence|rewrite Hb| |].
    + destruct (into m ss (route m ss adminAPI)); cbn; split; congruence.
    + split; done.
    + case_decide; done.
  - rewrite <- reach_stands, <- documents_stands by done. apply agrees_sound. pose proof agrees_everywhere as H.
    rewrite forallb_forall in H. specialize (H _ (proj1 (list_elem_of_In _ _) (method_of_in m))). rewrite forallb_forall in H.
    apply H, list_elem_of_In, reduced_in.
Qed.

Definition of_device (e : endpoint) : bool := bool_decide (e ∈ [Enrol; SyncBook; AddContact; EditContact; RemoveContact; Upload]).

Definition device_mount_ok (x : mount) : bool :=
  match x with Mux t => forallb (fun r => of_device (snd r)) t | Any e | Only _ e => of_device e || bool_decide (e = Healthz) end.

Lemma into_found {H} (t : list (pattern * H)) (P : H -> bool) m ss h : forallb (fun r => P (snd r)) t = true -> route m ss t = Found h -> P h = true.
Proof.
  intros Ht Hr. apply route_found in Hr as [p Hp]. rewrite forallb_forall in Ht. apply (Ht (p, h)). by apply list_elem_of_In.
Qed.

(** C17: the two listeners are apart, of the requests that the rate limits ahead of the
    muxes have let through: what the device listener runs is one of a device's
    own endpoints or the liveness check, never one of the operator's; what the admin
    listener runs is the liveness check or, with the operator's token, one of the
    operator's, and without the token every path under /v1/admin/ is answered 401
    alike, whether or not there is anything there. *)
Theorem the_listeners_are_apart (adminToken authorization : text) (m : string) (ss : list string) :
  (forall e, device_request m ss = Runs e -> of_device e = true \/ e = Healthz)
  /\ (forall e, admin_request adminToken authorization m ss = Runs e -> of_device e = false /\ (e = Healthz \/ Bearer adminToken authorization = None))
  /\ (Bearer adminToken authorization <> None -> fits (v1_admin [Rest]) ss = true ->
       admin_request adminToken authorization m ss = Answers (WriteError 401 "unauthorized")).
Proof.
  split; [|split].
  - intros e. unfold device_request. destruct (route m ss deviceAPI) as [x| |] eqn:E; [|done..].
    assert (device_mount_ok x = true) as Hx by (apply (into_found deviceAPI device_mount_ok m ss); [by vm_compute|done]).
    destruct x as [t|e'|m' e']; cbn [into].
    + destruct (route m ss t) as [e'| |] eqn:Et; [|done..]. intros [= <-]. left. by apply (into_found t of_device m ss).
    + intros [= <-]. cbn in Hx. apply orb_true_iff in Hx as [Hx|Hx]; [by left|right]. by apply bool_decide_eq_true in Hx.
    + destruct (String.eqb m' m); [|done]. intros [= <-]. cbn in Hx. apply orb_true_iff in Hx as [Hx|Hx]; [by left|right]. by apply bool_decide_eq_true in Hx.
  - intros e. unfold admin_request. destruct (route m ss adminRoot) as [[|]| |] eqn:Er; [intros [= <-]; split; [done|by left]| |done|by case_decide].
    destruct (Bearer adminToken authorization) as [a|] eqn:Eb; [done|]. destruct (route m ss adminAPI) as [x| |] eqn:E; [|done..]. intros He.
    split; [|by right]. set (ours := fun e => negb (of_device e)).
    assert (match x with Mux t => forallb (fun r => ours (snd r)) t | Any e | Only _ e => ours e end = true) as Hx
      by (apply (into_found adminAPI (fun x => match x with Mux t => forallb (fun r => ours (snd r)) t | Any e | Only _ e => ours e end) m ss); [by vm_compute|done]).
    assert (ours e = true) as Ho; [|unfold ours in Ho; by apply negb_true_iff].
    destruct x as [t|e'|m' e']; cbn [into] in He.
    + destruct (route m ss t) as [e'| |] eqn:Et; [|done..]. injection He as <-. by apply (into_found t ours m ss).
    + by injection He as <-.
    + destruct (String.eqb m' m); [|done]. by injection He as <-.
  - intros Hb Hf. destruct (Bearer adminToken authorization) as [a|] eqn:Eb; [|done].
    assert (a = WriteError 401 "unauthorized") as ->
      by (unfold Bearer in Eb; case_decide; [congruence|]; destruct (negb _); congruence).
    unfold admin_request. rewrite Eb.
    assert (route m ss adminRoot = Found Guarded) as ->; [|done].
    unfold v1_admin in Hf. destruct ss as [|s1 [|s2 [|s3 ss]]]; cbn [fits] in Hf; [done|by rewrite andb_false_r in Hf|by rewrite !andb_false_r in Hf|].
    apply andb_true_iff in Hf as [H1 [H2 _]%andb_true_iff].
    assert (s1 = "v1") as -> by (by destruct (String.eqb_spec "v1" s1)). assert (s2 = "admin") as -> by (by destruct (String.eqb_spec "admin" s2)).
    unfold route, find_route, by_method. cbn [adminRoot List.filter at_ fst p_method p_segs].
    by destruct (String.eqb "GET" m), (String.eqb "" m), (String.eqb "HEAD" m).
Qed.

(** ** Findings and witnesses *)

(** A method that a route of its own mux does not take reaches the enrolment mux,
    mounted at the root, which has no such path: it is told not found, where the
    component alone answers 405 with the methods it takes. *)
Lemma a_wrong_method_is_not_found (adminToken authorization : text) : Bearer adminToken authorization = None ->
  let asks m name := admin_request adminToken authorization m ["v1"; "admin"; name] in
  asks "DELETE" "licence" = Answers NotFound /\ asks "POST" "log" = Answers NotFound /\ asks "PUT" "status" = Answers NotFound
  /\ asks "POST" "events" = Answers NotFound /\ asks "POST" "whoami" = Answers NotFound
  /\ asks "PUT" "devices" = Answers (WriteError 405 "method_not_allowed")
  /\ route "DELETE" ["v1"; "admin"; "licence"] licence_mux = NotAllowed.
Proof. intros Hb. unfold admin_request. rewrite Hb. by vm_compute. Qed.

Lemma the_muxes_are_the_documented_table_witness :
  admin_request (T "secret") (T "Bearer secret") "PUT" ["v1"; "admin"; "devices"; "phone-1"; "directory"; "ct_1"] = Runs PutContact
  <-> documents "PUT" ["v1"; "admin"; "devices"; "phone-1"; "directory"; "ct_1"] PutContact = true.
Proof. apply the_muxes_are_the_documented_table; [discriminate|reflexivity]. Defined.

Lemma the_listeners_are_apart_witness :
  let ss := ["v1"; "admin"; "status"] in
  (forall e, device_request "GET" ss = Runs e -> of_device e = true \/ e = Healthz)
  /\ (forall e, admin_request (T "secret") (T "Bearer other") "GET" ss = Runs e -> of_device e = false /\ (e = Healthz \/ Bearer (T "secret") (T "Bearer other") = None))
  /\ (Bearer (T "secret") (T "Bearer other") <> None -> fits (v1_admin [Rest]) ss = true ->
       admin_request (T "secret") (T "Bearer other") "GET" ss = Answers (WriteError 401 "unauthorized")).
Proof. apply (the_listeners_are_apart (T "secret") (T "Bearer other") "GET" ["v1"; "admin"; "status"]). Defined.
