(* ===== verification/EnrolApi.v ===== *)
(** Around the enrolment store: the link in the enrolment QR, from the call server to
    the app that scans it; the reads of the operator; and the guard of the device API
    (src/server/internal/enroll/handler.go and admin_handler.go,
    src/server/cmd/dialpark-admin/main.go,
    src/ios/DiallerCore/Sources/DiallerCore/Enrolment.swift).

    - net/url's QueryEscape and Values.Encode, and Foundation's URLComponents as far as
      such a link goes, are modelled; a text is its bytes.
    - The writes of the same handlers are in Server, the symbol and its scanner in the
      Qr files. *)

From S2P Require Import Prelude Text Admin.
From S2P Require Base64 QrBits QrGrid QrDecode QrCorrect.
From S2P Require Import Enroll Server.
Open Scope Z_scope.

(** ** The link *)

Definition unreserved (c : Ascii.ascii) : bool := alnum c || one_of "-_.~" c.

Definition upper_hex (v : Z) : Ascii.ascii := nth (Z.to_nat v) (T "0123456789ABCDEF") "0"%char.

Definition percent : Ascii.ascii := "%"%char.

Definition escape_char (c : Ascii.ascii) : text :=
  if unreserved c then [c]
  else if decide (c = " "%char) then T "+"
  else [percent; upper_hex (Base64.byte_of c / 16); upper_hex (Base64.byte_of c mod 16)].

Definition QueryEscape (s : text) : text := concat (map escape_char s).

Definition pair_text (kv : text * text) : text := QueryEscape (fst kv) ++ "="%char :: QueryEscape (snd kv).

Fixpoint joined (c : Ascii.ascii) (l : list text) : text :=
  match l with [] => [] | [x] => x | x :: l => x ++ c :: joined c l end.

Definition key_le (a b : text * text) : Prop := String.le (to_string (fst a)) (to_string (fst b)).

#[export] Instance key_le_dec a b : Decision (key_le a b).
Proof. unfold key_le. apply _. Defined.

(** [url.Values.Encode], of one value to a key: in the order of the keys. *)
Definition Encode (values : list (text * text)) : text := joined "&"%char (map pair_text (merge_sort key_le values)).

Record Link := mkLink { Host : text; HTTPSPort : Z; CertSHA256 : text }.

Definition link_values (l : Link) (code : text) : list (text * text) :=
  [(T "h", Host l); (T "p", Itoa (HTTPSPort l)); (T "c", code)]
  ++ if decide (CertSHA256 l = []) then [] else [(T "f", CertSHA256 l)].

Definition URL (l : Link) (code : text) : text := T "dialler://enrol?" ++ Encode (link_values l code).

(** The symbol the console shows; [None] is a fault of the encoder. *)
Definition QR (link : text) : option (QrGrid.qr_error + QrGrid.Code) := QrGrid.Encode (Base64.bytes link).

(** ** The app *)

Fixpoint percent_decoded (t : text) : option text :=
  match t with
  | [] => Some []
  | c :: t =>
      if decide (c = percent) then
        match t with
        | a :: b :: t => x ← Base64.hex_val a; y ← Base64.hex_val b; r ← percent_decoded t; Some (Base64.char_of (x * 16 + y) :: r)
        | _ => None
        end
      else r ← percent_decoded t; Some (c :: r)
  end.

(** An item's name, and its value where it has one. *)
Definition query_item (t : text) : option (text * option text) :=
  match Cut t "="%char with
  | None => n ← percent_decoded t; Some (n, None)
  | Some (n, v) => n ← percent_decoded n; v ← percent_decoded v; Some (n, Some v)
  end.

Definition queryItems (q : text) : option (list (text * option text)) := mapM query_item (Split q "&"%char).

(** The scheme, the host and the query of a link without a path. *)
Definition components (url : text) : option (text * text * text) :=
  '(scheme, rest) ← Cut url ":"%char;
  if has_prefix_t (T "//") rest then
    match Cut (TrimPrefix rest (T "//")) "?"%char with Some (host, q) => Some (scheme, host, q) | None => None end
  else None.

Fixpoint item (k : text) (items : list (text * option text)) (found : option text) : option text :=
  match items with
  | [] => found
  | (n, v) :: items => item k items (if decide (n = k) then v else found)
  end.

Fixpoint normalise (code : text) : text :=
  match code with
  | [] => []
  | c :: code =>
      let c := upper_ascii c in
      if decide (c = " "%char \/ c = "-"%char) then normalise code
      else if decide (c = "I"%char \/ c = "L"%char) then "1"%char :: normalise code
      else if decide (c = "O"%char) then "0"%char :: normalise code
      else c :: normalise code
  end.

Record EnrolmentLink := mkEnrolmentLink { host : text; port : Z; code : text; certSHA256 : option text }.

Definition UInt16 (t : text) : option Z := n ← Atoi t; if decide (0 <= n < 65536) then Some n else None.

Definition EnrolmentLink_init (url : text) : option EnrolmentLink :=
  '(scheme, h, q) ← components url;
  if decide (ToLower scheme = T "dialler" /\ ToLower h = T "enrol") then
    items ← queryItems q;
    match item (T "h") items None, item (T "c") items None with
    | Some h, Some c =>
        if decide (h = [] \/ c = []) then None else
        Some (mkEnrolmentLink h (default 8080 (p ← item (T "p") items None; UInt16 p)) (normalise c)
                (match item (T "f") items None with Some f => if decide (f = []) then None else Some f | None => None end))
    | _, _ => None
    end
  else None.

(** ** The reads of the operator *)

Section reads.
Context (s : Store) (now : Z).

Inductive reading := RDevices (l : list Device) | RDevice (d : Device) | RConfig (c : Enroll.DeviceConfig) | RLine (l : PBXLine).
Definition read_reply : Type := answer + reading.

Definition get_devices : read_reply := inr (RDevices (Devices s now)).

Definition get_device (id : string) : read_reply :=
  if negb (DeviceIDRe id) then inl NotFound else
  match Device_ s now id with None => inl NotFound | Some d => inr (RDevice d) end.

Definition get_config (id : string) : read_reply :=
  if negb (DeviceIDRe id) then inl NotFound else
  if negb (Exists s id) then inl NotFound else
  match Config s id with None => inl NotFound | Some c => inr (RConfig c) end.

Definition get_line (id : string) : read_reply :=
  if negb (DeviceIDRe id) then inl NotFound else
  if negb (Exists s id) then inl NotFound else
  match PBXLine' s id with None => inl NotFound | Some l => inr (RLine l) end.
End reads.

(** ** The guard of the device API *)

(** [DeviceAuth]: the request goes on. *)
Definition DeviceAuth (sha256hex : string -> string) (s : Store) (deviceID authorization : text) : bool :=
  let tok := TrimPrefix authorization (T "Bearer ") in
  if decide (deviceID = [] \/ tok = authorization) then false
  else Authenticate sha256hex s (to_string deviceID) (to_string tok) && Licensed s (to_string deviceID).

(** ** Escaping *)

Lemma all_chars (P : Ascii.ascii -> bool) : forallb (fun n => P (Base64.char_of n)) (seqZ 0 256) = true -> forall c, P c = true.
Proof.
  intros H c. rewrite forallb_forall in H. rewrite <- (Base64.char_of_byte_of c). apply H, list_elem_of_In, elem_of_seqZ.
  pose proof (Base64.byte_of_is_byte c). unfold Base64.is_byte in *. lia.
Qed.

(** What an escaped text is made of. *)
Definition escaped (c : Ascii.ascii) : bool := unreserved c || one_of "+%" c.

Lemma escape_char_ok c : (Forall (fun x => escaped x = true) (escape_char c)
  /\ forall t, c <> " "%char -> percent_decoded (escape_char c ++ t) = ((cons c) <$> percent_decoded t)).
Proof.
  assert (forall v, 0 <= v < 16 -> escaped (upper_hex v) = true /\ Base64.hex_val (upper_hex v) = Some v) as Hhex.
  { intros v Hv. assert (forallb (fun v => bool_decide (escaped (upper_hex v) = true /\ Base64.hex_val (upper_hex v) = Some v)) (seqZ 0 16) = true) as H
      by (vm_compute; reflexivity).
    rewrite forallb_forall in H. specialize (H v). rewrite bool_decide_eq_true in H. apply H, list_elem_of_In, elem_of_seqZ. lia. }
  pose proof (Base64.byte_of_is_byte c) as Hb. unfold Base64.is_byte in Hb.
  assert (0 <= Base64.byte_of c / 16 < 16 /\ 0 <= Base64.byte_of c mod 16 < 16) as [H1 H2] by (Z.to_euclidean_division_equations; lia).
  apply Hhex in H1 as [E1 D1]. apply Hhex in H2 as [E2 D2]. unfold escape_char. destruct (unreserved c) eqn:Eu.
  - split; [apply Forall_singleton; unfold escaped; by rewrite Eu|]. intros t _. cbn [app percent_decoded].
    rewrite decide_False; [by destruct (percent_decoded t)|]. intros ->. by vm_compute in Eu.
  - case_decide as Hs; [split; [by repeat constructor|done]|]. split.
    + apply Forall_cons; split; [done|]. apply Forall_cons; split; [done|]. by apply Forall_singleton.
    + intros t _. cbn [app percent_decoded]. rewrite decide_True by done. rewrite D1, D2. cbn [mbind option_bind].
      replace (Base64.byte_of c / 16 * 16 + Base64.byte_of c mod 16) with (Base64.byte_of c) by (Z.to_euclidean_division_equations; lia).
      rewrite Base64.char_of_byte_of. by destruct (percent_decoded t).
Qed.

Lemma QueryEscape_escaped s : Forall (fun x => escaped x = true) (QueryEscape s).
Proof. unfold QueryEscape. induction s as [|c s IH]; [constructor|]. cbn. apply Forall_app. split; [apply escape_char_ok|done]. Qed.

Lemma QueryEscape_decoded s : " "%char ∉ s -> percent_decoded (QueryEscape s) = Some s.
Proof.
  unfold QueryEscape. induction s as [|c s IH]; intros Hs; [done|]. apply not_elem_of_cons in Hs as [Hc Hs]. cbn [map concat].
  rewrite (proj2 (escape_char_ok c)) by congruence. by rewrite IH.
Qed.

Lemma escaped_not c s : escaped c = false -> Forall (fun x => escaped x = true) s -> c ∉ s.
Proof. intros Hc Hs Hin. rewrite Forall_forall in Hs. specialize (Hs c Hin). congruence. Qed.

(** ** Queries *)

Lemma Split_joined c l : l <> [] -> Forall (fun x => c ∉ x) l -> Split (joined c l) c = l.
Proof.
  intros Hn Hl. induction Hl as [|x l Hx Hl IH]; [done|]. destruct l as [|y l].
  - cbn [joined]. rewrite Split_Cut, Cut_None by done. done.
  - cbn [joined]. rewrite Split_Cut, Cut_app by done. f_equal. by apply IH.
Qed.

Lemma query_item_pair k v : " "%char ∉ k -> " "%char ∉ v -> query_item (pair_text (k, v)) = Some (k, Some v).
Proof.
  intros Hk Hv. unfold query_item, pair_text. cbn [fst snd].
  rewrite Cut_app by (apply escaped_not; [by vm_compute|apply QueryEscape_escaped]). by rewrite !QueryEscape_decoded.
Qed.

Lemma pair_text_plain kv : "&"%char ∉ pair_text kv.
Proof.
  unfold pair_text. rewrite elem_of_app, elem_of_cons. intros [H|[H|H]]; [|done|]; revert H; (apply escaped_not; [by vm_compute|apply QueryEscape_escaped]).
Qed.

Lemma queryItems_joined l : l <> [] -> Forall (fun kv => (" "%char ∉ fst kv) /\ (" "%char ∉ snd kv)) l ->
  queryItems (joined "&"%char (map pair_text l)) = Some (map (fun kv => (fst kv, Some (snd kv))) l).
Proof.
  intros Hn Hl. unfold queryItems. rewrite Split_joined; [|by destruct l|apply Forall_map, Forall_true; intros kv; apply pair_text_plain].
  clear Hn. induction Hl as [|[k v] l [Hk Hv] _ IH]; [done|]. cbn [map mapM mbind option_bind]. rewrite query_item_pair by done.
  cbn [mbind option_bind]. rewrite IH. done.
Qed.

(** The keys in order. *)
Lemma Encode_link l code : Encode (link_values l code) =
  joined "&"%char (map pair_text ([(T "c", code)] ++ (if decide (CertSHA256 l = []) then [] else [(T "f", CertSHA256 l)]) ++ [(T "h", Host l); (T "p", Itoa (HTTPSPort l))])).
Proof. unfold Encode, link_values. case_decide; reflexivity. Qed.

(** ** From the link to the app *)

Lemma components_link q : components (T "dialler://enrol?" ++ q) = Some (T "dialler", T "enrol", q).
Proof.
  unfold components. change (T "dialler://enrol?" ++ q) with (T "dialler" ++ ":"%char :: (T "//" ++ T "enrol" ++ "?"%char :: q)).
  rewrite Cut_app by (by apply (bool_decide_unpack _)). cbn [mbind option_bind].
  assert (has_prefix_t (T "//") (T "//" ++ T "enrol" ++ "?"%char :: q) = true) as Hp by (apply has_prefix_t_true; eauto).
  unfold TrimPrefix. rewrite Hp, drop_app_length. by rewrite Cut_app by (by apply (bool_decide_unpack _)).
Qed.

Lemma item_app k a b found : item k (a ++ b) found = item k b (item k a found).
Proof. revert found. induction a as [|[n v] a IH]; intros found; [done|]. cbn [app item]. apply IH. Qed.

Lemma digits_no_space n : 0 <= n -> " "%char ∉ Itoa n.
Proof. intros Hn Hc. apply Itoa_digits in Hc; [by vm_compute in Hc|done]. Qed.

Lemma init_link (l : Link) (cd : text) : Host l <> [] -> cd <> [] -> 0 <= HTTPSPort l < 65536 ->
  " "%char ∉ Host l -> " "%char ∉ cd -> " "%char ∉ CertSHA256 l ->
  EnrolmentLink_init (URL l cd) = Some (mkEnrolmentLink (Host l) (HTTPSPort l) (normalise cd) (if decide (CertSHA256 l = []) then None else Some (CertSHA256 l))).
Proof.
  intros Hh Hc Hp Sh Sc Sf. unfold EnrolmentLink_init, URL. rewrite components_link. cbn [mbind option_bind].
  rewrite decide_True by (split; reflexivity). rewrite Encode_link.
  set (f := if decide (CertSHA256 l = []) then [] else [(T "f", CertSHA256 l)]).
  assert (Forall (fun kv => (" "%char ∉ fst kv) /\ (" "%char ∉ snd kv)) f) as Hf.
  { subst f. case_decide; [done|]. apply Forall_singleton. split; [by apply (bool_decide_unpack _)|done]. }
  rewrite queryItems_joined.
  - cbn [mbind option_bind]. rewrite !map_app, !item_app. cbn [map item fst snd].
    assert (item (T "f") (map (fun kv => (fst kv, Some (snd kv))) f) None = (if decide (CertSHA256 l = []) then None else Some (CertSHA256 l))) as Ef
      by (subst f; by case_decide).
    assert (forall k v, k <> T "f" -> item k (map (fun kv => (fst kv, Some (snd kv))) f) v = v) as Eo.
    { intros k v Hk. subst f. case_decide; [done|]. cbn [map item fst snd]. rewrite decide_False; [done|]. intros E. by apply Hk. }
    repeat match goal with |- context [decide (T ?a = T ?b)] => destruct (decide (T a = T b)); [try discriminate|try congruence] end.
    rewrite !Eo by discriminate. cbn [mbind option_bind].
    rewrite (decide_False (P := Host l = [] \/ cd = [])) by (intros [|]; done). unfold UInt16. rewrite Atoi_Itoa by lia. cbn [mbind option_bind].
    rewrite decide_True by lia. cbn [default from_option id]. rewrite Ef. f_equal. f_equal. case_decide; [done|]. by rewrite decide_False.
  - done.
  - apply Forall_app. split; [apply Forall_singleton; split; [by apply (bool_decide_unpack _)|done]|]. apply Forall_app. split; [done|].
    apply Forall_cons; split; [split; [by apply (bool_decide_unpack _)|done]|]. apply Forall_singleton. split; [by apply (bool_decide_unpack _)|].
    apply digits_no_space. lia.
Qed.

(** What the app sends is the code that was minted, to the server. *)
Lemma normalize_idemp t : normalize (normalise t) = normalize t.
Proof.
  induction t as [|c t IH]; [done|]. cbn [normalise normalize].
  assert (upper_ascii (upper_ascii c) = upper_ascii c) as Hu.
  { pose proof (all_chars (fun c => bool_decide (upper_ascii (upper_ascii c) = upper_ascii c)) ltac:(by vm_compute) c) as H. by apply bool_decide_eq_true in H. }
  case_decide as H1; [done|]. case_decide as H2.
  - cbn [normalize]. change (upper_ascii "1"%char) with "1"%char. rewrite !decide_False by (intros [|]; discriminate). rewrite decide_False by discriminate.
    rewrite decide_True by (by vm_compute). by rewrite IH.
  - case_decide as H3.
    + cbn [normalize]. change (upper_ascii "0"%char) with "0"%char. rewrite !decide_False by (intros [|]; discriminate). rewrite decide_False by discriminate.
      rewrite decide_True by (by vm_compute). by rewrite IH.
    + cbn [normalize]. rewrite Hu, !decide_False by done. by rewrite IH.
Qed.

(** C21: an enrolment QR that is scanned leads the phone to this server and to its
    account: the link of a code and a host without spaces, up to 213 bytes, has a symbol,
    from which a scanner written from the standard reads the link, of which the app
    makes exactly the host, the port, the certificate's fingerprint and a code that the
    server takes for the one it minted. *)
Theorem a_scanned_code_leads_home (l : Link) (cd : text) : Host l <> [] -> cd <> [] -> 0 <= HTTPSPort l < 65536 ->
  " "%char ∉ Host l -> " "%char ∉ cd -> " "%char ∉ CertSHA256 l -> (length (URL l cd) <= QrBits.MaxBytes)%nat ->
  exists symbol scanned e, QR (URL l cd) = Some (inr symbol)
    /\ QrDecode.scan_symbol (QrGrid.code_modules symbol) = Some scanned
    /\ EnrolmentLink_init (Base64.of_bytes scanned) = Some e
    /\ host e = Host l /\ port e = HTTPSPort l /\ certSHA256 e = (if decide (CertSHA256 l = []) then None else Some (CertSHA256 l))
    /\ NormalizeCode (to_string (code e)) = NormalizeCode (to_string cd).
Proof.
  intros Hh Hc Hp Sh Sc Sf Hl. destruct (QrCorrect.Encode_scan (Base64.bytes (URL l cd))) as (symbol&E&_&_&Hs).
  - apply Base64.bytes_are_bytes.
  - unfold Base64.bytes. by rewrite length_map.
  - exists symbol, (Base64.bytes (URL l cd)). eexists. split; [exact E|]. split; [exact Hs|].
    rewrite Base64.of_bytes_bytes. split; [by apply init_link|]. cbn [host port certSHA256 code]. do 3 (split; [done|]).
    unfold NormalizeCode. by rewrite !T_to_string, normalize_idemp.
Qed.

Definition demo_link : Link := mkLink (T "10.0.0.7") 8080 (Base64.Encode (replicate 32 7)).

Lemma a_scanned_code_leads_home_witness :
  exists symbol scanned e, QR (URL demo_link (T "AB0D-EF1H")) = Some (inr symbol)
    /\ QrDecode.scan_symbol (QrGrid.code_modules symbol) = Some scanned
    /\ EnrolmentLink_init (Base64.of_bytes scanned) = Some e
    /\ host e = Host demo_link /\ port e = HTTPSPort demo_link
    /\ certSHA256 e = (if decide (CertSHA256 demo_link = []) then None else Some (CertSHA256 demo_link))
    /\ NormalizeCode (to_string (code e)) = NormalizeCode (to_string (T "AB0D-EF1H")).
Proof.
  apply a_scanned_code_leads_home.
  - discriminate.
  - discriminate.
  - cbn. lia.
  - by apply (bool_decide_unpack _).
  - by apply (bool_decide_unpack _).
  - by apply (bool_decide_unpack _).
  - apply Nat.leb_le. vm_compute. reflexivity.
Defined.

Example the_link : to_string (URL (mkLink (T "pbx.example") 8443 (T "a_b-")) (T "AB0D")) = "dialler://enrol?c=AB0D&f=a_b-&h=pbx.example&p=8443"%string.
Proof. vm_compute. reflexivity. Qed.

(** ** The reads and the guard *)

(** A read of a device is there exactly for the devices of the store, revoked ones
    too, and its settings and line exactly where they are set. *)
Lemma reads_are_there s now id : DeviceIDRe id = true ->
  (get_device s now id = inl NotFound <-> devices s !! id = None)
  /\ (get_config s id = inl NotFound <-> Config s id = None)
  /\ (get_line s id = inl NotFound <-> PBXLine' s id = None).
Proof.
  intros Hid. unfold get_device, get_config, get_line, Exists, Device_, Config, PBXLine'. rewrite Hid. cbn [negb].
  destruct (devices s !! id) as [r|]; cbn; [|by repeat split]. split; [done|]. split; [by case_decide|by destruct (PBXLine_ r)].
Qed.

(** The device API is open exactly to a licensed, unrevoked device with its token. *)
Lemma DeviceAuth_exactly sha256hex s id tok : tok <> [] ->
  DeviceAuth sha256hex s id (T "Bearer " ++ tok) = true <->
  id <> [] /\ Licensed s (to_string id) = true /\ exists r, devices s !! to_string id = Some r /\ Revoked r = false
    /\ TokenHash r <> ""%string /\ TokenHash r = hashToken sha256hex (to_string tok).
Proof.
  intros Ht. unfold DeviceAuth.
  assert (has_prefix_t (T "Bearer ") (T "Bearer " ++ tok) = true) as Hp by (apply has_prefix_t_true; eauto).
  unfold TrimPrefix. rewrite Hp, drop_app_length. cbv zeta. unfold Authenticate. destruct (decide _) as [Hd|Hd].
  - split; [done|]. intros [Hid _]. exfalso. destruct Hd as [Hd|Hd]; [done|]. apply (f_equal length) in Hd. rewrite length_app in Hd. cbn in Hd. lia.
  - rewrite andb_true_iff. destruct (devices s !! to_string id) as [r|] eqn:Er; [|split; [by intros []|intros (_&_&r&Hr&_); congruence]].
    rewrite !andb_true_iff, negb_true_iff, !bool_decide_eq_true. split.
    + intros [[[H1 H2] H3] H4]. split; [intros ->; apply Hd; by left|]. split; [done|]. by exists r.
    + intros (_&H4&r'&Hr&H1&H2&H3). by simplify_eq.
Qed.
