(* ===== verification/PortRelay.v ===== *)
(** The stand-alone media relay (src/server/internal/relay/relay.go): its pool of UDP
    ports, and the two legs of a session, each of which holds to the first source it
    hears.

    - A port can be bound unless the relay has it or [listen] says something else does.
    - An address is an IP and a port. A packet read by a leg's goroutine is one step and
      so is each call of Allocate and Close; the steps come in any order. *)

From S2P Require Import Prelude.
Open Scope Z_scope.

(** ** The pool *)

Record Relay := mkRelay { min : Z; max : Z; next : Z; inUse : gset Z }.

(** [None] is an error; the address has been parsed. *)
Definition New (portMin portMax : Z) : option Relay :=
  if (portMin <=? 0) || (portMax <? portMin) || (65535 <? portMax) then None else Some (mkRelay portMin portMax portMin ∅).

Definition advance (r : Relay) : Relay :=
  mkRelay (min r) (max r) (if max r <? next r + 1 then min r else next r + 1) (inUse r).

Definition span (r : Relay) : Z := max r - min r + 1.

Fixpoint bind_loop (n : nat) (listen : Z -> bool) (r : Relay) : Relay * option Z :=
  match n with
  | O => (r, None)
  | S n =>
      let p := next r in
      let r := advance r in
      if bool_decide (p ∈ inUse r) then bind_loop n listen r
      else if negb (listen p) then bind_loop n listen r
      else (mkRelay (min r) (max r) (next r) ({[p]} ∪ inUse r), Some p)
  end.

Definition bind (listen : Z -> bool) (r : Relay) : Relay * option Z := bind_loop (Z.to_nat (span r)) listen r.

Definition release (p : Z) (r : Relay) : Relay := mkRelay (min r) (max r) (next r) (inUse r ∖ {[p]}).

(** ** Sessions *)

Definition addr : Type := Z * Z.

Record Leg := mkLeg { port : Z; peer : option addr; pkts : Z; drops : Z }.

Definition new_leg (p : Z) : Leg := mkLeg p None 0 0.

Record Session := mkSession { A : Leg; B : Leg; closed : bool }.

Record state := mkState { pool : Relay; sessions : list Session; sent : list (nat * bool * addr * addr) }.

(** [Allocate]: the session, or none for want of a port. *)
Definition Allocate (la lb : Z -> bool) (s : state) : state * bool :=
  let '(r, a) := bind la (pool s) in
  match a with
  | None => (mkState r (sessions s) (sent s), false)
  | Some a =>
      let '(r, b) := bind lb r in
      match b with
      | None => (mkState (release a r) (sessions s) (sent s), false)
      | Some b => (mkState r (sessions s ++ [mkSession (new_leg a) (new_leg b) false]) (sent s), true)
      end
  end.

Definition Close (i : nat) (s : state) : state :=
  match sessions s !! i with
  | Some x =>
      if closed x then s
      else mkState (release (port (B x)) (release (port (A x)) (pool s))) (<[i := mkSession (A x) (B x) true]> (sessions s)) (sent s)
  | None => s
  end.

(** [pump] on one packet: the legs after it, and where it goes. [ok]: the write. *)
Definition pump (src : addr) (ok : bool) (from to : Leg) : Leg * option addr :=
  let latched := match peer from with None => Some (mkLeg (port from) (Some src) (pkts from) (drops from))
                 | Some p => if decide (p = src) then Some from else None end in
  match latched with
  | None => (mkLeg (port from) (peer from) (pkts from) (drops from + 1), None)
  | Some from =>
      match peer to with
      | None => (mkLeg (port from) (peer from) (pkts from) (drops from + 1), None)
      | Some dst => (mkLeg (port from) (peer from) (if ok then pkts from + 1 else pkts from) (drops from), Some dst)
      end
  end.

(** A packet at a leg of session [i], on the side of [A] or not; nothing is read once
    the session is closed. *)
Definition Packet (i : nat) (side : bool) (src : addr) (ok : bool) (s : state) : state :=
  match sessions s !! i with
  | Some x =>
      if closed x then s else
      let '(from, to) := if side then (A x, B x) else (B x, A x) in
      let '(from, dst) := pump src ok from to in
      mkState (pool s) (<[i := if side then mkSession from (B x) false else mkSession (A x) from false]> (sessions s))
        (sent s ++ match dst with Some d => if ok then [(i, side, src, d)] else [] | None => [] end)
  | None => s
  end.

Inductive event := EAllocate (la lb : Z -> bool) | EClose (i : nat) | EPacket (i : nat) (side : bool) (src : addr) (ok : bool).

Definition step (s : state) (e : event) : state :=
  match e with EAllocate la lb => fst (Allocate la lb s) | EClose i => Close i s | EPacket i side src ok => Packet i side src ok s end.

Definition run (es : list event) (r : Relay) : state := foldl step (mkState r [] []) es.

(** ** The pool hands out what is free *)

Definition sound (r : Relay) : Prop := min r <= max r /\ min r <= next r <= max r /\ forall p, p ∈ inUse r -> min r <= p <= max r.

Lemma New_sound a b r : New a b = Some r -> sound r /\ min r = a /\ max r = b /\ inUse r = ∅.
Proof.
  unfold New. destruct (_ || _) eqn:E; [done|]. intros [= <-]. apply orb_false_iff in E as [[E1 E2]%orb_false_iff E3].
  split; [|done]. split; cbn; [lia|]. split; [lia|set_solver].
Qed.

Lemma advance_sound r : sound r -> sound (advance r).
Proof. intros (H1&H2&H3). split; [done|]. split; [|done]. cbn. destruct (Z.ltb_spec (max r) (next r + 1)); lia. Qed.

(** The port tried at the [k]-th turn. *)
Definition turn (r : Relay) (k : Z) : Z := min r + (next r - min r + k) mod span r.

Lemma turn_0 r : sound r -> turn r 0 = next r.
Proof. intros (H1&H2&_). unfold turn, span. rewrite Z.add_0_r, Z.mod_small by lia. lia. Qed.

Lemma turn_advance r k : sound r -> turn (advance r) k = turn r (k + 1).
Proof.
  intros (H1&H2&_). unfold turn, span, advance. cbn [min max next]. f_equal. destruct (Z.ltb_spec (max r) (next r + 1)).
  - assert (next r = max r) as -> by lia. replace (max r - min r + (k + 1)) with (min r - min r + k + 1 * (max r - min r + 1)) by lia.
    by rewrite Z.mod_add by lia.
  - f_equal. lia.
Qed.

Lemma turn_all r p : sound r -> min r <= p <= max r -> exists k, 0 <= k < span r /\ turn r k = p.
Proof.
  intros (H1&H2&_) Hp. exists ((p - next r) mod span r). unfold turn, span in *. split; [apply Z.mod_pos_bound; lia|].
  rewrite Zplus_mod_idemp_r. replace (next r - min r + (p - next r)) with (p - min r) by lia.
  rewrite Z.mod_small by lia. lia.
Qed.

Lemma bind_loop_spec n : forall listen r, sound r ->
  match bind_loop n listen r with
  | (r', None) => (inUse r' = inUse r /\ sound r' /\ min r' = min r /\ max r' = max r
      /\ forall k, 0 <= k < Z.of_nat n -> turn r k ∈ inUse r \/ listen (turn r k) = false)
  | (r', Some p) => inUse r' = {[p]} ∪ inUse r /\ sound r' /\ min r' = min r /\ max r' = max r
      /\ (p ∉ inUse r) /\ listen p = true /\ min r <= p <= max r
  end.
Proof.
  induction n as [|n IH]; intros listen r Hs; cbn [bind_loop].
  - split; [done|]. split; [done|]. do 2 (split; [done|]). intros k Hk. lia.
  - pose proof (advance_sound r Hs) as Ha. specialize (IH listen (advance r) Ha). cbn [min max inUse advance] in *.
    assert ((forall k, 0 <= k < Z.of_nat n -> turn (advance r) k ∈ inUse r \/ listen (turn (advance r) k) = false) ->
      (next r ∈ inUse r \/ listen (next r) = false) -> forall k : Z, 0 <= k < Z.of_nat (S n) -> turn r k ∈ inUse r \/ listen (turn r k) = false) as Hk.
    { intros H H0 k Hk. destruct (decide (k = 0)) as [->|Hn]; [by rewrite turn_0|]. specialize (H (k - 1) ltac:(lia)).
      rewrite turn_advance in H by done. by replace (k - 1 + 1) with k in H by lia. }
    destruct (bool_decide_reflect (next r ∈ inUse r)) as [Hu|Hu].
    + destruct (bind_loop n listen (advance r)) as [r' [p|]]; [done|]. destruct IH as (H1&H2&H3&H4&H5). do 4 (split; [done|]). apply Hk; auto.
    + destruct (listen (next r)) eqn:El; cbn [negb].
      * pose proof Hs as (G1&G2&G3). split; [done|]. split; [|done]. destruct Ha as (A1&A2&A3). split; [done|]. split; [done|].
        cbn [inUse]. intros p [->%elem_of_singleton|Hp]%elem_of_union; [cbn; lia|by apply G3].
      * destruct (bind_loop n listen (advance r)) as [r' [p|]]; [done|]. destruct IH as (H1&H2&H3&H4&H5). do 4 (split; [done|]). apply Hk; auto.
Qed.

(** A port is refused only when none of the range is free. *)
Lemma bind_spec listen r : sound r ->
  match bind listen r with
  | (r', None) => (inUse r' = inUse r /\ sound r' /\ min r' = min r /\ max r' = max r
      /\ forall p, min r <= p <= max r -> p ∈ inUse r \/ listen p = false)
  | (r', Some p) => inUse r' = {[p]} ∪ inUse r /\ sound r' /\ min r' = min r /\ max r' = max r
      /\ (p ∉ inUse r) /\ listen p = true /\ min r <= p <= max r
  end.
Proof.
  intros Hs. unfold bind. pose proof (bind_loop_spec (Z.to_nat (span r)) listen r Hs) as H.
  destruct (bind_loop _ _ _) as [r' [p|]]; [done|]. destruct H as (H1&H2&H3&H4&H5). do 4 (split; [done|]).
  intros p Hp. destruct (turn_all r p Hs Hp) as (k&Hk&<-). apply H5. lia.
Qed.

(** ** The ports of the open sessions *)

Definition open_ports (xs : list Session) : list Z :=
  xs ≫= fun x => if closed x then [] else [port (A x); port (B x)].

(** Their ports are different ones of the range, and the pool holds exactly those. *)
Definition pool_inv (lo hi : Z) (s : state) : Prop :=
  sound (pool s) /\ min (pool s) = lo /\ max (pool s) = hi /\ NoDup (open_ports (sessions s))
  /\ inUse (pool s) = list_to_set (open_ports (sessions s)).

Lemma open_ports_insert xs i x y : xs !! i = Some x ->
  exists l1 l2, open_ports xs = open_ports l1 ++ open_ports [x] ++ open_ports l2
    /\ open_ports (<[i := y]> xs) = open_ports l1 ++ open_ports [y] ++ open_ports l2.
Proof.
  intros (l1&l2&->&->)%list_elem_of_split_length. exists l1, l2.
  rewrite insert_app_r_alt, Nat.sub_diag by lia. cbn [insert list_insert]. unfold open_ports.
  rewrite !bind_app, !bind_cons. cbn. by rewrite app_nil_r, app_nil_r.
Qed.

Lemma open_ports_snoc xs a b : open_ports (xs ++ [mkSession (new_leg a) (new_leg b) false]) = open_ports xs ++ [a; b].
Proof. unfold open_ports. by rewrite bind_app. Qed.

Lemma Allocate_inv lo hi la lb s : pool_inv lo hi s -> pool_inv lo hi (fst (Allocate la lb s)).
Proof.
  intros (Hs&Hlo&Hhi&Hnd&Hu). unfold Allocate. pose proof (bind_spec la (pool s) Hs) as Ha.
  destruct (bind la (pool s)) as [r [a|]]; [|destruct Ha as (H1&H2&H3&H4&_); unfold pool_inv; cbn; by rewrite H1, H3, H4].
  destruct Ha as (A1&A2&A3&A4&A5&_&A6). pose proof (bind_spec lb r A2) as Hb. destruct (bind lb r) as [r' [b|]].
  - destruct Hb as (B1&B2&B3&B4&B5&_). unfold pool_inv. cbn [fst pool sessions]. rewrite open_ports_snoc.
    split; [done|]. split; [congruence|]. split; [congruence|]. rewrite A1 in B1, B5. rewrite Hu in A5, B1, B5. split.
    + apply NoDup_app. split; [done|]. split; [|apply NoDup_cons; split; [set_solver|apply NoDup_singleton]].
      intros x Hx. rewrite elem_of_cons, list_elem_of_singleton. set_solver.
    + rewrite B1. set_solver.
  - destruct Hb as (B1&(B2&B2'&B2'')&B3&B4&_). unfold pool_inv, sound, release. cbn. split.
    { split; [done|]. split; [done|]. intros p Hp. apply B2''. set_solver. }
    split; [congruence|]. split; [congruence|]. split; [done|]. rewrite B1, A1. set_solver.
Qed.

Lemma Close_inv lo hi i s : pool_inv lo hi s -> pool_inv lo hi (Close i s).
Proof.
  intros (Hs&Hlo&Hhi&Hnd&Hu). unfold Close. destruct (sessions s !! i) as [x|] eqn:E; [|done]. destruct (closed x) eqn:Ec; [done|].
  destruct (open_ports_insert _ _ _ (mkSession (A x) (B x) true) E) as (l1&l2&E1&E2).
  assert (open_ports [x] = [port (A x); port (B x)]) as Ex by (unfold open_ports; cbn; by rewrite Ec).
  unfold pool_inv. cbn [pool sessions]. rewrite E2. rewrite E1, Ex in Hnd, Hu. change (open_ports [_]) with (@nil Z).
  split; [|split; [done|split; [done|]]].
  - destruct Hs as (S1&S2&S3). split; [done|]. split; [done|]. intros p Hp. apply S3. cbn in Hp. set_solver.
  - apply NoDup_app in Hnd as (N1&N2&N3). apply NoDup_app in N3 as (N3&N4&N5). split.
    + apply NoDup_app. split; [done|]. split; [|done]. intros p Hp Hp'. apply (N2 p Hp). set_solver.
    + cbn. rewrite Hu. apply NoDup_cons in N3 as [N3 _]. set_solver.
Qed.

Lemma pump_port src ok from to : port (fst (pump src ok from to)) = port from.
Proof. unfold pump. destruct (peer from) as [q|]; [destruct (decide (q = src))|]; destruct (peer to), ok; reflexivity. Qed.

Lemma open_ports_same xs i x y : xs !! i = Some x -> closed x = closed y -> port (A x) = port (A y) -> port (B x) = port (B y) ->
  open_ports (<[i := y]> xs) = open_ports xs.
Proof.
  intros E Hc HA HB. destruct (open_ports_insert _ _ _ y E) as (l1&l2&->&->). unfold open_ports. cbn. by rewrite Hc, HA, HB.
Qed.

Lemma Packet_inv lo hi i side src ok s : pool_inv lo hi s -> pool_inv lo hi (Packet i side src ok s).
Proof.
  intros (Hs&Hlo&Hhi&Hnd&Hu). unfold Packet. destruct (sessions s !! i) as [x|] eqn:E; [|done]. destruct (closed x) eqn:Ec; [done|].
  pose proof (pump_port src ok (if side then A x else B x) (if side then B x else A x)) as Hp.
  destruct side; destruct (pump _ _ _ _) as [from dst]; unfold pool_inv; cbn [pool sessions]; by rewrite (open_ports_same _ _ _ _ E).
Qed.

(** C40: whatever sessions are allocated and closed and whatever is heard at their legs, in any order, the legs of the open
    sessions have ports of the configured range, no two of them the same one, and the ports the relay holds are exactly
    these; so a session is refused only when, for one of its two legs, every port of the range is one of these or is taken
    by something else. *)
Theorem a_port_is_one_legs lo hi r es :
  New lo hi = Some r ->
  NoDup (open_ports (sessions (run es r))) /\ Forall (fun p => lo <= p <= hi) (open_ports (sessions (run es r)))
  /\ inUse (pool (run es r)) = list_to_set (open_ports (sessions (run es r)))
  /\ forall la lb, snd (Allocate la lb (run es r)) = false ->
       (forall p, lo <= p <= hi -> p ∈ open_ports (sessions (run es r)) \/ la p = false)
       \/ exists a, lo <= a <= hi /\ forall p, lo <= p <= hi -> p = a \/ p ∈ open_ports (sessions (run es r)) \/ lb p = false.
Proof.
  intros Hr. assert (pool_inv lo hi (run es r)) as (Hs&Hlo&Hhi&Hnd&Hu).
  { unfold run. apply New_sound in Hr as (H1&H2&H3&H4). assert (pool_inv lo hi (mkState r [] [])) as H0.
    { split; [done|]. split; [done|]. split; [done|]. split; [apply NoDup_nil_2|exact H4]. }
    revert H0. generalize (mkState r [] []). induction es as [|e es IH]; intros s Hs; [done|]. cbn [foldl]. apply IH.
    destruct e; [by apply Allocate_inv|by apply Close_inv|by apply Packet_inv]. }
  split; [done|]. split.
  { apply Forall_forall. intros p Hp. destruct Hs as (_&_&H). rewrite <- Hlo, <- Hhi. apply H. rewrite Hu. by apply elem_of_list_to_set. }
  split; [done|]. intros la lb. unfold Allocate. pose proof (bind_spec la _ Hs) as Ha. destruct (bind la _) as [r1 [a|]].
  - destruct Ha as (A1&A2&A3&A4&A5&_&A6). pose proof (bind_spec lb r1 A2) as Hb. destruct (bind lb r1) as [r2 [b|]]; [done|].
    destruct Hb as (_&_&_&_&B5). intros _. right. exists a. split; [lia|]. intros p Hp. destruct (B5 p ltac:(lia)) as [Hi|]; [|tauto].
    rewrite A1, Hu, elem_of_union, elem_of_singleton, elem_of_list_to_set in Hi. tauto.
  - destruct Ha as (_&_&_&_&A5). intros _. left. intros p Hp. destruct (A5 p ltac:(lia)) as [Hi|]; [|tauto].
    rewrite Hu, elem_of_list_to_set in Hi. tauto.
Qed.

(** ** The source a leg holds to *)

Definition leg (s : state) (i : nat) (side : bool) : option Leg :=
  x ← sessions s !! i; Some (if side then A x else B x).

Definition peer_at (s : state) (i : nat) (side : bool) : option addr := l ← leg s i side; peer l.

Definition latched (s : state) : Prop :=
  forall i side src dst, (i, side, src, dst) ∈ sent s -> peer_at s i side = Some src /\ peer_at s i (negb side) = Some dst.

Definition side_of (x : Session) (side : bool) : Leg := if side then A x else B x.

Lemma peer_at_insert p t s i x y j side : sessions s !! i = Some x ->
  peer_at (mkState p (<[i := y]> (sessions s)) t) j side = if decide (j = i) then peer (side_of y side) else peer_at s j side.
Proof.
  intros E. unfold peer_at, leg. cbn [sessions]. destruct (decide (j = i)) as [->|Hn]; [|by rewrite list_lookup_insert_ne].
  by rewrite list_lookup_insert_eq by (by apply lookup_lt_Some in E).
Qed.

Lemma peer_at_open s i x side : sessions s !! i = Some x -> peer_at s i side = peer (side_of x side).
Proof. intros E. unfold peer_at, leg. by rewrite E. Qed.

Lemma pump_keeps src ok from to a : peer from = Some a -> peer (fst (pump src ok from to)) = Some a.
Proof. intros H. unfold pump. rewrite H. destruct (decide (a = src)), (peer to); cbn; congruence. Qed.

Lemma pump_sends src ok from to d : snd (pump src ok from to) = Some d -> peer (fst (pump src ok from to)) = Some src /\ peer to = Some d.
Proof.
  unfold pump. destruct (peer from) as [q|] eqn:E; [destruct (decide (q = src)) as [->|]|]; destruct (peer to); cbn; try done; intros [= ->]; done.
Qed.

(** A packet at a leg of an open session. *)
Lemma Packet_open i side src ok s x : sessions s !! i = Some x -> closed x = false ->
  let pd := pump src ok (side_of x side) (side_of x (negb side)) in
  Packet i side src ok s = mkState (pool s) (<[i := if side then mkSession (fst pd) (B x) false else mkSession (A x) (fst pd) false]> (sessions s))
    (sent s ++ match snd pd with Some d => if ok then [(i, side, src, d)] else [] | None => [] end).
Proof. intros E Ec. unfold Packet. rewrite E, Ec. destruct side; cbn; by destruct (pump _ _ _ _). Qed.

(** A leg keeps the source it holds to. *)
Lemma step_keeps s e i side a : peer_at s i side = Some a -> peer_at (step s e) i side = Some a.
Proof.
  intros H. destruct e as [la lb|j|j sd src ok]; cbn [step].
  - unfold Allocate. destruct (bind la _) as [r1 [p|]]; [|done]. destruct (bind lb r1) as [r2 [q|]]; [|done].
    unfold peer_at, leg in *. cbn [fst sessions]. destruct (sessions s !! i) as [x|] eqn:E; [|done]. by rewrite (lookup_app_l_Some _ _ _ _ E).
  - unfold Close. destruct (sessions s !! j) as [x|] eqn:E; [|done]. destruct (closed x); [done|]. rewrite (peer_at_insert _ _ _ _ _ _ _ _ E).
    destruct (decide (i = j)) as [->|]; [|done]. rewrite <- H, (peer_at_open _ _ _ _ E). by destruct side.
  - destruct (sessions s !! j) as [x|] eqn:E; [|unfold Packet; by rewrite E]. destruct (closed x) eqn:Ec; [unfold Packet; by rewrite E, Ec|].
    rewrite (Packet_open _ _ _ _ _ _ E Ec), (peer_at_insert _ _ _ _ _ _ _ _ E). destruct (decide (i = j)) as [->|]; [|done].
    rewrite (peer_at_open _ _ _ _ E) in H. destruct sd, side; cbn; try done; by apply pump_keeps.
Qed.

Lemma step_latched s e : latched s -> latched (step s e).
Proof.
  intros H i side src dst Hin. assert ((i, side, src, dst) ∈ sent s -> peer_at (step s e) i side = Some src /\ peer_at (step s e) i (negb side) = Some dst) as Hold.
  { intros [H1 H2]%H. split; by apply step_keeps. }
  destruct e as [la lb|j|j sd sr ok]; cbn [step] in *.
  - apply Hold. revert Hin. unfold Allocate. destruct (bind la _) as [r1 [p|]]; [|done]. by destruct (bind lb r1) as [r2 [q|]].
  - apply Hold. revert Hin. unfold Close. destruct (sessions s !! j) as [x|]; [|done]. by destruct (closed x).
  - destruct (sessions s !! j) as [x|] eqn:E; [|unfold Packet in *; rewrite E in *; by apply Hold].
    destruct (closed x) eqn:Ec; [unfold Packet in *; rewrite E, Ec in *; by apply Hold|].
    rewrite (Packet_open _ _ _ _ _ _ E Ec) in Hin, Hold |- *.
    cbn [sent] in Hin. apply elem_of_app in Hin as [Hin|Hin]; [by apply Hold|].
    destruct (snd (pump _ _ _ _)) as [d|] eqn:Ed; [|by apply not_elem_of_nil in Hin]. destruct ok; [|by apply not_elem_of_nil in Hin].
    apply list_elem_of_singleton in Hin as [= -> -> -> ->]. rewrite !(peer_at_insert _ _ _ _ _ _ _ _ E), !decide_True by done.
    apply pump_sends in Ed as [E1 E2]. destruct sd; split; [exact E1|exact E2|exact E1|exact E2].
Qed.

(** whatever is heard at the legs of the sessions, from anywhere and in any order: of two packets sent on from one
    leg, however far apart, both came from one address and both went to one address. The leg holds to the first source
    it hears, and so does the other. *)
Theorem a_leg_holds_to_one_source r es i side src dst src' dst' :
  (i, side, src, dst) ∈ sent (run es r) -> (i, side, src', dst') ∈ sent (run es r) -> src = src' /\ dst = dst'.
Proof.
  intros H1 H2. assert (latched (run es r)) as Hl.
  { unfold run. assert (latched (mkState r [] [])) as H0 by (intros ???? Hn; by apply not_elem_of_nil in Hn).
    revert H0. generalize (mkState r [] []). clear. induction es as [|e es IH]; intros s Hs; [done|]. apply IH, step_latched, Hs. }
  apply Hl in H1 as [A1 B1]. apply Hl in H2 as [A2 B2]. split; congruence.
Qed.

(** ** Examples *)

Definition four : list event := [EAllocate (fun _ => true) (fun p => negb (p =? 4001)); EPacket 0 true (1, 7) true; EPacket 0 false (2, 9) true;
  EPacket 0 true (3, 7) true; EPacket 0 true (1, 7) true; EPacket 0 true (1, 7) true; EAllocate (fun _ => true) (fun _ => true); EClose 0;
  EAllocate (fun _ => true) (fun _ => true)].

Definition range4 : Relay := mkRelay 4000 4003 4000 ∅.

Example four_runs :
  (open_ports (sessions (run four range4)), map (fun '(i, side, src, dst) => (side, src, dst)) (sent (run four range4)))
  = ([4003; 4001; 4002; 4000], [(false, (2, 9), (1, 7)); (true, (1, 7), (2, 9)); (true, (1, 7), (2, 9))]).
Proof. vm_compute. reflexivity. Qed.

(** All four ports taken by two sessions: a third is refused. *)
Lemma a_port_is_one_legs_witness :
  New 4000 4003 = Some range4 /\ snd (Allocate (fun _ => true) (fun _ => true) (run four range4)) = false
  /\ NoDup (open_ports (sessions (run four range4))).
Proof.
  assert (New 4000 4003 = Some range4) as E by reflexivity. split; [exact E|]. split; [vm_compute; reflexivity|].
  exact (proj1 (a_port_is_one_legs 4000 4003 range4 four E)).
Defined.

Lemma a_leg_holds_to_one_source_witness :
  (0%nat, true, (1, 7), (2, 9)) ∈ sent (run four range4) /\ (1, 7) = (1, 7) :> addr /\ (2, 9) = (2, 9) :> addr.
Proof.
  assert ((0%nat, true, (1, 7), (2, 9)) ∈ sent (run four range4)) as H by (vm_compute; right; left).
  split; [exact H|]. exact (a_leg_holds_to_one_source range4 four 0 true (1, 7) (2, 9) (1, 7) (2, 9) H H).
Defined.
