(* ===== verification/CertFile.v ===== *)
(** The server's certificate and its TLS configurations
    (src/server/internal/tlsutil/tlsutil.go; certFingerprint of
    src/server/cmd/dialpark-server/main.go).

    - A certificate with its key is of a type of its own, with the DER of its chain. The PEM of
      both, tls.LoadX509KeyPair over their texts, x509.CreateCertificate and SHA-256 are
      arguments; that a pair reads back what was encoded is the hypothesis [reads_back].
    - Whether the two kept files can be read at a start, what becomes of each write, and
      what is drawn are the start's. *)

From S2P Require Import Prelude Text Base64 Secrets.
Open Scope Z_scope.

Definition VersionTLS12 : Z := 771.
Definition VersionTLS13 : Z := 772.

Definition MinTLSVersion (s : text) : option Z :=
  let s := TrimSpace s in
  if decide (s = [] \/ s = T "1.2") then Some VersionTLS12 else if decide (s = T "1.3") then Some VersionTLS13 else None.

Definition year : Z := 365 * 24 * ns_hour.

Section certificates.
Context {cert key pool ip : Type} (Certificate : cert -> list (list Z)).
Context (ParseIP : text -> option ip) (certPEM keyPEM : cert -> text) (X509KeyPair : text -> text -> option cert).
Context (AppendCertsFromPEM : text -> option pool) (Sum256 : list Z -> list Z).

Inductive client_auth := NoClientCert | VerifyClientCertIfGiven.

Record tls_Config := mkTLS {
  Certificates : list cert; MinVersion : Z; InsecureSkipVerify : bool;
  RootCAs : option pool; ClientCAs : option pool; ClientAuth : client_auth }.

Definition server_config (c : cert) : tls_Config := mkTLS [c] VersionTLS13 false None None NoClientCert.

(** ** A certificate of its own *)

Record template := mkTemplate { SerialNumber : Z; NotBefore : Z; NotAfter : Z; IPAddresses : list ip; DNSNames : list text }.

Definition add_host (t : template) (h : text) : template :=
  match ParseIP h with
  | Some i => mkTemplate (SerialNumber t) (NotBefore t) (NotAfter t) (IPAddresses t ++ [i]) (DNSNames t)
  | None => if decide (h = []) then t else mkTemplate (SerialNumber t) (NotBefore t) (NotAfter t) (IPAddresses t) (DNSNames t ++ [h])
  end.

(** The key and the serial number are drawn. *)
Definition SelfSigned (CreateCertificate : template -> key -> option cert) (now : Z) (k : option key) (serial : option Z) (hosts : list text) : option cert :=
  k ← k; serial ← serial;
  CreateCertificate (foldl add_host (mkTemplate serial (now - ns_hour) (now + year) [] []) hosts) k.

(** ** Kept between starts *)

Record cache := mkCache { pem_file : option text; key_file_ : option text }.

(** One start: whether the files that are there can be read, the certificate it would
    make, and what becomes of the directory and of the two files it writes. *)
Record boot := mkBoot { can_read : bool; fresh : option cert; dir_ok : bool; key_fate : write_fate; pem_fate : write_fate }.

Inductive cert_error := ErrSelfSigned | ErrKeep | ErrLoad.

Definition os_WriteFile (w : write_fate) (f : option text) (raw : text) : option text * bool :=
  match w with
  | NoDir | NotOpened => (f, false)
  | Short n => (Some (take n raw), false)
  | Full closed => (Some raw, closed)
  end.

Definition LoadX509KeyPair (readable : bool) (c : cache) : option cert :=
  if readable then p ← pem_file c; k ← key_file_ c; X509KeyPair p k else None.

Definition keepSelfSigned (x : boot) (c : cert) (f : cache) : cache * bool :=
  if negb (dir_ok x) then (f, false) else
  let '(k, ok) := os_WriteFile (key_fate x) (key_file_ f) (keyPEM c) in
  let f := mkCache (pem_file f) k in
  if negb ok then (f, false) else
  let '(p, ok) := os_WriteFile (pem_fate x) (pem_file f) (certPEM c) in
  (mkCache p (key_file_ f), ok).

(** [LoadOrKeep] with no files given, and somewhere to keep them. *)
Definition keep (x : boot) (f : cache) : cache * (cert_error + tls_Config) :=
  match LoadX509KeyPair (can_read x) f with
  | Some c => (f, inr (server_config c))
  | None =>
      match fresh x with
      | None => (f, inl ErrSelfSigned)
      | Some c => let '(f, ok) := keepSelfSigned x c f in (f, if ok then inr (server_config c) else inl ErrKeep)
      end
  end.

(** [given]: the pair of files named, as read. *)
Definition Load (named : bool) (given : option cert) (x : boot) : cert_error + tls_Config * bool :=
  if named then match given with Some c => inr (server_config c, false) | None => inl ErrLoad end
  else match fresh x with Some c => inr (server_config c, true) | None => inl ErrSelfSigned end.

Definition LoadOrKeep (named : bool) (given : option cert) (cached : bool) (x : boot) (f : cache) : cache * (cert_error + tls_Config * bool) :=
  if named || negb cached then (f, Load named given x)
  else let '(f, r) := keep x f in (f, match r with inr c => inr (c, true) | inl e => inl e end).

(** What the phones pin. *)
Definition certFingerprint (c : option tls_Config) : text :=
  match c with
  | Some c =>
      match Certificates c with
      | [] => []
      | x :: _ => match Certificate x with [] => [] | der :: _ => Base64.Encode (Sum256 der) end
      end
  | None => []
  end.

(** ** The PBX leg *)

Definition PeerConfig (named : bool) (given : option cert) (ca_named : bool) (ca : option text) (minVersion : Z) (insecure : bool) : option tls_Config :=
  certs ← (if named then c ← given; Some [c] else Some []);
  if ca_named then
    pem ← ca; p ← AppendCertsFromPEM pem;
    Some (mkTLS certs minVersion insecure (Some p) (Some p) VerifyClientCertIfGiven)
  else Some (mkTLS certs minVersion insecure None None NoClientCert).

(** ** What the starts of one server present *)

(** [xs] one after another: what each presented, and the files in the end. *)
Fixpoint boots (xs : list boot) (f : cache) : list (cert_error + tls_Config) * cache :=
  match xs with
  | [] => ([], f)
  | x :: xs => let '(f, r) := keep x f in let '(rs, f) := boots xs f in (r :: rs, f)
  end.

Class reads_back : Prop := pair_reads_back : forall c, X509KeyPair (certPEM c) (keyPEM c) = Some c.

Lemma boots_settled xs f c : Forall (fun x => can_read x = true) xs -> LoadX509KeyPair true f = Some c ->
  boots xs f = (map (fun _ => inr (server_config c)) xs, f).
Proof.
  intros Hx Hf. induction Hx as [|x xs Hx _ IH]; [done|]. cbn [boots map]. unfold keep. by rewrite Hx, Hf, IH.
Qed.

(** After a start that presents a certificate the files hold it. *)
Lemma keep_settles `{!reads_back} x f f' r : keep x f = (f', inr r) -> exists c, r = server_config c /\ LoadX509KeyPair true f' = Some c.
Proof.
  unfold keep. destruct (LoadX509KeyPair (can_read x) f) as [c|] eqn:E.
  - intros [= <- <-]. exists c. split; [done|]. unfold LoadX509KeyPair in E. by destruct (can_read x).
  - destruct (fresh x) as [c|]; [|done]. unfold keepSelfSigned. destruct (dir_ok x); [|done]. cbn [negb].
    destruct (key_fate x) as [| | |[]]; cbn; try done. destruct (pem_fate x) as [| | |[]]; cbn; try done.
    intros [= <- <-]. exists c. split; [done|]. cbn. apply pair_reads_back.
Qed.

(** C16: once a start has presented a certificate, whatever the starts before it met and left behind: as long as every
    start since could read the kept files, each of them presents the same certificate, with the fingerprint that the phones
    pinned, and writes no file. Of X.509 it is asked that a pair as it is written reads back as that pair. *)
Theorem a_pin_survives_restarts `{!reads_back} x xs f f' r :
  keep x f = (f', inr r) -> Forall (fun y => can_read y = true) xs ->
  boots xs f' = (replicate (length xs) (inr r), f')
  /\ forall r', inr r' ∈ fst (boots xs f') -> certFingerprint (Some r') = certFingerprint (Some r).
Proof.
  intros Hk Hx. apply keep_settles in Hk as (c&->&Hl). rewrite (boots_settled xs f' c) by done.
  assert (map (fun _ : boot => inr (server_config c)) xs = replicate (length xs) (inr (A := cert_error) (server_config c))) as ->.
  { clear. induction xs; [done|]. cbn. by f_equal. }
  split; [done|]. intros r' Hr. apply elem_of_replicate_inv in Hr. by injection Hr as ->.
Qed.

(** A start that cannot read the files it kept writes others in their place, and what
    every later start presents is not what the phones pinned. *)
Lemma an_unread_pair_is_replaced `{!reads_back} x f d xs : can_read x = false -> fresh x = Some d -> dir_ok x = true ->
  key_fate x = Full true -> pem_fate x = Full true -> Forall (fun y => can_read y = true) xs ->
  fst (boots (x :: xs) f) = replicate (S (length xs)) (inr (server_config d)).
Proof.
  intros Hr Hd Ho Hk Hp Hx. assert (keep x f = (mkCache (Some (certPEM d)) (Some (keyPEM d)), inr (server_config d))) as E.
  { unfold keep, keepSelfSigned. rewrite Hr. cbn [LoadX509KeyPair]. rewrite Hd, Ho. cbn. rewrite Hk, Hp. done. }
  cbn [boots]. rewrite E, (boots_settled xs _ d Hx) by apply pair_reads_back. cbn [fst replicate]. f_equal.
  clear. induction xs; [done|]. cbn. by f_equal.
Qed.

(** ** The names of a certificate of its own *)

(** A host is in it as an address exactly if it is one, in the order given. *)
Lemma add_hosts_names hosts t :
  let t' := foldl add_host t hosts in
  IPAddresses t' = IPAddresses t ++ omap ParseIP hosts
  /\ DNSNames t' = DNSNames t ++ filter (fun h => h <> [] /\ ParseIP h = None) hosts.
Proof.
  revert t. induction hosts as [|h hosts IH]; intros t; cbn; [by rewrite !app_nil_r|].
  destruct (IH (add_host t h)) as [-> ->]. unfold add_host. destruct (ParseIP h) as [i|] eqn:E; [|destruct (decide (h = [])) as [->|Hn]]; cbn.
  - rewrite <- app_assoc, decide_False by (by intros []). done.
  - rewrite decide_False by (by intros []). done.
  - rewrite <- app_assoc, decide_True by done. done.
Qed.

(** ** The PBX leg *)

(** Nothing below the version asked for, checked against the roots unless told not to,
    and never with a certificate that is not the one named. *)
Lemma PeerConfig_spec named given ca_named ca v insecure c : PeerConfig named given ca_named ca v insecure = Some c ->
  MinVersion c = v /\ InsecureSkipVerify c = insecure /\ (named = false -> Certificates c = []) /\ (named = true -> exists x, given = Some x /\ Certificates c = [x])
  /\ (ca_named = true <-> is_Some (RootCAs c)) /\ RootCAs c = ClientCAs c.
Proof.
  unfold PeerConfig. destruct named; [destruct given as [x|]; [|done]|]; cbn; (destruct ca_named; [destruct ca as [pem|]; [|done]; cbn;
    destruct (AppendCertsFromPEM pem) as [p|]; [|done]; cbn|]); intros [= <-]; cbn; repeat split; try done; try (intros; by eexists); by intros [].
Qed.
End certificates.

Lemma MinTLSVersion_range s v : MinTLSVersion s = Some v -> VersionTLS12 <= v <= VersionTLS13.
Proof. unfold MinTLSVersion. destruct (decide _); [intros [= <-]; done|]. destruct (decide _); [intros [= <-]; done|done]. Qed.

(** ** Examples *)

Module Example.
Definition pem (c : bool) : text := if c then T "PEM 1" else T "PEM 0".
Definition pair (p k : text) : option bool :=
  if decide (p = k) then if decide (p = pem true) then Some true else if decide (p = pem false) then Some false else None else None.

#[export] Instance pairs_read_back : reads_back pem pem pair.
Proof. by intros []. Qed.

Definition mint (c : bool) (readable : bool) : @boot bool := mkBoot readable (Some c) true (Full true) (Full true).
Definition cut_short : @boot bool := mkBoot true (Some false) true (Full true) (Short 3).

(** A first start cut short, then three of which the second cannot read what is there. *)
Example some_starts :
  map (fun r => match r with inr c => Certificates c | inl _ => [] end)
    (fst (boots (pool := unit) pem pem pair [cut_short; mint true true; mint false true; mint false false; mint true true] (mkCache None None)))
  = [[]; [true]; [true]; [false]; [false]].
Proof. vm_compute. reflexivity. Qed.

Lemma a_pin_survives_restarts_witness :
  let after := mkCache (Some (pem true)) (Some (pem true)) in
  keep (pool := unit) pem pem pair (mint true true) (mkCache None None) = (after, inr (server_config true))
  /\ fst (boots (pool := unit) pem pem pair [mint false true; cut_short] after) = [inr (server_config true); inr (server_config true)].
Proof.
  intros after. assert (keep (pool := unit) pem pem pair (mint true true) (mkCache None None) = (after, inr (server_config true))) as E by reflexivity.
  split; [exact E|]. assert (Forall (fun y => can_read y = true) [mint false true; cut_short]) as H by (repeat constructor).
  exact (f_equal fst (proj1 (a_pin_survives_restarts (fun _ => []) pem pem pair (fun x => x) (mint true true) [mint false true; cut_short]
    (mkCache None None) after (server_config true) E H))).
Defined.
End Example.
