(* ===== verification/Startup.v ===== *)
(** How the server comes up (src/server/cmd/dialpark-server/main.go and pbxlines.go;
    New, mediaOptions, TrunkContact of src/server/internal/b2bua; main of
    src/server/cmd/dialpark-admin for the token; src/server/internal/qos/qos.go): from the flags to the listeners, the
    registrar of lines mode, the addresses phones and the PBX are given, and the fixed
    half of the server view.

    - Arguments: the files that flags name, as read; the interfaces of the host; what is
      drawn; whether each store opens and each listener can listen; and those of
      [CertFile].
    - What the stores and the running parts do is in their own files. *)

From S2P Require Import Prelude Text Net Base64 Trunk CertFile.
From S2P Require AppLeg Secrets PbxRegister Registry Wire FrontDoor.
Open Scope Z_scope.

Local Notation "'let?' x := e 'in' k" := (match e with inl err => inl err | inr x => k end) (at level 10, x pattern, k at level 200).

(** ** Flags *)

Inductive start_error :=
  | BadTLSMin | BadSRTP | BadCodecs | BadMode | BadToken | BadLogLevel
  | CertError (e : cert_error) | StoreError | BadTrunk | TrunkTLSError | BadSIPAddr
  | NoTLS | NoExternalHost | UAError | BadTrunkBind | Collides
  | NoPBX | NoClient | NoContact | BadRegistrar | BadHTTPAddr | ListenError.

Definition some_or {A} (e : start_error) (o : option A) : start_error + A := match o with Some a => inr a | None => inl e end.

Inductive token_error := NotBoth | NotRead | Empty.

(** [readFile]: the file named, as read. *)
Definition resolveAdminToken (literal file : text) (readFile : text -> option text) : token_error + text :=
  if decide (file = []) then inr literal else
  if negb (bool_decide (literal = [])) then inl NotBoth else
  match readFile file with
  | None => inl NotRead
  | Some b => let tok := TrimSpace b in if decide (tok = []) then inl Empty else inr tok
  end.

Definition parsePBXMode (s : text) : option bool :=
  let s := ToLower (TrimSpace s) in
  if decide (s = [] \/ s = T "trunk") then Some false else if decide (s = T "lines") then Some true else None.

Definition splitList (s : text) : list text := filter (fun p => p <> []) (map TrimSpace (Split s ","%char)).

(** slog's names, with an offset. *)
Definition level_base (name : text) : option Z :=
  let name := ToLower name in
  if decide (name = T "debug") then Some (-4) else if decide (name = T "info") then Some 0
  else if decide (name = T "warn") then Some 4 else if decide (name = T "error") then Some 8 else None.

Fixpoint IndexSign (s : text) : option nat :=
  match s with
  | [] => None
  | c :: s => if decide (c = "+"%char \/ c = "-"%char) then Some 0%nat else S <$> IndexSign s
  end.

Definition UnmarshalText (s : text) : option Z :=
  match IndexSign s with
  | Some i => b ← level_base (take i s); n ← Atoi (drop i s); Some (b + n)
  | None => level_base s
  end.

Definition level_offset (n : Z) : text := if n =? 0 then [] else if n <? 0 then T "-" ++ Itoa (- n) else T "+" ++ Itoa n.

Definition level_String (l : Z) : text :=
  if l <? 0 then T "DEBUG" ++ level_offset (l + 4) else if l <? 4 then T "INFO" ++ level_offset l
  else if l <? 8 then T "WARN" ++ level_offset (l - 4) else T "ERROR" ++ level_offset (l - 8).

Record options := mkOptions {
  signalAddr : text; sipAddr : text; httpAddr : text; adminAddr : text; diagRetain : Z;
  logLevel : Z; logJSON : bool; sipTrace : bool; certFile : text; keyFile : text;
  publicHost : text; localDomain : text; dataDir : text; adminToken : text;
  ringTimeout : Z; rtpMin : Z; rtpMax : Z; keepAdvertisedContact : bool; noSymmetricRTP : bool;
  publicSIPPort : Z; publicHTTPPort : Z; trunk : text; trunkAddr : text; trunkExternalHost : text;
  trunkCodecs : list Codec; trunkSRTP : TrunkSRTPMode; trunkQualify : Z; peerTimeout : Z;
  trunkCert : text; trunkKey : text; trunkCA : text; trunkTLSInsecure : bool; trunkTLSMin : Z;
  pbxLines : bool; pbxRegistrar : text; pbxDomain : text; pbxPeers : list text; pbxExpiry : Z; pbxDefaultLine : text }.

(** The flags that main reads a value out of. *)
Record raw_flags := mkRaw {
  f_trunkTLSMin : text; f_trunkSRTP : text; f_trunkCodecs : text; f_pbxMode : text; f_adminToken : text; f_adminTokFile : text;
  f_logLevel : text; f_rewrite : bool; f_rtpSym : bool; f_pbxPeers : text }.

(** [o]: the flags that are passed on as they are. *)
Definition main (f : raw_flags) (readFile : text -> option text) (o : options) : start_error + options :=
  let? tls := some_or BadTLSMin (MinTLSVersion (f_trunkTLSMin f)) in
  let? srtp := some_or BadSRTP (ParseTrunkSRTP (f_trunkSRTP f)) in
  let? codecs := some_or BadCodecs (ParseCodecs (f_trunkCodecs f)) in
  let? lines := some_or BadMode (parsePBXMode (f_pbxMode f)) in
  match resolveAdminToken (f_adminToken f) (f_adminTokFile f) readFile with
  | inl _ => inl BadToken
  | inr tok =>
      let? level := some_or BadLogLevel (UnmarshalText (f_logLevel f)) in
      inr (mkOptions (signalAddr o) (sipAddr o) (httpAddr o) (adminAddr o) (diagRetain o) level (logJSON o) (sipTrace o) (certFile o) (keyFile o)
        (publicHost o) (localDomain o) (dataDir o) tok (ringTimeout o) (rtpMin o) (rtpMax o) (negb (f_rewrite f)) (negb (f_rtpSym f))
        (publicSIPPort o) (publicHTTPPort o) (trunk o) (trunkAddr o) (trunkExternalHost o) codecs srtp (trunkQualify o) (peerTimeout o)
        (trunkCert o) (trunkKey o) (trunkCA o) (trunkTLSInsecure o) tls lines (pbxRegistrar o) (pbxDomain o) (splitList (f_pbxPeers f)) (pbxExpiry o)
        (pbxDefaultLine o))
  end.

(** The token of the operator's console, from the same flags. *)
Definition readSecret (path : text) (readFile : text -> option text) : token_error + text :=
  match readFile path with
  | None => inl NotRead
  | Some b => let s := TrimSpace b in if decide (s = []) then inl Empty else inr s
  end.

(** [None]: the flag is required. *)
Definition console_token (token tokenFile : text) (readFile : text -> option text) : option (token_error + text) :=
  if negb (bool_decide (tokenFile = [])) && negb (bool_decide (token = [])) then Some (inl NotBoth)
  else if negb (bool_decide (tokenFile = [])) then Some (readSecret tokenFile readFile)
  else if decide (token = []) then None else Some (inr token).

(** ** The host *)

Record ifaddr := mkIfaddr { is_IPNet : bool; IsLoopback : bool; is_v4 : bool; a_ip : text }.

Definition firstIPv4 (addrs : option (list ifaddr)) : text :=
  match addrs with
  | None => T "127.0.0.1"
  | Some l => match List.find (fun a => is_IPNet a && negb (IsLoopback a) && is_v4 a) l with Some a => a_ip a | None => T "127.0.0.1" end
  end.

(** [true]: nothing is wrong with it. *)
Definition checkPublicHost (is_ip : text -> bool) (same_ip : text -> text -> bool) (host : text) (addrs : option (list ifaddr)) : bool :=
  if negb (is_ip host) then true else
  match addrs with None => true | Some l => existsb (fun a => is_IPNet a && same_ip (a_ip a) host) l end.

(** ** The call server's transports *)

Section server.
Context {cert key pool ip leaf : Type}.
Local Abbreviation tls_Config := (@CertFile.tls_Config cert pool).

Record B2bua := mkB2bua {
  leg : AppLeg.Config; TLS : option tls_Config; RTPPortStart : Z; RTPPortEnd : Z; NoSymmetricRTP : bool;
  TrunkBind : text; TrunkExternalHost : text; TrunkCodecs : list Codec; TrunkSRTP : TrunkSRTPMode; TrunkQualify : Z; TrunkTLS : option tls_Config;
  PBXDomain : text; DefaultLine : text }.

Record Transport := mkTransport {
  ID : text; t_Transport : text; t_BindHost : text; BindPort : Z; t_ExternalHost : text; ExternalPort : Z; TLSConf : option tls_Config;
  RewriteContact : bool; MediaSRTP : Z }.

Definition mediaOptions (c : B2bua) : Transport :=
  mkTransport transportApp (T "tls") (AppLeg.BindHost (leg c)) (AppLeg.CPort (leg c)) (AppLeg.ExternalHost (leg c))
    (if decide (AppLeg.PublicPort (leg c) = 0) then AppLeg.CPort (leg c) else AppLeg.PublicPort (leg c)) (TLS c) true 1.

Definition trunk_transport (c : B2bua) (t : Trunk) (host : text) (port : Z) (first : text) : Transport :=
  mkTransport transportTrunk (Trunk.Transport t) host port (if decide (TrunkExternalHost c = []) then first else TrunkExternalHost c) port (TrunkTLS c)
    false (srtpOption (TrunkSRTP c)).

Definition collides (c : B2bua) (host : text) (port : Z) : bool :=
  bool_decide (port = AppLeg.CPort (leg c)) && (bool_decide (host = AppLeg.BindHost (leg c)) || bool_decide (host = T "0.0.0.0") || bool_decide (AppLeg.BindHost (leg c) = T "0.0.0.0")).

(** The media library's port range, (0, 0) as it starts: any port. *)
Definition rtp_range (c : B2bua) : Z * Z := if (0 <? RTPPortStart c) && (RTPPortStart c <? RTPPortEnd c) then (RTPPortStart c, RTPPortEnd c) else (0, 0).

Definition with_leg (c : B2bua) (l : AppLeg.Config) : B2bua :=
  mkB2bua l (TLS c) (RTPPortStart c) (RTPPortEnd c) (NoSymmetricRTP c) (TrunkBind c) (TrunkExternalHost c) (TrunkCodecs c) (TrunkSRTP c) (TrunkQualify c)
    (TrunkTLS c) (PBXDomain c) (DefaultLine c).

Record b2bua_Server := mkServer { cfg : B2bua; transports : list Transport; media_ports : Z * Z }.

(** [first]: the first address of the host; [ua]: the SIP stack comes up. *)
Definition b2bua_New (c : B2bua) (first : text) (ua : bool) : start_error + b2bua_Server :=
  let c := with_leg c (AppLeg.withDefaults (leg c)) in
  match TLS c with
  | None => inl NoTLS
  | Some _ =>
      if decide (AppLeg.ExternalHost (leg c) = []) then inl NoExternalHost else
      if negb ua then inl UAError else
      match AppLeg.CTrunk (leg c) with
      | None => inr (mkServer c [mediaOptions c] (rtp_range c))
      | Some t =>
          match trunkBind (TrunkBind c) t with
          | None => inl BadTrunkBind
          | Some (host, port) =>
              if collides c host port then inl Collides
              else inr (mkServer c [trunk_transport c t host port first; mediaOptions c] (rtp_range c))
          end
      end
  end.

(** Host, port and transport of a SIP address. *)
Definition sip_addr : Type := text * Z * text.

Definition TrunkClient (s : b2bua_Server) : bool := match AppLeg.CTrunk (leg (cfg s)) with None => false | Some _ => true end.

Definition TrunkContact (s : b2bua_Server) (first : text) : option sip_addr :=
  t ← AppLeg.CTrunk (leg (cfg s)); '(_, port) ← trunkBind (TrunkBind (cfg s)) t;
  Some (if decide (TrunkExternalHost (cfg s) = []) then first else TrunkExternalHost (cfg s), port, ToLower (Trunk.Transport t)).

(** ** Lines mode *)

Definition registrarURI (spec : text) (t : Trunk) : option sip_addr :=
  let spec := TrimSpace spec in
  hp ← (if decide (spec = []) then Some (Host t, Port t) else
    let spec := TrimPrefix spec (T "sip:") in
    '(host, port) ← match SplitHostPort spec with
                    | None => Some (TrimBrackets spec, Port t)
                    | Some (h, p) => n ← port_number p; Some (h, n)
                    end;
    if decide (host = []) then None else Some (host, port));
  Some (fst hp, snd hp, ToLower (Trunk.Transport t)).

Definition startPBXLines (o : options) (t : option Trunk) (s : b2bua_Server) (first : text) : start_error + PbxRegister.SIPConfig :=
  match t with
  | None => inl NoPBX
  | Some t =>
      if negb (TrunkClient s) then inl NoClient else
      let? (c_host, c_port, _) := some_or NoContact (TrunkContact s first) in
      let? (host, port, transport) := some_or BadRegistrar (registrarURI (pbxRegistrar o) t) in
      let domain := if decide (pbxDomain o = []) then Host t else pbxDomain o in
      some_or BadRegistrar (PbxRegister.NewSIPRegistrar true
        (PbxRegister.mkSIPConfig (to_string host) port (Some (to_string transport)) (to_string domain) (to_string c_host) c_port "dialpark"))
  end.

(** ** The view of the configuration *)

Definition seconds (d : Z) : Z := Z.quot d ns_second.

Definition tlsVersionName (v : Z) : text :=
  if decide (v = VersionTLS13) then T "1.3" else if decide (v = VersionTLS12) then T "1.2" else T "0x" ++ EncodeHex [v / 256; v mod 256].

Definition Codec_Name (c : Codec) : text := match c with G722 => T "G722" | Ulaw => T "PCMU" | Alaw => T "PCMA" | Opus => T "opus" end.

Definition srtp_name (m : TrunkSRTPMode) : text := match m with TrunkSRTPOff => T "off" | TrunkSRTPSDES => T "sdes" end.

Record Listeners := mkListeners { l_Signal : text; l_SIP : text; l_HTTP : text; l_Admin : text; l_Trunk : text }.
Record TLSInfo := mkTLSInfo { SelfSigned_ : bool; Fingerprint : text; Leaf : option leaf }.
Record TrunkTLSInfo := mkTrunkTLSInfo { CertSet : bool; CASet : bool; Insecure : bool; MinVersionName : text }.
Record TrunkInfo := mkTrunkInfo {
  i_URI : text; i_Transport : text; i_SRTP : text; i_Codecs : list text; QualifyIntervalSeconds : Z; i_TLS : TrunkTLSInfo }.
Record PBXInfo := mkPBXInfo { i_Registrar : text; i_Domain : text; i_Peers : list text; RegisterExpirySeconds : Z; i_DefaultLine : text }.
Record LogStartup := mkLogStartup { s_Level : text; s_JSON : bool; s_SIPTrace : bool }.

Record Info := mkInfo {
  i_Version : text; StartedAt : Z; Mode : text; i_Listeners : Listeners; i_PublicHost : text; i_LocalDomain : text; PublicSIPPort : Z; PublicHTTPPort : Z;
  i_TLSInfo : TLSInfo; i_Trunk : option TrunkInfo; i_PBX : option PBXInfo; RingTimeout : Z; PeerTimeout : Z; RTP : Z * Z * bool; DataDir : text;
  DiagRetain : Z; Log : LogStartup }.

Section info.
Context (version : text) (Certificate : cert -> list (list Z)) (ParseCertificate : list Z -> option leaf) (Sum256 : list Z -> list Z).

Definition leaf_of (c : option tls_Config) : option leaf :=
  c ← c; x ← head (Certificates c); der ← head (Certificate x); ParseCertificate der.

Definition trunk_info (o : options) (t : Trunk) : TrunkInfo :=
  mkTrunkInfo (trunk o) (ToLower (Trunk.Transport t)) (srtp_name (trunkSRTP o)) (map Codec_Name (trunkCodecs o)) (seconds (trunkQualify o))
    (mkTrunkTLSInfo (negb (bool_decide (trunkCert o = []))) (negb (bool_decide (trunkCA o = []))) (trunkTLSInsecure o) (tlsVersionName (trunkTLSMin o))).

Definition serverInfo (o : options) (tlsCfg : option tls_Config) (t : option Trunk) (started : Z) : Info :=
  mkInfo version started
    (if pbxLines o then T "lines" else match t with Some _ => T "trunk" | None => T "standalone" end)
    (mkListeners (signalAddr o) (sipAddr o) (httpAddr o) (adminAddr o) (match t with Some _ => trunkAddr o | None => [] end))
    (publicHost o) (localDomain o) (publicSIPPort o) (publicHTTPPort o)
    (mkTLSInfo (bool_decide (certFile o = [])) (certFingerprint Certificate Sum256 tlsCfg) (leaf_of tlsCfg))
    (trunk_info o <$> t)
    (if pbxLines o then Some (mkPBXInfo (pbxRegistrar o) (pbxDomain o) (pbxPeers o) (seconds (pbxExpiry o)) (pbxDefaultLine o)) else None)
    (seconds (ringTimeout o)) (seconds (peerTimeout o)) (rtpMin o, rtpMax o, negb (noSymmetricRTP o)) (dataDir o) (seconds (diagRetain o))
    (mkLogStartup (ToLower (level_String (logLevel o))) (logJSON o) (sipTrace o)).
End info.

(** ** run *)

Definition DSCPEF : Z := 46.
Definition DSCPCS3 : Z := 24.

Inductive warning :=
  | WPublicHost | WGeneratedToken | WSelfSigned | WNoTrunkCert | WTrunkInsecure | WTrunkTLSIgnored | WPBXIgnored | WKeysInTheClear.

Inductive store_name := Devices | KeyFile | InstallID | Directories | Migration.
Inductive listener := LSignal | LHTTP | LAdmin.

(** A listener of main: its address, its TLS ([None]: none), the connections it takes at
    once and the marking of its sockets, where they are bounded and marked. *)
Record Listener := mkListener { serves : listener; l_addr : text; l_tls : option tls_Config; l_limit : option Z; l_dscp : option Z }.

(** What a start finds on its host. *)
Record env := mkEnv {
  addrs : option (list ifaddr); random16 : list Z; e_boot : @boot cert; e_cache : cache; KeyPair : text -> text -> option cert; ReadFile : text -> option text;
  opens : store_name -> bool; ua_ok : bool; listens : listener -> bool; now : Z }.

(** The server as it starts to serve. *)
Record Started := mkStarted {
  opts : options; tlsCfg : tls_Config; selfSigned : bool; trunkCfg : option Trunk; trunkTLS : option tls_Config; calls : b2bua_Server;
  account_Port : Z; lines : option PbxRegister.SIPConfig; link_Port : Z; enrol_SignalPort : Z; serving : list Listener; warned : list warning }.

Context (is_ip : text -> bool) (same_ip : text -> text -> bool).
Context (certPEM keyPEM : cert -> text) (X509KeyPair : text -> text -> option cert) (AppendCertsFromPEM : text -> option pool).

Definition with_host (o : options) (host domain token : text) : options :=
  mkOptions (signalAddr o) (sipAddr o) (httpAddr o) (adminAddr o) (diagRetain o) (logLevel o) (logJSON o) (sipTrace o) (certFile o) (keyFile o)
    host domain (dataDir o) token (ringTimeout o) (rtpMin o) (rtpMax o) (keepAdvertisedContact o) (noSymmetricRTP o)
    (publicSIPPort o) (publicHTTPPort o) (trunk o) (trunkAddr o) (trunkExternalHost o) (trunkCodecs o) (trunkSRTP o) (trunkQualify o) (peerTimeout o)
    (trunkCert o) (trunkKey o) (trunkCA o) (trunkTLSInsecure o) (trunkTLSMin o) (pbxLines o) (pbxRegistrar o) (pbxDomain o) (pbxPeers o) (pbxExpiry o)
    (pbxDefaultLine o).

Definition warn (b : bool) (w : warning) : list warning := if b then [w] else [].

(** The host, the domain and the token. *)
Definition resolve (e : env) (o : options) : options * list warning :=
  let host := if decide (publicHost o = []) then firstIPv4 (addrs e) else publicHost o in
  let domain := if decide (localDomain o = []) then host else localDomain o in
  let generated := bool_decide (adminToken o = []) in
  (with_host o host domain (if generated then EncodeHex (random16 e) else adminToken o),
   warn (negb (checkPublicHost is_ip same_ip host (addrs e))) WPublicHost ++ warn generated WGeneratedToken).

(** The PBX peer and its TLS. *)
Definition trunk_leg (e : env) (o : options) : start_error + option Trunk * option tls_Config * list warning :=
  if decide (trunk o = []) then inr (None, None, []) else
  let? t := some_or BadTrunk (ParseTrunk (trunk o)) in
  if EqualFold (Trunk.Transport t) (T "tls") then
    let? c := some_or TrunkTLSError (PeerConfig AppendCertsFromPEM (negb (bool_decide (trunkCert o = [] /\ trunkKey o = []))) (KeyPair e (trunkCert o) (trunkKey o))
      (negb (bool_decide (trunkCA o = []))) (ReadFile e (trunkCA o)) (trunkTLSMin o) (trunkTLSInsecure o)) in
    inr (Some t, Some c, warn (bool_decide (trunkCert o = [])) WNoTrunkCert ++ warn (trunkTLSInsecure o) WTrunkInsecure)
  else inr (Some t, None, warn (negb (bool_decide (trunkCert o = [])) || negb (bool_decide (trunkCA o = [])) || trunkTLSInsecure o) WTrunkTLSIgnored).

Definition b2bua_config (o : options) (tls : tls_Config) (t : option Trunk) (tTLS : option tls_Config) (host : text) (port publicPort : Z) : B2bua :=
  mkB2bua (AppLeg.mkConfig host port publicPort (publicHost o) [localDomain o; publicHost o] (keepAdvertisedContact o) t (pbxPeers o) (ringTimeout o)
      (peerTimeout o) 0 0)
    (Some tls) (rtpMin o) (rtpMax o) (noSymmetricRTP o) (trunkAddr o) (trunkExternalHost o) (trunkCodecs o) (trunkSRTP o) (trunkQualify o) tTLS
    (pbxDomain o) (pbxDefaultLine o).

(** The app leg's address, and the port phones are told. *)
Definition sip_ports (o : options) : start_error + text * Z * Z :=
  let? (host, port) := some_or BadSIPAddr (SplitHostPort (sipAddr o)) in
  let? port := some_or BadSIPAddr (Atoi port) in
  inr (host, port, if decide (publicSIPPort o = 0) then port else publicSIPPort o).

(** The port of an address, 0 if it is not a number: the error is dropped. (A number out
    of range, which Atoi cuts, cannot be listened on.) *)
Definition numeric_port (p : text) : Z := default 0 (Atoi p).

Definition http_ports (o : options) : start_error + Z * Z :=
  let? (_, port) := some_or BadHTTPAddr (SplitHostPort (httpAddr o)) in
  inr (if decide (publicHTTPPort o = 0) then numeric_port port else publicHTTPPort o,
       numeric_port (match SplitHostPort (signalAddr o) with Some (_, p) => p | None => [] end)).

Definition all_open (e : env) : bool := forallb (opens e) [Devices; KeyFile; InstallID; Directories; Migration].

(** The listeners beside the call server's. *)
Definition listeners (o : options) (tls : tls_Config) : list Listener :=
  [mkListener LSignal (signalAddr o) (Some tls) None (Some DSCPCS3);
   mkListener LHTTP (httpAddr o) (Some tls) None None;
   mkListener LAdmin (adminAddr o) (Some tls) (Some FrontDoor.MaxConnections) None].
Definition all_listen (e : env) (l : list Listener) : bool := forallb (fun x => listens e (serves x)) l.

Definition in_the_clear (c : B2bua) : bool :=
  match AppLeg.CTrunk (leg c) with Some t => offers (TrunkSRTP c) && negb (EqualFold (Trunk.Transport t) (T "tls")) | None => false end.

(** From the options to the listeners; the second is what is left of the kept files. *)
Definition run (e : env) (o : options) : (start_error + Started) * cache :=
  let first := firstIPv4 (addrs e) in
  let '(o, w1) := resolve e o in
  let '(f, tls) := LoadOrKeep certPEM keyPEM X509KeyPair (negb (bool_decide (certFile o = [] /\ keyFile o = []))) (KeyPair e (certFile o) (keyFile o))
      true (e_boot e) (e_cache e) in
  (match tls with
   | inl err => inl (CertError err)
   | inr (tls, self) =>
       if negb (all_open e) then inl StoreError else
       let? (t, tTLS, w2) := trunk_leg e o in
       let? (host, port, publicPort) := sip_ports o in
       let? s := b2bua_New (b2bua_config o tls t tTLS host port publicPort) first (ua_ok e) in
       let? l := (if pbxLines o then let? l := startPBXLines o t s first in inr (Some l) else inr None) in
       let? (httpPort, signalPort) := http_ports o in
       if negb (all_listen e (listeners o tls)) then inl ListenError else
       inr (mkStarted o tls self t tTLS s publicPort l httpPort signalPort (listeners o tls)
         (w1 ++ warn self WSelfSigned ++ w2
          ++ warn (negb (pbxLines o) && negb (bool_decide (pbxRegistrar o = [] /\ pbxDomain o = [] /\ pbxPeers o = [] /\ pbxDefaultLine o = []))) WPBXIgnored
          ++ warn (in_the_clear (cfg s)) WKeysInTheClear))
   end, f).

(** What a phone is told to register at: in its welcome, and in a wake. *)
Definition SIPAccountFor (s : Started) (t : Z) (deviceID : string) (reg : Registry.Registry) : option (option Wire.SIPAccount) :=
  ep ← Registry.LookupDevice t deviceID reg;
  Some (option_map (fun ep => Wire.mkSIPAccount (Registry.User ep) (to_string (localDomain (opts s))) (to_string (publicHost (opts s))) (account_Port s) "tls") ep).

Definition wake_SIP (c : AppLeg.Config) : text * Z * text := (AppLeg.ExternalHost c, AppLeg.publicPort c, T "tls").

(** ** A start that gets through *)

Lemma some_or_inr {A} err (x : option A) a : some_or err x = inr a -> x = Some a.
Proof. destruct x; [by intros [= ->]|done]. Qed.

Lemma b2bua_New_spec c first ua s : b2bua_New c first ua = inr s ->
  cfg s = with_leg c (AppLeg.withDefaults (leg c)) /\ AppLeg.ExternalHost (leg c) <> [] /\ media_ports s = rtp_range c
  /\ match AppLeg.CTrunk (leg c) with
     | None => transports s = [mediaOptions (cfg s)]
     | Some t => exists host port, trunkBind (TrunkBind c) t = Some (host, port) /\ collides (cfg s) host port = false
         /\ transports s = [trunk_transport (cfg s) t host port first; mediaOptions (cfg s)]
     end.
Proof.
  unfold b2bua_New. cbn [TLS with_leg leg TrunkBind]. destruct (TLS c) as [tls|]; [|done]. destruct (decide _) as [|He]; [done|].
  destruct ua; [|done]. cbn [negb]. change (AppLeg.CTrunk (AppLeg.withDefaults (leg c))) with (AppLeg.CTrunk (leg c)).
  destruct (AppLeg.CTrunk (leg c)) as [t|].
  - destruct (trunkBind (TrunkBind c) t) as [[host port]|]; [|done]. destruct (collides _ host port) eqn:Ec; [done|]. intros [= <-]. cbn [cfg transports].
    split; [done|]. split; [done|]. split; [done|]. by exists host, port.
  - intros [= <-]. by split.
Qed.

Definition resolved (e : env) (o : options) : options := fst (resolve e o).

(** What each part of [Started] was made of. *)
Lemma run_started e o s f : run e o = (inr s, f) ->
  let o := resolved e o in
  opts s = o /\ all_open e = true /\ all_listen e (serving s) = true
  /\ (exists w, trunk_leg e o = inr (trunkCfg s, trunkTLS s, w) /\ forall x, x ∈ w -> x ∈ warned s)
  /\ (exists host port, sip_ports o = inr (host, port, account_Port s)
      /\ b2bua_New (b2bua_config o (tlsCfg s) (trunkCfg s) (trunkTLS s) host port (account_Port s)) (firstIPv4 (addrs e)) (ua_ok e) = inr (calls s))
  /\ (if pbxLines o then exists l, startPBXLines o (trunkCfg s) (calls s) (firstIPv4 (addrs e)) = inr l /\ lines s = Some l else lines s = None)
  /\ http_ports o = inr (link_Port s, enrol_SignalPort s)
  /\ (exists c, tlsCfg s = server_config c)
  /\ serving s = listeners o (tlsCfg s)
  /\ (in_the_clear (cfg (calls s)) = true -> WKeysInTheClear ∈ warned s).
Proof.
  unfold run, resolved. destruct (resolve e o) as [o' w1]. cbn [fst]. destruct (LoadOrKeep _ _ _ _ _ _ _ _) as [f' r] eqn:El.
  intros [= H _]. destruct r as [err|[tls self]]; [done|]. destruct (all_open e); [|done]. cbn [negb] in H.
  destruct (trunk_leg e o') as [|[[t tTLS] w2]] eqn:Et; [done|]. destruct (sip_ports o') as [|[[host port] publicPort]] eqn:Es; [done|].
  destruct (b2bua_New _ _ _) as [|b] eqn:Eb; [done|]. destruct (if pbxLines o' then _ else _) as [|l] eqn:Ell; [done|].
  destruct (http_ports o') as [|[hp sp]] eqn:Eh; [done|]. change (listens e LSignal && (listens e LHTTP && (listens e LAdmin && true))) with (all_listen e (listeners o' tls)) in H.
  destruct (all_listen e (listeners o' tls)) eqn:Ea; [|done]. cbn [negb] in H. injection H as <-. split; [done|]. split; [done|]. split; [exact Ea|]. cbn.
  split; [exists w2; split; [done|]; intros x Hx; rewrite !elem_of_app; tauto|]. split; [by exists host, port|]. split; [|split; [done|split; [|split; [done|]]]].
  - destruct (pbxLines o'); [|by injection Ell as <-]. destruct (startPBXLines _ _ _ _) as [|l']; [done|]. injection Ell as <-. by exists l'.
  - revert El. unfold LoadOrKeep, Load, keep. cbn [negb orb]. destruct (negb _); cbn [orb].
    + destruct (KeyPair e _ _) as [c|]; intros E; inversion E; subst; by exists c.
    + destruct (LoadX509KeyPair _ _ _) as [c|]; [intros E; inversion E; subst; by exists c|].
      destruct (fresh _) as [c|]; [|intros E; inversion E]. destruct (keepSelfSigned _ _ _ _ _) as [? []]; intros E; inversion E; subst; by exists c.
  - intros Hc. rewrite Hc. rewrite !elem_of_app. cbn. rewrite list_elem_of_singleton. tauto.
Qed.

Lemma registrarURI_spec spec t u : 0 < Port t <= 65535 -> Host t <> [] -> registrarURI spec t = Some u ->
  u.1.1 <> [] /\ 0 < u.1.2 <= 65535 /\ u.2 = ToLower (Trunk.Transport t).
Proof.
  intros Hp Hh. unfold registrarURI. destruct (decide (TrimSpace spec = [])); [intros [= <-]; done|].
  destruct (SplitHostPort _) as [[h q]|]; cbn [mbind option_bind].
  - destruct (port_number q) as [m|] eqn:E; [|done]. cbn. destruct (decide (h = [])); [done|]. intros [= <-]. cbn. by apply port_number_bounds in E.
  - destruct (decide _); [done|]. intros [= <-]. done.
Qed.

Lemma to_string_empty t : to_string t = "" -> t = [].
Proof. by destruct t. Qed.

Lemma startPBXLines_spec o t s first l : Host t <> [] -> startPBXLines o (Some t) s first = inr l -> exists host port tr u,
  TrunkContact s first = Some (host, port, tr) /\ registrarURI (pbxRegistrar o) t = Some u
  /\ l = PbxRegister.mkSIPConfig (to_string u.1.1) u.1.2 (Some (to_string u.2)) (to_string (if decide (pbxDomain o = []) then Host t else pbxDomain o))
       (to_string host) port "dialpark".
Proof.
  intros Ht. cbn. destruct (TrunkClient s); [|done]. cbn [negb]. destruct (TrunkContact s first) as [[[host port] tr]|]; [|done]. cbn.
  destruct (registrarURI _ _) as [[[h n] u]|] eqn:Eu; [|done]. cbn. unfold PbxRegister.NewSIPRegistrar. cbn.
  destruct (decide (to_string h = "")) as [|Hh]; [done|]. rewrite decide_False; [intros [= <-]; by exists host, port, tr, (h, n, u)|].
  intros Hd%to_string_empty. destruct (decide (pbxDomain o = [])); done.
Qed.

(** C20: a server that has come up with a public SIP port above 0 (the one given, or that of -sip-addr) gives out one
    address for each of its legs. What a phone is told to register at in its
    welcome, what a wake tells it, and the Contact of the server's own messages have the public host and one port, and are
    those of a TLS transport with the server's certificate. In lines mode there is a PBX to register to, every REGISTER
    goes to a host and a port that can be dialled, over the PBX's transport, and the contact it carries is the address of
    the trunk's transport, with the port it listens on; host and port of that transport, as they are written, are not both
    those of the app leg. *)
Theorem one_address_is_given_out e o s f : run e o = (inr s, f) -> 0 < account_Port s ->
  (exists app, app ∈ transports (calls s) /\ ID app = transportApp /\ t_Transport app = T "tls" /\ TLSConf app = Some (tlsCfg s)
    /\ (t_ExternalHost app, ExternalPort app, t_Transport app) = wake_SIP (leg (cfg (calls s)))
    /\ forall t d reg acc, SIPAccountFor s t d reg = Some (Some acc) ->
         (Wire.acc_Host acc, Wire.acc_Port acc, Wire.acc_Transport acc) = (to_string (t_ExternalHost app), ExternalPort app, "tls"))
  /\ forall l, lines s = Some l -> exists t tr, trunkCfg s = Some t /\ tr ∈ transports (calls s) /\ ID tr = transportTrunk
    /\ 0 < PbxRegister.reg_Port l <= 65535 /\ PbxRegister.reg_Host l <> "" /\ PbxRegister.reg_transport l = Some (to_string (ToLower (t_Transport tr)))
    /\ PbxRegister.contact_Host l = to_string (t_ExternalHost tr) /\ PbxRegister.contact_Port l = ExternalPort tr /\ ExternalPort tr = BindPort tr
    /\ forall app, app ∈ transports (calls s) -> ID app = transportApp -> (t_BindHost tr, BindPort tr) <> (t_BindHost app, BindPort app).
Proof.
  intros Hr Hp. destruct (run_started _ _ _ _ Hr) as (Ho&_&_&(w&Ht&_)&(host&port&_&Hb)&Hl&_&_&_). set (o' := resolved e o) in *.
  apply b2bua_New_spec in Hb as (Hc&Hh&_&Hts). split.
  - exists (mediaOptions (cfg (calls s))). split; [destruct (AppLeg.CTrunk _); [destruct Hts as (?&?&_&_&->)|rewrite Hts]; set_solver|].
    do 2 (split; [done|]). rewrite Hc. split; [done|]. unfold wake_SIP, AppLeg.publicPort, mediaOptions. cbn. destruct (decide (account_Port s = 0)); [lia|]. destruct (decide (0 < account_Port s)); [|lia].
    split; [done|]. intros t d reg acc. unfold SIPAccountFor. destruct (Registry.LookupDevice t d reg) as [[ep|]|]; [|done|done].
    cbn. intros [= <-]. cbn. by rewrite Ho.
  - intros l Hl'. destruct (pbxLines o'); [|congruence]. destruct Hl as (l'&Hs&Hl''). assert (l' = l) as -> by congruence.
    destruct (trunkCfg s) as [t|] eqn:Et; [|done]. exists t.
    assert (0 < Port t <= 65535 /\ Host t <> []) as [Hp1 Hh1].
    { unfold trunk_leg in Ht. destruct (decide _); [done|]. destruct (ParseTrunk (trunk o')) as [t'|] eqn:Ep; [|done]. cbn in Ht.
      apply ParseTrunk_parts in Ep as (Ep1&Ep2&_). assert (t' = t) as ->; [|done]. destruct (EqualFold _ _); [|by injection Ht].
      destruct (PeerConfig _ _ _ _ _ _ _); [|done]. by injection Ht. }
    apply startPBXLines_spec in Hs as (ch&cp&ctr&u&Hcon&Hu&->); [|done]. apply registrarURI_spec in Hu as (U1&U2&U3); [|done..].
    cbn [AppLeg.CTrunk b2bua_config leg] in Hts. destruct Hts as (bh&bp&Hbind&Hcol&Hts).
    exists (trunk_transport (cfg (calls s)) t bh bp (firstIPv4 (addrs e))). split; [done|]. split; [rewrite Hts; set_solver|]. split; [done|].
    cbn [PbxRegister.reg_Port PbxRegister.reg_Host PbxRegister.reg_transport PbxRegister.contact_Host PbxRegister.contact_Port].
    split; [done|]. split; [by intros ?%to_string_empty|]. split; [by rewrite U3|].
    unfold TrunkContact in Hcon. rewrite Hc in Hcon. cbn in Hcon, Hbind. rewrite Hbind in Hcon. cbn in Hcon. injection Hcon as <- <- _.
    do 3 (split; [by rewrite ?Hc|]). intros app Ha Hid. rewrite Hts in Ha. apply elem_of_cons in Ha as [->|Ha%list_elem_of_singleton]; [done|].
    subst app. intros [= Hbh Hbp]. revert Hcol. unfold collides. rewrite Hbh, Hbp, !bool_decide_eq_true_2 by done. done.
Qed.

(** ** How well each leg is protected *)

Lemma warn_in b w : b = true -> w ∈ warn b w.
Proof. intros ->. apply list_elem_of_here. Qed.

Lemma trunk_leg_spec e o t c w : trunk_leg e o = inr (Some t, c, w) ->
  if EqualFold (Trunk.Transport t) (T "tls")
  then exists c', c = Some c' /\ MinVersion c' = trunkTLSMin o /\ InsecureSkipVerify c' = trunkTLSInsecure o /\ (trunkCA o <> [] <-> is_Some (RootCAs c'))
    /\ (trunkTLSInsecure o = true -> WTrunkInsecure ∈ w) /\ (trunkCert o = [] -> WNoTrunkCert ∈ w)
  else c = None /\ (trunkCert o <> [] \/ trunkCA o <> [] \/ trunkTLSInsecure o = true -> WTrunkTLSIgnored ∈ w).
Proof.
  unfold trunk_leg. destruct (decide _); [done|]. destruct (ParseTrunk (trunk o)) as [t'|]; [|done]. cbn [some_or]. destruct (EqualFold (Trunk.Transport t') (T "tls")) eqn:E.
  - destruct (PeerConfig _ _ _ _ _ _ _) as [c'|] eqn:Ep; [|done]. cbn [some_or]. intros [= -> <- <-]. rewrite E. apply PeerConfig_spec in Ep as (P1&P2&_&_&P3&_).
    exists c'. do 3 (split; [done|]). split; [|split; intros H; rewrite elem_of_app].
    + by rewrite <- P3, negb_true_iff, bool_decide_eq_false.
    + right. by apply warn_in.
    + left. apply warn_in. by apply bool_decide_eq_true_2.
  - intros [= -> <- <-]. rewrite E. split; [done|]. intros H. apply warn_in. rewrite !orb_true_iff, !negb_true_iff, !bool_decide_eq_false. tauto.
Qed.


(** ** What the view of the server tells *)

Definition with_secrets (o : options) (token cert_file key_file tcert tkey tca : text) : options :=
  mkOptions (signalAddr o) (sipAddr o) (httpAddr o) (adminAddr o) (diagRetain o) (logLevel o) (logJSON o) (sipTrace o) cert_file key_file
    (publicHost o) (localDomain o) (dataDir o) token (ringTimeout o) (rtpMin o) (rtpMax o) (keepAdvertisedContact o) (noSymmetricRTP o)
    (publicSIPPort o) (publicHTTPPort o) (trunk o) (trunkAddr o) (trunkExternalHost o) (trunkCodecs o) (trunkSRTP o) (trunkQualify o) (peerTimeout o)
    tcert tkey tca (trunkTLSInsecure o) (trunkTLSMin o) (pbxLines o) (pbxRegistrar o) (pbxDomain o) (pbxPeers o) (pbxExpiry o) (pbxDefaultLine o).

(** The chain that every handshake shows. *)
Definition chain (Certificate : cert -> list (list Z)) (c : tls_Config) : option (list (list Z)) := Certificate <$> head (Certificates c).

(** the server view tells no secret: two servers that differ in the admin token, in the names of the files of their
    certificates and keys, and in the keys themselves, but show the same certificate in a handshake and name the same
    kinds of file, have one view. *)
Theorem the_server_view_tells_no_secret version Certificate ParseCertificate Sum256 o token cf kf tc tk ta tls tls' t started :
  (cf = [] <-> certFile o = []) -> (tc = [] <-> trunkCert o = []) -> (ta = [] <-> trunkCA o = []) -> chain Certificate tls' = chain Certificate tls ->
  serverInfo version Certificate ParseCertificate Sum256 (with_secrets o token cf kf tc tk ta) (Some tls') t started
  = serverInfo version Certificate ParseCertificate Sum256 o (Some tls) t started.
Proof.
  intros H1 H2 H3 Hch. unfold serverInfo, trunk_info. cbn -[certFingerprint leaf_of].
  rewrite (bool_decide_ext _ _ H1), (bool_decide_ext _ _ H2), (bool_decide_ext _ _ H3).
  assert (certFingerprint Certificate Sum256 (Some tls') = certFingerprint Certificate Sum256 (Some tls)
    /\ leaf_of Certificate ParseCertificate (Some tls') = leaf_of Certificate ParseCertificate (Some tls)) as [-> ->]; [|done].
  revert Hch. unfold chain, certFingerprint, leaf_of. cbn. destruct (Certificates tls') as [|x' l'], (Certificates tls) as [|x l]; cbn; try done.
  by intros [= ->].
Qed.

(** ** Where the view and the flags say otherwise *)

Lemma run_server e o s f : run e o = (inr s, f) -> exists host port,
  cfg (calls s) = with_leg (b2bua_config (opts s) (tlsCfg s) (trunkCfg s) (trunkTLS s) host port (account_Port s))
    (AppLeg.withDefaults (leg (b2bua_config (opts s) (tlsCfg s) (trunkCfg s) (trunkTLS s) host port (account_Port s))))
  /\ media_ports (calls s) = rtp_range (cfg (calls s)).
Proof.
  intros Hr. destruct (run_started _ _ _ _ Hr) as (Ho&_&_&_&(host&port&_&Hb)&_). apply b2bua_New_spec in Hb as (Hc&_&Hm&_).
  exists host, port. rewrite Ho, Hm, Hc. done.
Qed.

Section told.
Context (version : text) (Certificate : cert -> list (list Z)) (ParseCertificate : list Z -> option leaf) (Sum256 : list Z -> list Z).

Definition told (s : Started) (started : Z) : Info := serverInfo version Certificate ParseCertificate Sum256 (opts s) (Some (tlsCfg s)) (trunkCfg s) started.

(** The time after which a silent party's call is ended cannot be switched off: 0 is a minute. *)
Lemma a_peer_timeout_of_zero_is_a_minute e o s f t : run e o = (inr s, f) -> peerTimeout o = 0 ->
  AppLeg.PeerTimeout (leg (cfg (calls s))) = 60 * ns_second /\ PeerTimeout (told s t) = 0.
Proof.
  intros Hr Hz. destruct (run_server _ _ _ _ Hr) as (host&port&->&_). destruct (run_started _ _ _ _ Hr) as (Ho&_).
  assert (peerTimeout (opts s) = 0) as Hp by (rewrite Ho; exact Hz). cbn. by rewrite Hp.
Qed.

(** A range of one port is no range: media takes any port, and the view tells the range. *)
Lemma a_range_of_one_port_is_any_port e o s f t : run e o = (inr s, f) -> rtpMax o = rtpMin o ->
  media_ports (calls s) = (0, 0) /\ RTP (told s t) = (rtpMin o, rtpMin o, negb (noSymmetricRTP o)).
Proof.
  intros Hr Hz. destruct (run_server _ _ _ _ Hr) as (host&port&Hc&->). destruct (run_started _ _ _ _ Hr) as (Ho&_).
  assert (rtpMin (opts s) = rtpMin o /\ rtpMax (opts s) = rtpMin o /\ noSymmetricRTP (opts s) = noSymmetricRTP o) as (H1&H2&H3) by (rewrite Ho; split; [reflexivity|split; [exact Hz|reflexivity]]).
  rewrite Hc. unfold rtp_range. cbn. rewrite H1, H2, H3, Z.ltb_irrefl, andb_false_r. done.
Qed.
End told.
End server.

(** ** The token of the server and of the console *)

(** From one file the console reads the token that the server reads, or fails as it does. *)
Lemma one_token_file_one_token file readFile : file <> [] -> console_token [] file readFile = Some (resolveAdminToken [] file readFile).
Proof.
  intros Hf. unfold console_token, resolveAdminToken, readSecret. destruct (decide (file = [])); [done|].
  rewrite (bool_decide_eq_false_2 (file = [])), (bool_decide_eq_true_2 ([] = [])) by done. done.
Qed.

(** A token read from a file has no space at its ends, as the header it is compared with. *)
Lemma a_token_read_is_trimmed file readFile tok : file <> [] -> resolveAdminToken [] file readFile = inr tok -> tok <> [] /\ trimmed tok.
Proof.
  intros Hf. unfold resolveAdminToken. rewrite decide_False by done. cbn. destruct (readFile file) as [b|]; [|done].
  destruct (decide (TrimSpace b = [])) as [|Hn]; [done|]. intros [= <-]. split; [done|]. apply TrimSpace_trimmed.
Qed.

(** ** The marking of sockets *)

Definition TOS (dscp : Z) : Z := Z.shiftl dscp 2.

Inductive errno := ENOPROTOOPT | EINVAL | EOPNOTSUPP | OtherErrno (n : Z).

Definition ignorable (e : option errno) : bool := match e with Some ENOPROTOOPT | Some EINVAL | Some EOPNOTSUPP => true | _ => false end.

(** [e4], [e6]: what setting the option of each family on the socket gave; [None] is success. *)
Definition Mark (e4 e6 : option errno) : option errno :=
  match e4, e6 with
  | None, _ | _, None => None
  | _, _ => if ignorable e4 && ignorable e6 then None else if negb (ignorable e4) then e4 else e6
  end.

(** A socket is opened unless neither option took and one of them failed for another
    reason than that it is not the socket's; the byte is the code point above two bits. *)
Lemma Mark_fails e4 e6 : Mark e4 e6 <> None <-> e4 <> None /\ e6 <> None /\ ~ (ignorable e4 = true /\ ignorable e6 = true).
Proof.
  destruct e4 as [a|], e6 as [b|]; cbn; [|split; [done|by intros (?&?&?)]..].
  destruct (ignorable (Some a)) eqn:Ea, (ignorable (Some b)) eqn:Eb; cbn in *; rewrite ?Ea, ?Eb; cbn; split; try done; intros; try (by split_and!; intuition congruence).
  exfalso. intuition.
Qed.

Example marks : (TOS DSCPEF, TOS DSCPCS3) = (184, 96).
Proof. reflexivity. Qed.

(** ** Examples *)

Module Example.
Definition pem (c : bool) : text := if c then T "PEM 1" else T "PEM 0".
Definition pair (p k : text) : option bool := if decide (p = k) then if decide (p = pem true) then Some true else if decide (p = pem false) then Some false else None else None.

Definition no_flags : raw_flags := mkRaw (T "1.2") (T "off") (T "g722,pcmu,pcma") (T "trunk") [] [] (T "info") true true [].

(** The defaults of the flags that are passed on. *)
Definition defaults : options :=
  mkOptions (T ":7443") (T ":5061") (T "127.0.0.1:8080") (T "127.0.0.1:8081") (30 * 24 * ns_hour) 0 false false [] [] [] [] (T "./data") []
    (30 * ns_second) 20000 20100 false false 0 0 [] [] [] [] TrunkSRTPOff (10 * ns_second) (60 * ns_second) [] [] [] false 0 false [] [] [] ns_hour [].

Definition lan : list ifaddr := [mkIfaddr true true true (T "127.0.0.1"); mkIfaddr true false true (T "10.0.0.9")].

Definition host : @env bool :=
  mkEnv (Some lan) (replicate 16 171) (mkBoot true (Some true) true (Secrets.Full true) (Secrets.Full true)) (mkCache None None) (fun _ _ => None)
    (fun name => if decide (name = T "token") then Some (T " secret ") else None) (fun _ => true) true (fun _ => true) 0.

Definition up (o : options) := run (pool := unit) (fun _ => true) (fun a b => bool_decide (a = b)) pem pem pair (fun _ => Some tt) host o.

Definition started (o : options) : option (@Started bool unit) := match fst (up o) with inr s => Some s | inl _ => None end.

(** The defaults with another PBX peer, its security, the app leg's address and the
    time a silent party has. *)
Definition with_mode (peer : text) (srtp : TrunkSRTPMode) (insecure in_lines : bool) (sip : text) (silent : Z) (o : options) : options :=
  mkOptions (signalAddr o) sip (httpAddr o) (adminAddr o) (diagRetain o) (logLevel o) (logJSON o) (sipTrace o) (certFile o) (keyFile o)
    (publicHost o) (localDomain o) (dataDir o) (adminToken o) (ringTimeout o) (rtpMin o) (rtpMax o) (keepAdvertisedContact o) (noSymmetricRTP o)
    (publicSIPPort o) (publicHTTPPort o) peer (trunkAddr o) (trunkExternalHost o) (trunkCodecs o) srtp (trunkQualify o) (silent * ns_second)
    (trunkCert o) (trunkKey o) (trunkCA o) insecure VersionTLS12 in_lines (pbxRegistrar o) (pbxDomain o) (pbxPeers o) (pbxExpiry o) (pbxDefaultLine o).

(** Nothing given but the host's interfaces. *)
Definition plain : options := defaults.

(** Lines mode over a TLS trunk that is not checked, with encrypted media. *)
Definition secure : options :=
  with_mode (T "sip:pbx:5061;transport=tls") TrunkSRTPSDES true true (T ":5061") 60 defaults.

Example the_defaults_come_up : is_Some (started plain).
Proof. vm_compute. by eexists. Qed.

(** The same from the flags. *)
Definition secure_flags : raw_flags := mkRaw (T "1.2") (T "sdes") (T "opus") (T " Lines ") [] (T "token") (T "warn+1") true true (T "a, ,b").
Definition from_flags : start_error + options := main secure_flags (ReadFile host) secure.

(** A plain trunk with encrypted media, the app leg on port 0, and no time for a silent party. *)
Definition odd : options := with_mode (T "pbx;transport=udp") TrunkSRTPSDES true true (T ":0") 0 defaults.

(** A port by name is listened on, and told as 0. *)
Definition named_ports : options :=
  mkOptions (T ":https") (T ":5061") (T ":https") (T "127.0.0.1:8081") 0 0 false false [] [] [] [] (T "./data") [] 0 0 0 false false 0 0 [] [] [] []
    TrunkSRTPOff 0 0 [] [] [] false 0 false [] [] [] 0 [].

Definition view (x : option (@Started bool unit)) : option (Z * Z * list warning) := (fun s => (account_Port s, link_Port s, warned s)) <$> x.

Example what_is_warned_of :
  (view (started secure), view (started odd))
  = (Some (5061, 8080, [WGeneratedToken; WSelfSigned; WNoTrunkCert; WTrunkInsecure]),
     Some (0, 8080, [WGeneratedToken; WSelfSigned; WTrunkTLSIgnored; WKeysInTheClear])).
Proof. vm_compute. reflexivity. Qed.

(** On port 0 the app leg listens on its own default, and phones are told 0. *)
Example port_zero_is_told_as_zero :
  ((fun s => (account_Port s, map (fun t => (ID t, BindPort t, ExternalPort t)) (transports (calls s)))) <$> started odd)
  = Some (0, [(T "trunk", 5060, 5060); (T "app", 5061, 5061)]).
Proof. vm_compute. reflexivity. Qed.

Lemma a_named_port_is_told_as_zero : ((fun s => (link_Port s, enrol_SignalPort s)) <$> started named_ports) = Some (0, 0).
Proof. vm_compute. reflexivity. Qed.

(** In lines mode the view has the registrar and the domain as they were given, empty,
    and not those that are used. *)
Lemma the_view_has_the_flags_as_given :
  exists s l, started secure = Some s /\ lines s = Some l /\ PbxRegister.reg_Host l = "pbx" /\ PbxRegister.Domain l = "pbx"
  /\ forall leaf version C (P : list Z -> option leaf) S t, exists i, told version C P S s t = i /\ (fun x => (i_Registrar x, i_Domain x)) <$> i_PBX i = Some ([], [])
       /\ PublicSIPPort i = 0 /\ l_Trunk (i_Listeners i) = [].
Proof. eexists _, _. split; [vm_compute; reflexivity|]. split; [vm_compute; reflexivity|]. do 2 (split; [reflexivity|]). intros. eexists. split; [reflexivity|]. done. Qed.

(** A listener on all addresses of both families is not seen to be in the way of one on
    one of them. *)
Lemma both_families_are_not_seen_to_collide (c : @B2bua bool unit) t :
  AppLeg.BindHost (leg c) = T "::" -> AppLeg.CPort (leg c) = 5061 -> Trunk.Transport t = T "tcp" -> TrunkBind c = T "10.0.0.9:5061" ->
  trunkBind (TrunkBind c) t = Some (T "10.0.0.9", 5061) /\ collides c (T "10.0.0.9") 5061 = false.
Proof. intros H1 H2 H3 H4. unfold collides. rewrite H1, H2, H4. by split. Qed.

Lemma one_address_is_given_out_witness : exists s f, up secure = (inr s, f) /\ 0 < account_Port s
  /\ exists l tr, lines s = Some l /\ tr ∈ transports (calls s) /\ PbxRegister.contact_Port l = ExternalPort tr.
Proof.
  assert (exists s f l, up secure = (inr s, f) /\ account_Port s = 5061 /\ lines s = Some l) as (s&f&l&E&P&Hl).
  { eexists _, _, _. split; [vm_compute; reflexivity|]. split; reflexivity. }
  exists s, f. split; [exact E|]. assert (0 < account_Port s) as P' by (rewrite P; reflexivity). split; [exact P'|].
  destruct (proj2 (one_address_is_given_out (fun _ => true) (fun a b => bool_decide (a = b)) pem pem pair (fun _ => Some tt) host secure s f E P') l Hl) as (t&tr&_&Htr&_&_&_&_&_&Hp&_).
  exists l, tr. split; [exact Hl|]. split; [exact Htr|exact Hp].
Defined.


Definition one_chain (c : bool) : list (list Z) := [[1; 2; 3]].

Lemma the_server_view_tells_no_secret_witness :
  serverInfo (leaf := unit) (T "dev") one_chain (fun _ => None) (fun x => x) (with_secrets secure (T "other") [] (T "k") [] (T "key") [])
    (Some (server_config (pool := unit) false)) None 0
  = serverInfo (T "dev") one_chain (fun _ => None) (fun x => x) secure (Some (server_config (pool := unit) true)) None 0.
Proof.
  apply (the_server_view_tells_no_secret (T "dev") one_chain (fun _ => None) (fun x => x) secure (T "other") [] (T "k") [] (T "key") []
    (server_config true) (server_config false) None 0); reflexivity.
Defined.
End Example.
