(* ===== verification/VendorTool.v ===== *)
(** The vendor's licence tool and the key built into the server
    (src/server/cmd/dialpark-licence/main.go, src/server/internal/licence/vendorkey.go),
    with the base64 of their key files and the dates of the -valid-until flag.

    - Ed25519 and the JSON of a licence are arguments, as in [Licence]; what is assumed
      of them is [vendor_crypto] and, of one licence, [json_keeps].
    - Flags come parsed; what is drawn, the clock and what becomes of each file are
      arguments. *)

From S2P Require Import Prelude Text Base64.
From S2P Require Import Licence.
From S2P Require Secrets CertFile.
Open Scope Z_scope.

(** ** base64.StdEncoding *)

Definition to_std (c : Ascii.ascii) : Ascii.ascii := if decide (c = "-"%char) then "+"%char else if decide (c = "_"%char) then "/"%char else c.

Definition of_std (c : Ascii.ascii) : option Ascii.ascii :=
  if decide (c = "+"%char) then Some "-"%char else if decide (c = "/"%char) then Some "_"%char
  else if decide (c = "-"%char \/ c = "_"%char) then None else Some c.

Definition StdEncode (bs : list Z) : text :=
  let t := map to_std (Encode bs) in t ++ replicate ((4 - length t mod 4) mod 4) "="%char.

Definition unpad (t : text) : text :=
  match rev t with
  | a :: b :: r => if decide (a = "="%char) then if decide (b = "="%char) then rev r else rev (b :: r) else t
  | _ => t
  end.

(** Line breaks are passed over, and the padding must be there. *)
Definition StdDecode (t : text) : option (list Z) :=
  let t := filter (fun c => c <> char_of 10 /\ c <> char_of 13) t in
  if decide (length t mod 4 = 0)%nat then raw ← mapM of_std (unpad t); Decode raw else None.

(** *** What is encoded is read back *)

Lemma alphabet_std c : in_alphabet c ->
  of_std (to_std c) = Some c /\ to_std c <> char_of 10 /\ to_std c <> char_of 13 /\ to_std c <> "="%char /\ is_space (to_std c) = false /\ is_space c = false.
Proof.
  intros Hc. assert (forallb (fun c => bool_decide (of_std (to_std c) = Some c /\ to_std c <> char_of 10 /\ to_std c <> char_of 13 /\ to_std c <> "="%char
    /\ is_space (to_std c) = false /\ is_space c = false)) alphabet = true) as H by (vm_compute; reflexivity).
  rewrite forallb_forall in H. specialize (H c). rewrite bool_decide_eq_true in H. apply H. by apply list_elem_of_In.
Qed.

Lemma Encode_mod bs : (length (Encode bs) mod 4 <> 1)%nat.
Proof.
  induction bs as [|a|a b|a b c bs IH] using bytes_ind3; cbn [Encode length]; [done..|].
  replace (S (S (S (S (length (Encode bs)))))) with (length (Encode bs) + 1 * 4)%nat by lia. by rewrite Nat.Div0.mod_add.
Qed.

Lemma unpad_pad t n : (n <= 2)%nat -> "="%char ∉ t -> (2 <= length t + n)%nat -> unpad (t ++ replicate n "="%char) = t.
Proof.
  intros Hn Ht Hl. unfold unpad. assert (forall x r, rev t = x :: r -> x <> "="%char) as Hx.
  { intros x r E ->. apply Ht. rewrite <- (rev_involutive t), E. apply list_elem_of_In, in_rev. rewrite rev_involutive. left. done. }
  destruct n as [|[|[|n]]]; [| | |lia]; cbn [replicate].
  - rewrite app_nil_r in *. destruct (rev t) as [|x [|y r]] eqn:E; [done..|]. rewrite decide_False by (by eapply Hx). done.
  - rewrite rev_app_distr. cbn. destruct (rev t) as [|y r] eqn:E.
    { apply (f_equal (@length _)) in E. rewrite length_rev in E. cbn in E. lia. }
    rewrite decide_True by done. rewrite decide_False by (by eapply Hx). rewrite <- (rev_involutive t), E. done.
  - rewrite rev_app_distr. cbn. rewrite !decide_True by done. apply rev_involutive.
Qed.

Lemma mapM_of_std t : Forall in_alphabet t -> mapM of_std (map to_std t) = Some t.
Proof. intros H. apply mapM_Some. induction H as [|c t Hc _ IH]; constructor; [|done]. by apply alphabet_std. Qed.

Lemma StdEncode_chars bs c : Forall is_byte bs -> c ∈ StdEncode bs -> c = "="%char \/ exists d, in_alphabet d /\ c = to_std d.
Proof.
  intros H. unfold StdEncode. rewrite elem_of_app. intros [Hc|Hc]; [|left; by apply elem_of_replicate_inv in Hc]. right.
  apply list_elem_of_fmap in Hc as (d&->&Hd). exists d. split; [|done]. pose proof (Encode_chars bs H) as Hf. rewrite Forall_forall in Hf. by apply Hf.
Qed.

Lemma filter_every (P : Ascii.ascii -> Prop) `{!forall c, Decision (P c)} (t : text) : (forall c, c ∈ t -> P c) -> filter P t = t.
Proof.
  induction t as [|c t IH]; intros Ht; [done|]. rewrite filter_cons_True by (apply Ht, list_elem_of_here). f_equal. apply IH. intros d Hd. by apply Ht, list_elem_of_further.
Qed.

Lemma StdDecode_StdEncode bs : Forall is_byte bs -> StdDecode (StdEncode bs) = Some bs.
Proof.
  intros H. unfold StdDecode. assert (filter (fun c => c <> char_of 10 /\ c <> char_of 13) (StdEncode bs) = StdEncode bs) as ->.
  { apply filter_every. intros c [->|(d&Hd&->)]%StdEncode_chars; [done| |done]. by apply alphabet_std in Hd as (_&?&?&_). }
  unfold StdEncode. rewrite length_app, length_map, length_replicate. pose proof (Encode_mod bs) as Hm. set (n := length (Encode bs)) in *.
  assert (n mod 4 < 4)%nat as Hlt by (apply Nat.mod_upper_bound; lia). pose proof (Nat.div_mod_eq n 4) as Hdm.
  rewrite decide_True.
  2: { rewrite Nat.Div0.add_mod_idemp_r. replace (n + (4 - n mod 4))%nat with ((n / 4 + 1) * 4)%nat by lia. apply Nat.Div0.mod_mul. }
  pose proof (Encode_chars bs H) as Hf. destruct bs as [|b bs]; [reflexivity|]. rewrite unpad_pad.
  - rewrite mapM_of_std by done. cbn [mbind option_bind]. by apply Decode_Encode.
  - destruct (n mod 4)%nat as [|[|[|[|k]]]]; cbn; lia.
  - intros (d&Hd&Hc)%list_elem_of_fmap. rewrite Forall_forall in Hf. apply Hf, alphabet_std in Hc as (_&_&_&?&_). done.
  - rewrite length_map. fold n. assert (2 <= n)%nat; [|lia]. unfold n. destruct bs as [|c [|d bs]]; cbn; lia.
Qed.

Lemma file_reads_back bs : Forall is_byte bs -> StdDecode (TrimSpace (StdEncode bs ++ [char_of 10])) = Some bs.
Proof.
  intros H. rewrite TrimSpace_snoc; [by apply StdDecode_StdEncode| |done].
  assert (forall c, c ∈ StdEncode bs -> is_space c = false) as Hs.
  { intros c [->|(d&Hd&->)]%StdEncode_chars; [done| |done]. by apply alphabet_std in Hd as (_&_&_&_&?&_). }
  split; intros c Hc; apply Hs; [by apply head_Some_elem_of|by apply last_Some_elem_of].
Qed.

(** ** time.Parse of a day *)

Definition leap (y : Z) : bool := (y mod 4 =? 0) && (negb (y mod 100 =? 0) || (y mod 400 =? 0)).

Definition month_days (y m : Z) : Z :=
  if decide (m ∈ [4; 6; 9; 11]) then 30 else if decide (m = 2) then if leap y then 29 else 28 else 31.

Definition days_before_year (y : Z) : Z := 365 * (y - 1) + (y - 1) / 4 - (y - 1) / 100 + (y - 1) / 400.

Definition days_before_month (y m : Z) : Z := foldr (fun i n => month_days y i + n) 0 (seqZ 1 (m - 1)).

(** Digits only, so many. *)
Definition fixed_number (n : nat) (t : text) : option Z :=
  if decide (length t = n /\ forallb is_digit t = true) then Atoi t else None.

(** The layout 2006-01-02; nanoseconds since the zero time, the start of the year 1. *)
Definition ParseDate (t : text) : option Z :=
  match t with
  | [y1; y2; y3; y4; s1; m1; m2; s2; d1; d2] =>
      if decide (s1 = "-"%char /\ s2 = "-"%char) then
        y ← fixed_number 4 [y1; y2; y3; y4]; m ← fixed_number 2 [m1; m2]; d ← fixed_number 2 [d1; d2];
        if decide (1 <= m <= 12 /\ 1 <= d <= month_days y m) then Some ((days_before_year y + days_before_month y m + (d - 1)) * (24 * ns_hour)) else None
      else None
  | _ => None
  end.

(** ** The tool *)

Inductive tool_error := ErrExists | ErrDraw | ErrDir | ErrWrite | ErrFlag | ErrDate | ErrNotAKey | ErrLicence (e : err).

Record disk := mkDisk { vendor_key : option text; vendor_pub : option text }.

Record request := mkRequest { customer : text; install : text; seats : Z; until : text; id : text }.

Definition crockford : text := T "0123456789ABCDEFGHJKMNPQRSTVWXYZ".

Definition randomID (b : list Z) : text := map (fun x => nth (Z.to_nat (x mod 32)) crockford "0"%char) b.

Section tool.
Context (public_of NewKeyFromSeed : list Z -> list Z) (verify_sig : list Z -> text -> list Z -> bool) (sign_sig : list Z -> text -> list Z).
Context (json_decode : list Z -> option (Licence * bool)) (json_encode : Licence -> option (list Z)).

Definition file_of (bs : list Z) : text := StdEncode bs ++ [char_of 10].

(** The second is the literal to paste into the server and the app. [seed]: as drawn. *)
Definition keygen (seed : option (list Z)) (dir_ok : bool) (key_fate pub_fate : Secrets.write_fate) (d : disk) : disk * (tool_error + text) :=
  match vendor_key d, vendor_pub d with
  | None, None =>
      match seed with
      | None => (d, inl ErrDraw)
      | Some seed =>
          if negb dir_ok then (d, inl ErrDir) else
          let '(k, ok) := CertFile.os_WriteFile key_fate (vendor_key d) (file_of seed) in
          let d := mkDisk k (vendor_pub d) in
          if negb ok then (d, inl ErrWrite) else
          let '(p, ok) := CertFile.os_WriteFile pub_fate (vendor_pub d) (file_of (public_of seed)) in
          let d := mkDisk (vendor_key d) p in
          (d, if ok then inr (StdEncode (public_of seed)) else inl ErrWrite)
      end
  | _, _ => (d, inl ErrExists)
  end.

Definition key_bytes (raw : option text) : option (list Z) :=
  raw ← raw; bs ← StdDecode (TrimSpace raw); if decide (length bs = 32%nat) then Some bs else None.

Definition loadKey (raw : option text) : option (list Z) := NewKeyFromSeed <$> key_bytes raw.
Definition loadPub (raw : option text) : option (list Z) := key_bytes raw.

(** The compiled-in key; none verifies nothing. *)
Definition mustKey (b64 : text) : list Z :=
  if decide (b64 = []) then [] else match StdDecode b64 with Some key => if decide (length key = 32%nat) then key else [] | None => [] end.

Definition licence_of (r : request) (drawn : list Z) (now day : Z) : Licence :=
  mkLicence 1 (if decide (id r = []) then T "lic_" ++ randomID drawn else id r) (customer r) (install r) (seats r) (now - now mod ns_second) (day + 24 * ns_hour).

Definition issue (key_file : option text) (r : request) (drawn : list Z) (now : Z) : tool_error + text :=
  if decide (customer r = [] \/ install r = [] \/ seats r <= 0 \/ until r = []) then inl ErrFlag else
  match ParseDate (until r) with
  | None => inl ErrDate
  | Some day =>
      match loadKey key_file with
      | None => inl ErrNotAKey
      | Some priv =>
          match Sign json_encode sign_sig priv (licence_of r drawn now day) with inr tok => inr tok | inl e => inl (ErrLicence e) end
      end
  end.

(** What is printed of a token that verifies. *)
Definition inspect (pub : option (option text)) (PublicKey : list Z) (arg : text) (now : Z) : tool_error + (Licence * State * Z) :=
  match (match pub with Some raw => loadPub raw | None => Some PublicKey end) with
  | None => inl ErrNotAKey
  | Some key =>
      match Parse json_decode verify_sig key (TrimSpace arg) with
      | inl e => inl (ErrLicence e)
      | inr l => inr (l, StateAt l now, DaysLeft l now)
      end
  end.

(** ** From the vendor's key to the seats of a server *)

Class vendor_crypto : Prop := {
  public_bytes s : length s = 32%nat -> Forall is_byte (public_of s) /\ length (public_of s) = 32%nat;
  private_length s : length s = 32%nat -> zlen (NewKeyFromSeed s) = PrivateKeySize;
  signature_bytes k m : zlen k = PrivateKeySize -> Forall is_byte (sign_sig k m) /\ zlen (sign_sig k m) = SignatureSize;
  keys_belong s m : length s = 32%nat -> verify_sig (public_of s) m (sign_sig (NewKeyFromSeed s) m) = true }.

(** JSON writes bytes for a licence, and reads the licence back from them. *)
Definition json_keeps (l : Licence) : Prop :=
  forall p, json_encode l = Some p -> p <> [] /\ Forall is_byte p /\ json_decode p = Some (l, false).

Lemma key_bytes_file bs : Forall is_byte bs -> length bs = 32%nat -> key_bytes (Some (file_of bs)) = Some bs.
Proof. intros H Hl. unfold key_bytes, file_of. cbn. rewrite file_reads_back by done. cbn. by rewrite decide_True. Qed.

Lemma mustKey_literal bs : Forall is_byte bs -> length bs = 32%nat -> mustKey (StdEncode bs) = bs.
Proof.
  intros H Hl. unfold mustKey. rewrite StdDecode_StdEncode, (decide_True (P := length bs = 32%nat)) by done. rewrite decide_False; [done|].
  intros E. apply (f_equal StdDecode) in E. rewrite StdDecode_StdEncode in E by done. injection E as ->. done.
Qed.

(** The whole of a key generation that ends well. *)
Lemma keygen_done seed dir_ok kf pf d d' lit : keygen seed dir_ok kf pf d = (d', inr lit) ->
  exists s, seed = Some s /\ d = mkDisk None None /\ d' = mkDisk (Some (file_of s)) (Some (file_of (public_of s))) /\ lit = StdEncode (public_of s).
Proof.
  unfold keygen. destruct d as [[k|] [p|]]; cbn [vendor_key vendor_pub]; try done. destruct seed as [s|]; [|done]. destruct dir_ok; [|done]. cbn [negb].
  destruct kf as [| | |[]]; cbn; try done. destruct pf as [| | |[]]; cbn; try done. intros [= <- <-]. by exists s.
Qed.

Lemma token_trimmed p sig : sig <> [] -> Forall is_byte sig -> trimmed (Prefix ++ Encode p ++ ("."%char :: Encode sig)).
Proof.
  intros Hn Hb. split; intros c; [by intros [= <-]|]. rewrite last_app, last_app, last_cons.
  destruct (last (Encode sig)) as [x|] eqn:E; [|by apply last_None, Encode_nonempty in E]. intros [= <-]. apply last_Some_elem_of in E.
  pose proof (Encode_chars sig Hb) as Hf. rewrite Forall_forall in Hf. by apply Hf, alphabet_std in E as (_&_&_&_&_&?).
Qed.

(** What is issued with the key parses under the literal. *)
Lemma issued_parses `{!vendor_crypto} s r drawn now tok day : length s = 32%nat -> Forall is_byte s -> ParseDate (until r) = Some day ->
  json_keeps (licence_of r drawn now day) -> issue (Some (file_of s)) r drawn now = inr tok -> zlen tok <= MaxLen ->
  trimmed tok /\ Parse json_decode verify_sig (public_of s) tok = inr (licence_of r drawn now day).
Proof.
  intros Hl Hs Hd Hj Hi Hm. unfold issue in Hi. destruct (decide _); [done|]. rewrite Hd in Hi. unfold loadKey in Hi. rewrite key_bytes_file in Hi by done. cbn in Hi.
  destruct (Sign _ _ _ _) as [e|tok'] eqn:E; [done|]. injection Hi as ->. pose proof (Sign_token json_encode sign_sig _ _ _ E) as (p&Ep&_&Et).
  destruct (Hj p Ep) as (P1&P2&P3). destruct (signature_bytes (NewKeyFromSeed s) (Prefix ++ Encode p) (private_length s Hl)) as [S1 S2]. split.
  - rewrite Et. apply token_trimmed; [|done]. intros Hn. by rewrite Hn in S2.
  - eapply sign_parse_roundtrip; try done; [|by apply keys_belong]. unfold zlen. by rewrite (proj2 (public_bytes s Hl)).
Qed.

(** The seats of a licence that is installed. *)
Lemma in_force m l u : lic m = Some l -> seatsLocked m u = if u <? ValidUntil l then Seats l else 0.
Proof.
  intros Hl. unfold seatsLocked. rewrite Hl. unfold StateAt, before. destruct (u <? ValidUntil l); cbn [negb]; [|done].
  destruct (after _ _); by rewrite decide_False.
Qed.

(** C5: what the vendor's tool makes is what the server takes, end to end, for a token of at most 4096 bytes whose
    licence the JSON encoder and decoder keep (the encoding is read back as that licence, with no byte after it), and with
    keys that belong together and signatures that verify. With a key pair as keygen left it and a server
    built with the literal that keygen printed, a token that issue printed, pasted as printed into
    any server that can write its licence file, whatever it has had installed before: on the server whose install id it was issued for, at any time before
    the end of the day that was named (UTC), it is installed, and gives as many seats as were issued at every moment up to
    the end of that day and none from then on; after it, it is refused as expired, and on any other server as another's,
    without a change. Inspect, with vendor.pub or the built-in key, shows it as it was issued. *)
Theorem an_issued_licence_is_in_force `{!vendor_crypto} seed d lit r drawn now tok day m t :
  keygen (Some seed) true (Secrets.Full true) (Secrets.Full true) (mkDisk None None) = (d, inr lit) ->
  length seed = 32%nat -> Forall is_byte seed -> ParseDate (until r) = Some day -> json_keeps (licence_of r drawn now day) ->
  issue (vendor_key d) r drawn now = inr tok -> zlen tok <= MaxLen -> stored_ok json_decode verify_sig (mustKey lit) m ->
  let ends := day + 24 * ns_hour in
  (forall pub, pub = None \/ pub = Some (vendor_pub d) ->
     inspect pub (mustKey lit) tok t = inr (licence_of r drawn now day, StateAt (licence_of r drawn now day) t, DaysLeft (licence_of r drawn now day) t))
  /\ match Install json_decode verify_sig (mustKey lit) (tok ++ [char_of 10]) t true m with
     | (m', None) => installID m = install r /\ t < ends /\ forall u, seatsLocked m' u = if u <? ends then seats r else 0
     | (m', Some ErrExpired) => m' = m /\ installID m = install r /\ ends <= t
     | (m', Some ErrWrongInstall) => m' = m /\ installID m <> install r
     | _ => False
     end.
Proof.
  intros Hk Hl Hs Hd Hj Hi Hm Hok ends. apply keygen_done in Hk as (s&[= <-]&_&->&->). cbn [vendor_key vendor_pub] in *.
  destruct (public_bytes seed Hl) as [Hpb Hpl]. rewrite mustKey_literal in Hok |- * by done.
  destruct (issued_parses seed r drawn now tok day Hl Hs Hd Hj Hi Hm) as [Ht Hp]. set (l := licence_of r drawn now day) in *. split.
  - intros pub Hpub. unfold inspect. assert ((match pub with Some raw => loadPub raw | None => Some (public_of seed) end) = Some (public_of seed)) as ->.
    { destruct Hpub as [->| ->]; [done|]. by apply key_bytes_file. }
    rewrite (TrimSpace_fix tok) by done. by rewrite Hp.
  - pose proof (Install_cases json_decode verify_sig (public_of seed) (tok ++ [char_of 10]) t true m Hok) as Hc.
    rewrite TrimSpace_snoc in Hc by done. revert Hc. unfold Install, install_store. rewrite TrimSpace_snoc by done. unfold verify. rewrite Hp.
    destruct (decide (InstallID l <> installID m)) as [Hne|He]; [intros _; split; [done|]; exact (fun E => Hne (eq_sym E))|].
    assert (installID m = install r) as Hid by (destruct (decide (installID m = install r)); [done|exfalso; apply He; intros E; cbn in E; congruence]).
    unfold Check. rewrite decide_False by done. destruct (before t (ValidUntil l)) eqn:Eb; cbn [negb].
    2: { intros _. split; [done|]. split; [done|]. unfold before in Eb. apply Z.ltb_ge in Eb. exact Eb. }
    assert (t < ends) as Hb by (unfold before in Eb; by apply Z.ltb_lt in Eb).
    destruct (decide (tok = token m)); [|cbn [negb]]; intros (l'&[= <-]&_&_&_&Hlic&_); (split; [done|]; split; [done|]; intros u; exact (in_force _ l u Hlic)).
Qed.
(** Sign has no bound on what it signs: a licence of which the JSON takes 3072 bytes is
    signed, and no server takes it. *)
Lemma Encode_long bs : (4 * length bs <= 3 * length (Encode bs))%nat.
Proof. induction bs as [|a|a b|a b c bs IH] using bytes_ind3; cbn [Encode length]; lia. Qed.

Lemma a_long_licence_is_signed_and_refused priv l tok p key : Sign json_encode sign_sig priv l = inr tok -> json_encode l = Some p -> 3072 <= zlen p ->
  Parse json_decode verify_sig key tok = inl ErrFormat.
Proof.
  intros Hs Hp Hl. apply Sign_token in Hs as (p'&Ep&_&->). rewrite Hp in Ep. injection Ep as <-. unfold Parse. rewrite decide_True; [done|].
  unfold MaxLen, zlen in *. rewrite !length_app. cbn [length]. pose proof (Encode_long p). change (length Prefix) with 4%nat. lia.
Qed.
End tool.

(** ** Examples *)

Example some_days :
  (ParseDate (T "0001-01-01"), ParseDate (T "2027-12-31"), ParseDate (T "2024-02-29"), ParseDate (T "2023-02-29"), ParseDate (T "2027-1-31"))
  = (Some 0, Some (740345 * (24 * ns_hour)), Some (738944 * (24 * ns_hour)), None, None).
Proof. vm_compute. reflexivity. Qed.

Module Example.
Definition public_of (s : list Z) : list Z := map (fun x => (x * 7) mod 256) s.
Definition NewKeyFromSeed (s : list Z) : list Z := s ++ public_of s.
Definition sign_sig (k : list Z) (m : text) : list Z := map (fun x => x mod 256) (take 32 k ++ drop 32 k).
Definition verify_sig (p : list Z) (m : text) (sig : list Z) : bool := bool_decide (drop 32 sig = p).

#[export] Instance a_scheme : vendor_crypto public_of NewKeyFromSeed verify_sig sign_sig.
Proof.
  assert (forall l, Forall is_byte (map (fun x => x mod 256) l)) as Hb.
  { intros l. apply Forall_forall. intros x (y&->&_)%list_elem_of_fmap. apply Z.mod_pos_bound. lia. }
  split.
  - intros s Hs. unfold public_of. rewrite length_map. split; [|done]. apply Forall_forall. intros x (y&->&_)%list_elem_of_fmap. apply Z.mod_pos_bound. lia.
  - intros s Hs. unfold zlen, NewKeyFromSeed, public_of. rewrite length_app, length_map, Hs. done.
  - intros k m Hk. unfold sign_sig. split; [apply Hb|]. unfold zlen in *. by rewrite length_map, take_drop.
  - intros s m Hs. unfold verify_sig, sign_sig, NewKeyFromSeed. apply bool_decide_eq_true_2. rewrite take_drop, map_app, <- Hs.
    rewrite <- (length_map (fun x => x mod 256) s) at 1. rewrite drop_app_length. unfold public_of. rewrite map_map. apply map_ext. intros a. by rewrite Z.mod_mod.
Qed.

Definition seed : list Z := seqZ 1 32.
Definition order : request := mkRequest (T "Example Ltd") (T "0123456789abcdef") 25 (T "2027-12-31") [].
Definition drawn : list Z := [0; 31; 32; 63; 64; 200; 17; 255].
Definition day : Z := 740345 * (24 * ns_hour).
Definition issued_at : Z := 740000 * (24 * ns_hour) + 5.
Definition its_licence : Licence := licence_of order drawn issued_at day.

(** JSON, of the one licence. *)
Definition json_encode (l : Licence) : option (list Z) := Some [123; 125].
Definition json_decode (p : list Z) : option (Licence * bool) := Some (its_licence, false).

Definition made := keygen public_of (Some seed) true (Secrets.Full true) (Secrets.Full true) (mkDisk None None).
Definition literal : text := match snd made with inr lit => lit | inl _ => [] end.
Definition token_ : text := match issue NewKeyFromSeed sign_sig json_encode (vendor_key (fst made)) order drawn issued_at with inr tok => tok | inl _ => [] end.
Definition server : Manager := Open json_decode verify_sig (mustKey literal) (T "0123456789abcdef") NotExist issued_at.
Definition after : Manager * option err := Install json_decode verify_sig (mustKey literal) (token_ ++ [char_of 10]) (day + 5) true server.

Example the_id_is_drawn : (ID its_licence, literal, snd after, seatsLocked (fst after) (day + 6)) = (T "lic_0Z0Z08HZ", StdEncode (public_of seed), None, 25).
Proof. vm_compute. reflexivity. Qed.

Lemma an_issued_licence_is_in_force_witness :
  made = (fst made, inr literal) /\ issue NewKeyFromSeed sign_sig json_encode (vendor_key (fst made)) order drawn issued_at = inr token_
  /\ snd after = None /\ forall u, seatsLocked (fst after) u = if u <? day + 24 * ns_hour then 25 else 0.
Proof.
  assert (made = (fst made, inr literal)) as E1 by (vm_compute; reflexivity).
  assert (issue NewKeyFromSeed sign_sig json_encode (vendor_key (fst made)) order drawn issued_at = inr token_) as E2 by (vm_compute; reflexivity).
  split; [exact E1|]. split; [exact E2|]. assert (snd after = None) as E3 by (vm_compute; reflexivity). split; [exact E3|].
  assert (length seed = 32%nat) as H1 by reflexivity.
  assert (Forall is_byte seed) as H2 by (apply Forall_forall; intros x Hx; apply elem_of_seqZ in Hx; unfold is_byte; lia).
  assert (ParseDate (until order) = Some day) as H3 by (vm_compute; reflexivity).
  assert (json_keeps json_decode json_encode its_licence) as H4.
  { intros p [= <-]. split; [discriminate|]. split; [|reflexivity]. repeat constructor; unfold is_byte; lia. }
  assert (zlen token_ <= MaxLen) as H5 by (vm_compute; discriminate).
  assert (stored_ok json_decode verify_sig (mustKey literal) server) as H6 by apply stored_ok_Open.
  pose proof (proj2 (an_issued_licence_is_in_force public_of NewKeyFromSeed verify_sig sign_sig json_decode json_encode seed (fst made) literal order drawn
    issued_at token_ day server (day + 5) E1 H1 H2 H3 H4 E2 H5 H6)) as H.
  change (match after with (m', None) => installID server = install order /\ day + 5 < day + 24 * ns_hour /\ forall u, seatsLocked m' u = if u <? day + 24 * ns_hour then seats order else 0
    | (m', Some ErrExpired) => m' = server /\ installID server = install order /\ day + 24 * ns_hour <= day + 5
    | (m', Some ErrWrongInstall) => m' = server /\ installID server <> install order | _ => False end) in H.
  destruct after as [m' e]. cbn [snd] in E3. subst e. exact (proj2 (proj2 H)).
Defined.
End Example.
